(* ===== verification/_CoqProject ===== *)
-Q . S2P
Prelude.v
GoStrings.v
Ids.v
Limits.v
Quota.v
World.v
Store.v
StoreInv.v
PgTx.v
Registry.v
RunnerCtl.v
Placement.v
Config.v
Sweeper.v
Auth.v
Handlers.v
HandlersInv.v
KeyCache.v
Tenants.v
Wire.v
Exec.v
ExecProxy.v
ExecManager.v
StreamLines.v
Firecracker.v
FirecrackerInv.v
FirecrackerSafety.v
Registration.v
Netfilter.v
Netrules.v
NetrulesInv.v
NetrulesPolicy.v
Docker.v
DockerInv.v
DockerSafety.v
DockerHost.v
ShellQuote.v
FirecrackerNet.v
Paths.v
Fs.v
Files.v
FilesInv.v
FilesCopy.v
EnvParse.v
LoadAPI.v
NetAddr.v
ServeMux.v
RunnerHTTP.v
LoadRunner.v
LoadDocker.v
LoadFirecracker.v
FirecrackerJail.v
FirecrackerAdmit.v
Trace.v
Certs.v
Metrics.v
Gateway.v
DaemonProxy.v
CommandRun.v
DockerClient.v
SweepPool.v
SweepLock.v
FirecrackerHost.v
AdminRoutes.v
Migrations.v
