(* ===== verification/Prelude.v ===== *)
(** * n8n sandbox service: verification library

    The service runs untrusted code in sandboxes for tenants.  An API server
    (src/internal/api) keeps sandboxes, tenants and keys in a store, places each
    create on a runner and proxies requests to it; runners (src/internal/runner)
    host the sandboxes and report to the API's registry; a daemon
    (src/internal/daemon) inside every sandbox runs the commands.  This library
    models the parts below in Rocq, translated from the Go sources by hand, and
    proves what makes them correct.  Everything is executable, so every theorem
    with hypotheses comes with a run that meets them (the lemmas [*_witness]).

    ** How the code is modelled

    - A Go function is a function of the same name; one that fails, calls out or
      changes state is an [act] over a [World.world] (below): [let!] sequences,
      [exit] returns early.  A handler is one definition, with its guards, calls
      and compensations in the code's order.
    - What the code cannot see is a parameter: [World.Env] gives the outcome of
      the nth interaction with the outside (an SQL statement done, failed, or
      applied with its reply lost; the clock; a cancelled request; a runner's
      reply), so a theorem about all environments covers every pattern of
      failures.  SHA-256, JSON decoding, [crypto/rand] and the network are such
      parameters too.
    - Concurrency is a step relation over the code's critical sections, with any
      number of threads, and invariants by induction on the steps.
    - int64 and uint64 are [Z], with wrap-around where the width matters
      (durations, unix seconds, sequence numbers); maps are [gmap]s; strings and
      bytes are byte strings.
    - Interfaces are classes: [Store.SandboxStore] with [StoreLaws], proved of
      the SQLite and the Postgres store and used by every handler theorem;
      [Registry.RegistryEnv] with [RegistryLaws]; [RunnerCtl.Runtime] with its
      contract; [Placement.HonestRunners] for what a capacity refusal means;
      [Netrules.IptablesLaws]; [FirecrackerAdmit.Machine] with [MachineLaws], proved of
      the runtime over any host ([FirecrackerAdmit.Host]); [Gateway.Endpoints] for handlers that may do anything;
      [Metrics.HTTPObserver] with [ObserverLaws], proved of both recorders.

    ** Files

    - [Prelude]: int64, the [act] monad with its [wp] rules and tactics, counting
      rows of a table, sums over lists, pools of threads.
    - [GoStrings], [Ids]: Go's strings as used; UUIDs ([isValidUUID], [isValidID]).
    - [Limits] (src/internal/limits): the per-key limiter is a counting semaphore.
    - [Quota] (api/tenant_quota.go): reservations of concurrent creates of a pod
      never let a tenant above its limit, over a heap of shared entries.
    - [World], [Store], [StoreInv], [PgTx] (api/store): rows, tables and both
      stores, statement by statement; integrity, the quota and revocation as
      invariants; Postgres transactions of several pods interleaved per
      statement, at the isolation each of them has.  [Migrations]: the schema statements of every start.
    - [Registry] (api/registry): memory and Postgres registries, picking the
      least used runner, fairness among equals.
    - [RunnerCtl] (runner/grpc_control.go, api/runnerctl): the control service and
      its client, and what a refusal for lack of capacity looks like.
    - [Placement] (api/placement.go), [Config], [Sweeper] (api/ttl.go): placing a
      create; idle windows; one pass of the sweeper.  [SweepPool] (the pool of ttl.go)
      and [SweepLock] ([TryRun] of api/store/postgres.go): the goroutines of a pass and
      the passes of several pods.
    - [Auth] (api/middleware_auth.go), [Handlers], [HandlersInv] (api/handlers.go),
      [KeyCache] (api/apikey_cache.go), [Tenants] (api/handlers_tenants.go):
      authentication, the sandbox and tenant handlers, and the key cache.
    - [Wire], [Exec], [ExecManager], [StreamLines] (src/internal/daemon) and
      [ExecProxy] (runner/exec_proxy.go): a command's output as events, their
      JSON lines byte by byte, the buffer streams follow, the table of
      executions, and the runner's proxy that resumes broken streams.  [CommandRun]
      (daemon/exec.go, user.go): the goroutines around one command.
    - [Firecracker], [FirecrackerInv], [FirecrackerSafety]
      (runner/runtime/firecracker.ee: runtime.go, stop_wake.go, crash.go): create,
      stop, wake, delete and guest deaths of microVM sandboxes, cut into their
      critical sections and host calls; the invariant; what follows.
    - [Netfilter]: what iptables rules say about a packet.  [Netrules],
      [NetrulesInv], [NetrulesPolicy] (runner/runtime/docker/netrules): the rules
      of the Docker bridges as the commands that build them, over any iptables
      ([Netrules.IptablesLaws]) whose calls may fail; the invariant; the verdicts.
    - [Docker], [DockerInv], [DockerSafety] (runner/runtime/docker: runtime.go,
      crash.go): the lifecycle of Docker sandboxes interleaved with crashes,
      restarts and lost events, and with errors that are taken for a missing
      container; [DockerHost] (docker_client.go,
      bridge_netfilter.go): the create command line and the start of the runner;
      [DockerClient] (docker_client.go, docker_api.go): what is learnt from docker's
      errors and answers, the image pull and the waits.
    - [ShellQuote] (src/internal/shellquote): quoting against how a shell reads words.
      [FirecrackerNet] (firecracker.ee/network, network_wirer.go): names, addresses
      and scripts of slot networks, and the wirer that builds and clears them.
    - [Paths], [Fs]: Go's [path/filepath] and [os] as far as the daemon uses them, over a
      tree of directories, files and links.  [Files], [FilesInv], [FilesCopy]
      (daemon/files.go, daemon.go): the file handlers and routes, what they may change,
      copying and moving.
    - [ServeMux]: Go's [http.ServeMux], matching escaped paths, for both routers.
    - [RunnerHTTP] (runner: server.go, proxy.go, handlers, middleware): the
      runner's HTTP server, its guards, wakes and the signals it sends the API.
    - [Registration] (api/grpc/runner_server.go, runner/register): heartbeat
      streams, the registry entries they keep, and a runner's cordon on its way to
      its entry.
    - [EnvParse], [NetAddr]: [strconv], [time.ParseDuration], [net.SplitHostPort],
      [net.ParseIP] and their kin as the loaders use them, and the loader monad.
      [LoadAPI] (api/config), [LoadRunner] (runner/config, runner/register),
      [LoadDocker], [LoadFirecracker] (the runtimes' config.go): environment
      variables to configurations, over the parameters [LoadAPI.Services] and
      [LoadRunner.RunnerURLs].
    - [FirecrackerJail] (firecracker.ee: bootparams.go, boot.go, kernelpin.go, disk.go
      and the jail scripts of runtime.go), [FirecrackerAdmit] (admission.go): boot
      parameters, the cold boot, the jail, and what makes a runner ready.
      [DaemonProxy] (daemon_proxy.go): the goroutines of a sandbox's proxy.
      [FirecrackerHost] (rootfs.go, reconcile.go, snapshot.go, api_client.go): copies of
      the golden assets, the clearing at the start, snapshot requests, waits.
    - [Trace] (src/internal/obs): the trace context of a request in both processes.
      [Certs] (src/internal/grpctls): certificates that are renewed on disk.
    - [Gateway] (api/gateway.go and the API's middleware): the layers around every
      handler, the metrics layer included, and the route table.
      [AdminRoutes] (api/handlers_runners.go, handlers_scaler.go, errors.go): the list of
      runners, the scaler's policy, error bodies.  [Metrics] (src/internal/metrics): the
      recorders and their middleware.

    ** What the theorems show

    - Nothing is lost or leaked by a create: whatever fails, no sandbox runs
      without its row, but for one that a create made whose reply was lost or whose
      rollback failed; the answer is truthful and the quota reservation comes
      back ([HandlersInv], [Placement], [RunnerCtl]); deletes remove both sides.
    - A store opens to the same database from every earlier version and after every
      start that was cut off, keeps its rows, and gives every sandbox a tenant
      ([Migrations]).
    - Quotas hold: within a pod, in each store, and across pods on a Postgres whose
      default isolation is read committed ([Quota], [StoreInv], [PgTx]).
    - Every handler of the API is guarded: whatever the path's escapes and whatever
      handlers do, it runs with an identity the caller's key proves, on the routes of
      its role, under its tenant's cap, and slots come back ([Gateway], [Auth]).
    - Tenants are kept apart: roles and tenants come only with their keys, another
      tenant's sandbox is as if it did not exist, listings show a tenant's own,
      provisioners stay within bounds, and a revoked key is not served after the
      revocation reached the replica ([Auth], [HandlersInv], [Tenants],
      [KeyCache]).
    - The sweeper acts only on what requests can no longer reach or whose runner
      is gone ([Sweeper]); a pass ends, keeps to its bound and counts what a plain
      loop counts ([SweepPool]); pods sweep one at a time while their sessions last
      ([SweepLock]).
    - A command's events reach the client exactly once and in order, its output
      survives chunking, repeating a request does not run it again, and every command
      ends in one terminal event, with or without its help ([Wire], [Exec],
      [ExecProxy], [ExecManager], [StreamLines], [CommandRun]).
    - A Firecracker sandbox never restores a snapshot its disk has moved on from, no
      microVM is lost, slots are never shared or leaked, and every claim ends
      ([FirecrackerSafety]); its guest is behind its namespace's rules, which the
      scripts put there whatever the interface is called ([FirecrackerNet]).
    - A Docker sandbox reaches neither private networks nor the host nor another
      sandbox once the runner has started, whichever commands fail
      ([NetrulesPolicy], [DockerHost]); a running container is protected at its
      present address unless docker reported it missing when it was to be removed, rules
      outlive their container, a recorded crash is reported
      before the sandbox is used again ([DockerSafety]).
    - A runner acts only on authenticated requests, and what it tells the API about a
      sandbox is the runtime's word, never the guest's ([RunnerHTTP]); a registered
      runner has a live stream, and a cordon reaches the runner's registry entry
      ([Registration]).
    - The daemon's file routes keep the tree of files well formed; an archive stays below
      its directory; a write without overwrite changes nothing; what was written is read
      back; copies without links on the way terminate and are complete; moves lose nothing ([FilesInv],
      [FilesCopy]).
    - A configuration that loads is sound: bounds, roles, TLS identities, and runners
      that the API will register ([LoadAPI], [LoadRunner], [LoadDocker],
      [LoadFirecracker]).
    - A Firecracker runner becomes ready only with the release, snapshot and canary it
      checked; its jail scripts stay in the jail and clear what they made; stopping a
      proxy waits for its connections, which all end, and leaves at most the watchers of
      their contexts, which end by themselves ([FirecrackerAdmit],
      [FirecrackerJail], [DaemonProxy]).
    - One trace id per request in both processes ([Trace]); a certificate is always
      there and follows the files once they settle, as far as their modification times
      show a change ([Certs]).
    - A start of the Firecracker runner clears what was left below its directories and
      nothing else, whichever removal fails ([FirecrackerHost]); the image pull goes on
      until it succeeds ([DockerClient]); no caller can add a metric series
      ([Metrics]).
    - Some results show behaviour that is not what the code or its documents
      intend: [HandlersInv.lost_insert_answers_dead_sandbox], [PgTx.repeatable_read_orphans],
      [DockerSafety.misread_remove_unprotects],
      [Registry.pg_pick_skips_locked],
      [Sweeper.running_never_deleted_without_idle_stop],
      [Exec.huge_after_wedges], [Registration.old_stream_unregisters_new],
      [NetrulesPolicy.other_bridge_spoofs],
      [DockerSafety.failed_wake_hides_next_crash],
      [Gateway.informational_hides_status], [Gateway.panic_not_logged],
      [DaemonProxy.accept_error_is_final], [CommandRun.finished_reported_as_timed_out],
      [DockerClient.missing_command_removes], [SweepLock.lost_session_sweeps_twice],
      [AdminRoutes.snapshot_path_kept], [Metrics.informational_counted], and
      [Files.copy_onto_itself] with the examples after it.

    ** Bounds and fuel

    [reserve] reads at most [Quota.maxReads] times and placement tries at most
    [createPlacementAttempts] runners, as in the code; running out is a value of
    its own that the theorems exclude ([PlaceFuel]).  [ReadLine] and [ReadBytes]
    loops take a byte per round, so the input's length is enough fuel, and the
    theorems about them are about the whole output.  [copyDir] and [walkDir] take the
    depth of the tree; [FilesCopy.copy_faithful] shows that more makes no
    difference.  The polling loops of [DockerClient] and [FirecrackerHost] take the number
    of rounds looked at, and the lemmas say how many are enough.  Sequence numbers stay
    below 2^63 events and the cache's generation below 2^64 invalidations.

    ** What is not modelled

    What only calls out: dialling in a network namespace, request transport (HTTP, gRPC,
    the TLS handshake), the gauges Prometheus reads at a scrape, [slog].  What only puts
    parts together: the commands' [main] and the runner's [app.Run].
    Generated code, scripts, charts, the SDK and the playground.  Docker, Firecracker,
    iptables, databases, hashes, X.509 and JSON are parameters. *)

From stdpp Require Export base gmap strings list fin_maps sets sorting.
From Stdlib Require Export ZArith Lia.

#[global] Open Scope Z_scope.

(** ** Machine integers

    Go's [int64] is [Z] with the wrap-around written out where the code relies
    on the width. *)

Definition int64_min : Z := - 2 ^ 63.
Definition int64_max : Z := 2 ^ 63 - 1.
Definition in_int64 (z : Z) : Prop := int64_min <= z <= int64_max.
Definition wrap64 (z : Z) : Z := (z + 2 ^ 63) mod 2 ^ 64 - 2 ^ 63.

#[global] Instance in_int64_dec z : Decision (in_int64 z).
Proof. unfold in_int64. apply _. Defined.

Lemma wrap64_small z : in_int64 z -> wrap64 z = z.
Proof.
  unfold in_int64, int64_min, int64_max, wrap64. intros H.
  rewrite Z.mod_small; lia.
Qed.

Lemma wrap64_range z : in_int64 (wrap64 z).
Proof.
  unfold in_int64, int64_min, int64_max, wrap64.
  pose proof (Z.mod_pos_bound (z + 2 ^ 63) (2 ^ 64) ltac:(lia)). lia.
Qed.

(** ** Stateful code with early returns

    [act W R A] is a Go function body over a world [W]: it either reaches the
    next statement with a value of type [A], or returns early with an [R]
    (an HTTP response, a Go [error]).  [let!] sequences, [exit] returns early. *)

Definition act (W R A : Type) : Type := W -> (R + A) * W.

Section act.
Context {W R : Type}.

Definition ret {A} (a : A) : act W R A := fun w => (inr a, w).
Definition exit {A} (r : R) : act W R A := fun w => (inl r, w).
Definition bind {A B} (m : act W R A) (k : A -> act W R B) : act W R B :=
  fun w => match m w with
           | (inl r, w') => (inl r, w')
           | (inr a, w') => k a w'
           end.
Definition get : act W R W := fun w => (inr w, w).
Definition modify (f : W -> W) : act W R unit := fun w => (inr tt, f w).

(** [catch m h]: run [m] as a call whose error is a value for the caller
    ([if err := f(); err != nil]). *)
Definition try {R' A} (m : act W R' A) : act W R (R' + A) :=
  fun w => let '(o, w') := m w in (inr o, w').

(** The whole body: every path of the code returns an [R]. *)
Definition body (m : act W R R) : W -> R * W :=
  fun w => match m w with
           | (inl r, w') => (r, w')
           | (inr r, w') => (r, w')
           end.
End act.

Declare Scope act_scope.
Delimit Scope act_scope with act.
Notation "'let!' x := m 'in' k" := (bind m (fun x => k))
  (at level 10, x name, m at level 100, k at level 200) : act_scope.
Notation "'let!' ' p := m 'in' k" := (bind m (fun p => k))
  (at level 10, p pattern, m at level 100, k at level 200) : act_scope.
Notation "'do!' m 'in' k" := (bind m (fun _ => k))
  (at level 10, m at level 100, k at level 200) : act_scope.

(** Weakest precondition of an [act]: [Q] judges every way of leaving it. *)
Definition wp {W R A} (m : act W R A) (Q : R + A -> W -> Prop) (w : W) : Prop :=
  let '(o, w') := m w in Q o w'.

Section wp.
Context {W R : Type}.

Lemma wp_ret {A} (a : A) (Q : R + A -> W -> Prop) w : Q (inr a) w -> wp (ret a) Q w.
Proof. done. Qed.

Lemma wp_exit {A} (r : R) (Q : R + A -> W -> Prop) w : Q (inl r) w -> wp (exit r) Q w.
Proof. done. Qed.

Lemma wp_get (Q : R + W -> W -> Prop) w : Q (inr w) w -> wp get Q w.
Proof. done. Qed.

Lemma wp_modify f (Q : R + unit -> W -> Prop) w : Q (inr tt) (f w) -> wp (modify f) Q w.
Proof. done. Qed.

Lemma wp_bind {A B} (m : act W R A) (k : A -> act W R B) (Q : R + B -> W -> Prop) w :
  wp m (fun o w' => match o with inl r => Q (inl r) w' | inr a => wp (k a) Q w' end) w ->
  wp (bind m k) Q w.
Proof. unfold wp, bind. by destruct (m w) as [[r|a] w']. Qed.

Lemma wp_try {R' A} (m : act W R' A) (Q : R + (R' + A) -> W -> Prop) w :
  wp m (fun o w' => Q (inr o) w') w -> wp (try m) Q w.
Proof. unfold wp, try. by destruct (m w). Qed.

Lemma wp_mono {A} (m : act W R A) (P Q : R + A -> W -> Prop) w :
  wp m P w -> (forall o w', P o w' -> Q o w') -> wp m Q w.
Proof. unfold wp. destruct (m w). auto. Qed.

Lemma wp_conj {A} (m : act W R A) (P Q : R + A -> W -> Prop) w :
  wp m P w -> wp m Q w -> wp m (fun o w' => P o w' /\ Q o w') w.
Proof. unfold wp. destruct (m w). auto. Qed.

(** The body of a handler satisfies what its [wp] says of every exit. *)
Lemma wp_body (m : act W R R) (Q : R -> W -> Prop) w :
  wp m (fun o w' => match o with inl r => Q r w' | inr r => Q r w' end) w ->
  let '(r, w') := body m w in Q r w'.
Proof. unfold wp, body. by destruct (m w) as [[r|r] w']. Qed.
End wp.

(** [wp_step] peels one statement; [wp_auto] peels all of them and splits the
    code's own conditionals. *)
Ltac wp_step :=
  lazymatch goal with
  | |- wp (bind _ _) _ _ => apply wp_bind
  | |- wp (ret _) _ _ => apply wp_ret
  | |- wp (exit _) _ _ => apply wp_exit
  | |- wp get _ _ => apply wp_get
  | |- wp (modify _) _ _ => apply wp_modify
  | |- wp (try _) _ _ => apply wp_try
  end.

Ltac wp_split :=
  match goal with
  | |- wp (if ?b then _ else _) _ _ => destruct b eqn:?
  | |- wp (match ?o with _ => _ end) _ _ => destruct o eqn:?
  end.

Ltac wp_auto := repeat first [ progress cbn beta iota | wp_step | wp_split ].

(** ** Counting the rows of a table *)

Definition count_if {K V} `{Countable K} (P : V -> bool) (m : gmap K V) : nat :=
  size (filter (fun kv => P kv.2 = true) m).

Section count_if.
Context {K V : Type} `{Countable K}.
Implicit Types (P : V -> bool) (m : gmap K V).

Lemma count_if_empty P : count_if P (∅ : gmap K V) = 0%nat.
Proof. unfold count_if. by rewrite map_filter_empty, map_size_empty. Qed.

Lemma count_if_insert_None P m k v :
  m !! k = None ->
  count_if P (<[k:=v]> m) = ((if P v then 1 else 0) + count_if P m)%nat.
Proof.
  intros Hk. unfold count_if. rewrite map_filter_insert. simpl.
  destruct (decide (P v = true)) as [E|E].
  - rewrite E, map_size_insert_None; [done|].
    apply map_lookup_filter_None. left. exact Hk.
  - apply not_true_is_false in E. rewrite E, delete_id by done. done.
Qed.

Lemma count_if_delete_Some P m k v :
  m !! k = Some v ->
  count_if P m = ((if P v then 1 else 0) + count_if P (delete k m))%nat.
Proof.
  intros Hk. rewrite <- (insert_id m k v Hk) at 1.
  rewrite <- insert_delete_eq. apply count_if_insert_None, lookup_delete_eq.
Qed.

Lemma count_if_delete_le P m k : (count_if P (delete k m) <= count_if P m)%nat.
Proof.
  destruct (m !! k) as [v|] eqn:E.
  - rewrite (count_if_delete_Some P m k v E). lia.
  - by rewrite delete_id.
Qed.

Lemma count_if_insert_same P m k v v' :
  m !! k = Some v -> P v = P v' -> count_if P (<[k:=v']> m) = count_if P m.
Proof.
  intros Hk HP. rewrite <- insert_delete_eq, count_if_insert_None by apply lookup_delete_eq.
  rewrite (count_if_delete_Some P m k v Hk). by rewrite HP.
Qed.

Lemma count_if_zero P m :
  count_if P m = 0%nat <-> forall k v, m !! k = Some v -> P v = false.
Proof.
  unfold count_if. rewrite map_size_empty_iff. split.
  - intros He k v Hk. destruct (P v) eqn:E; [|done].
    assert (filter (fun kv : K * V => P kv.2 = true) m !! k = Some v) as Hf
      by (apply map_lookup_filter_Some; done).
    by rewrite He, lookup_empty in Hf.
  - intros Hall. apply map_empty. intros k.
    apply map_lookup_filter_None. right. intros v Hk. simpl.
    rewrite (Hall k v Hk). done.
Qed.
End count_if.

(** ** Sums over a list *)

Lemma sum_insert {A} (f : A -> nat) l k a b : l !! k = Some a ->
  (sum_list_with f (<[k := b]> l) + f a = sum_list_with f l + f b)%nat.
Proof. revert k. induction l as [|x l IH]; intros [|k] H; simplify_eq/=; [lia|]. specialize (IH _ H). lia. Qed.

Lemma sum_snoc {A} (f : A -> nat) l b : sum_list_with f (l ++ [b]) = (sum_list_with f l + f b)%nat.
Proof. induction l; simpl; lia. Qed.

Lemma sum_zero {A} (f : A -> nat) l : sum_list_with f l = 0%nat -> Forall (fun a => f a = 0%nat) l.
Proof. induction l; simpl; [constructor|]. intros H. constructor; [lia|]. apply IHl. lia. Qed.

(** ** Threads

    A pool of concurrent activities as a finite map; [update_thread] moves one
    of them on, starts it or ends it. *)

Definition update_thread {T} (i : nat) (o : option T) (m : gmap nat T) : gmap nat T :=
  match o with Some t => <[i := t]> m | None => delete i m end.

Definition threads_where {T} (P : T -> bool) (m : gmap nat T) : Z := Z.of_nat (count_if P m).

Definition weight {T} (P : T -> bool) (o : option T) : Z :=
  match o with Some t => if P t then 1 else 0 | None => 0 end.

Lemma threads_where_update {T} (P : T -> bool) i o m :
  threads_where P (update_thread i o m) = threads_where P m - weight P (m !! i) + weight P o.
Proof.
  unfold threads_where, update_thread.
  assert (Hm : Z.of_nat (count_if P m) =
    weight P (m !! i) + Z.of_nat (count_if P (delete i m))).
  { destruct (m !! i) as [t|] eqn:E; simpl.
    - rewrite (count_if_delete_Some P m i t E). destruct (P t); lia.
    - by rewrite delete_id. }
  destruct o as [t|]; simpl.
  - rewrite <- insert_delete_eq, count_if_insert_None by apply lookup_delete_eq.
    destruct (P t); lia.
  - lia.
Qed.

#[global] Arguments update_thread : simpl never.

Lemma threads_where_nonneg {T} (P : T -> bool) (m : gmap nat T) : 0 <= threads_where P m.
Proof. unfold threads_where. lia. Qed.

Lemma threads_where_pos {T} (P : T -> bool) (m : gmap nat T) i t :
  m !! i = Some t -> P t = true -> 0 < threads_where P m.
Proof.
  intros Hi HP. unfold threads_where. rewrite (count_if_delete_Some P m i t Hi), HP. lia.
Qed.

Lemma threads_where_empty {T} (P : T -> bool) : threads_where P (∅ : gmap nat T) = 0.
Proof. unfold threads_where. by rewrite count_if_empty. Qed.

Lemma update_thread_Some {T} i (o : option T) m j t :
  update_thread i o m !! j = Some t <-> (i = j /\ o = Some t) \/ (i <> j /\ m !! j = Some t).
Proof.
  unfold update_thread. destruct o; [rewrite lookup_insert_Some | rewrite lookup_delete_Some]; naive_solver.
Qed.
