(* ===== verification/GoStrings.v ===== *)
(** * Go's strings package, as far as the service uses it

    Go strings are byte strings; [String.string] is a sequence of bytes, and
    comparison is bytewise, as in Go and in Postgres under [COLLATE "C"]. *)

From S2P Require Import Prelude.
From Stdlib Require Import OrdersEx.

Module GoStrings.

#[global] Abbreviation ascii := Ascii.ascii.

(** ** Order *)

(** Go's [a < b] on strings. *)
Definition str_lt (a b : string) : bool := String.ltb a b.
(** [strings.Compare(a, b) <= 0] *)
Definition str_le (a b : string) : Prop := String.leb a b = true.

#[global] Instance str_le_dec a b : Decision (str_le a b).
Proof. unfold str_le. apply _. Defined.

Lemma str_lt_compare a b : str_lt a b = true <-> String.compare a b = Lt.
Proof. unfold str_lt, String.ltb. destruct (String.compare a b); split; congruence. Qed.

Lemma str_lt_irrefl a : str_lt a a = false.
Proof.
  apply not_true_is_false. rewrite str_lt_compare.
  apply (@StrictOrder_Irreflexive _ _ OrdersEx.String_as_OT.lt_strorder).
Qed.

Lemma str_lt_trans a b c : str_lt a b = true -> str_lt b c = true -> str_lt a c = true.
Proof.
  rewrite !str_lt_compare. apply (@StrictOrder_Transitive _ _ OrdersEx.String_as_OT.lt_strorder).
Qed.

Lemma str_lt_total a b : str_lt a b = false -> str_lt b a = false -> a = b.
Proof.
  unfold str_lt, String.ltb. rewrite (String.compare_antisym b a).
  destruct (String.compare a b) eqn:E; simpl; intros; try done. by apply String.compare_eq_iff.
Qed.

Lemma str_le_lt a b : str_le a b <-> str_lt b a = false.
Proof.
  unfold str_le, str_lt, String.leb, String.ltb. rewrite (String.compare_antisym b a).
  destruct (String.compare a b); simpl; split; congruence.
Qed.

#[global] Instance str_le_trans : Transitive str_le.
Proof.
  intros a b c. rewrite !str_le_lt. intros H1 H2. apply not_true_is_false. intros H3.
  destruct (str_lt a b) eqn:E.
  - rewrite (str_lt_trans c a b) in H2 by done. congruence.
  - assert (a = b) as -> by (by apply str_lt_total). congruence.
Qed.

#[global] Instance str_le_total : Total str_le.
Proof. intros a b. apply String.leb_total. Qed.

#[global] Instance str_le_antisymm : AntiSymm eq str_le.
Proof. intros a b. apply String.leb_antisym. Qed.

(** ** Trimming and prefixes *)

Definition chars (s : string) : list ascii := String.list_ascii_of_string s.
Definition of_chars (l : list ascii) : string := String.string_of_list_ascii l.

Fixpoint drop_while (p : ascii -> bool) (l : list ascii) : list ascii :=
  match l with
  | [] => []
  | c :: l' => if p c then drop_while p l' else l
  end.

(** [strings.TrimRight(s, cutset)] with a cutset of one byte. *)
Definition TrimRight (s : string) (c : ascii) : string :=
  of_chars (reverse (drop_while (fun x => bool_decide (x = c)) (reverse (chars s)))).

(** [strings.HasPrefix] and the rest of [s] after the prefix. *)
Definition HasPrefix (s p : string) : bool := String.prefix p s.

Fixpoint strip_prefix (p l : list ascii) : option (list ascii) :=
  match p, l with
  | [], _ => Some l
  | a :: p', b :: l' => if decide (a = b) then strip_prefix p' l' else None
  | _, [] => None
  end.

Definition byte (n : N) : ascii := Ascii.ascii_of_N n.

(** The UTF-8 encodings of [unicode.IsSpace]. *)
Definition spaces : list (list ascii) :=
  (fun n => [byte n]) <$> [9; 10; 11; 12; 13; 32]%N.
Definition wide_spaces : list (list ascii) :=
  [[byte 194; byte 133]; [byte 194; byte 160]; [byte 225; byte 154; byte 128]] ++
  ((fun n => [byte 226; byte 128; byte n]) <$>
     [128; 129; 130; 131; 132; 133; 134; 135; 136; 137; 138; 168; 169; 175]%N) ++
  [[byte 226; byte 129; byte 159]; [byte 227; byte 128; byte 128]].

Fixpoint strip_any (seps : list (list ascii)) (l : list ascii) : option (list ascii) :=
  match seps with
  | [] => None
  | s :: seps' =>
      match strip_prefix s l with
      | Some l' => Some l'
      | None => strip_any seps' l
      end
  end.

(** One separator goes per round, so the length of [l] is enough fuel. *)
Fixpoint trim_front (fuel : nat) (seps : list (list ascii)) (l : list ascii) : list ascii :=
  match fuel with
  | O => l
  | S n => match strip_any seps l with Some l' => trim_front n seps l' | None => l end
  end.

Definition TrimSpace (s : string) : string :=
  let l := trim_front (String.length s) (spaces ++ wide_spaces) (chars s) in
  of_chars (reverse (trim_front (length l) (reverse <$> (spaces ++ wide_spaces)) (reverse l))).

Lemma TrimRight_last s c l : chars (TrimRight s c) <> l ++ [c].
Proof.
  unfold TrimRight, chars, of_chars. rewrite String.list_ascii_of_string_of_list_ascii.
  intros H. apply (f_equal reverse) in H. rewrite reverse_involutive, reverse_snoc in H.
  induction (reverse (String.list_ascii_of_string s)) as [|x r IH]; simpl in H; [done|].
  case_bool_decide; [by apply IH|congruence].
Qed.

(** ** Strings and their bytes *)

Lemma strip_prefix_Some p l r : strip_prefix p l = Some r -> l = p ++ r.
Proof.
  revert l. induction p as [|c p IH]; intros [|x l]; simpl; try done; [by intros [= <-]..|]. case_decide as Hc; [|done]. intros Hr. rewrite (IH _ Hr). by subst.
Qed.

Lemma chars_app a b : chars (a +:+ b) = chars a ++ chars b.
Proof. induction a as [|x a IH]; [done|]. change (chars (String x a)) with (x :: chars a). simpl. by rewrite <- IH. Qed.

Lemma of_chars_chars s : of_chars (chars s) = s.
Proof. apply String.string_of_list_ascii_of_string. Qed.

Lemma chars_of_chars l : chars (of_chars l) = l.
Proof. apply String.list_ascii_of_string_of_list_ascii. Qed.

Lemma chars_inj a b : chars a = chars b -> a = b.
Proof. intros H. by rewrite <- (of_chars_chars a), H, of_chars_chars. Qed.

End GoStrings.
