(* ===== verification/Ids.v ===== *)
(** * Identifiers

    Sandbox, tenant and key ids are lower-case UUIDs ([isValidUUID] of
    [internal/api/handlers.go], [isValidID] of [internal/runner/handlers.go],
    the same regular expression).  Also hexadecimal text ([encoding/hex]). *)

From S2P Require Import Prelude GoStrings.

Module Ids.
Import GoStrings.

Definition code (c : ascii) : N := Ascii.N_of_ascii c.

(** [[0-9a-f]] *)
Definition lower_hex (c : ascii) : bool :=
  ((48 <=? code c) && (code c <=? 57) || (97 <=? code c) && (code c <=? 102))%N.

Definition hex_digit (n : N) : ascii := byte (if (n <? 10)%N then 48 + n else 87 + n)%N.

(** [hex.EncodeToString] *)
Definition hex_encode (l : list ascii) : list ascii :=
  l ≫= fun c => [hex_digit (Ascii.N_of_ascii c / 16)%N; hex_digit (Ascii.N_of_ascii c mod 16)%N].

(** What [^[0-9a-f]{8}-[0-9a-f]{4}-[0-9a-f]{4}-[0-9a-f]{4}-[0-9a-f]{12}$] asks of each
    position: a hex digit ([true]) or a dash. *)
Definition uuid_shape : list bool :=
  replicate 8 true ++ [false] ++ replicate 4 true ++ [false] ++ replicate 4 true ++ [false] ++
  replicate 4 true ++ [false] ++ replicate 12 true.

Fixpoint matches (shape : list bool) (l : list ascii) : bool :=
  match shape, l with
  | [], [] => true
  | hex :: shape', c :: l' =>
      (if hex then lower_hex c else bool_decide (c = byte 45)) && matches shape' l'
  | _, _ => false
  end.

Definition isValidUUID (id : string) : bool :=
  bool_decide (id <> "") && matches uuid_shape (chars id).

Definition isValidID (id : string) : bool :=
  bool_decide (id <> "") && matches uuid_shape (chars id).

Lemma matches_length shape l : matches shape l = true -> length l = length shape.
Proof.
  revert l. induction shape as [|b shape IH]; intros [|c l]; simpl; try done.
  intros [_ H]%andb_true_iff. by rewrite (IH l H).
Qed.

Lemma valid_uuid_length id : isValidUUID id = true -> length (chars id) = 36%nat.
Proof. intros [_ H]%andb_true_iff. exact (matches_length _ _ H). Qed.

Lemma hex_digit_lower n : (n < 16)%N -> lower_hex (hex_digit n) = true.
Proof.
  intros H. assert (Hn : n ∈ N.of_nat <$> seq 0 16).
  { apply list_elem_of_fmap. exists (N.to_nat n). split; [lia|]. apply elem_of_seq. lia. }
  clear H. revert n Hn. apply Forall_forall. repeat constructor.
Qed.

Lemma hex_encode_lower l : Forall (fun c => lower_hex c = true) (hex_encode l).
Proof.
  unfold hex_encode. induction l as [|c l IH]; [constructor|]. simpl.
  assert (Hb : (Ascii.N_of_ascii c < 256)%N) by apply Ascii.N_ascii_bounded.
  constructor; [|constructor; [|exact IH]]; apply hex_digit_lower.
  - apply N.Div0.div_lt_upper_bound. lia.
  - by apply N.mod_lt.
Qed.

Lemma length_hex_encode l : length (hex_encode l) = (2 * length l)%nat.
Proof.
  induction l as [|c l IH]; [done|]. change (S (S (length (hex_encode l))) = (2 * S (length l))%nat). lia.
Qed.

End Ids.
