(* ===== verification/Limits.v ===== *)
(** * In-flight request limiter ([internal/limits/limits.go])

    [KeyedLimiter] caps how many requests are in progress per key.  The model
    keeps the code's map of counts.  The specification is a counting semaphore
    per key: a bag of holders that admits while it is below the maximum. *)

From S2P Require Import Prelude.

Module Limits.

Record KeyedLimiter := mkLimiter {
  lim_max : Z;
  lim_counts : gmap string Z;
}.

Definition NewKeyedLimiter (max : Z) : KeyedLimiter :=
  {| lim_max := max; lim_counts := ∅ |}.

(** A missing key reads as Go's zero value. *)
Definition count_of (k : KeyedLimiter) (key : string) : Z :=
  default 0 (lim_counts k !! key).

Definition TryAcquire (k : KeyedLimiter) (key : string) : bool * KeyedLimiter :=
  if decide (lim_max k <= 0) then (true, k)
  else if decide (count_of k key >= lim_max k) then (false, k)
  else (true, mkLimiter (lim_max k) (<[key := count_of k key + 1]> (lim_counts k))).

Definition Release (k : KeyedLimiter) (key : string) : KeyedLimiter :=
  if decide (lim_max k <= 0) then k
  else
    let n := count_of k key in
    if decide (n > 1) then mkLimiter (lim_max k) (<[key := n - 1]> (lim_counts k))
    else mkLimiter (lim_max k) (delete key (lim_counts k)).

(** ** Specification: one counting semaphore per key *)

(** What callers hold: the number of slots taken and not given back. *)
Definition holders := string -> Z.

Definition no_holders : holders := fun _ => 0.
Definition add_holder (h : holders) (key : string) (d : Z) : holders :=
  fun key' => if decide (key' = key) then h key' + d else h key'.

(** One call on the limiter, with what the caller holds before and after.  A
    caller releases only a slot it took ("call Release with the same key once
    for every true"). *)
Inductive step : KeyedLimiter * holders -> KeyedLimiter * holders -> Prop :=
| step_admitted k h key k' :
    TryAcquire k key = (true, k') ->
    step (k, h) (k', add_holder h key 1)
| step_refused k h key k' :
    TryAcquire k key = (false, k') ->
    step (k, h) (k', h)
| step_release k h key :
    0 < h key ->
    step (k, h) (Release k key, add_holder h key (-1)).

Definition reachable (max : Z) (s : KeyedLimiter * holders) : Prop :=
  rtc step (NewKeyedLimiter max, no_holders) s.

(** The representation invariant: the map holds exactly the keys in use, each
    with its number of holders, and nobody is past the maximum. *)
Definition represents (max : Z) (s : KeyedLimiter * holders) : Prop :=
  let '(k, h) := s in
  lim_max k = max /\
  (forall key, 0 <= h key) /\
  (0 < max ->
     (forall key, h key <= max) /\
     (forall key, lim_counts k !! key = if decide (h key = 0) then None else Some (h key))).

Lemma represents_init max : represents max (NewKeyedLimiter max, no_holders).
Proof.
  split; [done|]. split; [unfold no_holders; lia|]. intros Hmax.
  unfold no_holders. split; [lia|]. intros key. simpl. by rewrite lookup_empty.
Qed.

Lemma represents_count max k h key :
  represents max (k, h) -> 0 < max -> count_of k key = h key.
Proof.
  intros (_ & _ & Hrep) Hmax. destruct (Hrep Hmax) as [_ Hl].
  unfold count_of. rewrite Hl. case_decide; simpl; lia.
Qed.

Ltac add_holder_cases := unfold add_holder; repeat case_decide; subst; simplify_map_eq.

Lemma represents_step max s s' : represents max s -> step s s' -> represents max s'.
Proof.
  intros Hr Hs. destruct Hs as [k h key k' E | k h key k' E | k h key Hk].
  - pose proof Hr as (Hm & Hpos & Hrep). unfold TryAcquire in E.
    rewrite Hm in E. case_decide as Hz; simplify_eq.
    + split; [done|]. split; [intros key'; specialize (Hpos key'); add_holder_cases; lia | lia].
    + case_decide as Hfull; simplify_eq. destruct Hrep as [Hle Hl]; [lia|].
      rewrite (represents_count _ _ _ key Hr) in Hfull by lia.
      rewrite (represents_count _ _ _ key Hr) by lia.
      split; [done|]. split; [intros key'; specialize (Hpos key'); add_holder_cases; lia|].
      intros _. split; [intros key'; specialize (Hle key'); add_holder_cases; lia|].
      intros key'. specialize (Hpos key'). simpl.
      destruct (decide (key' = key)) as [->|Hne].
      * rewrite lookup_insert_eq. add_holder_cases; [lia|done].
      * rewrite lookup_insert_ne by done. rewrite Hl. by add_holder_cases.
  - pose proof Hr as (Hm & _). unfold TryAcquire in E. repeat case_decide; simplify_eq; done.
  - pose proof Hr as (Hm & Hpos & Hrep). unfold Release. rewrite Hm.
    case_decide as Hz.
    + split; [done|]. split; [intros key'; specialize (Hpos key'); add_holder_cases; lia | lia].
    + destruct Hrep as [Hle Hl]; [lia|].
      rewrite (represents_count _ _ _ key Hr) by lia.
      assert (Hpos' : forall key', 0 <= add_holder h key (-1) key')
        by (intros key'; specialize (Hpos key'); add_holder_cases; lia).
      assert (Hle' : forall key', add_holder h key (-1) key' <= max)
        by (intros key'; specialize (Hle key'); add_holder_cases; lia).
      case_decide as Hgt; (split; [done|]); (split; [done|]); intros _; (split; [done|]); intros key'; simpl;
        destruct (decide (key' = key)) as [->|Hne];
        rewrite ?lookup_insert_eq, ?lookup_insert_ne, ?lookup_delete_eq, ?lookup_delete_ne, ?Hl by done;
        unfold add_holder; rewrite ?decide_True, ?(decide_False (P := key' = key)) by done;
        repeat case_decide; try done; try lia; f_equal; lia.
Qed.

Lemma represents_reachable max s : reachable max s -> represents max s.
Proof.
  unfold reachable. intros H. remember (NewKeyedLimiter max, no_holders) as s0 eqn:E.
  assert (represents max s0) as H0 by (subst; apply represents_init).
  clear E. induction H; eauto using represents_step.
Qed.

(** C40: On every reachable state of a limiter with a positive maximum,
    [TryAcquire] behaves as a counting semaphore per key: it admits a caller
    exactly when fewer than [max] holders of that key are in progress, no key
    ever has more than [max] holders, and a key nobody holds is not
    remembered. *)
Theorem limiter_is_semaphore (m : Z) (k : KeyedLimiter) (h : holders) (key : string) :
  0 < m -> reachable m (k, h) ->
  ((TryAcquire k key).1 = true <-> h key < m) /\
  h key <= m /\
  (h key = 0 <-> lim_counts k !! key = None).
Proof.
  intros Hm Hr. apply represents_reachable in Hr.
  pose proof (represents_count _ _ _ key Hr Hm) as Hc.
  destruct Hr as (Hmax & Hpos & Hrep). destruct (Hrep Hm) as [Hle Hl].
  split; [|split; [done|]].
  - unfold TryAcquire. rewrite Hmax, decide_False by lia. rewrite Hc.
    case_decide; simpl; split; intros; try done; lia.
  - rewrite Hl. case_decide; split; intros; try done; congruence.
Qed.

Lemma limiter_is_semaphore_witness :
  reachable 1 (mkLimiter 1 {["t" := 1]}, add_holder no_holders "t" 1) /\
  (TryAcquire (mkLimiter 1 {["t" := 1]}) "t").1 = false.
Proof.
  assert (Hr : reachable 1 (mkLimiter 1 {["t" := 1]}, add_holder no_holders "t" 1)).
  { apply rtc_once. by apply (step_admitted _ _ "t"). }
  split; [exact Hr|].
  destruct (limiter_is_semaphore 1 _ _ "t" ltac:(lia) Hr) as [[H _] _].
  destruct (TryAcquire _ _).1; [|done]. specialize (H eq_refl).
  unfold add_holder, no_holders in H. simpl in H. lia.
Defined.

(** ** A request that takes a slot and gives it back *)

Definition same_counts (l l' : KeyedLimiter) : Prop := lim_max l' = lim_max l /\ forall key, count_of l' key = count_of l key.

Lemma count_taken l id n : count_of (mkLimiter (lim_max l) (<[id := n]> (lim_counts l))) id = n.
Proof. unfold count_of. simpl. by rewrite lookup_insert_eq. Qed.

Lemma acquired l key l' : TryAcquire l key = (true, l') -> 0 <= count_of l key -> 0 < lim_max l ->
  1 <= count_of l' key <= lim_max l.
Proof.
  unfold TryAcquire. intros H Hpos Hmax. rewrite decide_False in H by lia. case_decide; [done|]. injection H as <-.
  rewrite count_taken. lia.
Qed.

Lemma acquire_release l id l' : TryAcquire l id = (true, l') -> 0 <= count_of l id -> same_counts l (Release l' id).
Proof.
  unfold TryAcquire, Release, same_counts. case_decide; [intros [= <-]; by rewrite decide_True|]. case_decide; [done|].
  intros [= <-] Hpos. simpl. rewrite decide_False by done.
  rewrite count_taken. case_decide as Hn; (split; [done|]); intros key; (destruct (decide (key = id)) as [->|Hne]).
  - unfold count_of at 1. simpl. rewrite lookup_insert_eq. simpl. lia.
  - unfold count_of. simpl. by rewrite !lookup_insert_ne.
  - unfold count_of at 1. simpl. rewrite lookup_delete_eq. simpl. lia.
  - unfold count_of. simpl. by rewrite lookup_delete_ne, lookup_insert_ne.
Qed.

End Limits.
