(* ===== verification/Quota.v ===== *)
(** * Per-pod tenant quota ([internal/api/tenant_quota.go])

    [reserve] checks [max_sandboxes] before a create reaches a runner.  Its count
    of saved rows is read with the mutex released, so other creates reserve,
    save and release meanwhile.  The model is the code's critical sections - the
    heap of [tenantCreates] entries that release functions keep pointers into
    included - run by any number of concurrent creates in any order. *)

From S2P Require Import Prelude.

Module Quota.

Record tenantCreates := mkEntry {
  inProgress : Z;
  saved : Z;
  reading : Z;
}.

(** [q.tenants] maps a tenant to a pointer; entries live on the heap. *)
Record tenantQuota := mkQuota {
  q_tenants : gmap string nat;
  q_heap : gmap nat tenantCreates;
  q_next : nat;
}.

Definition newTenantQuota : tenantQuota := mkQuota ∅ ∅ 0.

Definition entry (q : tenantQuota) (l : nat) : tenantCreates :=
  default (mkEntry 0 0 0) (q_heap q !! l).

Definition set_entry (l : nat) (e : tenantCreates) (q : tenantQuota) : tenantQuota :=
  mkQuota (q_tenants q) (<[l := e]> (q_heap q)) (q_next q).

Definition forgetIfIdle (tid : string) (l : nat) (q : tenantQuota) : tenantQuota :=
  let e := entry q l in
  if bool_decide (inProgress e = 0) && bool_decide (reading e = 0)
  then mkQuota (delete tid (q_tenants q)) (q_heap q) (q_next q)
  else q.

Definition maxReads : nat := 3.

(** From [q.mu.Lock()] to the unlock in [countUnlocked]: find or make the entry,
    register as reading, remember how many creates were saved. *)
Definition reserve_enter (tid : string) (q : tenantQuota) : nat * Z * tenantQuota :=
  let '(l, q1) :=
    match q_tenants q !! tid with
    | Some l => (l, q)
    | None =>
        (q_next q,
         mkQuota (<[tid := q_next q]> (q_tenants q)) (<[q_next q := mkEntry 0 0 0]> (q_heap q)) (S (q_next q)))
    end in
  let e := entry q1 l in
  let q2 := set_entry l (mkEntry (inProgress e) (saved e) (reading e + 1)) q1 in
  (l, saved e, q2).

Inductive decision := Granted | Refused | ReadAgain (savedBefore : Z).

(** The deferred [e.reading--; q.forgetIfIdle] of a reserve that returns. *)
Definition stop_reading (tid : string) (l : nat) (q : tenantQuota) : tenantQuota :=
  let e := entry q l in
  forgetIfIdle tid l (set_entry l (mkEntry (inProgress e) (saved e) (reading e - 1)) q).

(** From the relock with [n] in hand to the return, or to the next read. *)
Definition reserve_decide (tid : string) (limit : Z) (l : nat) (read : nat) (savedBefore n : Z)
    (q : tenantQuota) : decision * tenantQuota :=
  let e := entry q l in
  let savedDuring := saved e - savedBefore in
  if decide (n + inProgress e + savedDuring < limit) then
    (Granted, stop_reading tid l (set_entry l (mkEntry (inProgress e + 1) (saved e) (reading e)) q))
  else if bool_decide (savedDuring = 0) || bool_decide (read = maxReads) then
    (Refused, stop_reading tid l q)
  else (ReadAgain (saved e), q).

(** The release function of a reservation; [sync.Once] makes later calls no-ops. *)
Definition release (tid : string) (l : nat) (was_saved : bool) (q : tenantQuota) : tenantQuota :=
  let e := entry q l in
  forgetIfIdle tid l
    (set_entry l (mkEntry (inProgress e - 1) (if was_saved then saved e + 1 else saved e) (reading e)) q).

(** ** Concurrent creates *)

(** One create of a tenant on this pod: reading the saved count; with the count
    [n] read, about to relock; holding a reservation, not saved; saved, not
    released yet. *)
Inductive thread :=
| Reading (tid : string) (l : nat) (limit : Z) (read : nat) (savedBefore : Z)
| Counted (tid : string) (l : nat) (limit : Z) (read : nat) (savedBefore n : Z)
| Reserved (tid : string) (l : nat)
| Saved (tid : string) (l : nat).

Definition tid_of (t : thread) : string :=
  match t with Reading x _ _ _ _ | Counted x _ _ _ _ _ | Reserved x _ | Saved x _ => x end.
Definition loc_of (t : thread) : nat :=
  match t with Reading _ l _ _ _ | Counted _ l _ _ _ _ | Reserved _ l | Saved _ l => l end.

Definition is_reading (tid : string) (t : thread) : bool :=
  bool_decide (tid_of t = tid) && match t with Reading _ _ _ _ _ | Counted _ _ _ _ _ _ => true | _ => false end.
Definition is_reserved (tid : string) (t : thread) : bool :=
  bool_decide (tid_of t = tid) && match t with Reserved _ _ => true | _ => false end.
Definition is_saved (tid : string) (t : thread) : bool :=
  bool_decide (tid_of t = tid) && match t with Saved _ _ => true | _ => false end.

(** [sys_rows tid]: the tenant's sandboxes in the store. *)
Record sys := mkSys {
  sys_quota : tenantQuota;
  sys_rows : string -> Z;
  sys_threads : gmap nat thread;
}.

Definition add_rows (tid : string) (d : Z) (rows : string -> Z) : string -> Z :=
  fun t => if decide (t = tid) then rows t + d else rows t.

(** [limits] bounds the limit a tenant's creates were started with. *)
Inductive step (limits : string -> Z) : sys -> sys -> Prop :=
| step_enter q rows ts i tid limit l sb q' :
    ts !! i = None -> 0 < limit <= limits tid ->
    reserve_enter tid q = (l, sb, q') ->
    step limits (mkSys q rows ts) (mkSys q' rows (update_thread i (Some (Reading tid l limit 1 sb)) ts))
| step_count q rows ts i tid l limit read sb :
    ts !! i = Some (Reading tid l limit read sb) ->
    step limits (mkSys q rows ts)
      (mkSys q rows (update_thread i (Some (Counted tid l limit read sb (rows tid))) ts))
| step_count_error q rows ts i tid l limit read sb :
    ts !! i = Some (Reading tid l limit read sb) ->
    step limits (mkSys q rows ts) (mkSys (stop_reading tid l q) rows (update_thread i None ts))
| step_admit q rows ts i tid l limit read sb n q' :
    ts !! i = Some (Counted tid l limit read sb n) ->
    reserve_decide tid limit l read sb n q = (Granted, q') ->
    step limits (mkSys q rows ts) (mkSys q' rows (update_thread i (Some (Reserved tid l)) ts))
| step_refuse q rows ts i tid l limit read sb n q' :
    ts !! i = Some (Counted tid l limit read sb n) ->
    reserve_decide tid limit l read sb n q = (Refused, q') ->
    step limits (mkSys q rows ts) (mkSys q' rows (update_thread i None ts))
| step_again q rows ts i tid l limit read sb n sb' q' :
    ts !! i = Some (Counted tid l limit read sb n) ->
    reserve_decide tid limit l read sb n q = (ReadAgain sb', q') ->
    step limits (mkSys q rows ts)
      (mkSys q' rows (update_thread i (Some (Reading tid l limit (S read) sb')) ts))
| step_save q rows ts i tid l :
    ts !! i = Some (Reserved tid l) ->
    step limits (mkSys q rows ts) (mkSys q (add_rows tid 1 rows) (update_thread i (Some (Saved tid l)) ts))
| step_release_saved q rows ts i tid l :
    ts !! i = Some (Saved tid l) ->
    step limits (mkSys q rows ts) (mkSys (release tid l true q) rows (update_thread i None ts))
| step_release_unsaved q rows ts i tid l maybe_saved :
    ts !! i = Some (Reserved tid l) ->
    step limits (mkSys q rows ts) (mkSys (release tid l maybe_saved q) rows (update_thread i None ts))
| step_delete_row q rows ts tid :
    0 < rows tid ->
    step limits (mkSys q rows ts) (mkSys q (add_rows tid (-1) rows) ts).

(** ** Invariant *)

Section invariant.
Context (limits : string -> Z).

Definition nread (ts : gmap nat thread) tid := threads_where (is_reading tid) ts.
Definition nres (ts : gmap nat thread) tid := threads_where (is_reserved tid) ts.
Definition nsaved (ts : gmap nat thread) tid := threads_where (is_saved tid) ts.

(** What a thread may rely on.  The last line is why counting the creates saved
    during the read is enough: a row added since the count was read belongs to a
    create that is still in progress, or released as saved during the read. *)
Definition thread_ok (q : tenantQuota) (rows : string -> Z) (ts : gmap nat thread) (t : thread) : Prop :=
  match t with
  | Reading tid l limit read sb => 0 < limit <= limits tid /\ sb <= saved (entry q l) /\ (1 <= read <= maxReads)%nat
  | Counted tid l limit read sb n =>
      0 < limit <= limits tid /\ sb <= saved (entry q l) /\ (1 <= read <= maxReads)%nat /\
      rows tid - n <= nsaved ts tid + (saved (entry q l) - sb)
  | _ => True
  end.

Record inv (s : sys) : Prop := {
  inv_map i t : sys_threads s !! i = Some t -> q_tenants (sys_quota s) !! tid_of t = Some (loc_of t);
  inv_entry tid l : q_tenants (sys_quota s) !! tid = Some l ->
    (l < q_next (sys_quota s))%nat /\
    inProgress (entry (sys_quota s) l) = nres (sys_threads s) tid + nsaved (sys_threads s) tid /\
    reading (entry (sys_quota s) l) = nread (sys_threads s) tid /\
    0 < nres (sys_threads s) tid + nsaved (sys_threads s) tid + nread (sys_threads s) tid;
  inv_inj tid tid' l : q_tenants (sys_quota s) !! tid = Some l ->
    q_tenants (sys_quota s) !! tid' = Some l -> tid = tid';
  inv_thread i t : sys_threads s !! i = Some t ->
    thread_ok (sys_quota s) (sys_rows s) (sys_threads s) t;
  inv_rows tid : 0 <= sys_rows s tid /\ sys_rows s tid + nres (sys_threads s) tid <= limits tid;
}.

Definition idle (e : tenantCreates) : bool :=
  bool_decide (inProgress e = 0) && bool_decide (reading e = 0).

(** The effect of one critical section on the quota: the tenant's entry becomes
    [e'], and is forgotten when that leaves it idle. *)
Definition updates (tid : string) (l : nat) (e' : tenantCreates) (q q' : tenantQuota) : Prop :=
  entry q' l = e' /\
  (forall l', l' <> l -> entry q' l' = entry q l') /\
  (q_next q <= q_next q')%nat /\ (l < q_next q')%nat /\
  q_tenants q' = (if idle e' then delete tid (q_tenants q) else <[tid := l]> (q_tenants q)).

(** Counts of one tenant's threads when one of them moves on. *)
Definition moved (P : string -> thread -> bool) tid i (new : option thread) (ts : gmap nat thread) : Z :=
  threads_where (P tid) ts - weight (P tid) (ts !! i) + weight (P tid) new.

Lemma thread_counted ts i t :
  ts !! i = Some t -> 0 < nres ts (tid_of t) + nsaved ts (tid_of t) + nread ts (tid_of t).
Proof.
  intros Hi. unfold nres, nsaved, nread.
  pose proof (threads_where_nonneg (is_reserved (tid_of t)) ts).
  pose proof (threads_where_nonneg (is_saved (tid_of t)) ts).
  pose proof (threads_where_nonneg (is_reading (tid_of t)) ts).
  destruct t as [tid l ? ? ?|tid l ? ? ? ?|tid l|tid l]; simpl in *;
    [ pose proof (threads_where_pos (is_reading tid) ts i _ Hi) as Hpos
    | pose proof (threads_where_pos (is_reading tid) ts i _ Hi) as Hpos
    | pose proof (threads_where_pos (is_reserved tid) ts i _ Hi) as Hpos
    | pose proof (threads_where_pos (is_saved tid) ts i _ Hi) as Hpos ];
    (ospecialize (Hpos _); [|lia]);
    unfold is_reading, is_reserved, is_saved; simpl; by rewrite bool_decide_eq_true_2.
Qed.

Lemma counted_other tid tid' (o : option thread) :
  tid' <> tid -> (forall t, o = Some t -> tid_of t = tid) ->
  weight (is_reading tid') o = 0 /\ weight (is_reserved tid') o = 0 /\ weight (is_saved tid') o = 0.
Proof.
  intros Hne Ho. destruct o as [t|]; [|done]. specialize (Ho t eq_refl). simpl.
  unfold is_reading, is_reserved, is_saved. rewrite bool_decide_eq_false_2 by congruence. done.
Qed.

(** One critical section of tenant [tid], run by thread [i]: what it has to
    establish, shared by the lemmas that rebuild the invariant after it. *)
Record one_update (s : sys) i tid l e' q' rows' (new : option thread) : Prop := {
  ou_inv : inv s;
  ou_old t : sys_threads s !! i = Some t -> tid_of t = tid;
  ou_new t : new = Some t -> tid_of t = tid /\ loc_of t = l;
  ou_loc : q_tenants (sys_quota s) !! tid = Some l \/
           (q_tenants (sys_quota s) !! tid = None /\ l = q_next (sys_quota s));
  ou_upd : updates tid l e' (sys_quota s) q';
  ou_ip : inProgress e' = nres (update_thread i new (sys_threads s)) tid + nsaved (update_thread i new (sys_threads s)) tid;
  ou_rd : reading e' = nread (update_thread i new (sys_threads s)) tid;
  ou_rows tid' : tid' <> tid -> rows' tid' = sys_rows s tid';
}.

Section after_update.
Context s i tid l e' q' rows' new (U : one_update s i tid l e' q' rows' new).
Let q := sys_quota s.
Let ts := sys_threads s.
Let ts' := update_thread i new ts.

Lemma after_counts tid' : tid' <> tid ->
  nres ts' tid' = nres ts tid' /\ nsaved ts' tid' = nsaved ts tid' /\ nread ts' tid' = nread ts tid'.
Proof using U.
  intros Hne. unfold nres, nsaved, nread, ts'. rewrite !threads_where_update.
  destruct (counted_other tid tid' (ts !! i)) as (-> & -> & ->); [done|apply (ou_old _ _ _ _ _ _ _ _ U)|].
  destruct (counted_other tid tid' new) as (-> & -> & ->);
    [done|intros t Ht; by apply (ou_new _ _ _ _ _ _ _ _ U)|]. lia.
Qed.

Lemma after_loc_ne tid' l' : tid' <> tid -> q_tenants q !! tid' = Some l' -> l' <> l.
Proof using U.
  intros Hne Hl' ->. destruct (ou_loc _ _ _ _ _ _ _ _ U) as [Hloc|[_ Hloc]].
  - apply Hne. by eapply (inv_inj _ (ou_inv _ _ _ _ _ _ _ _ U)).
  - destruct (inv_entry _ (ou_inv _ _ _ _ _ _ _ _ U) tid' l Hl') as [? _]. lia.
Qed.

Lemma after_lookup_ne tid' : tid' <> tid -> q_tenants q' !! tid' = q_tenants q !! tid'.
Proof using U.
  intros Hne. destruct (ou_upd _ _ _ _ _ _ _ _ U) as (_ & _ & _ & _ & ->). destruct (idle e');
    [by rewrite lookup_delete_ne by done | by rewrite lookup_insert_ne by done].
Qed.

Lemma after_idle : idle e' = false <-> 0 < nres ts' tid + nsaved ts' tid + nread ts' tid.
Proof using U.
  unfold idle. rewrite (ou_ip _ _ _ _ _ _ _ _ U), (ou_rd _ _ _ _ _ _ _ _ U). fold ts ts'.
  unfold nres, nsaved, nread.
  pose proof (threads_where_nonneg (is_reserved tid) ts').
  pose proof (threads_where_nonneg (is_saved tid) ts').
  pose proof (threads_where_nonneg (is_reading tid) ts').
  rewrite andb_false_iff, !bool_decide_eq_false. lia.
Qed.

Lemma after_lookup : q_tenants q' !! tid = if idle e' then None else Some l.
Proof using U.
  destruct (ou_upd _ _ _ _ _ _ _ _ U) as (_ & _ & _ & _ & ->).
  destruct (idle e'); [apply lookup_delete_eq | apply lookup_insert_eq].
Qed.

Lemma after_thread j t : ts' !! j = Some t -> new = Some t \/ ts !! j = Some t.
Proof using. intros Hj. apply update_thread_Some in Hj as [[_ Hj]|[_ Hj]]; [left|right]; exact Hj. Qed.

Lemma after_map j t : ts' !! j = Some t -> q_tenants q' !! tid_of t = Some (loc_of t).
Proof using U.
  intros Hj. destruct (decide (tid_of t = tid)) as [Ht|Ht].
  - pose proof (thread_counted ts' j t Hj) as Hc. rewrite Ht in Hc.
    rewrite Ht, after_lookup, (proj2 after_idle Hc). f_equal.
    destruct (after_thread j t Hj) as [Hn|Hj']; [symmetry; by apply (ou_new _ _ _ _ _ _ _ _ U)|].
    pose proof (inv_map _ (ou_inv _ _ _ _ _ _ _ _ U) j t Hj') as HA. rewrite Ht in HA.
    destruct (ou_loc _ _ _ _ _ _ _ _ U) as [Hloc|[Hloc _]]; congruence.
  - rewrite after_lookup_ne by done.
    destruct (after_thread j t Hj) as [Hn|Hj']; [by destruct (ou_new _ _ _ _ _ _ _ _ U t Hn)|].
    by apply (inv_map _ (ou_inv _ _ _ _ _ _ _ _ U) j).
Qed.

Lemma after_entry tid' l' : q_tenants q' !! tid' = Some l' ->
  (l' < q_next q')%nat /\ inProgress (entry q' l') = nres ts' tid' + nsaved ts' tid' /\
  reading (entry q' l') = nread ts' tid' /\ 0 < nres ts' tid' + nsaved ts' tid' + nread ts' tid'.
Proof using U.
  destruct (ou_upd _ _ _ _ _ _ _ _ U) as (Hel & Hother & Hnext & Hlt & _). intros Hl'.
  destruct (decide (tid' = tid)) as [->|Hne].
  - rewrite after_lookup in Hl'. destruct (idle e') eqn:Hi; [done|]. injection Hl' as <-.
    rewrite Hel. split; [done|]. split; [apply (ou_ip _ _ _ _ _ _ _ _ U)|].
    split; [apply (ou_rd _ _ _ _ _ _ _ _ U)|by apply after_idle].
  - rewrite after_lookup_ne in Hl' by done.
    destruct (inv_entry _ (ou_inv _ _ _ _ _ _ _ _ U) tid' l' Hl') as (? & ? & ? & ?).
    destruct (after_counts tid' Hne) as (-> & -> & ->).
    rewrite Hother by (by eapply after_loc_ne). repeat split; try done. lia.
Qed.

Lemma after_inj t1 t2 l' : q_tenants q' !! t1 = Some l' -> q_tenants q' !! t2 = Some l' -> t1 = t2.
Proof using U.
  intros H1 H2. destruct (decide (t1 = tid)) as [->|Hne1], (decide (t2 = tid)) as [->|Hne2]; [done| | |].
  - exfalso. rewrite after_lookup_ne in H2 by done. apply (after_loc_ne t2 l' Hne2 H2).
    rewrite after_lookup in H1. by destruct (idle e'); simplify_eq.
  - exfalso. rewrite after_lookup_ne in H1 by done. apply (after_loc_ne t1 l' Hne1 H1).
    rewrite after_lookup in H2. by destruct (idle e'); simplify_eq.
  - rewrite after_lookup_ne in H1, H2 by done. by eapply (inv_inj _ (ou_inv _ _ _ _ _ _ _ _ U)).
Qed.

(** What the other threads of the tenant need: [saved] only grows, and every new
    row is accounted for. *)
Lemma after_thread_ok j t :
  saved (entry q l) <= saved e' \/ q_tenants q !! tid = None ->
  rows' tid <= sys_rows s tid + (nsaved ts' tid - nsaved ts tid) + (saved e' - saved (entry q l)) \/
    q_tenants q !! tid = None ->
  ts !! j = Some t -> thread_ok q' rows' ts' t.
Proof using U.
  intros Hsv Hrow Hj. destruct (ou_upd _ _ _ _ _ _ _ _ U) as (Hel & Hother & _).
  pose proof (inv_thread _ (ou_inv _ _ _ _ _ _ _ _ U) j t Hj) as Ht.
  pose proof (inv_map _ (ou_inv _ _ _ _ _ _ _ _ U) j t Hj) as Hm. fold q in Hm.
  destruct (decide (tid_of t = tid)) as [Htid|Htid].
  - rewrite Htid in Hm. assert (loc_of t = l) as Hl
      by (destruct (ou_loc _ _ _ _ _ _ _ _ U) as [Hloc|[Hloc _]]; fold q in Hloc; congruence).
    destruct Hsv as [Hsv|?]; [|congruence]. destruct Hrow as [Hrow|?]; [|congruence]. fold q ts in Ht.
    destruct t; simpl in Htid, Hl; unfold thread_ok in *; subst; rewrite ?Hel; [|..|done|done].
    + destruct Ht as (? & ? & ?). repeat split; try done; lia.
    + destruct Ht as (? & ? & ? & ?). repeat split; try done; lia.
  - assert (Hne : loc_of t <> l) by (by eapply after_loc_ne).
    destruct t; simpl in Htid, Hne; unfold thread_ok in *; try done; rewrite (Hother _ Hne); [done|].
    rewrite (ou_rows _ _ _ _ _ _ _ _ U) by done. by destruct (after_counts tid0 Htid) as (_ & -> & _).
Qed.
End after_update.

Lemma inv_update s i tid l e' q' rows' new :
  inv s ->
  let q := sys_quota s in let rows := sys_rows s in let ts := sys_threads s in
  let ts' := update_thread i new ts in
  (forall t, ts !! i = Some t -> tid_of t = tid) ->
  (forall t, new = Some t -> tid_of t = tid /\ loc_of t = l) ->
  q_tenants q !! tid = Some l \/ (q_tenants q !! tid = None /\ l = q_next q) ->
  updates tid l e' q q' ->
  inProgress e' = nres ts' tid + nsaved ts' tid ->
  reading e' = nread ts' tid ->
  saved (entry q l) <= saved e' \/ q_tenants q !! tid = None ->
  (forall tid', tid' <> tid -> rows' tid' = rows tid') ->
  rows' tid <= rows tid + (nsaved ts' tid - nsaved ts tid) + (saved e' - saved (entry q l)) \/ q_tenants q !! tid = None ->
  (forall t, new = Some t -> thread_ok q' rows' ts' t) ->
  0 <= rows' tid /\ rows' tid + nres ts' tid <= limits tid ->
  inv (mkSys q' rows' ts').
Proof.
  intros Hinv q rows ts ts' Hold Hnew Hloc Hupd Hip Hrd Hsv Hrows Hrow Hok Hbound.
  assert (U : one_update s i tid l e' q' rows' new) by by split.
  split; unfold sys_quota, sys_rows, sys_threads.
  - apply (after_map s i tid l e' q' rows' new U).
  - apply (after_entry s i tid l e' q' rows' new U).
  - apply (after_inj s i tid l e' q' rows' new U).
  - intros j t Hj. destruct (after_thread s i new j t Hj) as [Hn|Hj']; [by apply Hok|].
    by eapply (after_thread_ok s i tid l e' q' rows' new U).
  - intros tid'. destruct (decide (tid' = tid)) as [->|Hne]; [done|].
    rewrite Hrows by done. destruct (after_counts s i tid l e' q' rows' new U tid' Hne) as (Hn & _ & _).
    fold ts ts' in Hn. rewrite Hn. apply (inv_rows s Hinv).
Qed.

(** *** The critical sections as updates of one entry *)

Lemma entry_set_eq l e q : entry (set_entry l e q) l = e.
Proof. unfold entry, set_entry; simpl. by rewrite lookup_insert_eq. Qed.
Lemma entry_set_ne l l' e q : l' <> l -> entry (set_entry l e q) l' = entry q l'.
Proof. intros Hne. unfold entry, set_entry; simpl. by rewrite lookup_insert_ne. Qed.

Lemma updates_forget tid l e' q :
  q_tenants q !! tid = Some l -> (l < q_next q)%nat ->
  updates tid l e' q (forgetIfIdle tid l (set_entry l e' q)).
Proof.
  intros Hl Hlt. unfold forgetIfIdle. rewrite entry_set_eq. fold (idle e').
  assert (Hsame : <[tid := l]> (q_tenants q) = q_tenants q) by by apply insert_id.
  destruct (idle e') eqn:E; (split; [apply entry_set_eq|]);
    (split; [intros; by apply entry_set_ne|]); simpl; rewrite ?E, ?Hsame; done.
Qed.

Lemma updates_same tid l q :
  q_tenants q !! tid = Some l -> (l < q_next q)%nat -> idle (entry q l) = false ->
  updates tid l (entry q l) q q.
Proof.
  intros Hl Hlt Hi. split; [done|]. rewrite Hi. repeat split; try done. by rewrite insert_id.
Qed.

Lemma updates_enter tid l sb q q' :
  reserve_enter tid q = (l, sb, q') ->
  (forall l, q_tenants q !! tid = Some l -> (l < q_next q)%nat /\ 0 <= reading (entry q l)) ->
  exists e, updates tid l (mkEntry (inProgress e) (saved e) (reading e + 1)) q q' /\ sb = saved e /\
    (q_tenants q !! tid = Some l /\ e = entry q l \/
     q_tenants q !! tid = None /\ l = q_next q /\ e = mkEntry 0 0 0).
Proof.
  unfold reserve_enter. intros Hr Hlt. destruct (q_tenants q !! tid) as [l0|] eqn:E; simplify_eq.
  - destruct (Hlt l eq_refl) as [Hnext Hrd]. exists (entry q l). split; [|by eauto].
    split; [apply entry_set_eq|]. split; [intros; by apply entry_set_ne|]. simpl.
    split; [done|]. split; [done|]. unfold idle; simpl.
    rewrite (bool_decide_eq_false_2 (reading _ + 1 = 0)), andb_false_r by lia. by rewrite insert_id.
  - exists (mkEntry 0 0 0).
    match goal with |- context [set_entry _ _ ?q1] => set (q1' := q1) end.
    assert (He : entry q1' (q_next q) = mkEntry 0 0 0)
      by (unfold entry, q1'; simpl; by rewrite lookup_insert_eq).
    rewrite He; simpl. split; [|by eauto]. split; [apply entry_set_eq|].
    split; [|by split; [simpl; lia|split; [simpl; lia|]]].
    intros l' Hne. rewrite entry_set_ne by done. unfold entry, q1'; simpl. by rewrite lookup_insert_ne.
Qed.

Lemma inv_not_idle s tid l :
  inv s -> q_tenants (sys_quota s) !! tid = Some l -> idle (entry (sys_quota s) l) = false.
Proof.
  intros Hinv Hl. destruct (inv_entry s Hinv tid l Hl) as (_ & Hip & Hrd & Hpos).
  unfold idle. rewrite Hip, Hrd. apply andb_false_iff.
  destruct (decide (nres (sys_threads s) tid + nsaved (sys_threads s) tid = 0)) as [Hz|Hz];
    [right|left]; apply bool_decide_eq_false; lia.
Qed.
End invariant.

Lemma is_reading_self tid t : tid_of t = tid -> is_reading tid t =
  match t with Reading _ _ _ _ _ | Counted _ _ _ _ _ _ => true | _ => false end.
Proof. intros H. unfold is_reading. by rewrite bool_decide_eq_true_2. Qed.
Lemma is_reserved_self tid t : tid_of t = tid -> is_reserved tid t =
  match t with Reserved _ _ => true | _ => false end.
Proof. intros H. unfold is_reserved. by rewrite bool_decide_eq_true_2. Qed.
Lemma is_saved_self tid t : tid_of t = tid -> is_saved tid t =
  match t with Saved _ _ => true | _ => false end.
Proof. intros H. unfold is_saved. by rewrite bool_decide_eq_true_2. Qed.

Ltac fields := cbn [inProgress saved reading sys_quota sys_rows sys_threads].

(** Counts after one thread moved on. *)
Ltac count_moves Hi :=
  unfold nres, nsaved, nread in *; rewrite ?threads_where_update, ?Hi; cbn [weight];
  rewrite ?is_reading_self, ?is_reserved_self, ?is_saved_self by done; cbn iota.

(** The entry of thread [i], and the bounds the invariant gives for it. *)
Ltac own_entry Hinv Hi :=
  let Hl := fresh "Hl" in
  pose proof (inv_map _ _ Hinv _ _ Hi) as Hl; cbn in Hl;
  pose proof (inv_entry _ _ Hinv _ _ Hl) as (Hlt & Hip & Hrd & Hpos);
  pose proof (inv_not_idle _ _ _ _ Hinv Hl) as Hidle;
  cbn in Hlt, Hip, Hrd, Hpos, Hidle.

Lemma stop_reading_inv limits q rows ts i tid l new :
  inv limits (mkSys q rows ts) ->
  (exists limit read sb, ts !! i = Some (Reading tid l limit read sb)) \/
  (exists limit read sb n, ts !! i = Some (Counted tid l limit read sb n)) ->
  new = None ->
  inv limits (mkSys (stop_reading tid l q) rows (update_thread i new ts)).
Proof.
  intros Hinv Hi ->. unfold stop_reading.
  pose proof (inv_rows _ _ Hinv tid) as [Hr1 Hr2]. cbn in Hr1, Hr2.
  destruct Hi as [(limit & read & sb & Hi)|(limit & read & sb & n & Hi)]; own_entry Hinv Hi;
    (eapply (inv_update limits (mkSys q rows ts) i tid l); fields;
     [done | intros t Ht; rewrite Hi in Ht; by simplify_eq | done | by left
     | by apply updates_forget | | | left; fields; lia | done | left | done | ]; fields; count_moves Hi; try lia).
Qed.

(** The tactic the remaining cases share: thread [i] of tenant [tid] runs one
    critical section described by an [updates] lemma. *)
Ltac critical Hi q rows ts i tid l lim upd :=
  eapply (inv_update lim (mkSys q rows ts) i tid l); fields;
    [ done | intros t Ht; rewrite Hi in Ht; by simplify_eq | intros t Ht; by simplify_eq
    | by left | apply upd; done | | | left; fields; lia | try done | left | | ];
    fields; count_moves Hi; try lia.

Lemma enter_inv limits q rows ts i tid limit l sb q' :
  inv limits (mkSys q rows ts) -> ts !! i = None -> 0 < limit <= limits tid ->
  reserve_enter tid q = (l, sb, q') ->
  inv limits (mkSys q' rows (update_thread i (Some (Reading tid l limit 1 sb)) ts)).
Proof.
  intros Hinv Hi Hlim He.
  pose proof (inv_rows _ _ Hinv tid) as [Hr1 Hr2]. cbn in Hr1, Hr2.
  assert (Hbase : forall l, q_tenants q !! tid = Some l -> (l < q_next q)%nat /\ 0 <= reading (entry q l)).
  { intros l0 Hl0. destruct (inv_entry _ _ Hinv tid l0 Hl0) as (? & _ & Hrd & _). cbn in *.
    rewrite Hrd. split; [done|]. apply threads_where_nonneg. }
  assert (Hzero : q_tenants q !! tid = None ->
    nres ts tid = 0 /\ nsaved ts tid = 0 /\ nread ts tid = 0).
  { intros Hn. unfold nres, nsaved, nread, threads_where.
    assert (Hno : forall j t, ts !! j = Some t -> tid_of t <> tid)
      by (intros j t Hj <-; pose proof (inv_map _ _ Hinv _ _ Hj); cbn in *; congruence).
    repeat split; (rewrite (proj2 (count_if_zero _ _)); [done|]); intros j t Hj;
      unfold is_reserved, is_saved, is_reading;
      by rewrite bool_decide_eq_false_2 by eauto. }
  destruct (updates_enter _ _ _ _ _ He Hbase) as (e & Hu & Hsb & Hcase).
  assert (Hcnt : inProgress e = nres ts tid + nsaved ts tid /\ reading e = nread ts tid).
  { destruct Hcase as [[Hl ->]|(Hn & _ & ->)].
    - by destruct (inv_entry _ _ Hinv tid l Hl) as (_ & ? & ? & _).
    - destruct (Hzero Hn) as (-> & -> & ->). done. }
  eapply (inv_update limits (mkSys q rows ts) i tid l); fields;
    [done|by rewrite Hi|intros t Ht; by simplify_eq| |exact Hu| | | |done| | |].
  - destruct Hcase as [[Hl _]|(Hn & Hl & _)]; eauto.
  - fields. count_moves Hi. lia.
  - fields. count_moves Hi. lia.
  - fields. destruct Hcase as [[_ ->]|(Hn & _ & _)]; [left; lia|by right].
  - fields. destruct Hcase as [[_ ->]|(Hn & _ & _)]; [left|by right]. count_moves Hi. lia.
  - intros t Ht. simplify_eq. simpl. destruct Hu as (-> & _). simpl. unfold maxReads. repeat split; lia.
  - fields. count_moves Hi. lia.
Qed.

Lemma quota_inv_step limits s s' : inv limits s -> step limits s s' -> inv limits s'.
Proof.
  intros Hinv Hs. destruct Hs as
    [q rows ts i tid limit l sb q' Hi Hlim He
    |q rows ts i tid l limit read sb Hi
    |q rows ts i tid l limit read sb Hi
    |q rows ts i tid l limit read sb n q' Hi Hd
    |q rows ts i tid l limit read sb n q' Hi Hd
    |q rows ts i tid l limit read sb n sb' q' Hi Hd
    |q rows ts i tid l Hi
    |q rows ts i tid l Hi
    |q rows ts i tid l maybe Hi
    |q rows ts tid Hrow].
  - (* enter *)
    by eapply enter_inv.
  - (* the store is read *)
    own_entry Hinv Hi. pose proof (inv_rows _ _ Hinv tid) as [Hr1 Hr2]. cbn in Hr1, Hr2.
    destruct (inv_thread _ _ Hinv _ _ Hi) as (Hlim & Hsb & Hread). cbn in Hlim, Hsb, Hread.
    critical Hi q rows ts i tid l limits updates_same.
    intros t Ht. simplify_eq. cbn [thread_ok]. repeat split; try lia. count_moves Hi.
    pose proof (threads_where_nonneg (is_saved tid) ts). lia.
  - (* the read failed *)
    eapply stop_reading_inv; eauto.
  - (* admitted *)
    own_entry Hinv Hi. pose proof (inv_rows _ _ Hinv tid) as [Hr1 Hr2]. cbn in Hr1, Hr2.
    destruct (inv_thread _ _ Hinv _ _ Hi) as (Hlim & Hsb & Hread & Hrow). cbn in Hlim, Hsb, Hread, Hrow.
    unfold reserve_decide in Hd. case_decide as Hroom; [|by destruct (_ || _)]. simplify_eq.
    unfold stop_reading. rewrite entry_set_eq; fields.
    assert (Hss : forall e1 e2, set_entry l e2 (set_entry l e1 q) = set_entry l e2 q)
      by (intros; unfold set_entry; simpl; by rewrite insert_insert_eq).
    rewrite Hss. critical Hi q rows ts i tid l limits updates_forget.
    intros t Ht. by simplify_eq.
  - (* refused *)
    unfold reserve_decide in Hd. case_decide; [done|]. destruct (_ || _); simplify_eq.
    eapply stop_reading_inv; eauto 6.
  - (* read again *)
    own_entry Hinv Hi. pose proof (inv_rows _ _ Hinv tid) as [Hr1 Hr2]. cbn in Hr1, Hr2.
    destruct (inv_thread _ _ Hinv _ _ Hi) as (Hlim & Hsb & Hread & Hrow). cbn in Hlim, Hsb, Hread, Hrow.
    unfold reserve_decide in Hd. case_decide; [done|]. destruct (_ || _) eqn:Hor; simplify_eq.
    apply orb_false_iff in Hor as [_ Hmax]. apply bool_decide_eq_false in Hmax.
    critical Hi q' rows ts i tid l limits updates_same.
    intros t Ht. simplify_eq. simpl. unfold maxReads in *. repeat split; lia.
  - (* the row is saved *)
    own_entry Hinv Hi. pose proof (inv_rows _ _ Hinv tid) as [Hr1 Hr2]. cbn in Hr1, Hr2.
    critical Hi q rows ts i tid l limits updates_same.
    + intros tid' Hne. unfold add_rows. by rewrite decide_False.
    + unfold add_rows. rewrite decide_True by done. lia.
    + intros t Ht. by simplify_eq.
    + unfold add_rows. rewrite decide_True by done. lia.
  - (* released after the save *)
    own_entry Hinv Hi. pose proof (inv_rows _ _ Hinv tid) as [Hr1 Hr2]. cbn in Hr1, Hr2.
    unfold release. critical Hi q rows ts i tid l limits updates_forget. done.
  - (* released, not saved or maybe saved *)
    own_entry Hinv Hi. pose proof (inv_rows _ _ Hinv tid) as [Hr1 Hr2]. cbn in Hr1, Hr2.
    unfold release. destruct maybe; critical Hi q rows ts i tid l limits updates_forget; done.
  - (* a row is deleted *)
    destruct Hinv as [HA HB HC HE HF]. split; cbn in *; [exact HA|exact HB|exact HC| |].
    + intros j t Hj. specialize (HE j t Hj). destruct t; simpl in *; try done.
      unfold add_rows. case_decide; subst; [|done]. destruct HE as (? & ? & ? & ?). repeat split; try done; lia.
    + intros tid'. specialize (HF tid'). unfold add_rows. case_decide; [subst; lia|done].
Qed.

(** ** What the quota promises *)

Definition initial (rows : string -> Z) : sys := mkSys newTenantQuota rows ∅.

Lemma inv_initial limits rows :
  (forall tid, 0 <= rows tid <= limits tid) -> inv limits (initial rows).
Proof.
  intros Hr. split; unfold initial, newTenantQuota; fields.
  - intros i t Hi. by rewrite lookup_empty in Hi.
  - intros tid l Hl. cbn in Hl. by rewrite lookup_empty in Hl.
  - intros tid tid' l Hl. cbn in Hl. by rewrite lookup_empty in Hl.
  - intros i t Hi. by rewrite lookup_empty in Hi.
  - intros tid. unfold nres. rewrite threads_where_empty. specialize (Hr tid). lia.
Qed.

Lemma inv_reachable limits s s' : inv limits s -> rtc (step limits) s s' -> inv limits s'.
Proof. intros Hinv Hr. induction Hr; eauto using quota_inv_step. Qed.

(** C8: However the creates of a pod interleave with each other's reads, saves
    and releases and with deletes, the sandboxes a tenant has saved plus the
    creates that hold a reservation never exceed its limit; a reserve reads the
    store at most three times; and once no create runs the quota remembers no
    tenant, so nothing leaks. *)
Theorem tenant_quota_safe limits rows s :
  (forall tid, 0 <= rows tid <= limits tid) ->
  rtc (step limits) (initial rows) s ->
  (forall tid, sys_rows s tid + nres (sys_threads s) tid <= limits tid) /\
  (forall i tid l limit read sb, sys_threads s !! i = Some (Reading tid l limit read sb) -> (read <= maxReads)%nat) /\
  (sys_threads s = ∅ -> q_tenants (sys_quota s) = ∅).
Proof.
  intros Hr Hs. pose proof (inv_reachable _ _ _ (inv_initial limits rows Hr) Hs) as Hinv.
  split; [|split].
  - intros tid. apply (inv_rows _ _ Hinv).
  - intros i tid l limit read sb Hi. by destruct (inv_thread _ _ Hinv i _ Hi) as (_ & _ & _ & ?).
  - intros Hts. apply map_empty. intros tid. destruct (q_tenants (sys_quota s) !! tid) as [l|] eqn:E; [|done].
    destruct (inv_entry _ _ Hinv tid l E) as (_ & _ & _ & Hpos). rewrite Hts in Hpos.
    unfold nres, nsaved, nread in Hpos. rewrite !threads_where_empty in Hpos. lia.
Qed.

Definition two (tid : string) : Z := 2.
Definition one_row (tid : string) : Z := 1.

Lemma tenant_quota_safe_witness : exists s,
  rtc (step two) (initial one_row) s /\ sys_rows s "acme" = 2 /\ sys_rows s "acme" + nres (sys_threads s) "acme" <= two "acme".
Proof.
  set (q1 := mkQuota {["acme" := 0%nat]} {[0%nat := mkEntry 0 0 1]} 1).
  set (q2 := mkQuota {["acme" := 0%nat]} {[0%nat := mkEntry 1 0 0]} 1).
  assert (Hs : rtc (step two) (initial one_row)
    (mkSys q2 (add_rows "acme" 1 one_row) (update_thread 0 (Some (Saved "acme" 0))
      (update_thread 0 (Some (Reserved "acme" 0)) (update_thread 0 (Some (Counted "acme" 0 2 1 0 1))
       (update_thread 0 (Some (Reading "acme" 0 2 1 0)) ∅)))))).
  { eapply rtc_l; [by apply (step_enter two _ _ _ 0 "acme" 2 0 0 q1)|].
    eapply rtc_l; [by apply (step_count two _ _ _ 0 "acme" 0 2 1 0)|].
    eapply rtc_l; [by apply (step_admit two _ _ _ 0 "acme" 0 2 1 0 1 q2)|].
    eapply rtc_l; [by apply (step_save two _ _ _ 0 "acme" 0)|]. apply rtc_refl. }
  eexists; split; [exact Hs|]. split; [done|].
  apply (tenant_quota_safe two one_row _ ltac:(unfold two, one_row; lia) Hs).
Defined.

Lemma reserve_decide_alone q tid limit n was_saved :
  q_tenants q !! tid = None ->
  let '(l, sb, q1) := reserve_enter tid q in
  let '(d, q2) := reserve_decide tid limit l 1 sb n q1 in
  d = (if decide (n < limit) then Granted else Refused) /\
  q_tenants (if decide (n < limit) then release tid l was_saved q2 else q2) = q_tenants q.
Proof.
  intros Hn. unfold reserve_enter, reserve_decide, stop_reading, release, forgetIfIdle, set_entry, entry.
  rewrite Hn. simpl. repeat (rewrite lookup_insert_eq; simpl).
  replace (n + 0 + (0 - 0)) with n by lia. case_decide; simpl; (split; [done|]).
  - repeat (rewrite lookup_insert_eq; simpl). destruct was_saved; simpl; by rewrite delete_insert_id.
  - repeat (rewrite lookup_insert_eq; simpl). by rewrite delete_insert_id.
Qed.

Lemma enter_stop_alone q tid :
  q_tenants q !! tid = None ->
  let '(l, _, q1) := reserve_enter tid q in q_tenants (stop_reading tid l q1) = q_tenants q.
Proof.
  intros Hn. unfold reserve_enter, stop_reading, forgetIfIdle, set_entry, entry.
  rewrite Hn. simpl. repeat (rewrite lookup_insert_eq; simpl). by rewrite delete_insert_id.
Qed.

(** A reserve that no other create overlaps decides exactly by the saved
    count: it is granted when fewer than [limit] sandboxes are saved, refused
    otherwise, and the release of a granted one leaves the quota as it was. *)
Theorem reserve_alone q tid limit n was_saved :
  q_tenants q !! tid = None ->
  let '(l, sb, q1) := reserve_enter tid q in
  let '(d, q2) := reserve_decide tid limit l 1 sb n q1 in
  d = (if decide (n < limit) then Granted else Refused) /\
  q_tenants (if decide (n < limit) then release tid l was_saved q2 else q2) = q_tenants q.
Proof. apply reserve_decide_alone. Qed.

Lemma reserve_alone_witness : q_tenants newTenantQuota !! "acme" = None /\
  let '(l, sb, q1) := reserve_enter "acme" newTenantQuota in
  let '(d, q2) := reserve_decide "acme" 5 l 1 sb 4 q1 in
  d = Granted /\ q_tenants (release "acme" l true q2) = ∅.
Proof.
  split; [reflexivity|]. exact (reserve_alone newTenantQuota "acme" 5 4 true eq_refl).
Defined.

End Quota.
