(* ===== verification/World.v ===== *)
(** * The API process and its environment

    What the API server reads from outside its own code is a parameter: the
    outcome of each SQL statement, the clock, request cancellation, fresh UUIDs
    and the replies of runners to control RPCs.  Every external interaction
    takes the next number of the process's history ([w_tick]) and asks the
    environment what happened then, so a theorem about all environments covers
    every pattern of failures.  [unix_now] is [time.Now().Unix()], [mono_now]
    the monotonic clock behind [time.Since], in nanoseconds.

    The world also keeps what the runners really host ([w_hosted]): replies may
    be lost or wrong about it, as over a network. *)

From S2P Require Import Prelude Quota.

(** Outcome of one SQL statement: done, refused with no effect, or applied with
    its reply lost ("the row may have been saved anyway"). *)
Inductive fault := NoFault | Failed | Lost.

(** Errors of a control RPC as [status.FromError] sees them: a gRPC status with
    its [ErrorInfo] details (domain, reason), or an error that is no status. *)
Inductive rpc_error :=
| StatusError (code : Z) (details : list (string * string)) (msg : string)
| PlainError (msg : string).

(** gRPC codes the code tests for. *)
Definition codes_Unknown : Z := 2.
Definition codes_ResourceExhausted : Z := 8.
Definition codes_Unavailable : Z := 14.

(** Reply to [CreateSandbox]; [made] is whether the runner hosts the sandbox
    although the caller saw an error. *)
Inductive create_reply :=
| CreateReply (container_ip applied : string)
| CreateError (e : rpc_error) (made : bool).

(** Reply to a stop or delete; [took] is whether it happened despite the error. *)
Inductive call_reply :=
| CallOK
| CallError (e : rpc_error) (took : bool).

Class Env := {
  sql_fault : nat -> fault;
  unix_now : nat -> Z;
  mono_now : nat -> Z;
  ctx_err : nat -> bool;
  new_uuid : nat -> string;
  runner_create : nat -> string -> string -> string -> create_reply;
  runner_delete : nat -> string -> string -> call_reply;
  runner_stop : nat -> string -> string -> call_reply;
}.

(** ** Rows *)

Record SandboxRecord := mkSandboxRecord {
  sr_ID : string;
  sr_Status : string;
  sr_CreatedAt : Z;
  sr_LastActiveAt : Z;
  sr_RootfsPath : string;
  sr_SocketPath : string;
  sr_ContainerIP : string;
  sr_DaemonPort : Z;
  sr_RunnerID : string;
  sr_RunnerHTTPBase : string;
  sr_RunnerControlGRPCAddr : string;
  sr_TenantID : string;
  sr_Ephemeral : bool;
  sr_Egress : string;
}.

Record Tenant := mkTenant {
  t_ID : string;
  t_Name : string;
  t_ExternalRef : string;
  t_MaxSandboxes : Z;
  t_CreatedAt : Z;
}.

Record APIKey := mkAPIKey {
  k_ID : string;
  k_TenantID : string;
  k_KeyHash : string;
  k_Prefix : string;
  k_CreatedAt : Z;
  k_RevokedAt : Z;
}.

(** A row of [api_keys]: [revoked_at] is nullable. *)
Record key_row := mkKeyRow {
  kr_tenant : string;
  kr_hash : string;
  kr_prefix : string;
  kr_created : Z;
  kr_revoked : option Z;
}.

#[global] Instance SandboxRecord_eq_dec : EqDecision SandboxRecord.
Proof. solve_decision. Defined.
#[global] Instance Tenant_eq_dec : EqDecision Tenant.
Proof. solve_decision. Defined.
#[global] Instance APIKey_eq_dec : EqDecision APIKey.
Proof. solve_decision. Defined.
#[global] Instance key_row_eq_dec : EqDecision key_row.
Proof. solve_decision. Defined.

Record db := mkDB {
  sandboxes : gmap string SandboxRecord;
  tenants : gmap string Tenant;
  api_keys : gmap string key_row;
}.

(** Calls to runners, as the world saw them. *)
Inductive event :=
| EvCreate (addr id : string)
| EvDelete (addr id : string)
| EvStop (addr id : string).

Record world := mkWorld {
  w_db : db;
  w_tick : nat;
  w_hosted : gset (string * string);
  w_log : list event;
  w_quota : Quota.tenantQuota;
}.

Definition set_db (d : db) (w : world) : world :=
  mkWorld d (w_tick w) (w_hosted w) (w_log w) (w_quota w).
Definition set_hosted (h : gset (string * string)) (w : world) : world :=
  mkWorld (w_db w) (w_tick w) h (w_log w) (w_quota w).
Definition log_event (e : event) (w : world) : world :=
  mkWorld (w_db w) (w_tick w) (w_hosted w) (e :: w_log w) (w_quota w).
Definition next_tick (w : world) : world :=
  mkWorld (w_db w) (S (w_tick w)) (w_hosted w) (w_log w) (w_quota w).

Definition set_quota (q : Quota.tenantQuota) (w : world) : world :=
  mkWorld (w_db w) (w_tick w) (w_hosted w) (w_log w) q.

Definition set_sandboxes (s : gmap string SandboxRecord) (d : db) : db :=
  mkDB s (tenants d) (api_keys d).
Definition set_tenants (t : gmap string Tenant) (d : db) : db :=
  mkDB (sandboxes d) t (api_keys d).
Definition set_api_keys (k : gmap string key_row) (d : db) : db :=
  mkDB (sandboxes d) (tenants d) k.

(** The number of this interaction; every external read goes through it. *)
Definition tick {R} : act world R nat := fun w => (inr (w_tick w), next_tick w).

Definition time_now `{Env} {R} : act world R Z :=
  (let! n := tick in ret (unix_now n))%act.
Definition mono_time `{Env} {R} : act world R Z :=
  (let! n := tick in ret (mono_now n))%act.
Definition ctx_cancelled `{Env} {R} : act world R bool :=
  (let! n := tick in ret (ctx_err n))%act.
Definition fresh_uuid `{Env} {R} : act world R string :=
  (let! n := tick in ret (new_uuid n))%act.

Lemma wp_tick {R} (Q : R + nat -> world -> Prop) w :
  Q (inr (w_tick w)) (next_tick w) -> wp tick Q w.
Proof. done. Qed.

Lemma wp_time_now `{Env} {R} (Q : R + Z -> world -> Prop) w :
  Q (inr (unix_now (w_tick w))) (next_tick w) -> wp time_now Q w.
Proof. done. Qed.

Lemma wp_mono_time `{Env} {R} (Q : R + Z -> world -> Prop) w :
  Q (inr (mono_now (w_tick w))) (next_tick w) -> wp mono_time Q w.
Proof. done. Qed.

Lemma wp_ctx_cancelled `{Env} {R} (Q : R + bool -> world -> Prop) w :
  Q (inr (ctx_err (w_tick w))) (next_tick w) -> wp ctx_cancelled Q w.
Proof. done. Qed.

Lemma wp_fresh_uuid `{Env} {R} (Q : R + string -> world -> Prop) w :
  Q (inr (new_uuid (w_tick w))) (next_tick w) -> wp fresh_uuid Q w.
Proof. done. Qed.

(** ** Control RPCs ([internal/api/runnerctl/client.go])

    The call is logged and what the runner hosts changes as the reply (or the
    truth behind a lost reply) says. *)

Definition rpc_CreateSandbox `{Env} {R} (addr id opts : string) :
    act world R (rpc_error + (string * string)) :=
  (let! n := tick in
   do! modify (log_event (EvCreate addr id)) in
   match runner_create n addr id opts with
   | CreateReply ip applied =>
       do! modify (fun w => set_hosted ({[(addr, id)]} ∪ w_hosted w) w) in
       ret (inr (ip, applied))
   | CreateError e made =>
       do! modify (fun w => if made : bool then set_hosted ({[(addr, id)]} ∪ w_hosted w) w else w) in
       ret (inl e)
   end)%act.

Definition rpc_DeleteSandbox `{Env} {R} (addr id : string) :
    act world R (option rpc_error) :=
  (let! n := tick in
   do! modify (log_event (EvDelete addr id)) in
   match runner_delete n addr id with
   | CallOK =>
       do! modify (fun w => set_hosted (w_hosted w ∖ {[(addr, id)]}) w) in ret None
   | CallError e took =>
       do! modify (fun w => if took : bool then set_hosted (w_hosted w ∖ {[(addr, id)]}) w else w) in
       ret (Some e)
   end)%act.

Definition rpc_StopSandbox `{Env} {R} (addr id : string) :
    act world R (option rpc_error) :=
  (let! n := tick in
   do! modify (log_event (EvStop addr id)) in
   match runner_stop n addr id with
   | CallOK => ret None
   | CallError e _ => ret (Some e)
   end)%act.
