(* ===== verification/Store.v ===== *)
(** * Sandbox store ([internal/api/store])

    The tables and the operations of the two backends.  [SandboxStore] is the Go
    interface, [StoreLaws] is what its clients rely on; [Sqlite] and [Postgres]
    are the two implementations, each statement one interaction with the
    database, and both discharge the laws. *)

From S2P Require Import Prelude World.

Module Store.

Definition AdminTenantID : string := "__admin__".

Definition IsAdminTenantID (tenantID : string) : bool :=
  bool_decide (tenantID = "") || bool_decide (tenantID = AdminTenantID).

(** The sentinel errors, an SQL error wrapped with its operation, and the error
    of a request context that ended while waiting for a lock. *)
Inductive store_error :=
| ErrTenantHasSandboxes
| ErrTenantNotFound
| ErrTenantQuotaExceeded
| ErrAPIKeyTenantMismatch
| ErrSQL (op : string)
| ErrContext.

#[global] Instance store_error_eq_dec : EqDecision store_error.
Proof. solve_decision. Defined.

(** ** Statements and transactions *)

Section statements.
Context `{Env}.
#[local] Open Scope act_scope.

Definition sql_query {A} (op : string) (f : db -> A) : act world store_error A :=
  let! n := tick in
  match sql_fault n with
  | NoFault => let! w := get in ret (f (w_db w))
  | _ => exit (ErrSQL op)
  end.

(** [f] is [None] when the statement violates a constraint. *)
Definition sql_exec (op : string) (f : db -> option db) : act world store_error unit :=
  let! n := tick in
  match sql_fault n with
  | Failed => exit (ErrSQL op)
  | o =>
      let! w := get in
      match f (w_db w) with
      | None => exit (ErrSQL op)
      | Some d =>
          do! modify (set_db d) in
          match o with Lost => exit (ErrSQL op) | _ => ret tt end
      end
  end.

(** How a transaction's function returns: after its commit, or early with the
    deferred rollback undoing it. *)
Inductive tx_end (A : Type) := Commit (a : A) | Rollback (a : A).
#[global] Arguments Commit {A} a.
#[global] Arguments Rollback {A} a.

Definition transaction {A} (op : string) (m : act world store_error (tx_end A)) :
    act world store_error A :=
  let! b := tick in
  match sql_fault b with
  | NoFault =>
      let! w0 := get in
      let! o := try m in
      match o with
      | inl e => do! modify (set_db (w_db w0)) in exit e
      | inr (Rollback a) => do! modify (set_db (w_db w0)) in ret a
      | inr (Commit a) =>
          let! c := tick in
          match sql_fault c with
          | NoFault => ret a
          | Failed => do! modify (set_db (w_db w0)) in exit (ErrSQL op)
          | Lost => exit (ErrSQL op)
          end
      end
  | _ => exit (ErrSQL op)
  end.
End statements.

(** ** The SQL both backends send, as functions on the tables *)

Definition row_of_tenant (tid : string) (r : SandboxRecord) : bool :=
  bool_decide (sr_TenantID r = tid).

Definition count_tenant (tid : string) (d : db) : Z :=
  Z.of_nat (count_if (row_of_tenant tid) (sandboxes d)).

Definition insert_sandbox (r : SandboxRecord) (d : db) : db :=
  set_sandboxes (<[sr_ID r := r]> (sandboxes d)) d.

Definition sql_insert_sandbox (r : SandboxRecord) (d : db) : option db :=
  match sandboxes d !! sr_ID r with
  | Some _ => None
  | None => Some (insert_sandbox r d)
  end.

Definition set_status (status : string) (r : SandboxRecord) : SandboxRecord :=
  mkSandboxRecord (sr_ID r) status (sr_CreatedAt r) (sr_LastActiveAt r) (sr_RootfsPath r)
    (sr_SocketPath r) (sr_ContainerIP r) (sr_DaemonPort r) (sr_RunnerID r) (sr_RunnerHTTPBase r)
    (sr_RunnerControlGRPCAddr r) (sr_TenantID r) (sr_Ephemeral r) (sr_Egress r).

Definition set_last_active (now : Z) (r : SandboxRecord) : SandboxRecord :=
  mkSandboxRecord (sr_ID r) (sr_Status r) (sr_CreatedAt r) now (sr_RootfsPath r)
    (sr_SocketPath r) (sr_ContainerIP r) (sr_DaemonPort r) (sr_RunnerID r) (sr_RunnerHTTPBase r)
    (sr_RunnerControlGRPCAddr r) (sr_TenantID r) (sr_Ephemeral r) (sr_Egress r).

Definition update_status (id status : string) (d : db) : db :=
  set_sandboxes (alter (set_status status) id (sandboxes d)) d.

Definition update_last_active (id : string) (now : Z) (d : db) : db :=
  set_sandboxes (alter (set_last_active now) id (sandboxes d)) d.

Definition delete_sandbox (id : string) (d : db) : db :=
  set_sandboxes (delete id (sandboxes d)) d.

Definition sandbox_rows (d : db) : list SandboxRecord := (map_to_list (sandboxes d)).*2.

Definition reap_delete_row (cutoff : Z) (r : SandboxRecord) : Prop :=
  sr_Status r = "stopped" /\ sr_LastActiveAt r <= cutoff.
Definition reap_stop_row (cutoff : Z) (ephemeral : bool) (r : SandboxRecord) : Prop :=
  sr_Status r = "running" /\ sr_LastActiveAt r <= cutoff /\ sr_Ephemeral r = ephemeral.
#[global] Instance reap_delete_row_dec c r : Decision (reap_delete_row c r).
Proof. unfold reap_delete_row. apply _. Defined.
#[global] Instance reap_stop_row_dec c e r : Decision (reap_stop_row c e r).
Proof. unfold reap_stop_row. apply _. Defined.

(** [ORDER BY created_at DESC]; rows created in the same second have no
    specified order. *)
Definition newest_first {A} (f : A -> Z) (a b : A) : Prop := f b <= f a.
#[global] Instance newest_first_dec {A} (f : A -> Z) : RelDecision (newest_first f).
Proof. intros a b. unfold newest_first. apply _. Defined.
#[global] Instance newest_first_trans {A} (f : A -> Z) : Transitive (newest_first f).
Proof. intros a b c. unfold newest_first. lia. Qed.
#[global] Instance newest_first_total {A} (f : A -> Z) : Total (newest_first f).
Proof. intros a b. unfold newest_first. lia. Qed.

Definition order_by_created {A} (f : A -> Z) (l : list A) : list A :=
  merge_sort (newest_first f) l.

Definition sql_insert_tenant (t : Tenant) (d : db) : option db :=
  match tenants d !! t_ID t with
  | Some _ => None
  | None => Some (set_tenants (<[t_ID t := t]> (tenants d)) d)
  end.

(** [var revoked any; if k.RevokedAt > 0 { revoked = k.RevokedAt }] *)
Definition key_to_row (k : APIKey) : key_row :=
  mkKeyRow (k_TenantID k) (k_KeyHash k) (k_Prefix k) (k_CreatedAt k)
    (if decide (k_RevokedAt k > 0) then Some (k_RevokedAt k) else None).

(** Primary key and [tenant_id REFERENCES tenants(id)]. *)
Definition sql_insert_key (k : APIKey) (d : db) : option db :=
  match api_keys d !! k_ID k, tenants d !! k_TenantID k with
  | None, Some _ => Some (set_api_keys (<[k_ID k := key_to_row k]> (api_keys d)) d)
  | _, _ => None
  end.

Definition scanAPIKey (id : string) (r : key_row) : APIKey :=
  mkAPIKey id (kr_tenant r) (kr_hash r) (kr_prefix r) (kr_created r) (default 0 (kr_revoked r)).

Definition key_rows (d : db) : list APIKey :=
  (fun '(id, r) => scanAPIKey id r) <$> map_to_list (api_keys d).

(** The rows with this prefix whose [revoked_at IS NULL]. *)
Definition active_key_rows (prefix : string) (d : db) : list APIKey :=
  (fun '(id, r) => scanAPIKey id r) <$>
    filter (fun p => kr_prefix p.2 = prefix /\ kr_revoked p.2 = None) (map_to_list (api_keys d)).

Definition set_max_sandboxes (n : Z) (t : Tenant) : Tenant :=
  mkTenant (t_ID t) (t_Name t) (t_ExternalRef t) n (t_CreatedAt t).

(** [ON DELETE CASCADE] of [api_keys.tenant_id]. *)
Definition delete_tenant (id : string) (d : db) : db :=
  mkDB (sandboxes d) (delete id (tenants d))
    (filter (fun p => kr_tenant p.2 <> id) (api_keys d)).

Definition revoke_row (now : Z) (r : key_row) : key_row :=
  match kr_revoked r with
  | None => mkKeyRow (kr_tenant r) (kr_hash r) (kr_prefix r) (kr_created r) (Some now)
  | Some _ => r
  end.

Definition revoke_key (id : string) (now : Z) (d : db) : db :=
  set_api_keys (alter (revoke_row now) id (api_keys d)) d.

(** ** The interface *)

Class SandboxStore := {
  Create : SandboxRecord -> act world store_error unit;
  Get : string -> act world store_error (option SandboxRecord);
  UpdateStatus : string -> string -> act world store_error unit;
  UpdateLastActive : string -> act world store_error unit;
  Delete : string -> act world store_error unit;
  LockSandbox : string -> act world store_error unit;
  ListForIdleReapDelete : Z -> act world store_error (list SandboxRecord);
  ListForIdleReapStop : Z -> bool -> act world store_error (list SandboxRecord);
  CountByTenant : string -> act world store_error Z;
  List : act world store_error (list SandboxRecord);
  ListByTenant : string -> act world store_error (list SandboxRecord);
  CreateTenant : Tenant -> act world store_error unit;
  CreateTenantWithAPIKey : Tenant -> APIKey -> act world store_error unit;
  GetTenant : string -> act world store_error (option Tenant);
  ListTenants : act world store_error (list Tenant);
  UpdateTenantLimits : string -> Z -> act world store_error unit;
  DeleteTenant : string -> act world store_error unit;
  CreateAPIKey : APIKey -> act world store_error unit;
  GetAPIKey : string -> act world store_error (option APIKey);
  ListAPIKeysByTenant : string -> act world store_error (list APIKey);
  ListActiveAPIKeysByPrefix : string -> act world store_error (list APIKey);
  RevokeAPIKey : string -> act world store_error unit;
}.

(** ** What the interface promises its clients *)

(** A store operation calls no runner and reserves nothing. *)
Definition only_db (w w' : world) : Prop :=
  w_hosted w' = w_hosted w /\ w_log w' = w_log w /\ w_quota w' = w_quota w.

(** An error that does not say whether the statement took effect. *)
Definition db_failure (e : store_error) : Prop := (exists op, e = ErrSQL op) \/ e = ErrContext.

(** A read: the tables do not change and a result is about them. *)
Definition reads {A} (m : act world store_error A) (P : db -> A -> Prop) : Prop :=
  forall w, wp m (fun o w' =>
    w_db w' = w_db w /\ only_db w w' /\
    match o with inl e => db_failure e | inr a => P (w_db w) a end) w.

(** A write of [d'], possible when [pre]: success means it happened, a database
    failure leaves open whether it did, and any other error means it did not
    and [refused] says why. *)
Definition writes {A} (m : act world store_error A)
    (f : db -> db -> Prop) (refused : db -> store_error -> Prop) : Prop :=
  forall w, wp m (fun o w' =>
    only_db w w' /\
    match o with
    | inr _ => f (w_db w) (w_db w')
    | inl e => (db_failure e /\ (w_db w' = w_db w \/ f (w_db w) (w_db w'))) \/
               (refused (w_db w) e /\ w_db w' = w_db w)
    end) w.

Definition no_refusal : db -> store_error -> Prop := fun _ _ => False.

(** The condition under which a row may be added. *)
Definition may_create (r : SandboxRecord) (d : db) : Prop :=
  sandboxes d !! sr_ID r = None /\
  (IsAdminTenantID (sr_TenantID r) = false ->
     exists t, tenants d !! sr_TenantID r = Some t /\
               (t_MaxSandboxes t > 0 -> count_tenant (sr_TenantID r) d < t_MaxSandboxes t)).

Definition create_refused (r : SandboxRecord) (d : db) (e : store_error) : Prop :=
  IsAdminTenantID (sr_TenantID r) = false /\
  match e with
  | ErrTenantNotFound => tenants d !! sr_TenantID r = None
  | ErrTenantQuotaExceeded =>
      exists t, tenants d !! sr_TenantID r = Some t /\
                0 < t_MaxSandboxes t <= count_tenant (sr_TenantID r) d
  | _ => False
  end.

Class StoreLaws (S : SandboxStore) := {
  Create_law r : writes (Create r)
    (fun d d' => may_create r d /\ d' = insert_sandbox r d) (create_refused r);
  Get_law id : reads (Get id) (fun d a => a = sandboxes d !! id);
  UpdateStatus_law id s : writes (UpdateStatus id s)
    (fun d d' => d' = update_status id s d) no_refusal;
  UpdateLastActive_law id : writes (UpdateLastActive id)
    (fun d d' => exists now, d' = update_last_active id now d) no_refusal;
  Delete_law id : writes (Delete id) (fun d d' => d' = delete_sandbox id d) no_refusal;
  LockSandbox_law id : reads (LockSandbox id) (fun _ _ => True);
  ListForIdleReapDelete_law c : reads (ListForIdleReapDelete c)
    (fun d l => l ≡ₚ filter (reap_delete_row c) (sandbox_rows d));
  ListForIdleReapStop_law c e : reads (ListForIdleReapStop c e)
    (fun d l => l ≡ₚ filter (reap_stop_row c e) (sandbox_rows d));
  CountByTenant_law t : reads (CountByTenant t) (fun d n => n = count_tenant t d);
  List_law : reads List
    (fun d l => l ≡ₚ sandbox_rows d /\ Sorted (newest_first sr_CreatedAt) l);
  ListByTenant_law t : reads (ListByTenant t)
    (fun d l => l ≡ₚ filter (fun r => sr_TenantID r = t) (sandbox_rows d) /\
                Sorted (newest_first sr_CreatedAt) l);
  CreateTenant_law t : writes (CreateTenant t)
    (fun d d' => sql_insert_tenant t d = Some d') no_refusal;
  CreateTenantWithAPIKey_law t k : writes (CreateTenantWithAPIKey t k)
    (fun d d' => k_TenantID k = t_ID t /\ sql_insert_tenant t d ≫= sql_insert_key k = Some d')
    (fun _ e => e = ErrAPIKeyTenantMismatch /\ k_TenantID k <> t_ID t);
  GetTenant_law id : reads (GetTenant id) (fun d a => a = tenants d !! id);
  UpdateTenantLimits_law id n : writes (UpdateTenantLimits id n)
    (fun d d' => is_Some (tenants d !! id) /\ d' = set_tenants (alter (set_max_sandboxes n) id (tenants d)) d \/
                 tenants d !! id = None /\ d' = d)
    (fun d e => e = ErrTenantNotFound /\ tenants d !! id = None);
  DeleteTenant_law id : writes (DeleteTenant id)
    (fun d d' => count_tenant id d = 0 /\ is_Some (tenants d !! id) /\ d' = delete_tenant id d \/
                 tenants d !! id = None /\ d' = d)
    (fun d e => e = ErrTenantHasSandboxes /\ count_tenant id d > 0);
  CreateAPIKey_law k : writes (CreateAPIKey k)
    (fun d d' => sql_insert_key k d = Some d') no_refusal;
  GetAPIKey_law id : reads (GetAPIKey id) (fun d a => a = scanAPIKey id <$> api_keys d !! id);
  ListAPIKeysByTenant_law t : reads (ListAPIKeysByTenant t)
    (fun d l => l ≡ₚ filter (fun k => k_TenantID k = t) (key_rows d) /\
                Sorted (newest_first k_CreatedAt) l);
  ListActiveAPIKeysByPrefix_law p : reads (ListActiveAPIKeysByPrefix p)
    (fun d l => l ≡ₚ active_key_rows p d);
  RevokeAPIKey_law id : writes (RevokeAPIKey id)
    (fun d d' => exists now, d' = revoke_key id now d) no_refusal;
}.

(** ** SQLite ([sqlite.go])

    One connection, and [BEGIN IMMEDIATE] takes the write lock, so a transaction
    runs with nothing in between. *)

Section sqlite.
Context `{Env}.
#[local] Open Scope act_scope.

Definition sqlite_insertSandbox (r : SandboxRecord) : act world store_error unit :=
  sql_exec "create sandbox" (sql_insert_sandbox r).

Definition sqlite_Create (r : SandboxRecord) : act world store_error unit :=
  if IsAdminTenantID (sr_TenantID r) then sqlite_insertSandbox r
  else transaction "create sandbox" (
    let! m := sql_query "get tenant" (fun d => t_MaxSandboxes <$> tenants d !! sr_TenantID r) in
    match m with
    | None => exit ErrTenantNotFound
    | Some maxSandboxes =>
        do! (if decide (maxSandboxes > 0) then
               let! n := sql_query "count sandboxes by tenant" (count_tenant (sr_TenantID r)) in
               if decide (n >= maxSandboxes) then exit ErrTenantQuotaExceeded else ret tt
             else ret tt) in
        do! sqlite_insertSandbox r in
        ret (Commit tt)
    end).

Definition sqlite_Get (id : string) : act world store_error (option SandboxRecord) :=
  sql_query "get sandbox" (fun d => sandboxes d !! id).

Definition sqlite_UpdateStatus (id status : string) : act world store_error unit :=
  sql_exec "update status" (fun d => Some (update_status id status d)).

Definition sqlite_UpdateLastActive (id : string) : act world store_error unit :=
  let! now := time_now in
  sql_exec "update last_active_at" (fun d => Some (update_last_active id now d)).

Definition sqlite_Delete (id : string) : act world store_error unit :=
  sql_exec "delete sandbox" (fun d => Some (delete_sandbox id d)).

(** One sequential call: the lock is taken, or the request ends first.  Which
    stripe an id falls on is left out. *)
Definition sqlite_LockSandbox (id : string) : act world store_error unit :=
  let! done := ctx_cancelled in
  if done then exit ErrContext else ret tt.

Definition sqlite_ListForIdleReapDelete (cutoff : Z) : act world store_error (list SandboxRecord) :=
  sql_query "query sandboxes" (fun d => filter (reap_delete_row cutoff) (sandbox_rows d)).

Definition sqlite_ListForIdleReapStop (cutoff : Z) (ephemeral : bool) : act world store_error (list SandboxRecord) :=
  sql_query "query sandboxes" (fun d => filter (reap_stop_row cutoff ephemeral) (sandbox_rows d)).

Definition sqlite_CountByTenant (tid : string) : act world store_error Z :=
  sql_query "count sandboxes by tenant" (count_tenant tid).

Definition sqlite_List : act world store_error (list SandboxRecord) :=
  sql_query "query sandboxes" (fun d => order_by_created sr_CreatedAt (sandbox_rows d)).

Definition sqlite_ListByTenant (tid : string) : act world store_error (list SandboxRecord) :=
  sql_query "query sandboxes" (fun d =>
    order_by_created sr_CreatedAt (filter (fun r => sr_TenantID r = tid) (sandbox_rows d))).

Definition sqlite_CreateTenant (t : Tenant) : act world store_error unit :=
  sql_exec "create tenant" (sql_insert_tenant t).

Definition sqlite_CreateTenantWithAPIKey (t : Tenant) (k : APIKey) : act world store_error unit :=
  if decide (k_TenantID k <> t_ID t) then exit ErrAPIKeyTenantMismatch
  else transaction "tenant+key" (
    do! sql_exec "create tenant" (sql_insert_tenant t) in
    do! sql_exec "create api key" (sql_insert_key k) in
    ret (Commit tt)).

Definition sqlite_GetTenant (id : string) : act world store_error (option Tenant) :=
  sql_query "get tenant" (fun d => tenants d !! id).

Definition sqlite_ListTenants : act world store_error (list Tenant) :=
  sql_query "list tenants" (fun d => order_by_created t_CreatedAt (map_to_list (tenants d)).*2).

(** The rows the update matched come back with it. *)
Definition sql_update_limits (id : string) (n : Z) : act world store_error bool :=
  let! w := get in
  do! sql_exec "update tenant limits"
        (fun d => Some (set_tenants (alter (set_max_sandboxes n) id (tenants d)) d)) in
  ret (bool_decide (is_Some (tenants (w_db w) !! id))).

Definition sqlite_UpdateTenantLimits (id : string) (n : Z) : act world store_error unit :=
  let! matched := sql_update_limits id n in
  if matched then ret tt else exit ErrTenantNotFound.

Definition sqlite_DeleteTenant (id : string) : act world store_error unit :=
  transaction "delete tenant" (
    let! t := sql_query "get tenant" (fun d => tenants d !! id) in
    match t with
    | None => ret (Rollback tt)
    | Some _ =>
        let! n := sql_query "count sandboxes by tenant" (count_tenant id) in
        if decide (n > 0) then exit ErrTenantHasSandboxes
        else
          do! sql_exec "delete tenant" (fun d => Some (delete_tenant id d)) in
          ret (Commit tt)
    end).

Definition sqlite_CreateAPIKey (k : APIKey) : act world store_error unit :=
  sql_exec "create api key" (sql_insert_key k).

Definition sqlite_GetAPIKey (id : string) : act world store_error (option APIKey) :=
  sql_query "get api key" (fun d => scanAPIKey id <$> api_keys d !! id).

Definition sqlite_ListAPIKeysByTenant (tid : string) : act world store_error (list APIKey) :=
  sql_query "list api keys" (fun d =>
    order_by_created k_CreatedAt (filter (fun k => k_TenantID k = tid) (key_rows d))).

Definition sqlite_ListActiveAPIKeysByPrefix (prefix : string) : act world store_error (list APIKey) :=
  sql_query "list api keys by prefix" (active_key_rows prefix).

Definition sqlite_RevokeAPIKey (id : string) : act world store_error unit :=
  let! now := time_now in
  sql_exec "revoke api key" (fun d => Some (revoke_key id now d)).

Definition SQLiteStore : SandboxStore := {|
  Create := sqlite_Create; Get := sqlite_Get; UpdateStatus := sqlite_UpdateStatus;
  UpdateLastActive := sqlite_UpdateLastActive; Delete := sqlite_Delete;
  LockSandbox := sqlite_LockSandbox; ListForIdleReapDelete := sqlite_ListForIdleReapDelete;
  ListForIdleReapStop := sqlite_ListForIdleReapStop; CountByTenant := sqlite_CountByTenant;
  List := sqlite_List; ListByTenant := sqlite_ListByTenant; CreateTenant := sqlite_CreateTenant;
  CreateTenantWithAPIKey := sqlite_CreateTenantWithAPIKey; GetTenant := sqlite_GetTenant;
  ListTenants := sqlite_ListTenants; UpdateTenantLimits := sqlite_UpdateTenantLimits;
  DeleteTenant := sqlite_DeleteTenant; CreateAPIKey := sqlite_CreateAPIKey;
  GetAPIKey := sqlite_GetAPIKey; ListAPIKeysByTenant := sqlite_ListAPIKeysByTenant;
  ListActiveAPIKeysByPrefix := sqlite_ListActiveAPIKeysByPrefix; RevokeAPIKey := sqlite_RevokeAPIKey |}.
End sqlite.

(** ** Laws of statements and transactions *)

Section laws.
Context `{Env}.

Lemma only_db_refl w : only_db w w.
Proof. done. Qed.
Lemma only_db_trans w1 w2 w3 : only_db w1 w2 -> only_db w2 w3 -> only_db w1 w3.
Proof. unfold only_db. intros (-> & -> & ->) (-> & -> & ->). done. Qed.
Lemma only_db_tick w : only_db w (next_tick w).
Proof. done. Qed.
Lemma only_db_set d w : only_db w (set_db d w).
Proof. done. Qed.

Lemma reads_query {A} op (f : db -> A) : reads (sql_query op f) (fun d a => a = f d).
Proof.
  intros w. unfold sql_query. apply wp_bind, wp_tick. destruct (sql_fault _); wp_auto;
    (split; [done|split; [done|]]); unfold db_failure; eauto.
Qed.

Lemma writes_exec op f : writes (sql_exec op f) (fun d d' => f d = Some d') no_refusal.
Proof.
  intros w. unfold sql_exec. apply wp_bind, wp_tick. destruct (sql_fault _); wp_auto;
    (split; [done|]); simpl in *; unfold db_failure; eauto 6.
Qed.

Lemma reads_mono {A} (m : act world store_error A) (P Q : db -> A -> Prop) :
  reads m P -> (forall d a, P d a -> Q d a) -> reads m Q.
Proof.
  intros Hm HPQ w. eapply wp_mono; [apply Hm|]. intros [e|a] w' (? & ? & ?); eauto.
Qed.

Lemma writes_mono {A} (m : act world store_error A) (f g : db -> db -> Prop) r r' :
  writes m f r -> (forall d d', f d d' -> g d d') -> (forall d e, r d e -> r' d e) -> writes m g r'.
Proof.
  intros Hm Hf Hr w. eapply wp_mono; [apply Hm|].
  intros [e|a] w' [? Ho]; (split; [done|]); [|auto].
  destruct Ho as [[? [?|?]]|[? ?]]; eauto.
Qed.

Lemma reads_seq {A B} (m : act world store_error A) (k : act world store_error B) P (Q : db -> B -> Prop) :
  reads m P -> reads k Q -> reads (bind m (fun _ => k)) Q.
Proof.
  intros Hm Hk w. apply wp_bind. eapply wp_mono; [apply Hm|].
  intros [e|a] w1 (Hd & Ho & He); [done|]. eapply wp_mono; [apply Hk|].
  intros o w2 (Hd2 & Ho2 & HQ). rewrite Hd in *. by eauto using only_db_trans.
Qed.

(** The body of a transaction: statements only, and what it leaves is what a
    commit would install. *)
Definition tx_body {A} (m : act world store_error (tx_end A))
    (f : db -> db -> Prop) (refused : db -> store_error -> Prop) : Prop :=
  forall w, wp m (fun o w' =>
    only_db w w' /\
    match o with
    | inl e => db_failure e \/ refused (w_db w) e
    | inr (Commit _) => f (w_db w) (w_db w')
    | inr (Rollback _) => f (w_db w) (w_db w)
    end) w.

Lemma writes_transaction {A} op (m : act world store_error (tx_end A)) f refused :
  tx_body m f refused -> writes (transaction op m) f refused.
Proof.
  intros Hm w. unfold transaction. apply wp_bind, wp_tick.
  destruct (sql_fault _); [|wp_auto; split; [done|left; split; [left; eauto|by left]]..].
  wp_auto. eapply wp_mono; [apply (Hm (next_tick w))|].
  intros o w' [Hdb Ho]. simpl in *.
  destruct o as [e|[a|a]]; wp_auto.
  - split; [done|]. destruct Ho as [?|?]; [left|right]; eauto.
  - apply wp_tick. destruct (sql_fault _); wp_auto; (split; [done|]);
      unfold db_failure; eauto 6.
  - split; done.
Qed.

(** Inside a transaction a statement is a [wp] over the working tables. *)
Lemma wp_query {A} op (f : db -> A) (Q : store_error + A -> world -> Prop) w :
  (forall w', only_db w w' -> w_db w' = w_db w -> Q (inr (f (w_db w))) w') ->
  (forall e w', only_db w w' -> w_db w' = w_db w -> db_failure e -> Q (inl e) w') ->
  wp (sql_query op f) Q w.
Proof.
  intros Hok Herr. eapply wp_mono; [apply reads_query|].
  intros [e|a] w' (? & ? & Ho); [eauto|]. subst. eauto.
Qed.

Lemma wp_exec op f (Q : store_error + unit -> world -> Prop) w :
  (forall d w', only_db w w' -> f (w_db w) = Some d -> w_db w' = d -> Q (inr tt) w') ->
  (forall e w', only_db w w' -> db_failure e -> Q (inl e) w') ->
  wp (sql_exec op f) Q w.
Proof.
  intros Hok Herr. eapply wp_mono; [apply writes_exec|].
  intros [e|[]] w' [? Ho]; [|eauto].
  destruct Ho as [[? ?]|[[] _]]. eauto.
Qed.

Lemma order_by_created_perm {A} (f : A -> Z) l : order_by_created f l ≡ₚ l.
Proof. apply merge_sort_Permutation. Qed.

Lemma order_by_created_sorted {A} (f : A -> Z) l : Sorted (newest_first f) (order_by_created f l).
Proof. apply Sorted_merge_sort, _. Qed.

Lemma writes_exec_total op (f : db -> db) :
  writes (sql_exec op (fun d => Some (f d))) (fun d d' => d' = f d) no_refusal.
Proof. eapply writes_mono; [apply writes_exec| |done]. naive_solver. Qed.

Lemma writes_at_now op (f : Z -> db -> db) :
  writes (bind time_now (fun now => sql_exec op (fun d => Some (f now d))))
    (fun d d' => exists now, d' = f now d) no_refusal.
Proof.
  intros w. apply wp_bind, wp_time_now.
  eapply wp_mono; [apply writes_exec_total|]. simpl.
  intros [e|a] w' [? Ho]; (split; [done|]); [|eauto].
  destruct Ho as [[? [?|?]]|[[] _]]; eauto 6.
Qed.

Lemma insert_may_create r d d' :
  IsAdminTenantID (sr_TenantID r) = true -> sql_insert_sandbox r d = Some d' ->
  may_create r d /\ d' = insert_sandbox r d.
Proof.
  unfold sql_insert_sandbox, may_create. intros Ha Hi.
  destruct (sandboxes d !! sr_ID r) eqn:E; simplify_eq.
  split; [|done]. split; [done|congruence].
Qed.

(** The tenant branch of [Create]: read the limit, count, insert. *)
Lemma create_body_laws r (read_limit : act world store_error (option Z)) ins :
  IsAdminTenantID (sr_TenantID r) = false ->
  reads read_limit (fun d m => m = t_MaxSandboxes <$> tenants d !! sr_TenantID r) ->
  ins = sql_exec "create sandbox" (sql_insert_sandbox r) ->
  tx_body (bind read_limit (fun m => match m with
    | None => exit ErrTenantNotFound
    | Some maxSandboxes =>
        bind (if decide (maxSandboxes > 0) then
               bind (sql_query "count sandboxes by tenant" (count_tenant (sr_TenantID r)))
                 (fun n => if decide (n >= maxSandboxes) then exit ErrTenantQuotaExceeded else ret tt)
             else ret tt)
          (fun _ => bind ins (fun _ => ret (Commit tt)))
    end)) (fun d d' => may_create r d /\ d' = insert_sandbox r d) (create_refused r).
Proof.
  intros Ha Hread -> w. apply wp_bind. eapply wp_mono; [apply Hread|].
  intros [e|m] w1 (Hd1 & Ho1 & Hm); [eauto|]. subst m.
  destruct (tenants (w_db w) !! sr_TenantID r) as [t|] eqn:Ht; simpl; [|wp_auto; by split; [|right; split]].
  apply wp_bind. destruct (decide (t_MaxSandboxes t > 0)) as [Hpos|Hneg].
  - apply wp_bind, wp_query; [|eauto using only_db_trans].
    rewrite Hd1. intros w2 Ho2 Hd2. case_decide as Hfull; wp_auto.
    + split; [by eapply only_db_trans|]. right. split; [done|]. exists t. split; [done|lia].
    + apply wp_exec; [|eauto using only_db_trans].
      intros d w3 Ho3 Hins Hd3. wp_auto. split; [by eauto using only_db_trans|].
      rewrite Hd2 in Hins. unfold sql_insert_sandbox in Hins.
      destruct (sandboxes (w_db w) !! sr_ID r) eqn:Es; [done|]. simplify_eq.
      split; [|congruence]. split; [done|]. intros _. exists t. split; [done|lia].
  - wp_auto. apply wp_exec; [|eauto using only_db_trans].
    intros d w3 Ho3 Hins Hd3. wp_auto. split; [by eauto using only_db_trans|].
    rewrite Hd1 in Hins. unfold sql_insert_sandbox in Hins.
    destruct (sandboxes (w_db w) !! sr_ID r) eqn:Es; [done|]. simplify_eq.
    split; [|congruence]. split; [done|]. intros _. exists t. split; [done|lia].
Qed.

(** The body of [DeleteTenant]: look the tenant up, check it is empty, delete. *)
Lemma delete_tenant_body_laws {X} id (probe : act world store_error (option X)) :
  reads probe (fun d m => is_Some m <-> is_Some (tenants d !! id)) ->
  tx_body (bind probe (fun t => match t with
    | None => ret (Rollback tt)
    | Some _ =>
        bind (sql_query "count sandboxes by tenant" (count_tenant id))
          (fun n => if decide (n > 0) then exit ErrTenantHasSandboxes
                    else bind (sql_exec "delete tenant" (fun d => Some (delete_tenant id d)))
                           (fun _ => ret (Commit tt)))
    end))
    (fun d d' => count_tenant id d = 0 /\ is_Some (tenants d !! id) /\ d' = delete_tenant id d \/
                 tenants d !! id = None /\ d' = d)
    (fun d e => e = ErrTenantHasSandboxes /\ count_tenant id d > 0).
Proof.
  intros Hp w. apply wp_bind. eapply wp_mono; [apply Hp|].
  intros [e|m] w1 (Hd1 & Ho1 & Hm); [eauto|].
  destruct m as [x|]; wp_auto.
  - apply wp_query; [|eauto using only_db_trans]. rewrite Hd1. intros w2 Ho2 Hd2.
    case_decide as Hn; wp_auto; [split; eauto using only_db_trans|].
    apply wp_exec; [|eauto using only_db_trans]. intros d w3 Ho3 Hf Hd3. wp_auto.
    injection Hf as Hf. rewrite <- Hf, Hd2 in Hd3.
    split; [eauto using only_db_trans|]. left.
    split; [unfold count_tenant in *; lia|]. split; [by apply Hm|done].
  - split; [done|]. right. split; [|done]. apply eq_None_not_Some. rewrite <- Hm. apply is_Some_None.
Qed.

(** Tenant and first key, in one transaction. *)
Lemma tenant_with_key_body_laws t k :
  k_TenantID k = t_ID t ->
  tx_body (bind (sql_exec "create tenant" (sql_insert_tenant t))
             (fun _ => bind (sql_exec "create api key" (sql_insert_key k)) (fun _ => ret (Commit tt))))
    (fun d d' => k_TenantID k = t_ID t /\ sql_insert_tenant t d ≫= sql_insert_key k = Some d')
    (fun _ e => e = ErrAPIKeyTenantMismatch /\ k_TenantID k <> t_ID t).
Proof.
  intros Hk w. apply wp_bind, wp_exec; [|eauto]. intros d1 w1 Ho1 Hf1 Hd1.
  apply wp_bind, wp_exec; [|eauto using only_db_trans]. intros d2 w2 Ho2 Hf2 Hd2. wp_auto.
  split; [eauto using only_db_trans|]. split; [done|]. rewrite Hf1. simpl. congruence.
Qed.

Lemma update_limits_laws id n :
  writes (bind (sql_update_limits id n) (fun matched : bool => if matched then ret tt else exit ErrTenantNotFound))
    (fun d d' => is_Some (tenants d !! id) /\ d' = set_tenants (alter (set_max_sandboxes n) id (tenants d)) d \/
                 tenants d !! id = None /\ d' = d)
    (fun d e => e = ErrTenantNotFound /\ tenants d !! id = None).
Proof.
  intros w. unfold sql_update_limits. wp_auto.
  eapply wp_mono; [apply writes_exec_total|]. simpl.
  assert (Hnone : tenants (w_db w) !! id = None ->
    set_tenants (alter (set_max_sandboxes n) id (tenants (w_db w))) (w_db w) = w_db w).
  { intros E. rewrite alter_id by naive_solver. by destruct (w_db w). }
  intros [e|[]] w' [Ho Hw]; wp_auto.
  - split; [done|]. destruct Hw as [[He Hw]|[[] _]]. left. split; [done|].
    destruct Hw as [Hw|Hw]; [by left|right].
    destruct (tenants (w_db w) !! id) eqn:E; [left|right]; rewrite ?Hnone in Hw by done; eauto.
  - split; [done|]. left. apply bool_decide_eq_true in Heqb. split; [done|]. exact Hw.
  - split; [done|]. right. apply bool_decide_eq_false, eq_None_not_Some in Heqb.
    rewrite Hnone in Hw by done. done.
Qed.

End laws.

Ltac query_law := eapply reads_mono; [apply reads_query|]; intros d a ->; eauto using
  order_by_created_perm, order_by_created_sorted.

(** The operations that are one statement. *)
Ltac statement_law :=
  first [ by refine (writes_exec_total _ _) | by refine (writes_at_now _ _)
        | by refine (writes_exec _ _) | by query_law ].

#[export] Instance SQLiteStore_laws `{Env} : StoreLaws SQLiteStore.
Proof.
  split; simpl; intros; try statement_law.
  - unfold sqlite_Create. destruct (IsAdminTenantID (sr_TenantID r)) eqn:Ha.
    + eapply writes_mono; [apply writes_exec| |done]. intros. by eapply insert_may_create.
    + apply writes_transaction, create_body_laws; [done|apply reads_query|done].
  - intros w. unfold sqlite_LockSandbox. apply wp_bind, wp_ctx_cancelled.
    destruct (ctx_err _); wp_auto; (split; [done|split; [done|]]); [by right|done].
  - unfold sqlite_CreateTenantWithAPIKey. case_decide as Hk.
    + intros w. wp_auto. split; [done|]. right. done.
    + apply writes_transaction, tenant_with_key_body_laws. destruct (decide (k_TenantID k = t_ID t)); tauto.
  - apply update_limits_laws.
  - apply writes_transaction, delete_tenant_body_laws.
    eapply reads_mono; [apply reads_query|]. by intros d a ->.
Qed.

(** ** Postgres ([postgres.go]): one operation at a time

    The statements are SQLite's; a transaction takes the tenant's row lock
    instead of the database's.  How two transactions interleave under those row
    locks is in [PgTx]. *)

Section postgres.
Context `{Env}.
#[local] Open Scope act_scope.

Definition pg_insertSandbox (r : SandboxRecord) : act world store_error unit :=
  sql_exec "create sandbox" (sql_insert_sandbox r).

Definition pg_lockTenantForUpdate (id : string) : act world store_error (option Z) :=
  sql_query "lock tenant" (fun d => t_MaxSandboxes <$> tenants d !! id).

Definition pg_Create (r : SandboxRecord) : act world store_error unit :=
  if IsAdminTenantID (sr_TenantID r) then pg_insertSandbox r
  else transaction "create sandbox" (
    let! m := pg_lockTenantForUpdate (sr_TenantID r) in
    match m with
    | None => exit ErrTenantNotFound
    | Some maxSandboxes =>
        do! (if decide (maxSandboxes > 0) then
               let! n := sql_query "count sandboxes by tenant" (count_tenant (sr_TenantID r)) in
               if decide (n >= maxSandboxes) then exit ErrTenantQuotaExceeded else ret tt
             else ret tt) in
        do! pg_insertSandbox r in
        ret (Commit tt)
    end).

(** A connection from the lock pool, a transaction on it, and the advisory lock,
    each of which may fail or be cut short by the request's context. *)
Definition pg_LockSandbox (id : string) : act world store_error unit :=
  do! sql_query "acquire conn for sandbox lock" (fun _ => tt) in
  do! sql_query "begin sandbox lock transaction" (fun _ => tt) in
  do! sql_query "lock sandbox" (fun _ => tt) in
  ret tt.

Definition pg_DeleteTenant (id : string) : act world store_error unit :=
  transaction "delete tenant" (
    let! t := pg_lockTenantForUpdate id in
    match t with
    | None => ret (Rollback tt)
    | Some _ =>
        let! n := sql_query "count sandboxes by tenant" (count_tenant id) in
        if decide (n > 0) then exit ErrTenantHasSandboxes
        else
          do! sql_exec "delete tenant" (fun d => Some (delete_tenant id d)) in
          ret (Commit tt)
    end).

Definition pg_Get (id : string) : act world store_error (option SandboxRecord) :=
  sql_query "get sandbox" (fun d => sandboxes d !! id).

Definition pg_UpdateStatus (id status : string) : act world store_error unit :=
  sql_exec "update status" (fun d => Some (update_status id status d)).

Definition pg_UpdateLastActive (id : string) : act world store_error unit :=
  let! now := time_now in
  sql_exec "update last_active_at" (fun d => Some (update_last_active id now d)).

Definition pg_Delete (id : string) : act world store_error unit :=
  sql_exec "delete sandbox" (fun d => Some (delete_sandbox id d)).

Definition pg_ListForIdleReapDelete (cutoff : Z) : act world store_error (list SandboxRecord) :=
  sql_query "query sandboxes" (fun d => filter (reap_delete_row cutoff) (sandbox_rows d)).

Definition pg_ListForIdleReapStop (cutoff : Z) (ephemeral : bool) : act world store_error (list SandboxRecord) :=
  sql_query "query sandboxes" (fun d => filter (reap_stop_row cutoff ephemeral) (sandbox_rows d)).

Definition pg_CountByTenant (tid : string) : act world store_error Z :=
  sql_query "count sandboxes by tenant" (count_tenant tid).

Definition pg_List : act world store_error (list SandboxRecord) :=
  sql_query "query sandboxes" (fun d => order_by_created sr_CreatedAt (sandbox_rows d)).

Definition pg_ListByTenant (tid : string) : act world store_error (list SandboxRecord) :=
  sql_query "query sandboxes" (fun d =>
    order_by_created sr_CreatedAt (filter (fun r => sr_TenantID r = tid) (sandbox_rows d))).

Definition pg_CreateTenant (t : Tenant) : act world store_error unit :=
  sql_exec "create tenant" (sql_insert_tenant t).

Definition pg_CreateTenantWithAPIKey (t : Tenant) (k : APIKey) : act world store_error unit :=
  if decide (k_TenantID k <> t_ID t) then exit ErrAPIKeyTenantMismatch
  else transaction "tenant+key" (
    do! sql_exec "create tenant" (sql_insert_tenant t) in
    do! sql_exec "create api key" (sql_insert_key k) in
    ret (Commit tt)).

Definition pg_GetTenant (id : string) : act world store_error (option Tenant) :=
  sql_query "get tenant" (fun d => tenants d !! id).

Definition pg_ListTenants : act world store_error (list Tenant) :=
  sql_query "list tenants" (fun d => order_by_created t_CreatedAt (map_to_list (tenants d)).*2).

Definition pg_UpdateTenantLimits (id : string) (n : Z) : act world store_error unit :=
  let! matched := sql_update_limits id n in
  if matched then ret tt else exit ErrTenantNotFound.

Definition pg_CreateAPIKey (k : APIKey) : act world store_error unit :=
  sql_exec "create api key" (sql_insert_key k).

Definition pg_GetAPIKey (id : string) : act world store_error (option APIKey) :=
  sql_query "get api key" (fun d => scanAPIKey id <$> api_keys d !! id).

Definition pg_ListAPIKeysByTenant (tid : string) : act world store_error (list APIKey) :=
  sql_query "list api keys" (fun d =>
    order_by_created k_CreatedAt (filter (fun k => k_TenantID k = tid) (key_rows d))).

Definition pg_ListActiveAPIKeysByPrefix (prefix : string) : act world store_error (list APIKey) :=
  sql_query "list api keys by prefix" (active_key_rows prefix).

Definition pg_RevokeAPIKey (id : string) : act world store_error unit :=
  let! now := time_now in
  sql_exec "revoke api key" (fun d => Some (revoke_key id now d)).

Definition PostgresStore : SandboxStore := {|
  Create := pg_Create;
  Get := pg_Get;
  UpdateStatus := pg_UpdateStatus;
  UpdateLastActive := pg_UpdateLastActive;
  Delete := pg_Delete;
  LockSandbox := pg_LockSandbox;
  ListForIdleReapDelete := pg_ListForIdleReapDelete;
  ListForIdleReapStop := pg_ListForIdleReapStop;
  CountByTenant := pg_CountByTenant;
  List := pg_List;
  ListByTenant := pg_ListByTenant;
  CreateTenant := pg_CreateTenant;
  CreateTenantWithAPIKey := pg_CreateTenantWithAPIKey;
  GetTenant := pg_GetTenant;
  ListTenants := pg_ListTenants;
  UpdateTenantLimits := pg_UpdateTenantLimits;
  DeleteTenant := pg_DeleteTenant;
  CreateAPIKey := pg_CreateAPIKey;
  GetAPIKey := pg_GetAPIKey;
  ListAPIKeysByTenant := pg_ListAPIKeysByTenant;
  ListActiveAPIKeysByPrefix := pg_ListActiveAPIKeysByPrefix;
  RevokeAPIKey := pg_RevokeAPIKey |}.

#[export] Instance PostgresStore_laws : StoreLaws PostgresStore.
Proof.
  split; simpl; intros; try statement_law.
  - unfold pg_Create. destruct (IsAdminTenantID (sr_TenantID r)) eqn:Ha.
    + eapply writes_mono; [apply writes_exec| |done]. intros. by eapply insert_may_create.
    + apply writes_transaction, create_body_laws; [done|apply reads_query|done].
  - unfold pg_LockSandbox. do 3 (eapply reads_seq; [apply reads_query|]). intros w. wp_auto. done.
  - unfold pg_CreateTenantWithAPIKey. case_decide as Hk.
    + intros w. wp_auto. split; [done|]. right. done.
    + apply writes_transaction, tenant_with_key_body_laws. destruct (decide (k_TenantID k = t_ID t)); tauto.
  - apply update_limits_laws.
  - apply writes_transaction, delete_tenant_body_laws.
    eapply reads_mono; [apply reads_query|]. intros d a ->. by rewrite fmap_is_Some.
Qed.
End postgres.
End Store.
