(* ===== verification/StoreInv.v ===== *)
(** * What the tables always satisfy

    Invariants of the sandbox store over every sequence of operations and every
    pattern of SQL failures, proved once against the interface's laws and so for
    both backends. *)

From S2P Require Import Prelude Quota World Store.

Module StoreInv.
Import Store.

(** The operations that change a table. *)
Inductive op :=
| OpCreate (r : SandboxRecord)
| OpUpdateStatus (id status : string)
| OpUpdateLastActive (id : string)
| OpDelete (id : string)
| OpCreateTenant (t : Tenant)
| OpCreateTenantWithAPIKey (t : Tenant) (k : APIKey)
| OpUpdateTenantLimits (id : string) (n : Z)
| OpDeleteTenant (id : string)
| OpCreateAPIKey (k : APIKey)
| OpRevokeAPIKey (id : string).

Definition run_op `{SandboxStore} (o : op) : act world store_error unit :=
  match o with
  | OpCreate r => Create r
  | OpUpdateStatus id s => UpdateStatus id s
  | OpUpdateLastActive id => UpdateLastActive id
  | OpDelete id => Delete id
  | OpCreateTenant t => CreateTenant t
  | OpCreateTenantWithAPIKey t k => CreateTenantWithAPIKey t k
  | OpUpdateTenantLimits id n => UpdateTenantLimits id n
  | OpDeleteTenant id => DeleteTenant id
  | OpCreateAPIKey k => CreateAPIKey k
  | OpRevokeAPIKey id => RevokeAPIKey id
  end.

(** A history: errors are the caller's business, the tables go on. *)
Fixpoint run_ops `{SandboxStore} (os : list op) (w : world) : world :=
  match os with
  | [] => w
  | o :: os' => run_ops os' (run_op o w).2
  end.

(** What an operation does to the tables when it takes effect. *)
Definition effect (o : op) (d d' : db) : Prop :=
  match o with
  | OpCreate r => may_create r d /\ d' = insert_sandbox r d
  | OpUpdateStatus id s => d' = update_status id s d
  | OpUpdateLastActive id => exists now, d' = update_last_active id now d
  | OpDelete id => d' = delete_sandbox id d
  | OpCreateTenant t => sql_insert_tenant t d = Some d'
  | OpCreateTenantWithAPIKey t k => sql_insert_tenant t d ≫= sql_insert_key k = Some d'
  | OpUpdateTenantLimits id n => d' = set_tenants (alter (set_max_sandboxes n) id (tenants d)) d
  | OpDeleteTenant id => count_tenant id d = 0 /\ d' = delete_tenant id d
  | OpCreateAPIKey k => sql_insert_key k d = Some d'
  | OpRevokeAPIKey id => exists now, d' = revoke_key id now d
  end.

Lemma writes_effect (m : act world store_error unit) f refused (g : db -> db -> Prop) w :
  writes m f refused -> (forall d d', f d d' -> d' = d \/ g d d') ->
  w_db (m w).2 = w_db w \/ g (w_db w) (w_db (m w).2).
Proof.
  intros Hm Hfg. specialize (Hm w). unfold wp in Hm.
  destruct (m w) as [[e|[]] w']; destruct Hm as [_ Ho]; simpl; [|auto].
  destruct Ho as [[_ [?|?]]|[_ ?]]; auto.
Qed.

Lemma run_op_effect {St : SandboxStore} {HL : StoreLaws St} o w :
  w_db (run_op o w).2 = w_db w \/ effect o (w_db w) (w_db (run_op o w).2).
Proof.
  assert (Hw : exists f refused, writes (run_op o) f refused /\
    forall d d', f d d' -> d' = d \/ effect o d d').
  { destruct o; simpl; do 2 eexists; (split; [eauto using Create_law, UpdateStatus_law,
      UpdateLastActive_law, Delete_law, CreateTenant_law, CreateTenantWithAPIKey_law,
      UpdateTenantLimits_law, DeleteTenant_law, CreateAPIKey_law, RevokeAPIKey_law|]);
      naive_solver. }
  destruct Hw as (f & refused & Hw & Hf). eapply (writes_effect _ _ _ (effect o)); eauto.
Qed.

(** ** Integrity *)

Record db_ok (d : db) : Prop := {
  ok_sandbox_id id r : sandboxes d !! id = Some r -> sr_ID r = id;
  ok_tenant_id id t : tenants d !! id = Some t -> t_ID t = id;
  ok_key_tenant id k : api_keys d !! id = Some k -> is_Some (tenants d !! kr_tenant k);
  ok_owner id r : sandboxes d !! id = Some r -> IsAdminTenantID (sr_TenantID r) = false ->
                  is_Some (tenants d !! sr_TenantID r);
}.

Lemma alter_lookup_inv {V} (f : V -> V) (m : gmap string V) i j v :
  alter f i m !! j = Some v -> exists v0, m !! j = Some v0 /\ (v = v0 \/ v = f v0).
Proof.
  rewrite lookup_alter. case_decide; [subst|eauto].
  intros (v0 & -> & ?)%fmap_Some. eauto.
Qed.

Lemma db_ok_alter_sandbox f id d :
  (forall r, sr_ID (f r) = sr_ID r) -> (forall r, sr_TenantID (f r) = sr_TenantID r) ->
  db_ok d -> db_ok (set_sandboxes (alter f id (sandboxes d)) d).
Proof.
  intros Hid Ht [H1 H2 H3 H4]. split; simpl; [|exact H2|exact H3|].
  - intros i r (r0 & Hr & [-> | ->])%alter_lookup_inv; rewrite ?Hid; eauto.
  - intros i r (r0 & Hr & [-> | ->])%alter_lookup_inv; rewrite ?Ht; eauto.
Qed.

Lemma db_ok_delete_sandbox id d : db_ok d -> db_ok (delete_sandbox id d).
Proof.
  intros [H1 H2 H3 H4]. split; simpl; [|done|done|];
    intros i r [_ Hr]%lookup_delete_Some; eauto.
Qed.

Lemma db_ok_insert_sandbox r d : db_ok d -> may_create r d -> db_ok (insert_sandbox r d).
Proof.
  intros [H1 H2 H3 H4] [Hnone Hown]. split; simpl; [|done|done|].
  - intros i r' [[? ?]|[? ?]]%lookup_insert_Some; subst; eauto.
  - intros i r' [[? ?]|[? ?]]%lookup_insert_Some; subst; [|eauto].
    intros Ha. destruct (Hown Ha) as (t & ? & _). eauto.
Qed.

Lemma is_Some_insert {V} (m : gmap string V) i j v :
  is_Some (m !! j) -> is_Some (<[i:=v]> m !! j).
Proof. intros Hj. apply lookup_insert_is_Some'. auto. Qed.

Lemma db_ok_insert_tenant t d d' : db_ok d -> sql_insert_tenant t d = Some d' -> db_ok d'.
Proof.
  unfold sql_insert_tenant. intros [H1 H2 H3 H4] Hi.
  destruct (tenants d !! t_ID t) eqn:E; simplify_eq. split; simpl; eauto using is_Some_insert.
  intros i t' [[? ?]|[? ?]]%lookup_insert_Some; subst; eauto.
Qed.

Lemma db_ok_insert_key k d d' : db_ok d -> sql_insert_key k d = Some d' -> db_ok d'.
Proof.
  unfold sql_insert_key. intros [H1 H2 H3 H4] Hi.
  destruct (api_keys d !! k_ID k) eqn:E, (tenants d !! k_TenantID k) eqn:E'; simplify_eq.
  split; simpl; eauto.
  intros i k' [[? ?]|[? ?]]%lookup_insert_Some; subst; simpl; eauto.
Qed.

Lemma db_ok_alter_tenant f id d :
  (forall t, t_ID (f t) = t_ID t) -> db_ok d -> db_ok (set_tenants (alter f id (tenants d)) d).
Proof.
  intros Hf [H1 H2 H3 H4]. split; simpl; [done| | |];
    try (intros; apply lookup_alter_is_Some; by eauto).
  intros i t (t0 & Ht & [-> | ->])%alter_lookup_inv; rewrite ?Hf; eauto.
Qed.

Lemma count_tenant_zero id d :
  count_tenant id d = 0 <-> forall i r, sandboxes d !! i = Some r -> sr_TenantID r <> id.
Proof.
  unfold count_tenant. split.
  - intros Hc i r Hr. assert (Hz : count_if (row_of_tenant id) (sandboxes d) = 0%nat) by lia.
    rewrite count_if_zero in Hz. specialize (Hz i r Hr).
    by apply bool_decide_eq_false in Hz.
  - intros Hall. enough (count_if (row_of_tenant id) (sandboxes d) = 0%nat) by lia.
    apply count_if_zero. intros i r Hr. apply bool_decide_eq_false. eauto.
Qed.

Lemma db_ok_delete_tenant id d : db_ok d -> count_tenant id d = 0 -> db_ok (delete_tenant id d).
Proof.
  intros [H1 H2 H3 H4] Hc. rewrite count_tenant_zero in Hc. split; simpl; [done| | |].
  - intros i t [_ Ht]%lookup_delete_Some. eauto.
  - intros i k [Hk Hne]%map_lookup_filter_Some. simpl in Hne.
    rewrite lookup_delete_ne by done. eauto.
  - intros i r Hr Ha. rewrite lookup_delete_ne by (symmetry; eauto). eauto.
Qed.

Lemma db_ok_revoke id now d : db_ok d -> db_ok (revoke_key id now d).
Proof.
  intros [H1 H2 H3 H4]. split; simpl; [done|done| |done].
  intros i k (k0 & Hk & [-> | ->])%alter_lookup_inv; [eauto|].
  unfold revoke_row. destruct (kr_revoked k0); simpl; eauto.
Qed.

Lemma db_ok_effect o d d' : db_ok d -> effect o d d' -> db_ok d'.
Proof.
  intros Hok He. destruct o; simpl in He.
  - destruct He as [? ->]. by apply db_ok_insert_sandbox.
  - subst. by apply db_ok_alter_sandbox.
  - destruct He as [now ->]. by apply db_ok_alter_sandbox.
  - subst. by apply db_ok_delete_sandbox.
  - by eapply db_ok_insert_tenant.
  - apply bind_Some in He as (d1 & ? & ?). eauto using db_ok_insert_tenant, db_ok_insert_key.
  - subst. by apply db_ok_alter_tenant.
  - destruct He as [? ->]. by apply db_ok_delete_tenant.
  - by eapply db_ok_insert_key.
  - destruct He as [now ->]. by apply db_ok_revoke.
Qed.

(** C39: For either backend, any sequence of store operations, with any SQL
    failures in it, keeps the tables consistent: every row is stored under its
    own id, every API key belongs to an existing tenant, and every sandbox that
    is not admin-owned belongs to an existing tenant, so no delete of a tenant
    ever leaves one of its sandboxes or keys behind. *)
Theorem store_integrity (St : SandboxStore) (HL : StoreLaws St) (os : list op) (w : world) :
  db_ok (w_db w) -> db_ok (w_db (run_ops os w)).
Proof.
  revert w. induction os as [|o os IH]; intros w Hok; [done|]. simpl. apply IH.
  destruct (run_op_effect o w) as [-> | He]; eauto using db_ok_effect.
Qed.

(** ** Quota *)

Definition quota_ok (d : db) : Prop :=
  forall tid t, tenants d !! tid = Some t -> IsAdminTenantID tid = false ->
    t_MaxSandboxes t > 0 -> count_tenant tid d <= t_MaxSandboxes t.

(** A limit change that does not go below what the tenant holds (0 or less is
    unlimited).  [UpdateTenantLimits] also accepts the others: the tenant then
    keeps its sandboxes. *)
Definition limit_covers_rows (d : db) (o : op) : Prop :=
  match o with
  | OpUpdateTenantLimits id n => n <= 0 \/ count_tenant id d <= n
  | _ => True
  end.

Fixpoint limits_cover_rows `{SandboxStore} (os : list op) (w : world) : Prop :=
  match os with
  | [] => True
  | o :: os' => limit_covers_rows (w_db w) o /\ limits_cover_rows os' (run_op o w).2
  end.

Lemma count_tenant_alter f id tid d :
  (forall r, sr_TenantID (f r) = sr_TenantID r) ->
  count_tenant tid (set_sandboxes (alter f id (sandboxes d)) d) = count_tenant tid d.
Proof.
  intros Hf. unfold count_tenant; simpl. f_equal.
  destruct (sandboxes d !! id) as [r|] eqn:E; [|by rewrite alter_id by naive_solver].
  assert (Ha : alter f id (sandboxes d) = <[id := f r]> (sandboxes d)).
  { apply map_eq. intros j. rewrite lookup_alter, lookup_insert. case_decide; [subst|done].
    by rewrite E. }
  rewrite Ha. eapply count_if_insert_same; [done|]. unfold row_of_tenant. by rewrite Hf.
Qed.

Lemma count_tenant_delete tid id d : count_tenant tid (delete_sandbox id d) <= count_tenant tid d.
Proof.
  unfold count_tenant; simpl. pose proof (count_if_delete_le (row_of_tenant tid) (sandboxes d) id). lia.
Qed.

Lemma count_tenant_insert r d :
  sandboxes d !! sr_ID r = None -> forall tid,
  count_tenant tid (insert_sandbox r d) =
    count_tenant tid d + (if decide (sr_TenantID r = tid) then 1 else 0).
Proof.
  intros Hn tid. unfold count_tenant; simpl. rewrite count_if_insert_None by done.
  unfold row_of_tenant at 1. case_bool_decide; case_decide; try done; lia.
Qed.

Lemma quota_ok_insert_tenant t d d' :
  db_ok d -> quota_ok d -> sql_insert_tenant t d = Some d' -> quota_ok d'.
Proof.
  unfold sql_insert_tenant. intros Hok Hq Hi. destruct (tenants d !! t_ID t) eqn:E; simplify_eq.
  intros tid t' Ht Ha Hpos. simpl in Ht. unfold count_tenant; simpl. fold (count_tenant tid d).
  apply lookup_insert_Some in Ht as [[<- <-]|[? ?]]; [|by eapply Hq].
  enough (count_tenant (t_ID t) d = 0) by lia. apply count_tenant_zero. intros i r Hr Heq.
  destruct (ok_owner d Hok i r Hr) as [? ?]; congruence.
Qed.

Lemma quota_ok_insert_key k d d' : quota_ok d -> sql_insert_key k d = Some d' -> quota_ok d'.
Proof. unfold sql_insert_key. intros Hq Hi. repeat case_match; simplify_eq. exact Hq. Qed.

Lemma quota_ok_effect o d d' :
  db_ok d -> quota_ok d -> limit_covers_rows d o -> effect o d d' -> quota_ok d'.
Proof.
  intros Hok Hq Hlim He. destruct o; simpl in He, Hlim.
  - destruct He as [[Hn Hmay] ->]. intros tid t Ht Ha Hpos. simpl in Ht.
    rewrite count_tenant_insert by done. case_decide as Htid; [subst|specialize (Hq tid t Ht Ha Hpos); lia].
    destruct (Hmay Ha) as (t' & Ht' & Hroom). simplify_eq. specialize (Hroom Hpos). lia.
  - subst. intros tid t Ht. unfold update_status. rewrite count_tenant_alter by done. by apply Hq.
  - destruct He as [now ->]. intros tid t Ht. unfold update_last_active.
    rewrite count_tenant_alter by done. by apply Hq.
  - subst. intros tid t Ht Ha Hpos. pose proof (count_tenant_delete tid id d).
    specialize (Hq tid t Ht Ha Hpos). lia.
  - by eapply quota_ok_insert_tenant.
  - apply bind_Some in He as (d1 & ? & ?). eauto using quota_ok_insert_tenant, quota_ok_insert_key.
  - subst. intros tid t Ht Ha Hpos. simpl in Ht. change (count_tenant tid d <= t_MaxSandboxes t).
    rewrite lookup_alter in Ht. case_decide; [subst|by eapply Hq].
    apply fmap_Some in Ht as (t0 & Ht0 & ->). simpl in *. lia.
  - destruct He as [Hc ->]. intros tid t Ht. simpl in Ht.
    apply lookup_delete_Some in Ht as [_ Ht]. by apply Hq.
  - by eapply quota_ok_insert_key.
  - destruct He as [now ->]. exact Hq.
Qed.

(** C7: A tenant never holds more sandboxes than its [max_sandboxes]: starting
    from consistent tables where every tenant is within its quota, any sequence
    of store operations with any SQL failures, as long as no limit is lowered
    below what the tenant then holds, ends with every tenant within its quota.
    Admin-owned rows have no quota, and 0 means unlimited. *)
Theorem quota_never_exceeded (St : SandboxStore) (HL : StoreLaws St) (os : list op) (w : world) :
  db_ok (w_db w) -> quota_ok (w_db w) -> limits_cover_rows os w ->
  quota_ok (w_db (run_ops os w)).
Proof.
  revert w. induction os as [|o os IH]; intros w Hok Hq Hlim; [done|].
  destruct Hlim as [Ho Hlim]. simpl. apply IH; [| |done];
    destruct (run_op_effect o w) as [-> | He]; eauto using db_ok_effect, quota_ok_effect.
Qed.

(** ** Revocation *)

(** Key ids are fresh UUIDs: no operation of the history creates [id]. *)
Definition creates_key (id : string) (o : op) : Prop :=
  match o with
  | OpCreateAPIKey k | OpCreateTenantWithAPIKey _ k => k_ID k = id
  | _ => False
  end.

Lemma revoked_effect id k o d d' :
  ~ creates_key id o -> kr_revoked k <> None ->
  api_keys d !! id = Some k -> effect o d d' ->
  api_keys d' !! id = Some k \/ api_keys d' !! id = None.
Proof.
  intros Hnew Hrev Hk He. destruct o; simpl in He, Hnew; try (naive_solver; fail).
  - unfold sql_insert_tenant in He. case_match; simplify_eq. by left.
  - apply bind_Some in He as (d1 & He1 & He2). unfold sql_insert_tenant, sql_insert_key in *.
    repeat case_match; simplify_eq. left. simpl. by rewrite lookup_insert_ne by done.
  - destruct He as [_ ->]. simpl. destruct (decide (kr_tenant k = id0)).
    + right. apply map_lookup_filter_None. right. intros x Hx. naive_solver.
    + left. by apply map_lookup_filter_Some.
  - unfold sql_insert_key in He. repeat case_match; simplify_eq. left. simpl.
    by rewrite lookup_insert_ne by done.
  - destruct He as [now ->]. left. simpl. rewrite lookup_alter. case_decide; [subst|done].
    rewrite Hk. simpl. unfold revoke_row. by destruct (kr_revoked k) eqn:E.
Qed.

Lemma absent_key_effect id o d d' :
  ~ creates_key id o -> api_keys d !! id = None -> effect o d d' -> api_keys d' !! id = None.
Proof.
  intros Hnew Hk He. destruct o; simpl in He, Hnew; try (naive_solver; fail).
  - unfold sql_insert_tenant in He. case_match; simplify_eq. done.
  - apply bind_Some in He as (d1 & He1 & He2). unfold sql_insert_tenant, sql_insert_key in *.
    repeat case_match; simplify_eq. simpl. by rewrite lookup_insert_ne by done.
  - destruct He as [_ ->]. simpl. apply map_lookup_filter_None. by left.
  - unfold sql_insert_key in He. repeat case_match; simplify_eq. simpl.
    by rewrite lookup_insert_ne by done.
  - destruct He as [now ->]. simpl. rewrite lookup_alter. case_decide; [subst; by rewrite Hk|done].
Qed.

Lemma revoked_run {St : SandboxStore} {HL : StoreLaws St} id k os w :
  Forall (fun o => ~ creates_key id o) os -> kr_revoked k <> None ->
  api_keys (w_db w) !! id = Some k \/ api_keys (w_db w) !! id = None ->
  api_keys (w_db (run_ops os w)) !! id = Some k \/ api_keys (w_db (run_ops os w)) !! id = None.
Proof.
  intros Hos Hrev. revert w. induction Hos as [|o os Ho Hos IH]; intros w Hk; [done|]. simpl. apply IH.
  destruct (run_op_effect o w) as [-> | He]; [done|].
  destruct Hk; eauto using revoked_effect, absent_key_effect.
Qed.

(** A revoked API key never authenticates again: once a key's row has a
    revocation time, no sequence of store operations and failures makes it show
    up among the active keys of any prefix (its row stays as it is, with its
    first revocation time, or goes with its tenant), as long as no operation
    reuses its id for a new key. *)
Theorem revoked_key_stays_revoked (St : SandboxStore) (HL : StoreLaws St)
    (os : list op) (w : world) (id : string) (k : key_row) (now : Z) (prefix : string) :
  api_keys (w_db w) !! id = Some k ->
  Forall (fun o => ~ creates_key id o) os ->
  let d := w_db (run_ops os (set_db (revoke_key id now (w_db w)) w)) in
  (api_keys d !! id = Some (revoke_row now k) \/ api_keys d !! id = None) /\
  ~ exists key, key ∈ active_key_rows prefix d /\ k_ID key = id.
Proof.
  intros Hk Hos d.
  assert (Hrev : kr_revoked (revoke_row now k) <> None)
    by (unfold revoke_row; destruct (kr_revoked k) eqn:E; simpl; congruence).
  assert (Hd : api_keys d !! id = Some (revoke_row now k) \/ api_keys d !! id = None).
  { apply revoked_run; [done|done|]. left. simpl. by rewrite lookup_alter, decide_True, Hk. }
  split; [exact Hd|]. intros (key & Hin & Hid).
  apply list_elem_of_fmap in Hin as ([i r] & -> & Hin). simpl in Hid. subst i.
  apply list_elem_of_filter in Hin as [[_ Hact] Hin]. simpl in Hact.
  apply elem_of_map_to_list in Hin. naive_solver.
Qed.

(** ** The hypotheses hold of a real store *)

Definition quiet_env : Env := {|
  sql_fault _ := NoFault; unix_now n := Z.of_nat n; mono_now n := 0; ctx_err _ := false; new_uuid _ := "u";
  runner_create _ _ _ _ := CreateReply "10.0.0.2" ""; runner_delete _ _ _ := CallOK;
  runner_stop _ _ _ := CallOK |}.

(** Every third statement is applied with its reply lost, every fifth fails. *)
Definition flaky_env : Env := {|
  sql_fault n := if decide (n mod 3 = 2)%nat then Lost else if decide (n mod 5 = 4)%nat then Failed else NoFault;
  unix_now n := Z.of_nat n; ctx_err _ := false; new_uuid _ := "u";
  mono_now n := 0;
  runner_create _ _ _ _ := CreateReply "10.0.0.2" ""; runner_delete _ _ _ := CallOK;
  runner_stop _ _ _ := CallOK |}.

Definition sample_row (id tenant : string) : SandboxRecord :=
  mkSandboxRecord id "running" 1 1 "" "" "10.0.0.2" 8081 "r1" "https://r1" "r1:9090" tenant false "public".

Definition empty_world : world := mkWorld (mkDB ∅ ∅ ∅) 0 ∅ [] Quota.Quota.newTenantQuota.

Definition sample_ops : list op :=
  [ OpCreateTenant (mkTenant "t1" "n" "" 1 0); OpCreate (sample_row "s1" "t1");
    OpCreate (sample_row "s2" "t1"); OpDeleteTenant "t1"; OpUpdateStatus "s1" "stopped" ].

Lemma empty_db_ok : db_ok (w_db empty_world).
Proof. split; simpl; intros ? ?; by rewrite lookup_empty. Qed.

Lemma store_integrity_witness :
  db_ok (w_db (run_ops (H := @SQLiteStore flaky_env) sample_ops empty_world)) /\
  db_ok (w_db (run_ops (H := @PostgresStore quiet_env) sample_ops empty_world)).
Proof.
  split; apply (store_integrity _ _ sample_ops), empty_db_ok.
Defined.

Lemma quota_never_exceeded_witness :
  quota_ok (w_db (run_ops (H := @SQLiteStore quiet_env) sample_ops empty_world)) /\
  count_tenant "t1" (w_db (run_ops (H := @SQLiteStore quiet_env) sample_ops empty_world)) = 1.
Proof.
  split; [|vm_compute; reflexivity].
  apply (quota_never_exceeded _ _ sample_ops); [apply empty_db_ok| |by vm_compute].
  intros tid t Ht. simpl in Ht. by rewrite lookup_empty in Ht.
Defined.

Lemma revoked_key_stays_revoked_witness :
  let w := set_db (mkDB ∅ {["t1" := mkTenant "t1" "n" "" 1 0]}
                     {["k1" := mkKeyRow "t1" "h" "abcd" 0 None]}) empty_world in
  ~ exists key, key ∈ active_key_rows "abcd"
      (w_db (run_ops (H := @SQLiteStore quiet_env) sample_ops (set_db (revoke_key "k1" 7 (w_db w)) w)))
      /\ k_ID key = "k1".
Proof.
  intros w.
  apply (revoked_key_stays_revoked (@SQLiteStore quiet_env) _ sample_ops w "k1" (mkKeyRow "t1" "h" "abcd" 0 None) 7 "abcd").
  - reflexivity.
  - repeat constructor; simpl; tauto.
Defined.

End StoreInv.
