(* ===== verification/PgTx.v ===== *)
(** * Postgres transactions interleaved ([internal/api/store/postgres.go])

    Several API pods share the database, so [Create] and [DeleteTenant] run
    statement by statement between each other's; what orders them is the [FOR
    UPDATE] lock on the tenant's row.  [Create] asks for read committed: each of
    its statements sees what is committed when it starts.  [DeleteTenant] begins
    with the server's default isolation, which is a parameter here.  A
    transaction may be rolled back at any point (a failed statement, a lost
    connection, a serialization failure). *)

From S2P Require Import Prelude World Store StoreInv.

Module PgTx.
Import Store StoreInv.

(** Where a [Create] of a tenant-owned row is: before the row lock; holding it,
    about to count (only when the limit is positive); about to insert; about to
    commit its uncommitted insert. *)
Inductive create_phase := CLock | CCount (limit : Z) | CInsert (limit : Z) | CCommit (limit : Z).

(** The isolation a transaction gets that asks for none ([default_transaction_isolation]).
    Under repeatable read (and serializable, which reads the same way) every
    statement sees the snapshot the first one took. *)
Inductive isolation := ReadCommitted | RepeatableRead.

(** A [DeleteTenant]: before its first statement; that statement waiting for the
    row lock, with the snapshot it took when it started; holding the lock, about
    to count; about to delete; about to commit. *)
Inductive delete_phase := DLock | DWait (snapshot : db) | DCount (snapshot : db) | DDelete | DCommit.

Definition statement_sees (iso : isolation) (snapshot now : db) : db :=
  match iso with ReadCommitted => now | RepeatableRead => snapshot end.

Inductive tx :=
| TxCreate (r : SandboxRecord) (ph : create_phase)
| TxDelete (id : string) (ph : delete_phase).

(** The tenant row a transaction holds locked. *)
Definition locked_tenant (t : tx) : option string :=
  match t with
  | TxCreate _ CLock | TxDelete _ DLock | TxDelete _ (DWait _) => None
  | TxCreate r _ => Some (sr_TenantID r)
  | TxDelete id _ => Some id
  end.

(** The primary key of an insert that is not committed yet. *)
Definition pending_row (t : tx) : option string :=
  match t with TxCreate r (CCommit _) => Some (sr_ID r) | _ => None end.

Record state := mkState { committed : db; running : gmap nat tx }.

Definition unlocked (s : state) (tid : string) : Prop :=
  forall i t, running s !! i = Some t -> locked_tenant t <> Some tid.
Definition not_pending (s : state) (id : string) : Prop :=
  forall i t, running s !! i = Some t -> pending_row t <> Some id.

(** Single statements of other operations, committed at once.  A plain update of
    a tenant row, and a key insert through its foreign key, wait for that row's
    lock; an insert waits for an uncommitted one of the same id. *)
Definition may_autocommit (s : state) (o : op) : Prop :=
  match o with
  | OpCreate r => IsAdminTenantID (sr_TenantID r) = true /\ not_pending s (sr_ID r)
  | OpUpdateTenantLimits id n => unlocked s id /\ limit_covers_rows (committed s) o
  | OpCreateAPIKey k => unlocked s (k_TenantID k)
  | OpDeleteTenant _ => False
  | _ => True
  end.

Definition advance (s : state) (i : nat) (t : tx) : state :=
  mkState (committed s) (<[i := t]> (running s)).
Definition finish (s : state) (i : nat) (d : db) : state :=
  mkState d (delete i (running s)).

Inductive step (iso : isolation) : state -> state -> Prop :=
| step_begin_create s i r :
    running s !! i = None -> IsAdminTenantID (sr_TenantID r) = false ->
    step iso s (advance s i (TxCreate r CLock))
| step_begin_delete s i id :
    running s !! i = None -> IsAdminTenantID id = false ->
    step iso s (advance s i (TxDelete id DLock))
| step_rollback s i t :
    running s !! i = Some t -> step iso s (finish s i (committed s))
| step_create_lock s i r t :
    running s !! i = Some (TxCreate r CLock) -> unlocked s (sr_TenantID r) ->
    tenants (committed s) !! sr_TenantID r = Some t ->
    step iso s (advance s i (TxCreate r
      (if decide (t_MaxSandboxes t > 0) then CCount (t_MaxSandboxes t) else CInsert (t_MaxSandboxes t))))
| step_create_count s i r limit :
    running s !! i = Some (TxCreate r (CCount limit)) ->
    count_tenant (sr_TenantID r) (committed s) < limit ->
    step iso s (advance s i (TxCreate r (CInsert limit)))
| step_create_insert s i r limit :
    running s !! i = Some (TxCreate r (CInsert limit)) ->
    sandboxes (committed s) !! sr_ID r = None -> not_pending s (sr_ID r) ->
    step iso s (advance s i (TxCreate r (CCommit limit)))
| step_create_commit s i r limit :
    running s !! i = Some (TxCreate r (CCommit limit)) ->
    step iso s (finish s i (insert_sandbox r (committed s)))
| step_delete_start s i id :
    running s !! i = Some (TxDelete id DLock) ->
    step iso s (advance s i (TxDelete id (DWait (committed s))))
| step_delete_lock s i id snap :
    running s !! i = Some (TxDelete id (DWait snap)) -> unlocked s id ->
    is_Some (tenants (committed s) !! id) ->
    (* a row changed since the snapshot is a serialization failure *)
    tenants (statement_sees iso snap (committed s)) !! id = tenants (committed s) !! id ->
    step iso s (advance s i (TxDelete id (DCount snap)))
| step_delete_count s i id snap :
    running s !! i = Some (TxDelete id (DCount snap)) ->
    count_tenant id (statement_sees iso snap (committed s)) <= 0 ->
    step iso s (advance s i (TxDelete id DDelete))
| step_delete_exec s i id :
    running s !! i = Some (TxDelete id DDelete) ->
    step iso s (advance s i (TxDelete id DCommit))
| step_delete_commit s i id :
    running s !! i = Some (TxDelete id DCommit) ->
    step iso s (finish s i (delete_tenant id (committed s)))
| step_autocommit s o d :
    may_autocommit s o -> effect o (committed s) d ->
    step iso s (mkState d (running s)).

(** ** What every holder of a row lock knows *)

Definition tx_ok (d : db) (t : tx) : Prop :=
  match t with
  | TxCreate r ph =>
      IsAdminTenantID (sr_TenantID r) = false /\
      match ph with
      | CLock => True
      | CCount limit => exists t, tenants d !! sr_TenantID r = Some t /\ t_MaxSandboxes t = limit
      | CInsert limit | CCommit limit =>
          (exists t, tenants d !! sr_TenantID r = Some t /\ t_MaxSandboxes t = limit) /\
          (limit > 0 -> count_tenant (sr_TenantID r) d < limit) /\
          (match ph with CCommit _ => sandboxes d !! sr_ID r = None | _ => True end)
      end
  | TxDelete id ph =>
      IsAdminTenantID id = false /\
      match ph with
      | DLock | DWait _ => True
      | DCount _ => is_Some (tenants d !! id)
      | DDelete | DCommit => is_Some (tenants d !! id) /\ count_tenant id d = 0
      end
  end.

Record inv (s : state) : Prop := {
  inv_db : db_ok (committed s);
  inv_quota : quota_ok (committed s);
  inv_tx i t : running s !! i = Some t -> tx_ok (committed s) t;
  inv_lock i j ti tj tid : running s !! i = Some ti -> running s !! j = Some tj ->
    locked_tenant ti = Some tid -> locked_tenant tj = Some tid -> i = j;
  inv_pending i j ti tj id : running s !! i = Some ti -> running s !! j = Some tj ->
    pending_row ti = Some id -> pending_row tj = Some id -> i = j;
}.

(** A transaction that moves on without changing what is committed. *)
Lemma inv_advance s i t :
  inv s -> tx_ok (committed s) t ->
  (forall j tj tid, running s !! j = Some tj -> locked_tenant t = Some tid ->
     locked_tenant tj = Some tid -> i = j) ->
  (forall j tj id, running s !! j = Some tj -> pending_row t = Some id ->
     pending_row tj = Some id -> i = j) ->
  inv (advance s i t).
Proof.
  intros [H1 H2 H3 H4 H5] Hok Hl Hp. split; simpl; [done|done| | |].
  - intros j tj [[<- <-]|[_ Hj]]%lookup_insert_Some; eauto.
  - intros j k tj tk tid [[<- <-]|[_ Hj]]%lookup_insert_Some [[<- <-]|[_ Hk]]%lookup_insert_Some; eauto.
    intros ? ?. symmetry. eauto.
  - intros j k tj tk tid [[<- <-]|[_ Hj]]%lookup_insert_Some [[<- <-]|[_ Hk]]%lookup_insert_Some; eauto.
    intros ? ?. symmetry. eauto.
Qed.

(** A change of the committed tables that keeps what the others rely on. *)
Lemma inv_commit s d m :
  inv s -> (forall i t, m !! i = Some t -> running s !! i = Some t) ->
  db_ok d -> quota_ok d -> (forall i t, m !! i = Some t -> tx_ok d t) ->
  inv (mkState d m).
Proof. intros [H1 H2 H3 H4 H5] Hm Hd Hq Ht. split; simpl; eauto. Qed.

Lemma delete_running s i j t :
  delete i (running s) !! j = Some t -> i <> j /\ running s !! j = Some t.
Proof. apply lookup_delete_Some. Qed.

(** Adding a row of tenant [tid] leaves every transaction that does not hold
    that tenant's lock as it was. *)
Lemma tx_ok_insert d r t :
  tx_ok d t -> sandboxes d !! sr_ID r = None ->
  locked_tenant t <> Some (sr_TenantID r) -> pending_row t <> Some (sr_ID r) ->
  tx_ok (insert_sandbox r d) t.
Proof.
  intros Hok Hnone Hl Hp. pose proof (count_tenant_insert r d Hnone) as Hc.
  destruct t as [r' [|l|l|l]|id [| | | |]]; simpl in *; rewrite ?Hc, ?decide_False by congruence;
    rewrite ?Z.add_0_r; try done.
  rewrite lookup_insert_ne by congruence. done.
Qed.

Lemma tx_ok_delete_tenant d id t :
  tx_ok d t -> locked_tenant t <> Some id -> tx_ok (delete_tenant id d) t.
Proof.
  intros Hok Hl. destruct t as [r' [|l|l|l]|id' [| | | |]]; simpl in *; unfold count_tenant in *; simpl;
    rewrite ?lookup_delete_ne by congruence; done.
Qed.

(** Statements of the other operations do not disturb a lock holder. *)
Lemma tx_ok_autocommit s o d i t :
  inv s -> may_autocommit s o -> effect o (committed s) d ->
  running s !! i = Some t -> tx_ok d t.
Proof.
  intros Hinv Hmay He Ht. pose proof (inv_tx s Hinv i t Ht) as Hok.
  set (c := committed s) in *.
  assert (Hrows : forall f id, (forall r, sr_TenantID (f r) = sr_TenantID r) ->
    tx_ok (set_sandboxes (alter f id (sandboxes c)) c) t).
  { intros f id Hf. destruct t as [r' [|l|l|l]|id' [| | | |]]; simpl in *;
      rewrite ?count_tenant_alter by done; try done.
    destruct Hok as (? & ? & ? & Hn). repeat split; try done. by rewrite lookup_alter_None. }
  assert (Htens : forall t0, tenants c !! t_ID t0 = None ->
    tx_ok (set_tenants (<[t_ID t0 := t0]> (tenants c)) c) t).
  { intros t0 Hn.
    assert (Hkeep : forall j v, tenants c !! j = Some v -> <[t_ID t0 := t0]> (tenants c) !! j = Some v)
      by (intros; rewrite lookup_insert_ne; congruence).
    destruct t as [r' [|l|l|l]|id' [| | | |]]; simpl in *; unfold count_tenant, is_Some in *; simpl;
      try done; destruct Hok as [Ha Hok]; (split; [done|]).
    - destruct Hok as (t1 & ? & ?). eauto.
    - destruct Hok as ((t1 & ? & ?) & ? & ?). split; [eauto|done].
    - destruct Hok as ((t1 & ? & ?) & ? & ?). split; [eauto|done].
    - destruct Hok as (t1 & ?). eauto.
    - destruct Hok as ((t1 & ?) & ?). split; [eauto|done].
    - destruct Hok as ((t1 & ?) & ?). split; [eauto|done]. }
  destruct o; simpl in He, Hmay; try done.
  - destruct He as [[Hn Hm] ->]. destruct Hmay as [Ha Hp]. apply tx_ok_insert; eauto.
    intros Hl. destruct t as [r' [| | |]|id' [| | | |]]; simpl in *; try done;
      injection Hl as Hl; rewrite Hl in Hok; destruct Hok as [Hok _]; congruence.
  - subst. by apply Hrows.
  - destruct He as [now ->]. by apply Hrows.
  - subst. pose proof (fun tid => count_tenant_delete tid id c) as Hle.
    assert (Hge : forall tid, 0 <= count_tenant tid (delete_sandbox id c)) by (unfold count_tenant; lia).
    destruct t as [r' [|l|l|l]|id' [| | | |]]; simpl in *; try done.
    + destruct Hok as (? & ? & Hc & _). split; [done|]. split; [done|]. split; [|done].
      intros Hpos. specialize (Hle (sr_TenantID r')). specialize (Hc Hpos). lia.
    + destruct Hok as (? & ? & Hc & Hn). split; [done|]. split; [done|]. split.
      * intros Hpos. specialize (Hle (sr_TenantID r')). specialize (Hc Hpos). lia.
      * apply lookup_delete_None. by right.
    + destruct Hok as (? & ? & Hc). split; [done|]. split; [done|].
      specialize (Hle id'). specialize (Hge id'). lia.
    + destruct Hok as (? & ? & Hc). split; [done|]. split; [done|].
      specialize (Hle id'). specialize (Hge id'). lia.
  - unfold sql_insert_tenant in He. case_match; simplify_eq. by apply Htens.
  - apply bind_Some in He as (d1 & He1 & He2). unfold sql_insert_tenant, sql_insert_key in *.
    repeat case_match; simplify_eq. by apply Htens.
  - subst. destruct Hmay as [Hun _]. specialize (Hun i t Ht).
    destruct t as [r' [|l|l|l]|id' [| | | |]]; simpl in *; unfold count_tenant in *; simpl;
      rewrite ?lookup_alter_ne by congruence; done.
  - unfold sql_insert_key in He. repeat case_match; simplify_eq. exact Hok.
  - destruct He as [now ->]. exact Hok.
Qed.

Lemma inv_step s s' : inv s -> step ReadCommitted s s' -> inv s'.
Proof.
  intros Hinv Hs. pose proof (inv_db s Hinv) as Hdb. pose proof (inv_quota s Hinv) as Hq.
  destruct Hs.
  - apply inv_advance; done.
  - apply inv_advance; done.
  - eapply inv_commit; [done| |done|done|]; intros j tj Hj%delete_running; [tauto|]. eapply inv_tx; [done|]. apply Hj.
  - pose proof (inv_tx _ Hinv _ _ H) as [Ha _].
    apply inv_advance; [done| | |].
    + case_decide; simpl; eauto. split; [done|]. split; [eauto|]. split; [lia|done].
    + intros j tj tid Hj Hl Hl'. assert (tid = sr_TenantID r) as -> by (case_decide; simpl in Hl; congruence).
      exfalso. by eapply H0.
    + intros j tj id _ Hp. case_decide; done.
  - pose proof (inv_tx _ Hinv _ _ H) as (Ha & t & Ht & Hlim). apply inv_advance; [done| | |done].
    + simpl. split; [done|]. split; [by eauto|]. done.
    + intros j tj tid Hj Hl Hl'. by eapply (inv_lock _ Hinv).
  - pose proof (inv_tx _ Hinv _ _ H) as (Ha & Ht & Hc & _). apply inv_advance; [done|done| |].
    + intros j tj tid Hj Hl Hl'. by eapply (inv_lock _ Hinv).
    + intros j tj id Hj Hp Hp'. simpl in Hp. simplify_eq. exfalso. by eapply H1.
  - pose proof (inv_tx _ Hinv _ _ H) as (Ha & (t & Ht & Hlim) & Hc & Hn).
    assert (Heff : effect (OpCreate r) (committed s) (insert_sandbox r (committed s))).
    { split; [|done]. split; [done|]. intros _. exists t. split; [done|]. rewrite Hlim. done. }
    eapply inv_commit; [done| | | |].
    + intros j tj Hj%delete_running. tauto.
    + by eapply db_ok_effect.
    + by eapply (quota_ok_effect (OpCreate r)).
    + intros j tj [Hne Hj]%delete_running. apply tx_ok_insert; [by eapply inv_tx|done| |].
      * intros Hl. apply Hne. by eapply (inv_lock _ Hinv).
      * intros Hp. apply Hne. by eapply (inv_pending _ Hinv).
  - pose proof (inv_tx _ Hinv _ _ H) as [Ha _]. by apply inv_advance.
  - pose proof (inv_tx _ Hinv _ _ H) as [Ha _]. apply inv_advance; [done|done| |done].
    intros j tj tid Hj Hl Hl'. simpl in Hl. simplify_eq. exfalso. by eapply H0.
  - pose proof (inv_tx _ Hinv _ _ H) as [Ha Ht]. apply inv_advance; [done| | |done].
    + simpl. split; [done|]. split; [done|]. unfold statement_sees, count_tenant in *. lia.
    + intros j tj tid Hj Hl Hl'. by eapply (inv_lock _ Hinv).
  - pose proof (inv_tx _ Hinv _ _ H) as [Ha Ht]. apply inv_advance; [done|done| |done].
    intros j tj tid Hj Hl Hl'. by eapply (inv_lock _ Hinv).
  - pose proof (inv_tx _ Hinv _ _ H) as (Ha & Ht & Hc).
    assert (Heff : effect (OpDeleteTenant id) (committed s) (delete_tenant id (committed s))) by done.
    eapply inv_commit; [done| | | |].
    + intros j tj Hj%delete_running. tauto.
    + by eapply db_ok_effect.
    + by eapply (quota_ok_effect (OpDeleteTenant id)).
    + intros j tj [Hne Hj]%delete_running. apply tx_ok_delete_tenant; [by eapply inv_tx|].
      intros Hl. apply Hne. by eapply (inv_lock _ Hinv).
  - eapply inv_commit; [done|done| | |].
    + by eapply db_ok_effect.
    + eapply quota_ok_effect; [done|done| |done]. destruct o; simpl in *; tauto.
    + intros i t Ht. by eapply tx_ok_autocommit.
Qed.

(** C6: On a server whose default isolation is read committed (Postgres's own
    default, which [DeleteTenant] relies on), however the statements of
    concurrent transactions interleave - creates and tenant deletes under their
    row locks, rollbacks at any point, and the single-statement operations of
    any number of pods - the committed tables stay consistent and no tenant
    exceeds its quota, as long as no limit is lowered below what its tenant
    holds.  In particular two creates cannot
    both take a tenant's last slot, and a create cannot slip a row in between a
    tenant delete's emptiness check and its commit. *)
Theorem pg_concurrent_safety (s s' : state) :
  db_ok (committed s) -> quota_ok (committed s) -> running s = ∅ ->
  rtc (step ReadCommitted) s s' ->
  db_ok (committed s') /\ quota_ok (committed s').
Proof.
  intros Hd Hq Hrun Hsteps.
  assert (Hinv : inv s).
  { split; [done|done|..]; rewrite Hrun; intros *; rewrite lookup_empty; done. }
  assert (Hinv' : inv s') by (clear -Hinv Hsteps; induction Hsteps; eauto using inv_step).
  split; apply Hinv'.
Qed.

(** Two creates for the same tenant with one slot left, interleaved: the second
    one only gets the lock after the first committed, and then may not insert. *)
Lemma pg_concurrent_safety_witness :
  let d0 := mkDB ∅ {["t1" := mkTenant "t1" "n" "" 1 0]} ∅ in
  let r1 := sample_row "s1" "t1" in
  let r2 := sample_row "s2" "t1" in
  let s := mkState d0 ∅ in
  let s' := mkState (insert_sandbox r1 d0) {[2%nat := TxCreate r2 (CCount 1)]} in
  rtc (step ReadCommitted) s s' /\ db_ok (committed s') /\ quota_ok (committed s').
Proof.
  intros d0 r1 r2 s s'.
  assert (Hsteps : rtc (step ReadCommitted) s s').
  { eapply rtc_l; [by apply (step_begin_create _ _ 1 r1)|].
    eapply rtc_l; [by apply (step_begin_create _ _ 2 r2)|].
    eapply rtc_l.
    { eapply (step_create_lock _ _ 1 r1 (mkTenant "t1" "n" "" 1 0)); [done| |done].
      intros i t Hi. simpl in Hi. apply lookup_insert_Some in Hi as [[<- <-]|[_ Hi]]; [done|].
      apply lookup_insert_Some in Hi as [[<- <-]|[_ Hi]]; done. }
    eapply rtc_l; [by eapply (step_create_count _ _ 1 r1 1)|].
    eapply rtc_l.
    { eapply (step_create_insert _ _ 1 r1 1); [done|done|].
      intros i t Hi. simpl in Hi.
      repeat (apply lookup_insert_Some in Hi as [[<- <-]|[_ Hi]]; [done|]). done. }
    eapply rtc_l; [by eapply (step_create_commit _ _ 1 r1 1)|].
    eapply rtc_l.
    { eapply (step_create_lock _ _ 2 r2 (mkTenant "t1" "n" "" 1 0)); [done| |done].
      intros i t Hi. simpl in Hi. apply lookup_delete_Some in Hi as [? Hi].
      repeat (apply lookup_insert_Some in Hi as [[<- <-]|[_ Hi]]; [done|]). done. }
    apply reflexive_eq. vm_compute. reflexivity. }
  split; [exact Hsteps|].
  apply (pg_concurrent_safety s s'); [| |done|exact Hsteps].
  - split; simpl; intros i x; rewrite ?lookup_empty; try done.
    intros [<- <-]%lookup_singleton_Some. done.
  - intros tid t Ht _ _. simpl in Ht. apply lookup_singleton_Some in Ht as [<- <-]. vm_compute. discriminate.
Defined.

(** On a server whose default is repeatable read the count of [DeleteTenant]
    reads the snapshot its lock statement took before it waited: a create that
    committed meanwhile is not seen, and its sandbox outlives its tenant. *)
Example repeatable_read_orphans :
  let d0 := mkDB ∅ {["t1" := mkTenant "t1" "n" "" 1 0]} ∅ in
  let r1 := sample_row "s1" "t1" in
  let s' := mkState (delete_tenant "t1" (insert_sandbox r1 d0)) ∅ in
  rtc (step RepeatableRead) (mkState d0 ∅) s' /\
  sandboxes (committed s') !! "s1" = Some r1 /\ tenants (committed s') !! sr_TenantID r1 = None /\ ~ db_ok (committed s').
Proof.
  intros d0 r1 s'. split; [|split; [done|split; [done|]]].
  - eapply rtc_l; [by apply (step_begin_create _ _ 1 r1)|].
    eapply rtc_l.
    { eapply (step_create_lock _ _ 1 r1 (mkTenant "t1" "n" "" 1 0)); [done| |done].
      intros i t Hi. simpl in Hi. by apply lookup_insert_Some in Hi as [[<- <-]|[_ Hi]]. }
    eapply rtc_l; [by apply (step_begin_delete _ _ 2 "t1")|].
    eapply rtc_l; [by apply (step_delete_start _ _ 2 "t1")|].
    eapply rtc_l; [by eapply (step_create_count _ _ 1 r1 1)|].
    eapply rtc_l.
    { eapply (step_create_insert _ _ 1 r1 1); [done|done|]. intros i t Hi. simpl in Hi.
      repeat (apply lookup_insert_Some in Hi as [[<- <-]|[_ Hi]]; [done|]). done. }
    eapply rtc_l; [by eapply (step_create_commit _ _ 1 r1 1)|].
    eapply rtc_l.
    { eapply (step_delete_lock _ _ 2 "t1" d0); [done| |by eexists|done]. intros i t Hi. simpl in Hi.
      apply lookup_delete_Some in Hi as [? Hi].
      repeat (apply lookup_insert_Some in Hi as [[<- <-]|[_ Hi]]; [done|]). done. }
    eapply rtc_l; [by eapply (step_delete_count _ _ 2 "t1" d0)|].
    eapply rtc_l; [by apply (step_delete_exec _ _ 2 "t1")|].
    eapply rtc_l; [by apply (step_delete_commit _ _ 2 "t1")|].
    apply reflexive_eq. vm_compute. reflexivity.
  - intros Hok. destruct (ok_owner _ Hok "s1" r1); done.
Qed.

End PgTx.
