(* ===== verification/Registry.v ===== *)
(** * Runner registry ([internal/api/registry])

    The in-process registry of a single API pod and the Postgres table several
    pods share.  Times are nanoseconds; [now] is what [time.Now()] (or SQL's
    [now()]) returned to the call. *)

From S2P Require Import Prelude GoStrings.

Module Registry.
Import GoStrings.

Record Runner := mkRunner {
  r_ID : string;
  r_HTTPBaseURL : string;
  r_ControlGRPCAddr : string;
  r_Healthy : bool;
  r_Cordoned : bool;
  r_CapacityTotal : Z;
  r_CapacityUsed : Z;
  r_CapacityStopped : Z;
  r_LastSeen : Z;
}.

#[global] Instance Runner_eq_dec : EqDecision Runner.
Proof. solve_decision. Defined.

Definition Second : Z := 1000000000.

(** [a.Sub(b)] saturates at the bounds of [time.Duration]. *)
Definition time_sub (a b : Z) : Z := Z.max int64_min (Z.min int64_max (a - b)).

(** ** In memory ([memory.go]) *)

Record MemoryRegistry := mkMemory {
  runners : gmap string Runner;
  order : list string;
  rrCounter : Z;
  heartbeatGrace : Z;
  removedAt : gmap string Z;
}.

Definition NewMemory (grace : Z) : MemoryRegistry :=
  mkMemory ∅ [] 0 (if decide (grace <= 0) then 45 * Second else grace) ∅.

(** The fields of a heartbeat. *)
Record heartbeat := mkHeartbeat {
  h_id : string; h_base : string; h_addr : string;
  h_healthy : bool; h_cordoned : bool;
  h_total : Z; h_used : Z; h_stopped : Z;
}.

Definition runner_of (h : heartbeat) (now : Z) : Runner :=
  mkRunner (h_id h) (TrimRight (h_base h) (byte 47)) (TrimSpace (h_addr h)) (h_healthy h) (h_cordoned h)
    (h_total h) (h_used h) (h_stopped h) now.

Definition Upsert (h : heartbeat) (now : Z) (r : MemoryRegistry) : MemoryRegistry :=
  if bool_decide (h_id h = "") || bool_decide (h_base h = "") then r
  else
    mkMemory (<[h_id h := runner_of h now]> (runners r))
      (if decide (runners r !! h_id h = None) then order r ++ [h_id h] else order r)
      (rrCounter r) (heartbeatGrace r) (delete (h_id h) (removedAt r)).

Definition Remove (id : string) (now : Z) (r : MemoryRegistry) : MemoryRegistry :=
  if decide (id = "") then r
  else
    mkMemory (delete id (runners r)) (filter (fun x => x <> id) (order r))
      (rrCounter r) (heartbeatGrace r) (<[id := now]> (removedAt r)).

Definition Get (id : string) (r : MemoryRegistry) : option Runner := runners r !! id.

Definition GoneLongEnough (id : string) (buffer now : Z) (r : MemoryRegistry) : bool :=
  if bool_decide (id = "") || bool_decide (buffer <= 0) then false
  else match runners r !! id with
       | Some _ => false
       | None =>
           match removedAt r !! id with
           | None => false
           | Some goneAt => bool_decide (~ now < goneAt + buffer)
           end
       end.

Definition Len (r : MemoryRegistry) : Z := Z.of_nat (size (runners r)).

Definition id_le (a b : Runner) : Prop := str_le (r_ID a) (r_ID b).
#[global] Instance id_le_dec : RelDecision id_le.
Proof. intros a b. unfold id_le. apply _. Defined.
#[global] Instance id_le_total : Total id_le.
Proof. intros a b. unfold id_le. apply str_le_total. Qed.
#[global] Instance id_le_trans : Transitive id_le.
Proof. intros a b c. unfold id_le. apply str_le_trans. Qed.

Definition List (r : MemoryRegistry) : list Runner := merge_sort id_le (map_to_list (runners r)).*2.

(** The conditions of [eligibleLocked], in its order. *)
Definition eligible (grace now : Z) (run : Runner) : bool :=
  if decide (time_sub now (r_LastSeen run) > grace) then false
  else if negb (r_Healthy run) || r_Cordoned run then false
  else if bool_decide (r_CapacityTotal run > 0) && bool_decide (r_CapacityUsed run >= r_CapacityTotal run) then false
  else true.

Definition eligibleLocked (now : Z) (r : MemoryRegistry) : list Runner :=
  filter (fun run => eligible (heartbeatGrace r) now run = true) (omap (fun id => runners r !! id) (order r)).

(** [best == nil || run.CapacityUsed < best.CapacityUsed || (... == ... && run.ID < best.ID)],
    with the order on ids as a parameter. *)
Definition better (lt : string -> string -> bool) (run : Runner) (best : option Runner) : bool :=
  match best with
  | None => true
  | Some b => bool_decide (r_CapacityUsed run < r_CapacityUsed b) ||
              bool_decide (r_CapacityUsed run = r_CapacityUsed b) && lt (r_ID run) (r_ID b)
  end.

Fixpoint pick_best (lt : string -> string -> bool) (exclude : list string) (best : option Runner)
    (l : list Runner) : option Runner :=
  match l with
  | [] => best
  | run :: l' =>
      pick_best lt exclude
        (if decide (r_ID run ∈ exclude) then best
         else if better lt run best then Some run else best) l'
  end.

(** [ErrNoRunners], or a database error (Postgres only). *)
Inductive pick_error := ErrNoRunners | ErrRegistry.

Definition or_no_runners (o : option Runner) : pick_error + Runner :=
  match o with Some run => inr run | None => inl ErrNoRunners end.

Definition PickLowestUsed (exclude : list string) (now : Z) (r : MemoryRegistry) : pick_error + Runner :=
  or_no_runners (pick_best str_lt exclude None (eligibleLocked now r)).

Definition PickRoundRobin (now : Z) (r : MemoryRegistry) : option Runner * MemoryRegistry :=
  let l := eligibleLocked now r in
  match l with
  | [] => (None, r)
  | _ =>
      let idx := rrCounter r mod Z.of_nat (length l) in
      (l !! Z.to_nat idx,
       mkMemory (runners r) (order r) ((rrCounter r + 1) mod 2 ^ 64) (heartbeatGrace r) (removedAt r))
  end.

(** ** In Postgres ([postgres.go])

    [failed] says that the database returned an error to the call, [applied]
    that an upsert, whose error is ignored, reached the table. *)

Definition NewPostgres_grace (grace : Z) : Z := if decide (grace <= 0) then 45 * Second else grace.

Definition pg_Upsert (applied : bool) (h : heartbeat) (now : Z) (t : gmap string Runner) : gmap string Runner :=
  if bool_decide (h_id h = "") || bool_decide (h_base h = "") then t
  else if applied then <[h_id h := runner_of h now]> t else t.

(** [Remove] does nothing; a runner goes stale through [last_seen]. *)
Definition pg_Remove (id : string) (t : gmap string Runner) : gmap string Runner := t.

Definition pg_Get (failed : bool) (id : string) (t : gmap string Runner) : option Runner :=
  if failed then None else t !! id.

Definition pg_GoneLongEnough (failed : bool) (id : string) (buffer now : Z) (t : gmap string Runner) : bool :=
  if bool_decide (id = "") || bool_decide (buffer <= 0) then false
  else if failed then false
  else match t !! id with
       | None => true
       | Some run => bool_decide (~ now < r_LastSeen run + buffer)
       end.

(** [int64(r.heartbeatGrace.Seconds())] *)
Definition graceSec (grace : Z) : Z := Z.quot grace Second.

Definition pg_fresh (grace now : Z) (run : Runner) : bool :=
  bool_decide (r_LastSeen run >= now - graceSec grace * Second).

Definition pg_Len (failed : bool) (grace now : Z) (t : gmap string Runner) : Z :=
  if failed then 0 else Z.of_nat (count_if (pg_fresh grace now) t).

Definition pg_List (failed : bool) (t : gmap string Runner) : option (list Runner) :=
  if failed then None else Some (merge_sort id_le (map_to_list t).*2).

Definition pg_eligible (grace now : Z) (run : Runner) : bool :=
  r_Healthy run && negb (r_Cordoned run) && pg_fresh grace now run &&
  (bool_decide (r_CapacityTotal run = 0) || bool_decide (r_CapacityUsed run < r_CapacityTotal run)).

(** [ORDER BY capacity_used, id ... FOR UPDATE SKIP LOCKED LIMIT 1]: [collate] is
    the database's order on ids, [locked] the rows another transaction holds. *)
Definition pg_PickLowestUsed (collate : string -> string -> bool) (locked : gset string)
    (failed : bool) (grace : Z) (exclude : list string) (now : Z) (t : gmap string Runner) : pick_error + Runner :=
  if failed then inl ErrRegistry
  else or_no_runners (pick_best collate exclude None
    (filter (fun run => pg_eligible grace now run = true /\ r_ID run ∉ locked) (map_to_list t).*2)).

(** ** Choosing the least used runner *)

Section pick_best.
Context (lt : string -> string -> bool)
        (lt_irrefl : forall a, lt a a = false)
        (lt_trans : forall a b c, lt a b = true -> lt b c = true -> lt a c = true)
        (lt_total : forall a b, lt a b = false -> lt b a = false -> a = b).

(** [a] goes before [b] in the order of the picks, or is [b]'s equal. *)
Definition no_worse (a b : Runner) : Prop :=
  r_CapacityUsed a < r_CapacityUsed b \/
  (r_CapacityUsed a = r_CapacityUsed b /\ lt (r_ID b) (r_ID a) = false).

Lemma no_worse_trans a b c : no_worse a b -> no_worse b c -> no_worse a c.
Proof.
  unfold no_worse. intros [?|[? Hab]] [?|[? Hbc]]; try lia. right. split; [lia|].
  apply not_true_is_false. intros Hca. destruct (lt (r_ID a) (r_ID b)) eqn:E.
  - rewrite (lt_trans _ _ _ Hca E) in Hbc. done.
  - rewrite (lt_total _ _ E Hab), Hbc in Hca. done.
Qed.

Lemma better_no_worse run b : better lt run (Some b) = true -> no_worse run b.
Proof.
  unfold better, no_worse. intros H. apply orb_true_iff in H as [H|H].
  - left. by apply bool_decide_eq_true in H.
  - apply andb_true_iff in H as [H1 H2]. apply bool_decide_eq_true in H1. right. split; [done|].
    apply not_true_is_false. intros H3.
    pose proof (lt_irrefl (r_ID run)) as Hi. by rewrite (lt_trans _ _ _ H2 H3) in Hi.
Qed.

Lemma not_better_no_worse run b : better lt run (Some b) = false -> no_worse b run.
Proof.
  unfold better, no_worse. intros H. apply orb_false_iff in H as [H1 H2].
  apply bool_decide_eq_false in H1. apply andb_false_iff in H2 as [H2|H2].
  - apply bool_decide_eq_false in H2. left. lia.
  - destruct (decide (r_CapacityUsed b < r_CapacityUsed run)); [by left|right]. split; [lia|done].
Qed.

Definition among (exclude : list string) (best : option Runner) (l : list Runner) (run : Runner) : Prop :=
  best = Some run \/ (run ∈ l /\ r_ID run ∉ exclude).

(** The loop returns the best of what it has seen, or nothing when there was
    nothing to see. *)
Lemma pick_best_spec exclude l best :
  match pick_best lt exclude best l with
  | Some run => among exclude best l run /\ forall run', among exclude best l run' -> no_worse run run'
  | None => forall run', ~ among exclude best l run'
  end.
Proof.
  assert (Hrefl : forall a, no_worse a a) by (intros a; right; auto).
  revert best. induction l as [|x l IH]; intros best; simpl.
  - destruct best as [b|].
    + split; [by left|]. intros run' [?|[Hin _]]; [by simplify_eq|]. by apply elem_of_nil in Hin.
    + intros run' [?|[Hin _]]; [done|]. by apply elem_of_nil in Hin.
  - set (best' := if decide (r_ID x ∈ exclude) then best else if better lt x best then Some x else best).
    assert (Hsub : forall run, among exclude best' l run -> among exclude best (x :: l) run).
    { intros run [Hb|[Hin Hne]]; [|right; split; [by right|done]]. unfold best' in Hb.
      case_decide; [by left|]. destruct (better lt x best); [|by left]. simplify_eq. right. split; [by left|done]. }
    assert (Hcov : forall run, among exclude best (x :: l) run -> exists b, among exclude best' l b /\ no_worse b run).
    { intros run [->|[Hin Hne]].
      - exists (if decide (r_ID x ∈ exclude) then run else if better lt x (Some run) then x else run).
        unfold among, best'. case_decide; [by split; [left|]|].
        destruct (better lt x (Some run)) eqn:E; (split; [by left|]); [by apply better_no_worse|done].
      - apply elem_of_cons in Hin as [->|Hin]; [|exists run; split; [right|]; done].
        unfold among, best'. rewrite decide_False by done. destruct best as [b|]; [|by exists x; split; [left|]].
        destruct (better lt x (Some b)) eqn:E; [by exists x; split; [left|]|].
        exists b. split; [by left|]. by apply not_better_no_worse. }
    specialize (IH best'). destruct (pick_best lt exclude best' l) as [run|].
    + destruct IH as [Hin Hmin]. split; [by apply Hsub|]. intros run' Hr.
      destruct (Hcov run' Hr) as (b & Hb & Hle). eauto using no_worse_trans.
    + intros run' Hr. destruct (Hcov run' Hr) as (b & Hb & _). by apply (IH b).
Qed.
End pick_best.

(** ** Histories of the in-memory registry *)

Inductive reg_op :=
| RegUpsert (h : heartbeat) (now : Z)
| RegRemove (id : string) (now : Z)
| RegPickRoundRobin (now : Z).

Definition run_reg_op (o : reg_op) (r : MemoryRegistry) : MemoryRegistry :=
  match o with
  | RegUpsert h now => Upsert h now r
  | RegRemove id now => Remove id now r
  | RegPickRoundRobin now => (PickRoundRobin now r).2
  end.

Definition run_reg (grace : Z) (os : list reg_op) : MemoryRegistry :=
  foldl (fun r o => run_reg_op o r) (NewMemory grace) os.

Record reg_ok (r : MemoryRegistry) : Prop := {
  rok_nodup : NoDup (order r);
  rok_order id : id ∈ order r <-> is_Some (runners r !! id);
  rok_key id run : runners r !! id = Some run -> r_ID run = id /\ id <> "";
  rok_removed id t : removedAt r !! id = Some t -> runners r !! id = None;
}.

Lemma upsert_ok h now r : reg_ok r -> reg_ok (Upsert h now r).
Proof.
  intros Hok. unfold Upsert. destruct (_ || _) eqn:E; [done|]. destruct Hok as [H1 H2 H3 H4].
  apply orb_false_iff in E as [Hid _]. apply bool_decide_eq_false in Hid.
  split; simpl.
  - case_decide as Hn; [|done]. apply NoDup_app. split; [done|]. split; [|apply NoDup_singleton].
    intros x Hx Hx'. apply list_elem_of_singleton in Hx' as ->. apply H2 in Hx. rewrite Hn in Hx. by destruct Hx.
  - intros id. rewrite lookup_insert_is_Some', <- H2.
    case_decide as Hn; [rewrite elem_of_app, list_elem_of_singleton; naive_solver|].
    assert (h_id h ∈ order r) by (apply H2; by apply not_eq_None_Some). naive_solver.
  - intros id run Hr. apply lookup_insert_Some in Hr as [[<- <-]|[_ Hr]]; [done|eauto].
  - intros id t Ht. apply lookup_delete_Some in Ht as [? Ht]. rewrite lookup_insert_ne by done. eauto.
Qed.

Lemma remove_ok id now r : reg_ok r -> reg_ok (Remove id now r).
Proof.
  intros Hok. unfold Remove. case_decide; [done|]. destruct Hok as [H1 H2 H3 H4]. split; simpl.
  - by apply NoDup_filter.
  - intros x. rewrite list_elem_of_filter, H2, lookup_delete_is_Some. naive_solver.
  - intros x run Hr. apply lookup_delete_Some in Hr as [_ Hr]. eauto.
  - intros x t Ht. apply lookup_insert_Some in Ht as [[<- _]|[? Ht]]; [apply lookup_delete_eq|].
    rewrite lookup_delete_ne by done. eauto.
Qed.

Lemma round_robin_ok now r : reg_ok r -> reg_ok (PickRoundRobin now r).2.
Proof. intros [H1 H2 H3 H4]. unfold PickRoundRobin. destruct (eligibleLocked now r); by split. Qed.

#[local] Hint Resolve upsert_ok remove_ok round_robin_ok : core.

Lemma run_reg_ok grace os : reg_ok (run_reg grace os).
Proof.
  unfold run_reg. assert (Hi : reg_ok (NewMemory grace)).
  { split; simpl; [constructor| | |]; intros id *; rewrite ?lookup_empty; try done.
    rewrite elem_of_nil. split; [done|]. by intros [? ?]. }
  revert Hi. generalize (NewMemory grace). induction os as [|o os IH]; intros r Hr; simpl; [done|].
  apply IH. destruct o; simpl; auto.
Qed.

(** A runner a create may be placed on. *)
Definition candidate (r : MemoryRegistry) (now : Z) (exclude : list string) (run : Runner) : Prop :=
  runners r !! r_ID run = Some run /\ eligible (heartbeatGrace r) now run = true /\ r_ID run ∉ exclude.

Lemma eligibleLocked_spec r now run :
  reg_ok r -> run ∈ eligibleLocked now r <->
  runners r !! r_ID run = Some run /\ eligible (heartbeatGrace r) now run = true.
Proof.
  intros Hr. unfold eligibleLocked. rewrite list_elem_of_filter, list_elem_of_omap. split.
  - intros (He & id & _ & Hid). by destruct (rok_key r Hr id run Hid) as [-> _].
  - intros [Hid He]. split; [done|]. exists (r_ID run). split; [|done]. apply (rok_order r Hr). eauto.
Qed.

Definition str_lt_spec := pick_best_spec str_lt str_lt_irrefl str_lt_trans str_lt_total.

(** After any history of heartbeats, removals and picks, [PickLowestUsed]
    returns a registered, healthy, uncordoned, fresh runner with room that is
    not excluded, with the lowest [capacity_used] of all such runners (the
    smallest id among equals), and answers [ErrNoRunners] exactly when there is
    no such runner. *)
Theorem pick_lowest_used_correct grace os now exclude :
  let r := run_reg grace os in
  match PickLowestUsed exclude now r with
  | inr run => candidate r now exclude run /\
      forall run', candidate r now exclude run' ->
        r_CapacityUsed run < r_CapacityUsed run' \/
        (r_CapacityUsed run = r_CapacityUsed run' /\ str_le (r_ID run) (r_ID run'))
  | inl e => e = ErrNoRunners /\ forall run', ~ candidate r now exclude run'
  end.
Proof.
  intros r. pose proof (run_reg_ok grace os : reg_ok r) as Hr. unfold PickLowestUsed.
  pose proof (str_lt_spec exclude (eligibleLocked now r) None) as Hs.
  assert (Ha : forall run, candidate r now exclude run <-> among exclude None (eligibleLocked now r) run).
  { intros run. unfold candidate, among. rewrite eligibleLocked_spec by done. naive_solver. }
  destruct (pick_best _ _ _ _) as [run|]; simpl.
  - destruct Hs as [Hin Hmin]. split; [by apply Ha|]. intros run' Hc%Ha.
    destruct (Hmin run' Hc) as [?|[? ?]]; [by left|right]. rewrite str_le_lt. done.
  - split; [done|]. intros run' Hc. by apply (Hs run'), Ha.
Qed.

(** ** When a runner counts as gone *)

(** The time of the removal that no later heartbeat of the runner undid. *)
Fixpoint last_removal (id : string) (os : list reg_op) (acc : option Z) : option Z :=
  match os with
  | [] => acc
  | RegRemove x t :: os' => last_removal id os' (if decide (x = id /\ x <> "") then Some t else acc)
  | RegUpsert h _ :: os' =>
      last_removal id os' (if decide (h_id h = id /\ h_id h <> "" /\ h_base h <> "") then None else acc)
  | RegPickRoundRobin _ :: os' => last_removal id os' acc
  end.

Lemma removedAt_step id o r :
  removedAt (run_reg_op o r) !! id = last_removal id [o] (removedAt r !! id).
Proof.
  destruct o as [h now|x now|now]; simpl.
  - unfold Upsert. destruct (_ || _) eqn:E; simpl.
    + apply orb_true_iff in E. rewrite !bool_decide_eq_true in E. rewrite decide_False by naive_solver. done.
    + apply orb_false_iff in E. rewrite !bool_decide_eq_false in E.
      destruct (decide (h_id h = id)) as [<-|Hne].
      * rewrite decide_True by naive_solver. apply lookup_delete_eq.
      * rewrite decide_False by naive_solver. by apply lookup_delete_ne.
  - unfold Remove. case_decide as Hx; simpl.
    + rewrite decide_False by naive_solver. done.
    + destruct (decide (x = id)) as [<-|Hne].
      * rewrite decide_True by done. apply lookup_insert_eq.
      * rewrite decide_False by naive_solver. by apply lookup_insert_ne.
  - unfold PickRoundRobin. by destruct (eligibleLocked now r).
Qed.

Lemma removedAt_trace id os r :
  removedAt (foldl (fun r o => run_reg_op o r) r os) !! id = last_removal id os (removedAt r !! id).
Proof.
  revert r. induction os as [|o os IH]; intros r; [done|].
  change (foldl _ r (o :: os)) with (foldl (fun r o => run_reg_op o r) (run_reg_op o r) os).
  rewrite IH, removedAt_step. by destruct o.
Qed.

(** On a single pod a runner's sandboxes are treated as lost exactly when
    the runner was removed, has not sent a heartbeat since, and at least
    [buffer] has passed since that removal; a runner that is registered, or that
    this process never saw, is never treated as gone. *)
Theorem gone_long_enough_correct grace os id buffer now :
  GoneLongEnough id buffer now (run_reg grace os) = true <->
  id <> "" /\ 0 < buffer /\ exists t, last_removal id os None = Some t /\ t + buffer <= now.
Proof.
  pose proof (run_reg_ok grace os) as Hr. pose proof (removedAt_trace id os (NewMemory grace)) as Ht.
  change (removedAt (NewMemory grace) !! id) with (None : option Z) in Ht.
  fold (run_reg grace os) in Ht. unfold GoneLongEnough.
  destruct (_ || _) eqn:E.
  { apply orb_true_iff in E. rewrite !bool_decide_eq_true in E. split; [done|]. intros (? & ? & _). naive_solver lia. }
  apply orb_false_iff in E. rewrite !bool_decide_eq_false in E. rewrite <- Ht.
  destruct (runners (run_reg grace os) !! id) as [run|] eqn:Erun.
  - split; [done|]. intros (_ & _ & t & Hrem & _). by rewrite (rok_removed _ Hr _ _ Hrem) in Erun.
  - destruct (removedAt (run_reg grace os) !! id) as [t|]; [|naive_solver].
    destruct E as [Hid Hb]. rewrite bool_decide_eq_true. split.
    + intros Hnow. split; [done|]. split; [lia|]. exists t. split; [done|lia].
    + intros (_ & _ & t' & ? & ?). simplify_eq. lia.
Qed.

(** ** Round robin *)

Fixpoint round_robin (n : nat) (now : Z) (r : MemoryRegistry) : list (option Runner) :=
  match n with
  | O => []
  | S n' => let '(o, r') := PickRoundRobin now r in o :: round_robin n' now r'
  end.

Lemma round_robin_lookup n now r i :
  let l := eligibleLocked now r in
  l <> [] -> 0 <= rrCounter r -> rrCounter r + Z.of_nat n <= 2 ^ 64 -> (i < n)%nat ->
  round_robin n now r !! i = Some (l !! ((Z.to_nat (rrCounter r) + i) mod length l)%nat).
Proof.
  revert r i. induction n as [|n IH]; intros r i l Hne H0 Hmax Hi; [lia|].
  assert (Hlen : (0 < length l)%nat) by (destruct l eqn:El; [done|simpl; lia]).
  assert (Hpick : PickRoundRobin now r = (l !! (Z.to_nat (rrCounter r) mod length l)%nat,
    mkMemory (runners r) (order r) ((rrCounter r + 1) mod 2 ^ 64) (heartbeatGrace r) (removedAt r))).
  { unfold PickRoundRobin. fold l. destruct l as [|x l'] eqn:El; [done|]. rewrite <- El in *. f_equal. f_equal.
    rewrite Z2Nat.inj_mod, Nat2Z.id by lia. done. }
  simpl. rewrite Hpick. destruct i as [|i]; simpl; [by rewrite Nat.add_0_r|].
  rewrite IH; [|done|..]; simpl.
  - unfold eligibleLocked; simpl. fold (eligibleLocked now r). fold l. do 3 f_equal.
    rewrite Z.mod_small by lia. rewrite Z2Nat.inj_add by lia. simpl. lia.
  - rewrite Z.mod_small by lia. lia.
  - rewrite Z.mod_small by lia. lia.
  - lia.
Qed.

Lemma length_round_robin n now r : length (round_robin n now r) = n.
Proof.
  revert r. induction n as [|n IH]; intros r; simpl; [done|].
  destruct (PickRoundRobin now r) as [o r']. simpl. by rewrite IH.
Qed.

(** While the eligible runners stay the same, as many consecutive
    [PickRoundRobin] calls as there are eligible runners return each of them
    exactly once, in registration order from where the counter stands, as long
    as the 64-bit counter does not wrap on the way. *)
Theorem round_robin_fair now r :
  let l := eligibleLocked now r in
  0 <= rrCounter r -> rrCounter r + Z.of_nat (length l) <= 2 ^ 64 ->
  round_robin (length l) now r = Some <$> rotate (Z.to_nat (rrCounter r)) l.
Proof.
  intros l H0 Hmax. destruct (decide (l = [])) as [E|Hne]; [rewrite !E; unfold rotate; by rewrite drop_nil, take_nil|].
  apply list_eq. intros i. destruct (decide (i < length l)%nat) as [Hi|Hi].
  - rewrite round_robin_lookup by done. rewrite list_lookup_fmap, lookup_rotate_r by done. fold l.
    unfold rotate_nat_add. rewrite <- Nat2Z.inj_add.
    replace (Z.of_nat (Z.to_nat (rrCounter r) + i) mod Z.of_nat (length l))
      with (Z.of_nat ((Z.to_nat (rrCounter r) + i) mod length l)) by (by rewrite Nat2Z.inj_mod).
    rewrite Nat2Z.id.
    destruct (l !! _) eqn:E; [done|]. apply lookup_ge_None in E.
    pose proof (Nat.mod_upper_bound (Z.to_nat (rrCounter r) + i) (length l)). lia.
  - rewrite !lookup_ge_None_2; [done|rewrite length_fmap, length_rotate; lia|].
    rewrite length_round_robin. lia.
Qed.

Definition hb (id : string) (used : Z) : heartbeat :=
  mkHeartbeat id "https://runner:8443/" " runner:9000" true false 10 used 0.

Definition three_runners : MemoryRegistry :=
  run_reg 0 [RegUpsert (hb "b" 1) 0; RegUpsert (hb "a" 2) 0; RegUpsert (hb "c" 1) 0; RegPickRoundRobin 1].

Lemma round_robin_fair_witness :
  map (option_map r_ID) (round_robin 3 5 three_runners) = [Some "a"; Some "c"; Some "b"].
Proof.
  change 3%nat with (length (eligibleLocked 5 three_runners)).
  rewrite (round_robin_fair 5 three_runners); [vm_compute; reflexivity | vm_compute; congruence..].
Defined.

(** ** The two backends agree *)

(** A table of rows stored under their own ids. *)
Definition table_ok (t : gmap string Runner) : Prop := forall id run, t !! id = Some run -> r_ID run = id.

Lemma pg_rows t locked grace now run :
  table_ok t ->
  run ∈ filter (fun run => pg_eligible grace now run = true /\ r_ID run ∉ locked) (map_to_list t).*2 <->
  t !! r_ID run = Some run /\ pg_eligible grace now run = true /\ r_ID run ∉ (locked : gset string).
Proof.
  intros Ht. rewrite list_elem_of_filter, list_elem_of_fmap. split.
  - intros ([He Hl] & [id x] & -> & Hin%elem_of_map_to_list). simpl in *. split; [by rewrite (Ht id x Hin)|done].
  - intros (Hid & He & Hl). split; [done|]. exists (r_ID run, run). split; [done|]. by apply elem_of_map_to_list.
Qed.

Lemma eligible_agree grace now run :
  0 < grace <= int64_max -> grace mod Second = 0 -> 0 <= r_CapacityTotal run ->
  pg_eligible grace now run = eligible grace now run.
Proof.
  intros Hg Hs Ht. unfold pg_eligible, eligible, pg_fresh, graceSec, time_sub, int64_min, int64_max, Second in *.
  assert (Hq : Z.quot grace 1000000000 * 1000000000 = grace).
  { rewrite Z.quot_div_nonneg by lia. pose proof (Z.div_mod grace 1000000000). lia. }
  rewrite Hq. destruct (r_Healthy run), (r_Cordoned run); simpl; repeat case_decide; simpl; try done; exfalso; lia.
Qed.

(** Under the "C" collation, with no row locked by another transaction, a
    grace of whole seconds and non-negative capacities, the Postgres query picks
    the same runner as the in-memory loop on the same runners, and both report
    [ErrNoRunners] together. *)
Theorem pg_pick_agrees r grace os now exclude :
  r = run_reg grace os -> 0 < heartbeatGrace r <= int64_max -> heartbeatGrace r mod Second = 0 ->
  (forall id run, runners r !! id = Some run -> 0 <= r_CapacityTotal run) ->
  pg_PickLowestUsed str_lt ∅ false (heartbeatGrace r) exclude now (runners r) = PickLowestUsed exclude now r.
Proof.
  intros -> Hg Hs Ht. set (r := run_reg grace os) in *.
  pose proof (run_reg_ok grace os : reg_ok r) as Hr.
  assert (Htab : table_ok (runners r)) by (intros id run Hi; by destruct (rok_key r Hr id run Hi)).
  unfold pg_PickLowestUsed, PickLowestUsed. f_equal.
  set (l := filter _ (map_to_list (runners r)).*2).
  assert (Hsame : forall run, run ∈ l <-> run ∈ eligibleLocked now r).
  { intros run. unfold l. rewrite pg_rows, eligibleLocked_spec by done. split.
    - intros (Hi & He & _). by rewrite eligible_agree in He by eauto.
    - intros (Hi & He). rewrite eligible_agree by eauto. split; [done|]. split; [done|apply not_elem_of_empty]. }
  pose proof (str_lt_spec exclude l None) as H1.
  pose proof (str_lt_spec exclude (eligibleLocked now r) None) as H2. unfold among in *.
  destruct (pick_best str_lt exclude None l) as [x|], (pick_best str_lt exclude None (eligibleLocked now r)) as [y|].
  - destruct H1 as [[?|[Hx1 Hx2]] Hx]; [done|]. destruct H2 as [[?|[Hy1 Hy2]] Hy]; [done|].
    specialize (Hx y ltac:(right; split; [by apply Hsame|done])).
    specialize (Hy x ltac:(right; split; [by apply Hsame|done])).
    apply Hsame in Hx1. apply eligibleLocked_spec in Hx1 as [Hx1 _], Hy1 as [Hy1 _]; [|done..].
    assert (r_ID x = r_ID y) as E by (unfold no_worse in *; destruct Hx as [?|[? ?]], Hy as [?|[? ?]]; try lia; by apply str_lt_total).
    congruence.
  - destruct H1 as [[?|[Hx1 Hx2]] _]; [done|]. exfalso. apply (H2 x). right. split; [by apply Hsame|done].
  - destruct H2 as [[?|[Hy1 Hy2]] _]; [done|]. exfalso. apply (H1 y). right. split; [by apply Hsame|done].
  - done.
Qed.

Lemma pg_pick_agrees_witness :
  pg_PickLowestUsed str_lt ∅ false (heartbeatGrace three_runners) ["b"] 5 (runners three_runners) =
  PickLowestUsed ["b"] 5 three_runners /\
  r_ID <$> (match PickLowestUsed ["b"] 5 three_runners with inr run => Some run | _ => None end) = Some "c".
Proof.
  split; [|vm_compute; reflexivity].
  apply (pg_pick_agrees three_runners 0
    [RegUpsert (hb "b" 1) 0; RegUpsert (hb "a" 2) 0; RegUpsert (hb "c" 1) 0; RegPickRoundRobin 1] 5 ["b"] eq_refl).
  - vm_compute. split; congruence.
  - reflexivity.
  - assert (Hall : map_Forall (fun _ run => 0 <= r_CapacityTotal run) (runners three_runners))
      by (apply (bool_decide_unpack _); vm_compute; exact I).
    exact Hall.
Defined.

(** [SKIP LOCKED]: while another transaction (a heartbeat's upsert, another pod's
    pick) holds the row of the only eligible runner, Postgres reports that there
    are no runners. *)
Example pg_pick_skips_locked :
  let t := pg_Upsert true (hb "a" 0) 0 ∅ in
  pg_PickLowestUsed str_lt ∅ false (45 * Second) [] 5 t = inr (runner_of (hb "a" 0) 0) /\
  pg_PickLowestUsed str_lt {["a"]} false (45 * Second) [] 5 t = inl ErrNoRunners.
Proof. split; vm_compute; reflexivity. Qed.

(** ** What the registry promises the API server

    [pick n exclude], [get n id] and [gone n id buffer]: the answers to the
    process's [n]-th interaction.  Runners come and go between calls. *)

Class RegistryEnv := {
  reg_pick : nat -> list string -> pick_error + Runner;
  reg_get : nat -> string -> option Runner;
  reg_gone : nat -> string -> Z -> bool;
}.

Class RegistryLaws (RE : RegistryEnv) := {
  reg_pick_fresh n exclude run : reg_pick n exclude = inr run -> r_ID run ∉ exclude;
  reg_gone_named n id buffer : reg_gone n id buffer = true -> id <> "" /\ 0 < buffer;
}.

(** A single pod: [hist n] is the registry's history up to the [n]-th interaction. *)
Definition memory_env (grace : Z) (hist : nat -> list reg_op) (clock : nat -> Z) : RegistryEnv := {|
  reg_pick n exclude := PickLowestUsed exclude (clock n) (run_reg grace (hist n));
  reg_get n id := Get id (run_reg grace (hist n));
  reg_gone n id buffer := GoneLongEnough id buffer (clock n) (run_reg grace (hist n)) |}.

(** Several pods: [table n] is what the [n]-th query sees. *)
Definition postgres_env (collate : string -> string -> bool) (grace : Z) (failed : nat -> bool)
    (locked : nat -> gset string) (table : nat -> gmap string Runner) (clock : nat -> Z) : RegistryEnv := {|
  reg_pick n exclude := pg_PickLowestUsed collate (locked n) (failed n) grace exclude (clock n) (table n);
  reg_get n id := pg_Get (failed n) id (table n);
  reg_gone n id buffer := pg_GoneLongEnough (failed n) id buffer (clock n) (table n) |}.

Lemma pick_best_fresh lt exclude best l run :
  pick_best lt exclude best l = Some run -> (forall b, best = Some b -> r_ID b ∉ exclude) -> r_ID run ∉ exclude.
Proof.
  revert best. induction l as [|x l IH]; intros best; simpl; [naive_solver|].
  intros H Hb. apply (IH _ H). case_decide; [done|]. destruct (better lt x best); naive_solver.
Qed.

#[export] Instance memory_env_laws grace hist clock : RegistryLaws (memory_env grace hist clock).
Proof.
  split; simpl.
  - unfold PickLowestUsed. intros n exclude run H.
    destruct (pick_best _ _ _ _) eqn:E; simplify_eq/=. by eapply pick_best_fresh.
  - unfold GoneLongEnough. intros n id buffer. destruct (_ || _) eqn:E; [done|].
    apply orb_false_iff in E. rewrite !bool_decide_eq_false in E. split; [naive_solver|lia].
Qed.

#[export] Instance postgres_env_laws collate grace failed locked table clock :
  RegistryLaws (postgres_env collate grace failed locked table clock).
Proof.
  split; simpl.
  - unfold pg_PickLowestUsed. intros n exclude run H. destruct (failed n); [done|].
    destruct (pick_best _ _ _ _) eqn:E; simplify_eq/=. by eapply pick_best_fresh.
  - unfold pg_GoneLongEnough. intros n id buffer. destruct (_ || _) eqn:E; [done|].
    apply orb_false_iff in E. rewrite !bool_decide_eq_false in E. split; [naive_solver|lia].
Qed.

End Registry.
