(* ===== verification/RunnerCtl.v ===== *)
(** * Runner control ([internal/runner/grpc_control.go], [internal/api/runnerctl],
    [internal/runner/runtime/runtime.go])

    The gRPC handlers a runner serves, over any runtime that keeps the [Runtime]
    contract, and the mark on a capacity refusal the API recognises. *)

From S2P Require Import Prelude GoStrings Ids Quota World.

Module RunnerCtl.
Import GoStrings Ids.

(** ** The refusal mark ([runnerctl/refusal.go]) *)

Definition refusalDomain : string := "sandbox-runner".
Definition refusalReason : string := "CAPACITY_EXHAUSTED".

(** [with_details] is whether attaching the [ErrorInfo] succeeded. *)
Definition CapacityRefusal (with_details : bool) (msg : string) : rpc_error :=
  StatusError codes_ResourceExhausted (if with_details then [(refusalDomain, refusalReason)] else []) msg.

(** [None] is a nil error. *)
Definition IsCapacityRefusal (err : option rpc_error) : bool :=
  match err with
  | Some (StatusError code details _) =>
      bool_decide (code = codes_ResourceExhausted) &&
      existsb (fun d => bool_decide (d = (refusalDomain, refusalReason))) details
  | _ => false
  end.

(** ** Create options ([runtime.go]) *)

Definition EgressPublic : string := "public".
Definition EgressNone : string := "none".

(** [None]: the value is not a known egress. *)
Definition ParseEgress (s : string) : option string :=
  if bool_decide (s = "") || bool_decide (s = EgressPublic) then Some EgressPublic
  else if bool_decide (s = EgressNone) then Some EgressNone
  else None.

(** [encoding/json] on [CreateOptions]: [None] for an error, [Some None] for
    null, [Some (Some e)] for an object whose egress is [e] ("" when absent). *)
Class OptionsJSON := {
  json_unmarshal : string -> option (option string);
  json_marshal : string -> string;
}.

Class OptionsJSONLaws (J : OptionsJSON) := {
  json_roundtrip e : e = EgressPublic \/ e = EgressNone -> json_unmarshal (json_marshal e) = Some (Some e);
  json_marshal_object e : e = EgressPublic \/ e = EgressNone -> TrimSpace (json_marshal e) <> "";
}.

Section options.
Context {J : OptionsJSON} {HJ : OptionsJSONLaws J}.

(** [None]: an error.  The result is the options' egress. *)
Definition ParseCreateOptions (s : string) : option string :=
  match (if decide (TrimSpace s <> "") then json_unmarshal s else Some (Some "")) with
  | None => None
  | Some None => None
  | Some (Some e) => ParseEgress e
  end.

(** [None]: the panic on an egress that was never validated. *)
Definition BlockEgress (opts : option string) : option bool :=
  match opts with
  | None => Some false
  | Some e =>
      if bool_decide (e = "") || bool_decide (e = EgressPublic) then Some false
      else if bool_decide (e = EgressNone) then Some true
      else None
  end.

Lemma parse_egress_valid s e : ParseEgress s = Some e -> e = EgressPublic \/ e = EgressNone.
Proof using. unfold ParseEgress. intros. repeat case_match; naive_solver. Qed.

Lemma parse_options_valid s e : ParseCreateOptions s = Some e -> e = EgressPublic \/ e = EgressNone.
Proof using. clear HJ. unfold ParseCreateOptions. intros. repeat case_match; try done; eauto using parse_egress_valid. Qed.

(** What a runner echoes reads back as what it applied. *)
Lemma parse_marshal e : e = EgressPublic \/ e = EgressNone -> ParseCreateOptions (json_marshal e) = Some e.
Proof.
  intros He. unfold ParseCreateOptions. rewrite decide_True by by apply json_marshal_object.
  rewrite json_roundtrip by done. destruct He as [-> | ->]; reflexivity.
Qed.
End options.

(** ** The runtime contract *)

Inductive sentinel := Canceled | DeadlineExceeded | ErrCapacityExhausted | ErrSandboxNotFound.
#[global] Instance sentinel_eq_dec : EqDecision sentinel.
Proof. solve_decision. Defined.

(** A Go error: the sentinels [errors.Is] finds in its chain, and its text. *)
Record go_error := mkError { err_is : list sentinel; err_text : string }.
Definition errors_Is (e : go_error) (s : sentinel) : bool := bool_decide (s ∈ err_is e).

Class Runtime (RT : Type) := {
  rt_Ready : RT -> option go_error;
  rt_CreateSandbox : string -> string -> RT -> (go_error + option string) * RT;
  rt_StopSandbox : string -> RT -> option go_error * RT;
  rt_DeleteSandbox : string -> RT -> option go_error * RT;
  rt_hosts : RT -> gset string;   (* the sandboxes it has and is not already deleting *)
}.

(** What [runtime.go] documents: a capacity refusal comes before anything is
    created; a successful create hosts the sandbox, a successful delete leaves it
    not hosted.  A delete that answers [ErrSandboxNotFound] means that the runtime does
    not know the sandbox or that another delete already has it ([beginTransition]), so
    that it does not count as hosted either way. *)
Class RuntimeLaws (RT : Type) `{Runtime RT} := {
  create_refused_law id o rt e rt' : rt_CreateSandbox id o rt = (inl e, rt') ->
    errors_Is e ErrCapacityExhausted = true -> rt_hosts rt' = rt_hosts rt;
  create_ok_law id o rt info rt' : rt_CreateSandbox id o rt = (inr info, rt') ->
    rt_hosts rt' = {[id]} ∪ rt_hosts rt;
  create_other_law id o rt r rt' x : rt_CreateSandbox id o rt = (r, rt') -> x <> id ->
    x ∈ rt_hosts rt' <-> x ∈ rt_hosts rt;
  stop_law id rt r rt' : rt_StopSandbox id rt = (r, rt') -> rt_hosts rt' = rt_hosts rt;
  delete_ok_law id rt rt' : rt_DeleteSandbox id rt = (None, rt') -> rt_hosts rt' = rt_hosts rt ∖ {[id]};
  delete_gone_law id rt e rt' : rt_DeleteSandbox id rt = (Some e, rt') ->
    errors_Is e ErrSandboxNotFound = true -> rt_hosts rt' = rt_hosts rt ∖ {[id]};
  delete_other_law id rt r rt' x : rt_DeleteSandbox id rt = (r, rt') -> x <> id ->
    x ∈ rt_hosts rt' <-> x ∈ rt_hosts rt;
}.

(** ** The handlers *)

Definition codes_Canceled : Z := 1.
Definition codes_InvalidArgument : Z := 3.
Definition codes_DeadlineExceeded : Z := 4.
Definition codes_FailedPrecondition : Z := 9.
Definition codes_Internal : Z := 13.
Definition codes_Unauthenticated : Z := 16.

Definition status (code : Z) (msg : string) : rpc_error := StatusError code [] msg.

(** Of a non-nil error; nil stays nil. *)
Definition toGRPCError (with_details : bool) (e : go_error) : rpc_error :=
  if errors_Is e Canceled then status codes_Canceled "context canceled"
  else if errors_Is e DeadlineExceeded then status codes_DeadlineExceeded "context deadline exceeded"
  else if errors_Is e ErrCapacityExhausted then CapacityRefusal with_details (err_text e)
  else status codes_Internal (err_text e).

(** The runner: its runtime, the cordon state ([internal/runner/cordon]) with its
    pending change signal, its accepted API keys and its id. *)
Record runner (RT : Type) := mkRunnerState {
  rn_runtime : RT;
  rn_cordoned : bool;
  rn_changed : bool;
  rn_keys : gset string;
  rn_id : string;
}.
#[global] Arguments mkRunnerState {RT}.
#[global] Arguments rn_runtime {RT}.
#[global] Arguments rn_cordoned {RT}.
#[global] Arguments rn_changed {RT}.
#[global] Arguments rn_keys {RT}.
#[global] Arguments rn_id {RT}.

Section handlers.
Context {J : OptionsJSON} {RT : Type} {HRT : Runtime RT}.
#[local] Open Scope act_scope.

Definition set_runtime (rt : RT) (s : runner RT) : runner RT :=
  mkRunnerState rt (rn_cordoned s) (rn_changed s) (rn_keys s) (rn_id s).

(** [md]: the values of the call's [x-api-key] metadata, [None] without metadata. *)
Definition checkAPIKey (md : option (list string)) : act (runner RT) rpc_error unit :=
  match md with
  | None => exit (status codes_Unauthenticated "missing metadata")
  | Some vals =>
      let key := match vals with v :: _ => TrimSpace v | [] => "" end in
      if decide (key = "") then exit (status codes_Unauthenticated "missing x-api-key")
      else
        let! s := get in
        if decide (key ∈ rn_keys s) then ret tt
        else exit (status codes_Unauthenticated "invalid api key")
  end.

(** The response is the container's address and the echoed options. *)
Definition CreateSandbox (with_details : bool) (md : option (list string)) (reqID reqOpts : string) :
    act (runner RT) rpc_error (string * string) :=
  do! checkAPIKey md in
  let! s := get in
  if rn_cordoned s then exit (CapacityRefusal with_details "runner is cordoned") else
  match rt_Ready (rn_runtime s) with
  | Some e => exit (status codes_Unavailable (err_text e))
  | None =>
      let sandboxID := TrimSpace reqID in
      if negb (isValidID sandboxID) then exit (status codes_InvalidArgument "invalid sandbox id") else
      match ParseCreateOptions reqOpts with
      | None => exit (status codes_InvalidArgument "invalid create options")
      | Some egress =>
          let applied := json_marshal egress in
          let '(r, rt') := rt_CreateSandbox sandboxID egress (rn_runtime s) in
          do! modify (set_runtime rt') in
          match r with
          | inl e => exit (toGRPCError with_details e)
          | inr None => exit (status codes_Internal "create sandbox returned nil info")
          | inr (Some ip) => ret (ip, applied)
          end
      end
  end.

Definition StopSandbox (with_details : bool) (md : option (list string)) (reqID : string) :
    act (runner RT) rpc_error unit :=
  do! checkAPIKey md in
  let sandboxID := TrimSpace reqID in
  if negb (isValidID sandboxID) then exit (status codes_InvalidArgument "invalid sandbox id") else
  let! s := get in
  let '(r, rt') := rt_StopSandbox sandboxID (rn_runtime s) in
  do! modify (set_runtime rt') in
  match r with
  | None => ret tt
  | Some e =>
      if errors_Is e ErrSandboxNotFound then ret tt
      else exit (toGRPCError with_details e)
  end.

Definition DeleteSandbox (with_details : bool) (md : option (list string)) (reqID : string) :
    act (runner RT) rpc_error unit :=
  do! checkAPIKey md in
  let sandboxID := TrimSpace reqID in
  if negb (isValidID sandboxID) then exit (status codes_InvalidArgument "invalid sandbox id") else
  let! s := get in
  let '(r, rt') := rt_DeleteSandbox sandboxID (rn_runtime s) in
  do! modify (set_runtime rt') in
  match r with
  | None => ret tt
  | Some e =>
      if errors_Is e ErrSandboxNotFound then ret tt
      else exit (toGRPCError with_details e)
  end.

Definition GetCordon (md : option (list string)) : act (runner RT) rpc_error bool :=
  do! checkAPIKey md in
  let! s := get in
  ret (rn_cordoned s).

(** [cordon.State.Set]: whether the state changed; the signal channel holds one. *)
Definition cordon_Set (c : bool) (s : runner RT) : bool * runner RT :=
  if decide (rn_cordoned s = c) then (false, s)
  else (true, mkRunnerState (rn_runtime s) c true (rn_keys s) (rn_id s)).

Definition SetCordon (md : option (list string)) (reqRunnerID : string) (c : bool) :
    act (runner RT) rpc_error bool :=
  do! checkAPIKey md in
  let! s := get in
  if decide (reqRunnerID <> "" /\ reqRunnerID <> rn_id s) then
    exit (status codes_FailedPrecondition "another runner")
  else
    do! modify (fun s => (cordon_Set c s).2) in
    ret c.
End handlers.

(** ** What the API may conclude from a reply *)

Section replies.
Context {J : OptionsJSON} {HJ : OptionsJSONLaws J} {RT : Type} {HRT : Runtime RT} {HL : RuntimeLaws RT}.

Lemma checkAPIKey_wp md (Q : rpc_error + unit -> runner RT -> Prop) s :
  Q (inr tt) s ->
  (forall msg, Q (inl (status codes_Unauthenticated msg)) s) ->
  wp (checkAPIKey md) Q s.
Proof.
  intros Hok Herr. unfold checkAPIKey. wp_auto; auto.
Qed.

Lemma refusal_only_capacity with_details e :
  IsCapacityRefusal (Some (toGRPCError with_details e)) = true -> errors_Is e ErrCapacityExhausted = true.
Proof using. clear. unfold toGRPCError. by repeat case_match. Qed.

(** What a create reply says about the sandboxes of the runner. *)
Definition create_post (reqID reqOpts : string) (s : runner RT) (o : rpc_error + (string * string)) (s' : runner RT) : Prop :=
  let hosts := rt_hosts (rn_runtime s) in let hosts' := rt_hosts (rn_runtime s') in
  match o with
  | inl e => IsCapacityRefusal (Some e) = true -> hosts' = hosts
  | inr (ip, applied) =>
      hosts' = {[TrimSpace reqID]} ∪ hosts /\ rn_cordoned s = false /\
      is_Some (ParseCreateOptions reqOpts) /\ ParseCreateOptions applied = ParseCreateOptions reqOpts
  end /\
  forall x, x <> TrimSpace reqID -> x ∈ hosts' <-> x ∈ hosts.

Lemma create_reply_wp with_details md reqID reqOpts (s : runner RT) :
  wp (CreateSandbox with_details md reqID reqOpts) (create_post reqID reqOpts s) s.
Proof.
  unfold CreateSandbox, create_post. apply wp_bind, checkAPIKey_wp; [|done].
  wp_auto; try done.
  - simpl. split; [|eauto using create_other_law].
    intros Hr%refusal_only_capacity. eauto using create_refused_law.
  - assert (Hv : s0 = EgressPublic \/ s0 = EgressNone) by eauto using parse_options_valid.
    simpl. split; [|eauto using create_other_law].
    split; [eauto using create_ok_law|]. split; [done|]. split; [eauto|]. by apply parse_marshal.
  - simpl. split; [done|eauto using create_other_law].
Qed.

(** What a create reply tells the API.  An error the API takes for a capacity
    refusal means the runner hosts exactly what it hosted before, so placing the
    sandbox on another runner leaves none behind; a success means the sandbox is
    hosted, the runner was not cordoned, and the echoed options read back as the
    ones that were asked for; whatever the reply, no other sandbox of the runner
    is affected. *)
Theorem runner_create_honest with_details md reqID reqOpts (s : runner RT) :
  wp (CreateSandbox with_details md reqID reqOpts) (fun o s' =>
    let hosts := rt_hosts (rn_runtime s) in let hosts' := rt_hosts (rn_runtime s') in
    match o with
    | inl e => IsCapacityRefusal (Some e) = true -> hosts' = hosts
    | inr (ip, applied) =>
        hosts' = {[TrimSpace reqID]} ∪ hosts /\ rn_cordoned s = false /\
        is_Some (ParseCreateOptions reqOpts) /\ ParseCreateOptions applied = ParseCreateOptions reqOpts
    end /\
    forall x, x <> TrimSpace reqID -> x ∈ hosts' <-> x ∈ hosts) s.
Proof. apply create_reply_wp. Qed.

(** A delete that succeeds leaves the sandbox not hosted, whether or not the
    runner knew it, so repeating a delete is harmless; a failed one touches no
    other sandbox; a stop never changes what is hosted. *)
Theorem runner_delete_idempotent with_details md reqID (s : runner RT) :
  wp (DeleteSandbox with_details md reqID) (fun o s' =>
    let hosts := rt_hosts (rn_runtime s) in let hosts' := rt_hosts (rn_runtime s') in
    (o = inr tt -> hosts' = hosts ∖ {[TrimSpace reqID]}) /\
    forall x, x <> TrimSpace reqID -> x ∈ hosts' <-> x ∈ hosts) s /\
  wp (StopSandbox with_details md reqID) (fun o s' =>
    rt_hosts (rn_runtime s') = rt_hosts (rn_runtime s)) s.
Proof using HL. clear HJ J.
  split.
  - unfold DeleteSandbox. apply wp_bind, checkAPIKey_wp; [|done].
    wp_auto; simpl; try done; (split; [|eauto using delete_other_law]); try done;
      intros _; eauto using delete_gone_law, delete_ok_law.
  - unfold StopSandbox. apply wp_bind, checkAPIKey_wp; [|done]. wp_auto; simpl; eauto using stop_law.
Qed.

(** A cordoned runner refuses every create of an authenticated caller, in the
    form the API moves on from, and an uncordon is seen by the next create. *)
Lemma cordoned_refuses md reqID reqOpts key (s : runner RT) :
  md = Some [key] -> TrimSpace key ∈ rn_keys s -> TrimSpace key <> "" -> rn_cordoned s = true ->
  exists msg, CreateSandbox true md reqID reqOpts s = (inl (CapacityRefusal true msg), s).
Proof using.
  clear. intros -> Hin Hne Hc. exists "runner is cordoned".
  unfold CreateSandbox, checkAPIKey, bind, get. rewrite decide_False by done. rewrite decide_True by done.
  unfold ret. by rewrite Hc.
Qed.
End replies.

(** ** A runtime that keeps the contract *)

(** Sandboxes as a set, with room for [tiny_slots] of them. *)
Definition tiny_slots : nat := 2.
Definition tiny_runtime : Runtime (gset string) := {|
  rt_Ready _ := None;
  rt_CreateSandbox id o rt :=
    if decide (id ∈ rt) then (inr (Some "10.0.0.2"), rt)
    else if decide (tiny_slots <= size rt)%nat then (inl (mkError [ErrCapacityExhausted] "full"), rt)
    else (inr (Some "10.0.0.2"), {[id]} ∪ rt);
  rt_StopSandbox id rt := (None, rt);
  rt_DeleteSandbox id rt :=
    if decide (id ∈ rt) then (None, rt ∖ {[id]}) else (Some (mkError [ErrSandboxNotFound] "gone"), rt);
  rt_hosts rt := rt |}.

#[export] Instance tiny_runtime_laws : @RuntimeLaws (gset string) tiny_runtime.
Proof. split; simpl; intros; repeat case_decide; simplify_eq; try done; set_solver. Qed.

Definition plain_json : OptionsJSON := {|
  json_unmarshal s := Some (Some s);
  json_marshal e := e |}.

#[export] Instance plain_json_laws : OptionsJSONLaws plain_json.
Proof. split; [done|]. by intros e [-> | ->]. Qed.

Definition full_runner : runner (gset string) :=
  mkRunnerState {["a"; "b"]} false false {["key"]} "r1".

Definition some_uuid : string := "00000000-0000-4000-8000-000000000001".

Lemma runner_create_honest_witness :
  exists e, (CreateSandbox (J := plain_json) (HRT := tiny_runtime) true (Some ["key"]) some_uuid "none" full_runner).1 = inl e /\
  IsCapacityRefusal (Some e) = true /\
  rn_runtime (CreateSandbox (J := plain_json) (HRT := tiny_runtime) true (Some ["key"]) some_uuid "none" full_runner).2
    = rn_runtime full_runner.
Proof.
  pose proof (runner_create_honest (J := plain_json) (HRT := tiny_runtime) true (Some ["key"]) some_uuid "none" full_runner) as H.
  unfold wp in H.
  destruct (CreateSandbox (J := plain_json) (HRT := tiny_runtime) true (Some ["key"]) some_uuid "none" full_runner) as [o s'] eqn:E.
  assert (Ho : o = inl (CapacityRefusal true "full")).
  { replace o with (CreateSandbox (J := plain_json) (HRT := tiny_runtime) true (Some ["key"]) some_uuid "none" full_runner).1 by (by rewrite E).
    vm_compute. reflexivity. }
  subst o. exists (CapacityRefusal true "full"). split; [reflexivity|]. split; [reflexivity|].
  destruct H as [H _]. apply H. reflexivity.
Defined.

Lemma runner_delete_idempotent_witness :
  rn_runtime (DeleteSandbox (HRT := tiny_runtime) true (Some ["key"]) some_uuid full_runner).2
    = rn_runtime full_runner ∖ {[some_uuid]}.
Proof.
  destruct (runner_delete_idempotent (HRT := tiny_runtime) true (Some ["key"]) some_uuid full_runner) as [H _].
  unfold wp in H.
  destruct (DeleteSandbox (HRT := tiny_runtime) true (Some ["key"]) some_uuid full_runner) as [o s'] eqn:E.
  destruct H as [H _]. apply H.
  replace o with (DeleteSandbox (HRT := tiny_runtime) true (Some ["key"]) some_uuid full_runner).1 by (by rewrite E).
  vm_compute. reflexivity.
Defined.

End RunnerCtl.
