(* ===== verification/Placement.v ===== *)
(** * Placing a create on a runner ([internal/api/placement.go])

    A create moves from runner to runner only while they refuse it for capacity.
    Proved against what the registry and the runners promise: [RegistryLaws], and
    that a refusal means nothing was created ([RunnerCtl]). *)

From S2P Require Import Prelude Quota World GoStrings Store StoreInv Registry RunnerCtl.

Module Placement.
Import Registry RunnerCtl.

Definition createPlacementAttempts : nat := 3.
Definition createPlacementBudget : Z := 5 * Second.

Inductive place_error :=
| PlaceNoRunners
| PlaceAtCapacity
| PlacePick
| PlaceCreate (e : rpc_error)
| PlaceFuel.

(** A refusal is only ever sent before anything is created. *)
Class HonestRunners (E : Env) := {
  refusal_made_nothing n addr id opts e made :
    runner_create n addr id opts = CreateError e made -> IsCapacityRefusal (Some e) = true -> made = false;
}.

Section place.
Context {E : Env} {RE : RegistryEnv}.
#[local] Open Scope act_scope.

Definition pick_runner {R} (exclude : list string) : act world R (pick_error + Runner) :=
  let! n := tick in ret (reg_pick n exclude).

(** The loop of [placeSandbox]; [attempts] runners have refused so far. *)
Fixpoint place_loop (fuel : nat) (start : Z) (sandboxID createOptionsJSON : string)
    (refusedBy : list string) (attempts : nat) : act world place_error (Runner * (string * string)) :=
  match fuel with
  | O => exit PlaceFuel
  | S fuel' =>
      let! p := pick_runner refusedBy in
      match p with
      | inl ErrNoRunners => exit (if decide (refusedBy = []) then PlaceNoRunners else PlaceAtCapacity)
      | inl ErrRegistry => exit PlacePick
      | inr run =>
          let! r := rpc_CreateSandbox (r_ControlGRPCAddr run) sandboxID createOptionsJSON in
          match r with
          | inr resp => ret (run, resp)
          | inl e =>
              if negb (IsCapacityRefusal (Some e)) then exit (PlaceCreate e)
              else if decide (createPlacementAttempts <= S attempts)%nat then exit PlaceAtCapacity
              else
                let! t := mono_time in
                if decide (t - start >= createPlacementBudget) then exit PlaceAtCapacity
                else
                  let! gone := ctx_cancelled in
                  if gone then exit PlaceAtCapacity
                  else place_loop fuel' start sandboxID createOptionsJSON (refusedBy ++ [r_ID run]) (S attempts)
          end
      end
  end.

Definition placeSandbox (sandboxID createOptionsJSON : string) :
    act world place_error (Runner * (string * string)) :=
  let! start := mono_time in
  place_loop createPlacementAttempts start sandboxID createOptionsJSON [] 0.

(** The create calls of one placement, newest first. *)
Definition create_events (id : string) (tried : list Runner) : list event :=
  (fun run => EvCreate (r_ControlGRPCAddr run) id) <$> reverse tried.

(** How a placement that tried the runners [tried], in this order, ends. *)
Definition place_post (id : string) (tried : list Runner) (w : world) 
    (o : place_error + (Runner * (string * string))) (w' : world) : Prop :=
  w_db w' = w_db w /\ w_quota w' = w_quota w /\
  w_log w' = create_events id tried ++ w_log w /\
  NoDup (r_ID <$> tried) /\ (length tried <= createPlacementAttempts)%nat /\
  match o with
  | inr (run, _) => last tried = Some run /\ w_hosted w' = {[(r_ControlGRPCAddr run, id)]} ∪ w_hosted w
  | inl PlaceFuel => False
  | inl (PlaceCreate e) => exists run, last tried = Some run /\ IsCapacityRefusal (Some e) = false /\
      (w_hosted w' = w_hosted w \/
       (w_hosted w' = {[(r_ControlGRPCAddr run, id)]} ∪ w_hosted w /\
        exists n opts, runner_create n (r_ControlGRPCAddr run) id opts = CreateError e true))
  | inl PlaceNoRunners => tried = [] /\ w_hosted w' = w_hosted w
  | inl PlaceAtCapacity => tried <> [] /\ w_hosted w' = w_hosted w
  | inl PlacePick => w_hosted w' = w_hosted w
  end.

Context {RL : RegistryLaws RE} {HR : HonestRunners E}.

Lemma wp_create {R} addr id opts (Q : R + (rpc_error + (string * string)) -> world -> Prop) w :
  let w1 := log_event (EvCreate addr id) (next_tick w) in
  (forall resp, Q (inr (inr resp)) (set_hosted ({[(addr, id)]} ∪ w_hosted w) w1)) ->
  (forall e, IsCapacityRefusal (Some e) = true -> Q (inr (inl e)) w1) ->
  (forall e, IsCapacityRefusal (Some e) = false -> Q (inr (inl e)) w1) ->
  (forall e, IsCapacityRefusal (Some e) = false -> runner_create (w_tick w) addr id opts = CreateError e true ->
     Q (inr (inl e)) (set_hosted ({[(addr, id)]} ∪ w_hosted w) w1)) ->
  wp (rpc_CreateSandbox addr id opts) Q w.
Proof.
  intros w1 H1 H2 H3 H4. unfold rpc_CreateSandbox. apply wp_bind, wp_tick, wp_bind, wp_modify.
  destruct (runner_create (w_tick w) addr id opts) as [ip a|e made] eqn:Er; wp_auto; [apply H1|].
  destruct (IsCapacityRefusal (Some e)) eqn:Ec.
  - rewrite (refusal_made_nothing _ _ _ _ _ _ Er Ec). by apply H2.
  - destruct made; [by apply H4|by apply H3].
Qed.

Lemma create_events_snoc id tried run :
  create_events id (tried ++ [run]) = EvCreate (r_ControlGRPCAddr run) id :: create_events id tried.
Proof. unfold create_events. by rewrite reverse_snoc. Qed.

(** Every exit of the loop establishes the postcondition the same way. *)
Ltac exit_with tried len :=
  wp_auto; exists tried; unfold place_post; simpl; rewrite ?len; repeat split; try done; try lia.

(** The loop, having been refused by [tried]. *)
Lemma place_loop_wp fuel start id opts tried w0 w :
  w_db w = w_db w0 -> w_quota w = w_quota w0 -> w_hosted w = w_hosted w0 ->
  w_log w = create_events id tried ++ w_log w0 -> NoDup (r_ID <$> tried) ->
  (length tried < createPlacementAttempts)%nat -> (createPlacementAttempts <= fuel + length tried)%nat ->
  wp (place_loop fuel start id opts (r_ID <$> tried) (length tried))
     (fun o w' => exists tried', place_post id tried' w0 o w') w.
Proof.
  revert tried w. induction fuel as [|fuel IH]; intros tried w Hdb Hq Hh Hl Hnd Hlt Hfuel; [simpl in *; lia|].
  simpl. apply wp_bind. unfold pick_runner. apply wp_bind, wp_tick, wp_ret.
  destruct (reg_pick _ _) as [[|]|run] eqn:Ep; simpl.
  - wp_auto. exists tried. unfold place_post; simpl.
    split; [done|]. split; [done|]. split; [done|]. split; [done|]. split; [lia|].
    case_decide as Hd; (split; [|done]); [by apply fmap_nil_inv in Hd|]. intros ->. done.
  - by exit_with tried Hl.
  - assert (Hnew : NoDup (r_ID <$> tried ++ [run])).
    { rewrite fmap_app. apply NoDup_app. split; [done|]. split; [|apply NoDup_singleton].
      intros x Hx ->%list_elem_of_singleton. by apply (reg_pick_fresh _ _ _ Ep). }
    assert (Hlen : length (tried ++ [run]) = S (length tried)) by (rewrite length_app; simpl; lia).
    assert (Hlog : EvCreate (r_ControlGRPCAddr run) id :: w_log w = create_events id (tried ++ [run]) ++ w_log w0)
      by (by rewrite create_events_snoc, Hl).
    apply wp_bind, wp_create; simpl.
    + intros resp. exit_with (tried ++ [run]) Hlen; [by rewrite last_snoc|by rewrite Hh].
    + intros e He. rewrite He. simpl. assert (Hne : tried ++ [run] <> []) by (by destruct tried).
      case_decide as Hmax; [by exit_with (tried ++ [run]) Hlen|].
      apply wp_bind, wp_mono_time. case_decide; [by exit_with (tried ++ [run]) Hlen|].
      apply wp_bind, wp_ctx_cancelled. destruct (ctx_err _); [by exit_with (tried ++ [run]) Hlen|].
      specialize (IH (tried ++ [run])). rewrite fmap_app, Hlen in IH.
      apply IH; simpl; try done; [by rewrite fmap_app in Hnew|lia..].
    + intros e He. rewrite He. simpl. exit_with (tried ++ [run]) Hlen. exists run. rewrite last_snoc. auto.
    + intros e He Hmade. rewrite He. simpl. exit_with (tried ++ [run]) Hlen. exists run. rewrite last_snoc, Hh. eauto 8.
Qed.

Lemma placeSandbox_wp id opts w :
  wp (placeSandbox id opts) (fun o w' => exists tried, place_post id tried w o w') w.
Proof.
  unfold placeSandbox. apply wp_bind, wp_mono_time.
  apply (place_loop_wp createPlacementAttempts _ id opts []); simpl; try done; [constructor|unfold createPlacementAttempts; lia..].
Qed.

(** C12: Placing one create never leaves a sandbox behind on a runner it moved on
    from.  The create is sent to at most three different runners; when a runner
    takes it, exactly that sandbox is added there and nowhere else; the answers
    "no runners" and "at capacity" mean nothing was created anywhere, the first
    without any call and the second after at least one; any other runner error
    ends the placement at that runner, the only one that may hold the sandbox. *)
Theorem place_sandbox_safe id opts w :
  wp (placeSandbox id opts) (fun o w' => exists tried, place_post id tried w o w') w.
Proof. apply placeSandbox_wp. Qed.
End place.

(** ** A fleet of runners

    [fleet n addr] is the runner behind [addr] at the process's [n]-th
    interaction.  A reply is what its handler answers, unless the network
    reports an error of its own instead, which never carries the refusal mark. *)

Section fleet.
Context {J : OptionsJSON} {HJ : OptionsJSONLaws J} {RT : Type} {HRT : Runtime RT} {HL : RuntimeLaws RT}.
Context (fleet : nat -> string -> runner RT) (md : option (list string)) (network : nat -> option rpc_error).

Definition fleet_create (n : nat) (addr id opts : string) : create_reply :=
  let '(o, s') := CreateSandbox true md id opts (fleet n addr) in
  let made := bool_decide (rt_hosts (rn_runtime s') <> rt_hosts (rn_runtime (fleet n addr))) in
  match network n, o with
  | Some e, _ => CreateError e made
  | None, inr (ip, applied) => CreateReply ip applied
  | None, inl e => CreateError e made
  end.

Definition fleet_env (E : Env) : Env := {|
  sql_fault := sql_fault; unix_now := unix_now; mono_now := mono_now; ctx_err := ctx_err; new_uuid := new_uuid;
  runner_create := fleet_create; runner_delete := runner_delete; runner_stop := runner_stop |}.

Lemma fleet_honest (E : Env) :
  (forall n e, network n = Some e -> IsCapacityRefusal (Some e) = false) -> HonestRunners (fleet_env E).
Proof.
  intros Hnet. split. intros n addr id opts e made. cbn [runner_create fleet_env]. unfold fleet_create. intros Hr Hc.
  pose proof (create_reply_wp true md id opts (fleet n addr)) as Hw. unfold wp, create_post in Hw.
  destruct (CreateSandbox true md id opts (fleet n addr)) as [o s'].
  destruct (network n) as [ne|] eqn:En; [injection Hr as -> _; specialize (Hnet n e En); congruence|].
  destruct o as [e'|[ip a]]; simplify_eq. destruct Hw as [Hw _].
  apply bool_decide_eq_false. intros Hne. by apply Hne, Hw.
Qed.
End fleet.

(** Two runners: "a" is full, "b" has room. *)
Definition two_runners : nat -> string -> runner (gset string) := fun _ addr =>
  if decide (addr = "runner-a:9000") then full_runner else mkRunnerState ∅ false false {["key"]} "b".

Definition two_runner_ops : list reg_op :=
  [ RegUpsert (mkHeartbeat "a" "https://a/" "runner-a:9000" true false 4 0 0) 0;
    RegUpsert (mkHeartbeat "b" "https://b/" "runner-b:9000" true false 4 1 0) 0 ].

Definition place_env (E : Env) : Env :=
  fleet_env (J := plain_json) (HRT := tiny_runtime) two_runners (Some ["key"]) (fun _ => None) E.

Definition place_reg : RegistryEnv := memory_env 0 (fun _ => two_runner_ops) (fun _ => 7).

Lemma place_sandbox_safe_witness :
  let m := placeSandbox (E := place_env StoreInv.StoreInv.quiet_env) (RE := place_reg) some_uuid "none" in
  let w := StoreInv.StoreInv.empty_world in
  w_hosted (m w).2 = {[("runner-b:9000", some_uuid)]} /\ exists tried,
    place_post (E := place_env StoreInv.StoreInv.quiet_env) some_uuid tried w (m w).1 (m w).2.
Proof.
  split; [apply (bool_decide_eq_true_1 _); vm_compute; reflexivity|].
  pose proof (@place_sandbox_safe (place_env StoreInv.StoreInv.quiet_env) place_reg _
    (fleet_honest (J := plain_json) (HRT := tiny_runtime) two_runners (Some ["key"]) (fun _ => None) StoreInv.StoreInv.quiet_env
       ltac:(intros n e Hne; discriminate Hne))
    some_uuid "none" StoreInv.StoreInv.empty_world) as H.
  unfold wp in H. destruct (placeSandbox _ _ _) as [o w']. exact H.
Defined.

End Placement.
