(* ===== verification/Config.v ===== *)
(** * Settings of the API server that its handlers and sweeper read
    ([internal/api/config/config.go], [internal/api/ttl.go])

    Durations are [time.Duration]: nanoseconds in an int64. *)

From S2P Require Import Prelude Quota World Registry.

Module Config.
Import Registry.

Record APIConfig := mkConfig {
  IdleStopAfter : Z;
  IdleDeleteAfter : Z;
  IdleDeleteSafetyBuffer : Z;
  OrphanReapBuffer : Z;
}.

Definition Minute : Z := 60 * Second.

(** The defaulting of [LoadAPI]: a deletion window never goes without a buffer. *)
Definition default_buffer (cfg : APIConfig) : APIConfig :=
  if decide ((IdleDeleteAfter cfg > 0 \/ IdleStopAfter cfg > 0) /\ IdleDeleteSafetyBuffer cfg <= 0)
  then mkConfig (IdleStopAfter cfg) (IdleDeleteAfter cfg) Minute (OrphanReapBuffer cfg)
  else cfg.

Definition orphanReapBuffer (cfg : APIConfig) : Z :=
  if decide (OrphanReapBuffer cfg <= 0) then 5 * Minute else OrphanReapBuffer cfg.

Definition ephemeralIdleWindow (cfg : APIConfig) : Z :=
  if decide (IdleStopAfter cfg > 0) then IdleStopAfter cfg else IdleDeleteAfter cfg.

(** Whole seconds, rounded up; Go's [/] and [%] truncate. *)
Definition idleSeconds (d : Z) : Z :=
  let secs := Z.quot d Second in
  if decide (Z.rem d Second <> 0) then wrap64 (secs + 1) else secs.

Definition isPastIdleDeleteWindow (rec : SandboxRecord) (cfg : APIConfig) (now : Z) : bool :=
  let window := if sr_Ephemeral rec then ephemeralIdleWindow cfg else IdleDeleteAfter cfg in
  bool_decide (window > 0) && bool_decide (now > wrap64 (sr_LastActiveAt rec + idleSeconds window)).

(** ** Rounding *)

(** [idleSeconds] is the ceiling, and never overflows: the largest duration is
    some 292 years. *)
Lemma idleSeconds_ceil d : 0 <= d <= int64_max -> idleSeconds d = (d + Second - 1) / Second.
Proof.
  unfold idleSeconds, int64_max, Second. intros Hd.
  rewrite Z.quot_div_nonneg, Z.rem_mod_nonneg by lia.
  pose proof (Z.div_mod d 1000000000 ltac:(lia)) as Hdm.
  pose proof (Z.mod_pos_bound d 1000000000 ltac:(lia)) as Hm.
  assert (Hq : 0 <= d / 1000000000 <= 9223372037) by (split; [apply Z.div_pos; lia|]; apply Z.div_le_upper_bound; lia).
  case_decide as Hr.
  - rewrite wrap64_small by (unfold in_int64, int64_min, int64_max; lia).
    apply (Z.div_unique _ _ _ (d mod 1000000000 - 1)); lia.
  - assert (d mod 1000000000 = 0) by (destruct (decide (d mod 1000000000 = 0)); [done|tauto]).
    apply (Z.div_unique _ _ _ 999999999); lia.
Qed.

Lemma idleSeconds_bounds d : 0 <= d <= int64_max -> 0 <= idleSeconds d <= 9223372037 /\ (0 < d -> 0 < idleSeconds d).
Proof.
  intros Hd. rewrite idleSeconds_ceil by done. unfold int64_max, Second in *. split; [split|].
  - apply Z.div_pos; lia.
  - apply Z.lt_succ_r, Z.div_lt_upper_bound; lia.
  - intros Hp. apply Z.div_str_pos. lia.
Qed.

(** The fence and the sweeper measure a window in whole seconds rounded up:
    [idleSeconds] never reports less time than the window, never a full second
    more, a positive window is never rounded to none, and no [time.Duration]
    overflows it. *)
Theorem idle_seconds_rounds_up d :
  0 <= d <= int64_max ->
  d <= idleSeconds d * Second < d + Second /\ in_int64 (idleSeconds d) /\ (0 < d -> 1 <= idleSeconds d).
Proof.
  intros Hd. pose proof (idleSeconds_bounds d Hd) as [Hb Hpos]. split; [|split].
  - rewrite idleSeconds_ceil by done. unfold Second.
    pose proof (Z.div_mod (d + 1000000000 - 1) 1000000000 ltac:(lia)).
    pose proof (Z.mod_pos_bound (d + 1000000000 - 1) 1000000000 ltac:(lia)). lia.
  - unfold in_int64, int64_min, int64_max. lia.
  - intros H. specialize (Hpos H). lia.
Qed.

Lemma idle_seconds_rounds_up_witness :
  int64_max <= idleSeconds int64_max * Second < int64_max + Second.
Proof. apply (idle_seconds_rounds_up int64_max). unfold int64_max. lia. Defined.

End Config.
