(* ===== verification/Sweeper.v ===== *)
(** * Idle sweeper ([internal/api/ttl.go])

    One pass stops idle sandboxes, deletes stopped ones past the delete window and
    ephemeral ones past theirs, and drops the rows of runners that are gone.
    Every candidate is handled under its sandbox lock with its row read again.
    The pool runs runners' groups side by side; the model runs the candidates one
    after the other, in the order of [groups] it is given; [SweepPool] has the pool. *)

From S2P Require Import Prelude GoStrings Quota World Store StoreInv Registry RunnerCtl Config.

Module Sweeper.
Import GoStrings Registry Store Config.

(** A runner call's error is told from a store error ([runnerCallError]). *)
Inductive sweep_error :=
| RunnerCallError (e : rpc_error)
| SweepStoreError (e : store_error).

Record sweepStats := mkStats {
  candidates : Z;
  acted : Z;
  skippedUnreachable : Z;
  failed : Z;
}.

Record sweepPool := mkPool {
  unreachable : gset string;
  stats : sweepStats;
}.

Definition runnerKey (rec : SandboxRecord) : string :=
  if decide (sr_RunnerID rec <> "") then sr_RunnerID rec else sr_RunnerControlGRPCAddr rec.

(** The groups in the order their first record is met, records in list order. *)
Fixpoint add_to_group (key : string) (rec : SandboxRecord) (gs : list (string * list SandboxRecord)) :
    list (string * list SandboxRecord) :=
  match gs with
  | [] => [(key, [rec])]
  | (k, l) :: gs' => if decide (k = key) then (k, l ++ [rec]) :: gs' else (k, l) :: add_to_group key rec gs'
  end.

Definition groupByRunner (records : list SandboxRecord) : list (string * list SandboxRecord) :=
  foldl (fun gs rec => add_to_group (runnerKey rec) rec gs) [] records.

(** [status.Code] of an error that is no status is Unknown. *)
Definition rpc_code (e : rpc_error) : Z :=
  match e with StatusError c _ _ => c | PlainError _ => codes_Unknown end.

Definition runnerUnreachable (e : sweep_error) : bool :=
  match e with
  | RunnerCallError e => bool_decide (rpc_code e = codes_Unavailable)
  | SweepStoreError _ => false
  end.

Section sweep.
Context {E : Env} {St : SandboxStore} {RE : RegistryEnv}.
Context (cfg : APIConfig).
#[local] Open Scope act_scope.

Definition sweepAction := SandboxRecord -> act world sweep_error bool.

(** A store call whose error ends the function. *)
Definition store_call {A} (m : act world store_error A) : act world sweep_error A :=
  let! o := try m in
  match o with inl e => exit (SweepStoreError e) | inr a => ret a end.

Definition resolveControlAddr {R} (rec : SandboxRecord) : act world R string :=
  if decide (sr_RunnerID rec <> "") then
    let! n := tick in
    ret match reg_get n (sr_RunnerID rec) with
        | Some run =>
            let addr := TrimSpace (r_ControlGRPCAddr run) in
            if decide (addr <> "") then addr else sr_RunnerControlGRPCAddr rec
        | None => sr_RunnerControlGRPCAddr rec
        end
  else ret (sr_RunnerControlGRPCAddr rec).

Definition orphanReapDue {R} (runnerID : string) : act world R bool :=
  if decide (runnerID = "") then ret false
  else let! n := tick in ret (reg_gone n runnerID (orphanReapBuffer cfg)).

(** The error of the store is logged and dropped. *)
Definition reapOrphanSandbox {R} (rec : SandboxRecord) : act world R unit :=
  let! _o := try (Delete (sr_ID rec)) in
  ret tt.

(** The row is gone, or handled by [fn] with the lock held. *)
Definition withLockedSandbox (id : string) (fn : sweepAction) : act world sweep_error (option bool) :=
  do! store_call (LockSandbox id) in
  let! r := store_call (Get id) in
  match r with
  | None => ret None
  | Some rec => let! b := fn rec in ret (Some b)
  end.

Definition deleteIdleSandbox (rec : SandboxRecord) : act world sweep_error bool :=
  let! due := orphanReapDue (sr_RunnerID rec) in
  if due then
    do! reapOrphanSandbox rec in
    ret true
  else
    let! controlAddr := resolveControlAddr rec in
    let! err := rpc_DeleteSandbox controlAddr (sr_ID rec) in
    match err with
    | Some e => exit (RunnerCallError e)
    | None =>
        do! store_call (Delete (sr_ID rec)) in
        ret true
    end.

Definition stopIdleSandbox (rec : SandboxRecord) : act world sweep_error bool :=
  let! due := orphanReapDue (sr_RunnerID rec) in
  if due then
    do! reapOrphanSandbox rec in
    ret true
  else
    let! controlAddr := resolveControlAddr rec in
    let! err := rpc_StopSandbox controlAddr (sr_ID rec) in
    match err with
    | Some e => exit (RunnerCallError e)
    | None =>
        do! store_call (UpdateStatus (sr_ID rec) "stopped") in
        ret true
    end.

Definition bump_acted (s : sweepStats) : sweepStats :=
  mkStats (candidates s) (acted s + 1) (skippedUnreachable s) (failed s).
Definition bump_failed (s : sweepStats) : sweepStats :=
  mkStats (candidates s) (acted s) (skippedUnreachable s) (failed s + 1).
Definition bump_skipped (n : Z) (s : sweepStats) : sweepStats :=
  mkStats (candidates s) (acted s) (skippedUnreachable s + n) (failed s).

(** [p.run(rec)]: [runnerUnreachable] is true of runner errors only, so it does
    not matter whether the error came from the lock or from the action. *)
Definition run {R} (fn : sweepAction) (rec : SandboxRecord) (p : sweepPool) : act world R sweepPool :=
  let! o := try (withLockedSandbox (sr_ID rec) fn) in
  ret match o with
      | inl e => mkPool (if runnerUnreachable e then {[runnerKey rec]} ∪ unreachable p else unreachable p)
                        (bump_failed (stats p))
      | inr (Some true) => mkPool (unreachable p) (bump_acted (stats p))
      | inr _ => p
      end.

(** The records after the probe: each is preceded by the context check and the
    look at [unreachable]. *)
Fixpoint submitRest {R} (fn : sweepAction) (key : string) (rest : list SandboxRecord) (p : sweepPool) :
    act world R sweepPool :=
  match rest with
  | [] => ret p
  | rec :: rest' =>
      let! cancelled := ctx_cancelled in
      if cancelled then ret p
      else if decide (key ∈ unreachable p) then
        ret (mkPool (unreachable p) (bump_skipped (Z.of_nat (length rest)) (stats p)))
      else
        let! p' := run fn rec p in
        submitRest fn key rest' p'
  end.

Definition submitRunner {R} (fn : sweepAction) (key : string) (group : list SandboxRecord) (p : sweepPool) :
    act world R sweepPool :=
  match group with
  | [] => ret p
  | first :: rest =>
      let! p' := run fn first p in
      submitRest fn key rest p'
  end.

Fixpoint submit {R} (fn : sweepAction) (groups : list (string * list SandboxRecord)) (p : sweepPool) :
    act world R sweepPool :=
  match groups with
  | [] => ret p
  | (key, group) :: groups' =>
      let! p' := submitRunner fn key group p in
      submit fn groups' p'
  end.

Definition sweepConcurrently {R} (records : list SandboxRecord) (fn : sweepAction) : act world R sweepStats :=
  let! p := submit fn (groupByRunner records)
              (mkPool ∅ (mkStats (Z.of_nat (length records)) 0 0 0)) in
  ret (stats p).

Definition zero_stats : sweepStats := mkStats 0 0 0 0.

(** [now.Unix() - idleSeconds(window) - idleSeconds(buffer)] *)
Definition delete_cutoff (now window : Z) : Z :=
  wrap64 (wrap64 (now - idleSeconds window) - idleSeconds (IdleDeleteSafetyBuffer cfg)).

Definition sweepIdleDeleteSandboxes {R} (now : Z) : act world R sweepStats :=
  let cutoff := delete_cutoff now (IdleDeleteAfter cfg) in
  let! o := try (ListForIdleReapDelete cutoff) in
  match o with
  | inl _ => ret zero_stats
  | inr records =>
      sweepConcurrently records (fun rec =>
        if decide (sr_Status rec <> "stopped" \/ sr_LastActiveAt rec > cutoff) then ret false
        else deleteIdleSandbox rec)
  end.

Definition sweepEphemeralSandboxes {R} (now : Z) : act world R sweepStats :=
  let cutoff := delete_cutoff now (ephemeralIdleWindow cfg) in
  let! o := try (ListForIdleReapStop cutoff true) in
  match o with
  | inl _ => ret zero_stats
  | inr records =>
      sweepConcurrently records (fun rec =>
        if decide (sr_Status rec <> "running" \/ sr_LastActiveAt rec > cutoff) then ret false
        else deleteIdleSandbox rec)
  end.

Definition sweepIdleStopSandboxes {R} (now : Z) : act world R sweepStats :=
  let stopCutoff := wrap64 (now - idleSeconds (IdleStopAfter cfg)) in
  let! o := try (ListForIdleReapStop stopCutoff false) in
  match o with
  | inl _ => ret zero_stats
  | inr records =>
      sweepConcurrently records (fun rec =>
        if decide (sr_Status rec <> "running" \/ sr_LastActiveAt rec > stopCutoff) then ret false
        else stopIdleSandbox rec)
  end.

(** [inl tt]: the context's error. *)
Definition sweepIdleSandboxes (now : Z) : act world unit unit :=
  do! (if decide (IdleStopAfter cfg > 0) then
         do! sweepIdleStopSandboxes now in ret tt
       else ret tt) in
  let! c1 := ctx_cancelled in
  if c1 then exit tt else
  do! (if decide (IdleDeleteAfter cfg > 0) then
         do! sweepIdleDeleteSandboxes now in ret tt
       else ret tt) in
  let! c2 := ctx_cancelled in
  if c2 then exit tt else
  if decide (ephemeralIdleWindow cfg > 0) then
    do! sweepEphemeralSandboxes now in ret tt
  else ret tt.
End sweep.

(** ** The fence

    What a pass may do to a row, a runner and the log, given what the tables held
    when it started ([w0]). *)

Section fence.
Context {E : Env} {St : SandboxStore} {HL : StoreLaws St} {RE : RegistryEnv}.
Context (cfg : APIConfig) (now : Z) (w0 : world).

(** Requests for it already get 404. *)
Definition past (r : SandboxRecord) : Prop := isPastIdleDeleteWindow r cfg now = true.
(** Idle for the stop window, and not ephemeral. *)
Definition idle_stop (r : SandboxRecord) : Prop :=
  0 < IdleStopAfter cfg /\ sr_Ephemeral r = false /\ sr_LastActiveAt r <= wrap64 (now - idleSeconds (IdleStopAfter cfg)).
(** Its runner was reported gone for longer than the buffer. *)
Definition orphan (r : SandboxRecord) : Prop :=
  exists n, reg_gone n (sr_RunnerID r) (orphanReapBuffer cfg) = true.

(** Stopped already, or due to be by this pass, or ephemeral. *)
Definition reclaimable (r : SandboxRecord) : Prop :=
  sr_Ephemeral r = true \/ 0 < IdleStopAfter cfg \/ sr_Status r = "stopped".

Definition row_ok (r : SandboxRecord) (o : option SandboxRecord) : Prop :=
  o = Some r \/
  (o = Some (set_status "stopped" r) /\ sr_Status r = "running" /\ idle_stop r) \/
  (o = None /\ (past r \/ orphan r) /\ reclaimable r).

Definition row0 (id : string) : option SandboxRecord := sandboxes (w_db w0) !! id.

Definition event_ok (e : event) : Prop :=
  match e with
  | EvCreate _ _ => False
  | EvDelete _ id => exists r, row0 id = Some r /\ past r
  | EvStop _ id => exists r, row0 id = Some r /\ idle_stop r
  end.

Record swept (w : world) : Prop := {
  sw_rows id : match row0 id with
               | None => sandboxes (w_db w) !! id = None
               | Some r => row_ok r (sandboxes (w_db w) !! id)
               end;
  sw_tenants : tenants (w_db w) = tenants (w_db w0);
  sw_keys : api_keys (w_db w) = api_keys (w_db w0);
  sw_log : exists evs, w_log w = evs ++ w_log w0 /\ Forall event_ok evs;
  sw_hosted_sub : w_hosted w ⊆ w_hosted w0;
  sw_hosted p : p ∈ w_hosted w0 -> p ∉ w_hosted w -> exists r, row0 p.2 = Some r /\ past r;
}.

(** The settings are loaded ones, and times are not astronomically large. *)
Record sane : Prop := {
  sane_stop : 0 <= IdleStopAfter cfg <= int64_max;
  sane_delete : 0 <= IdleDeleteAfter cfg <= int64_max;
  sane_buffer : 0 <= IdleDeleteSafetyBuffer cfg <= int64_max;
  sane_loaded : cfg = default_buffer cfg;
  sane_now : 0 <= now <= 2 ^ 62;
  sane_row id r : row0 id = Some r -> sr_ID r = id /\ 0 <= sr_LastActiveAt r <= 2 ^ 62 /\
    (sr_Ephemeral r = true -> sr_Status r <> "stopped");
}.
Context (Hsane : sane).

Lemma sane_buffer_pos : 0 < IdleStopAfter cfg \/ 0 < IdleDeleteAfter cfg -> 0 < IdleDeleteSafetyBuffer cfg.
Proof.
  intros Hw. pose proof (sane_loaded Hsane) as Hl. unfold default_buffer in Hl. case_decide; [|lia].
  rewrite Hl. simpl. unfold Minute, Second. lia.
Qed.

Lemma cutoff_past la window :
  0 <= la <= 2 ^ 62 -> 0 < window <= int64_max -> la <= delete_cutoff cfg now window ->
  0 < IdleDeleteSafetyBuffer cfg -> now > wrap64 (la + idleSeconds window).
Proof.
  intros Hla Hw Hc Hb. pose proof (sane_now Hsane) as Hnow. pose proof (sane_buffer Hsane) as Hbuf.
  destruct (idleSeconds_bounds window ltac:(lia)) as [Hwb _].
  destruct (idleSeconds_bounds (IdleDeleteSafetyBuffer cfg) ltac:(lia)) as [Hbb Hbp]. specialize (Hbp Hb).
  unfold delete_cutoff in Hc.
  rewrite !wrap64_small in Hc by (rewrite ?wrap64_small; unfold in_int64, int64_min, int64_max in *; lia).
  rewrite wrap64_small by (unfold in_int64, int64_min, int64_max; lia). lia.
Qed.

(** ** Every step of a pass keeps [swept] *)

Lemma swept_same w w' : w_db w' = w_db w -> only_db w w' -> swept w -> swept w'.
Proof. intros Hdb (Hh & Hlg & _) [H1 H2 H3 H4 H5 H6]. split; rewrite ?Hdb, ?Hh, ?Hlg; done. Qed.

Lemma swept_tick w : swept w -> swept (next_tick w).
Proof. by apply swept_same. Qed.

Lemma swept_reads {A} (m : act world store_error A) P (Q : store_error + A -> world -> Prop) w :
  reads m P -> swept w ->
  (forall o w', swept w' -> w_db w' = w_db w -> match o with inr a => P (w_db w) a | inl _ => True end -> Q o w') ->
  wp m Q w.
Proof.
  intros Hm Hs HQ. eapply wp_mono; [apply Hm|]. intros o w' (Hdb & Ho & HP).
  apply HQ; [by eapply swept_same|done|by destruct o].
Qed.

Lemma swept_delete id r w :
  row0 id = Some r -> past r \/ orphan r -> reclaimable r -> swept w ->
  wp (Delete id) (fun _ w' => swept w') w.
Proof.
  intros Hr Hwhy Hrec Hs. eapply wp_mono; [apply Delete_law|]. intros o w' [Hod Ho].
  assert (Hdb : w_db w' = w_db w \/ w_db w' = delete_sandbox id (w_db w)).
  { destruct o as [e|a]; [|by right]. destruct Ho as [[_ [?|?]]|[[] _]]; auto. }
  destruct Hdb as [Hdb|Hdb]; [by eapply swept_same|]. destruct Hs as [H1 H2 H3 H4 H5 H6].
  destruct Hod as (Hh & Hlg & _). split; rewrite ?Hdb, ?Hh, ?Hlg; try done; simpl.
  intros x. specialize (H1 x). destruct (decide (x = id)) as [->|Hne].
  - rewrite Hr, lookup_delete_eq. right. right. done.
  - by rewrite lookup_delete_ne.
Qed.

Lemma swept_stopped id r w :
  row0 id = Some r -> sr_Status r = "running" -> idle_stop r -> swept w ->
  wp (UpdateStatus id "stopped") (fun _ w' => swept w') w.
Proof.
  intros Hr Hrun Hidle Hs. eapply wp_mono; [apply UpdateStatus_law|]. intros o w' [Hod Ho].
  assert (Hdb : w_db w' = w_db w \/ w_db w' = update_status id "stopped" (w_db w)).
  { destruct o as [e|a]; [|by right]. destruct Ho as [[_ [?|?]]|[[] _]]; auto. }
  destruct Hdb as [Hdb|Hdb]; [by eapply swept_same|]. destruct Hs as [H1 H2 H3 H4 H5 H6].
  destruct Hod as (Hh & Hlg & _). split; rewrite ?Hdb, ?Hh, ?Hlg; try done; simpl.
  intros x. specialize (H1 x). rewrite lookup_alter. case_decide as Hx; [subst x|done].
  rewrite Hr in H1 |- *. destruct H1 as [-> |[[-> _]|[-> ?]]]; simpl; [right; left..|right; right]; done.
Qed.

Lemma swept_rpc_delete {R} addr id r (Q : R + option rpc_error -> world -> Prop) w :
  row0 id = Some r -> past r -> swept w ->
  (forall o w', swept w' -> Q (inr o) w') -> wp (rpc_DeleteSandbox addr id) Q w.
Proof.
  intros Hr Hp Hs HQ. unfold rpc_DeleteSandbox. apply wp_bind, wp_tick, wp_bind, wp_modify.
  assert (Hlog : swept (log_event (EvDelete addr id) (next_tick w))).
  { destruct Hs as [H1 H2 H3 (evs & Hl & Hev) H5 H6]. split; try done. exists (EvDelete addr id :: evs).
    simpl. rewrite Hl. split; [done|]. constructor; [simpl; eauto|done]. }
  assert (Hdel : swept (set_hosted (w_hosted w ∖ {[(addr, id)]}) (log_event (EvDelete addr id) (next_tick w)))).
  { destruct Hlog as [H1 H2 H3 H4 H5 H6]. split; try done; simpl in *; [set_solver|].
    intros p Hp0 Hp1. destruct (decide (p = (addr, id))) as [->|Hne]; [eauto|]. apply H6; [done|set_solver]. }
  destruct (runner_delete _ _ _) as [|e took]; wp_auto; apply HQ; [done|]. by destruct took.
Qed.

Lemma swept_rpc_stop {R} addr id r (Q : R + option rpc_error -> world -> Prop) w :
  row0 id = Some r -> idle_stop r -> swept w ->
  (forall o w', swept w' -> Q (inr o) w') -> wp (rpc_StopSandbox addr id) Q w.
Proof.
  intros Hr Hp Hs HQ. unfold rpc_StopSandbox. apply wp_bind, wp_tick, wp_bind, wp_modify.
  assert (Hlog : swept (log_event (EvStop addr id) (next_tick w))).
  { destruct Hs as [H1 H2 H3 (evs & Hl & Hev) H5 H6]. split; try done. exists (EvStop addr id :: evs).
    simpl. rewrite Hl. split; [done|]. constructor; [simpl; eauto|done]. }
  destruct (runner_stop _ _ _) as [|e took]; wp_auto; by apply HQ.
Qed.

Lemma swept_orphan_due {R} id (Q : R + bool -> world -> Prop) w :
  swept w ->
  (forall b w', swept w' -> w_db w' = w_db w -> (b = true -> exists n, reg_gone n id (orphanReapBuffer cfg) = true) -> Q (inr b) w') ->
  wp (orphanReapDue cfg id) Q w.
Proof.
  intros Hs HQ. unfold orphanReapDue. case_decide; wp_auto.
  - by apply HQ.
  - apply wp_tick, wp_ret. apply HQ; [by apply swept_tick|done|eauto].
Qed.

Lemma swept_resolve {R} rec (Q : R + string -> world -> Prop) w :
  swept w -> (forall a w', swept w' -> w_db w' = w_db w -> Q (inr a) w') -> wp (resolveControlAddr rec) Q w.
Proof.
  intros Hs HQ. unfold resolveControlAddr. case_decide; wp_auto; [apply wp_tick, wp_ret|];
    apply HQ; try done. by apply swept_tick.
Qed.

Lemma swept_store_call {A} (m : act world store_error A) w :
  wp m (fun _ w' => swept w') w -> wp (store_call m) (fun _ w' => swept w') w.
Proof.
  intros Hm. unfold store_call. wp_auto. eapply wp_mono; [apply Hm|]. intros [e|a] w' Hs; wp_auto; done.
Qed.

(** Both kinds of delete, of a row the fence already hides. *)
Lemma swept_deleteIdle rec r w :
  row0 (sr_ID rec) = Some r -> sr_RunnerID rec = sr_RunnerID r -> past r -> reclaimable r -> swept w ->
  wp (deleteIdleSandbox cfg rec) (fun _ w' => swept w') w.
Proof.
  intros Hr Hrun Hp Hrec Hs. unfold deleteIdleSandbox. apply wp_bind, swept_orphan_due; [done|].
  intros [|] w1 Hs1 _ Hgone.
  - unfold reapOrphanSandbox. wp_auto. eapply wp_mono; [eapply swept_delete; eauto|].
    intros o w' Hs'. by wp_auto.
  - apply wp_bind, swept_resolve; [done|]. intros a w2 Hs2 _.
    apply wp_bind. eapply swept_rpc_delete; [done..|]. intros [e|] w3 Hs3; wp_auto; [done|].
    eapply wp_mono; [apply swept_store_call; eapply swept_delete; eauto|].
    intros [e|b] w4 Hs4; wp_auto; done.
Qed.

Lemma swept_stopIdle rec r w :
  row0 (sr_ID rec) = Some r -> sr_RunnerID rec = sr_RunnerID r -> sr_Status r = "running" -> idle_stop r -> swept w ->
  wp (stopIdleSandbox cfg rec) (fun _ w' => swept w') w.
Proof.
  intros Hr Hrun Hst Hp Hs. unfold stopIdleSandbox. apply wp_bind, swept_orphan_due; [done|].
  intros [|] w1 Hs1 _ Hgone.
  - unfold reapOrphanSandbox. wp_auto. rewrite Hrun in Hgone.
    eapply wp_mono; [eapply swept_delete; [done|right; by apply Hgone|right; left; apply Hp|done]|].
    intros o w' Hs'. by wp_auto.
  - apply wp_bind, swept_resolve; [done|]. intros a w2 Hs2 _.
    apply wp_bind. eapply swept_rpc_stop; [done..|]. intros [e|] w3 Hs3; wp_auto; [done|].
    eapply wp_mono; [apply swept_store_call; eapply swept_stopped; eauto|].
    intros [e|b] w4 Hs4; wp_auto; done.
Qed.

(** *** One candidate, one runner, one phase *)

Definition fn_ok (fn : sweepAction) (id : string) : Prop :=
  forall w fresh, swept w -> sandboxes (w_db w) !! id = Some fresh -> wp (fn fresh) (fun _ w' => swept w') w.

Lemma swept_run {R} fn rec p w :
  fn_ok fn (sr_ID rec) -> swept w -> wp (run (R := R) fn rec p) (fun _ w' => swept w') w.
Proof.
  intros Hfn Hs. unfold run. apply wp_bind, wp_try. unfold withLockedSandbox, store_call. wp_auto.
  eapply swept_reads; [apply LockSandbox_law|done|]. intros [e|[]] w1 Hs1 _ _; wp_auto; [done|].
  eapply swept_reads; [apply Get_law|done|]. intros [e|o] w2 Hs2 Hdb Ho; wp_auto; try done.
  eapply wp_mono; [apply (Hfn w2); [done|congruence]|]. intros [e|b] w3 Hs3; wp_auto; done.
Qed.

Lemma swept_submitRest {R} fn key rest p w :
  Forall (fun rec => fn_ok fn (sr_ID rec)) rest -> swept w ->
  wp (submitRest (R := R) fn key rest p) (fun _ w' => swept w') w.
Proof.
  intros Hr. revert p w. induction Hr as [|rec rest Hrec Hrest IH]; intros p w Hs; simpl; wp_auto; [done|].
  apply wp_ctx_cancelled. destruct (ctx_err _); wp_auto; [by apply swept_tick|by apply swept_tick|].
  eapply wp_mono; [apply swept_run; [done|by apply swept_tick]|]. intros [e|p'] w' Hs'; [done|]. by apply IH.
Qed.

Lemma swept_submit {R} fn groups p w :
  Forall (fun g => Forall (fun rec => fn_ok fn (sr_ID rec)) g.2) groups -> swept w ->
  wp (submit (R := R) fn groups p) (fun _ w' => swept w') w.
Proof.
  intros Hg. revert p w. induction Hg as [|[key group] groups Hgr Hgs IH]; intros p w Hs; simpl; wp_auto; [done|].
  assert (Hone : wp (submitRunner (R := R) fn key group p) (fun _ w' => swept w') w).
  { simpl in Hgr. destruct Hgr as [|first rest Hf Hrest]; simpl; wp_auto; [done|].
    eapply wp_mono; [by apply swept_run|]. intros [e|p'] w' Hs'; [done|]. by apply swept_submitRest. }
  eapply wp_mono; [apply Hone|]. intros [e|p'] w' Hs'; [done|]. by apply IH.
Qed.

Lemma add_to_group_Forall (P : SandboxRecord -> Prop) key rec gs :
  P rec -> Forall (fun g : string * list SandboxRecord => Forall P g.2) gs ->
  Forall (fun g => Forall P g.2) (add_to_group key rec gs).
Proof.
  intros Hrec Hg. induction Hg as [|[k l] gs Hl Hgs IH]; simpl; [by repeat constructor|].
  case_decide; constructor; simpl; try done. by apply Forall_app; split; [|repeat constructor].
Qed.

Lemma groupByRunner_Forall (P : SandboxRecord -> Prop) records :
  Forall P records -> Forall (fun g => Forall P g.2) (groupByRunner records).
Proof.
  unfold groupByRunner. assert (H : Forall (fun g : string * list SandboxRecord => Forall P g.2) []) by constructor.
  revert H. generalize ([] : list (string * list SandboxRecord)) as gs.
  induction records as [|rec records IH]; intros gs Hg Hr; [done|]. inversion Hr; subst; simpl.
  apply IH; [|done]. by apply add_to_group_Forall.
Qed.

Lemma swept_concurrently {R} records fn w :
  Forall (fun rec => fn_ok fn (sr_ID rec)) records -> swept w ->
  wp (sweepConcurrently (R := R) records fn) (fun _ w' => swept w') w.
Proof.
  intros Hr Hs. unfold sweepConcurrently. wp_auto.
  eapply wp_mono; [apply swept_submit; [by apply groupByRunner_Forall|done]|].
  intros [e|p] w' Hs'; wp_auto; done.
Qed.

(** What a row read during the pass says about the row at its start. *)
Lemma swept_origin w id fresh :
  swept w -> sandboxes (w_db w) !! id = Some fresh ->
  exists r, row0 id = Some r /\ sr_ID fresh = id /\ sr_RunnerID fresh = sr_RunnerID r /\
    sr_Ephemeral fresh = sr_Ephemeral r /\ sr_LastActiveAt fresh = sr_LastActiveAt r /\
    (sr_Status fresh = "stopped" -> sr_Ephemeral r = false /\ reclaimable r) /\ (sr_Status fresh = "running" -> sr_Status r = "running").
Proof.
  intros Hs Hf. pose proof (sw_rows w Hs id) as Hrow. rewrite Hf in Hrow.
  destruct (row0 id) as [r|] eqn:E0; [|done]. destruct (sane_row Hsane id r E0) as (Hid & _ & Heph).
  exists r. split; [done|]. destruct Hrow as [Hrow|[(Hrow & _ & Hi)|[Hrow _]]]; simplify_eq; simpl.
  - do 4 (split; [done|]). split; [|done]. intros Hst. split; [|by right; right].
    destruct (sr_Ephemeral r) eqn:Ee; [|done]. by destruct (Heph eq_refl).
  - do 4 (split; [done|]). split; [|done]. intros _. split; [apply Hi|right; left; apply Hi].
Qed.

Lemma listed_row w rec (P : SandboxRecord -> Prop) `{!forall r, Decision (P r)} l :
  swept w -> l ≡ₚ filter P (sandbox_rows (w_db w)) -> rec ∈ l ->
  sandboxes (w_db w) !! sr_ID rec = Some rec /\ P rec.
Proof.
  intros Hs Hl Hin. rewrite Hl, list_elem_of_filter in Hin. destruct Hin as [HP Hin]. split; [|done].
  unfold sandbox_rows in Hin. apply list_elem_of_fmap in Hin as ([id x] & -> & Hin%elem_of_map_to_list).
  destruct (swept_origin w id x Hs Hin) as (r & _ & Hid & _). simpl. by rewrite Hid.
Qed.

Lemma swept_delete_phase {R} w :
  0 < IdleDeleteAfter cfg -> swept w -> wp (sweepIdleDeleteSandboxes (R := R) cfg now) (fun _ w' => swept w') w.
Proof.
  intros Hpos Hs. unfold sweepIdleDeleteSandboxes. wp_auto.
  eapply swept_reads; [apply ListForIdleReapDelete_law|done|]. intros [e|l] w1 Hs1 Hdb Hl; wp_auto; [done|].
  apply swept_concurrently; [|done]. apply Forall_forall. intros rec _ w2 fresh Hs2 Hf.
  destruct (swept_origin w2 _ fresh Hs2 Hf) as (r & Hr & Hid & Hrun & He & Hla & Hst & _).
  case_decide as Hskip; wp_auto; [done|].
  assert (Hstop : sr_Status fresh = "stopped") by (destruct (decide (sr_Status fresh = "stopped")); tauto).
  destruct (Hst Hstop) as [Heph Hrecl]. apply swept_deleteIdle with r; [by rewrite Hid|done| |done|done].
  unfold past, isPastIdleDeleteWindow. rewrite Heph, bool_decide_eq_true_2 by lia. simpl.
  apply bool_decide_eq_true_2. destruct (sane_row Hsane _ _ Hr) as (_ & Hrange & _). pose proof (sane_delete Hsane).
  apply cutoff_past; [lia|lia|lia|]. apply sane_buffer_pos. auto.
Qed.

Lemma swept_ephemeral_phase {R} w :
  0 < ephemeralIdleWindow cfg -> swept w -> wp (sweepEphemeralSandboxes (R := R) cfg now) (fun _ w' => swept w') w.
Proof.
  intros Hpos Hs. unfold sweepEphemeralSandboxes. wp_auto.
  eapply swept_reads; [apply ListForIdleReapStop_law|done|]. intros [e|l] w1 Hs1 Hdb Hl; wp_auto; [done|].
  apply swept_concurrently; [|done]. apply Forall_forall. intros rec Hrec w2 fresh Hs2 Hf.
  destruct (swept_origin w2 _ fresh Hs2 Hf) as (r & Hr & Hid & Hrun & He & Hla & Hst & _).
  rewrite <- Hdb in Hl. destruct (listed_row w1 rec _ l Hs1 Hl Hrec) as [Hin (_ & _ & Heph)].
  destruct (swept_origin w1 _ rec Hs1 Hin) as (r' & Hr' & _ & _ & He' & _).
  case_decide as Hskip; wp_auto; [done|]. assert (r' = r) as -> by congruence.
  apply swept_deleteIdle with r; [by rewrite Hid|done| |left; congruence|done].
  unfold past, isPastIdleDeleteWindow. rewrite <- He', Heph, bool_decide_eq_true_2 by lia. simpl.
  apply bool_decide_eq_true_2. destruct (sane_row Hsane _ _ Hr) as (_ & Hrange & _).
  pose proof (sane_delete Hsane). pose proof (sane_stop Hsane). pose proof sane_buffer_pos.
  unfold ephemeralIdleWindow in *. apply cutoff_past; [lia|case_decide; lia|lia|].
  apply sane_buffer_pos. case_decide; [left|right]; lia.
Qed.

Lemma swept_stop_phase {R} w :
  0 < IdleStopAfter cfg -> swept w -> wp (sweepIdleStopSandboxes (R := R) cfg now) (fun _ w' => swept w') w.
Proof.
  intros Hpos Hs. unfold sweepIdleStopSandboxes. wp_auto.
  eapply swept_reads; [apply ListForIdleReapStop_law|done|]. intros [e|l] w1 Hs1 Hdb Hl; wp_auto; [done|].
  apply swept_concurrently; [|done]. apply Forall_forall. intros rec Hrec w2 fresh Hs2 Hf.
  destruct (swept_origin w2 _ fresh Hs2 Hf) as (r & Hr & Hid & Hrun & He & Hla & _ & Hst).
  rewrite <- Hdb in Hl. destruct (listed_row w1 rec _ l Hs1 Hl Hrec) as [Hin (_ & _ & Heph)].
  destruct (swept_origin w1 _ rec Hs1 Hin) as (r' & Hr' & _ & _ & He' & _).
  case_decide as Hskip; wp_auto; [done|]. assert (r' = r) as -> by congruence.
  assert (Hstat : sr_Status fresh = "running") by (destruct (decide (sr_Status fresh = "running")); tauto).
  apply swept_stopIdle with r; [by rewrite Hid|done|auto| |done].
  split; [done|]. split; [congruence|]. rewrite <- Hla. lia.
Qed.

Lemma swept_start : swept w0.
Proof.
  split; try done; [|exists []; by split; [|constructor]].
  intros id. fold (row0 id). destruct (row0 id) eqn:Er; [by left|done].
Qed.

Lemma swept_pass : wp (sweepIdleSandboxes cfg now) (fun _ w' => swept w') w0.
Proof.
  unfold sweepIdleSandboxes.
  assert (Hopt : forall (P : Prop) `{Decision P} (m : act world unit sweepStats) w,
    (P -> swept w -> wp m (fun _ w' => swept w') w) -> swept w ->
    wp (if decide P then bind m (fun _ => ret tt) else ret tt) (fun _ w' => swept w') w).
  { intros P ? m w Hm Hs. case_decide; wp_auto; [|done]. eapply wp_mono; [by apply Hm|].
    intros [e|a] w' Hs'; wp_auto; done. }
  apply wp_bind. eapply wp_mono; [apply (Hopt _ _ _ w0); [|apply swept_start]|].
  { intros H Hs. apply swept_stop_phase; [lia|done]. }
  intros [e|[]] w1 Hs1; [done|]. apply wp_bind, wp_ctx_cancelled.
  destruct (ctx_err _); [apply wp_exit; by apply swept_tick|]. apply wp_bind.
  eapply wp_mono; [apply Hopt; [|by apply swept_tick]|].
  { intros H Hs. apply swept_delete_phase; [lia|done]. }
  intros [e|[]] w2 Hs2; [done|]. apply wp_bind, wp_ctx_cancelled.
  destruct (ctx_err _); [apply wp_exit; by apply swept_tick|].
  apply Hopt; [|by apply swept_tick]. intros H Hs. apply swept_ephemeral_phase; [lia|done].
Qed.
End fence.

(** C9: The sweeper never takes a sandbox from under a caller.  With settings as
    they are loaded, one pass over any tables, runners and failures leaves every
    row as it is, or stopped (only if it was running, not ephemeral and idle for
    the stop window), or removed, and then every request for it was already
    answered 404, or its runner had been gone for longer than the orphan buffer;
    it asks runners to delete only sandboxes of the first kind and to stop only
    idle ones, creates nothing, and touches neither tenants nor keys. *)
Theorem sweeper_respects_fence {E : Env} {St : SandboxStore} {HL : StoreLaws St} {RE : RegistryEnv} cfg now w0 :
  sane cfg now w0 -> wp (sweepIdleSandboxes cfg now) (fun _ w' => swept cfg now w0 w') w0.
Proof. apply swept_pass. Qed.

(** With idle stop off, no pass ever reclaims a running sandbox that is not
    ephemeral, however long it has been idle: its row stays as it is although,
    past the delete window, every request for it is answered 404. *)
Theorem running_never_deleted_without_idle_stop {E : Env} {St : SandboxStore} {HL : StoreLaws St} {RE : RegistryEnv}
    cfg now w0 id r :
  sane cfg now w0 -> IdleStopAfter cfg = 0 ->
  sandboxes (w_db w0) !! id = Some r -> sr_Status r = "running" -> sr_Ephemeral r = false ->
  wp (sweepIdleSandboxes cfg now) (fun _ w' => sandboxes (w_db w') !! id = Some r) w0.
Proof.
  intros Hs H0 Hr Hrun He. eapply wp_mono; [by apply swept_pass|]. intros o w' Hw.
  pose proof (sw_rows _ _ _ _ Hw id) as Hrow. unfold row0 in Hrow. rewrite Hr in Hrow.
  destruct Hrow as [?|[(_ & _ & Hi)|(_ & _ & Hrec)]]; [done| |].
  - destruct Hi as [Hi _]. lia.
  - destruct Hrec as [?|[?|?]]; [congruence|lia|congruence].
Qed.

(** ** A pass over three sandboxes *)

Definition idle_row (id status : string) (ephemeral : bool) (last : Z) : SandboxRecord :=
  mkSandboxRecord id status 0 last "" "" "10.0.0.2" 8081 "r1" "https://r1" "r1:9000" "t1" ephemeral "public".

Definition three_rows : world :=
  set_db (mkDB {["a" := idle_row "a" "running" false 0; "b" := idle_row "b" "stopped" false 0;
                 "c" := idle_row "c" "running" true 90000]} ∅ ∅) StoreInv.StoreInv.empty_world.

Definition hour : Z := 60 * Minute.
Definition day_cfg (stop : Z) : APIConfig := default_buffer (mkConfig stop (24 * hour) 0 0).
Definition no_registry : RegistryEnv := {|
  reg_pick _ _ := inl ErrNoRunners; reg_get _ _ := None; reg_gone _ _ _ := false |}.

Lemma three_rows_sane stop : 0 <= stop <= int64_max -> sane (day_cfg stop) 90060 three_rows.
Proof.
  intros Hstop. assert (Hc : day_cfg stop = mkConfig stop (24 * hour) Minute 0).
  { unfold day_cfg, default_buffer. rewrite decide_True; [done|]. cbn. unfold hour, Minute, Second. lia. }
  rewrite Hc. split; cbn [IdleStopAfter IdleDeleteAfter IdleDeleteSafetyBuffer OrphanReapBuffer];
    try (unfold hour, Minute, Second, int64_max in *; lia).
  - unfold default_buffer. rewrite decide_False; [done|]. cbn. unfold Minute, Second. lia.
  - intros id r Hr. unfold row0, three_rows in Hr. simpl in Hr.
    repeat (apply lookup_insert_Some in Hr as [[<- <-]|[_ Hr]]; [simpl; repeat split; try done; lia|]).
    apply lookup_singleton_Some in Hr as [<- <-]. simpl. repeat split; try done; lia.
Qed.

Lemma sweeper_respects_fence_witness :
  let m := sweepIdleSandboxes (E := StoreInv.StoreInv.quiet_env) (St := SQLiteStore (H := StoreInv.StoreInv.quiet_env))
             (RE := no_registry) (day_cfg hour) 90060 in
  sr_Status <$> sandboxes (w_db (m three_rows).2) !! "a" = None /\
  sandboxes (w_db (m three_rows).2) !! "b" = None /\
  sr_Status <$> sandboxes (w_db (m three_rows).2) !! "c" = Some "running" /\
  swept (RE := no_registry) (day_cfg hour) 90060 three_rows (m three_rows).2.
Proof.
  do 3 (split; [vm_compute; reflexivity|]).
  pose proof (sweeper_respects_fence (E := StoreInv.StoreInv.quiet_env)
    (St := SQLiteStore (H := StoreInv.StoreInv.quiet_env)) (RE := no_registry) (day_cfg hour) 90060 three_rows
    (three_rows_sane hour ltac:(unfold hour, Minute, Second, int64_max; lia))) as H.
  unfold wp in H. destruct (sweepIdleSandboxes _ _ _) as [o w']. exact H.
Defined.

Lemma running_never_deleted_without_idle_stop_witness :
  isPastIdleDeleteWindow (idle_row "a" "running" false 0) (day_cfg 0) 90060 = true /\
  wp (sweepIdleSandboxes (E := StoreInv.StoreInv.quiet_env) (St := SQLiteStore (H := StoreInv.StoreInv.quiet_env))
        (RE := no_registry) (day_cfg 0) 90060)
     (fun _ w' => sandboxes (w_db w') !! "a" = Some (idle_row "a" "running" false 0)) three_rows.
Proof.
  split; [vm_compute; reflexivity|].
  apply (running_never_deleted_without_idle_stop (day_cfg 0) 90060 three_rows "a" (idle_row "a" "running" false 0));
    [apply three_rows_sane; unfold int64_max; lia|vm_compute; reflexivity|reflexivity|reflexivity|reflexivity].
Defined.

End Sweeper.
