(* ===== verification/Auth.v ===== *)
(** * Requests, responses and authentication
    ([internal/api/middleware_auth.go], [internal/probes])

    A request as its handlers read it, the responses they write, the middleware
    that gives a caller its role, and the checks handlers make on it. *)

From S2P Require Import Prelude GoStrings Ids Quota World Store StoreInv Config.

Module Auth.
Import GoStrings Ids Store.

(** ** Roles *)

Inductive authRole := roleAdmin | roleProvisioner | roleScaler | roleTenant.
#[global] Instance authRole_eq_dec : EqDecision authRole.
Proof. solve_decision. Defined.

Record authIdentity := mkIdentity { Role : authRole; TenantID : string }.
#[global] Instance authIdentity_eq_dec : EqDecision authIdentity.
Proof. solve_decision. Defined.

(** ** Responses

    An error carries its text before [sanitizeError]; [reason] and [retry_after]
    are empty unless the error sets them. *)

Inductive message :=
| Msg (text : string)
| MsgStore (prefix : string) (e : store_error)
| MsgRPC (prefix : string) (e : rpc_error).

Record SandboxResponse := mkSandboxResponse {
  resp_ID : string;
  resp_Status : string;
  resp_CreatedAt : Z;
  resp_LastActiveAt : Z;
  resp_Ephemeral : bool;
  resp_Egress : string;
  resp_TenantID : string;
}.

Record apiKeyResponse := mkKeyResponse {
  kresp_ID : string;
  kresp_TenantID : string;
  kresp_Prefix : string;
  kresp_CreatedAt : Z;
  kresp_RevokedAt : Z;
  kresp_APIKey : string;
}.

Inductive response :=
| RError (code : Z) (msg : message) (reason retry_after : string)
| RSandbox (code : Z) (r : SandboxResponse)
| RSandboxes (l : list SandboxResponse)
| RTenant (code : Z) (t : Tenant) (key : option apiKeyResponse)
| RTenants (l : list Tenant)
| RKeys (l : list apiKeyResponse)
| RKey (k : apiKeyResponse)
| RNoContent
| RProxied (status : Z).

Definition writeError (code : Z) (text : string) : response := RError code (Msg text) "" "".

(** ** [path.Match], with [*] the only special character of the patterns used *)

Definition star : ascii := byte 42.
Definition slash : ascii := byte 47.

Fixpoint glob (p : list ascii) : list ascii -> bool :=
  match p with
  | [] => fun l => match l with [] => true | _ => false end
  | a :: p' =>
      if decide (a = star) then
        fix stars (l : list ascii) : bool :=
          glob p' l || match l with c :: l' => bool_decide (c <> slash) && stars l' | [] => false end
      else fun l => match l with c :: l' => bool_decide (c = a) && glob p' l' | [] => false end
  end.

Definition path_Match (pattern name : string) : bool := glob (chars pattern) (chars name).

Definition scalerMayCall (urlPath : string) : bool :=
  existsb (fun pattern => path_Match pattern urlPath) ["/admin/runners"; "/admin/runners/*/cordon"].

Definition provisionerPathPrefix : string := "/admin/tenants".

(** [publicPaths.Public(r)] *)
Definition Public (method path : string) : bool :=
  bool_decide (path ∈ ["/healthz"; "/metrics"]) && (bool_decide (method = "GET") || bool_decide (method = "HEAD")).

Definition substring (n m : nat) (s : string) : string := String.substring n m s.

Definition apiKeyPrefix (plaintext : string) : string :=
  if (12 <=? String.length plaintext)%nat && String.eqb (substring 0 4 plaintext) "sbk_"
  then substring 4 8 plaintext
  else if (8 <=? String.length plaintext)%nat then substring 0 8 plaintext
  else plaintext.

Record request := mkRequest {
  rq_method : string;
  rq_path : string;
  rq_key : string;   (* the X-Api-Key header, "" when absent *)
}.

(** The environment's SHA-256, and the answers of the key cache: [Some] is an
    unexpired entry ([KeyCache] is the cache itself; a nil cache never answers). *)
Class KeyEnv := {
  hashAPIKey : string -> string;
  cache_hit : nat -> string -> option string;
}.

Section auth.
Context {St : SandboxStore} {KE : KeyEnv}.
Context (adminKeys provisionerKeys scalerKeys : gset string).
#[local] Open Scope act_scope.

Definition constantTimeContains (allowed : gset string) (key : string) : bool := bool_decide (key ∈ allowed).

Definition lookupTenantKey (key keyHash : string) : act world store_error string :=
  let! candidates := ListActiveAPIKeysByPrefix (apiKeyPrefix key) in
  ret match filter (fun c => k_KeyHash c = keyHash) candidates with
      | c :: _ => k_TenantID c
      | [] => ""
      end.

(** [keyCache.lookup(keyHash, load)] *)
Definition cached_lookup (key keyHash : string) : act world store_error string :=
  let! n := tick in
  match cache_hit n keyHash with
  | Some tenantID => ret tenantID
  | None => lookupTenantKey key keyHash
  end.

(** [inl]: the response the middleware writes itself; [inr]: the request goes on
    to its handler, with the identity put in its context. *)
Definition AuthMiddleware (r : request) : act world response (option authIdentity) :=
  if Public (rq_method r) (rq_path r) then ret None
  else
    let key := rq_key r in
    if decide (key = "") then exit (writeError 401 "missing X-Api-Key header")
    else if constantTimeContains adminKeys key then ret (Some (mkIdentity roleAdmin ""))
    else if constantTimeContains provisionerKeys key then
      if negb (HasPrefix (rq_path r) provisionerPathPrefix)
      then exit (writeError 403 "provisioner API key may only manage tenants")
      else ret (Some (mkIdentity roleProvisioner ""))
    else if constantTimeContains scalerKeys key then
      if negb (scalerMayCall (rq_path r))
      then exit (writeError 403 "scaler API key may only list and cordon runners")
      else ret (Some (mkIdentity roleScaler ""))
    else
      let! o := try (cached_lookup key (hashAPIKey key)) in
      match o with
      | inl _ => exit (writeError 500 "auth lookup failed")
      | inr tenantID =>
          if decide (tenantID <> "") then ret (Some (mkIdentity roleTenant tenantID))
          else exit (writeError 401 "invalid API key")
      end.

(** ** The checks of handlers, on [authFromContext] *)

Definition requireAdmin {W} (id : option authIdentity) : act W response unit :=
  match id with
  | Some i => if decide (Role i = roleAdmin) then ret tt else exit (writeError 403 "admin API key required")
  | None => exit (writeError 403 "admin API key required")
  end.

Definition requireAdminOrProvisioner (id : option authIdentity) : act world response authRole :=
  match id with
  | Some i =>
      if decide (Role i = roleAdmin \/ Role i = roleProvisioner) then ret (Role i)
      else exit (writeError 403 "admin or provisioner API key required")
  | None => exit (writeError 403 "admin or provisioner API key required")
  end.

Definition requireAdminOrScaler {W} (id : option authIdentity) : act W response unit :=
  match id with
  | Some i =>
      if decide (Role i = roleAdmin \/ Role i = roleScaler) then ret tt
      else exit (writeError 403 "admin or scaler API key required")
  | None => exit (writeError 403 "admin or scaler API key required")
  end.

Definition canAccessSandbox (id : option authIdentity) (rec : SandboxRecord) : bool :=
  match id with
  | None => false
  | Some i =>
      if decide (Role i = roleAdmin) then true
      else bool_decide (Role i = roleTenant) && negb (IsAdminTenantID (sr_TenantID rec)) &&
           bool_decide (sr_TenantID rec = TenantID i)
  end.
End auth.

(** ** What a role proves about the caller *)

Section auth_laws.
Context {St : SandboxStore} {HL : StoreLaws St} {KE : KeyEnv}.
Context (adminKeys provisionerKeys scalerKeys : gset string).

(** An active key of the tables, found under its own prefix. *)
Definition active_key (key : string) (tid : string) (d : db) : Prop :=
  exists c, c ∈ active_key_rows (apiKeyPrefix key) d /\ k_KeyHash c = hashAPIKey key /\ k_TenantID c = tid.

Definition cached_key (key : string) (tid : string) : Prop := exists n, cache_hit n (hashAPIKey key) = Some tid.

Definition auth_ok (r : request) (d : db) (o : response + option authIdentity) : Prop :=
  match o with
  | inl resp => exists code msg, resp = RError code msg "" "" /\ code ∈ [401; 403; 500]
  | inr None => rq_path r ∈ ["/healthz"; "/metrics"]
  | inr (Some i) =>
      rq_key r <> "" /\
      match Role i with
      | roleAdmin => rq_key r ∈ adminKeys
      | roleProvisioner => rq_key r ∈ provisionerKeys /\ rq_key r ∉ adminKeys /\
          HasPrefix (rq_path r) provisionerPathPrefix = true
      | roleScaler => rq_key r ∈ scalerKeys /\ rq_key r ∉ adminKeys /\ rq_key r ∉ provisionerKeys /\
          scalerMayCall (rq_path r) = true
      | roleTenant => rq_key r ∉ adminKeys /\ rq_key r ∉ provisionerKeys /\ rq_key r ∉ scalerKeys /\
          TenantID i <> "" /\ (cached_key (rq_key r) (TenantID i) \/ active_key (rq_key r) (TenantID i) d)
      end
  end.

Lemma lookupTenantKey_reads key :
  reads (lookupTenantKey key (hashAPIKey key)) (fun d tid => tid = "" \/ active_key key tid d).
Proof.
  intros w. unfold lookupTenantKey. apply wp_bind. eapply wp_mono; [apply ListActiveAPIKeysByPrefix_law|].
  intros [e|l] w' (Hdb & Ho & Hl); wp_auto; (split; [done|split; [done|]]); [done|].
  destruct (filter _ l) as [|c l'] eqn:Ef; [by left|right].
  assert (Hc : c ∈ filter (fun c => k_KeyHash c = hashAPIKey key) l) by (rewrite Ef; by left).
  apply list_elem_of_filter in Hc as [Hh Hc]. exists c. by rewrite Hl in Hc.
Qed.

(** Authentication is sound: a request reaches a handler as an admin,
    provisioner or scaler only with one of that role's configured keys (and, for
    the last two, only on the paths the role may call), as a tenant only with a
    key that is none of those and that the cache or the tables map to that
    tenant as active, and without an identity only on the two probe paths; every
    other request gets a 401, 403 or 500.  The tables do not change. *)
Theorem auth_middleware_sound (r : request) w :
  wp (AuthMiddleware adminKeys provisionerKeys scalerKeys r)
     (fun o w' => w_db w' = w_db w /\ only_db w w' /\ auth_ok r (w_db w) o) w.
Proof.
  assert (Herr : forall c t, (c = 401 \/ c = 403 \/ c = 500) -> auth_ok r (w_db w) (inl (writeError c t))).
  { intros c t Hc. exists c, (Msg t). split; [done|]. rewrite !elem_of_cons. naive_solver. }
  unfold AuthMiddleware, constantTimeContains. cbv zeta. destruct (Public _ _) eqn:Hpub.
  { wp_auto. split; [done|]. split; [done|]. apply andb_true_iff in Hpub as [Hp _].
    by apply bool_decide_eq_true in Hp. }
  case_decide as Hk; [wp_auto; split; [done|]; split; [done|auto]|].
  case_bool_decide as Ha; [wp_auto; split; [done|]; split; [done|]; simpl; done|].
  case_bool_decide as Hp; [wp_auto; (split; [done|]; split; [done|]); [auto|]; simpl; by apply negb_false_iff in Heqb|].
  case_bool_decide as Hs; [wp_auto; (split; [done|]; split; [done|]); [auto|]; simpl; by apply negb_false_iff in Heqb|].
  apply wp_bind, wp_try. unfold cached_lookup. apply wp_bind, wp_tick.
  destruct (cache_hit _ _) as [tid|] eqn:Hc.
  - wp_auto; (split; [done|]; split; [done|]); [|auto]. simpl. repeat split; try done. left. by eexists.
  - eapply wp_mono; [apply lookupTenantKey_reads|]. intros [e|tid] w' (Hdb & Ho & Ht); wp_auto;
      (split; [done|]; split; [done|]); [auto| |auto].
    simpl. repeat split; try done. right. by destruct Ht.
Qed.
End auth_laws.

(** A stand-in digest and an empty cache, enough to run the code. *)
Definition plain_keys : KeyEnv := {| hashAPIKey k := k; cache_hit _ _ := None |}.

Definition keyed_world : world :=
  set_db (mkDB ∅ {["t1" := mkTenant "t1" "acme" "" 2 0]}
            {["k1" := mkKeyRow "t1" "sbk_0123abcd_x" "0123abcd" 0 None]}) StoreInv.StoreInv.empty_world.

Lemma auth_middleware_sound_witness :
  let m := AuthMiddleware (St := SQLiteStore (H := StoreInv.StoreInv.quiet_env))
             (KE := plain_keys) {["root"]} ∅ ∅ (mkRequest "GET" "/sandboxes" "sbk_0123abcd_x") in
  (m keyed_world).1 = inr (Some (mkIdentity roleTenant "t1")) /\
  auth_ok (KE := plain_keys) {["root"]} ∅ ∅ (mkRequest "GET" "/sandboxes" "sbk_0123abcd_x") (w_db keyed_world) (m keyed_world).1.
Proof.
  split; [vm_compute; reflexivity|].
  pose proof (auth_middleware_sound (KE := plain_keys)
    (St := SQLiteStore (H := StoreInv.StoreInv.quiet_env)) {["root"]} ∅ ∅
    (mkRequest "GET" "/sandboxes" "sbk_0123abcd_x") keyed_world) as H.
  unfold wp in H. destruct (AuthMiddleware _ _ _ _ _) as [o w']. destruct H as (_ & _ & H). exact H.
Defined.

End Auth.
