(* ===== verification/Handlers.v ===== *)
(** * Sandbox handlers of the API ([internal/api/handlers.go])

    Create, get, list, delete and the proxy route, each as the whole handler: its
    guards, store calls, runner calls and compensations in the code's order.
    [auth] is the identity the middleware put in the request's context; the body
    of a create is what [encoding/json] made of it. *)

From S2P Require Import Prelude GoStrings Ids Quota World Store StoreInv Registry RunnerCtl Placement Config Auth.

Module Handlers.
Import GoStrings Ids Quota Registry RunnerCtl Placement Store Config Auth.

(** [req_Egress] is [None] when the field was left out. *)
Record createSandboxRequest := mkCreateRequest {
  req_ID : option string;
  req_Ephemeral : bool;
  req_Egress : option string;
}.

(** [None]: the body did not decode, or more followed it. *)
Definition create_body := option createSandboxRequest.

Definition sandboxResponse (rec : SandboxRecord) : SandboxResponse :=
  mkSandboxResponse (sr_ID rec) (sr_Status rec) (sr_CreatedAt rec) (sr_LastActiveAt rec) (sr_Ephemeral rec)
    (sr_Egress rec) (if IsAdminTenantID (sr_TenantID rec) then AdminTenantID else sr_TenantID rec).

(** The runner's answer to a proxied request. *)
Inductive upstream :=
| UpError (body_too_large : bool)
| UpResponse (status : Z) (gone : bool).

Class ProxyEnv := {
  proxy_reply : nat -> string -> string -> upstream;
  https_url : string -> bool;
}.

Section handlers.
Context {E : Env} {St : SandboxStore} {RE : RegistryEnv} {J : OptionsJSON} {PE : ProxyEnv}.
Context (cfg : APIConfig).
#[local] Open Scope act_scope.

(** [if err != nil { writeError(w, 500, err.Error()); return }] *)
Definition or_500 {A} (m : act world store_error A) : act world response A :=
  let! o := try m in
  match o with
  | inl e => exit (RError 500 (MsgStore "" e) "" "")
  | inr a => ret a
  end.

(** ** Tenant quota *)

Inductive reservation := Unlimited | ReservedAt (l : nat).

Definition with_quota {R A} (f : tenantQuota -> A * tenantQuota) : act world R A :=
  let! w := get in
  let '(a, q) := f (w_quota w) in
  do! modify (set_quota q) in
  ret a.

(** The reads of [quota.reserve]; [None] is a full quota. *)
Fixpoint reserve_reads (fuel read : nat) (tid : string) (limit : Z) (l : nat) (savedBefore : Z) :
    act world store_error (option reservation) :=
  let! o := try (CountByTenant tid) in
  match o with
  | inl e =>
      do! with_quota (fun q => (tt, stop_reading tid l q)) in
      exit e
  | inr n =>
      let! d := with_quota (reserve_decide tid limit l read savedBefore n) in
      match d with
      | Granted => ret (Some (ReservedAt l))
      | Refused => ret None
      | ReadAgain sb =>
          match fuel with
          | O => ret None
          | S fuel' => reserve_reads fuel' (S read) tid limit l sb
          end
      end
  end.

Definition reserve (tid : string) (limit : Z) : act world store_error (option reservation) :=
  if decide (limit <= 0) then ret (Some Unlimited)
  else
    let! p := with_quota (fun q => let '(l, sb, q') := reserve_enter tid q in ((l, sb), q')) in
    reserve_reads maxReads 1 tid limit p.1 p.2.

Definition releaseQuota {R} (tid : string) (res : reservation) (saved : bool) : act world R unit :=
  match res with
  | Unlimited => ret tt
  | ReservedAt l => with_quota (fun q => (tt, release tid l saved q))
  end.

(** ** Create *)

Definition writeExistingSandbox (existing : SandboxRecord) (egress : string) (egressGiven : bool) : response :=
  if egressGiven && negb (bool_decide (egress = sr_Egress existing))
  then RError 409 (Msg ("sandbox exists with egress " +:+ sr_Egress existing)) "" ""
  else RSandbox 200 (sandboxResponse existing).

Definition deleteSandboxRecord (rec : SandboxRecord) : act world response unit :=
  let! err := rpc_DeleteSandbox (sr_RunnerControlGRPCAddr rec) (sr_ID rec) in
  match err with
  | Some e => exit (RError 502 (MsgRPC "failed to delete container: " e) "" "")
  | None => or_500 (Delete (sr_ID rec))
  end.

(** The failure of the compensating delete is only logged. *)
Definition rollbackRunnerCreate {R} (controlAddr sandboxID : string) : act world R unit :=
  let! _err := rpc_DeleteSandbox controlAddr sandboxID in
  ret tt.

Definition new_record (id : string) (now : Z) (ip : string) (run : Runner) (tenantID : string)
    (ephemeral : bool) (egress : string) : SandboxRecord :=
  mkSandboxRecord id "running" now now "" "" ip 8081 (r_ID run) (TrimRight (r_HTTPBaseURL run) (byte 47))
    (r_ControlGRPCAddr run) tenantID ephemeral egress.

Definition place_failed (e : place_error) : response :=
  match e with
  | PlaceNoRunners => RError 503 (Msg "no sandbox runners are registered or available") "no_capacity" "1"
  | PlaceAtCapacity => RError 503 (Msg "sandbox runners are at capacity") "no_capacity" "1"
  | PlacePick => RError 500 (Msg "registry") "" ""
  | PlaceCreate e => RError 500 (MsgRPC "failed to create container: " e) "" ""
  | PlaceFuel => RError 500 (Msg "") "" ""
  end.

(** From the reservation to the response; the flag says whether the reservation
    was released already ([sync.Once] makes the deferred release a no-op then). *)
Definition create_reserved (auth : option authIdentity) (sandboxID egress : string) (egressGiven ephemeral : bool)
    (tenantID : string) (res : reservation) : act world (response * bool) (response * bool) :=
  let! now := time_now in
  let! p := try (placeSandbox sandboxID (json_marshal egress)) in
  match p with
  | inl e => exit (place_failed e, false)
  | inr (run, (ip, appliedJSON)) =>
      let controlAddr := r_ControlGRPCAddr run in
      if decide (ParseCreateOptions appliedJSON <> Some egress) then
        do! rollbackRunnerCreate controlAddr sandboxID in
        exit (writeError 502 "runner did not apply the requested egress", false)
      else
        let record := new_record sandboxID now ip run tenantID ephemeral egress in
        let! o := try (Create record) in
        match o with
        | inl err =>
            do! rollbackRunnerCreate controlAddr sandboxID in
            do! releaseQuota tenantID res
                  (negb (bool_decide (err = ErrTenantQuotaExceeded)) && negb (bool_decide (err = ErrTenantNotFound))) in
            let! g := try (Get sandboxID) in
            match g with
            | inr (Some existing) =>
                if negb (canAccessSandbox auth existing) then exit (writeError 409 "sandbox id unavailable", true)
                else ret (writeExistingSandbox existing egress egressGiven, true)
            | _ =>
                if decide (err = ErrTenantQuotaExceeded) then exit (writeError 403 "tenant sandbox quota exceeded", true)
                else if decide (err = ErrTenantNotFound) then exit (writeError 409 "tenant not found", true)
                else exit (RError 500 (MsgStore "failed to store sandbox: " err) "" "", true)
            end
        | inr _ =>
            do! releaseQuota tenantID res true in
            ret (RSandbox 201 (sandboxResponse record), true)
        end
  end.

(** The deferred [releaseQuota(false)]. *)
Definition with_release (tenantID : string) (res : reservation)
    (m : act world (response * bool) (response * bool)) : act world response response :=
  let! o := try m in
  let '(resp, released) := match o with inl x => x | inr x => x end in
  do! (if released : bool then ret tt else releaseQuota tenantID res false) in
  ret resp.

(** The part with a caller-supplied id: lock, look, and clear the way. *)
Definition claim_id (auth : option authIdentity) (id egress : string) (egressGiven : bool) : act world response unit :=
  if negb (isValidUUID id) then exit (writeError 400 "invalid sandbox id") else
  do! or_500 (LockSandbox id) in
  let! existing := or_500 (Get id) in
  match existing with
  | None => ret tt
  | Some rec =>
      if negb (canAccessSandbox auth rec) then exit (writeError 409 "sandbox id unavailable") else
      let! now := time_now in
      if negb (isPastIdleDeleteWindow rec cfg now) then exit (writeExistingSandbox rec egress egressGiven)
      else deleteSandboxRecord rec
  end.

(** The tenant a create is charged to, with its reservation. *)
Definition reserve_tenant (i : authIdentity) : act world response (string * reservation) :=
  if decide (Role i = roleTenant) then
    let! t := or_500 (GetTenant (TenantID i)) in
    match t with
    | None => exit (writeError 401 "invalid API key")
    | Some tenant =>
        let! res := or_500 (reserve (TenantID i) (t_MaxSandboxes tenant)) in
        match res with
        | None => exit (writeError 403 "tenant sandbox quota exceeded")
        | Some res => ret (TenantID i, res)
        end
    end
  else ret (AdminTenantID, Unlimited).

Definition handleCreateSandbox (auth : option authIdentity) (body : create_body) : act world response response :=
  match auth with
  | None => exit (writeError 401 "invalid API key")
  | Some i =>
      if decide (Role i <> roleAdmin /\ Role i <> roleTenant)
      then exit (writeError 403 "sandbox access requires an admin or tenant API key") else
      match body with
      | None => exit (writeError 400 "invalid request body")
      | Some req =>
          match ParseEgress (default "" (req_Egress req)) with
          | None => exit (writeError 400 "invalid egress")
          | Some egress =>
              let egressGiven := bool_decide (is_Some (req_Egress req)) in
              let! generated := fresh_uuid in
              let! sandboxID :=
                match req_ID req with
                | None => ret generated
                | Some id => do! claim_id auth id egress egressGiven in ret id
                end in
              let! tr := reserve_tenant i in
              with_release tr.1 tr.2
                (create_reserved auth sandboxID egress egressGiven (req_Ephemeral req) tr.1 tr.2)
          end
      end
  end.

(** ** Get, list, delete *)

Definition handleGetSandbox (auth : option authIdentity) (id : string) : act world response response :=
  if negb (isValidUUID id) then exit (writeError 400 "invalid sandbox id") else
  let! rec := or_500 (Get id) in
  match rec with
  | None => exit (writeError 404 "sandbox not found")
  | Some rec =>
      if negb (canAccessSandbox auth rec) then exit (writeError 404 "sandbox not found") else
      let! now := time_now in
      if isPastIdleDeleteWindow rec cfg now then exit (writeError 404 "sandbox not found")
      else ret (RSandbox 200 (sandboxResponse rec))
  end.

(** [values]: the [tenant_id] query parameters; "" is no filter. *)
Definition listTenantFilter (values : list string) (role : authRole) : act world response string :=
  match values with
  | [] => ret ""
  | _ =>
      if decide (role <> roleAdmin) then exit (writeError 403 "filtering by tenant_id requires an admin API key")
      else match values with
           | [tenantID] =>
               if decide (tenantID = AdminTenantID) then ret tenantID
               else if negb (isValidUUID tenantID)
               then exit (writeError 400 "invalid tenant_id: expected a tenant UUID or __admin__")
               else ret tenantID
           | _ => exit (writeError 400 "tenant_id may be given once")
           end
  end.

Definition handleListSandboxes (auth : option authIdentity) (values : list string) : act world response response :=
  match auth with
  | None => exit (writeError 401 "invalid API key")
  | Some i =>
      if decide (Role i <> roleAdmin /\ Role i <> roleTenant)
      then exit (writeError 403 "sandbox access requires an admin or tenant API key") else
      let! filter := listTenantFilter values (Role i) in
      let! records :=
        or_500 (if decide (Role i = roleTenant) then ListByTenant (TenantID i)
                else if decide (filter <> "") then ListByTenant filter
                else List) in
      ret (RSandboxes (sandboxResponse <$> records))
  end.

Definition handleDeleteSandbox (auth : option authIdentity) (id : string) : act world response response :=
  if negb (isValidUUID id) then exit (writeError 400 "invalid sandbox id") else
  do! or_500 (LockSandbox id) in
  let! rec := or_500 (Get id) in
  match rec with
  | None => exit (writeError 404 "sandbox not found")
  | Some rec =>
      if negb (canAccessSandbox auth rec) then exit (writeError 404 "sandbox not found") else
      do! deleteSandboxRecord rec in
      ret RNoContent
  end.

(** ** The proxy route *)

Definition reapSandboxIfRunnerGone {R} (id : string) (gone : bool) : act world R bool :=
  if gone then let! _o := try (Delete id) in ret true
  else ret false.

Definition markSandboxActive {R} (id : string) (statusCode : Z) : act world R unit :=
  if decide (statusCode >= 500) then ret tt
  else
    let! _a := try (UpdateLastActive id) in
    let! _b := try (UpdateStatus id "running") in
    ret tt.

(** [ModifyResponse] and [ErrorHandler] of the reverse proxy. *)
Definition serve_proxied (base id : string) : act world response response :=
  let! n := tick in
  match proxy_reply n base id with
  | UpError too_large =>
      exit (if too_large then writeError 400 "failed to read request body: http: request body too large"
            else writeError 503 "runner unavailable")
  | UpResponse status gone =>
      if decide (300 <= status < 400) then exit (writeError 502 "runner returned a redirect")
      else
        let! reaped := reapSandboxIfRunnerGone id gone in
        do! (if reaped : bool then ret tt else markSandboxActive id status) in
        ret (RProxied status)
  end.

Definition sandboxProxyHandler (auth : option authIdentity) (id : string) : act world response response :=
  if negb (isValidUUID id) then exit (writeError 400 "invalid sandbox id") else
  let! rec := or_500 (Get id) in
  match rec with
  | None => exit (writeError 404 "sandbox not found")
  | Some rec =>
      if negb (canAccessSandbox auth rec) then exit (writeError 404 "sandbox not found") else
      let! now := time_now in
      if isPastIdleDeleteWindow rec cfg now then exit (writeError 404 "sandbox not found")
      else if decide (sr_RunnerHTTPBase rec = "") then
        exit (writeError 502 "sandbox has no runner routing information")
      else
        let base := TrimRight (sr_RunnerHTTPBase rec) (byte 47) in
        if negb (https_url base) then exit (writeError 502 "sandbox runner is not reachable over https")
        else serve_proxied base id
  end.
End handlers.

End Handlers.
