(* ===== verification/HandlersInv.v ===== *)
(** * What the sandbox handlers guarantee

    Proved for any store that keeps [StoreLaws], any registry that keeps
    [RegistryLaws] and runners whose refusals are honest. *)

From S2P Require Import Prelude GoStrings Ids Quota World Store StoreInv Registry RunnerCtl Placement Config Auth Handlers.

Module HandlersInv.
Import GoStrings Ids Quota Registry RunnerCtl Placement Store Config Auth Handlers.

Section laws.
Context {E : Env} {St : SandboxStore} {RE : RegistryEnv} {J : OptionsJSON} {PE : ProxyEnv}.
Context {HL : StoreLaws St} {RL : RegistryLaws RE} {HR : HonestRunners E}.
Context (cfg : APIConfig).

(** ** Calls *)

(** The world as the store left it: only the tables may differ. *)
Lemma wp_or_500_reads {A} (m : act world store_error A) P (Q : response + A -> world -> Prop) w :
  reads m P ->
  (forall a w', w_db w' = w_db w -> only_db w w' -> P (w_db w) a -> Q (inr a) w') ->
  (forall e w', w_db w' = w_db w -> only_db w w' -> Q (inl (RError 500 (MsgStore "" e) "" "")) w') ->
  wp (or_500 m) Q w.
Proof.
  intros Hm Hok Herr. unfold or_500. wp_auto. eapply wp_mono; [apply Hm|].
  intros [e|a] w' (Hdb & Ho & HP); wp_auto; eauto.
Qed.

Lemma wp_or_500_writes {A} (m : act world store_error A) f r (Q : response + A -> world -> Prop) w :
  writes m f r ->
  (forall a w', only_db w w' -> f (w_db w) (w_db w') -> Q (inr a) w') ->
  (forall e w', only_db w w' -> (w_db w' = w_db w \/ f (w_db w) (w_db w')) -> Q (inl (RError 500 (MsgStore "" e) "" "")) w') ->
  wp (or_500 m) Q w.
Proof.
  intros Hm Hok Herr. unfold or_500. wp_auto. eapply wp_mono; [apply Hm|].
  intros [e|a] w' [Ho HP]; wp_auto; eauto. apply Herr; [done|]. tauto.
Qed.

Lemma wp_try_reads {A R} (m : act world store_error A) P (Q : R + (store_error + A) -> world -> Prop) w :
  reads m P ->
  (forall o w', w_db w' = w_db w -> only_db w w' -> match o with inr a => P (w_db w) a | inl _ => True end -> Q (inr o) w') ->
  wp (try m) Q w.
Proof.
  intros Hm HQ. apply wp_try. eapply wp_mono; [apply Hm|]. intros o w' (Hdb & Ho & HP). apply HQ; try done. by destruct o.
Qed.

(** A delete call: the runner drops the sandbox, or says it failed. *)
Definition same_but_hosted (w w' : world) : Prop := w_db w' = w_db w /\ w_quota w' = w_quota w.

Lemma wp_rpc_delete {R} addr id (Q : R + option rpc_error -> world -> Prop) w :
  (forall w', same_but_hosted w w' -> w_hosted w' = w_hosted w ∖ {[(addr, id)]} ->
     w_log w' = EvDelete addr id :: w_log w -> Q (inr None) w') ->
  (forall e took w', same_but_hosted w w' -> runner_delete (w_tick w) addr id = CallError e took ->
     w_hosted w' = (if took : bool then w_hosted w ∖ {[(addr, id)]} else w_hosted w) ->
     w_log w' = EvDelete addr id :: w_log w -> Q (inr (Some e)) w') ->
  wp (rpc_DeleteSandbox addr id) Q w.
Proof.
  intros Hok Herr. unfold rpc_DeleteSandbox. apply wp_bind, wp_tick, wp_bind, wp_modify.
  destruct (runner_delete (w_tick w) addr id) as [|e took] eqn:Er; wp_auto.
  - by apply Hok.
  - by destruct took; eapply Herr.
Qed.

(** ** The quota around a create *)

(** Only the quota may differ. *)
Definition same_store (w w' : world) : Prop :=
  w_db w' = w_db w /\ w_hosted w' = w_hosted w /\ w_log w' = w_log w.

(** Releasing [res] forgets everything the reservation added. *)
Definition releases (tid : string) (res : reservation) (q0 q : tenantQuota) : Prop :=
  match res with
  | Unlimited => q_tenants q = q_tenants q0
  | ReservedAt l => forall b, q_tenants (release tid l b q) = q_tenants q0
  end.

Lemma reserve_wp tid limit w :
  q_tenants (w_quota w) !! tid = None ->
  wp (reserve tid limit) (fun o w' => same_store w w' /\
    match o with
    | inr (Some res) => releases tid res (w_quota w) (w_quota w')
    | _ => q_tenants (w_quota w') = q_tenants (w_quota w)
    end) w.
Proof.
  intros Hn. unfold reserve. case_decide; [by wp_auto|]. unfold with_quota at 1. apply wp_bind, wp_bind, wp_get.
  pose proof (enter_stop_alone (w_quota w) tid Hn) as Hstop.
  pose proof (fun n b => reserve_decide_alone (w_quota w) tid limit n b Hn) as Hdec.
  destruct (reserve_enter tid (w_quota w)) as [[l sb] q1]. do 2 wp_step. wp_step. simpl. apply wp_bind, wp_try.
  eapply wp_mono; [apply CountByTenant_law|]. intros [e|n] w1 (Hdb & (Hh & Hlg & Hq) & _).
  { unfold with_quota. wp_auto. unfold same_store. simpl. by rewrite Hdb, Hh, Hlg, Hq. }
  unfold with_quota. apply wp_bind, wp_bind, wp_get. rewrite Hq. simpl.
  pose proof (Hdec n true) as Ht. pose proof (Hdec n false) as Hf.
  destruct (reserve_decide tid limit l 1 sb n q1) as [d q2]. destruct Ht as [-> Ht], Hf as [_ Hf].
  destruct (decide (n < limit)); wp_auto; (split; [by unfold same_store; simpl; rewrite Hdb, Hh, Hlg|]); simpl; [|done].
  intros [|]; done.
Qed.

(** Whatever other creates hold, a reserve changes nothing but the quota. *)
Lemma reserve_same_store tid limit w : wp (reserve tid limit) (fun _ w' => same_store w w') w.
Proof.
  assert (Hreads : forall fuel read l sb w1, same_store w w1 ->
    wp (reserve_reads fuel read tid limit l sb) (fun _ w' => same_store w w') w1).
  { intros fuel. induction fuel as [|fuel IH]; intros read l sb w1 (Hdb & Hh & Hlg); simpl; apply wp_bind;
      (eapply wp_try_reads; [apply CountByTenant_law|]); intros [e|n] w2 Hdb2 (Hh2 & Hlg2 & _) _;
      unfold with_quota; wp_auto; unfold same_store; simpl; rewrite ?Hdb2, ?Hh2, ?Hlg2; try done.
    apply IH. unfold same_store. simpl. by rewrite Hdb2, Hh2, Hlg2. }
  unfold reserve, with_quota. case_decide; wp_auto; [done|]. by apply Hreads.
Qed.

(** [idle]: no other create of the tenant was in progress when this one came. *)
Lemma releaseQuota_wp {R} (idle : Prop) tid res b q0 (Q : R + unit -> world -> Prop) w :
  (idle -> releases tid res q0 (w_quota w)) ->
  (forall w', same_store w w' -> (idle -> q_tenants (w_quota w') = q_tenants q0) -> Q (inr tt) w') ->
  wp (releaseQuota tid res b) Q w.
Proof.
  intros Hr HQ. unfold releaseQuota, with_quota. destruct res; wp_auto; apply HQ; simpl in *; try done.
  intros Hi. by apply Hr.
Qed.

(** ** Create *)

(** Every sandbox the runners host that they did not before has its row. *)
Definition tracked (w w' : world) : Prop :=
  forall addr id, (addr, id) ∈ w_hosted w' -> (addr, id) ∈ w_hosted w \/
    exists r, sandboxes (w_db w') !! id = Some r /\ sr_RunnerControlGRPCAddr r = addr.

Lemma tracked_sub w w' : w_hosted w' ⊆ w_hosted w -> tracked w w'.
Proof using. clear. intros Hs addr id Hin. left. set_solver. Qed.

(** The one sandbox [id] a create may leave without a row, and how it came to
    that.  Either the last call of the request is the create itself, which made
    the sandbox and reported an error all the same, and the answer is that
    error; or the last two calls are the create and the rollback of it, and the
    rollback failed without effect. *)
Definition left_behind (id : string) (w : world) (resp : response) (w' : world) : Prop :=
  exists addr rest, w_log w `suffix_of` rest /\
    (forall p, p ∈ w_hosted w' -> p ∈ w_hosted w \/ p = (addr, id)) /\
    ((exists e n opts, w_log w' = EvCreate addr id :: rest /\ resp = place_failed (PlaceCreate e) /\
        IsCapacityRefusal (Some e) = false /\ runner_create n addr id opts = CreateError e true) \/
     (exists e n, w_log w' = EvDelete addr id :: EvCreate addr id :: rest /\
        runner_delete n addr id = CallError e false /\ forall r, resp <> RSandbox 201 r)).

Definition accounted (id : string) (w : world) (resp : response) (w' : world) : Prop :=
  tracked w w' \/ left_behind id w resp w'.

(** Earlier steps of the request may drop sandboxes and add to the log. *)
Lemma accounted_earlier id w0 w resp w' :
  w_hosted w ⊆ w_hosted w0 -> w_log w0 `suffix_of` w_log w -> accounted id w resp w' -> accounted id w0 resp w'.
Proof using.
  clear. intros Hh Hl [Ht|(addr & rest & Hr & Hp & Hc)]; [left|right].
  - intros a x Hx. destruct (Ht a x Hx); [left; set_solver|by right].
  - exists addr, rest. split; [by etrans|]. split; [|done]. intros p Hin. destruct (Hp p Hin); [left; set_solver|by right].
Qed.

(** A later step that touches neither the runners, the log nor the rows. *)
Lemma accounted_later id w resp w1 w2 :
  w_db w2 = w_db w1 -> w_hosted w2 = w_hosted w1 -> w_log w2 = w_log w1 -> accounted id w resp w1 -> accounted id w resp w2.
Proof using. clear. unfold accounted, tracked, left_behind. intros -> -> ->. done. Qed.

Lemma create_events_last id tried run rest :
  last tried = Some run -> exists evs, create_events id tried ++ rest = EvCreate (r_ControlGRPCAddr run) id :: evs ++ rest.
Proof using.
  clear. intros [l ->]%last_Some. rewrite create_events_snoc. by eexists.
Qed.

Section create.
Context (auth : option authIdentity) (id egress : string) (egressGiven ephemeral : bool)
        (tid : string) (res : reservation) (q0 : tenantQuota) (idle : Prop).

(** What a response that shows a sandbox says about it. *)
Definition shown (w' : world) (resp : response) : Prop :=
  match resp with
  | RSandbox code r => exists rec, sandboxes (w_db w') !! id = Some rec /\ r = sandboxResponse rec /\
      ((code = 201 /\ (sr_RunnerControlGRPCAddr rec, id) ∈ w_hosted w' /\ sr_Egress rec = egress /\
        sr_TenantID rec = tid /\ sr_Ephemeral rec = ephemeral /\ sr_Status rec = "running") \/
       (code = 200 /\ canAccessSandbox auth rec = true /\ (egressGiven = true -> sr_Egress rec = egress)))
  | _ => True
  end.

Definition saved_row (d d' : db) : Prop :=
  exists now ip run, let rec := new_record id now ip run tid ephemeral egress in
    may_create rec d /\ d' = insert_sandbox rec d.

Definition reserved_post (w : world) (x : response * bool) (w' : world) : Prop :=
  accounted id w x.1 w' /\
  (w_db w' = w_db w \/ saved_row (w_db w) (w_db w')) /\
  (idle -> if x.2 then q_tenants (w_quota w') = q_tenants q0 else releases tid res q0 (w_quota w')) /\
  shown w' x.1.

Lemma existing_shown w' existing :
  sandboxes (w_db w') !! id = Some existing -> canAccessSandbox auth existing = true ->
  shown w' (writeExistingSandbox existing egress egressGiven).
Proof using.
  clear. intros Hr Hc. unfold writeExistingSandbox. destruct (_ && _) eqn:E; [done|].
  exists existing. split; [done|]. split; [done|]. right. split; [done|]. split; [done|].
  intros ->. simpl in E. apply negb_false_iff, bool_decide_eq_true in E. done.
Qed.

Lemma rollback_wp {R} addr (Q : R + unit -> world -> Prop) w :
  (forall w', same_but_hosted w w' -> w_log w' = EvDelete addr id :: w_log w ->
     w_hosted w' = w_hosted w ∖ {[(addr, id)]} \/
     (w_hosted w' = w_hosted w /\ exists e n, runner_delete n addr id = CallError e false) -> Q (inr tt) w') ->
  wp (rollbackRunnerCreate addr id) Q w.
Proof using.
  clear. intros HQ. unfold rollbackRunnerCreate. apply wp_bind, wp_rpc_delete; [intros; wp_auto; apply HQ; auto|].
  intros e [|] w' Hs Hd Hh Hl; wp_auto; apply HQ; eauto 6.
Qed.

(** After the rollback of a create at [run]: gone again, or left behind. *)
Lemma after_rollback_accounted tried run (w w1 w2 : world) resp :
  last tried = Some run -> w_hosted w1 = {[(r_ControlGRPCAddr run, id)]} ∪ w_hosted w ->
  w_log w1 = create_events id tried ++ w_log w ->
  w_log w2 = EvDelete (r_ControlGRPCAddr run) id :: w_log w1 ->
  w_hosted w2 = w_hosted w1 ∖ {[(r_ControlGRPCAddr run, id)]} \/
    (w_hosted w2 = w_hosted w1 /\ exists e n, runner_delete n (r_ControlGRPCAddr run) id = CallError e false) ->
  (forall r, resp <> RSandbox 201 r) -> accounted id w resp w2.
Proof using.
  clear. intros Hrun Hh1 Hl1 Hl2 [Hh2|(Hh2 & e & n & He)] Hr; [left; apply tracked_sub; set_solver|right].
  destruct (create_events_last id tried run (w_log w) Hrun) as [evs Hevs].
  exists (r_ControlGRPCAddr run), (evs ++ w_log w). split; [by eexists|]. split; [set_solver|].
  right. exists e, n. by rewrite Hl2, Hl1, Hevs.
Qed.

(** The store's error, after the runner create was undone. *)
Lemma after_store_error err w0 w :
  (forall resp, (forall r, resp <> RSandbox 201 r) -> accounted id w0 resp w) -> w_db w = w_db w0 \/ saved_row (w_db w0) (w_db w) ->
  (idle -> q_tenants (w_quota w) = q_tenants q0) ->
  wp (bind (try (Get id)) (fun g => match g with
        | inr (Some existing) =>
            if negb (canAccessSandbox auth existing) then exit (writeError 409 "sandbox id unavailable", true)
            else ret (writeExistingSandbox existing egress egressGiven, true)
        | _ =>
            if decide (err = ErrTenantQuotaExceeded) then exit (writeError 403 "tenant sandbox quota exceeded", true)
            else if decide (err = ErrTenantNotFound) then exit (writeError 409 "tenant not found", true)
            else exit (RError 500 (MsgStore "failed to store sandbox: " err) "" "", true)
        end)) (fun o w' => match o with inl x | inr x => reserved_post w0 x w' end) w.
Proof.
  intros Ht Hd Hq. apply wp_bind. eapply wp_try_reads; [apply Get_law|].
  intros o w' Hdb (Hh & Hlg & Hqq) Ho.
  assert (Hpost : forall resp, (forall r, resp <> RSandbox 201 r) -> shown w' resp -> reserved_post w0 (resp, true) w').
  { intros resp Hne Hs. unfold reserved_post. simpl. rewrite Hdb, Hqq.
    split; [by apply (accounted_later _ _ _ w); auto|done]. }
  destruct o as [e|[existing|]]; wp_auto; try (by apply Hpost).
  apply Hpost; [|apply existing_shown; [by rewrite Hdb|by apply negb_false_iff in Heqb]].
  intros r. unfold writeExistingSandbox. by destruct (_ && _).
Qed.

(** What a failed placement leaves. *)
Lemma place_failed_accounted tried e w w1 : place_post id tried w (inl e) w1 -> accounted id w (place_failed e) w1.
Proof using.
  clear. intros (Hdb & _ & Hlg & _ & _ & Hpl). destruct e; try (left; apply tracked_sub; destruct Hpl as [_ ->]; done);
    try (left; apply tracked_sub; rewrite Hpl; done); [|done].
  destruct Hpl as (run & Hlast & Hc & [Hh|[Hh (n & opts & Hm)]]); [left; apply tracked_sub; by rewrite Hh|right].
  destruct (create_events_last id tried run (w_log w) Hlast) as [evs Hevs].
  exists (r_ControlGRPCAddr run), (evs ++ w_log w). split; [by eexists|]. split; [set_solver|].
  left. exists e, n, opts. by rewrite Hlg, Hevs.
Qed.

Lemma create_reserved_wp w :
  (idle -> releases tid res q0 (w_quota w)) ->
  wp (create_reserved auth id egress egressGiven ephemeral tid res)
     (fun o w' => match o with inl x | inr x => reserved_post w x w' end) w.
Proof.
  intros Hq. unfold create_reserved. apply wp_bind, wp_time_now. apply wp_bind, wp_try.
  eapply wp_mono; [apply placeSandbox_wp|].
  intros [e|[run [ip aj]]] w1 (tried & Hpost); pose proof Hpost as (Hdb & Hqq & Hlg & _ & _ & Hpl); simpl in Hdb, Hqq, Hlg, Hpl.
  { wp_auto. unfold reserved_post; simpl. rewrite Hqq. split; [|split; [by left|split; [done|by destruct e]]].
    exact (place_failed_accounted _ _ _ _ Hpost). }
  destruct Hpl as [Hlast Hh]. case_decide as Happ.
  { apply wp_bind, rollback_wp. intros w2 [Hdb2 Hq2] Hl2 Hh2. wp_auto. unfold reserved_post; simpl.
    rewrite Hdb2, Hq2, Hqq, Hdb. split; [|split; [by left|done]]. by eapply after_rollback_accounted. }
  set (rec := new_record id _ ip run tid ephemeral egress).
  apply wp_bind, wp_try. eapply wp_mono; [apply Create_law|]. intros [err|[]] w2 [(Hh2 & Hl2 & Hq2) Ho]; simpl in Ho.
  - assert (Hdb2 : w_db w2 = w_db w \/ saved_row (w_db w) (w_db w2)).
    { rewrite <- Hdb. destruct Ho as [[_ [Ho|Ho]]|[_ Ho]]; [by left| |by left]. right. by do 3 eexists. }
    apply wp_bind, rollback_wp. intros w3 [Hdb3 Hq3] Hl3 Hh3. rewrite Hl2 in Hl3. rewrite Hh2 in Hh3.
    apply wp_bind. eapply releaseQuota_wp; [by rewrite Hq3, Hq2, Hqq|].
    intros w4 (Hdb4 & Hh4 & Hl4) Hq4. apply after_store_error; [|by rewrite Hdb4, Hdb3|done].
    intros resp Hne. eapply accounted_later; [exact Hdb4|done|done|]. by eapply after_rollback_accounted.
  - destruct Ho as [Hmay Hins]. apply wp_bind. eapply releaseQuota_wp; [by rewrite Hq2, Hqq|].
    intros w3 (Hdb3 & Hh3 & _) Hq3. wp_auto. unfold reserved_post; simpl.
    assert (Hrow : sandboxes (w_db w3) !! id = Some rec)
      by (rewrite Hdb3, Hins; exact (lookup_insert_eq (sandboxes (w_db w1)) (sr_ID rec) rec)).
    split; [|split; [|split; [done|]]].
    + left. intros addr x Hx. rewrite Hh3, Hh2, Hh in Hx. apply elem_of_union in Hx as [Hx|Hx]; [|by left].
      apply elem_of_singleton in Hx. simplify_eq. right. exists rec. done.
     + right. rewrite Hdb3, Hins. rewrite <- Hdb. do 3 eexists. split; [exact Hmay|reflexivity].
    + exists rec. split; [done|]. split; [done|]. left. rewrite Hh3, Hh2, Hh. repeat split; try done. set_solver.
Qed.
End create.

(** Clearing the way for a caller-supplied id removes at most an expired sandbox
    of the caller. *)
Definition cleared (auth : option authIdentity) (id : string) (d d' : db) : Prop :=
  d' = d \/ (d' = delete_sandbox id d /\ exists rec now, sandboxes d !! id = Some rec /\
    canAccessSandbox auth rec = true /\ isPastIdleDeleteWindow rec cfg now = true).

(** What the steps before the reservation may do to the world. *)
Definition claimed (auth : option authIdentity) (id : string) (w w' : world) : Prop :=
  w_quota w' = w_quota w /\ w_hosted w' ⊆ w_hosted w /\ w_log w `suffix_of` w_log w' /\ cleared auth id (w_db w) (w_db w').

Lemma claimed_same auth id w w' :
  w_db w' = w_db w -> only_db w w' -> claimed auth id w w'.
Proof using. clear. intros Hdb (Hh & Hl & Hq). unfold claimed. rewrite Hdb, Hh, Hl, Hq. repeat split; try done. by left. Qed.

(** The delete of the expired sandbox, the row last. *)
Lemma clear_expired_wp auth id rec now w :
  sandboxes (w_db w) !! id = Some rec -> sr_ID rec = id -> canAccessSandbox auth rec = true ->
  isPastIdleDeleteWindow rec cfg now = true ->
  wp (deleteSandboxRecord rec) (fun o w' => claimed auth id w w' /\
    match o with inl resp => forall code r, resp <> RSandbox code r | inr _ => True end) w.
Proof using HL.
  clear RL HR. intros Er Hid Hc Hpast. unfold deleteSandboxRecord. rewrite Hid. apply wp_bind, wp_rpc_delete.
  - intros w3 [Hdb3 Hq3] Hh3 Hl3.
    assert (Hcl : forall w4, only_db w3 w4 -> w_db w4 = w_db w3 \/ w_db w4 = delete_sandbox id (w_db w3) -> claimed auth id w w4).
    { intros w4 (Hh4 & Hl4 & Hq4) Hd4. unfold claimed. rewrite Hq4, Hq3, Hh4, Hh3, Hl4, Hl3. rewrite Hdb3 in Hd4.
      split; [done|]. split; [set_solver|]. split; [by exists [EvDelete (sr_RunnerControlGRPCAddr rec) id]|].
      destruct Hd4 as [-> | ->]; [by left|right]. split; [done|]. by exists rec, now. }
    eapply wp_or_500_writes; [apply Delete_law| |]; intros; split; try done; apply Hcl; auto.
  - intros e took w3 [Hdb3 Hq3] _ Hh3 Hl3. wp_auto. unfold claimed. rewrite Hq3, Hdb3, Hl3, Hh3.
    split; [|done]. split; [done|]. split; [destruct took; set_solver|].
    split; [by exists [EvDelete (sr_RunnerControlGRPCAddr rec) id]|by left].
Qed.

Lemma claim_id_wp auth id egress egressGiven ephemeral tid w :
  (forall x r, sandboxes (w_db w) !! x = Some r -> sr_ID r = x) ->
  wp (claim_id cfg auth id egress egressGiven) (fun o w' => claimed auth id w w' /\
    match o with inl resp => shown auth id egress egressGiven ephemeral tid w' resp /\ (forall r, resp <> RSandbox 201 r)
               | inr _ => isValidUUID id = true end) w.
Proof using HL.
  clear RL HR. intros Hkeys. unfold claim_id.
  destruct (isValidUUID id) eqn:Hv; simpl; [|wp_auto; split; [by apply claimed_same|done]].
  apply wp_bind. eapply wp_or_500_reads; [apply LockSandbox_law| |intros; split; [by apply claimed_same|done]].
  intros [] w1 Hdb1 Ho1 _. apply wp_bind. eapply wp_or_500_reads; [apply Get_law| |].
  2: { intros e w2 Hdb Ho2. split; [|done]. apply claimed_same; [congruence|by eapply only_db_trans]. }
  intros existing w2 Hdb2 Ho2 ->. pose proof (only_db_trans _ _ _ Ho1 Ho2) as Ho. rewrite Hdb1 in Hdb2 |- *.
  destruct (sandboxes (w_db w) !! id) as [rec|] eqn:Er; [|wp_auto; split; [by apply claimed_same|done]].
  destruct (canAccessSandbox auth rec) eqn:Hc; simpl; [|wp_auto; split; [by apply claimed_same|done]].
  apply wp_bind, wp_time_now. destruct (isPastIdleDeleteWindow rec cfg _) eqn:Hpast; simpl.
  - eapply wp_mono; [apply (clear_expired_wp auth id rec (unix_now (w_tick w2))); simpl; [by rewrite Hdb2|by eapply Hkeys|done|exact Hpast]|].
    intros o w3 [Hcl Hr]. split; [|destruct o as [resp|]; [|done]; destruct resp; try done; exfalso; by eapply Hr].
    destruct Ho as (Hh & Hl & Hq), Hcl as (Hq3 & Hh3 & Hl3 & Hc3). simpl in *.
    unfold claimed. rewrite <- Hdb2, Hq3, <- Hh, <- Hl. done.
  - wp_auto. split; [by apply claimed_same|]. split; [apply existing_shown; [simpl; by rewrite Hdb2|done]|].
    intros r. unfold writeExistingSandbox. by destruct (_ && _).
Qed.

(** The tenant a create is charged to. *)
Definition charged (i : authIdentity) : string := if decide (Role i = roleTenant) then TenantID i else AdminTenantID.

Lemma reserve_tenant_wp i w :
  wp (reserve_tenant i) (fun o w' => same_store w w' /\
    (q_tenants (w_quota w) !! charged i = None ->
     match o with
     | inr (tid, res) => releases tid res (w_quota w) (w_quota w')
     | inl _ => q_tenants (w_quota w') = q_tenants (w_quota w)
     end) /\
    match o with inr (tid, res) => tid = charged i | inl resp => forall code r, resp <> RSandbox code r end) w.
Proof using HL.
  clear RL HR. unfold reserve_tenant, charged. case_decide as Hr; [|wp_auto; by repeat split].
  apply wp_bind. eapply wp_or_500_reads; [apply GetTenant_law| |].
  2: { intros e w1 Hdb (Hh & Hlg & Hq). by rewrite Hq. }
  intros t w1 Hdb1 (Hh1 & Hlg1 & Hq1) _. destruct t as [tenant|]; [|wp_auto; by rewrite Hq1].
  apply wp_bind. unfold or_500. wp_auto.
  eapply wp_mono; [apply wp_conj; [apply reserve_same_store|]|].
  { instantiate (1 := fun o w' => q_tenants (w_quota w1) !! TenantID i = None ->
      match o with inr (Some res) => releases (TenantID i) res (w_quota w1) (w_quota w')
                 | _ => q_tenants (w_quota w') = q_tenants (w_quota w1) end).
    destruct (decide (q_tenants (w_quota w1) !! TenantID i = None)) as [Hn|Hn].
    - eapply wp_mono; [by apply reserve_wp|]. intros o w' [_ Ho] _. done.
    - unfold wp. by destruct (reserve _ _ _). }
  intros [e|[res|]] w2 [(Hdb2 & Hh2 & Hlg2) Hq2]; rewrite Hq1 in Hq2; wp_auto;
    (split; [unfold same_store; rewrite Hdb2, Hh2, Hlg2; done|split; [done|done]]).
Qed.

(** What a create did, for the request it read. *)
Definition create_effect (auth : option authIdentity) (body : create_body) (w : world) (resp : response) (w' : world) : Prop :=
  match auth, body with
  | Some i, Some req =>
      match ParseEgress (default "" (req_Egress req)) with
      | None => w_db w' = w_db w /\ forall code r, resp <> RSandbox code r
      | Some egress => exists id d,
          (forall x, req_ID req = Some x -> id = x) /\
          cleared auth id (w_db w) d /\
          (w_db w' = d \/ saved_row id egress (req_Ephemeral req) (charged i) d (w_db w')) /\
          shown auth id egress (bool_decide (is_Some (req_Egress req))) (req_Ephemeral req) (charged i) w' resp
      end
  | _, _ => w_db w' = w_db w /\ forall code r, resp <> RSandbox code r
  end.

Definition create_spec (auth : option authIdentity) (body : create_body) (w : world) (resp : response) (w' : world) : Prop :=
  (exists id, (forall req x, body = Some req -> req_ID req = Some x -> id = x) /\ accounted id w resp w') /\
  (forall i, auth = Some i -> q_tenants (w_quota w) !! charged i = None -> q_tenants (w_quota w') = q_tenants (w_quota w)) /\
  create_effect auth body w resp w'.

(** From the reservation on, whatever id the sandbox gets. *)
Lemma create_charged_wp auth i id egress egressGiven ephemeral (w0 w : world) d :
  w_db w = d -> w_hosted w ⊆ w_hosted w0 -> w_log w0 `suffix_of` w_log w -> w_quota w = w_quota w0 ->
  wp (bind (reserve_tenant i) (fun tr => with_release tr.1 tr.2
        (create_reserved auth id egress egressGiven ephemeral tr.1 tr.2)))
     (fun o w' => match o with inl resp | inr resp =>
        accounted id w0 resp w' /\
        (q_tenants (w_quota w0) !! charged i = None -> q_tenants (w_quota w') = q_tenants (w_quota w0)) /\
        (w_db w' = d \/ saved_row id egress ephemeral (charged i) d (w_db w')) /\
        shown auth id egress egressGiven ephemeral (charged i) w' resp end) w.
Proof.
  intros <- Hh Hl Hq. apply wp_bind. eapply wp_mono; [apply reserve_tenant_wp|].
  intros [resp|[tid res]] w1 [(Hdb1 & Hh1 & Hl1) [Hq1 Ho]].
  { rewrite Hq in Hq1. split; [|split; [done|split; [by left|]]].
    - left. apply tracked_sub. by rewrite Hh1.
    - destruct resp; try done. exfalso. by eapply Ho. }
  subst tid. rewrite Hq in Hq1. simpl. unfold with_release. apply wp_bind, wp_try.
  eapply wp_mono; [apply (create_reserved_wp auth id egress egressGiven ephemeral (charged i) res (w_quota w0)
    (q_tenants (w_quota w0) !! charged i = None) w1 Hq1)|].
  intros o w2 Ho2. assert (Hpost : reserved_post auth id egress egressGiven ephemeral (charged i) res (w_quota w0)
    (q_tenants (w_quota w0) !! charged i = None) w1 (match o with inl x | inr x => x end) w2) by (by destruct o).
  destruct (match o with inl x | inr x => x end) as [resp released] eqn:Ex.
  destruct Hpost as (Ht & Hd & Hqq & Hs). simpl in *. rewrite Hdb1 in Hd.
  assert (Htr : accounted id w0 resp w2) by (apply (accounted_earlier _ _ w1); [by rewrite Hh1|by rewrite Hl1|done]).
  apply wp_bind. destruct released; wp_auto; [done|].
  eapply releaseQuota_wp; [exact Hqq|]. intros w3 (Hdb3 & Hh3 & Hl3) Hq3. wp_auto.
  split; [by apply (accounted_later _ _ _ w2)|]. unfold shown in *. rewrite Hdb3, Hh3. done.
Qed.

Lemma handleCreate_wp auth body w :
  (forall x r, sandboxes (w_db w) !! x = Some r -> sr_ID r = x) ->
  wp (handleCreateSandbox cfg auth body) (fun o w' => match o with inl resp | inr resp => create_spec auth body w resp w' end) w.
Proof.
  intros Hkeys.
  assert (Hsome : forall resp w', w_hosted w' ⊆ w_hosted w ->
    exists id, (forall req x, body = Some req -> req_ID req = Some x -> id = x) /\ accounted id w resp w').
  { intros resp w' Hs. exists (match body with Some req => default "" (req_ID req) | None => "" end).
    split; [by intros req x -> ->|]. left. by apply tracked_sub. }
  assert (Hnone : forall resp, (forall code r, resp <> RSandbox code r) ->
    (match auth, body with Some i, Some req => ParseEgress (default "" (req_Egress req)) = None | _, _ => True end) ->
    create_spec auth body w resp w).
  { intros resp Hr Hb. split; [by apply Hsome|]. split; [done|].
    unfold create_effect. destruct auth; [|done]. destruct body; [|done]. by rewrite Hb. }
  unfold handleCreateSandbox. destruct auth as [i|]; [|wp_auto; by apply Hnone].
  case_decide as Hrole.
  { wp_auto. split; [by apply Hsome|]. split; [done|]. unfold create_effect.
    destruct body as [req|]; [|done]. destruct (ParseEgress _); [|done].
    exists (default "" (req_ID req)), (w_db w). split; [by intros x ->|]. split; [by left|]. split; [by left|done]. }
  destruct body as [req|]; [|wp_auto; by apply Hnone].
  destruct (ParseEgress (default "" (req_Egress req))) as [egress|] eqn:Heg; [|wp_auto; by apply Hnone].
  assert (Hspec : forall resp w' id d, accounted id w resp w' ->
    (q_tenants (w_quota w) !! charged i = None -> q_tenants (w_quota w') = q_tenants (w_quota w)) ->
    (forall x, req_ID req = Some x -> id = x) -> cleared (Some i) id (w_db w) d ->
    (w_db w' = d \/ saved_row id egress (req_Ephemeral req) (charged i) d (w_db w')) ->
    shown (Some i) id egress (bool_decide (is_Some (req_Egress req))) (req_Ephemeral req) (charged i) w' resp ->
    create_spec (Some i) (Some req) w resp w').
  { intros resp w' id d H1 H2 H3 H4 H5 H6. split; [exists id; split; [by intros ? x [= <-]; apply H3|done]|]. split; [by intros ? [= <-]|].
    unfold create_effect. rewrite Heg. by exists id, d. }
  apply wp_bind, wp_fresh_uuid. destruct (req_ID req) as [id|] eqn:Hid.
  - apply wp_bind, wp_bind. eapply wp_mono; [by apply (claim_id_wp _ id egress _ (req_Ephemeral req) (charged i))|].
    intros [resp|[]] w1 [(Hq1 & Hh1 & Hl1 & Hcl) Ho]; simpl in Hq1, Hh1, Hl1, Hcl.
    + apply (Hspec resp w1 id (w_db w1)); try done; [left; by apply tracked_sub|by rewrite Hq1|by intros x [= ->]|by left|apply Ho].
    + apply wp_ret. eapply wp_mono; [apply (create_charged_wp (Some i) i id egress _ (req_Ephemeral req) w w1 (w_db w1) eq_refl Hh1 Hl1 Hq1)|].
      intros [resp|resp] w2 (Ht & Hqq & Hd & Hs); apply (Hspec resp w2 id (w_db w1)); try done; by intros x [= ->].
  - apply wp_bind, wp_ret.
    eapply wp_mono; [apply (create_charged_wp (Some i) i (new_uuid (w_tick w)) egress _ (req_Ephemeral req) w (next_tick w) (w_db w)); done|].
    intros [resp|resp] w2 (Ht & Hqq & Hd & Hs); apply (Hspec resp w2 (new_uuid (w_tick w)) (w_db w)); try done; by left.
Qed.

(** ** Delete, list and proxy *)



(** What a proxied request did to the sandbox's row. *)
Definition proxy_spec (auth : option authIdentity) (id : string) (w : world) (resp : response) (w' : world) : Prop :=
  w_hosted w' = w_hosted w /\ w_log w' = w_log w /\
  (w_db w' = w_db w \/
   exists r now base n, sandboxes (w_db w) !! id = Some r /\ canAccessSandbox auth r = true /\
     isPastIdleDeleteWindow r cfg now = false /\
     ((w_db w' = delete_sandbox id (w_db w) /\ exists status, proxy_reply n base id = UpResponse status true) \/
      (exists status t, proxy_reply n base id = UpResponse status false /\ status < 500 /\ ~ 300 <= status < 400 /\
         resp = RProxied status /\
         w_db w' ∈ [update_last_active id t (w_db w); update_status id "running" (w_db w);
                    update_status id "running" (update_last_active id t (w_db w))]))).

Lemma active_wp {R} id status w :
  wp (markSandboxActive (R := R) id status) (fun o w' => o = inr tt /\ only_db w w' /\
    (w_db w' = w_db w \/ (status < 500 /\ exists t,
       w_db w' ∈ [update_last_active id t (w_db w); update_status id "running" (w_db w);
                  update_status id "running" (update_last_active id t (w_db w))]))) w.
Proof using HL.
  clear RL HR. unfold markSandboxActive. case_decide as Hst; [wp_auto; split; [done|]; split; [done|by left]|].
  apply wp_bind, wp_try. eapply wp_mono; [apply UpdateLastActive_law|]. intros o1 w1 [Ho1 Hd1].
  assert (Ha : exists t, w_db w1 = w_db w \/ w_db w1 = update_last_active id t (w_db w)).
  { destruct o1 as [e|[]]; [|destruct Hd1 as [t Hd1]; exists t; by right].
    destruct Hd1 as [[_ [Hd1|[t Hd1]]]|[[] _]]; [exists 0; by left|exists t; by right]. }
  destruct Ha as [t Ha]. apply wp_bind, wp_try. eapply wp_mono; [apply UpdateStatus_law|]. intros o2 w2 [Ho2 Hd2].
  assert (Hb : w_db w2 = w_db w1 \/ w_db w2 = update_status id "running" (w_db w1)).
  { destruct o2 as [e|[]]; [|by right]. destruct Hd2 as [[_ [Hd2|Hd2]]|[[] _]]; auto. }
  wp_auto. split; [done|]. split; [by eapply only_db_trans|].
  destruct Hb as [-> | ->], Ha as [-> | ->]; [by left|right..]; (split; [lia|]); exists t; rewrite !elem_of_cons; auto.
Qed.

Lemma proxy_wp auth id w :
  wp (sandboxProxyHandler cfg auth id) (fun o w' => match o with inl resp | inr resp => proxy_spec auth id w resp w' end) w.
Proof using HL.
  clear RL HR. unfold sandboxProxyHandler.
  assert (Hsame : forall resp w', w_db w' = w_db w -> only_db w w' -> proxy_spec auth id w resp w').
  { intros resp w' Hdb (Hh & Hlg & _). split; [done|]. split; [done|]. by left. }
  destruct (isValidUUID id); simpl; [|wp_auto; by apply Hsame].
  apply wp_bind. eapply wp_or_500_reads; [apply Get_law| |].
  2: { intros e w1 Hdb Ho. by apply Hsame. }
  intros rec w1 Hdb1 Ho1 ->. destruct (sandboxes (w_db w) !! id) as [r|] eqn:Er; [|wp_auto; by apply Hsame].
  destruct (canAccessSandbox auth r) eqn:Hc; simpl; [|wp_auto; by apply Hsame].
  apply wp_bind, wp_time_now. destruct (isPastIdleDeleteWindow r cfg _) eqn:Hpast; [wp_auto; by apply Hsame|].
  case_decide; [wp_auto; by apply Hsame|]. cbv zeta. destruct (https_url _); simpl; [|wp_auto; by apply Hsame].
  unfold serve_proxied. apply wp_bind, wp_tick. destruct (proxy_reply _ _ _) as [big|status gone] eqn:Ep; [wp_auto; by apply Hsame|].
  case_decide as Hredir; [wp_auto; by apply Hsame|]. simpl in *.
  unfold reapSandboxIfRunnerGone. destruct gone.
  - wp_auto. eapply wp_mono; [apply Delete_law|]. intros o w2 [(Hh2 & Hlg2 & _) Hd2]. simpl in *. wp_auto.
    destruct Ho1 as (Hh1 & Hlg1 & _). split; [congruence|]. split; [congruence|].
    assert (Hd : w_db w2 = w_db w \/ w_db w2 = delete_sandbox id (w_db w)).
    { rewrite Hdb1 in Hd2. destruct o as [e|[]]; [|by right]. destruct Hd2 as [[_ [?|?]]|[[] _]]; auto. }
    destruct Hd as [Hd|Hd]; [by left|right]. do 4 eexists. split; [done|]. split; [done|]. split; [done|]. left. eauto.
  - wp_auto. eapply wp_mono; [apply active_wp|]. intros o w2 (-> & (Hh2 & Hlg2 & _) & Hd2). simpl in *. rewrite Hdb1 in Hd2.
    destruct Ho1 as (Hh1 & Hlg1 & _). wp_auto. split; [congruence|]. split; [congruence|].
    destruct Hd2 as [Hd2|(Hst & t & Hd2)]; [by left|right]. do 4 eexists. split; [done|]. split; [done|]. split; [done|].
    right. exists status, t. done.
Qed.
End laws.

Section claims.
Context {E : Env} {St : SandboxStore} {RE : RegistryEnv} {J : OptionsJSON} {PE : ProxyEnv}.
Context {HL : StoreLaws St} {RL : RegistryLaws RE} {HR : HonestRunners E}.

(** The rows are stored under their own ids ([StoreInv]). *)
Definition rows_keyed (w : world) : Prop := forall x r, sandboxes (w_db w) !! x = Some r -> sr_ID r = x.

(** C1: A create leaves at most one sandbox without a row, and only where a
    runner leaves it no choice.  Whatever fails on the way (a full runner, an
    egress the runner did not apply, a store that refuses the row or loses its
    reply), every sandbox that is hosted afterwards and was not before has its
    row; or it is the one sandbox of this request, with the asked id, and
    either its runner made it while answering the create with an error that is
    no capacity refusal, after which no other runner is tried and that error is
    the answer, or the rollback was sent to its runner right after the create
    and failed there without effect, and the answer is not 201.  A capacity
    refusal means that nothing was created ([HonestRunners], which
    [fleet_honest] derives for the runner of this repository). *)
Theorem create_leaves_nothing_untracked cfg auth body w :
  rows_keyed w ->
  wp (handleCreateSandbox cfg auth body) (fun o w' => match o with inl resp | inr resp =>
    tracked w w' \/
    exists id, (forall req x, body = Some req -> req_ID req = Some x -> id = x) /\ left_behind id w resp w' end) w.
Proof.
  intros Hk. eapply wp_mono; [by apply handleCreate_wp|].
  by intros [r|r] w' ((id & Hid & [Ht|Hl]) & _); [left|right; exists id|left|right; exists id].
Qed.

(** C29: A create answers truthfully.  201 means the sandbox is saved under the
    asked id for the caller's tenant with the egress and lifetime it asked for,
    running, and hosted by the runner its row names; 200 shows a saved sandbox
    the caller may access, with the asked egress when one was given; and the
    tables only ever gain that one row, within the tenant's quota, and lose at
    most an expired sandbox of the caller that had the same id. *)
Theorem create_answers_truthfully cfg auth body w :
  rows_keyed w ->
  wp (handleCreateSandbox cfg auth body)
     (fun o w' => match o with inl resp | inr resp => create_effect cfg auth body w resp w' end) w.
Proof.
  intros Hk. eapply wp_mono; [by apply handleCreate_wp|]. by intros [r|r] w' (_ & _ & He).
Qed.

(** A create gives its quota reservation back on every path: when no other
    create of the tenant was in progress, the quota remembers nothing of this
    one once it has answered, whatever failed. *)
Theorem create_returns_reservation cfg i body w :
  rows_keyed w -> q_tenants (w_quota w) !! charged i = None ->
  wp (handleCreateSandbox cfg (Some i) body)
     (fun o w' => match o with inl _ | inr _ => q_tenants (w_quota w') = q_tenants (w_quota w) end) w.
Proof.
  intros Hk Hn. eapply wp_mono; [by apply handleCreate_wp|].
  by intros [r|r] w' (_ & Hq & _); apply (Hq i).
Qed.


(** A proxied request touches a row only past the access check and the idle
    fence: the row is dropped only when the runner reports the sandbox gone, and
    counted as activity only for an answer below 500 that is no redirect, so a
    client retrying a broken sandbox cannot keep it alive. *)
Theorem proxy_counts_only_activity cfg auth id w :
  wp (sandboxProxyHandler cfg auth id)
     (fun o w' => match o with inl resp | inr resp => proxy_spec cfg auth id w resp w' end) w.
Proof using HL. apply proxy_wp. Qed.

(** A tenant key lists exactly its own tenant's sandboxes, newest first, and
    may not filter by another tenant; listing changes nothing. *)
Theorem tenant_lists_only_its_own i values w :
  Role i = roleTenant ->
  wp (handleListSandboxes (Some i) values) (fun o w' =>
    w_db w' = w_db w /\
    match o with
    | inr resp => values = [] /\ exists records, resp = RSandboxes (sandboxResponse <$> records) /\
        records ≡ₚ filter (fun r => sr_TenantID r = TenantID i) (sandbox_rows (w_db w)) /\
        Sorted (newest_first sr_CreatedAt) records
    | inl resp => exists code msg, resp = RError code msg "" ""
    end) w.
Proof using HL.
  intros Hr. unfold handleListSandboxes. rewrite decide_False by naive_solver.
  apply wp_bind. destruct values as [|v vs]; simpl.
  - apply wp_ret. rewrite decide_True by done. apply wp_bind.
    eapply wp_or_500_reads; [apply ListByTenant_law| |].
    + intros l w' Hdb _ [Hl Hs]. wp_auto. eauto 6.
    + intros e w' Hdb _. eauto.
  - rewrite decide_True by congruence. wp_auto. split; [done|]. do 2 eexists. reflexivity.
Qed.
End claims.

(** ** Another tenant's sandbox is as if it did not exist *)

Definition hide (id : string) (w : world) : world := set_db (delete_sandbox id (w_db w)) w.

Section invisible.
Context {E : Env} {PE : ProxyEnv} (cfg : APIConfig).

Definition get_delete_proxy (St : SandboxStore) (auth : option authIdentity) (id : string) (w : world) : list response :=
  let run (m : act world response response) := match m w with (inl r, _) | (inr r, _) => r end in
  [run (handleGetSandbox cfg auth id); run (handleDeleteSandbox auth id); run (sandboxProxyHandler cfg auth id)].

Definition effects (St : SandboxStore) (auth : option authIdentity) (id : string) (w : world) :
    list (db * gset (string * string) * list event) :=
  let run (m : act world response response) := let w' := (m w).2 in (w_db w', w_hosted w', w_log w') in
  [run (handleGetSandbox cfg auth id); run (handleDeleteSandbox auth id); run (sandboxProxyHandler cfg auth id)].

(** Who may use a sandbox: an admin, and the keys of the tenant it belongs to. *)
Definition owns (auth : option authIdentity) (r : SandboxRecord) : Prop :=
  exists i, auth = Some i /\
    (Role i = roleAdmin \/ Role i = roleTenant /\ TenantID i = sr_TenantID r /\ IsAdminTenantID (sr_TenantID r) = false).

Lemma no_access auth r : ~ owns auth r -> canAccessSandbox auth r = false.
Proof.
  intros Hn. apply not_true_is_false. intros Hc. apply Hn. unfold canAccessSandbox in Hc. destruct auth as [i|]; [|done].
  exists i. split; [done|]. case_decide; [by left|right]. rewrite !andb_true_iff, !bool_decide_eq_true, negb_true_iff in Hc.
  naive_solver.
Qed.

(** C10: Get, delete and the proxy route answer for a sandbox of another tenant
    exactly as they would if it did not exist, on both stores and under every
    pattern of failures, and leave the tables, the runners and the log as they
    were: nothing tells a caller that the id is taken. *)
Theorem foreign_sandbox_invisible (St : SandboxStore) auth id r w :
  St = SQLiteStore \/ St = PostgresStore ->
  sandboxes (w_db w) !! id = Some r -> ~ owns auth r ->
  get_delete_proxy St auth id w = get_delete_proxy St auth id (hide id w) /\
  Forall (fun x => x = (w_db w, w_hosted w, w_log w)) (effects St auth id w).
Proof.
  intros HSt Hr Hc%no_access. unfold get_delete_proxy, effects.
  assert (Hhide : sandboxes (w_db (hide id w)) !! id = None) by apply lookup_delete_eq.
  unfold handleGetSandbox, handleDeleteSandbox, sandboxProxyHandler.
  destruct (isValidUUID id); simpl; [|split; [done|by repeat constructor]].
  destruct HSt as [-> | ->]; unfold or_500, bind, try; simpl.
  - unfold sqlite_Get, sqlite_LockSandbox, sql_query, ctx_cancelled, bind, tick, get, ret, exit. simpl.
    destruct (sql_fault (w_tick w)); simpl; rewrite ?Hr, ?lookup_delete_eq; simpl; rewrite ?Hc; simpl;
      destruct (ctx_err (w_tick w)); simpl; try (split; [done|by repeat constructor]);
      destruct (sql_fault (S (w_tick w))); simpl; rewrite ?Hr, ?lookup_delete_eq; simpl; rewrite ?Hc; simpl;
      (split; [done|by repeat constructor]).
  - unfold pg_Get, pg_LockSandbox, sql_query, bind, tick, get, ret, exit. simpl.
    destruct (sql_fault (w_tick w)); simpl; rewrite ?Hr, ?lookup_delete_eq; simpl; rewrite ?Hc; simpl;
      try (split; [done|by repeat constructor]);
      destruct (sql_fault (S (w_tick w))); simpl; try (split; [done|by repeat constructor]);
      destruct (sql_fault (S (S (w_tick w)))); simpl; try (split; [done|by repeat constructor]);
      destruct (sql_fault (S (S (S (w_tick w))))); simpl; rewrite ?Hr, ?lookup_delete_eq; simpl; rewrite ?Hc; simpl;
      (split; [done|by repeat constructor]).
Qed.
End invisible.

(** ** The handlers run *)

Definition admin : option authIdentity := Some (mkIdentity roleAdmin "").
Definition tenant1 : authIdentity := mkIdentity roleTenant "t1".
Definition plain_create : create_body := Some (mkCreateRequest None false None).
Definition hour_cfg : APIConfig := default_buffer (mkConfig (60 * Minute) (24 * 60 * Minute) 0 0).

#[export] Instance quiet_honest : HonestRunners StoreInv.StoreInv.quiet_env.
Proof. split. done. Qed.

Definition create_run (auth : option authIdentity) (w : world) : (response + response) * world :=
  handleCreateSandbox (E := StoreInv.StoreInv.quiet_env) (St := SQLiteStore (H := StoreInv.StoreInv.quiet_env))
    (RE := place_reg) (J := plain_json) hour_cfg auth plain_create w.

Lemma keyed_empty : rows_keyed StoreInv.StoreInv.empty_world.
Proof. intros x r Hx. simpl in Hx. by rewrite lookup_empty in Hx. Qed.

Lemma keyed_keyed : rows_keyed keyed_world.
Proof. intros x r Hx. simpl in Hx. by rewrite lookup_empty in Hx. Qed.

Definition created_row : SandboxRecord :=
  new_record "u" 1 "10.0.0.2" (mkRunner "a" "https://a" "runner-a:9000" true false 4 0 0 0) AdminTenantID false "public".

Lemma create_leaves_nothing_untracked_witness :
  bool_decide (("runner-a:9000", "u") ∈ w_hosted (create_run admin StoreInv.StoreInv.empty_world).2) = true /\
  tracked StoreInv.StoreInv.empty_world (create_run admin StoreInv.StoreInv.empty_world).2.
Proof.
  split; [vm_compute; reflexivity|].
  pose proof (create_leaves_nothing_untracked (E := StoreInv.StoreInv.quiet_env)
    (St := SQLiteStore (H := StoreInv.StoreInv.quiet_env)) (RE := place_reg) (J := plain_json)
    hour_cfg admin plain_create StoreInv.StoreInv.empty_world keyed_empty) as H.
  assert (Hno : forall id resp w', ~ left_behind (E := StoreInv.StoreInv.quiet_env) id StoreInv.StoreInv.empty_world resp w')
    by (intros id resp w' (addr & rest & _ & _ & [(? & ? & ? & _ & _ & _ & Hx)|(? & ? & _ & Hx & _)]); discriminate Hx).
  unfold create_run, wp in *. destruct (handleCreateSandbox _ _ _ _) as [[r|r] w']; destruct H as [H|(id & _ & H)];
    solve [exact H | destruct (Hno _ _ _ H)].
Defined.

(** The exception is real: a runner whose answer is lost after it created. *)
Definition lost_reply_env : Env := {|
  sql_fault _ := NoFault; unix_now n := Z.of_nat n; mono_now n := 0; ctx_err _ := false; new_uuid _ := "u";
  runner_create _ _ _ _ := CreateError (StatusError codes_Unavailable [] "connection reset") true;
  runner_delete _ _ _ := CallOK; runner_stop _ _ _ := CallOK |}.

Example lost_reply_leaves_one_behind :
  let run := handleCreateSandbox (E := lost_reply_env) (St := SQLiteStore (H := lost_reply_env))
    (RE := place_reg) (J := plain_json) hour_cfg admin plain_create StoreInv.StoreInv.empty_world in
  run.1 = inr (RError 500 (MsgRPC "failed to create container: " (StatusError codes_Unavailable [] "connection reset")) "" "") /\
  bool_decide (w_hosted run.2 = {[("runner-a:9000", "u")]}) = true /\ sandboxes (w_db run.2) !! "u" = None.
Proof. vm_compute. done. Qed.

Lemma create_answers_truthfully_witness :
  (create_run admin StoreInv.StoreInv.empty_world).1 = inr (RSandbox 201 (sandboxResponse created_row)) /\
  create_effect hour_cfg admin plain_create StoreInv.StoreInv.empty_world
    (RSandbox 201 (sandboxResponse created_row)) (create_run admin StoreInv.StoreInv.empty_world).2.
Proof.
  assert (Hr : (create_run admin StoreInv.StoreInv.empty_world).1 = inr (RSandbox 201 (sandboxResponse created_row)))
    by (vm_compute; reflexivity).
  split; [exact Hr|].
  pose proof (create_answers_truthfully (E := StoreInv.StoreInv.quiet_env)
    (St := SQLiteStore (H := StoreInv.StoreInv.quiet_env)) (RE := place_reg) (J := plain_json)
    hour_cfg admin plain_create StoreInv.StoreInv.empty_world keyed_empty) as H.
  unfold create_run, wp in *. destruct (handleCreateSandbox _ _ _ _) as [[r|r] w']; simpl in Hr; [discriminate|].
  injection Hr as ->. exact H.
Defined.

Lemma create_returns_reservation_witness :
  sr_TenantID <$> sandboxes (w_db (create_run (Some tenant1) keyed_world).2) !! "u" = Some "t1" /\
  q_tenants (w_quota (create_run (Some tenant1) keyed_world).2) = ∅.
Proof.
  split; [vm_compute; reflexivity|].
  pose proof (create_returns_reservation (E := StoreInv.StoreInv.quiet_env)
    (St := SQLiteStore (H := StoreInv.StoreInv.quiet_env)) (RE := place_reg) (J := plain_json)
    hour_cfg tenant1 plain_create keyed_world keyed_keyed eq_refl) as H.
  unfold create_run, wp in *. by destruct (handleCreateSandbox _ _ _ _) as [[r|r] w'].
Defined.

Definition one_sandbox : world :=
  set_hosted {[("r1:9000", some_uuid)]}
    (set_db (mkDB {[some_uuid := mkSandboxRecord some_uuid "running" 0 0 "" "" "10.0.0.2" 8081 "r1" "https://r1"
                      "r1:9000" "t1" false "public"]} {["t1" := mkTenant "t1" "acme" "" 2 0]} ∅)
       StoreInv.StoreInv.empty_world).



Definition answering (status : Z) (gone : bool) : ProxyEnv := {|
  proxy_reply _ _ _ := UpResponse status gone; https_url _ := true |}.

Lemma proxy_counts_only_activity_witness :
  let run := sandboxProxyHandler (E := StoreInv.StoreInv.quiet_env)
               (St := SQLiteStore (H := StoreInv.StoreInv.quiet_env)) (PE := answering 200 false)
               hour_cfg (Some tenant1) some_uuid one_sandbox in
  run.1 = inr (RProxied 200) /\
  proxy_spec (PE := answering 200 false) hour_cfg (Some tenant1) some_uuid one_sandbox (RProxied 200) run.2.
Proof.
  assert (Hr : (sandboxProxyHandler (E := StoreInv.StoreInv.quiet_env)
    (St := SQLiteStore (H := StoreInv.StoreInv.quiet_env)) (PE := answering 200 false)
    hour_cfg (Some tenant1) some_uuid one_sandbox).1 = inr (RProxied 200)) by (vm_compute; reflexivity).
  split; [exact Hr|].
  pose proof (proxy_counts_only_activity (E := StoreInv.StoreInv.quiet_env)
    (St := SQLiteStore (H := StoreInv.StoreInv.quiet_env)) (PE := answering 200 false)
    hour_cfg (Some tenant1) some_uuid one_sandbox) as H.
  unfold wp in *. destruct (sandboxProxyHandler _ _ _ _) as [[r|r] w']; simpl in Hr; [discriminate|].
  injection Hr as ->. exact H.
Defined.

Lemma tenant_lists_only_its_own_witness :
  wp (handleListSandboxes (St := SQLiteStore (H := StoreInv.StoreInv.quiet_env)) (Some tenant1) []) (fun o w' =>
    w_db w' = w_db one_sandbox /\
    match o with
    | inr resp => [] = ([] : list string) /\ exists records, resp = RSandboxes (sandboxResponse <$> records) /\
        records ≡ₚ filter (fun r => sr_TenantID r = "t1") (sandbox_rows (w_db one_sandbox)) /\
        Sorted (newest_first sr_CreatedAt) records
    | inl resp => exists code msg, resp = RError code msg "" ""
    end) one_sandbox.
Proof.
  exact (tenant_lists_only_its_own (St := SQLiteStore (H := StoreInv.StoreInv.quiet_env)) tenant1 [] one_sandbox eq_refl).
Defined.

Lemma foreign_sandbox_invisible_witness :
  let other := Some (mkIdentity roleTenant "t2") in
  let St := SQLiteStore (H := StoreInv.StoreInv.quiet_env) in
  get_delete_proxy (E := StoreInv.StoreInv.quiet_env) (PE := answering 200 false) hour_cfg St other some_uuid one_sandbox =
  get_delete_proxy (E := StoreInv.StoreInv.quiet_env) (PE := answering 200 false) hour_cfg St other some_uuid
    (hide some_uuid one_sandbox).
Proof.
  apply (foreign_sandbox_invisible (E := StoreInv.StoreInv.quiet_env) (PE := answering 200 false) hour_cfg
    (SQLiteStore (H := StoreInv.StoreInv.quiet_env)) (Some (mkIdentity roleTenant "t2")) some_uuid
    (mkSandboxRecord some_uuid "running" 0 0 "" "" "10.0.0.2" 8081 "r1" "https://r1" "r1:9000" "t1" false "public")
    one_sandbox (or_introl eq_refl)); [reflexivity|].
  intros (i & [= <-] & [H|(_ & H & _)]); discriminate.
Defined.

(** ** A lost reply to the insert

    The insert takes effect but its reply is lost: the handler deletes the
    sandbox on the runner, finds the row it just saved, and answers 200 with a
    sandbox that no runner hosts any more. *)

Definition lost_insert_env : Env := {|
  sql_fault n := if decide (n = 5)%nat then Lost else NoFault;
  unix_now n := Z.of_nat n; mono_now n := 0; ctx_err _ := false; new_uuid _ := "u";
  runner_create _ _ _ _ := CreateReply "10.0.0.2" "";
  runner_delete _ _ _ := CallOK; runner_stop _ _ _ := CallOK |}.

Example lost_insert_answers_dead_sandbox :
  let run := handleCreateSandbox (E := lost_insert_env) (St := SQLiteStore (H := lost_insert_env))
               (RE := place_reg) (J := plain_json) hour_cfg admin plain_create StoreInv.StoreInv.empty_world in
  run.1 = inr (RSandbox 200 (sandboxResponse created_row)) /\ bool_decide (w_hosted run.2 = ∅) = true.
Proof. split; vm_compute; reflexivity. Qed.

End HandlersInv.
