(* ===== verification/KeyCache.v ===== *)
(** * Tenant key cache ([internal/api/apikey_cache.go])

    The cache's critical sections, and the lookups, flights of the single-flight
    group, revocations and clock ticks of one replica interleaved in any order.
    A flight is keyed by the generation its first caller saw. *)

From S2P Require Import Prelude.

Module KeyCache.

Definition maxAPIKeyCacheEntries : Z := 10000.

(** [tenantID] is "" for a key that does not exist. *)
Record apiKeyCacheEntry := mkEntry { tenantID : string; expires : Z }.

(** The generation counts invalidations; 2^64 of them are out of reach. *)
Record apiKeyCache := mkCache {
  ttl : Z;
  byKeyHash : gmap string apiKeyCacheEntry;
  gen : nat;
}.

(** [None]: a ttl of 0 or less means no cache. *)
Definition newAPIKeyCache (ttl : Z) : option apiKeyCache :=
  if decide (ttl <= 0) then None else Some (mkCache ttl ∅ 0).

(** The first critical section of [lookup]: the entry, and the generation to
    load under. *)
Definition lookup_enter (keyHash : string) (c : apiKeyCache) : option apiKeyCacheEntry * nat :=
  (byKeyHash c !! keyHash, gen c).

(** What [lookup] answers without a load, out of the lock. *)
Definition lookup_hit (e : option apiKeyCacheEntry) (now : Z) : option string :=
  match e with
  | Some e => if decide (now < expires e) then Some (tenantID e) else None
  | None => None
  end.

Definition makeRoom (now : Z) (c : apiKeyCache) : apiKeyCache :=
  let m := filter (fun p => now < expires p.2) (byKeyHash c) in
  mkCache (ttl c) (if decide (Z.of_nat (size m) > maxAPIKeyCacheEntries * 3 / 4) then ∅ else m) (gen c).

(** The second one, with what was loaded: cached only if nothing was invalidated
    since, for [ttl] from before the read. *)
Definition lookup_store (keyHash : string) (g : nat) (started : Z) (tid : string) (now : Z) (c : apiKeyCache) : apiKeyCache :=
  if decide (gen c = g) then
    let c' := if bool_decide (byKeyHash c !! keyHash = None) && bool_decide (Z.of_nat (size (byKeyHash c)) >= maxAPIKeyCacheEntries)
              then makeRoom now c else c in
    mkCache (ttl c') (<[keyHash := mkEntry tid (started + ttl c')]> (byKeyHash c')) (gen c')
  else c.

Definition invalidate (keyHash : string) (c : apiKeyCache) : apiKeyCache :=
  mkCache (ttl c) (delete keyHash (byKeyHash c)) (S (gen c)).

Definition invalidateTenant (tid : string) (c : apiKeyCache) : apiKeyCache :=
  mkCache (ttl c) (filter (fun p => tenantID p.2 <> tid) (byKeyHash c)) (S (gen c)).

(** ** One replica *)

Inductive flight := FNew | FStarted (started : Z) | FLoaded (started : Z) (tid : string).

(** A lookup of [h]; [after] notes that it began after [h] was revoked and the
    revocation reached this replica's cache. *)
Inductive lookup :=
| Entered (e : option apiKeyCacheEntry) (g : nat) (h : string) (after : bool)
| Waiting (g : nat) (h : string) (after : bool)
| Returned (h tid : string) (after : bool).

(** [truth h]: the tenant of the active key with hash [h], "" when there is none.
    [revoked] and [cut] only record what happened: when a key was revoked, and the
    generation after the invalidation that followed on this replica. *)
Record sys := mkSys {
  s_cache : apiKeyCache;
  s_clock : Z;
  s_truth : string -> string;
  s_flights : gmap (nat * string) flight;
  s_lookups : gmap nat lookup;
  s_revoked : string -> option Z;
  s_cut : string -> option nat;
}.

Definition set_cache (c : apiKeyCache) (s : sys) : sys :=
  mkSys c (s_clock s) (s_truth s) (s_flights s) (s_lookups s) (s_revoked s) (s_cut s).
Definition set_flights (f : gmap (nat * string) flight) (s : sys) : sys :=
  mkSys (s_cache s) (s_clock s) (s_truth s) f (s_lookups s) (s_revoked s) (s_cut s).
Definition set_lookups (l : gmap nat lookup) (s : sys) : sys :=
  mkSys (s_cache s) (s_clock s) (s_truth s) (s_flights s) l (s_revoked s) (s_cut s).

Definition upd {A} (h : string) (a : A) (f : string -> A) : string -> A :=
  fun x => if decide (x = h) then a else f x.

(** The revoked keys among [P] whose revocation now reached this replica. *)
Definition cut_where (P : string -> bool) (s : sys) : string -> option nat :=
  fun h => match s_cut s h with
           | Some g => Some g
           | None => if P h && bool_decide (is_Some (s_revoked s h)) then Some (S (gen (s_cache s))) else None
           end.

Definition finish_lookup (g : nat) (h tid : string) (l : lookup) : lookup :=
  match l with
  | Waiting g' h' after => if decide ((g', h') = (g, h)) then Returned h tid after else l
  | _ => l
  end.

Definition waits (g : nat) (h : string) (l : lookup) : bool :=
  match l with Waiting g' h' _ => bool_decide ((g', h') = (g, h)) | _ => false end.

(** [key_tenant h]: the tenant the key with hash [h] was made for. *)
Inductive step (key_tenant : string -> string) : sys -> sys -> Prop :=
| step_clock s t : s_clock s <= t ->
    step key_tenant s (mkSys (s_cache s) t (s_truth s) (s_flights s) (s_lookups s) (s_revoked s) (s_cut s))
| step_create s h : s_revoked s h = None ->
    step key_tenant s (mkSys (s_cache s) (s_clock s) (upd h (key_tenant h) (s_truth s)) (s_flights s) (s_lookups s) (s_revoked s) (s_cut s))
| step_revoke s h : s_revoked s h = None ->
    step key_tenant s (mkSys (s_cache s) (s_clock s) (upd h "" (s_truth s)) (s_flights s) (s_lookups s)
                         (upd h (Some (s_clock s)) (s_revoked s)) (s_cut s))
| step_invalidate s h :
    step key_tenant s (mkSys (invalidate h (s_cache s)) (s_clock s) (s_truth s) (s_flights s) (s_lookups s) (s_revoked s)
                         (cut_where (fun x => bool_decide (x = h)) s))
| step_invalidate_tenant s tid :
    step key_tenant s (mkSys (invalidateTenant tid (s_cache s)) (s_clock s) (s_truth s) (s_flights s) (s_lookups s) (s_revoked s)
                         (cut_where (fun x => bool_decide (key_tenant x = tid)) s))
| step_enter s i h e g : s_lookups s !! i = None -> lookup_enter h (s_cache s) = (e, g) ->
    step key_tenant s (set_lookups (<[i := Entered e g h (bool_decide (is_Some (s_cut s h)))]> (s_lookups s)) s)
| step_hit s i e g h after tid : s_lookups s !! i = Some (Entered e g h after) -> lookup_hit e (s_clock s) = Some tid ->
    step key_tenant s (set_lookups (<[i := Returned h tid after]> (s_lookups s)) s)
| step_miss s i e g h after : s_lookups s !! i = Some (Entered e g h after) -> lookup_hit e (s_clock s) = None ->
    step key_tenant s (set_lookups (<[i := Waiting g h after]> (s_lookups s))
      (set_flights (match s_flights s !! (g, h) with Some _ => s_flights s | None => <[(g, h) := FNew]> (s_flights s) end) s))
| step_begin s g h : s_flights s !! (g, h) = Some FNew ->
    step key_tenant s (set_flights (<[(g, h) := FStarted (s_clock s)]> (s_flights s)) s)
| step_load s g h t : s_flights s !! (g, h) = Some (FStarted t) ->
    step key_tenant s (set_flights (<[(g, h) := FLoaded t (s_truth s h)]> (s_flights s)) s)
| step_load_error s g h t : s_flights s !! (g, h) = Some (FStarted t) ->
    step key_tenant s (set_flights (delete (g, h) (s_flights s))
      (set_lookups (filter (fun p => waits g h p.2 = false) (s_lookups s)) s))
| step_publish s g h t tid : s_flights s !! (g, h) = Some (FLoaded t tid) ->
    step key_tenant s (set_cache (lookup_store h g t tid (s_clock s) (s_cache s))
      (set_flights (delete (g, h) (s_flights s)) (set_lookups (finish_lookup g h tid <$> s_lookups s) s))).

(** ** Invariant *)

Section invariant.
Context (key_tenant : string -> string).

Record entry_ok (s : sys) (h : string) (e : apiKeyCacheEntry) : Prop := {
  eo_tenant : tenantID e <> "" -> tenantID e = key_tenant h;
  eo_expires : expires e <= s_clock s + ttl (s_cache s);
  eo_ttl t : tenantID e <> "" -> s_revoked s h = Some t -> expires e <= t + ttl (s_cache s);
}.

Definition flight_ok (s : sys) (g : nat) (h : string) (f : flight) : Prop :=
  (g <= gen (s_cache s))%nat /\
  match f with
  | FNew => True
  | FStarted t => t <= s_clock s
  | FLoaded t tid => t <= s_clock s /\ (tid <> "" -> tid = key_tenant h /\
      (forall g0, s_cut s h = Some g0 -> (g < g0)%nat) /\ (forall r, s_revoked s h = Some r -> t <= r))
  end.

Definition lookup_ok (s : sys) (l : lookup) : Prop :=
  match l with
  | Entered oe g h after => (g <= gen (s_cache s))%nat /\
      (after = true -> exists g0, s_cut s h = Some g0 /\ (g0 <= g)%nat) /\
      match oe with Some e => entry_ok s h e /\ (after = true -> tenantID e = "") | None => True end
  | Waiting g h after => after = true -> exists g0, s_cut s h = Some g0 /\ (g0 <= g)%nat
  | Returned h tid after => after = true -> tid = ""
  end.

Record inv (s : sys) : Prop := {
  i_ttl : 0 < ttl (s_cache s);
  i_size : Z.of_nat (size (byKeyHash (s_cache s))) <= maxAPIKeyCacheEntries;
  i_cut h g : s_cut s h = Some g -> (g <= gen (s_cache s))%nat /\ is_Some (s_revoked s h);
  i_revoked h t : s_revoked s h = Some t -> s_truth s h = "" /\ t <= s_clock s;
  i_truth h : s_truth s h = "" \/ s_truth s h = key_tenant h;
  i_entries h e : byKeyHash (s_cache s) !! h = Some e -> entry_ok s h e /\ (tenantID e <> "" -> s_cut s h = None);
  i_flights g h f : s_flights s !! (g, h) = Some f -> flight_ok s g h f;
  i_lookups i l : s_lookups s !! i = Some l -> lookup_ok s l;
}.

(** What never goes back, from [s] to a state after it. *)
Record later (s s' : sys) : Prop := {
  la_ttl : ttl (s_cache s') = ttl (s_cache s);
  la_clock : s_clock s <= s_clock s';
  la_gen : (gen (s_cache s) <= gen (s_cache s'))%nat;
  la_cut h g : s_cut s h = Some g -> s_cut s' h = Some g;
  la_revoked h t : s_revoked s' h = Some t -> s_revoked s h = Some t \/ s_clock s <= t;
}.

Lemma entry_ok_later s s' h e : later s s' -> entry_ok s h e -> entry_ok s' h e.
Proof.
  intros [Ht Hc Hg Hcut Hr] [Ha Hx Hb]. split; rewrite ?Ht; [done|lia|]. intros t Hne Hrev.
  destruct (Hr h t Hrev); [eauto|lia].
Qed.

Lemma lookup_ok_later s s' l : later s s' -> lookup_ok s l -> lookup_ok s' l.
Proof.
  intros Hl. pose proof Hl as [Ht Hc Hg Hcut Hr]. destruct l as [oe g h after|g h after|h tid after]; simpl; [|naive_solver|done].
  intros (Hle & Ha & He). split; [lia|]. split; [naive_solver|]. destruct oe as [e|]; [|done].
  destruct He. split; [by eapply entry_ok_later|done].
Qed.

Lemma inv_invalidate s c' P :
  inv s -> ttl c' = ttl (s_cache s) -> gen c' = S (gen (s_cache s)) ->
  byKeyHash c' ⊆ byKeyHash (s_cache s) ->
  (forall h e, byKeyHash c' !! h = Some e -> tenantID e <> "" -> tenantID e = key_tenant h -> P h = false) ->
  inv (mkSys c' (s_clock s) (s_truth s) (s_flights s) (s_lookups s) (s_revoked s) (cut_where P s)).
Proof.
  intros [H1 H2 H3 H4 H5 H6 H7 H8] Ht Hg Hsub HP.
  assert (Hinv : forall h g, cut_where P s h = Some g -> s_cut s h = Some g \/
    (s_cut s h = None /\ g = S (gen (s_cache s)) /\ P h = true /\ is_Some (s_revoked s h))).
  { intros h g. unfold cut_where. destruct (s_cut s h); [naive_solver|]. destruct (P h); simpl; [|done].
    case_bool_decide; naive_solver. }
  set (s' := mkSys _ _ _ _ _ _ _). assert (Hla : later s s').
  { split; simpl; [done|done|lia| |by left]. intros h g E. unfold cut_where. by rewrite E. }
  split; simpl; rewrite ?Ht, ?Hg; try done.
  - pose proof (map_subseteq_size _ _ Hsub). lia.
  - intros h g [Hc|(_ & -> & _ & Hr)]%Hinv; [|done]. destruct (H3 h g Hc). split; [lia|done].
  - intros h e He. pose proof (lookup_weaken _ _ _ _ He Hsub) as He0. destruct (H6 h e He0) as [Hok Hb].
    split; [by eapply entry_ok_later|]. intros Hne. unfold cut_where. rewrite (Hb Hne).
    by rewrite (HP h e He Hne (eo_tenant _ _ _ Hok Hne)).
  - intros g h f Hf. destruct (H7 g h f Hf) as [Hle Hok]. split; simpl; [lia|]. destruct f as [| |t tid]; try done.
    destruct Hok as [Hcl Hok]. split; [done|]. intros Hne. destruct (Hok Hne) as (Ha & Hb & Hc). split; [done|]. split; [|done].
    intros g0 [Hc0|(_ & -> & _)]%Hinv; [eauto|lia].
  - intros i l Hl. eapply lookup_ok_later; [done|]. by apply (H8 i).
Qed.

Lemma map_filter_sub {V} (P : string * V -> Prop) `{!forall x, Decision (P x)} (m : gmap string V) : filter P m ⊆ m.
Proof. apply map_filter_subseteq. Qed.

Lemma makeRoom_sub now c : byKeyHash (makeRoom now c) ⊆ byKeyHash c.
Proof. unfold makeRoom; simpl. case_decide; [apply map_empty_subseteq|apply map_filter_sub]. Qed.

Lemma makeRoom_size now c : Z.of_nat (size (byKeyHash (makeRoom now c))) <= 7500.
Proof.
  unfold makeRoom. cbn [byKeyHash]. change (maxAPIKeyCacheEntries * 3 / 4) with 7500.
  case_decide; [rewrite map_size_empty|]; lia.
Qed.

Lemma map_size_insert_le {V} (m : gmap string V) k v : (size (<[k := v]> m) <= S (size m))%nat.
Proof. rewrite map_size_insert. destruct (m !! k); simpl; lia. Qed.

(** Storing keeps the bound, and whatever entries it keeps were there before. *)
Lemma lookup_store_spec h g t tid now c :
  0 < ttl c -> Z.of_nat (size (byKeyHash c)) <= maxAPIKeyCacheEntries ->
  let c' := lookup_store h g t tid now c in
  ttl c' = ttl c /\ gen c' = gen c /\ Z.of_nat (size (byKeyHash c')) <= maxAPIKeyCacheEntries /\
  (forall x e, byKeyHash c' !! x = Some e -> byKeyHash c !! x = Some e \/
     (gen c = g /\ x = h /\ e = mkEntry tid (t + ttl c))).
Proof.
  intros Ht Hs. unfold lookup_store. case_decide as Hg; [|naive_solver].
  set (c1 := if _ && _ then makeRoom now c else c).
  assert (Hc1 : ttl c1 = ttl c /\ gen c1 = gen c /\ byKeyHash c1 ⊆ byKeyHash c /\
    Z.of_nat (size (<[h := mkEntry tid (t + ttl c1)]> (byKeyHash c1))) <= maxAPIKeyCacheEntries).
  { unfold c1. destruct (_ && _) eqn:E.
    - split; [done|]. split; [done|]. split; [apply makeRoom_sub|].
      pose proof (makeRoom_size now c). pose proof (map_size_insert_le (byKeyHash (makeRoom now c)) h (mkEntry tid (t + ttl (makeRoom now c)))).
      unfold maxAPIKeyCacheEntries in *. lia.
    - split; [done|]. split; [done|]. split; [done|]. apply andb_false_iff in E. rewrite !bool_decide_eq_false in E.
      rewrite map_size_insert. destruct (byKeyHash c !! h) eqn:Eh; simpl; [done|]. destruct E as [E|E]; [done|lia]. }
  destruct Hc1 as (Ht1 & Hg1 & Hsub & Hsz). simpl. rewrite Ht1 in *. split; [done|]. split; [done|]. split; [done|].
  intros x e He. apply lookup_insert_Some in He as [[<- <-]|[_ He]]; [by right|left]. by eapply lookup_weaken.
Qed.

Lemma finish_lookup_other g h tid l : waits g h l = false -> finish_lookup g h tid l = l.
Proof. destruct l; simpl; try done. intros E%bool_decide_eq_false. by rewrite decide_False. Qed.

Lemma inv_publish s g h t tid :
  inv s -> s_flights s !! (g, h) = Some (FLoaded t tid) ->
  inv (set_cache (lookup_store h g t tid (s_clock s) (s_cache s))
    (set_flights (delete (g, h) (s_flights s)) (set_lookups (finish_lookup g h tid <$> s_lookups s) s))).
Proof.
  intros [H1 H2 H3 H4 H5 H6 H7 H8] Hf. destruct (H7 g h _ Hf) as [Hg [Hcl Hok]].
  destruct (lookup_store_spec h g t tid (s_clock s) (s_cache s) H1 H2) as (Ht & Hgen & Hsz & Hent).
  set (s' := set_cache _ _). assert (Hla : later s s') by (split; simpl; [done|done|lia|done|by left]).
  split; simpl; rewrite ?Ht, ?Hgen; try done.
  - intros x e He. destruct (Hent x e He) as [He0|(Hgg & -> & ->)].
    + destruct (H6 x e He0). split; [by eapply entry_ok_later|done].
    + split; [split; simpl; rewrite ?Ht; [by apply Hok|lia|]|].
      * intros r Hne Hr. destruct (Hok Hne) as (_ & _ & Hrev). specialize (Hrev r Hr). lia.
      * simpl. intros Hne. destruct (Hok Hne) as (_ & Hcut & _). destruct (s_cut s h) as [g0|] eqn:Ec; [|done].
        destruct (H3 h g0 Ec). specialize (Hcut g0 eq_refl). lia.
  - intros g' h' f Hf'. apply lookup_delete_Some in Hf' as [_ Hf']. specialize (H7 g' h' f Hf').
    unfold flight_ok in *. simpl. by rewrite Hgen.
  - intros i l Hl. rewrite lookup_fmap in Hl. apply fmap_Some in Hl as (l0 & Hl0 & ->). specialize (H8 i l0 Hl0).
    destruct (waits g h l0) eqn:Ew; [|rewrite finish_lookup_other by done; by eapply lookup_ok_later].
    destruct l0 as [|g' h' after|]; try done. simpl in *. apply bool_decide_eq_true in Ew. rewrite decide_True by done.
    simplify_eq. simpl. intros Ha. destruct (H8 Ha) as (g0 & Hg0 & Hle). destruct (decide (tid = "")) as [|Hne]; [done|].
    destruct (Hok Hne) as (_ & Hcut & _). specialize (Hcut g0 Hg0). lia.
Qed.

Lemma inv_lookup s i l :
  inv s -> lookup_ok s l -> inv (set_lookups (<[i := l]> (s_lookups s)) s).
Proof.
  intros [H1 H2 H3 H4 H5 H6 H7 H8] Hok. assert (Hla : forall m, later s (set_lookups m s)) by (split; simpl; [done..|by left]).
  split; try assumption; simpl.
  - intros x e He. destruct (H6 x e He). split; [by eapply entry_ok_later|done].
  - intros j l' [[_ <-]|[_ Hl]]%lookup_insert_Some; (eapply lookup_ok_later; [done|]); [done|by apply (H8 j)].
Qed.

(** Changing the flights alone: only their own condition is at stake. *)
Lemma inv_flights s fl :
  inv s -> (forall g h f, fl !! (g, h) = Some f -> flight_ok s g h f) -> inv (set_flights fl s).
Proof.
  intros [H1 H2 H3 H4 H5 H6 H7 H8] Hok. assert (Hla : later s (set_flights fl s)) by (split; simpl; [done..|by left]).
  split; try assumption; simpl.
  - intros x e He. destruct (H6 x e He). split; [by eapply entry_ok_later|done].
  - intros j l' Hl. eapply lookup_ok_later; [done|]. by apply (H8 j).
Qed.

Lemma inv_flight s g h f :
  inv s -> flight_ok s g h f -> inv (set_flights (<[(g, h) := f]> (s_flights s)) s).
Proof.
  intros Hinv Hok. apply inv_flights; [done|].
  intros g' h' f' [[[= <- <-] <-]|[_ Hf]]%lookup_insert_Some; [exact Hok|by apply Hinv].
Qed.

Lemma inv_lookups_drop s P `{!forall x, Decision (P x)} : inv s -> inv (set_lookups (filter P (s_lookups s)) s).
Proof.
  intros [H1 H2 H3 H4 H5 H6 H7 H8]. assert (Hla : forall m, later s (set_lookups m s)) by (split; simpl; [done..|by left]).
  split; try assumption; simpl.
  - intros x e He. destruct (H6 x e He). split; [by eapply entry_ok_later|done].
  - intros j l' [Hl _]%map_lookup_filter_Some. eapply lookup_ok_later; [done|]. by apply (H8 j).
Qed.

(** The clock, the tables and the record of revocations: the cache and what runs
    stay. *)
Lemma inv_env s clock truth revoked :
  inv s -> s_clock s <= clock ->
  (forall h t, revoked h = Some t -> (s_revoked s h = Some t \/ t = s_clock s) /\ truth h = "") ->
  (forall h, is_Some (s_revoked s h) -> is_Some (revoked h)) ->
  (forall h, truth h = "" \/ truth h = key_tenant h) ->
  inv (mkSys (s_cache s) clock truth (s_flights s) (s_lookups s) revoked (s_cut s)).
Proof.
  intros [H1 H2 H3 H4 H5 H6 H7 H8] Hc Hr Hmono Ht. set (s' := mkSys _ _ _ _ _ _ _).
  assert (Hrev : forall h t, revoked h = Some t -> s_revoked s h = Some t \/ s_clock s <= t).
  { intros h t Hh. destruct (Hr h t Hh) as [[?| ->] _]; [by left|right; lia]. }
  assert (Hla : later s s') by by split.
  split; simpl; try done.
  - intros h g Hg. destruct (H3 h g Hg). eauto.
  - intros h t Hh. destruct (Hr h t Hh) as [[Hs| ->] ?]; [|by split]. destruct (H4 h t Hs). split; [done|lia].
  - intros h e He. destruct (H6 h e He). split; [by eapply entry_ok_later|done].
  - intros g h f Hf. destruct (H7 g h f Hf) as [Hg Hok]. split; [done|]. destruct f as [|t|t tid]; simpl; [done|lia|].
    destruct Hok as [Hcl Hok]. split; [lia|]. intros Hne. destruct (Hok Hne) as (Ha & Hb & Hd). split; [done|].
    split; [done|]. intros r Hrr. destruct (Hr h r Hrr) as [[?| ->] _]; [eauto|done].
  - intros i l Hl. eapply lookup_ok_later; [done|]. by apply (H8 i).
Qed.

Lemma keycache_inv_step s s' : inv s -> step key_tenant s s' -> inv s'.
Proof.
  intros Hinv Hs. pose proof Hinv as [H1 H2 H3 H4 H5 H6 H7 H8]. destruct Hs as
    [s t Hle|s h Hn|s h Hn|s h|s tid|s i h e g Hn He|s i e g h after tid Hl He|s i e g h after Hl He|s g h Hf|s g h t Hf|s g h t Hf|s g h t tid Hf].
  - apply inv_env; try done. intros h t' Hr. destruct (H4 h t' Hr). auto.
  - apply inv_env; try done; unfold upd.
    + intros x t Hr. destruct (H4 x t Hr). rewrite decide_False by congruence. auto.
    + intros x. case_decide; [subst; by right|apply H5].
  - apply inv_env; try done; unfold upd; intros x.
    + intros t. case_decide; [intros [= <-]; auto|]. intros Hr. destruct (H4 x t Hr). auto.
    + case_decide; eauto.
    + case_decide; [by left|apply H5].
  - apply inv_invalidate; simpl; try done; [apply delete_subseteq|].
    intros x e He _ _. apply lookup_delete_Some in He as [Hne _]. by apply bool_decide_eq_false.
  - apply inv_invalidate; simpl; try done; [apply map_filter_sub|].
    intros x e He _ Hk. apply map_lookup_filter_Some in He as [_ Hne]. apply bool_decide_eq_false. simpl in Hne. congruence.
  - apply inv_lookup; [done|]. unfold lookup_enter in He. simplify_eq. simpl. split; [done|]. split.
    + intros [g0 Hc]%bool_decide_eq_true. exists g0. split; [done|]. by destruct (H3 h g0 Hc).
    + destruct (byKeyHash (s_cache s) !! h) as [e|] eqn:Ee; [|done]. destruct (H6 h e Ee) as [Hok Hcut]. split; [done|].
      intros [g0 Hc]%bool_decide_eq_true. destruct (decide (tenantID e = "")) as [|Hne]; [done|]. by rewrite (Hcut Hne) in Hc.
  - apply inv_lookup; [done|]. destruct (H8 _ _ Hl) as (_ & _ & Hok). destruct e as [e|]; [|done]. simpl in He.
    case_decide; simplify_eq. exact (proj2 Hok).
  - destruct (H8 _ _ Hl) as (Hg & Hcut & _). apply (inv_lookup (set_flights _ s)); [|done].
    destruct (s_flights s !! (g, h)); [by apply inv_flights|]. by apply inv_flight.
  - apply inv_flight; [done|]. split; [by destruct (H7 g h _ Hf)|]. simpl. lia.
  - apply inv_flight; [done|]. destruct (H7 g h _ Hf) as [Hg Ht]. split; [done|]. split; [done|]. intros Hne.
    split; [by destruct (H5 h)|]. split; [intros g0 Hc|intros r Hr].
    + destruct (H3 h g0 Hc) as [_ [r Hr]]. by destruct (H4 h r Hr).
    + by destruct (H4 h r Hr).
  - apply inv_flights; [by apply inv_lookups_drop|]. intros g' h' f [_ Hf']%lookup_delete_Some. by apply H7.
  - by apply inv_publish.
Qed.
End invariant.

(** ** What the cache promises *)

Definition initial (c : apiKeyCache) (clock : Z) : sys := mkSys c clock (fun _ => "") ∅ ∅ (fun _ => None) (fun _ => None).

Lemma keycache_reachable key_tenant ttl0 c clock s :
  newAPIKeyCache ttl0 = Some c -> rtc (step key_tenant) (initial c clock) s -> inv key_tenant s.
Proof.
  intros Hc Hr. assert (Hi : inv key_tenant (initial c clock)).
  { unfold newAPIKeyCache in Hc. case_decide; simplify_eq.
    split; simpl; try done; [lia|by left|..]; intros; by rewrite lookup_empty in *. }
  revert Hi. induction Hr; eauto using keycache_inv_step.
Qed.

(** C31: Revoking a key takes effect on its replica at once.  However lookups,
    their shared loads, key creations, revocations and invalidations interleave,
    a lookup that begins after the key was revoked and invalidated never returns
    a tenant, even when it joins a load that was already running; on any replica,
    a lookup is answered from the cache with a key's tenant less than the ttl
    after the revocation; and the cache never exceeds its bound of entries. *)
Theorem revoked_key_not_served key_tenant ttl0 c clock s :
  newAPIKeyCache ttl0 = Some c -> rtc (step key_tenant) (initial c clock) s ->
  (forall i h tid, s_lookups s !! i = Some (Returned h tid true) -> tid = "") /\
  (forall i e g h after tid t, s_lookups s !! i = Some (Entered e g h after) -> lookup_hit e (s_clock s) = Some tid ->
     tid <> "" -> tid = key_tenant h /\ (s_revoked s h = Some t -> s_clock s < t + ttl (s_cache s))) /\
  Z.of_nat (size (byKeyHash (s_cache s))) <= maxAPIKeyCacheEntries.
Proof.
  intros Hc Hr. pose proof (keycache_reachable _ _ _ _ _ Hc Hr) as [H1 H2 H3 H4 H5 H6 H7 H8].
  split; [|split; [|done]].
  - intros i h tid Hl. by apply (H8 i _ Hl).
  - intros i e g h after tid t Hl He Hne. destruct (H8 _ _ Hl) as (_ & _ & Hok). destruct e as [e|]; [|done].
    simpl in He. case_decide; simplify_eq. destruct Hok as [[Ha _ Hb] _]. split; [by apply Ha|]. intros Hrev.
    specialize (Hb t Hne Hrev). lia.
Qed.

(** One step of a concrete trace, the state it reaches evaluated. *)
Ltac go tac :=
  eapply rtc_l; [tac; vm_compute; solve [reflexivity | discriminate]|];
  match goal with
  | |- rtc _ ?s _ => let s' := eval vm_compute in s in replace s with s' by (vm_compute; reflexivity)
  end.

Lemma revoked_key_not_served_witness :
  exists s, rtc (step (fun _ => "a")) (initial (mkCache 60 ∅ 0) 0) s /\
    s_lookups s !! 1%nat = Some (Entered (Some (mkEntry "a" 60)) 0 "k" false) /\
    s_lookups s !! 2%nat = Some (Returned "k" "" true) /\
    lookup_hit (Some (mkEntry "a" 60)) (s_clock s) = Some "a" /\ s_revoked s "k" = Some 0 /\
    s_clock s < 0 + ttl (s_cache s).
Proof.
  assert (Hr : exists s, rtc (step (fun _ => "a")) (initial (mkCache 60 ∅ 0) 0) s /\
    s_lookups s !! 1%nat = Some (Entered (Some (mkEntry "a" 60)) 0 "k" false) /\
    s_lookups s !! 2%nat = Some (Returned "k" "" true) /\ s_clock s = 59 /\ s_revoked s "k" = Some 0).
  { eexists. split.
    { go ltac:(apply (step_create _ _ "k")). go ltac:(apply (step_enter _ _ 0 "k" None 0)).
      go ltac:(eapply (step_miss _ _ 0 None 0 "k" false)). go ltac:(apply (step_begin _ _ 0 "k")).
      go ltac:(apply (step_load _ _ 0 "k" 0)). go ltac:(apply (step_publish _ _ 0 "k" 0 "a")).
      go ltac:(apply (step_revoke _ _ "k")). go ltac:(apply (step_enter _ _ 1 "k" (Some (mkEntry "a" 60)) 0)).
      go ltac:(apply (step_invalidate _ _ "k")). go ltac:(apply (step_enter _ _ 2 "k" None 1)).
      go ltac:(eapply (step_miss _ _ 2 None 1 "k" true)). go ltac:(apply (step_begin _ _ 1 "k")).
      go ltac:(apply (step_load _ _ 1 "k" 0)). go ltac:(apply (step_publish _ _ 1 "k" 0 "")).
      go ltac:(apply (step_clock _ _ 59)). apply rtc_refl. }
    split; [vm_compute; reflexivity|]. split; [vm_compute; reflexivity|]. split; vm_compute; reflexivity. }
  destruct Hr as (s & Hr & H1 & H2 & Hclk & Hrev). exists s. rewrite Hclk. repeat (split; [done|]).
  destruct (revoked_key_not_served (fun _ => "a") 60 (mkCache 60 ∅ 0) 0 s eq_refl Hr) as (_ & Hhit & _).
  rewrite <- Hclk. apply (Hhit _ _ _ _ _ "a" 0 H1); [by rewrite Hclk|done|done].
Defined.

End KeyCache.
