(* ===== verification/Tenants.v ===== *)
(** * Tenant and key administration ([internal/api/handlers_tenants.go])

    The handlers under /admin/tenants, each as a whole, over the tables and this
    replica's key cache ([None] is the nil cache).  Request bodies are what
    [encoding/json] made of them; [crypto/rand] is a parameter that either fails
    or fills the buffer. *)

From stdpp Require Import pretty.
From S2P Require Import Prelude GoStrings Ids Quota World Store StoreInv Registry Config Auth KeyCache.

Module Tenants.
Import GoStrings Ids Store Auth.

Record createTenantRequest := mkCreateTenant {
  ct_Name : string;
  ct_ExternalRef : string;
  ct_MaxSandboxes : option Z;
  ct_CreateKey : option bool;
}.

(** [ut_MaxSandboxes] is [None] when the field was left out. *)
Record updateTenantRequest := mkUpdateTenant { ut_MaxSandboxes : option Z }.

Class RandEnv := {
  rand_ok : nat -> bool;
  rand_byte : nat -> nat -> ascii;
}.

Definition tworld : Type := world * option KeyCache.apiKeyCache.

Section tenants.
Context {E : Env} {St : SandboxStore} {KE : KeyEnv} {RD : RandEnv}.
Context (DefaultMaxSandboxes : Z).
#[local] Open Scope act_scope.

(** A call that does not touch the key cache. *)
Definition lift {R A} (m : act world R A) : act tworld R A :=
  fun p => let '(o, w') := m p.1 in (o, (w', p.2)).

Definition on_cache {R} (f : KeyCache.apiKeyCache -> KeyCache.apiKeyCache) : act tworld R unit :=
  modify (fun p => (p.1, f <$> p.2)).

(** [if err != nil { writeError(w, 500, prefix+err.Error()); return }] *)
Definition or_fail {A} (prefix : string) (m : act world store_error A) : act tworld response A :=
  let! o := lift (try m) in
  match o with
  | inl e => exit (RError 500 (MsgStore prefix e) "" "")
  | inr a => ret a
  end.

Definition require (b : bool) (r : response) : act tworld response unit := if b then ret tt else exit r.

(** [rand.Read] of a buffer of [k] bytes; [None] is its error. *)
Definition rand_read {R} (k : nat) : act world R (option (list ascii)) :=
  let! n := tick in
  ret (if rand_ok n then Some (rand_byte n <$> seq 0 k) else None).

(** [None] is the error of [rand.Read]. *)
Definition newAPIKey {R} (tenantID : string) : act world R (option (APIKey * string)) :=
  let! p := rand_read 4 in
  match p with
  | None => ret None
  | Some prefixBytes =>
      let! s := rand_read 24 in
      match s with
      | None => ret None
      | Some secretBytes =>
          let prefix := of_chars (hex_encode prefixBytes) in
          let plaintext := of_chars (chars "sbk_" ++ hex_encode prefixBytes ++ chars "_" ++ hex_encode secretBytes) in
          let! id := fresh_uuid in
          let! now := time_now in
          ret (Some (mkAPIKey id tenantID (hashAPIKey plaintext) prefix now 0, plaintext))
      end
  end.

Definition apiKeyToResponse (k : APIKey) (plaintext : string) : apiKeyResponse :=
  mkKeyResponse (k_ID k) (k_TenantID k) (k_Prefix k) (k_CreatedAt k) (k_RevokedAt k) plaintext.

(** [None]: the caller may set [n]. *)
Definition maxSandboxesError (role : authRole) (n : Z) : option string :=
  if decide (n < 0 \/ n > 2147483647) then Some "max_sandboxes must be between 0 and 2147483647"
  else if decide (role <> roleAdmin /\ (n < 1 \/ n > DefaultMaxSandboxes))
  then Some ("max_sandboxes must be between 1 and " +:+ pretty DefaultMaxSandboxes +:+ " for a provisioner key")
  else None.

Definition handleListTenants (auth : option authIdentity) : act tworld response response :=
  do! lift (requireAdmin auth) in
  let! tenants := or_fail "" ListTenants in
  ret (RTenants tenants).

Definition key_error {A} : act tworld response A := exit (writeError 500 "failed to create api key: rand").

Definition handleCreateTenant (auth : option authIdentity) (body : option createTenantRequest) : act tworld response response :=
  let! role := lift (requireAdminOrProvisioner auth) in
  match body with
  | None => exit (writeError 400 "invalid JSON body")
  | Some req =>
      let! maxSandboxes :=
        match ct_MaxSandboxes req with
        | None => ret DefaultMaxSandboxes
        | Some n => match maxSandboxesError role n with
                    | Some msg => exit (writeError 400 msg)
                    | None => ret n
                    end
        end in
      let createKey := default true (ct_CreateKey req) in
      let! now := lift time_now in
      let! id := lift fresh_uuid in
      let t := mkTenant id (ct_Name req) (ct_ExternalRef req) maxSandboxes now in
      if createKey : bool then
        let! ok := lift (newAPIKey (t_ID t)) in
        match ok with
        | None => key_error
        | Some (k, plaintext) =>
            do! or_fail "failed to create tenant: " (CreateTenantWithAPIKey t k) in
            ret (RTenant 201 t (Some (apiKeyToResponse k plaintext)))
        end
      else
        do! or_fail "failed to create tenant: " (CreateTenant t) in
        ret (RTenant 201 t None)
  end.

Definition handleGetTenant (auth : option authIdentity) (id : string) : act tworld response response :=
  do! lift (requireAdmin auth) in
  do! require (isValidUUID id) (writeError 400 "invalid tenant id") in
  let! t := or_fail "" (GetTenant id) in
  match t with
  | None => exit (writeError 404 "tenant not found")
  | Some t => ret (RTenant 200 t None)
  end.

Definition handleUpdateTenant (auth : option authIdentity) (id : string) (body : option updateTenantRequest) :
    act tworld response response :=
  let! role := lift (requireAdminOrProvisioner auth) in
  do! require (isValidUUID id) (writeError 400 "invalid tenant id") in
  match body with
  | None => exit (writeError 400 "invalid JSON body")
  | Some req =>
      match ut_MaxSandboxes req with
      | None => exit (writeError 400 "max_sandboxes is required")
      | Some n =>
          match maxSandboxesError role n with
          | Some msg => exit (writeError 400 msg)
          | None =>
              let! t := or_fail "" (GetTenant id) in
              match t with
              | None => exit (writeError 404 "tenant not found")
              | Some t =>
                  let! o := lift (try (UpdateTenantLimits id n)) in
                  match o with
                  | inl ErrTenantNotFound => exit (writeError 404 "tenant not found")
                  | inl e => exit (RError 500 (MsgStore "" e) "" "")
                  | inr _ => ret (RTenant 200 (set_max_sandboxes n t) None)
                  end
              end
          end
      end
  end.

Definition handleDeleteTenant (auth : option authIdentity) (id : string) : act tworld response response :=
  let! _role := lift (requireAdminOrProvisioner auth) in
  do! require (isValidUUID id) (writeError 400 "invalid tenant id") in
  let! t := or_fail "" (GetTenant id) in
  match t with
  | None =>
      do! on_cache (KeyCache.invalidateTenant id) in
      ret RNoContent
  | Some _ =>
      let! o := lift (try (DeleteTenant id)) in
      do! on_cache (KeyCache.invalidateTenant id) in
      match o with
      | inl ErrTenantHasSandboxes => exit (writeError 409 "tenant has sandboxes; delete them first")
      | inl e => exit (RError 500 (MsgStore "" e) "" "")
      | inr _ => ret RNoContent
      end
  end.

Definition handleListTenantKeys (auth : option authIdentity) (tenantID : string) : act tworld response response :=
  do! lift (requireAdmin auth) in
  do! require (isValidUUID tenantID) (writeError 400 "invalid tenant id") in
  let! t := or_fail "" (GetTenant tenantID) in
  match t with
  | None => exit (writeError 404 "tenant not found")
  | Some _ =>
      let! keys := or_fail "" (ListAPIKeysByTenant tenantID) in
      ret (RKeys ((fun k => apiKeyToResponse k "") <$> keys))
  end.

(** [None] is the error of [newAPIKey]. *)
Definition mintAPIKey (tenantID : string) : act world store_error (option apiKeyResponse) :=
  let! ok := newAPIKey tenantID in
  match ok with
  | None => ret None
  | Some (k, plaintext) =>
      do! CreateAPIKey k in
      ret (Some (apiKeyToResponse k plaintext))
  end.

Definition handleCreateTenantKey (auth : option authIdentity) (tenantID : string) : act tworld response response :=
  do! lift (requireAdmin auth) in
  do! require (isValidUUID tenantID) (writeError 400 "invalid tenant id") in
  let! t := or_fail "" (GetTenant tenantID) in
  match t with
  | None => exit (writeError 404 "tenant not found")
  | Some _ =>
      let! k := or_fail "failed to create api key: " (mintAPIKey tenantID) in
      match k with
      | None => key_error
      | Some k => ret (RKey k)
      end
  end.

Definition handleRevokeTenantKey (auth : option authIdentity) (tenantID keyID : string) : act tworld response response :=
  do! lift (requireAdmin auth) in
  do! require (isValidUUID tenantID && isValidUUID keyID) (writeError 400 "invalid id") in
  let! k := or_fail "" (GetAPIKey keyID) in
  match k with
  | None => exit (writeError 404 "api key not found")
  | Some k =>
      if decide (k_TenantID k <> tenantID) then exit (writeError 404 "api key not found")
      else
        let! o := lift (try (RevokeAPIKey keyID)) in
        do! on_cache (KeyCache.invalidate (k_KeyHash k)) in
        match o with
        | inl e => exit (RError 500 (MsgStore "" e) "" "")
        | inr _ => ret RNoContent
        end
  end.
End tenants.

(** ** Properties *)

Section tenants_laws.
Context {E : Env} {St : SandboxStore} {HL : StoreLaws St} {KE : KeyEnv} {RD : RandEnv}.
Context (DefaultMaxSandboxes : Z).

Lemma wp_lift {R A} (m : act world R A) (Q : R + A -> tworld -> Prop) p :
  wp m (fun o w' => Q o (w', p.2)) p.1 -> wp (lift m) Q p.
Proof. unfold wp, lift. by destruct (m p.1). Qed.

(** What a store call of a handler leaves behind, and the 500 it may end in. *)
Lemma wp_or_fail_reads {A} prefix (m : act world store_error A) P (Q : response + A -> tworld -> Prop) p :
  reads m P ->
  (forall e p', w_db p'.1 = w_db p.1 -> p'.2 = p.2 -> Q (inl (RError 500 (MsgStore prefix e) "" "")) p') ->
  (forall a p', w_db p'.1 = w_db p.1 -> p'.2 = p.2 -> P (w_db p.1) a -> Q (inr a) p') ->
  wp (or_fail prefix m) Q p.
Proof.
  intros Hm He Ha. unfold or_fail. apply wp_bind, wp_lift, wp_try. eapply wp_mono; [apply Hm|].
  intros [e|a] w' (Hdb & _ & Hr); simpl; [apply wp_exit|apply wp_ret]; auto.
Qed.

Lemma wp_requireAdmin auth (Q : response + unit -> tworld -> Prop) p :
  Q (inl (writeError 403 "admin API key required")) p ->
  (forall i, auth = Some i -> Role i = roleAdmin -> Q (inr tt) p) -> wp (lift (requireAdmin auth)) Q p.
Proof.
  intros H1 H2. apply wp_lift. destruct p. unfold requireAdmin. destruct auth as [i|]; [case_decide|];
    first [apply wp_ret|apply wp_exit]; eauto.
Qed.

Lemma wp_requireAdminOrProvisioner auth (Q : response + authRole -> tworld -> Prop) p :
  Q (inl (writeError 403 "admin or provisioner API key required")) p ->
  (forall i, auth = Some i -> Role i = roleAdmin \/ Role i = roleProvisioner -> Q (inr (Role i)) p) ->
  wp (lift (requireAdminOrProvisioner auth)) Q p.
Proof.
  intros H1 H2. apply wp_lift. destruct p. unfold requireAdminOrProvisioner. destruct auth as [i|]; [case_decide|];
    first [apply wp_ret|apply wp_exit]; eauto.
Qed.

Lemma wp_require b r (Q : response + unit -> tworld -> Prop) p :
  (b = false -> Q (inl r) p) -> (b = true -> Q (inr tt) p) -> wp (require b r) Q p.
Proof. destruct b; intros H1 H2; [apply wp_ret|apply wp_exit]; auto. Qed.

(** ** Minted keys *)

Definition plaintext_of (prefixBytes secretBytes : list ascii) : string :=
  of_chars (chars "sbk_" ++ hex_encode prefixBytes ++ chars "_" ++ hex_encode secretBytes).

(** The middleware finds a key under the prefix it was stored with. *)
Lemma apiKeyPrefix_plaintext f s : apiKeyPrefix (plaintext_of (f <$> seq 0 4) s) = of_chars (hex_encode (f <$> seq 0 4)).
Proof. unfold plaintext_of. remember (hex_encode s) as t. clear Heqt s. reflexivity. Qed.

Definition minted (tenantID : string) (k : APIKey) (plaintext : string) : Prop :=
  k_TenantID k = tenantID /\ k_RevokedAt k = 0 /\ k_KeyHash k = hashAPIKey plaintext /\ k_Prefix k = apiKeyPrefix plaintext.

Lemma wp_newAPIKey {R} tenantID (Q : R + option (APIKey * string) -> world -> Prop) w :
  (forall w', w_db w' = w_db w -> Q (inr None) w') ->
  (forall w' k s, w_db w' = w_db w -> minted tenantID k s -> Q (inr (Some (k, s))) w') ->
  wp (newAPIKey tenantID) Q w.
Proof.
  intros Hn Hs. unfold newAPIKey, rand_read. apply wp_bind, wp_bind, wp_tick, wp_ret.
  destruct (rand_ok _); [|apply wp_ret; by apply Hn].
  apply wp_bind, wp_bind, wp_tick, wp_ret. destruct (rand_ok _); [|apply wp_ret; by apply Hn].
  apply wp_bind, wp_fresh_uuid, wp_bind, wp_time_now, wp_ret. apply Hs; [done|].
  do 3 (split; [done|]). symmetry. apply apiKeyPrefix_plaintext.
Qed.

Lemma insert_key_active tenantID k s d d' :
  minted tenantID k s -> sql_insert_key k d = Some d' ->
  active_key s tenantID d' /\ is_Some (tenants d' !! tenantID) /\ d' = set_api_keys (<[k_ID k := key_to_row k]> (api_keys d)) d.
Proof.
  intros (Ht & Hr & Hh & Hp). unfold sql_insert_key.
  destruct (api_keys d !! k_ID k); [done|]. rewrite Ht. destruct (tenants d !! tenantID) eqn:Et; [|done]. intros [= <-]. split; [|split; [simpl; eauto|done]].
  exists k. rewrite <- Hh, <- Hp. split; [|done]. unfold active_key_rows. apply list_elem_of_fmap.
  exists (k_ID k, key_to_row k). split.
  - destruct k; simpl in *. unfold scanAPIKey, key_to_row. simpl. by rewrite Hr.
  - apply list_elem_of_filter. split; [simpl; by rewrite Hr|]. apply elem_of_map_to_list. simpl. apply lookup_insert_eq.
Qed.

(** With no other key of the same digest, an active key is found as its
    tenant's. *)
Definition lookup_finds (key tid : string) (d : db) : Prop :=
  (forall id r, api_keys d !! id = Some r -> kr_hash r = hashAPIKey key -> kr_tenant r = tid) ->
  forall w, w_db w = d -> wp (lookupTenantKey key (hashAPIKey key))
    (fun o w' => w_db w' = d /\ match o with inl e => db_failure e | inr t => t = tid end) w.

Lemma active_key_found key tid d : active_key key tid d -> lookup_finds key tid d.
Proof.
  intros (c & Hc & Hh & Ht) Huniq w Hw. unfold lookupTenantKey. apply wp_bind. eapply wp_mono; [apply ListActiveAPIKeysByPrefix_law|].
  rewrite Hw. intros [e|l] w' (Hdb & _ & Hl); [done|]. apply wp_ret. split; [done|].
  assert (Hc' : c ∈ filter (fun c => k_KeyHash c = hashAPIKey key) l) by (apply list_elem_of_filter; by rewrite Hl).
  destruct (filter _ l) as [|c0 l'] eqn:Ef; [by apply elem_of_nil in Hc'|].
  assert (Hc0 : c0 ∈ filter (fun c => k_KeyHash c = hashAPIKey key) l) by (rewrite Ef; by left).
  apply list_elem_of_filter in Hc0 as [Hh0 Hc0]. rewrite Hl in Hc0. unfold active_key_rows in Hc0.
  apply list_elem_of_fmap in Hc0 as ([id r] & -> & [_ Hin]%list_elem_of_filter).
  apply elem_of_map_to_list in Hin. by apply (Huniq id).
Qed.

(** A key handed out works.  When creating a tenant or a key answers 201 with
    a key, the tenant is saved and the key is one of its active keys, under the
    prefix the middleware looks it up by; so looking up the plaintext returned
    gives the tenant, barring a database failure or two keys with one digest. *)
Theorem minted_key_authenticates auth body tenantID p :
  wp (handleCreateTenant DefaultMaxSandboxes auth body) (fun o p' =>
     forall t k, o = inr (RTenant 201 t (Some k)) ->
       tenants (w_db p'.1) !! t_ID t = Some t /\ kresp_TenantID k = t_ID t /\
       active_key (kresp_APIKey k) (t_ID t) (w_db p'.1) /\ lookup_finds (kresp_APIKey k) (t_ID t) (w_db p'.1)) p /\
  wp (handleCreateTenantKey auth tenantID) (fun o p' =>
     forall k, o = inr (RKey k) ->
       is_Some (tenants (w_db p'.1) !! tenantID) /\ kresp_TenantID k = tenantID /\
       active_key (kresp_APIKey k) tenantID (w_db p'.1) /\ lookup_finds (kresp_APIKey k) tenantID (w_db p'.1)) p.
Proof.
  split.
  - unfold handleCreateTenant. apply wp_bind, wp_requireAdminOrProvisioner; [done|]. intros i -> _.
    destruct body as [req|]; [|done]. apply wp_bind.
    apply (wp_mono _ (fun o _ => match o with inl r => forall t k, r <> RTenant 201 t k | inr _ => True end)).
    { destruct (ct_MaxSandboxes req) as [n|]; [destruct (maxSandboxesError _ _ n)|]; done. }
    intros [r|n] p1 Hr; [naive_solver|]. clear Hr. apply wp_bind, wp_lift, wp_time_now, wp_bind, wp_lift, wp_fresh_uuid.
    destruct (default true _).
    + apply wp_bind, wp_lift, wp_newAPIKey; [done|]. intros w2 k s _ Hk. apply wp_bind.
      unfold or_fail. apply wp_bind, wp_lift, wp_try. eapply wp_mono; [apply CreateTenantWithAPIKey_law|].
      intros [e|[]] w3 [_ Hw]; [done|]. apply wp_ret. intros t' k' [= <- <-]. destruct Hw as [_ Hw].
      apply bind_Some in Hw as (d1 & Ht & Hw). destruct (insert_key_active _ _ _ _ _ Hk Hw) as (Hact & _ & Hd).
      cbn [fst t_ID kresp_APIKey kresp_TenantID apiKeyToResponse]. split; [|split; [apply Hk|split; [done|by apply active_key_found]]].
      unfold sql_insert_tenant in Ht. rewrite Hd. case_match; simplify_eq. apply lookup_insert_eq.
    + apply wp_bind. unfold or_fail. apply wp_bind, wp_lift, wp_try. eapply wp_mono; [apply CreateTenant_law|].
      by intros [e|[]] w3 [_ Hw].
  - unfold handleCreateTenantKey. apply wp_bind, wp_requireAdmin; [done|]. intros i -> _.
    apply wp_bind, wp_require; [done|intros _]. apply wp_bind. eapply wp_or_fail_reads; [apply GetTenant_law|done|].
    intros [t|] p1 Hp1 _ _; [|done]. apply wp_bind. unfold or_fail, mintAPIKey. apply wp_bind, wp_lift, wp_try, wp_bind.
    apply wp_newAPIKey; [done|]. intros w2 k s Hw2 Hk. apply wp_bind. eapply wp_mono; [apply CreateAPIKey_law|].
    intros [e|[]] w3 [_ Hw]; [done|]. apply wp_ret. intros k' [= <-]. destruct (insert_key_active _ _ _ _ _ Hk Hw) as (Hact & Ht & _).
    cbn [fst kresp_APIKey kresp_TenantID apiKeyToResponse]. split; [done|split; [apply Hk|split; [done|by apply active_key_found]]].
Qed.

(** ** Limits *)

(** The limits a caller with this role may give a tenant. *)
Definition limit_ok (role : authRole) (n : Z) : Prop :=
  n = DefaultMaxSandboxes \/ 0 <= n <= 2147483647 /\ (role = roleAdmin \/ 1 <= n <= DefaultMaxSandboxes).

Lemma maxSandboxesError_None role n : maxSandboxesError DefaultMaxSandboxes role n = None -> limit_ok role n.
Proof.
  unfold maxSandboxesError, limit_ok. repeat case_decide; try done. intros _. right. split; [lia|].
  destruct (decide (role = roleAdmin)); [by left|right]. destruct (decide (1 <= n <= DefaultMaxSandboxes)); [done|].
  exfalso. naive_solver lia.
Qed.

(** From [d] to [d'], the tenant [id] alone was added or given another limit, by
    a caller with this identity. *)
Definition tenant_change (auth : option authIdentity) (d d' : db) : Prop :=
  sandboxes d' = sandboxes d /\
  (tenants d' = tenants d \/
   exists i id t, auth = Some i /\ (Role i = roleAdmin \/ Role i = roleProvisioner) /\ limit_ok (Role i) (t_MaxSandboxes t) /\
     tenants d' = <[id := t]> (tenants d) /\
     (forall t0, tenants d !! id = Some t0 -> t = set_max_sandboxes (t_MaxSandboxes t) t0)).

Lemma tenant_change_refl auth d d' : d' = d -> tenant_change auth d d'.
Proof. intros ->. split; [done|by left]. Qed.

Lemma insert_tenant_change auth i t d d' :
  auth = Some i -> Role i = roleAdmin \/ Role i = roleProvisioner -> limit_ok (Role i) (t_MaxSandboxes t) ->
  sql_insert_tenant t d = Some d' -> tenant_change auth d d'.
Proof.
  intros Ha Hr Hl. unfold sql_insert_tenant. destruct (tenants d !! t_ID t) eqn:Et; [done|]. intros [= <-].
  split; [done|]. right. exists i, (t_ID t), t. do 4 (split; [done|]). intros t0 Ht0. congruence.
Qed.

Lemma limits_change auth i id n d :
  auth = Some i -> Role i = roleAdmin \/ Role i = roleProvisioner -> limit_ok (Role i) n -> is_Some (tenants d !! id) ->
  tenant_change auth d (set_tenants (alter (set_max_sandboxes n) id (tenants d)) d).
Proof.
  intros Ha Hr Hl [t0 Ht0]. split; [done|]. right. exists i, id, (set_max_sandboxes n t0). do 3 (split; [done|]). split.
  - simpl. apply map_eq. intros j. destruct (decide (j = id)) as [->|Hne].
    + by rewrite lookup_alter_eq, Ht0, lookup_insert_eq.
    + by rewrite lookup_alter_ne, lookup_insert_ne by done.
  - intros t1 Ht1. simplify_eq. done.
Qed.

(** What a write ends in, when success and failure alike make a [tenant_change]. *)
Lemma wp_writes_change {A} (m : act world store_error A) f refused auth d w (Q : store_error + A -> world -> Prop) :
  writes m f refused -> w_db w = d -> (forall d', f d d' -> tenant_change auth d d') ->
  (forall o w', tenant_change auth d (w_db w') -> Q o w') -> wp m Q w.
Proof.
  intros Hm Hd Hf HQ. eapply wp_mono; [apply Hm|]. rewrite Hd. intros [e|a] w' [_ Hw]; apply HQ; [|auto].
  destruct Hw as [[_ [->|Hw]]|[_ ->]]; auto using tenant_change_refl.
Qed.

Lemma create_change auth body p :
  wp (handleCreateTenant DefaultMaxSandboxes auth body) (fun _ p' => tenant_change auth (w_db p.1) (w_db p'.1)) p.
Proof.
  unfold handleCreateTenant. apply wp_bind, wp_requireAdminOrProvisioner; [by apply tenant_change_refl|].
  intros i Hi Hr. destruct body as [req|]; [|by apply tenant_change_refl]. apply wp_bind.
  apply (wp_mono _ (fun o p' => p' = p /\ match o with inl _ => True | inr n => limit_ok (Role i) n end)).
  { destruct (ct_MaxSandboxes req) as [n|]; [|split; [done|by left]].
    destruct (maxSandboxesError _ _ n) eqn:En; [done|]. split; [done|by apply maxSandboxesError_None]. }
  intros [r|n] p1 [-> Hn]; [by apply tenant_change_refl|].
  apply wp_bind, wp_lift, wp_time_now, wp_bind, wp_lift, wp_fresh_uuid. unfold or_fail.
  destruct (default true _).
  - apply wp_bind, wp_lift, wp_newAPIKey; [intros w1 Hw1; by apply tenant_change_refl|]. intros w1 k s Hw1 Hk.
    apply wp_bind, wp_bind, wp_lift, wp_try. eapply wp_writes_change; [apply CreateTenantWithAPIKey_law|exact Hw1| |].
    + intros d' [_ Hd]. apply bind_Some in Hd as (d1 & Ht & Hk').
      destruct (insert_key_active _ _ _ _ _ Hk Hk') as (_ & _ & ->). destruct (insert_tenant_change auth i (mkTenant _ _ _ n _) _ _ Hi Hr Hn Ht) as [Hs Hc].
      by split.
    + by intros [e|a] w'.
  - apply wp_bind, wp_bind, wp_lift, wp_try. eapply wp_writes_change; [apply CreateTenant_law|done| |].
    + intros d' Hd. exact (insert_tenant_change auth i (mkTenant _ _ _ n _) _ _ Hi Hr Hn Hd).
    + by intros [e|a] w'.
Qed.

Lemma update_change auth id body p :
  wp (handleUpdateTenant DefaultMaxSandboxes auth id body) (fun o p' => tenant_change auth (w_db p.1) (w_db p'.1) /\
     forall t k, o = inr (RTenant 200 t k) -> exists n, (body = Some (mkUpdateTenant (Some n)) /\ t_MaxSandboxes t = n)) p.
Proof.
  unfold handleUpdateTenant. apply wp_bind, wp_requireAdminOrProvisioner; [split; [by apply tenant_change_refl|done]|].
  intros i Hi Hr. apply wp_bind, wp_require; [split; [by apply tenant_change_refl|done]|intros _].
  destruct body as [[[n|]]|]; [|split; [by apply tenant_change_refl|done]..]. simpl.
  destruct (maxSandboxesError _ _ n) eqn:En; [split; [by apply tenant_change_refl|done]|].
  apply maxSandboxesError_None in En. apply wp_bind. eapply wp_or_fail_reads; [apply GetTenant_law|..].
  { intros e p1 Hp1 _. split; [by apply tenant_change_refl|done]. }
  intros [t|] p1 Hp1 _ _; [|split; [by apply tenant_change_refl|done]].
  apply wp_bind, wp_lift, wp_try. eapply wp_writes_change; [apply UpdateTenantLimits_law|exact Hp1| |].
  - intros d' [[Hs ->]|[_ ->]]; [by eapply limits_change|by apply tenant_change_refl].
  - intros [e|a] w' Hc; [destruct e|]; (split; [done|]); try done. intros t' k [= <- <-]. by exists n.
Qed.

(** Only an admin or a provisioner adds a tenant or changes a limit, and a
    provisioner never grants more than the default, nor "unlimited" while the
    default is a limit.  Whatever fails, the two handlers leave every sandbox and
    every other tenant alone, an update changes nothing but the limit, and a 200
    shows the limit asked for. *)
Theorem provisioner_limits_bounded auth id cbody ubody p :
  wp (handleCreateTenant DefaultMaxSandboxes auth cbody) (fun _ p' => tenant_change auth (w_db p.1) (w_db p'.1)) p /\
  wp (handleUpdateTenant DefaultMaxSandboxes auth id ubody) (fun o p' => tenant_change auth (w_db p.1) (w_db p'.1) /\
     forall t k, o = inr (RTenant 200 t k) -> exists n, (ubody = Some (mkUpdateTenant (Some n)) /\ t_MaxSandboxes t = n)) p.
Proof. split; [apply create_change|apply update_change]. Qed.

(** ** Revocation *)

(** The cache forgot every entry in [P], and every lookup under way will not
    store what it read. *)
Definition forgotten (P : string -> KeyCache.apiKeyCacheEntry -> Prop) (c c' : option KeyCache.apiKeyCache) : Prop :=
  match c, c' with
  | None, None => True
  | Some c, Some c' => KeyCache.gen c' = S (KeyCache.gen c) /\
      forall h e, KeyCache.byKeyHash c' !! h = Some e -> ~ P h e
  | _, _ => False
  end.

Lemma forgotten_tenant id c : forgotten (fun _ e => KeyCache.tenantID e = id) c (KeyCache.invalidateTenant id <$> c).
Proof.
  destruct c as [c|]; [|done]. split; [done|]. simpl. intros h e He. apply map_lookup_filter_Some in He as [_ He]. exact He.
Qed.

Lemma forgotten_hash hash c : forgotten (fun h _ => h = hash) c (KeyCache.invalidate hash <$> c).
Proof.
  destruct c as [c|]; [|done]. split; [done|]. simpl. intros h e [Hne _]%lookup_delete_Some. congruence.
Qed.

(** A tenant or key that is gone from the tables is gone from this replica's
    cache too: whenever deleting a tenant answers 204 or changed the tables, with
    the reply lost or not, the cache holds none of its keys and no lookup under
    way will cache one; the same for a revoked key.  A 204 means the tenant does
    not exist or the key is revoked, a tenant with sandboxes is never deleted,
    and no sandbox is touched. *)
Theorem revocation_reaches_cache auth id tenantID keyID p :
  wp (handleDeleteTenant auth id) (fun o p' =>
     sandboxes (w_db p'.1) = sandboxes (w_db p.1) /\
     (o = inr RNoContent \/ w_db p'.1 <> w_db p.1 -> forgotten (fun _ e => KeyCache.tenantID e = id) p.2 p'.2) /\
     (o = inr RNoContent -> tenants (w_db p'.1) !! id = None) /\
     (count_tenant id (w_db p.1) > 0 -> w_db p'.1 = w_db p.1)) p /\
  wp (handleRevokeTenantKey auth tenantID keyID) (fun o p' =>
     sandboxes (w_db p'.1) = sandboxes (w_db p.1) /\ tenants (w_db p'.1) = tenants (w_db p.1) /\
     (o = inr RNoContent \/ w_db p'.1 <> w_db p.1 -> exists k, api_keys (w_db p.1) !! keyID = Some k /\ kr_tenant k = tenantID /\
        forgotten (fun h _ => h = kr_hash k) p.2 p'.2) /\
     (o = inr RNoContent -> exists k, api_keys (w_db p'.1) !! keyID = Some k /\ is_Some (kr_revoked k))) p.
Proof.
  split.
  - unfold handleDeleteTenant. apply wp_bind, wp_requireAdminOrProvisioner; [naive_solver|]. intros i Hi _.
    apply wp_bind, wp_require; [naive_solver|intros _]. apply wp_bind. eapply wp_or_fail_reads; [apply GetTenant_law|..].
    { intros e p1 -> _. naive_solver. }
    intros [t|] p1 Hp1 Hc Ht.
    + apply wp_bind, wp_lift, wp_try. eapply wp_mono; [apply DeleteTenant_law|]. rewrite Hp1. intros o w' [_ Hw].
      apply wp_bind, wp_modify. rewrite Hc. pose proof (forgotten_tenant id p.2) as Hf.
      assert (Hd : w_db w' = w_db p.1 \/ count_tenant id (w_db p.1) = 0 /\ w_db w' = delete_tenant id (w_db p.1)).
      { destruct o as [e|a]; [destruct Hw as [[_ [?|[(?&_&?)|[_ ?]]]]|[_ ?]]|destruct Hw as [(?&_&?)|[_ ?]]]; auto. }
      assert (Hs : sandboxes (w_db w') = sandboxes (w_db p.1)) by (destruct Hd as [->|[_ ->]]; done).
      assert (Hn : count_tenant id (w_db p.1) > 0 -> w_db w' = w_db p.1) by (destruct Hd as [->|[-> _]]; [done|lia]).
      destruct o as [e|a]; [destruct e; (split; [done|]; split; [done|]; split; [done|exact Hn])|].
      split; [done|]. split; [done|]. split; [|exact Hn]. intros _. simpl.
      destruct Hw as [(_ & _ & ->)|[? ->]]; [apply lookup_delete_eq|done].
    + apply wp_bind, wp_modify, wp_ret. simpl. rewrite Hp1, Hc. pose proof (forgotten_tenant id p.2). naive_solver.
  - unfold handleRevokeTenantKey. apply wp_bind, wp_requireAdmin; [naive_solver|]. intros i Hi _.
    apply wp_bind, wp_require; [naive_solver|intros _]. apply wp_bind. eapply wp_or_fail_reads; [apply GetAPIKey_law|..].
    { intros e p1 -> _. naive_solver. }
    intros [k|] p1 Hp1 Hc Hk; [|apply wp_exit; rewrite Hp1; naive_solver]. symmetry in Hk. apply fmap_Some in Hk as (r & Hr & ->).
    case_decide as Ht; [apply wp_exit; rewrite Hp1; naive_solver|]. simpl in Ht.
    apply wp_bind, wp_lift, wp_try. eapply wp_mono; [apply RevokeAPIKey_law|]. rewrite Hp1. intros o w' [_ Hw].
    apply wp_bind, wp_modify. rewrite Hc. pose proof (forgotten_hash (kr_hash r) p.2) as Hf. simpl.
    assert (Hd : w_db w' = w_db p.1 \/ exists now, w_db w' = revoke_key keyID now (w_db p.1)) by (destruct o; naive_solver).
    assert (Hs : sandboxes (w_db w') = sandboxes (w_db p.1) /\ tenants (w_db w') = tenants (w_db p.1)).
    { destruct Hd as [->|[now ->]]; done. }
    destruct o as [e|a]; (split; [apply Hs|]; split; [apply Hs|]; split; [intros _; by exists r|]); [done|]. intros _.
    destruct Hw as [now Hw]. exists (revoke_row now r). simpl. rewrite Hw. simpl. rewrite lookup_alter_eq, Hr. split; [done|].
    unfold revoke_row. destruct (kr_revoked r) eqn:Er; simpl; [rewrite Er|]; eauto.
Qed.
End tenants_laws.

(** ** Runs *)

Definition fixed_rand : RandEnv := {| rand_ok _ := true; rand_byte n i := byte (N.of_nat (n + i)) |}.

(** Ids that are UUIDs, one per call. *)
Definition id_a : string := "0a000000-0000-4000-8000-000000000000".
Definition id_b : string := "0b000000-0000-4000-8000-000000000000".
Definition uuid_env : Env := {|
  sql_fault _ := NoFault; unix_now _ := 100; mono_now _ := 0; ctx_err _ := false;
  new_uuid n := if decide (n <= 1)%nat then id_a else id_b;
  runner_create _ _ _ _ := CreateReply "" ""; runner_delete _ _ _ := CallOK; runner_stop _ _ _ := CallOK |}.

Definition start : tworld := (StoreInv.StoreInv.empty_world, KeyCache.newAPIKeyCache 60).
Definition provisioner : option authIdentity := Some (mkIdentity roleProvisioner "").
Definition administrator : option authIdentity := Some (mkIdentity roleAdmin "").

Definition run_create : (response + response) * tworld :=
  handleCreateTenant (E := uuid_env) (St := SQLiteStore (H := uuid_env)) (KE := plain_keys) (RD := fixed_rand) 50
    provisioner (Some (mkCreateTenant "acme" "" (Some 10) None)) start.

Definition the_key : string := "sbk_02030405_030405060708090a0b0c0d0e0f101112131415161718191a".

Lemma minted_key_authenticates_witness :
  (exists t k, run_create.1 = inr (RTenant 201 t (Some k)) /\ kresp_APIKey k = the_key) /\
  active_key (KE := plain_keys) the_key id_a (w_db run_create.2.1).
Proof.
  split; [eexists _, _; split; vm_compute; reflexivity|].
  pose proof (minted_key_authenticates (E := uuid_env) (St := SQLiteStore (H := uuid_env)) (KE := plain_keys)
    (RD := fixed_rand) 50 provisioner (Some (mkCreateTenant "acme" "" (Some 10) None)) id_a start) as [H _].
  unfold wp in H. fold run_create in H.
  assert (Ho : exists t k, run_create.1 = inr (RTenant 201 t (Some k)) /\ kresp_APIKey k = the_key /\ t_ID t = id_a)
    by (eexists _, _; split; [|split]; vm_compute; reflexivity).
  destruct Ho as (t & k & Ho & <- & <-). destruct run_create as [o p']. simpl in Ho. by apply (H t k Ho).
Defined.

Lemma provisioner_limits_bounded_witness :
  (exists t k, run_create.1 = inr (RTenant 201 t k) /\ t_MaxSandboxes t = 10) /\
  tenant_change 50 provisioner (w_db start.1) (w_db run_create.2.1).
Proof.
  split; [eexists _, _; split; vm_compute; reflexivity|].
  pose proof (provisioner_limits_bounded (E := uuid_env) (St := SQLiteStore (H := uuid_env)) (KE := plain_keys)
    (RD := fixed_rand) 50 provisioner id_a (Some (mkCreateTenant "acme" "" (Some 10) None)) None start) as [H _].
  unfold wp in H. fold run_create in H. by destruct run_create as [o p'].
Defined.

(** A replica that has the key in its cache, and the tables with its tenant. *)
Definition cached_start : tworld :=
  (set_db (mkDB ∅ {[id_a := mkTenant id_a "acme" "" 2 0]} {[id_b := mkKeyRow id_a "hash" "0123abcd" 0 None]})
     StoreInv.StoreInv.empty_world,
   Some (KeyCache.mkCache 60 {["hash" := KeyCache.mkEntry id_a 60]} 0)).

Definition run_delete : (response + response) * tworld :=
  handleDeleteTenant (St := SQLiteStore (H := uuid_env)) provisioner id_a cached_start.

Lemma revocation_reaches_cache_witness :
  run_delete.1 = inr RNoContent /\
  tenants (w_db run_delete.2.1) !! id_a = None /\
  forgotten (fun _ e => KeyCache.tenantID e = id_a) cached_start.2 run_delete.2.2.
Proof.
  assert (Ho : run_delete.1 = inr RNoContent) by (vm_compute; reflexivity). split; [done|].
  pose proof (revocation_reaches_cache (St := SQLiteStore (H := uuid_env)) provisioner id_a id_a id_b cached_start) as [H _].
  unfold wp in H. fold run_delete in H. destruct run_delete as [o p']. simpl in Ho. naive_solver.
Defined.

End Tenants.
