(* ===== verification/Wire.v ===== *)
(** * Exec events on the wire ([internal/daemon/protocol.go],
    [execEventPrefix] of [internal/runner/exec_proxy.go])

    The daemon writes an execution's events as lines of JSON; the runner reads
    only the head of a line.  [encoding/json], [unicode/utf8] and [strconv] are
    modelled as far as they are used, on bytes. *)

From S2P Require Import Prelude GoStrings Ids.

Module Wire.
Import GoStrings Ids.

(** ** [unicode/utf8] *)

Definition between (lo hi n : N) : bool := (lo <=? n)%N && (n <=? hi)%N.

(** The table [first]: how many bytes the character takes that starts with this
    byte and what the second may be; [None] for a byte that starts none. *)
Definition first (n : N) : option (nat * (N * N)) :=
  if (n <? 128)%N then Some (1%nat, (0, 255)%N)
  else if (n <? 194)%N then None
  else if (n <? 224)%N then Some (2%nat, (128, 191)%N)
  else if (n =? 224)%N then Some (3%nat, (160, 191)%N)
  else if (n =? 237)%N then Some (3%nat, (128, 159)%N)
  else if (n <? 240)%N then Some (3%nat, (128, 191)%N)
  else if (n =? 240)%N then Some (4%nat, (144, 191)%N)
  else if (n <? 244)%N then Some (4%nat, (128, 191)%N)
  else if (n =? 244)%N then Some (4%nat, (128, 143)%N)
  else None.

Definition continuation (c : ascii) : bool := between 128 191 (code c).

(** [utf8.RuneStart] *)
Definition RuneStart (c : ascii) : bool := negb (continuation c).

(** The bytes after the first one are what a character needs, as far as they go:
    the second in its range, the others continuation bytes. *)
Definition tail_ok (r : N * N) (tail : list ascii) : bool :=
  match tail with
  | [] => true
  | c1 :: rest => between r.1 r.2 (code c1) && forallb continuation rest
  end.

(** [utf8.FullRune]: whether [p] begins with a whole character, or with bytes that
    cannot become one. *)
Definition FullRune (p : list ascii) : bool :=
  match p with
  | [] => false
  | c :: tail =>
      match first (code c) with
      | None => true
      | Some (size, r) =>
          (size <=? length p)%nat ||
          match tail with
          | c1 :: c2 :: _ => negb (between r.1 r.2 (code c1)) || negb (continuation c2)
          | [c1] => negb (between r.1 r.2 (code c1))
          | [] => false
          end
      end
  end.

(** [utf8.DecodeRune]: the size of the character [p] begins with; [None] is
    [RuneError] with size 1. *)
Definition rune_size (p : list ascii) : option nat :=
  match p with
  | [] => None
  | c :: tail =>
      match first (code c) with
      | Some (size, r) =>
          if (size <=? length p)%nat && tail_ok r (take (size - 1) tail) then Some size else None
      | None => None
      end
  end.

(** Text made of whole characters. *)
Inductive utf8 : list ascii -> Prop :=
| utf8_nil : utf8 []
| utf8_cons p n l : rune_size p = Some n -> length p = n -> utf8 l -> utf8 (p ++ l).

(** ** [strconv] *)

Definition digit (d : Z) : ascii := byte (48 + Z.to_N d)%N.
Definition digit_value (c : ascii) : option Z :=
  if between 48 57 (code c) then Some (Z.of_N (code c) - 48) else None.

(** Decimal digits; 20 are enough for a uint64. *)
Fixpoint decimal (fuel : nat) (n : Z) (acc : list ascii) : list ascii :=
  match fuel with
  | O => acc
  | S f => if decide (n < 10) then digit n :: acc else decimal f (n / 10) (digit (n mod 10) :: acc)
  end.

Definition format_uint (n : Z) : list ascii := decimal 20 n [].
Definition format_int (n : Z) : list ascii := if decide (n < 0) then byte 45 :: format_uint (- n) else format_uint n.

Fixpoint digits_value (acc : Z) (l : list ascii) : option Z :=
  match l with
  | [] => Some acc
  | c :: l' => match digit_value c with Some d => digits_value (acc * 10 + d) l' | None => None end
  end.

(** [strconv.ParseUint(s, 10, 64)] *)
Definition ParseUint (l : list ascii) : option Z :=
  match l with
  | [] => None
  | _ => match digits_value 0 l with
         | Some n => if decide (n < 2 ^ 64) then Some n else None
         | None => None
         end
  end.

(** ** [encoding/json] *)

Definition dquote : ascii := byte 34.
Definition backslash : ascii := byte 92.
Definition newline : ascii := byte 10.
Definition comma : ascii := byte 44.

(** One byte below 128; the encoder escapes HTML. *)
Definition escape (c : ascii) : list ascii :=
  let n := code c in
  if (n =? 34)%N || (n =? 92)%N then [backslash; c]
  else if (n =? 8)%N then chars "\b"
  else if (n =? 12)%N then chars "\f"
  else if (n =? 10)%N then chars "\n"
  else if (n =? 13)%N then chars "\r"
  else if (n =? 9)%N then chars "\t"
  else if (n <? 32)%N || (n =? 38)%N || (n =? 60)%N || (n =? 62)%N
  then chars "\u00" ++ [hex_digit (n / 16)%N; hex_digit (n mod 16)%N]
  else [c].

(** U+2028 and U+2029 *)
Definition line_separator (p : list ascii) : option (list ascii) :=
  if decide (p = [byte 226; byte 128; byte 168]) then Some (chars "\u2028")
  else if decide (p = [byte 226; byte 128; byte 169]) then Some (chars "\u2029")
  else None.

(** The contents of a string; a byte that is no part of a character becomes
    U+FFFD.  Each round takes at least one byte. *)
Fixpoint json_chars (fuel : nat) (l : list ascii) : list ascii :=
  match fuel, l with
  | S f, c :: l' =>
      if (code c <? 128)%N then escape c ++ json_chars f l'
      else match rune_size l with
           | None => chars "\ufffd" ++ json_chars f l'
           | Some n => default (take n l) (line_separator (take n l)) ++ json_chars f (drop n l)
           end
  | _, _ => []
  end.

Definition json_string (s : list ascii) : list ascii := dquote :: json_chars (length s) s ++ [dquote].

(** ** Responses *)

Inductive ResponseType := Started | Stdout | Stderr | Exit | Error.
#[global] Instance ResponseType_eq_dec : EqDecision ResponseType.
Proof. solve_decision. Defined.

Definition type_name (t : ResponseType) : string :=
  match t with Started => "started" | Stdout => "stdout" | Stderr => "stderr" | Exit => "exit" | Error => "error" end.

Record Response := mkResponse {
  Seq : option Z;
  Type_ : ResponseType;
  ExecID : list ascii;
  Data : list ascii;
  ExitCode : Z;
  Success : option bool;
  ExecutionTimeMs : Z;
  TimedOut : option bool;
  Killed : option bool;
  ErrorText : list ascii;
}.

Definition newStartedResponse (execID : list ascii) : Response :=
  mkResponse (Some 0) Started execID [] 0 None 0 None None [].
Definition newErrorResponse (msg : list ascii) : Response :=
  mkResponse None Error [] [] 0 None 0 None None msg.
Definition isTerminal (r : Response) : bool := bool_decide (Type_ r = Exit) || bool_decide (Type_ r = Error).
Definition set_seq (s : Z) (r : Response) : Response :=
  mkResponse (Some s) (Type_ r) (ExecID r) (Data r) (ExitCode r) (Success r) (ExecutionTimeMs r) (TimedOut r) (Killed r) (ErrorText r).

Definition key (name : string) : list ascii := dquote :: chars name ++ [dquote; byte 58].
Definition opt_bytes (name : string) (s : list ascii) : list ascii :=
  match s with [] => [] | _ => comma :: key name ++ json_string s end.
Definition opt_bool (name : string) (b : option bool) : list ascii :=
  match b with None => [] | Some b => comma :: key name ++ chars (if b : bool then "true" else "false") end.

(** [json.Marshal] of a response: the fields in their order, [omitempty] ones left
    out when empty. *)
Definition marshal (r : Response) : list ascii :=
  byte 123 ::
  match Seq r with Some s => key "seq" ++ format_uint s ++ [comma] | None => [] end ++
  key "type" ++ json_string (chars (type_name (Type_ r))) ++
  opt_bytes "exec_id" (ExecID r) ++ opt_bytes "data" (Data r) ++
  comma :: key "exit_code" ++ format_int (ExitCode r) ++ opt_bool "success" (Success r) ++
  comma :: key "execution_time_ms" ++ format_int (ExecutionTimeMs r) ++
  opt_bool "timed_out" (TimedOut r) ++ opt_bool "killed" (Killed r) ++ opt_bytes "error" (ErrorText r) ++
  [byte 125].

(** ** The runner's reading of a line *)

Inductive prefix_error := MissingSeq | MissingSeqTerminator | BadSeq | MissingType | UnterminatedType.

(** [bytes.IndexByte], with what is before and from the byte on. *)
Fixpoint cut_at (c : ascii) (l : list ascii) : option (list ascii * list ascii) :=
  match l with
  | [] => None
  | x :: l' =>
      if decide (x = c) then Some ([], l)
      else match cut_at c l' with Some (a, b) => Some (x :: a, b) | None => None end
  end.

Definition seqPrefix : list ascii := byte 123 :: key "seq".
Definition typePrefix : list ascii := comma :: key "type" ++ [dquote].

Definition execEventPrefix (line : list ascii) : prefix_error + Z * list ascii :=
  match strip_prefix seqPrefix line with
  | None => inl MissingSeq
  | Some rest =>
      match cut_at comma rest with
      | None | Some ([], _) => inl MissingSeqTerminator
      | Some (number, rest) =>
          match ParseUint number with
          | None => inl BadSeq
          | Some seq =>
              match strip_prefix typePrefix rest with
              | None => inl MissingType
              | Some rest =>
                  match cut_at dquote rest with
                  | None => inl UnterminatedType
                  | Some (typ, _) => inr (seq, typ)
                  end
              end
          end
      end
  end.

Definition isTerminalEvent (typ : list ascii) : bool :=
  bool_decide (typ = chars "exit") || bool_decide (typ = chars "error").

(** ** Lemmas *)

Lemma code_byte n : (n < 256)%N -> code (byte n) = n.
Proof. apply Ascii.N_ascii_embedding. Qed.

Lemma strip_prefix_app p l : strip_prefix p (p ++ l) = Some l.
Proof. induction p as [|a p IH]; simpl; [done|]. by rewrite decide_True. Qed.

Lemma cut_at_app c a l : c ∉ a -> cut_at c (a ++ c :: l) = Some (a, c :: l).
Proof.
  induction a as [|x a IH]; simpl; intros Hc; [by rewrite decide_True|].
  rewrite not_elem_of_cons in Hc. destruct Hc as [Hx Ha]. rewrite decide_False by congruence. by rewrite IH.
Qed.

Lemma digit_value_digit d : 0 <= d < 10 -> digit_value (digit d) = Some d.
Proof.
  intros Hd. unfold digit_value, digit. rewrite code_byte by lia. unfold between.
  rewrite (proj2 (N.leb_le _ _)), (proj2 (N.leb_le _ _)) by lia. simpl. f_equal. lia.
Qed.

Lemma decimal_value fuel n acc : 0 <= n < 10 ^ Z.of_nat fuel -> (0 < fuel)%nat ->
  digits_value 0 (decimal fuel n acc) = digits_value n acc.
Proof.
  revert n acc. induction fuel as [|f IH]; intros n acc Hn Hf; [lia|]. simpl.
  case_decide as Hlt; [simpl; by rewrite digit_value_digit by lia|].
  pose proof (Z.div_mod n 10 ltac:(lia)) as Hdm. pose proof (Z.mod_pos_bound n 10 ltac:(lia)) as Hm.
  assert (Hp : 10 ^ Z.of_nat (S f) = 10 * 10 ^ Z.of_nat f) by (rewrite Nat2Z.inj_succ, Z.pow_succ_r; lia).
  assert (Hq : 0 <= n / 10 < 10 ^ Z.of_nat f) by (split; [apply Z.div_pos; lia|apply Z.div_lt_upper_bound; lia]).
  destruct f as [|f]; [simpl in Hq; lia|]. rewrite IH by lia. simpl. rewrite digit_value_digit by lia. f_equal. lia.
Qed.

Definition is_digit (c : ascii) : Prop := is_Some (digit_value c).

Lemma decimal_digits fuel n acc : 0 <= n -> Forall is_digit acc -> Forall is_digit (decimal fuel n acc).
Proof.
  revert n acc. induction fuel as [|f IH]; intros n acc Hn Hacc; simpl; [done|].
  pose proof (Z.mod_pos_bound n 10 ltac:(lia)). case_decide; [|apply IH; [apply Z.div_pos; lia|]]; constructor; try done;
    eexists; apply digit_value_digit; lia.
Qed.

Lemma decimal_nonempty fuel n acc : (0 < fuel)%nat -> decimal fuel n acc <> [].
Proof.
  revert n acc. induction fuel as [|f IH]; intros n acc Hf; [lia|]. simpl. case_decide; [done|].
  destruct f; [done|]. apply IH. lia.
Qed.

Lemma ParseUint_format n : 0 <= n < 2 ^ 64 -> ParseUint (format_uint n) = Some n.
Proof.
  intros Hn. unfold ParseUint, format_uint. pose proof (decimal_nonempty 20 n [] ltac:(lia)).
  destruct (decimal 20 n []) eqn:E; [done|]. rewrite <- E. rewrite decimal_value; [|split; [lia|]|lia].
  - simpl. by rewrite decide_True by lia.
  - change (10 ^ Z.of_nat 20) with 100000000000000000000. lia.
Qed.

Lemma digit_not c x : is_digit c -> digit_value x = None -> c <> x.
Proof. intros [d Hd] Hx ->. congruence. Qed.

Lemma digits_no x l : Forall is_digit l -> digit_value x = None -> x ∉ l.
Proof. intros Hl Hx Hin. rewrite Forall_forall in Hl. by apply (digit_not x x (Hl x Hin)). Qed.

(** ** Lines *)

Definition one_line (l : list ascii) : Prop := newline ∉ l.

Lemma one_line_app a b : one_line a -> one_line b -> one_line (a ++ b).
Proof. unfold one_line. rewrite elem_of_app. tauto. Qed.

Lemma one_line_cons c l : bool_decide (c <> newline) = true -> one_line l -> one_line (c :: l).
Proof. unfold one_line. rewrite bool_decide_eq_true, elem_of_cons. naive_solver. Qed.

Lemma one_line_check l : forallb (fun c => bool_decide (c <> newline)) l = true -> one_line l.
Proof.
  intros H Hin. rewrite forallb_forall in H. specialize (H newline (proj1 (list_elem_of_In _ _) Hin)).
  apply bool_decide_eq_true in H. done.
Qed.

Lemma one_line_high l : Forall (fun c => (128 <= code c)%N) l -> one_line l.
Proof. intros Hl Hin. rewrite Forall_forall in Hl. specialize (Hl _ Hin). revert Hl. vm_compute. done. Qed.

Lemma escape_one_line c : one_line (escape c).
Proof. apply one_line_check. destruct c as [[] [] [] [] [] [] [] []]; vm_compute; reflexivity. Qed.

Lemma first_high n size r : (128 <= n)%N -> first n = Some (size, r) -> (128 <= r.1)%N.
Proof.
  intros Hn. unfold first. rewrite (proj2 (N.ltb_ge n 128)) by done.
  repeat case_match; intros [= <- <-] || discriminate; simpl; lia.
Qed.

Lemma between_spec lo hi n : between lo hi n = true <-> (lo <= n <= hi)%N.
Proof. unfold between. rewrite andb_true_iff, !N.leb_le. done. Qed.

(** The bytes of a character beyond ASCII are all above 127. *)
Lemma rune_high c tail n : (128 <= code c)%N -> rune_size (c :: tail) = Some n ->
  Forall (fun x => (128 <= code x)%N) (take n (c :: tail)).
Proof.
  intros Hc Hr. unfold rune_size in Hr. destruct (first (code c)) as [[size r]|] eqn:Ef; [|done].
  pose proof (first_high _ _ _ Hc Ef) as Hlo. destruct (_ && _) eqn:E; [|done]. injection Hr as <-.
  apply andb_true_iff in E as [_ Ht]. destruct size as [|m]; [constructor|]. simpl. constructor; [done|].
  replace (S m - 1)%nat with m in Ht by lia. unfold tail_ok in Ht. destruct (take m tail) as [|c1 rest]; [constructor|].
  apply andb_true_iff in Ht as [H1 H2]. apply between_spec in H1. constructor; [lia|].
  apply Forall_forall. intros x Hx. rewrite forallb_forall in H2. specialize (H2 x (proj1 (list_elem_of_In _ _) Hx)).
  apply between_spec in H2. lia.
Qed.

Lemma json_chars_one_line fuel l : one_line (json_chars fuel l).
Proof.
  revert l. induction fuel as [|f IH]; intros l; [apply one_line_check; reflexivity|].
  destruct l as [|c l]; [apply one_line_check; reflexivity|]. cbn [json_chars].
  destruct (code c <? 128)%N eqn:Ec; [apply one_line_app; [apply escape_one_line|apply IH]|].
  apply N.ltb_ge in Ec. destruct (rune_size (c :: l)) as [n|] eqn:Er; apply one_line_app; try apply IH; [|by apply one_line_check].
  unfold line_separator. repeat case_decide; try (by apply one_line_check).
  apply one_line_high. by apply (rune_high c l n).
Qed.

Lemma json_string_one_line s : one_line (json_string s).
Proof. apply one_line_cons; [done|]. apply one_line_app; [apply json_chars_one_line|by apply one_line_check]. Qed.

Lemma format_uint_one_line n : 0 <= n -> one_line (format_uint n).
Proof. intros Hn. apply digits_no; [|done]. by apply decimal_digits. Qed.

Lemma format_int_one_line n : one_line (format_int n).
Proof. unfold format_int. case_decide; [apply one_line_cons; [done|]|]; apply format_uint_one_line; lia. Qed.

Create HintDb wire.
#[export] Hint Resolve one_line_app one_line_cons json_string_one_line format_int_one_line : wire.

Lemma opt_bytes_one_line name s : one_line (key name) -> one_line (opt_bytes name s).
Proof. intros Hk. unfold opt_bytes. destruct s; [by apply one_line_check|]. auto with wire. Qed.

Lemma opt_bool_one_line name b : one_line (key name) -> one_line (opt_bool name b).
Proof. intros Hk. unfold opt_bool. destruct b as [[]|]; [| |by apply one_line_check]; apply one_line_cons; try done;
  apply one_line_app; try done; by apply one_line_check. Qed.

Lemma marshal_one_line r : (forall s, Seq r = Some s -> 0 <= s) -> one_line (marshal r).
Proof.
  intros Hs. assert (Hseq : one_line (match Seq r with Some s => key "seq" ++ format_uint s ++ [comma] | None => [] end)).
  { destruct (Seq r) as [s|]; [|by apply one_line_check]. apply one_line_app; [by apply one_line_check|].
    apply one_line_app; [|by apply one_line_check]. apply format_uint_one_line. by apply Hs. }
  unfold marshal.
  repeat first [exact Hseq | apply json_string_one_line | apply json_chars_one_line | apply format_int_one_line | by apply one_line_check
    | apply opt_bytes_one_line | apply opt_bool_one_line | apply one_line_cons; [reflexivity|] | apply one_line_app].
Qed.

Lemma type_json t : json_string (chars (type_name t)) = dquote :: chars (type_name t) ++ [dquote].
Proof. by destruct t. Qed.

Lemma prefix_marshal r s rest : 0 <= s < 2 ^ 64 ->
  execEventPrefix (marshal (set_seq s r) ++ rest) = inr (s, chars (type_name (Type_ r))).
Proof.
  intros Hs. unfold marshal, set_seq. cbn [Seq Type_]. rewrite type_json.
  match goal with |- context [(byte 123 :: (key "seq" ++ format_uint s ++ [comma]) ++ key "type" ++ (dquote :: ?t ++ [dquote]) ++ ?tail) ++ rest] =>
    set (tl := tail);
    replace ((byte 123 :: (key "seq" ++ format_uint s ++ [comma]) ++ key "type" ++ (dquote :: t ++ [dquote]) ++ tl) ++ rest)
      with (seqPrefix ++ format_uint s ++ comma :: (key "type" ++ [dquote]) ++ t ++ dquote :: tl ++ rest)
      by (unfold seqPrefix; cbn [app]; repeat (rewrite <- app_assoc; cbn [app]); reflexivity)
  end.
  unfold execEventPrefix. rewrite strip_prefix_app.
  assert (Hd : Forall is_digit (format_uint s)) by (apply decimal_digits; [lia|constructor]).
  rewrite cut_at_app by (by apply digits_no).
  destruct (format_uint s) as [|x xs] eqn:Ef; [by apply decimal_nonempty in Ef; [|lia]|]. rewrite <- Ef, ParseUint_format by done.
  replace (comma :: (key "type" ++ [dquote]) ++ chars (type_name (Type_ r)) ++ dquote :: tl ++ rest)
    with (typePrefix ++ chars (type_name (Type_ r)) ++ dquote :: tl ++ rest) by reflexivity.
  rewrite strip_prefix_app, cut_at_app; [done|]. by destruct (Type_ r); apply (bool_decide_eq_true_1 _).
Qed.

Lemma terminal_name r : isTerminalEvent (chars (type_name (Type_ r))) = isTerminal r.
Proof. unfold isTerminal. by destruct (Type_ r). Qed.

(** What the daemon writes the runner can resume from: the line of any event
    with a sequence number holds no newline inside, whatever bytes its output
    has, and the runner reads back exactly its sequence number and type, hence
    whether it is the last one. *)
Theorem event_prefix_roundtrip r s :
  0 <= s < 2 ^ 64 ->
  one_line (marshal (set_seq s r)) /\
  exists typ, execEventPrefix (marshal (set_seq s r) ++ [newline]) = inr (s, typ) /\
    typ = chars (type_name (Type_ r)) /\ isTerminalEvent typ = isTerminal r.
Proof.
  intros Hs. split; [apply marshal_one_line; simpl; intros s' [= <-]; lia|].
  eexists. split; [by apply prefix_marshal|]. split; [done|apply terminal_name].
Qed.

Lemma event_prefix_roundtrip_witness :
  exists typ, execEventPrefix (marshal (set_seq 18446744073709551615 (mkResponse None Stdout [] (chars "a" ++ [newline; dquote; byte 255]) 0 None 0 None None []))
    ++ [newline]) = inr (18446744073709551615, typ) /\ isTerminalEvent typ = false.
Proof.
  destruct (event_prefix_roundtrip (mkResponse None Stdout [] (chars "a" ++ [newline; dquote; byte 255]) 0 None 0 None None [])
    18446744073709551615) as (_ & typ & H & _ & Ht); [split; [discriminate|reflexivity]|].
  exists typ. split; [exact H|exact Ht].
Defined.

End Wire.
