(* ===== verification/Exec.v ===== *)
(** * Executions of the daemon ([internal/daemon/execution.go])

    An execution's event buffer, trimmed to a byte budget, and the streams that
    follow it.  Sequence numbers are uint64 and slice indices are ints, with the
    conversion between them written out; a slice index out of range is a panic. *)

From S2P Require Import Prelude GoStrings Ids Wire.

Module Exec.
Import GoStrings Wire.

Definition wrapu64 (z : Z) : Z := z mod 2 ^ 64.
Definition max_uint64 : Z := 2 ^ 64 - 1.

Record storedEvent := mkEvent { seq : Z; data : list ascii }.

(** [notify] numbers the channels: the current one is open, all before it are
    closed. *)
Record Execution := mkExecution {
  events : list storedEvent;
  size : Z;
  maxEventBytes : Z;
  minSeq : Z;
  nextSeq : Z;
  completed : bool;
  completedAt : option Z;
  notify : nat;
}.

Definition len (e : storedEvent) : Z := Z.of_nat (length (data e)).

(** The trimming loop of [append]; the newest event always stays. *)
Fixpoint trim (max : Z) (evs : list storedEvent) (size minSeq : Z) : list storedEvent * Z * Z :=
  match evs with
  | e :: ((e' :: _) as rest) =>
      if decide (size > max) then trim max rest (size - len e) (seq e') else (evs, size, minSeq)
  | _ => (evs, size, minSeq)
  end.

Definition append (resp : Response) (now : Z) (ex : Execution) : Execution :=
  let s := nextSeq ex in
  let d := marshal (set_seq s resp) in
  let e := mkEvent s d in
  let '(evs, sz, mn) := trim (maxEventBytes ex) (events ex ++ [e]) (size ex + len e) (minSeq ex) in
  mkExecution evs sz (maxEventBytes ex) mn (wrapu64 (s + 1))
    (completed ex || isTerminal resp) (if isTerminal resp then Some now else completedAt ex) (S (notify ex)).

(** [None] is a panic: slice bounds out of range. *)
Definition eventsAfter (after : option Z) (ex : Execution) : option (list (list ascii)) :=
  let from (start : Z) :=
    if decide (start >= Z.of_nat (length (events ex))) then Some []
    else if decide (start < 0) then None
    else Some (data <$> drop (Z.to_nat start) (events ex)) in
  match after with
  | None => from 0
  | Some a =>
      if decide (a = max_uint64) then Some []
      else if decide (a >= minSeq ex) then from (wrap64 (wrapu64 (a - minSeq ex + 1))) else from 0
  end.

Definition hasHistoryAfter (after : option Z) (ex : Execution) : bool :=
  match after with
  | None => bool_decide (minSeq ex = 0)
  | Some a => bool_decide (a = max_uint64) || bool_decide (wrapu64 (a + 1) >= minSeq ex)
  end.

Definition HasHistory (after : option Z) (ex : Execution) : bool := hasHistoryAfter after ex.

Inductive snapshot := SnapPanic | SnapTrimmed | SnapEvents (l : list (list ascii)).

Definition Snapshot (after : option Z) (ex : Execution) : snapshot :=
  if negb (hasHistoryAfter after ex) then SnapTrimmed
  else match eventsAfter after ex with None => SnapPanic | Some l => SnapEvents l end.

(** One turn of [Follow] under the lock: what to send, where to go on, whether the
    execution is over and the channel to wait on. *)
Inductive turn :=
| TurnPanic
| TurnTrimmed
| TurnBatch (batch : list (list ascii)) (after : option Z) (completed : bool) (notify : nat).

Definition follow_turn (after : option Z) (ex : Execution) : turn :=
  if negb (hasHistoryAfter after ex) then TurnTrimmed
  else match eventsAfter after ex with
       | None => TurnPanic
       | Some batch =>
           let after' := match batch, last (events ex) with
                         | _ :: _, Some e => Some (seq e)
                         | _, _ => after
                         end in
           TurnBatch batch after' (completed ex) (notify ex)
       end.

(** ** An execution with its followers *)

Inductive fstate := Turning | Waiting (notify : nat) | Completed | Cancelled | Trimmed | Panicked.

(** A stream: the [after] it was asked for, the current one, and what it sent. *)
Record follower := mkFollower { f_from : option Z; f_after : option Z; f_got : list (list ascii); f_state : fstate }.

(** [log] is every event ever appended; [held] is a mutex nobody will release: a
    turn of [Follow] that panics leaves the lock taken. *)
Record sys := mkSys { ex : Execution; log : list Response; followers : gmap nat follower; held : bool }.

Definition new_execution (max : Z) : Execution := mkExecution [] 0 max 0 0 false None 0.
Definition initial (max : Z) : sys := mkSys (new_execution max) [] ∅ false.

Definition after_turn (f : follower) (t : turn) : follower :=
  match t with
  | TurnPanic => mkFollower (f_from f) (f_after f) (f_got f) Panicked
  | TurnTrimmed => mkFollower (f_from f) (f_after f) (f_got f) Trimmed
  | TurnBatch batch after' done n =>
      mkFollower (f_from f) after' (f_got f ++ batch) (if done : bool then Completed else Waiting n)
  end.

Definition is_panic (t : turn) : bool := match t with TurnPanic => true | _ => false end.

(** [P]: the values of [after] that streams are asked for.  Nothing follows a
    terminal event, and 2^63 events are out of reach. *)
Inductive step (P : option Z -> Prop) : sys -> sys -> Prop :=
| step_append s r now : held s = false -> completed (ex s) = false -> nextSeq (ex s) < int64_max ->
    step P s (mkSys (append r now (ex s)) (log s ++ [r]) (followers s) false)
| step_follow s i after : followers s !! i = None -> P after ->
    step P s (mkSys (ex s) (log s) (<[i := mkFollower after after [] Turning]> (followers s)) (held s))
| step_turn s i f : held s = false -> followers s !! i = Some f ->
    f_state f = Turning \/ (exists n, f_state f = Waiting n /\ n <> notify (ex s)) ->
    step P s (mkSys (ex s) (log s) (<[i := after_turn f (follow_turn (f_after f) (ex s))]> (followers s))
                (is_panic (follow_turn (f_after f) (ex s))))
| step_cancel s i f n : followers s !! i = Some f -> f_state f = Waiting n ->
    step P s (mkSys (ex s) (log s) (<[i := mkFollower (f_from f) (f_after f) (f_got f) Cancelled]> (followers s)) (held s)).

(** ** The buffer *)

Definition stored_at (i : nat) (r : Response) : storedEvent := mkEvent (Z.of_nat i) (marshal (set_seq (Z.of_nat i) r)).
Definition stored (log : list Response) : list storedEvent := imap stored_at log.
Definition lines (log : list Response) : list (list ascii) := data <$> stored log.

Fixpoint total (evs : list storedEvent) : Z := match evs with [] => 0 | e :: l => len e + total l end.

Lemma total_app a b : total (a ++ b) = total a + total b.
Proof. induction a as [|e a IH]; simpl; [done|]. rewrite IH. lia. Qed.

Lemma stored_snoc log r : stored (log ++ [r]) = stored log ++ [stored_at (length log) r].
Proof. unfold stored. rewrite imap_app. simpl. by rewrite Nat.add_0_r. Qed.

Lemma stored_length log : length (stored log) = length log.
Proof. apply length_imap. Qed.

Lemma lines_length log : length (lines log) = length log.
Proof. unfold lines. by rewrite length_fmap, stored_length. Qed.

Lemma stored_lookup log i e : stored log !! i = Some e -> seq e = Z.of_nat i.
Proof. unfold stored. rewrite list_lookup_imap. intros (r & _ & ->)%fmap_Some. done. Qed.

Lemma trim_spec max L m :
  (forall i e, L !! i = Some e -> seq e = Z.of_nat i) -> (m < length L)%nat ->
  exists m', trim max (drop m L) (total (drop m L)) (Z.of_nat m) = (drop m' L, total (drop m' L), Z.of_nat m') /\
    (m <= m' < length L)%nat /\ (total (drop m' L) <= max \/ S m' = length L).
Proof.
  intros HL. remember (length L - m)%nat as k eqn:Hk. revert m Hk. induction k as [|k IH]; intros m Hk Hm; [lia|].
  destruct (lookup_lt_is_Some_2 L m Hm) as [e He]. rewrite (drop_S L e m He).
  destruct (drop (S m) L) as [|e' rest] eqn:Ed.
  - exists m. rewrite (drop_S L e m He), Ed. split; [done|]. split; [lia|]. right.
    apply (f_equal length) in Ed. rewrite length_drop in Ed. simpl in Ed. lia.
  - assert (Hm' : (S m < length L)%nat) by (apply (f_equal length) in Ed; rewrite length_drop in Ed; simpl in Ed; lia).
    cbn [trim]. case_decide as Hs.
    + destruct (IH (S m) ltac:(lia) Hm') as (m' & Ht & Hb & Hor). exists m'. rewrite Ed in Ht.
      assert (He' : L !! S m = Some e') by (rewrite <- (Nat.add_0_r (S m)), <- lookup_drop, Ed; done).
      rewrite (HL _ _ He'). replace (total (e :: e' :: rest) - len e) with (total (e' :: rest)) by (simpl; lia).
      split; [done|]. split; [lia|done].
    + exists m. rewrite (drop_S L e m He), Ed. split; [done|]. split; [lia|left; lia].
Qed.

(** The buffer is the end of the log, within its budget unless one event alone is
    over it. *)
Record exec_ok (x : Execution) (log : list Response) : Prop := {
  o_next : nextSeq x = Z.of_nat (length log);
  o_small : Z.of_nat (length log) <= int64_max;
  o_events : exists m, minSeq x = Z.of_nat m /\ events x = drop m (stored log) /\ ((m < length log)%nat \/ m = 0%nat /\ log = []);
  o_size : size x = total (events x);
  o_budget : size x <= maxEventBytes x \/ (length (events x) <= 1)%nat;
  o_completed : completed x = match last log with Some r => isTerminal r | None => false end;
  o_notify : notify x = length log;
}.

Lemma wrapu64_small z : 0 <= z < 2 ^ 64 -> wrapu64 z = z.
Proof. apply Z.mod_small. Qed.

Lemma append_ok x log r now :
  exec_ok x log -> completed x = false -> nextSeq x < int64_max ->
  exec_ok (append r now x) (log ++ [r]) /\ minSeq x <= minSeq (append r now x) /\ maxEventBytes (append r now x) = maxEventBytes x.
Proof.
  intros [Hn Hs (m & Hm & He & Hml) Hz Hb Hc Ho] Hnc Hlt. unfold append.
  assert (Hev : events x ++ [mkEvent (nextSeq x) (marshal (set_seq (nextSeq x) r))] = drop m (stored (log ++ [r]))).
  { rewrite He, stored_snoc, drop_app_le by (rewrite stored_length; lia). by rewrite Hn. }
  rewrite Hev, Hz.
  replace (total (events x) + len _) with (total (drop m (stored (log ++ [r])))) by (rewrite <- Hev, total_app; simpl; lia).
  rewrite Hm. destruct (trim_spec (maxEventBytes x) (stored (log ++ [r])) m) as (m' & -> & Hb' & Hor).
  { apply stored_lookup. }
  { rewrite stored_length, length_app. simpl. lia. }
  rewrite stored_length, length_app in Hb', Hor. simpl in Hb', Hor. split; [|split; [simpl; lia|done]].
  unfold int64_max in *. split; simpl; rewrite ?length_app; simpl.
  - rewrite wrapu64_small; lia.
  - unfold int64_max. lia.
  - exists m'. split; [done|]. split; [done|]. left. lia.
  - done.
  - destruct Hor; [by left|right]. rewrite length_drop, stored_length, length_app. simpl. lia.
  - by rewrite last_snoc, Hnc.
  - lia.
Qed.

(** ** Reading from a position *)

(** The position in the log a value of [after] asks for. *)
Definition start (after : option Z) : nat := match after with None => 0 | Some a => Z.to_nat (a + 1) end.

(** The values that do not make [eventsAfter] convert past the largest int. *)
Definition sane (after : option Z) : Prop :=
  match after with None => True | Some a => 0 <= a < int64_max \/ a = max_uint64 end.

Lemma history_spec x log after : exec_ok x log -> sane after ->
  hasHistoryAfter after x = true <-> minSeq x <= Z.of_nat (start after).
Proof.
  intros [Hn Hs (m & Hm & He & Hml) Hz Hb Hc Ho] Ha. unfold hasHistoryAfter, start, max_uint64, int64_max in *.
  destruct after as [a|]; [|rewrite bool_decide_eq_true; lia].
  rewrite orb_true_iff, !bool_decide_eq_true. unfold sane, max_uint64, int64_max in Ha. destruct Ha as [Ha|Ha].
  - rewrite wrapu64_small by lia. lia.
  - split; [|lia]. intros _. lia.
Qed.

Lemma eventsAfter_spec x log after : exec_ok x log -> sane after -> hasHistoryAfter after x = true ->
  eventsAfter after x = Some (drop (start after) (lines log)).
Proof.
  intros Hok Ha Hh. pose proof (proj1 (history_spec _ _ _ Hok Ha) Hh) as Hmin.
  destruct Hok as [Hn Hs (m & Hm & He & Hml) Hz Hb Hc Ho].
  assert (Hlen : length (events x) = (length log - m)%nat) by (rewrite He, length_drop, stored_length; done).
  assert (Hfrom : forall k, (m + k)%nat = start after \/ (length log <= m + k /\ length log <= start after)%nat ->
    (if decide (Z.of_nat k >= Z.of_nat (length (events x))) then Some []
     else if decide (Z.of_nat k < 0) then None else Some (data <$> drop (Z.to_nat (Z.of_nat k)) (events x))) =
    Some (drop (start after) (lines log))).
  { intros k Hk. rewrite Nat2Z.id. unfold lines. case_decide as Hge.
    - rewrite drop_ge; [done|]. rewrite length_fmap, stored_length. lia.
    - rewrite decide_False by lia. rewrite He, drop_drop, fmap_drop. repeat f_equal. lia. }
  unfold eventsAfter. destruct after as [a|]; [|apply (Hfrom 0%nat); simpl in *; lia].
  unfold sane, start, max_uint64, int64_max in *.
  case_decide as Hmax; [rewrite drop_ge; [done|rewrite lines_length; lia]|].
  destruct Ha as [Ha|Ha]; [|lia]. case_decide as Hge.
  - rewrite wrapu64_small by lia. rewrite wrap64_small by (unfold in_int64, int64_min, int64_max; lia).
    replace (a - minSeq x + 1) with (Z.of_nat (Z.to_nat (a + 1) - m)) by lia. apply Hfrom. lia.
  - apply (Hfrom 0%nat). left. lia.
Qed.

(** ** Followers *)

(** What a stream sent so far is what it asked for, from there on, with nothing
    left out. *)
Definition follower_ok (x : Execution) (log : list Response) (f : follower) : Prop :=
  let rest := drop (start (f_from f)) (lines log) in
  f_got f `prefix_of` rest /\ sane (f_after f) /\ start (f_after f) = (start (f_from f) + length (f_got f))%nat /\
  match f_state f with
  | Turning | Cancelled => True
  | Waiting n => (n <= notify x)%nat /\ (n = notify x -> f_got f = rest /\ completed x = false)
  | Completed => f_got f = rest /\ completed x = true
  | Trimmed => Z.of_nat (start (f_from f) + length (f_got f)) < minSeq x
  | Panicked => False
  end.

Lemma drop_snoc_prefix {A} n (l : list A) x : drop n l `prefix_of` drop n (l ++ [x]).
Proof. rewrite drop_app. by eexists. Qed.

Lemma follower_append x log r now f :
  exec_ok x log -> completed x = false -> nextSeq x < int64_max ->
  follower_ok x log f -> follower_ok (append r now x) (log ++ [r]) f.
Proof.
  intros Hok Hc Hn (Hp & Hsane & Hst & Hs). destruct (append_ok x log r now Hok Hc Hn) as (Hok' & Hmin & _).
  assert (Hnot : notify (append r now x) = S (notify x)) by (unfold append; by destruct (trim _ _ _ _) as [[]]).
  split; [|split; [done|split; [done|]]].
  - etrans; [exact Hp|]. unfold lines. rewrite stored_snoc, fmap_app. apply drop_snoc_prefix.
  - destruct (f_state f); try done.
    + destruct Hs as [Hle _]. split; [lia|]. lia.
    + destruct Hs as [_ Hs]. congruence.
    + lia.
Qed.

Lemma follower_turn_ok x log f :
  exec_ok x log -> sane (f_after f) -> follower_ok x log f ->
  follower_ok x log (after_turn f (follow_turn (f_after f) x)) /\ is_panic (follow_turn (f_after f) x) = false.
Proof.
  intros Hok _ ([k Hk] & Hsane & Hst & Hs). pose proof (history_spec x log (f_after f) Hok Hsane) as Hh. unfold follow_turn.
  destruct (hasHistoryAfter (f_after f) x) eqn:Eh; simpl.
  2:{ split; [|done]. split; [by exists k|]. do 2 (split; [done|]). simpl. rewrite <- Hst.
      destruct (decide (minSeq x <= Z.of_nat (start (f_after f)))) as [Hle|]; [apply Hh in Hle; done|lia]. }
  rewrite (eventsAfter_spec x log) by done. split; [|done].
  assert (Hall : f_got f ++ drop (start (f_after f)) (lines log) = drop (start (f_from f)) (lines log)).
  { rewrite Hst, <- drop_drop, Hk. by rewrite drop_app_length. }
  unfold after_turn, follower_ok. cbn [f_from f_got f_after f_state]. rewrite Hall. split; [done|].
  destruct (o_events _ _ Hok) as (m & Hm & He & Hml). pose proof (o_small _ _ Hok) as Hsmall.
  assert (Hdone : match (if completed x then Completed else Waiting (notify x)) with
    | Turning | Cancelled => True
    | Waiting n => (n <= notify x)%nat /\ (n = notify x -> drop (start (f_from f)) (lines log) = drop (start (f_from f)) (lines log) /\ completed x = false)
    | Completed => drop (start (f_from f)) (lines log) = drop (start (f_from f)) (lines log) /\ completed x = true
    | Trimmed => Z.of_nat (start (f_from f) + length (drop (start (f_from f)) (lines log))) < minSeq x
    | Panicked => False end) by (by destruct (completed x)).
  destruct (drop (start (f_after f)) (lines log)) as [|d ds] eqn:Ed.
  - rewrite app_nil_r in Hall. rewrite <- Hall in *. by repeat split.
  - assert (Hlt : (start (f_after f) < length log)%nat).
    { apply (f_equal length) in Ed. rewrite length_drop, lines_length in Ed. simpl in Ed. lia. }
    assert (Hl : exists e, last (events x) = Some e /\ seq e = Z.of_nat (length log - 1)).
    { rewrite He, last_lookup, lookup_drop, length_drop, stored_length.
      replace (m + Init.Nat.pred (length log - m))%nat with (length log - 1)%nat by lia.
      destruct (lookup_lt_is_Some_2 (stored log) (length log - 1)) as [e Hel]; [rewrite stored_length; lia|].
      exists e. split; [done|]. by apply stored_lookup in Hel. }
    destruct Hl as (e & -> & Hseq). rewrite Hseq. split; [unfold sane, int64_max in *; left; lia|]. split; [|done].
    unfold start at 1. rewrite length_drop, lines_length. lia.
Qed.

Record inv (s : sys) : Prop := {
  i_exec : exec_ok (ex s) (log s);
  i_followers i f : followers s !! i = Some f -> follower_ok (ex s) (log s) f;
  i_held : held s = false;
}.

Lemma exec_inv_step s s' : inv s -> step sane s s' -> inv s'.
Proof.
  intros [Hx Hf Hh] Hs. destruct Hs as [s r now _ Hc Hn|s i after Hi Ha|s i f _ Hi Hst|s i f n Hi Hst].
  - split; simpl; [by apply append_ok| |done]. intros i f Hi. apply follower_append; eauto.
  - split; simpl; [done| |done]. intros j f [[_ <-]|[_ Hj]]%lookup_insert_Some; [|eauto].
    split; [apply prefix_nil|]. split; [done|]. simpl. split; [lia|done].
  - pose proof (Hf i f Hi) as Hok. destruct (follower_turn_ok (ex s) (log s) f Hx) as [Hok' Hp]; [apply Hok|done|].
    split; simpl; [done| |done]. intros j f' [[_ <-]|[_ Hj]]%lookup_insert_Some; eauto.
  - split; simpl; [done| |done]. intros j f' [[_ <-]|[_ Hj]]%lookup_insert_Some; [|eauto].
    destruct (Hf i f Hi) as (? & ? & ? & _). by repeat split.
Qed.

Lemma exec_reachable max s : rtc (step sane) (initial max) s -> inv s.
Proof.
  intros Hr. assert (Hi : inv (initial max)).
  { split; simpl; [|intros i f Hi; by rewrite lookup_empty in Hi|done]. split; simpl; try done.
    - exists 0%nat. split; [done|]. split; [done|]. by right.
    - by right; lia. }
  revert Hi. induction Hr; eauto using exec_inv_step.
Qed.

Lemma max_bytes_step s s' P : step P s s' -> maxEventBytes (ex s') = maxEventBytes (ex s).
Proof. intros [s0 r now _ _ _| | |]; try done. simpl. unfold append. by destruct (trim _ _ _ _) as [[]]. Qed.

Lemma max_bytes_reachable max s P : rtc (step P) (initial max) s -> maxEventBytes (ex s) = max.
Proof.
  intros Hr. change (maxEventBytes (ex s) = maxEventBytes (ex (initial max))).
  induction Hr as [|s1 s2 s3 H1 H2 IH]; [done|]. rewrite IH. by eapply max_bytes_step.
Qed.

(** C5: A stream delivers every event exactly once and in order.  Whatever events
    are appended and trimmed while any number of streams follow, a stream has
    sent the events after the one it was asked for, without a gap and without a
    repeat; when it ends because the command is done it has sent them all, up to
    the terminal event; when it says the history is gone the next event it needed
    was really trimmed; and while it waits for a signal that has not come there
    is nothing it has not sent, so no wake-up is lost.  No stream panics.  This is
    for [after] values below 2^63 - 1, the largest uint64, or none ([sane]);
    the values in between can make a stream panic. *)
Theorem follow_exactly_once max s i f :
  rtc (step sane) (initial max) s -> followers s !! i = Some f ->
  let rest := drop (start (f_from f)) (lines (log s)) in
  f_got f `prefix_of` rest /\
  match f_state f with
  | Completed => f_got f = rest /\ exists r, last (log s) = Some r /\ isTerminal r = true
  | Trimmed => Z.of_nat (start (f_from f) + length (f_got f)) < minSeq (ex s)
  | Waiting n => n = notify (ex s) -> f_got f = rest
  | Panicked => False
  | Turning | Cancelled => True
  end.
Proof.
  intros Hr Hf. destruct (exec_reachable _ _ Hr) as [Hx Hall _]. destruct (Hall i f Hf) as (Hp & _ & _ & Hs).
  split; [done|]. destruct (f_state f); try done.
  - by intros Hn; apply Hs.
  - destruct Hs as [Hs Hc]. split; [done|]. rewrite (o_completed _ _ Hx) in Hc. destruct (last (log s)); [eauto|done].
Qed.

Definition out (n : nat) : Response := mkResponse None Stdout [] (replicate n (byte 97)) 0 None 0 None None [].
Definition bye : Response := mkResponse None Exit [] [] 0 (Some true) 7 (Some false) (Some false) [].

Lemma follow_exactly_once_witness :
  exists s f, rtc (step sane) (initial 100) s /\ followers s !! 0%nat = Some f /\ f_state f = Completed /\
    minSeq (ex s) = 2 /\ f_got f = drop 1 (lines [newStartedResponse (chars "x"); out 3; bye]).
Proof.
  assert (H : exists s f, rtc (step sane) (initial 100) s /\ followers s !! 0%nat = Some f /\ f_state f = Completed /\
    minSeq (ex s) = 2 /\ f_from f = Some 0 /\ log s = [newStartedResponse (chars "x"); out 3; bye]).
  { eexists _, _. split; [|split; [|split; [|split]]].
    { eapply rtc_l; [apply (step_append _ _ (newStartedResponse (chars "x")) 5); vm_compute; reflexivity|].
      eapply rtc_l; [apply (step_append _ _ (out 3) 5); vm_compute; reflexivity|].
      eapply rtc_l; [apply (step_follow _ _ 0 (Some 0)); [vm_compute; reflexivity|left; split; vm_compute; congruence]|].
      eapply rtc_l; [eapply (step_turn _ _ 0); [vm_compute; reflexivity|vm_compute; reflexivity|left; reflexivity]|].
      eapply rtc_l; [apply (step_append _ _ bye 6); vm_compute; reflexivity|].
      eapply rtc_l; [eapply (step_turn _ _ 0); [vm_compute; reflexivity|vm_compute; reflexivity|right; eexists; split; [reflexivity|vm_compute; discriminate]]|].
      apply rtc_refl. }
    all: try (vm_compute; reflexivity). split; vm_compute; reflexivity. }
  destruct H as (s & f & Hr & Hf & Hs & Hm & Hfrom & Hl). exists s, f. do 4 (split; [done|]).
  pose proof (follow_exactly_once 100 s 0 f Hr Hf) as [_ H]. rewrite Hs, Hfrom, Hl in H. exact (proj1 H).
Defined.

(** The history kept is exact and bounded: reading it after any event gives
    precisely the events that followed, in order, or reports them gone exactly
    when one of them was trimmed; and it stays within its byte budget unless it
    is down to a single event. *)
Theorem snapshot_exact max s after :
  rtc (step sane) (initial max) s -> sane after ->
  Snapshot after (ex s) =
    (if decide (minSeq (ex s) <= Z.of_nat (start after)) then SnapEvents (drop (start after) (lines (log s))) else SnapTrimmed) /\
  HasHistory after (ex s) = bool_decide (minSeq (ex s) <= Z.of_nat (start after)) /\
  total (events (ex s)) = size (ex s) /\ (size (ex s) <= max \/ (length (events (ex s)) <= 1)%nat).
Proof.
  intros Hr Ha. destruct (exec_reachable _ _ Hr) as [Hx _ _]. pose proof (history_spec _ _ _ Hx Ha) as Hh.
  unfold Snapshot, HasHistory. split; [|split; [|split; [by rewrite <- (o_size _ _ Hx)|]]].
  - case_decide as Hd; destruct (hasHistoryAfter after (ex s)) eqn:Eh; simpl; [by rewrite (eventsAfter_spec _ _ _ Hx Ha Eh)|..]; [|tauto|done].
    by apply Hh in Hd.
  - apply eq_bool_prop_intro. by rewrite !Is_true_true, bool_decide_eq_true.
  - pose proof (o_budget _ _ Hx) as Hb. by rewrite (max_bytes_reachable _ _ _ Hr) in Hb.
Qed.

Lemma snapshot_exact_witness :
  exists s, rtc (step sane) (initial 100) s /\ Snapshot (Some 0) (ex s) = SnapEvents (drop 1 (lines [newStartedResponse (chars "x"); out 3])).
Proof.
  eexists. assert (Hr : rtc (step sane) (initial 100)
    (mkSys (append (out 3) 5 (append (newStartedResponse (chars "x")) 5 (new_execution 100))) [newStartedResponse (chars "x"); out 3] ∅ false)).
  { eapply rtc_l; [apply (step_append _ _ (newStartedResponse (chars "x")) 5); vm_compute; reflexivity|].
    eapply rtc_l; [apply (step_append _ _ (out 3) 5); vm_compute; reflexivity|]. apply rtc_refl. }
  split; [exact Hr|]. destruct (snapshot_exact 100 _ (Some 0) Hr) as [-> _]; [left; split; vm_compute; congruence|].
  vm_compute. reflexivity.
Defined.

(** ** A huge [after] *)

(** What a stream has been sent; nothing if it is not there yet. *)
Definition got (s : sys) (i : nat) : list (list ascii) := default [] (f_got <$> followers s !! i).

Lemma held_forever P s s' : held s = true -> rtc (step P) s s' ->
  held s' = true /\ ex s' = ex s /\ log s' = log s /\ forall i, got s' i = got s i.
Proof.
  intros Hh Hr. induction Hr as [|s1 s2 s3 H1 _ IH]; [done|].
  assert (held s2 = true /\ ex s2 = ex s1 /\ log s2 = log s1 /\ forall i, got s2 i = got s1 i) as (Hh2 & <- & <- & Hg).
  { destruct H1 as [| s j after Hj _|  | s j f n Hj _]; simpl; try congruence; split_and!; try done; intros i; unfold got; simpl;
      (destruct (decide (i = j)) as [->|Hne]; [rewrite lookup_insert_eq, Hj; done|by rewrite lookup_insert_ne by done]). }
  destruct (IH Hh2) as (? & ? & ? & H). split_and!; try done. intros i. by rewrite H.
Qed.

Lemma huge_panics a x : 0 <= minSeq x -> minSeq x + int64_max <= a < max_uint64 ->
  hasHistoryAfter (Some a) x = true /\ eventsAfter (Some a) x = None.
Proof.
  unfold int64_max, max_uint64. intros Hm Ha. unfold hasHistoryAfter, eventsAfter, max_uint64.
  rewrite wrapu64_small by lia. split; [rewrite orb_true_iff, !bool_decide_eq_true; right; lia|].
  rewrite decide_False by lia. rewrite decide_True by lia. rewrite wrapu64_small by lia.
  assert (Hw : wrap64 (a - minSeq x + 1) = a - minSeq x + 1 - 2 ^ 64).
  { unfold wrap64. rewrite (Z.mod_eq _ (2 ^ 64)) by lia.
    replace ((a - minSeq x + 1 + 2 ^ 63) / 2 ^ 64) with 1; [lia|]. apply (Z.div_unique _ _ _ (a - minSeq x + 1 + 2 ^ 63 - 2 ^ 64)); lia. }
  rewrite Hw. rewrite decide_False by lia. by rewrite decide_True by lia.
Qed.

(** C17: A stream whose [after] lies [2^63 - 1] or more above the oldest event the
    execution still holds, and is not the largest uint64, panics at its first turn
    with the execution's mutex held: the parameter passes the history check and the
    conversion to an index goes negative.  From then on, whatever else happens, no
    event is appended and no stream of the execution is sent anything more. *)
Theorem huge_after_wedges P max s i f a :
  rtc (step P) (initial max) s -> followers s !! i = Some f -> f_state f = Turning -> f_after f = Some a -> held s = false ->
  minSeq (ex s) + int64_max <= a < max_uint64 ->
  follow_turn (Some a) (ex s) = TurnPanic /\
  exists s1, step P s s1 /\ forall s2, rtc (step P) s1 s2 ->
    held s2 = true /\ ex s2 = ex s /\ log s2 = log s /\ forall j, got s2 j = got s j.
Proof.
  intros Hr Hf Hst Ha Hh Hb. assert (Hmin : 0 <= minSeq (ex s)).
  { assert (Hx : exec_ok (ex (initial max)) (log (initial max))) by
      (split; try done; [exists 0%nat; repeat split; by right|by right; simpl; lia]).
    assert (Hx' : exec_ok (ex s) (log s)).
    { clear -Hr Hx. induction Hr as [|s1 s2 s3 H1 _ IH]; [done|]. apply IH. destruct H1; try done. by apply append_ok. }
    destruct (o_events _ _ Hx') as (m & -> & _). lia. }
  destruct (huge_panics a (ex s) Hmin Hb) as [Hhist Hev].
  assert (Ht : follow_turn (Some a) (ex s) = TurnPanic) by (unfold follow_turn; by rewrite Hhist, Hev).
  split; [done|]. eexists. split; [by apply (step_turn P s i f); [..|left]|]. intros s2 Hs2.
  rewrite Ha, Ht in Hs2. apply held_forever in Hs2 as (? & -> & -> & Hg); [|done]. split_and!; try done. intros j. rewrite Hg.
  unfold got. simpl. destruct (decide (j = i)) as [->|]; [by rewrite lookup_insert_eq, Hf|by rewrite lookup_insert_ne by done].
Qed.

Lemma huge_after_wedges_witness :
  let s := mkSys (append (newStartedResponse (chars "x")) 5 (new_execution 100)) [newStartedResponse (chars "x")]
             {[0%nat := mkFollower (Some (2 ^ 63)) (Some (2 ^ 63)) [] Turning]} false in
  rtc (step (fun _ => True)) (initial 100) s /\ follow_turn (Some (2 ^ 63)) (ex s) = TurnPanic.
Proof.
  intros s. assert (Hr : rtc (step (fun _ => True)) (initial 100) s).
  { eapply rtc_l; [apply (step_append _ _ (newStartedResponse (chars "x")) 5); vm_compute; reflexivity|].
    eapply rtc_l; [apply (step_follow _ _ 0 (Some (2 ^ 63))); [vm_compute; reflexivity|done]|]. apply rtc_refl. }
  split; [exact Hr|].
  apply (huge_after_wedges (fun _ => True) 100 s 0 (mkFollower (Some (2 ^ 63)) (Some (2 ^ 63)) [] Turning) (2 ^ 63) Hr);
    [reflexivity|reflexivity|reflexivity|reflexivity|]. split; vm_compute; congruence.
Defined.

End Exec.
