(* ===== verification/ExecProxy.v ===== *)
(** * The runner's exec proxy ([internal/runner/exec_proxy.go])

    Forwards an execution's event stream from the daemon, and picks it up again
    after the last event forwarded when the connection drops.  What the daemon
    sends, the request's context and the client's connection are parameters. *)

From S2P Require Import Prelude GoStrings Ids Wire Exec.

Module ExecProxy.
Import GoStrings Wire Exec.

Definition execMaxRetries : nat := 3.

Record execRequestBody := mkExecBody { TimeoutMs : Z; ExecID : string }.

(** Answer to the POST: no connection, a redirect, another status, or a stream
    that was read up to some byte. *)
Inductive post_reply := PostFailed | PostRedirect | PostStatus (code : Z) | PostStream (bytes : list ascii).
Inductive resume_reply := ResumeFailed | ResumeStatus (code : Z) | ResumeStream (bytes : list ascii).

Class ProxyEnv := {
  resolve : Z + string;                            (* the error answered, or the daemon's URL once the sandbox runs *)
  fresh_id : string;
  post : string -> post_reply;                     (* by exec id *)
  resume : nat -> string -> option Z -> resume_reply;  (* by attempt, exec id and after *)
  cancelled : nat -> bool;                         (* the request's context, by the time of asking *)
  accepts : nat -> bool;                           (* whether the client takes its nth line *)
}.

Inductive stream_error := ErrRead | ErrPrefix | ErrWrite.

(** [reader.ReadBytes('\n')]: a line with its newline; [None] at the end, even
    with part of a line left. *)
Definition read_line (src : list ascii) : option (list ascii * list ascii) :=
  match cut_at newline src with
  | Some (l, _ :: rest) => Some (l ++ [newline], rest)
  | _ => None
  end.

Section proxy.
Context {PE : ProxyEnv}.

(** [sent] is what the client has taken, [lastSeq] the last event read.  Each round
    reads at least a byte. *)
Fixpoint streamNDJSON (fuel : nat) (src : list ascii) (sent : list (list ascii)) (lastSeq : option Z) :
    list (list ascii) * option Z * option stream_error :=
  match fuel with
  | O => (sent, lastSeq, Some ErrRead)
  | S f =>
      match read_line src with
      | None => (sent, lastSeq, Some ErrRead)
      | Some (line, rest) =>
          match execEventPrefix line with
          | inl _ => (sent, lastSeq, Some ErrPrefix)
          | inr (seq, typ) =>
              if negb (accepts (length sent)) then (sent, Some seq, Some ErrWrite)
              else if isTerminalEvent typ then (sent ++ [line], Some seq, None)
              else streamNDJSON f rest (sent ++ [line]) (Some seq)
          end
      end
  end.

Definition stream_all (src : list ascii) := streamNDJSON (S (length src)) src.

(** [err == nil] is the completed stream, handled before. *)
Definition shouldRetryStreamError (now : nat) (err : option stream_error) : bool :=
  match err with
  | Some ErrRead => negb (cancelled now)
  | _ => false
  end.

(** What the client got, and whether the last line is the terminal event. *)
Record streamed := mkStreamed { s_lines : list (list ascii); s_completed : bool }.

(** [attempts] retries are left of [execMaxRetries]; the context is asked before
    each one and after each interruption. *)
Fixpoint retry_loop (attempts : nat) (execID : string) (sent : list (list ascii)) (lastSeq : option Z) : streamed :=
  match attempts with
  | O => mkStreamed sent false
  | S n =>
      let attempt := (execMaxRetries - attempts)%nat in
      if cancelled (2 * attempt + 1) then mkStreamed sent false
      else match resume attempt execID lastSeq with
           | ResumeFailed | ResumeStatus _ => retry_loop n execID sent lastSeq
           | ResumeStream bytes =>
               let '(sent', lastSeq', err) := stream_all bytes sent lastSeq in
               match err with
               | None => mkStreamed sent' true
               | Some _ => if shouldRetryStreamError (2 * attempt + 2) err then retry_loop n execID sent' lastSeq'
                           else mkStreamed sent' false
               end
           end
  end.

Inductive proxied := PError (code : Z) | PForwarded (code : Z) | PStreamed (execID : string) (r : streamed).

(** [body]: [None] did not decode; [limit]: [MaxExecTimeout] in milliseconds, 0 for
    none. *)
Definition ExecProxyHandler (limit : Z) (body : option execRequestBody) : proxied :=
  match body with
  | None => PError 400
  | Some b =>
      if decide (limit > 0 /\ TimeoutMs b > limit) then PError 400
      else match resolve with
           | inl code => PError code
           | inr _ =>
               let execID := if decide (ExecID b = "") then fresh_id else ExecID b in
               match post execID with
               | PostFailed => PError 503
               | PostRedirect => PError 502
               | PostStatus code => PForwarded code
               | PostStream bytes =>
                   let '(sent, lastSeq, err) := stream_all bytes [] None in
                   match err with
                   | None => PStreamed execID (mkStreamed sent true)
                   | Some _ => PStreamed execID
                       (if shouldRetryStreamError 0 err then retry_loop execMaxRetries execID sent lastSeq
                        else mkStreamed sent false)
                   end
               end
           end
  end.
End proxy.

(** ** Correctness *)

(** The bytes of a stream of events. *)
Definition wire_line (d : list ascii) : list ascii := d ++ [newline].
Definition wire (ds : list (list ascii)) : list ascii := ds ≫= wire_line.

Lemma wire_cons d ds : wire (d :: ds) = (d ++ [newline]) ++ wire ds.
Proof. done. Qed.

(** A daemon that streams the events of [log] after the one it is asked for, cut
    off at any byte: what [Exec] shows of [Follow]. *)
Record daemon_of (log : list Response) (PE : ProxyEnv) : Prop := {
  d_small : Z.of_nat (length log) < 2 ^ 64;
  d_terminal i r : log !! i = Some r -> isTerminal r = true -> S i = length log;
  d_post id bytes : post id = PostStream bytes -> bytes `prefix_of` wire (lines log);
  d_resume n id after bytes : resume n id after = ResumeStream bytes -> bytes `prefix_of` wire (drop (start after) (lines log));
}.

Lemma lines_lookup log i d : lines log !! i = Some d -> exists r, log !! i = Some r /\ d = marshal (set_seq (Z.of_nat i) r).
Proof.
  unfold lines, stored. rewrite list_lookup_fmap, list_lookup_imap. destruct (log !! i) as [r|]; [|done].
  intros [= <-]. by exists r.
Qed.

(** Reading a cut stream: a whole first event, or nothing. *)
Lemma read_line_wire src d ds : one_line d -> src `prefix_of` wire (d :: ds) ->
  read_line src = None \/ exists rest, read_line src = Some (wire_line d, rest) /\ src = wire_line d ++ rest /\ rest `prefix_of` wire ds.
Proof.
  intros Hd [k Hk]. rewrite wire_cons in Hk. unfold read_line.
  destruct (decide (length src <= length d)%nat) as [Hle|Hgt].
  - left. assert (Hn : newline ∉ src).
    { intros Hin. apply Hd. assert (Hpre : src = take (length src) d).
      { apply (f_equal (take (length src))) in Hk. rewrite take_app_length in Hk. rewrite <- app_assoc in Hk.
        rewrite take_app_le in Hk by done. done. }
      rewrite Hpre in Hin. by apply elem_of_take in Hin as (? & ? & ?); eapply list_elem_of_lookup_2. }
    destruct (cut_at newline src) as [[a b]|] eqn:E; [|done]. exfalso. apply Hn. clear -E.
    revert a b E. induction src as [|x src IH]; intros a b; simpl; [done|]. case_decide as Hx; [intros _; subst; by left|].
    destruct (cut_at newline src) as [[a' b']|]; [|done]. intros _. right. by eapply IH.
  - right. exists (drop (S (length d)) src). assert (Hpre : src = wire_line d ++ drop (S (length d)) src).
    { rewrite <- (take_drop (S (length d)) src) at 1. f_equal. apply (f_equal (take (S (length d)))) in Hk.
      rewrite (take_app_le src) in Hk by lia. rewrite <- Hk. unfold wire_line.
      rewrite take_app_le by (rewrite length_app; simpl; lia). rewrite take_ge; [done|rewrite length_app; simpl; lia]. }
    assert (Hrl : cut_at newline src = Some (d, newline :: drop (S (length d)) src)).
    { rewrite Hpre at 1. unfold wire_line. rewrite <- app_assoc. simpl. by apply cut_at_app. }
    rewrite Hrl. split; [done|]. split; [done|]. exists k.
    apply (app_inv_head (wire_line d)). rewrite app_assoc, <- Hpre. exact Hk.
Qed.

Section correct.
Context (log : list Response) (PE : ProxyEnv) (HD : daemon_of log PE).

(** The client has the first [n] events, and the proxy would ask for the next. *)
Definition sent_events (n : nat) (sent : list (list ascii)) : Prop :=
  sent = wire_line <$> take n (lines log) /\ (n <= length log)%nat.

Definition ends_terminal : Prop := exists r, last log = Some r /\ isTerminal r = true.

Definition stream_post (n : nat) (o : list (list ascii) * option Z * option stream_error) : Prop :=
  let '(sent, lastSeq, err) := o in
  exists n', (n <= n')%nat /\ sent_events n' sent /\
  match err with
  | None => n' = length log /\ ends_terminal
  | Some ErrRead => start lastSeq = n'
  | Some ErrWrite => accepts n' = false
  | Some ErrPrefix => False
  end.

Lemma stream_correct fuel src sent lastSeq n :
  sent_events n sent -> start lastSeq = n -> src `prefix_of` wire (drop n (lines log)) ->
  stream_post n (streamNDJSON fuel src sent lastSeq).
Proof.
  revert src sent lastSeq n. induction fuel as [|fuel IH]; intros src sent lastSeq n Hs Hl Hsrc; [exists n; done|].
  cbn [streamNDJSON]. destruct (drop n (lines log)) as [|d ds] eqn:Ed.
  { apply prefix_nil_inv in Hsrc as ->. by exists n. }
  assert (Hd : lines log !! n = Some d) by (rewrite <- (Nat.add_0_r n), <- lookup_drop, Ed; done).
  destruct (lines_lookup _ _ _ Hd) as (r & Hr & ->). assert (Hn : (n < length log)%nat) by (by eapply lookup_lt_Some).
  pose proof (d_small _ _ HD) as Hsmall.
  destruct (read_line_wire src (marshal (set_seq (Z.of_nat n) r)) ds) as [->|(rest & -> & -> & Hrest)]; [|done|by exists n|].
  { apply marshal_one_line. simpl. intros ? [= <-]. lia. }
  unfold wire_line at 1. rewrite prefix_marshal by lia. destruct Hs as [Hs Hle].
  assert (Hlen : length sent = n) by (rewrite Hs, length_fmap, length_take, lines_length; lia).
  rewrite Hlen. destruct (accepts n) eqn:Ea; cbn [negb]; [|exists n; by split].
  assert (Hs' : sent_events (S n) (sent ++ [wire_line (marshal (set_seq (Z.of_nat n) r))])).
  { split; [|lia]. by rewrite (take_S_r _ _ _ Hd), fmap_app, Hs. }
  assert (Hst : start (Some (Z.of_nat n)) = S n) by (unfold start; lia).
  rewrite terminal_name. destruct (isTerminal r) eqn:Et.
  - exists (S n). split; [lia|]. split; [done|]. pose proof (d_terminal _ _ HD n r Hr Et) as Hend. split; [done|].
    exists r. split; [|done]. rewrite last_lookup, <- Hend. done.
  - assert (Hrest' : rest `prefix_of` wire (drop (S n) (lines log))).
    { rewrite (drop_S _ _ _ Hd) in Ed. by injection Ed as ->. }
    pose proof (IH rest _ _ (S n) Hs' Hst Hrest') as Hp. unfold stream_post in *.
    destruct (streamNDJSON fuel rest _ _) as [[sent' last'] err]. destruct Hp as (n' & Hn' & Hp). exists n'. split; [lia|exact Hp].
Qed.

Definition streamed_ok (r : streamed) : Prop :=
  exists n, sent_events n (s_lines r) /\ (s_completed r = true -> n = length log /\ ends_terminal).

Lemma retry_correct attempts execID sent lastSeq n :
  sent_events n sent -> start lastSeq = n -> streamed_ok (retry_loop attempts execID sent lastSeq).
Proof.
  revert sent lastSeq n. induction attempts as [|k IH]; intros sent lastSeq n Hs Hl; [by exists n|].
  cbn [retry_loop]. destruct (cancelled _); [by exists n|]. destruct (resume _ _ _) as [|code|bytes] eqn:Er; [by eapply IH..|].
  pose proof (d_resume _ _ HD _ _ _ _ Er) as Hb. rewrite Hl in Hb. unfold stream_all.
  pose proof (stream_correct (S (length bytes)) bytes sent lastSeq n Hs Hl Hb) as Hpost. unfold stream_post in Hpost.
  destruct (streamNDJSON _ _ _ _) as [[sent' last'] [err|]]; destruct Hpost as (n' & Hn' & Hs' & He); [|by exists n'].
  unfold shouldRetryStreamError. destruct err; [destruct (cancelled _)|..]; cbn [negb]; try (by exists n'). by eapply IH.
Qed.
End correct.

(** C4: The client of an exec sees each event once.  Wherever the daemon's
    connections break, in the middle of a line or between two, and however many
    resumes fail, what the proxy has forwarded is the beginning of the
    execution's event log, whole lines, in order, no event twice and none
    skipped; and when it reports the stream complete the client has every event,
    the terminal one last. *)
Theorem exec_proxy_exactly_once log PE limit body execID r :
  daemon_of log PE -> ExecProxyHandler (PE := PE) limit body = PStreamed execID r ->
  exists n, s_lines r = wire_line <$> take n (lines log) /\ (n <= length log)%nat /\
    (s_completed r = true -> n = length log /\ exists t, last log = Some t /\ isTerminal t = true).
Proof.
  intros HD Hr. cut (streamed_ok log r); [intros (n & [Hs Hn] & Hc); eauto|].
  unfold ExecProxyHandler in Hr. destruct body as [b|]; [|done]. case_decide; [done|]. destruct resolve as [|u]; [done|].
  cbv zeta in Hr. destruct (post _) as [| | |bytes] eqn:Ep; try done. unfold stream_all in Hr.
  assert (Hs0 : sent_events log 0 []) by (split; [done|lia]).
  pose proof (stream_correct log PE HD (S (length bytes)) bytes [] None 0 Hs0 eq_refl) as Hpost.
  rewrite drop_0 in Hpost. specialize (Hpost (d_post _ _ HD _ _ Ep)). unfold stream_post in Hpost.
  destruct (streamNDJSON _ _ _ _) as [[sent last'] [err|]]; destruct Hpost as (n & _ & Hs & He); injection Hr as <- <-; [|by exists n].
  unfold shouldRetryStreamError. destruct err; [destruct (cancelled _)|..]; cbn [negb]; try (by exists n).
  exact (retry_correct log PE HD execMaxRetries _ sent _ n Hs He).
Qed.

(** A daemon whose first connection breaks inside the second event, whose first
    resume fails and whose second one goes through. *)
Definition demo_log : list Response := [newStartedResponse (chars "x"); out 3; bye].
Definition flaky : ProxyEnv := {|
  resolve := inr "http://10.0.0.2:8081"; fresh_id := "x";
  post _ := PostStream (take 90 (wire (lines demo_log)));
  resume n _ after := if decide (n = 0%nat) then ResumeFailed else ResumeStream (wire (drop (start after) (lines demo_log)));
  cancelled _ := false; accepts _ := true |}.

Lemma exec_proxy_exactly_once_witness :
  exists r, ExecProxyHandler (PE := flaky) 0 (Some (mkExecBody 0 "")) = PStreamed "x" r /\ s_completed r = true /\
    s_lines r = wire_line <$> lines demo_log.
Proof.
  assert (HD : daemon_of demo_log flaky).
  { split; [reflexivity|..].
    - intros [|[|[|i]]] r; try discriminate; intros [= <-]; [discriminate|discriminate|reflexivity].
    - intros id bytes Hp. change (PostStream (take 90 (wire (lines demo_log))) = PostStream bytes) in Hp.
      assert (take 90 (wire (lines demo_log)) = bytes) as <- by congruence. apply prefix_take.
    - intros n id after bytes. simpl. destruct (decide (n = 0%nat)); [discriminate|]. intros [= <-]. reflexivity. }
  assert (H : exists r, ExecProxyHandler (PE := flaky) 0 (Some (mkExecBody 0 "")) = PStreamed "x" r /\ s_completed r = true)
    by (eexists; split; vm_compute; reflexivity).
  destruct H as (r & H & Hc). exists r. split; [exact H|]. split; [exact Hc|].
  destruct (exec_proxy_exactly_once demo_log flaky 0 _ _ r HD H) as (n & Hl & _ & Hn). destruct (Hn Hc) as [-> _].
  rewrite Hl, take_ge; [reflexivity|]. rewrite lines_length. reflexivity.
Defined.

End ExecProxy.
