(* ===== verification/ExecManager.v ===== *)
(** * Execution manager and routes of the daemon
    ([internal/daemon/exec_manager.go], [internal/daemon/daemon.go])

    Executions are shared objects: a stream keeps its execution after the manager
    dropped it, so the table holds pointers into a store of executions. *)

From S2P Require Import Prelude GoStrings Ids Wire Exec.

Module ExecManager.
Import GoStrings Wire Exec.

(** [launched]: the commands started, newest first, with the id each was started
    under. *)
Record ExecManager := mkManager {
  executions : gmap string nat;
  objects : gmap nat Execution;
  em_maxEventBytes : Z;
  execRetainPeriod : Z;
  launched : list (string * nat);
}.

Definition set_executions (e : gmap string nat) (em : ExecManager) : ExecManager :=
  mkManager e (objects em) (em_maxEventBytes em) (execRetainPeriod em) (launched em).
Definition set_object (p : nat) (x : Execution) (em : ExecManager) : ExecManager :=
  mkManager (executions em) (<[p := x]> (objects em)) (em_maxEventBytes em) (execRetainPeriod em) (launched em).

Definition NewExecManager (maxEventBytes retain : Z) : ExecManager := mkManager ∅ ∅ maxEventBytes retain [].

(** [ptr] is where the new object goes, [generated] the id made up for an empty
    one. *)
Definition GetOrCreate (execID generated : string) (ptr : nat) (now : Z) (em : ExecManager) : nat * ExecManager :=
  let create (id : string) :=
    let x := append (newStartedResponse (chars id)) now (new_execution (em_maxEventBytes em)) in
    (ptr, mkManager (<[id := ptr]> (executions em)) (<[ptr := x]> (objects em)) (em_maxEventBytes em) (execRetainPeriod em)
            ((id, ptr) :: launched em)) in
  if decide (execID <> "") then
    match executions em !! execID with
    | Some p => (p, em)
    | None => create execID
    end
  else create generated.

Definition Get (execID : string) (em : ExecManager) : option nat := executions em !! execID.

(** The cancelled command ends on its own and says so in its execution. *)
Definition Delete (execID : string) (em : ExecManager) : bool * ExecManager :=
  match executions em !! execID with
  | None => (false, em)
  | Some _ => (true, set_executions (delete execID (executions em)) em)
  end.

(** [!completedAt.IsZero() && now.Sub(completedAt) > retain] *)
Definition expired (now retain : Z) (x : Execution) : bool :=
  match completedAt x with Some t => bool_decide (now - t > retain) | None => false end.

Definition keeps (now : Z) (em : ExecManager) (p : nat) : bool :=
  match objects em !! p with Some x => negb (expired now (execRetainPeriod em) x) | None => true end.

Definition gc (now : Z) (em : ExecManager) : ExecManager :=
  set_executions (filter (fun kv => keeps now em kv.2 = true) (executions em)) em.

(** ** Routes *)

Inductive reply := RStatus (code : Z) | RFollow (p : nat) (after : option Z) | RBody (events : list (list ascii)) | RPanic.

(** POST /executions; [body]: the command and the exec id, when it decoded. *)
Definition post_executions (body : option (string * string)) (generated : string) (ptr : nat) (now : Z) (em : ExecManager) :
    reply * ExecManager :=
  match body with
  | None => (RStatus 400, em)
  | Some (command, execID) =>
      if decide (command = "") then (RStatus 400, em)
      else
        let '(p, em') := GetOrCreate execID generated ptr now em in
        match objects em' !! p with
        | None => (RPanic, em')
        | Some x => if negb (HasHistory None x) then (RStatus 410, em') else (RFollow p None, em')
        end
  end.

(** [None] for an error. *)
Definition parseAfterParam (v : list ascii) : option (option Z) :=
  match v with
  | [] => Some None
  | _ => match ParseUint v with Some n => Some (Some n) | None => None end
  end.

(** GET /executions/{exec_id} *)
Definition get_execution (execID : string) (afterParam : list ascii) (follow : bool) (em : ExecManager) : reply :=
  match parseAfterParam afterParam with
  | None => RStatus 400
  | Some after =>
      match Get execID em with
      | None => RStatus 404
      | Some p =>
          match objects em !! p with
          | None => RPanic
          | Some x =>
              if negb (HasHistory after x) then RStatus 410
              else if follow then RFollow p after
              else match Snapshot after x with
                   | SnapPanic => RPanic
                   | SnapTrimmed => RBody [marshal (newErrorResponse (chars "requested event history is no longer retained"))]
                   | SnapEvents l => RBody l
                   end
          end
      end
  end.

(** DELETE /executions/{exec_id} *)
Definition delete_execution (execID : string) (em : ExecManager) : reply * ExecManager := (RStatus 204, (Delete execID em).2).

(** ** The daemon over time: requests, output of commands and cleanup; [D] are the
    ids somebody deletes. *)
Inductive step (D : string -> Prop) : ExecManager -> ExecManager -> Prop :=
| step_post em body generated ptr now : objects em !! ptr = None -> executions em !! generated = None -> generated <> "" ->
    step D em (post_executions body generated ptr now em).2
| step_output em p x r now : objects em !! p = Some x -> completed x = false ->
    step D em (set_object p (append r now x) em)
| step_gc em now : step D em (gc now em)
| step_delete em id : D id -> step D em (delete_execution id em).2.

Record inv (em : ExecManager) : Prop := {
  i_objects id p : executions em !! id = Some p -> is_Some (objects em !! p);
  i_completed p x : objects em !! p = Some x -> is_Some (completedAt x) <-> completed x = true;
}.

Lemma append_completed r now x : completed x = false -> completedAt x = None ->
  is_Some (completedAt (append r now x)) <-> completed (append r now x) = true.
Proof.
  intros Hc Ha. unfold append. destruct (trim _ _ _ _) as [[evs sz] mn]. simpl. rewrite Hc, Ha.
  destruct (isTerminal r); simpl; [naive_solver|]. split; [by intros [? ?]|done].
Qed.

Definition runs_of (id : string) (em : ExecManager) : list (string * nat) := filter (fun l => l.1 = id) (launched em).

(** What a POST does to the manager: nothing, or one new execution under an id
    that had none. *)
Lemma post_cases body generated ptr now em :
  executions em !! generated = None ->
  let em' := (post_executions body generated ptr now em).2 in
  em' = em \/ exists id, executions em !! id = None /\
    em' = mkManager (<[id := ptr]> (executions em))
            (<[ptr := append (newStartedResponse (chars id)) now (new_execution (em_maxEventBytes em))]> (objects em))
            (em_maxEventBytes em) (execRetainPeriod em) ((id, ptr) :: launched em).
Proof.
  intros Hg. unfold post_executions. destruct body as [[cmd execID]|]; [|by left]. case_decide; [by left|].
  destruct (GetOrCreate execID generated ptr now em) as [p em'] eqn:E.
  assert (Hem : (match objects em' !! p with None => (RPanic, em') | Some x => if negb (HasHistory None x) then (RStatus 410, em')
    else (RFollow p None, em') end).2 = em') by (by repeat case_match). rewrite Hem. unfold GetOrCreate in E.
  case_decide; [destruct (executions em !! execID) eqn:Ex|]; simplify_eq; [by left|right; eauto..].
Qed.

Lemma manager_step D em em' : inv em -> step D em em' -> inv em'.
Proof.
  intros [Ho Hc] Hs. destruct Hs as [em body generated ptr now Hp Hg _|em p x r now Hx Hnc|em now|em id HD].
  - destruct (post_cases body generated ptr now em Hg) as [->|(id & Hid & ->)]; [by split|]. split; simpl.
    + intros id' p [[_ <-]|[_ Hp']]%lookup_insert_Some; [rewrite lookup_insert_eq; eauto|].
      destruct (decide (p = ptr)) as [->|Hne]; [rewrite lookup_insert_eq; eauto|]. rewrite lookup_insert_ne by done. eauto.
    + intros p x [[_ <-]|[_ Hx]]%lookup_insert_Some; [by apply append_completed|eauto].
  - assert (Hn : completedAt x = None).
    { destruct (completedAt x) eqn:E; [|done]. assert (completed x = true) by (apply (Hc p x Hx); by rewrite E). congruence. }
    split; simpl.
    + intros id p' Hp'. destruct (decide (p' = p)) as [->|Hne]; [rewrite lookup_insert_eq; eauto|]. rewrite lookup_insert_ne by done. eauto.
    + intros p' y [[_ <-]|[_ Hy]]%lookup_insert_Some; [by apply append_completed|eauto].
  - split; simpl; [|done]. intros id p [Hp _]%map_lookup_filter_Some. eauto.
  - unfold delete_execution, Delete. simpl. destruct (executions em !! id); simpl; [|by split].
    split; simpl; [|done]. intros id' p [_ Hp]%lookup_delete_Some. eauto.
Qed.

(** The execution under [id] is still there, or it is over. *)
Definition retained (id : string) (p : nat) (em0 em : ExecManager) : Prop :=
  (executions em !! id = Some p /\ runs_of id em = runs_of id em0) \/ (exists x, objects em !! p = Some x /\ completed x = true).

Lemma retained_step D id p em0 em em' : ~ D id -> inv em -> retained id p em0 em -> step D em em' -> retained id p em0 em'.
Proof.
  intros HD [Ho Hc] Hr Hs. destruct Hs as [em body generated ptr now Hp Hg _|em q x r now Hx Hnc|em now|em id' HD'].
  - destruct (post_cases body generated ptr now em Hg) as [->|(id' & Hid & ->)]; [done|]. destruct Hr as [[He Hl]|(x & Hx & Hcx)].
    + left. assert (id' <> id) by congruence. simpl. rewrite lookup_insert_ne by done. split; [done|].
      unfold runs_of in *. simpl. rewrite filter_cons_False by done. done.
    + right. exists x. simpl. rewrite lookup_insert_ne by congruence. done.
  - destruct Hr as [?|(y & Hy & Hcy)]; [by left|right]. exists y. simpl. rewrite lookup_insert_ne; [done|]. congruence.
  - destruct Hr as [[He Hl]|?]; [|by right]. destruct (Ho id p He) as [x Hx]. unfold retained, gc. simpl.
    destruct (keeps now em p) eqn:Ek.
    + left. split; [by apply map_lookup_filter_Some|done].
    + right. exists x. split; [done|]. unfold keeps, expired in Ek. rewrite Hx in Ek. destruct (completedAt x) eqn:Ea; [|done].
      apply (Hc p x Hx). by rewrite Ea.
  - unfold delete_execution, Delete. simpl. assert (Hne : id' <> id) by congruence.
    destruct (executions em !! id') as [q|]; simpl; [|done]. destruct Hr as [[He Hl]|?]; [left|by right]. simpl.
    rewrite lookup_delete_ne by done. done.
Qed.

Lemma manager_reachable D max retain em : rtc (step D) (NewExecManager max retain) em -> inv em.
Proof.
  intros Hr. assert (Hi : inv (NewExecManager max retain)) by (split; simpl; intros *; by rewrite lookup_empty).
  revert Hi. induction Hr; eauto using manager_step.
Qed.

(** A request can be repeated with the same id without running its command
    again.  Whatever other requests, output and cleanups happen, an execution
    nobody deletes stays under its id until it is over, and a POST for it then
    joins it and starts nothing; cleanup takes away only executions that ended
    more than the retain period ago. *)
Theorem exec_id_starts_once D max retain em1 em2 id p :
  rtc (step (fun _ => True)) (NewExecManager max retain) em1 -> executions em1 !! id = Some p -> id <> "" -> ~ D id ->
  rtc (step D) em1 em2 ->
  ((forall generated ptr now, GetOrCreate id generated ptr now em2 = (p, em2)) /\ runs_of id em2 = runs_of id em1 \/
   exists x, objects em2 !! p = Some x /\ completed x = true) /\
  (forall now id' q, executions em2 !! id' = Some q -> executions (gc now em2) !! id' = None ->
     exists x t, objects em2 !! q = Some x /\ completedAt x = Some t /\ now - t > execRetainPeriod em2).
Proof.
  intros Hr Hid Hne HD H12. pose proof (manager_reachable _ _ _ _ Hr) as Hinv. split.
  - assert (Hret : retained id p em1 em2).
    { assert (H0 : retained id p em1 em1) by (left; done). clear Hr Hid. revert Hinv H0. generalize em1 at 2 4. intros em0.
      revert em0. induction H12 as [|e1 e2 e3 Hs _ IH]; intros em0 Hinv H0; [done|].
      apply IH; [by eapply manager_step|by eapply retained_step]. }
    destruct Hret as [[He Hl]|?]; [left|by right]. split; [|done]. intros generated ptr now. unfold GetOrCreate.
    rewrite decide_True by done. by rewrite He.
  - intros now id' q Hq Hnone. unfold gc in Hnone. simpl in Hnone. apply map_lookup_filter_None in Hnone as [Hn|Hn]; [congruence|].
    specialize (Hn q Hq). simpl in Hn. unfold keeps, expired in Hn. destruct (objects em2 !! q) as [x|]; [|done].
    destruct (completedAt x) as [t|] eqn:Et; [|done]. exists x, t. split; [done|]. split; [done|].
    case_bool_decide; [done|]. by simpl in Hn.
Qed.

Definition one_running : ExecManager := (post_executions (Some ("sleep 9", "x")) "g" 0 5 (NewExecManager 100 600)).2.

Lemma exec_id_starts_once_witness :
  executions one_running !! "x" = Some 0%nat /\
  (forall generated ptr now, GetOrCreate "x" generated ptr now (gc 99999 one_running) = (0%nat, gc 99999 one_running)) /\
  runs_of "x" (gc 99999 one_running) = [("x", 0%nat)].
Proof.
  assert (Hr : rtc (step (fun _ => True)) (NewExecManager 100 600) one_running).
  { eapply rtc_l; [apply (step_post _ _ (Some ("sleep 9", "x")) "g" 0 5); [vm_compute; reflexivity|vm_compute; reflexivity|discriminate]|].
    apply rtc_refl. }
  split; [vm_compute; reflexivity|].
  destruct (exec_id_starts_once (fun _ => False) 100 600 one_running (gc 99999 one_running) "x" 0 Hr) as [[[H1 H2]|(x & Hx & Hc)] _].
  - vm_compute; reflexivity.
  - discriminate.
  - tauto.
  - apply rtc_once, step_gc.
  - split; [exact H1|]. rewrite H2. vm_compute. reflexivity.
  - exfalso. revert Hc. assert (Hx' : objects (gc 99999 one_running) !! 0%nat =
      Some (append (newStartedResponse (chars "x")) 5 (new_execution 100))) by (vm_compute; reflexivity).
    rewrite Hx in Hx'. injection Hx' as ->. vm_compute. discriminate.
Defined.

End ExecManager.
