(* ===== verification/StreamLines.v ===== *)
(** * Command output as events ([streamLines] of [internal/daemon/exec.go])

    Output is cut into lines, and lines longer than the read buffer into chunks,
    without splitting a UTF-8 character; [bufio.Reader.ReadLine] is modelled on
    the whole input, since only a full buffer or the end of the input makes it
    return without a newline. *)

From S2P Require Import Prelude GoStrings Ids Wire.

Module StreamLines.
Import GoStrings Ids Wire.

Definition streamChunkBytes : Z := 64 * 1024.
Definition UTFMax : nat := 4.
Definition carriage : ascii := byte 13.

(** Drop a trailing ['\r']. *)
Definition strip_cr (l : list ascii) : list ascii :=
  match last l with
  | Some c => if decide (c = carriage) then take (length l - 1) l else l
  | None => l
  end.

(** [reader.ReadLine()] with a buffer of [N] bytes: the chunk, [isPrefix] and what
    is left; [None] at the end of the input. *)
Definition ReadLine (N : nat) (src : list ascii) : option (list ascii * bool * list ascii) :=
  match cut_at newline (take N src) with
  | Some (l, _) => Some (strip_cr l, false, drop (S (length l)) src)
  | None =>
      if decide (N <= length src)%nat then
        let chunk := take N src in
        if decide (last chunk = Some carriage) then Some (take (N - 1) chunk, true, carriage :: drop N src)
        else Some (chunk, true, drop N src)
      else match src with
           | [] => None
           | _ => Some (src, false, [])
           end
  end.

(** The loop of [incompleteRuneStart]: the byte before [i] is looked at, [tries]
    of them at most. *)
Fixpoint rune_scan (tries i : nat) (b : list ascii) : nat :=
  match tries, i with
  | S t, S j =>
      match b !! j with
      | Some c => if negb (RuneStart c) then rune_scan t j b
                  else if FullRune (drop j b) then length b else j
      | None => length b
      end
  | _, _ => length b
  end.

Definition incompleteRuneStart (b : list ascii) : nat := rune_scan UTFMax (length b) b.

(** [acc] is what was emitted; [carry] and [midLine] as in the code. *)
Fixpoint stream_loop (N fuel : nat) (src carry : list ascii) (midLine : bool) (acc : list (list ascii)) : list (list ascii) :=
  match fuel with
  | O => acc
  | S f =>
      match ReadLine N src with
      | None => if bool_decide (carry <> []) || midLine then acc ++ [carry ++ [newline]] else acc
      | Some (chunk, isPrefix, rest) =>
          let d := carry ++ chunk in
          if negb isPrefix then stream_loop N f rest [] false (acc ++ [d ++ [newline]])
          else
            let cut := incompleteRuneStart d in
            if decide (0 < cut)%nat then stream_loop N f rest (drop cut d) true (acc ++ [take cut d])
            else stream_loop N f rest (drop cut d) midLine acc
      end
  end.

(** Each round takes a byte from the input, so its length is enough fuel. *)
Definition stream_with (N : nat) (src : list ascii) : list (list ascii) :=
  stream_loop N (S (length src)) src [] false [].

Definition streamLines (src : list ascii) : list (list ascii) := stream_with (Z.to_nat streamChunkBytes) src.

(** ** Specification: the lines of the input, each ended by one newline *)

Fixpoint normalize (line src : list ascii) : list ascii :=
  match src with
  | [] => match line with [] => [] | _ => line ++ [newline] end
  | c :: src' => if decide (c = newline) then strip_cr line ++ newline :: normalize [] src' else normalize (line ++ [c]) src'
  end.

Definition normal (src : list ascii) : list ascii := normalize [] src.

Lemma normalize_line line l rest : newline ∉ l ->
  normalize line (l ++ newline :: rest) = strip_cr (line ++ l) ++ newline :: normal rest.
Proof.
  revert line. induction l as [|c l IH]; intros line Hl; simpl.
  - by rewrite app_nil_r.
  - rewrite not_elem_of_cons in Hl. rewrite decide_False by naive_solver. rewrite IH by naive_solver. by rewrite <- app_assoc.
Qed.

Lemma normalize_tail line l : newline ∉ l -> line ++ l <> [] -> normalize line l = line ++ l ++ [newline].
Proof.
  revert line. induction l as [|c l IH]; intros line Hl Hne; simpl.
  - rewrite app_nil_r in Hne. by destruct line.
  - rewrite not_elem_of_cons in Hl. rewrite decide_False by naive_solver. rewrite IH.
    + by rewrite <- app_assoc.
    + naive_solver.
    + by destruct line.
Qed.

Lemma normalize_chunk line l rest : newline ∉ l -> normalize line (l ++ rest) = normalize (line ++ l) rest.
Proof.
  revert line. induction l as [|c l IH]; intros line Hl; simpl; [by rewrite app_nil_r|].
  rewrite not_elem_of_cons in Hl. rewrite decide_False by naive_solver. rewrite IH by naive_solver. by rewrite <- app_assoc.
Qed.

Lemma strip_cr_app a l : l <> [] -> strip_cr (a ++ l) = a ++ strip_cr l.
Proof.
  intros Hl. unfold strip_cr. destruct (last l) as [c|] eqn:E; [|by apply last_None in E].
  rewrite last_app, E. case_decide; [|done]. rewrite length_app.
  assert (0 < length l)%nat by (destruct l; [done|simpl; lia]).
  rewrite take_app_ge by lia. f_equal. f_equal. lia.
Qed.

Lemma strip_cr_not l c : last l = Some c -> c <> carriage -> strip_cr l = l.
Proof. intros Hl Hc. unfold strip_cr. rewrite Hl. by rewrite decide_False. Qed.

Lemma cut_at_Some c l a b : cut_at c l = Some (a, b) -> l = a ++ b /\ c ∉ a /\ exists b', b = c :: b'.
Proof.
  revert a b. induction l as [|x l IH]; intros a b; simpl; [done|]. case_decide as Hx.
  - intros [= <- <-]. split; [done|]. split; [apply not_elem_of_nil|]. subst. eauto.
  - destruct (cut_at c l) as [[a' b']|]; [|done]. intros [= <- <-]. destruct (IH a' b' eq_refl) as (-> & Hc & Hb).
    split; [done|]. split; [|done]. rewrite not_elem_of_cons. naive_solver.
Qed.

Lemma cut_at_None c l : cut_at c l = None -> c ∉ l.
Proof.
  induction l as [|x l IH]; simpl; [intros _; apply not_elem_of_nil|]. case_decide; [done|].
  destruct (cut_at c l) as [[]|]; [done|]. intros _. rewrite not_elem_of_cons. naive_solver.
Qed.

(** What one read returns. *)
Lemma ReadLine_spec N src : (2 <= N)%nat ->
  match ReadLine N src with
  | None => src = []
  | Some (chunk, false, rest) =>
      (exists l, src = l ++ newline :: rest /\ newline ∉ l /\ chunk = strip_cr l /\ (length l < N)%nat) \/
      (src = chunk /\ rest = [] /\ newline ∉ chunk /\ chunk <> [] /\ (length chunk < N)%nat)
  | Some (chunk, true, rest) =>
      src = chunk ++ rest /\ newline ∉ chunk /\ (0 < length chunk <= N)%nat /\
      (last chunk <> Some carriage \/ exists rest', rest = carriage :: rest')
  end.
Proof.
  intros HN. unfold ReadLine. destruct (cut_at newline (take N src)) as [[l b]|] eqn:E.
  - apply cut_at_Some in E as (Ht & Hl & b' & ->). left. exists l.
    assert (Hsrc : src = l ++ newline :: b' ++ drop N src) by (rewrite <- (take_drop N src) at 1; by rewrite Ht, <- app_assoc).
    assert (Hlen : (length l < N)%nat).
    { pose proof (f_equal length Ht) as Hlt. rewrite length_take, length_app in Hlt. simpl in Hlt. lia. }
    split; [|split; [exact Hl|split; [reflexivity|exact Hlen]]]. 
    assert (Hd : drop (S (length l)) src = b' ++ drop N src).
    { rewrite Hsrc at 1. change (newline :: b' ++ drop N src) with ([newline] ++ (b' ++ drop N src)). rewrite app_assoc.
      apply drop_app_length'. rewrite length_app. simpl. lia. }
    by rewrite Hd.
  - apply cut_at_None in E. case_decide as Hle.
    + assert (Hlt : length (take N src) = N) by (rewrite length_take; lia). case_decide as Hcr.
      * pose proof Hcr as Hcr'. apply last_Some in Hcr' as [l' Hl']. rewrite Hl'.
        assert (Hl : length l' = (N - 1)%nat) by (rewrite Hl', length_app in Hlt; simpl in Hlt; lia).
        rewrite <- Hl, take_app_length. rewrite Hl' in E. apply not_elem_of_app in E as [E _].
        split; [rewrite <- (take_drop N src) at 1; by rewrite Hl', <- app_assoc|]. split; [done|]. split; [lia|right; eauto].
      * split; [by rewrite take_drop|]. split; [done|]. split; [lia|by left].
    + rewrite take_ge in E by lia. destruct src as [|c src]; [done|]. right. repeat split; try done. lia.
Qed.

(** ** Nothing is lost *)

(** The part [p] of a line that was read keeps its end: it ends in no ['\r'] that a
    newline could still take away. *)
Definition settled (p src : list ascii) : Prop := strip_cr p = p \/ exists src', src = carriage :: src'.

Lemma strip_cr_nil : strip_cr [] = [].
Proof. done. Qed.

Lemma last_settled p l rest : l <> [] -> last l <> Some carriage \/ (exists rest', rest = carriage :: rest') -> settled (p ++ l) rest.
Proof.
  intros Hl [Hc|Hr]; [left|by right]. rewrite strip_cr_app by done. f_equal. unfold strip_cr.
  destruct (last l) as [c|]; [|done]. rewrite decide_False; [done|congruence].
Qed.

Lemma stream_loop_concat N fuel src carry midLine acc A e :
  (2 <= N)%nat -> (length src < fuel)%nat -> concat acc = A ++ e -> midLine = bool_decide (e <> []) -> settled (e ++ carry) src ->
  concat (stream_loop N fuel src carry midLine acc) = A ++ normalize (e ++ carry) src.
Proof.
  intros HN. revert src carry midLine acc A e. induction fuel as [|fuel IH]; intros src carry midLine acc A e Hf Hacc Hmid Hset; [lia|].
  cbn [stream_loop]. pose proof (ReadLine_spec N src HN) as Hrd. destruct (ReadLine N src) as [[[chunk isPrefix] rest]|].
  2:{ subst src midLine. assert (Hc : bool_decide (carry <> []) || bool_decide (e <> []) = bool_decide (e ++ carry <> [])).
      { by destruct e, carry. }
      rewrite Hc. cbn [normalize]. destruct (e ++ carry) as [|c l] eqn:Ee; simpl.
      - apply app_eq_nil in Ee as [-> _]. exact Hacc.
      - rewrite concat_app, Hacc. simpl. by rewrite app_nil_r, <- app_assoc, (app_assoc e), Ee. }
  destruct isPrefix; cbn [negb].
  - destruct Hrd as (-> & Hnl & Hlen & Hcr). rewrite normalize_chunk by done.
    assert (Hch : chunk <> []) by (by destruct chunk; simpl in *; [lia|]). rewrite length_app in Hf.
    pose proof (last_settled (e ++ carry) chunk rest Hch Hcr) as Hs. cbv zeta.
    set (cut := incompleteRuneStart (carry ++ chunk)).
    case_decide as Hcut.
    + rewrite (IH rest (drop cut (carry ++ chunk)) true _ A (e ++ take cut (carry ++ chunk))); [|lia|..].
      * rewrite <- !app_assoc, take_drop. done.
      * rewrite concat_app, Hacc. simpl. by rewrite app_nil_r, app_assoc.
      * symmetry. apply bool_decide_eq_true. intros [_ Hnil]%app_eq_nil. apply (f_equal length) in Hnil.
        rewrite length_take, length_app in Hnil. simpl in Hnil. lia.
      * rewrite <- app_assoc, take_drop. by rewrite app_assoc.
    + assert (cut = 0%nat) as -> by lia. rewrite drop_0.
      rewrite (IH rest (carry ++ chunk) midLine acc A e); [by rewrite app_assoc|lia|done|done|by rewrite app_assoc].
  - assert (Hrest : (length rest < fuel)%nat).
    { destruct Hrd as [(l & -> & _)|(-> & -> & _ & Hne & _)]; [rewrite length_app in Hf; simpl in Hf; lia|].
      destruct chunk; [done|simpl in *; lia]. }
    rewrite (IH rest [] false _ (A ++ e ++ carry ++ chunk ++ [newline]) []); [|lia| |done|by left].
    2:{ rewrite concat_app, Hacc. simpl. by rewrite !app_nil_r, <- !app_assoc. }
    simpl. destruct Hrd as [(l & -> & Hl & -> & _)|(-> & -> & Hl & Hne & _)].
    + rewrite normalize_line by done. fold (normal rest). rewrite <- !app_assoc. simpl. f_equal.
      assert (Hstrip : strip_cr ((e ++ carry) ++ l) = (e ++ carry) ++ strip_cr l).
      { destruct l as [|c l]; [|by apply strip_cr_app]. rewrite strip_cr_nil, !app_nil_r.
        destruct Hset as [Hs|[src' Hs]]; [done|discriminate]. }
      rewrite <- app_assoc in Hstrip. rewrite Hstrip. by rewrite <- !app_assoc.
    + change (normalize [] []) with (@nil ascii).
      rewrite normalize_tail; [|exact Hl|by destruct chunk, e, carry]. by rewrite app_nil_r, <- !app_assoc.
Qed.

(** ** Characters are not split *)

Lemma first_range n size r : first n = Some (size, r) ->
  (size = 1%nat /\ (n < 128)%N) \/ ((2 <= size <= 4)%nat /\ (194 <= n)%N /\ (128 <= r.1)%N /\ (r.2 <= 191)%N).
Proof.
  unfold first. repeat (destruct (_ <? _)%N eqn:?H in |- * || destruct (_ =? _)%N eqn:?H in |- *); intros [= <- <-] || discriminate;
    rewrite ?N.ltb_lt, ?N.ltb_ge, ?N.eqb_eq in *; simpl; [left; split; [done|lia]|right; lia..].
Qed.

(** A whole character: its first byte starts one, the others continue it. *)
Definition char (p : list ascii) : Prop := rune_size p = Some (length p).

Lemma char_shape p : char p -> exists c tail, p = c :: tail /\ RuneStart c = true /\ forallb continuation tail = true /\
  (length tail < 4)%nat /\ ((code c < 128)%N -> tail = []) /\
  exists size r, first (code c) = Some (size, r) /\ size = length p /\ tail_ok r tail = true.
Proof.
  unfold char, rune_size. destruct p as [|c tail]; [done|]. destruct (first (code c)) as [[size r]|] eqn:Ef; [|done].
  destruct (_ && _) eqn:E; [|done]. intros [= Hsize]. apply andb_true_iff in E as [_ Ht].
  rewrite take_ge in Ht by (simpl in Hsize; lia). exists c, tail. split; [done|].
  pose proof (first_range _ _ _ Ef) as Hr. simpl in Hsize. split; [|split; [|split; [|split]]].
  - unfold RuneStart, continuation. apply negb_true_iff, not_true_is_false. rewrite between_spec. lia.
  - destruct tail as [|c1 tail]; [done|]. simpl in Ht |- *. apply andb_true_iff in Ht as [H1 H2]. apply between_spec in H1.
    rewrite H2, andb_true_r. unfold continuation. apply between_spec. simpl in Hsize. lia.
  - lia.
  - intros Hlow. destruct tail; [done|]. simpl in Hsize. lia.
  - exists size, r. simpl. split; [done|]. split; [lia|done].
Qed.

Lemma full_char p : char p -> FullRune p = true.
Proof.
  intros (c & tail & -> & _ & _ & _ & _ & size & r & Hf & Hs & _)%char_shape. unfold FullRune. rewrite Hf, Hs.
  rewrite Nat.leb_refl. done.
Qed.

Lemma partial_char q q' : char (q ++ q') -> q <> [] -> q' <> [] -> FullRune q = false.
Proof.
  intros (c & tail & Hp & _ & _ & _ & _ & size & r & Hf & Hs & Ht)%char_shape Hq Hq'.
  destruct q as [|c0 q]; [done|]. simpl in Hp. injection Hp as -> <-. unfold FullRune. rewrite Hf.
  assert (Hlt : (size <=? length (c :: q))%nat = false).
  { apply Nat.leb_gt. rewrite Hs. simpl. rewrite length_app. destruct q'; [done|simpl; lia]. }
  rewrite Hlt. simpl. destruct q as [|c1 [|c2 q]]; [done|..]; simpl in Ht.
  - apply andb_true_iff in Ht as [-> _]. done.
  - rewrite !andb_true_iff in Ht. destruct Ht as [-> [-> _]]. done.
Qed.

(** Looking back over the bytes that continue a character finds where it starts. *)
Lemma rune_scan_back a c tail k tries : RuneStart c = true -> forallb continuation tail = true ->
  (k <= length tail)%nat -> (k < tries)%nat ->
  rune_scan tries (length a + S k) (a ++ c :: tail) =
    if FullRune (c :: tail) then length (a ++ c :: tail) else length a.
Proof.
  intros Hc Ht. revert tries. induction k as [|k IH]; intros tries Hk Htr; (destruct tries as [|tries]; [lia|]).
  - rewrite Nat.add_1_r. cbn [rune_scan]. rewrite lookup_app_r, Nat.sub_diag by lia. simpl. rewrite Hc. simpl.
    by rewrite drop_app_length.
  - replace (length a + S (S k))%nat with (S (length a + S k)) by lia. cbn [rune_scan].
    rewrite lookup_app_r by lia. replace (length a + S k - length a)%nat with (S k) by lia. simpl.
    destruct (lookup_lt_is_Some_2 tail k) as [x Hx]; [lia|]. rewrite Hx.
    rewrite forallb_forall in Ht. pose proof (Ht x (proj1 (list_elem_of_In _ _) (list_elem_of_lookup_2 _ _ _ Hx))) as Hx'.
    unfold RuneStart. rewrite Hx'. simpl. apply IH; lia.
Qed.

Lemma utf8_last p : utf8 p -> p = [] \/ exists p0 r, p = p0 ++ r /\ char r.
Proof.
  induction 1 as [|r n l Hr Hl _ IH]; [by left|right]. destruct IH as [->|(p0 & r' & -> & Hc)].
  - exists [], r. rewrite app_nil_r. split; [done|]. unfold char. congruence.
  - exists (r ++ p0), r'. by rewrite app_assoc.
Qed.

Definition partial (q : list ascii) : Prop := q = [] \/ exists q', q' <> [] /\ char (q ++ q').

(** [incompleteRuneStart] finds the end of the last whole character. *)
Lemma incompleteRuneStart_spec p q : utf8 p -> partial q -> incompleteRuneStart (p ++ q) = length p.
Proof.
  intros Hp Hq. unfold incompleteRuneStart, UTFMax. destruct (decide (q = [])) as [->|Hne].
  - rewrite app_nil_r. destruct (utf8_last p Hp) as [->|(p0 & r & -> & Hc)]; [done|].
    pose proof Hc as (c & tail & -> & Hs & Ht & Hl & _)%char_shape.
    replace (length (p0 ++ c :: tail)) with (length p0 + S (length tail))%nat at 1 by (rewrite length_app; done).
    rewrite rune_scan_back by (done || lia). by rewrite full_char.
  - destruct Hq as [|(q' & Hq' & Hc)]; [done|]. pose proof (partial_char q q' Hc Hne Hq') as Hpart.
    destruct (char_shape _ Hc) as (c & tail & Heq & Hs & Ht & Hl & _). destruct q as [|c0 q]; [done|].
    simpl in Heq. injection Heq as -> <-. rewrite forallb_app in Ht. apply andb_true_iff in Ht as [Ht _]. rewrite length_app in Hl.
    replace (length (p ++ c :: q)) with (length p + S (length q))%nat at 1 by (rewrite length_app; done).
    rewrite rune_scan_back by (done || lia). by rewrite Hpart.
Qed.

(** Where the beginning of a text falls among its characters. *)
Lemma utf8_split t a b : utf8 t -> t = a ++ b ->
  exists p q, a = p ++ q /\ utf8 p /\ utf8 (q ++ b) /\ (q = [] \/ exists q', q' <> [] /\ char (q ++ q') /\ q' `prefix_of` b).
Proof.
  intros Ht. revert a b. induction Ht as [|r n l Hr Hn Hl IH]; intros a b Hab.
  - symmetry in Hab. apply app_eq_nil in Hab as [-> ->]. exists [], []. repeat split; try constructor. done.
  - destruct (decide (length a < length r)%nat) as [Hlt|Hge].
    + exists [], a. split; [done|]. split; [constructor|]. split; [rewrite <- Hab; by econstructor|]. right.
      assert (Hra : r = a ++ drop (length a) r).
      { rewrite <- (take_drop (length a) r) at 1. f_equal. apply (f_equal (take (length a))) in Hab.
        rewrite take_app_length, take_app_le in Hab by lia. done. }
      exists (drop (length a) r). split; [|split].
      * intros Hd. apply (f_equal length) in Hd. rewrite length_drop in Hd. simpl in Hd. lia.
      * rewrite <- Hra. unfold char. congruence.
      * rewrite Hra in Hab at 1. rewrite <- app_assoc in Hab. apply app_inv_head in Hab. rewrite <- Hab. by eexists.
    + assert (Har : a = r ++ drop (length r) a).
      { rewrite <- (take_drop (length r) a) at 1. f_equal. apply (f_equal (take (length r))) in Hab.
        rewrite take_app_length, take_app_le in Hab by lia. done. }
      rewrite Har in Hab. rewrite <- app_assoc in Hab. apply app_inv_head in Hab.
      destruct (IH _ _ Hab) as (p & q & Hpq & Hp & Hq & Hor). exists (r ++ p), q. split; [by rewrite <- app_assoc, <- Hpq|].
      split; [by econstructor|]. done.
Qed.

Lemma utf8_app a b : utf8 a -> utf8 b -> utf8 (a ++ b).
Proof. induction 1; intros Hb; [done|]. rewrite <- app_assoc. econstructor; eauto. Qed.

Lemma utf8_ascii c l : (code c < 128)%N -> utf8 l -> utf8 (c :: l).
Proof.
  intros Hc Hl. apply (utf8_cons [c] 1 l); [|done|done]. unfold rune_size, first. rewrite (proj2 (N.ltb_lt _ _) Hc). done.
Qed.

(** An ASCII byte is a character of its own, so the text before it is whole. *)
Lemma utf8_before a c b : (code c < 128)%N -> utf8 (a ++ c :: b) -> utf8 a /\ utf8 b.
Proof.
  intros Hc Ht. destruct (utf8_split _ (a ++ [c]) b Ht) as (p & q & Hpq & Hp & Hq & Hor); [by rewrite <- app_assoc|].
  destruct (utf8_split _ a (c :: b) Ht eq_refl) as (p0 & q0 & -> & Hp0 & Hq0 & Hor0).
  assert (q0 = []) as ->.
  { destruct Hor0 as [|(q' & Hne & Hch & Hpre)]; [done|]. destruct q0 as [|x q0]; [done|]. exfalso.
    destruct q' as [|y q']; [done|]. destruct Hpre as [k Hk]. simpl in Hk. injection Hk as -> _.
    destruct (char_shape _ Hch) as (c0 & tail & Heq & _ & Ht' & _). simpl in Heq. injection Heq as _ <-.
    rewrite forallb_app in Ht'. apply andb_true_iff in Ht' as [_ Ht']. simpl in Ht'. apply andb_true_iff in Ht' as [Hy _].
    apply between_spec in Hy. lia. }
  rewrite app_nil_r. split; [done|]. simpl in Hq0.
  inversion Hq0 as [|r n l Hr Hn Hl Heq]. destruct r as [|x r]; [by simpl in Hr|]. simpl in Heq. injection Heq as -> Heq.
  assert (Hch : char (c :: r)) by (unfold char; congruence). apply char_shape in Hch as (c0 & tail & [= <- <-] & _ & _ & _ & Hnil & _).
  rewrite (Hnil Hc) in Heq. simpl in Heq. by subst.
Qed.

Lemma utf8_strip_cr l : utf8 l -> utf8 (strip_cr l).
Proof.
  intros Hl. unfold strip_cr. destruct (last l) as [c|] eqn:E; [|done]. case_decide as Hc; [|done]. subst c.
  apply last_Some in E as [l' ->]. rewrite length_app. simpl. rewrite Nat.add_sub. rewrite take_app_length.
  by apply (utf8_before l' carriage []).
Qed.

Lemma utf8_newline l : utf8 l -> utf8 (l ++ [newline]).
Proof. intros Hl. apply utf8_app; [done|]. apply utf8_ascii; [vm_compute; done|constructor]. Qed.

Definition chunk_ok (N : nat) (d : list ascii) : Prop := utf8 d /\ (length d <= N + 4)%nat.

Lemma stream_loop_chunks N fuel src carry midLine acc :
  (2 <= N)%nat -> utf8 (carry ++ src) -> partial carry -> Forall (chunk_ok N) acc ->
  Forall (chunk_ok N) (stream_loop N fuel src carry midLine acc).
Proof.
  intros HN. revert src carry midLine acc. induction fuel as [|fuel IH]; intros src carry midLine acc Hu Hp Hacc; [done|].
  assert (Hcl : (length carry <= 3)%nat).
  { destruct Hp as [->|(q' & Hne & Hc)]; [simpl; lia|]. apply char_shape in Hc as (c & tail & Heq & _ & _ & Hl & _).
    apply (f_equal length) in Heq. rewrite length_app in Heq. simpl in Heq. destruct q'; [done|simpl in Heq; lia]. }
  cbn [stream_loop]. pose proof (ReadLine_spec N src HN) as Hrd. destruct (ReadLine N src) as [[[chunk isPrefix] rest]|].
  2:{ subst src. rewrite app_nil_r in Hu. destruct (_ || _); [|done]. apply Forall_app. split; [done|]. constructor; [|done].
      split; [by apply utf8_newline|]. rewrite length_app. simpl. lia. }
  destruct isPrefix; cbn [negb]; cbv zeta.
  - destruct Hrd as (-> & _ & Hlen & _). rewrite app_assoc in Hu.
    destruct (utf8_split _ (carry ++ chunk) rest Hu eq_refl) as (p & q & Hpq & Hup & Huq & Hor). rewrite Hpq.
    assert (Hq : partial q) by (destruct Hor as [|(q' & ? & ? & _)]; [by left|right; eauto]).
    rewrite incompleteRuneStart_spec by done. rewrite drop_app_length, take_app_length.
    assert (Hlp : (length p <= N + 4)%nat) by (apply (f_equal length) in Hpq; rewrite !length_app in Hpq; lia).
    case_decide; apply IH; try done. apply Forall_app. split; [done|]. by constructor.
  - destruct Hrd as [(l & -> & _ & -> & Hl)|(-> & -> & _ & _ & Hl)].
    + rewrite app_assoc in Hu. destruct (utf8_before _ newline rest ltac:(vm_compute; done) Hu) as [Hul Hur].
      apply IH; [done|by left|]. apply Forall_app. split; [done|]. constructor; [|done].
      assert (Hsl : (length (strip_cr l) <= length l)%nat).
      { unfold strip_cr. destruct (last l); [|lia]. case_decide; [rewrite length_take|]; lia. }
      split; [|rewrite !length_app; simpl; lia]. apply utf8_newline. destruct l as [|c l]; [done|].
      rewrite <- strip_cr_app by done. by apply utf8_strip_cr.
    + apply IH; [constructor|by left|]. apply Forall_app. split; [done|]. constructor; [|done].
      split; [by apply utf8_newline|]. rewrite !length_app. simpl. lia.
Qed.

(** C32: Streaming loses and breaks nothing.  Put together, the events of an output
    of any length are its lines in order, each ended by one newline: a carriage
    return before a newline goes, also when the read buffer ends between the two,
    and an unfinished last line gets its newline.  For UTF-8 output every event is
    UTF-8 on its own, so no character is lost to the JSON encoding, and no event
    is longer than the read buffer by more than four bytes. *)
Theorem stream_lines_lossless N src :
  (2 <= N)%nat ->
  concat (stream_with N src) = normal src /\
  (utf8 src -> Forall (chunk_ok N) (stream_with N src)).
Proof.
  intros HN. unfold stream_with. split.
  - rewrite (stream_loop_concat N _ src [] false [] [] []); try done; [lia|by left].
  - intros Hu. apply stream_loop_chunks; [done|done|by left|constructor].
Qed.

(** A line of 20 bytes ending in a two-byte character across a buffer of 16. *)
Definition long_line : list ascii := replicate 15 (byte 97) ++ [byte 195; byte 169; byte 13; byte 10; byte 98].

Lemma stream_lines_lossless_witness :
  stream_with 16 long_line = [replicate 15 (byte 97); [byte 195; byte 169; newline]; [byte 98; newline]] /\
  concat (stream_with 16 long_line) = normal long_line.
Proof.
  split; [vm_compute; reflexivity|]. apply (stream_lines_lossless 16 long_line). lia.
Defined.

End StreamLines.
