(* ===== verification/Firecracker.v ===== *)
(** * Lifecycle of Firecracker sandboxes
    ([internal/runner/runtime/firecracker.ee]: runtime.go, stop_wake.go, crash.go)

    Create, stop, wake, delete and the reaction to a guest that dies, as the
    critical sections and host calls they are made of.  At most one operation has
    a sandbox claimed; where it is in its body is its program counter.  Host calls
    may fail at any point, and the guest may die at any point.  Killing a process
    group the runner started succeeds.

    Ghost fields record what the code cannot see: the guest process itself, and
    whether the snapshot files still describe the sandbox's disk. *)

From S2P Require Import Prelude.

Module Firecracker.

Inductive transition := TNone | TCreating | TStopping | TWaking | TDeleting.
#[global] Instance transition_eq_dec : EqDecision transition.
Proof. solve_decision. Defined.

Inductive gstate := Booting | Live | Paused.

(** A [sandboxState]: [o_slot] is [None] for -1, [o_proc] and [o_proxy] whether the
    handles are set, [o_cold] is [mustColdBoot].  [o_guest] is the microVM with the
    generation its exit callback captured, [o_fresh] whether restoring the snapshot
    is safe. *)
Record obj := mkObj {
  o_id : string;
  o_slot : option nat;
  o_proc : bool;
  o_proxy : bool;
  o_running : bool;
  o_stopped : bool;
  o_trans : transition;
  o_gen : nat;
  o_cold : bool;
  o_guest : option (nat * gstate);
  o_fresh : bool;
}.

Definition set_handles (proc proxy : bool) (o : obj) : obj :=
  mkObj (o_id o) (o_slot o) proc proxy (o_running o) (o_stopped o) (o_trans o) (o_gen o) (o_cold o) (o_guest o) (o_fresh o).
Definition set_status (running stopped : bool) (o : obj) : obj :=
  mkObj (o_id o) (o_slot o) (o_proc o) (o_proxy o) running stopped (o_trans o) (o_gen o) (o_cold o) (o_guest o) (o_fresh o).
Definition set_trans (t : transition) (o : obj) : obj :=
  mkObj (o_id o) (o_slot o) (o_proc o) (o_proxy o) (o_running o) (o_stopped o) t (o_gen o) (o_cold o) (o_guest o) (o_fresh o).
Definition set_slot (i : option nat) (o : obj) : obj :=
  mkObj (o_id o) i (o_proc o) (o_proxy o) (o_running o) (o_stopped o) (o_trans o) (o_gen o) (o_cold o) (o_guest o) (o_fresh o).
Definition set_gen (g : nat) (o : obj) : obj :=
  mkObj (o_id o) (o_slot o) (o_proc o) (o_proxy o) (o_running o) (o_stopped o) (o_trans o) g (o_cold o) (o_guest o) (o_fresh o).
Definition set_cold (b : bool) (o : obj) : obj :=
  mkObj (o_id o) (o_slot o) (o_proc o) (o_proxy o) (o_running o) (o_stopped o) (o_trans o) (o_gen o) b (o_guest o) (o_fresh o).
Definition set_guest (v : option (nat * gstate)) (o : obj) : obj :=
  mkObj (o_id o) (o_slot o) (o_proc o) (o_proxy o) (o_running o) (o_stopped o) (o_trans o) (o_gen o) (o_cold o) v (o_fresh o).
Definition set_fresh (b : bool) (o : obj) : obj :=
  mkObj (o_id o) (o_slot o) (o_proc o) (o_proxy o) (o_running o) (o_stopped o) (o_trans o) (o_gen o) (o_cold o) (o_guest o) b.

(** A guest that runs writes to its disk. *)
Definition resume_guest (o : obj) : obj :=
  match o_guest o with Some (g, _) => set_fresh false (set_guest (Some (g, Live)) o) | None => o end.
Definition pause_guest (o : obj) : obj :=
  match o_guest o with Some (g, _) => set_guest (Some (g, Paused)) o | None => o end.

(** ** Program counters *)

(** Who activates a microVM, and who tears one down. *)
Inductive kind := KCreate | KWake.
Inductive cont := CWake | CStop | CResume | CDeath | CDelete (create : bool).

Inductive pc :=
(* CreateSandbox after reserveSandbox: clone the disk and the golden snapshot *)
| PClone
(* activateSandboxVM *)
| PJail (k : kind) | PGen (k : kind) | PStart (k : kind) (g : nat) | PPublish (k : kind) | PSocket (k : kind)
| PGuest (k : kind) | PLoad (k : kind) (cold : bool) | PProxy (k : kind) | PPubProxy (k : kind) | PProbe (k : kind)
| PFinish (k : kind)
(* teardownRunningVM, then what its caller does *)
| PTear (c : cont) | PKill (c : cont) (had : bool) | PClean (c : cont) | PStopped
(* StopSandbox *)
| SRead | SDisk | SPause | SSnap | SUnpin | SResume
(* ensureSandboxRunningOnce *)
| WRead | WSlot
(* deleteSandbox; [create]: called by a create that failed *)
| DMark (create : bool) | DData (create err : bool) | DFail (create : bool) | DUntrack
(* handleGuestDeath, with the sandbox and the generation it was told of *)
| XCheck (died : nat) (g : nat)
(* endTransition *)
| PEnd.

(** The runtime.  [exits] are exit callbacks about to run, [dying] deaths waiting
    for the claim, [gaveup] those whose wait ran out, and [untracks] creates that
    failed and whose delete failed. *)
Record sys := mkSys {
  slots : list string;
  sandboxes : gmap string nat;
  objs : gmap nat obj;
  holders : gmap nat pc;
  exits : list (nat * nat);
  dying : list (nat * nat);
  gaveup : list (nat * nat);
  untracks : list nat;
}.

Definition set_slots (l : list string) (s : sys) : sys :=
  mkSys l (sandboxes s) (objs s) (holders s) (exits s) (dying s) (gaveup s) (untracks s).
Definition set_sandboxes (m : gmap string nat) (s : sys) : sys :=
  mkSys (slots s) m (objs s) (holders s) (exits s) (dying s) (gaveup s) (untracks s).
Definition set_objs (m : gmap nat obj) (s : sys) : sys :=
  mkSys (slots s) (sandboxes s) m (holders s) (exits s) (dying s) (gaveup s) (untracks s).
Definition set_holders (m : gmap nat pc) (s : sys) : sys :=
  mkSys (slots s) (sandboxes s) (objs s) m (exits s) (dying s) (gaveup s) (untracks s).
Definition set_exits (l : list (nat * nat)) (s : sys) : sys :=
  mkSys (slots s) (sandboxes s) (objs s) (holders s) l (dying s) (gaveup s) (untracks s).
Definition set_dying (l : list (nat * nat)) (s : sys) : sys :=
  mkSys (slots s) (sandboxes s) (objs s) (holders s) (exits s) l (gaveup s) (untracks s).
Definition set_gaveup (l : list (nat * nat)) (s : sys) : sys :=
  mkSys (slots s) (sandboxes s) (objs s) (holders s) (exits s) (dying s) l (untracks s).
Definition set_untracks (l : list nat) (s : sys) : sys :=
  mkSys (slots s) (sandboxes s) (objs s) (holders s) (exits s) (dying s) (gaveup s) l.

Definition initial (capacity : nat) : sys := mkSys (replicate capacity "") ∅ ∅ ∅ [] [] [] [].

(** ** Slots *)

(** The first free slot of [reserveSlotLocked]; [None] for -1. *)
Fixpoint free_slot (i : nat) (l : list string) : option nat :=
  match l with
  | [] => None
  | id :: l' => if decide (id = "") then Some i else free_slot (S i) l'
  end.

Definition reserveSlotLocked (id : string) (s : sys) : option nat * sys :=
  match free_slot 0 (slots s) with
  | Some i => (Some i, set_slots (<[i := id]> (slots s)) s)
  | None => (None, s)
  end.

Definition slotOwnedByLocked (i : nat) (id : string) (s : sys) : bool := bool_decide (slots s !! i = Some id).

(** [if state.slot >= 0 && r.slotOwnedByLocked(state.slot, state.id) { release }] *)
Definition release_owned (o : obj) (s : sys) : sys :=
  match o_slot o with
  | Some i => if slotOwnedByLocked i (o_id o) s then set_slots (<[i := ""]> (slots s)) s else s
  | None => s
  end.

(** [current, ok := r.sandboxes[state.id]; ok && current == state] *)
Definition tracked (p : nat) (o : obj) (s : sys) : bool := bool_decide (sandboxes s !! o_id o = Some p).

Definition untrackSandbox (p : nat) (o : obj) (s : sys) : sys :=
  if tracked p o s then release_owned o (set_sandboxes (delete (o_id o) (sandboxes s)) s) else s.

Definition activationAbandonedLocked (p : nat) (o : obj) (s : sys) : bool :=
  negb (tracked p o s) || bool_decide (o_trans o = TDeleting).

Definition occupiedSlotsLocked (s : sys) : nat := length (filter (fun id => id <> "") (slots s)).

Definition counts_stopped (s : sys) (p : nat) : bool :=
  match objs s !! p with Some o => bool_decide (o_trans o <> TDeleting) && o_stopped o | None => false end.

(** [Capacity]: used, total and stopped. *)
Definition Capacity (s : sys) : nat * nat * nat :=
  (occupiedSlotsLocked s, length (slots s), size (filter (fun kv => counts_stopped s kv.2 = true) (sandboxes s))).

Inductive url_error := ErrSandboxNotFound | ErrSandboxNotRunning.

(** The slot names the port of the URL. *)
Definition DaemonURL (id : string) (s : sys) : url_error + option nat :=
  match sandboxes s !! id ≫= fun p => objs s !! p with
  | None => inl ErrSandboxNotFound
  | Some o =>
      if decide (o_trans o = TDeleting) then inl ErrSandboxNotFound
      else if decide (o_trans o <> TNone \/ o_stopped o = true \/ o_running o = false) then inl ErrSandboxNotRunning
      else inr (o_slot o)
  end.

(** ** One step of the operation that has [p] claimed *)

(** What a host call did: it worked; it failed; it failed but took effect. *)
Inductive outcome := Ok | Fail | FailTook.

Definition goto (p : nat) (o : obj) (c : pc) (s : sys) : sys :=
  set_objs (<[p := o]> (objs s)) (set_holders (<[p := c]> (holders s)) s).
Definition finish (p : nat) (o : obj) (s : sys) : sys :=
  set_objs (<[p := o]> (objs s)) (set_holders (delete p (holders s)) s).

(** An activation that failed. *)
Definition failed (k : kind) : pc := match k with KCreate => DMark true | KWake => PTear CWake end.

Definition ok_or {A} (r : outcome) (a b : A) : A := match r with Ok => a | _ => b end.

Definition has_guest (o : obj) : bool := bool_decide (o_guest o <> None).

(** A call to the guest's API socket works only while the guest is there. *)
Definition guest_call (r : outcome) (o : obj) : outcome := if has_guest o then r else Fail.

Definition activate (r : outcome) (p : nat) (o : obj) (c : pc) (s : sys) : sys :=
  match c with
  | PJail k => goto p o (ok_or r (PGen k) (failed k)) s
  | PGen k => goto p o (PStart k (o_gen o)) s
  | PStart k g =>
      match r with
      | Ok => goto p (set_guest (Some (g, Booting)) o) (PPublish k) s
      | _ => goto p o (failed k) s
      end
  | PPublish k =>
      goto p (set_handles true (o_proxy o) o) (if activationAbandonedLocked p o s then failed k else PSocket k) s
  | PSocket k => goto p o (ok_or r (PGuest k) (failed k)) s
  | PGuest k => goto p (set_cold true o) (PLoad k (o_cold o)) s
  | PLoad k _ =>
      match guest_call r o with
      | Ok => goto p (resume_guest o) (PProxy k) s
      | Fail => goto p o (failed k) s
      | FailTook => goto p (resume_guest o) (failed k) s
      end
  | PProxy k => goto p o (ok_or r (PPubProxy k) (failed k)) s
  | PPubProxy k =>
      goto p (set_handles (o_proc o) true o) (if activationAbandonedLocked p o s then failed k else PProbe k) s
  | PProbe k => goto p o (ok_or r (PFinish k) (failed k)) s
  | PFinish KCreate => finish p (set_trans TNone (set_status true (o_stopped o) o)) s
  | PFinish KWake => goto p (set_status true false o) PEnd s
  | _ => s
  end.

(** The exit of a guest runs its callback. *)
Definition guest_exits (p : nat) (o : obj) (s : sys) : sys :=
  match o_guest o with
  | Some (g, _) => set_exits ((p, g) :: exits s) (set_objs (<[p := set_guest None o]> (objs s)) s)
  | None => s
  end.

Definition teardown (r : outcome) (p : nat) (o : obj) (c : pc) (s : sys) : sys :=
  match c with
  | PTear ct => goto p (set_handles false false (set_gen (S (o_gen o)) o)) (PKill ct (o_proc o)) s
  | PKill ct had =>
      let s' := if had : bool then guest_exits p o s else s in
      goto p (if had : bool then set_guest None o else o) (PClean ct) s'
  | PClean ct =>
      goto p o match ct with
               | CDelete cr => DData cr (ok_or r false true)
               | _ => PStopped
               end s
  | PStopped => goto p (set_slot None (set_handles false false (set_status false true o))) PEnd (release_owned o s)
  | _ => s
  end.

Definition stop (r : outcome) (p : nat) (o : obj) (c : pc) (s : sys) : sys :=
  match c with
  | SRead => goto p o (if o_stopped o then PEnd else if o_running o then SDisk else PEnd) s
  | SDisk => goto p o (ok_or r SPause PEnd) s
  | SPause =>
      match guest_call r o with
      | Ok => goto p (pause_guest o) SSnap s
      | Fail => goto p o SResume s
      | FailTook => goto p (pause_guest o) SResume s
      end
  | SSnap =>
      match guest_call r o with
      | Ok => goto p (set_fresh true o) SUnpin s
      | _ => goto p o SResume s
      end
  | SUnpin => goto p (set_cold false o) (PTear CStop) s
  | SResume =>
      match guest_call r o with
      | Ok => goto p (resume_guest o) PEnd s
      | Fail => goto p o (PTear CResume) s
      | FailTook => goto p (resume_guest o) (PTear CResume) s
      end
  | _ => s
  end.

Definition wake (p : nat) (o : obj) (c : pc) (s : sys) : sys :=
  match c with
  | WRead => goto p o (if o_running o then PEnd else if o_stopped o then WSlot else PEnd) s
  | WSlot =>
      match reserveSlotLocked (o_id o) s with
      | (None, s') => goto p o PEnd s'
      | (Some i, s') => goto p (set_slot (Some i) o) (PJail KWake) s'
      end
  | _ => s
  end.

Definition delete_op (r : outcome) (p : nat) (o : obj) (c : pc) (s : sys) : sys :=
  match c with
  | DMark cr =>
      goto p (if tracked p o s then set_trans TDeleting (set_status false (o_stopped o) o) else o) (PTear (CDelete cr)) s
  | DData cr err => goto p o (if err || ok_or r false true then DFail cr else DUntrack) s
  | DFail cr =>
      let s' := finish p (if tracked p o s then set_trans TNone o else o) s in
      if cr : bool then set_untracks (p :: untracks s') s' else s'
  | DUntrack => finish p o (untrackSandbox p o s)
  | _ => s
  end.

(** The death's operation once it has the claim, on the sandbox of that id now: a
    death of another sandbox or an earlier generation is none of its business. *)
Definition handleGuestDeath (p : nat) (o : obj) (died g : nat) (s : sys) : sys :=
  goto p o (if bool_decide (p <> died) || bool_decide (o_gen o <> g) then PEnd else PTear CDeath) s.

Definition advance (r : outcome) (p : nat) (o : obj) (c : pc) (s : sys) : sys :=
  match c with
  | PClone => match r with
              | Ok => goto p (set_fresh true o) (PJail KCreate) s
              | _ => goto p o (DMark true) s
              end
  | PJail _ | PGen _ | PStart _ _ | PPublish _ | PSocket _ | PGuest _ | PLoad _ _ | PProxy _ | PPubProxy _ | PProbe _ | PFinish _ =>
      activate r p o c s
  | PTear _ | PKill _ _ | PClean _ | PStopped => teardown r p o c s
  | SRead | SDisk | SPause | SSnap | SUnpin | SResume => stop r p o c s
  | WRead | WSlot => wake p o c s
  | DMark _ | DData _ _ | DFail _ | DUntrack => delete_op r p o c s
  | XCheck died g => handleGuestDeath p o died g s
  | PEnd => finish p (set_trans TNone o) s
  end.

(** ** The runtime over time *)

(** The claims [beginTransition] grants, and where the operation goes on. *)
Inductive op := Stop | Wake | Delete.
Definition op_trans (x : op) : transition := match x with Stop => TStopping | Wake => TWaking | Delete => TDeleting end.
Definition op_start (x : op) : pc := match x with Stop => SRead | Wake => WRead | Delete => DMark false end.

Definition new_obj (id : string) (i : nat) : obj := mkObj id (Some i) false false false false TCreating 0 false None false.

Definition rm (x : nat * nat) (l : list (nat * nat)) : list (nat * nat) :=
  match list_find (fun y => y = x) l with Some (i, _) => delete i l | None => l end.

(** An exit the runner asked for carries a generation its teardown has left. *)
Definition recordGuestDeath (p g : nat) (o : obj) (s : sys) : sys :=
  if decide (o_gen o = g) then set_dying ((p, g) :: dying s) (set_exits (rm (p, g) (exits s)) s)
  else set_exits (rm (p, g) (exits s)) s.

Inductive step : sys -> sys -> Prop :=
(* reserveSandbox; CreateSandbox refuses ids shorter than 12 *)
| step_create s s' id i p : sandboxes s !! id = None -> id <> "" -> objs s !! p = None ->
    reserveSlotLocked id s = (Some i, s') ->
    step s (goto p (new_obj id i) PClone (set_sandboxes (<[id := p]> (sandboxes s')) s'))
(* beginTransition *)
| step_claim s x id p o : sandboxes s !! id = Some p -> objs s !! p = Some o -> o_trans o = TNone ->
    step s (goto p (set_trans (op_trans x) o) (op_start x) s)
| step_advance s r p o c : holders s !! p = Some c -> objs s !! p = Some o ->
    step s (advance r p o c s)
(* the guest dies *)
| step_guest_exit s p o : objs s !! p = Some o -> o_guest o <> None -> step s (guest_exits p o s)
(* recordGuestDeath *)
| step_record s p g o : (p, g) ∈ exits s -> objs s !! p = Some o ->
    step s (recordGuestDeath p g o s)
(* beginTransition of handleGuestDeath: claimed, gone, or waited too long *)
| step_death_claim s p g o p' o' : (p, g) ∈ dying s -> objs s !! p = Some o -> sandboxes s !! o_id o = Some p' ->
    objs s !! p' = Some o' -> o_trans o' = TNone ->
    step s (goto p' (set_trans TStopping o') (XCheck p g) (set_dying (rm (p, g) (dying s)) s))
| step_death_gone s p g o : (p, g) ∈ dying s -> objs s !! p = Some o ->
    match sandboxes s !! o_id o with Some p' => exists o', objs s !! p' = Some o' /\ o_trans o' = TDeleting | None => True end ->
    step s (set_dying (rm (p, g) (dying s)) s)
| step_death_late s p g : (p, g) ∈ dying s ->
    step s (set_gaveup ((p, g) :: gaveup s) (set_dying (rm (p, g) (dying s)) s))
(* the untrackSandbox of a create whose delete failed *)
| step_untrack s p o before after : untracks s = before ++ p :: after -> objs s !! p = Some o ->
    step s (untrackSandbox p o (set_untracks (before ++ after) s)).

End Firecracker.
