(* ===== verification/FirecrackerInv.v ===== *)
(** * The invariant of the Firecracker lifecycle

    For every place an operation can be in, what is true of its sandbox; every step
    keeps it. *)

From S2P Require Import Prelude Firecracker.

Module FirecrackerInv.
Import Firecracker.

(** Exits of guests of [p] that somebody still has to hear of, by generation. *)
Definition entry (s : sys) (p g : nat) : Prop :=
  (p, g) ∈ exits s \/ (p, g) ∈ dying s \/ (p, g) ∈ gaveup s \/ exists p', holders s !! p' = Some (XCheck p g).

Definition is_tracked (s : sys) (p : nat) (o : obj) : Prop := sandboxes s !! o_id o = Some p.
#[export] Instance is_tracked_dec s p o : Decision (is_tracked s p o).
Proof. unfold is_tracked. apply _. Defined.

(** ** One sandbox

    [E]: the generations with an exit pending. *)
Section local.
Context (tr : Prop) (E : nat -> Prop) (o : obj).

Definition spent : Prop := forall g, E g -> (g < o_gen o)%nat.
Definition none : Prop := o_guest o = None /\ spent.
Definition gone : Prop := o_guest o = None /\ E (o_gen o) /\ forall g, E g -> (g <= o_gen o)%nat.
Definition there (P : gstate -> Prop) : Prop := (exists st, P st /\ o_guest o = Some (o_gen o, st) /\ spent) \/ gone.
Definition restorable : Prop := o_cold o = false -> o_fresh o = true.

(** Between operations: running with its guest or with the guest's death on the
    way, or without a guest; a stopped one holds no slot. *)
Record idle : Prop := {
  id_running : o_running o = true ->
    o_stopped o = false /\ tr /\ is_Some (o_slot o) /\ o_cold o = true /\ o_proc o = true /\ there (eq Live);
  id_not_running : o_running o = false -> none /\ o_proc o = false;
  id_stopped : o_stopped o = true -> tr /\ o_slot o = None /\ restorable;
}.

Definition claimed : Prop := o_trans o <> TNone /\ o_trans o <> TDeleting.

Definition base (k : kind) : Prop :=
  tr /\ claimed /\ o_running o = false /\ o_stopped o = (match k with KCreate => false | KWake => true end) /\ is_Some (o_slot o).

Definition run (P : gstate -> Prop) : Prop :=
  tr /\ claimed /\ o_running o = true /\ o_stopped o = false /\ is_Some (o_slot o) /\ o_cold o = true /\ o_proc o = true /\ there P.

Definition deleting (cr : bool) : Prop :=
  (o_stopped o = true -> o_slot o = None /\ restorable) /\ (cr = true -> tr /\ o_stopped o = false).

Definition owner (c : cont) : Prop :=
  match c with
  | CDelete cr => o_running o = false /\ (tr -> o_trans o = TDeleting) /\ deleting cr
  | _ => tr /\ claimed /\ restorable /\ (o_running o = true \/ o_stopped o = true)
  end.

(** Whatever guest there is can be killed. *)
Definition any_guest : Prop :=
  (forall g, E g -> (g <= o_gen o)%nat) /\
  (o_guest o = None \/ exists st, o_guest o = Some (o_gen o, st) /\ spent /\ o_proc o = true).

Definition local (h : option pc) : Prop :=
  match h with
  | None => (tr -> o_trans o = TNone /\ idle) /\ (~ tr -> none /\ o_running o = false)
  | Some c =>
      match c with
      | PClone => base KCreate /\ none /\ o_proc o = false
      | PJail k | PGen k => base k /\ none /\ o_proc o = false /\ restorable
      | PStart k g => base k /\ none /\ o_proc o = false /\ restorable /\ g = o_gen o
      | PPublish k => base k /\ there (eq Booting) /\ restorable
      | PSocket k | PGuest k => base k /\ there (eq Booting) /\ o_proc o = true /\ restorable
      | PLoad k cold => base k /\ there (eq Booting) /\ o_proc o = true /\ o_cold o = true /\ (cold = false -> o_fresh o = true)
      | PProxy k | PPubProxy k | PProbe k | PFinish k => base k /\ there (eq Live) /\ o_proc o = true /\ o_cold o = true
      | PTear ct => owner ct /\ any_guest
      | PKill ct had => owner ct /\ o_proc o = false /\ spent /\
          (o_guest o = None \/ exists g st, o_guest o = Some (g, st) /\ S g = o_gen o /\ had = true)
      | PClean ct => owner ct /\ o_proc o = false /\ none
      | PStopped => owner CStop /\ o_proc o = false /\ none
      | SRead | WRead | XCheck _ _ | PEnd => idle /\ claimed
      | SDisk | SPause => run (eq Live)
      | SSnap => run (eq Paused)
      | SUnpin => run (eq Paused) /\ o_fresh o = true
      | SResume => run (fun st => st = Live \/ st = Paused)
      | WSlot => tr /\ claimed /\ o_running o = false /\ o_stopped o = true /\ o_slot o = None /\ none /\ o_proc o = false /\ restorable
      | DMark cr => o_trans o <> TNone /\ any_guest /\ deleting cr /\ (o_running o = true -> tr) /\
          (cr = true -> o_trans o <> TDeleting /\ o_running o = false)
      | DData cr _ | DFail cr => owner (CDelete cr) /\ none /\ o_proc o = false
      | DUntrack => (exists cr, owner (CDelete cr)) /\ none /\ o_proc o = false
      end
  end.
End local.

(** The operations of a create, which keep it tracked. *)
Definition creating (h : option pc) : bool :=
  match h with
  | Some (PClone | PJail KCreate | PGen KCreate | PStart KCreate _ | PPublish KCreate | PSocket KCreate | PGuest KCreate
    | PLoad KCreate _ | PProxy KCreate | PPubProxy KCreate | PProbe KCreate | PFinish KCreate
    | DMark true | PTear (CDelete true) | PKill (CDelete true) _ | PClean (CDelete true) | DData true _ | DFail true) => true
  | _ => false
  end.

Lemma local_track tr tr' E o h : (tr <-> tr') -> local tr E o h -> local tr' E o h.
Proof.
  intros Ht. assert (Hid : idle tr E o -> idle tr' E o).
  { intros [H1 H2 H3]. split; intros Hx; [destruct (H1 Hx) as (? & ? & ? & ? & ? & ?)|destruct (H2 Hx)|destruct (H3 Hx)]; naive_solver. }
  assert (Hdel : forall cr, deleting tr o cr -> deleting tr' o cr) by (unfold deleting; naive_solver).
  assert (Hown : forall c, owner tr o c -> owner tr' o c) by (intros []; unfold owner; naive_solver).
  assert (Hb : forall k, base tr o k -> base tr' o k) by (unfold base; naive_solver).
  assert (Hrun : forall P, run tr E o P -> run tr' E o P) by (unfold run; naive_solver).
  destruct h as [[]|]; simpl; try naive_solver.
Qed.

(** Only the exit of the current generation matters, and only to a tracked
    sandbox. *)
Lemma local_mono tr E E' o h : (forall g, E' g -> E g) -> (tr -> E (o_gen o) -> E' (o_gen o)) -> local tr E o h -> local tr E' o h.
Proof.
  intros HE Hgen. assert (Hsp : spent E o -> spent E' o) by (unfold spent; naive_solver).
  assert (Hth : tr -> forall P, there E o P -> there E' o P).
  { intros Ht P [(st & H1 & H2 & H3)|(H1 & H2 & H3)]; [left; eauto|right]. split; [done|]. naive_solver. }
  assert (Hno : none E o -> none E' o) by (unfold none; naive_solver).
  assert (Hid : idle tr E o -> idle tr E' o).
  { intros [H1 H2 H3]. split; [intros Hx; destruct (H1 Hx) as (? & ? & ? & ? & ? & ?)|intros Hx; destruct (H2 Hx)|done]; naive_solver. }
  assert (Hag : any_guest E o -> any_guest E' o).
  { intros [H1 H2]. split; [naive_solver|]. destruct H2 as [|(st & ? & ? & ?)]; [by left|right; eauto 6]. }
  assert (Hb : forall k P, base tr o k /\ there E o P -> base tr o k /\ there E' o P).
  { intros k P [H1 H2]. split; [done|]. apply Hth; [apply H1|done]. }
  assert (Hrun : forall P, run tr E o P -> run tr E' o P).
  { intros P (H1 & H2 & H3 & H4 & H5 & H6 & H7 & H8). repeat (split; [done|]). by apply Hth. }
  clear HE Hgen. destruct h as [c|]; simpl; [|naive_solver].
  destruct c; try naive_solver.
Qed.

Lemma local_ext tr tr' E E' o h : (tr <-> tr') -> (forall g, E g <-> E' g) -> local tr E o h -> local tr' E' o h.
Proof. intros Ht HE Hl. apply (local_track tr); [done|]. apply (local_mono tr E); [naive_solver..|done]. Qed.

(** An untracked sandbox needs no notice of exits. *)
Lemma local_shrink E E' o h : (forall g, E' g -> E g) -> local False E o h -> local False E' o h.
Proof. intros HE. by apply local_mono. Qed.

(** Nor does one that is being deleted. *)
Lemma local_deleting tr E E' o h : (forall g, E' g -> E g) -> o_trans o = TDeleting -> tr -> local tr E o h -> local tr E' o h.
Proof.
  intros HE Hd Ht Hl. assert (Hcl : claimed o -> False) by (intros [_ H]; congruence).
  assert (Hb : forall k, base tr o k -> False) by (intros k (_ & H & _); auto).
  assert (Hrun : forall P, run tr E o P -> False) by (intros P (_ & H & _); auto).
  assert (Hag : any_guest E o -> any_guest E' o).
  { intros [H1 H2]. split; [naive_solver|]. destruct H2 as [|(st & ? & H & ?)]; [by left|right; exists st]. unfold spent in *. naive_solver. }
  assert (Hsp : spent E o -> spent E' o) by (unfold spent; naive_solver).
  assert (Hno : none E o -> none E' o) by (unfold none; naive_solver).
  assert (Hown : tr /\ claimed o /\ restorable o /\ (o_running o = true \/ o_stopped o = true) -> False) by (intros (_ & H & _); auto).
  destruct h as [c|]; simpl in *; [|destruct (proj1 Hl Ht); congruence].
  destruct c as [|k|k|k g|k|k|k|k cold|k|k|k|k|ct|ct had|ct| | | | | | | | | |cr|cr err|cr| |died g|]; simpl in *;
    try (exfalso; exact (Hb _ (proj1 Hl))); try (exfalso; exact (Hrun _ Hl)); try (exfalso; exact (Hrun _ (proj1 Hl)));
    try (exfalso; exact (Hcl (proj2 Hl))); try (exfalso; exact (Hown (proj1 Hl)));
    try (destruct ct; [exfalso; exact (Hown (proj1 Hl))..|]); try (exfalso; exact (Hcl (proj1 (proj2 Hl)))); naive_solver.
Qed.

(** A create that failed may drop its sandbox under whoever claimed it since. *)
Lemma local_untrack tr E o h : tr -> local tr E o h -> o_running o = false -> o_stopped o = false -> creating h = false -> local False E o h.
Proof.
  intros Htr Hl Hr Hs Hc. assert (Hid : idle tr E o -> idle False E o).
  { intros [H1 H2 H3]. split; [congruence|done|congruence]. }
  assert (Hno : idle tr E o -> none E o) by (intros [H1 H2 H3]; by apply H2).
  assert (Hdel : deleting tr o false -> deleting False o false) by (intros [_ _]; split; [congruence|done]).
  assert (Hb : base tr o KWake -> False) by (intros (_ & _ & _ & H & _); congruence).
  assert (Hrun : forall P, run tr E o P -> False) by (intros P (_ & _ & H & _); congruence).
  assert (Hown : tr /\ claimed o /\ restorable o /\ (o_running o = true \/ o_stopped o = true) -> False) by (intros (_ & _ & _ & [H|H]); congruence).
  assert (HD : owner tr o (CDelete false) -> owner False o (CDelete false)) by (intros (H1 & H2 & H3); split; [done|]; split; [done|by apply Hdel]).
  destruct h as [c|]; simpl in Hl; [|split; [done|]; intros _; split; [apply Hno, Hl, Htr|done]].
  destruct c as [|k|k|k g|k|k|k|k cold|k|k|k|k|ct|ct had|ct| | | | | | | | | |cr|cr err|cr| |died g|];
    try (destruct k; [discriminate Hc|]; exfalso; exact (Hb (proj1 Hl)));
    try (destruct ct as [| | | |[]]; [exfalso; exact (Hown (proj1 Hl))..|discriminate Hc|destruct Hl as [H1 H2]; split; [by apply HD|exact H2]]);
    try (exfalso; exact (Hrun _ Hl));
    try (destruct Hl as [H1 H2]; split; [by apply Hid|exact H2]).
  - discriminate Hc.
  - exfalso. exact (Hown (proj1 Hl)).
  - exfalso. exact (Hrun _ (proj1 Hl)).
  - destruct Hl as (_ & _ & _ & H & _). congruence.
  - destruct cr; [discriminate Hc|]. destruct Hl as (H1 & H2 & H3 & H4 & H5). simpl. split; [done|]. split; [done|].
    split; [by apply Hdel|]. split; [congruence|done].
  - destruct cr; [discriminate Hc|]. destruct Hl as [H1 H2]. split; [by apply HD|exact H2].
  - destruct cr; [discriminate Hc|]. destruct Hl as [H1 H2]. split; [by apply HD|exact H2].
  - destruct Hl as ((cr & H1 & H2 & H3) & H4). split; [|done]. exists false. split; [done|]. split; [done|]. split; [congruence|done].
Qed.

(** ** The whole runtime *)

(** The slots are held by tracked sandboxes that know it, each by one. *)
Definition slots_ok (sl : list string) (tb : gmap string nat) (ob : gmap nat obj) : Prop :=
  (forall p o i, ob !! p = Some o -> tb !! o_id o = Some p -> o_slot o = Some i -> sl !! i = Some (o_id o)) /\
  (forall i id, sl !! i = Some id -> id <> "" -> exists p o, tb !! id = Some p /\ ob !! p = Some o /\ o_id o = id /\ o_slot o = Some i).

Record inv (s : sys) : Prop := {
  v_table id p : sandboxes s !! id = Some p -> exists o, objs s !! p = Some o /\ o_id o = id /\ id <> "";
  v_holder p c : holders s !! p = Some c -> is_Some (objs s !! p);
  v_local p o : objs s !! p = Some o -> local (is_tracked s p o) (entry s p) o (holders s !! p);
  v_slots : slots_ok (slots s) (sandboxes s) (objs s);
  v_dead p : p ∈ untracks s -> exists o, objs s !! p = Some o /\ o_running o = false /\ o_stopped o = false /\ creating (holders s !! p) = false;
  v_check p died g : holders s !! p = Some (XCheck died g) ->
    died = p \/ exists od, objs s !! died = Some od /\ ~ is_tracked s died od;
  v_entry p g : entry s p g -> is_Some (objs s !! p);
}.

(** What a step has to show when it changes one sandbox. *)
Lemma fc_inv_update s s' p o o' :
  inv s -> objs s !! p = Some o -> o_id o' = o_id o -> objs s' = <[p := o']> (objs s) ->
  (forall q, q <> p -> holders s' !! q = holders s !! q) ->
  (sandboxes s' = sandboxes s \/ (sandboxes s' = delete (o_id o) (sandboxes s) /\ is_tracked s p o)) ->
  (forall q g, q <> p -> entry s' q g -> entry s q g) ->
  (forall q g oq, q <> p -> objs s !! q = Some oq -> is_tracked s q oq -> entry s q g -> entry s' q g) ->
  local (is_tracked s' p o') (entry s' p) o' (holders s' !! p) ->
  slots_ok (slots s') (sandboxes s') (objs s') ->
  (forall q, q ∈ untracks s' -> (q ∈ untracks s /\ q <> p) \/
     (q = p /\ o_running o' = false /\ o_stopped o' = false /\ creating (holders s' !! p) = false)) ->
  (forall died g, holders s' !! p = Some (XCheck died g) -> died = p \/ exists od, objs s !! died = Some od /\ ~ is_tracked s died od) ->
  inv s'.
Proof.
  intros [V1 V2 V3 V4 V5 V6 V7] Ho Hid Hobjs Hh Htb HE1 HE2 Hl Hsl Hdead Hchk.
  assert (Hsub : forall id q, sandboxes s' !! id = Some q -> sandboxes s !! id = Some q).
  { intros id q. destruct Htb as [->|[-> _]]; [done|]. by intros [_ ?]%lookup_delete_Some. }
  assert (Hq : forall q, q <> p -> objs s' !! q = objs s !! q) by (intros q Hne; rewrite Hobjs; by apply lookup_insert_ne).
  assert (Hp : objs s' !! p = Some o') by (rewrite Hobjs; apply lookup_insert_eq).
  assert (Htr : forall q oq, q <> p -> objs s !! q = Some oq -> is_tracked s' q oq <-> is_tracked s q oq).
  { intros q oq Hne Hoq. unfold is_tracked. split; [apply Hsub|]. destruct Htb as [->|[-> Ht]]; [done|]. intros Hq'.
    rewrite lookup_delete_ne; [done|]. unfold is_tracked in Ht. congruence. }
  split.
  - intros id q Hid'. apply Hsub in Hid'. destruct (V1 id q Hid') as (oq & Hoq & Hidq & Hne). destruct (decide (q = p)) as [->|Hn].
    + exists o'. rewrite Hp. split; [done|]. split; [congruence|done].
    + exists oq. by rewrite Hq.
  - intros q c Hc. destruct (decide (q = p)) as [->|Hn]; [eauto|]. rewrite Hq by done. rewrite Hh in Hc by done. eauto.
  - intros q oq Hoq. destruct (decide (q = p)) as [->|Hn]; [rewrite Hp in Hoq; by injection Hoq as <-|].
    rewrite Hq in Hoq by done. rewrite Hh by done. pose proof (V3 q oq Hoq) as Hlq.
    destruct (decide (is_tracked s q oq)) as [Ht|Ht].
    + eapply local_ext; [| |exact Hlq]; [symmetry; by apply Htr|]. intros g. split; eauto.
    + assert (Hf : ~ is_tracked s' q oq) by (by rewrite Htr).
      apply (local_ext False _ (entry s' q) _); [tauto|done|]. apply (local_shrink (entry s q)); [eauto|].
      apply (local_ext (is_tracked s q oq) _ (entry s q) _); [tauto|done|exact Hlq].
  - done.
  - intros q Hq'. destruct (Hdead q Hq') as [[Hu Hn]|(-> & H1 & H2 & H3)]; [|eauto]. rewrite Hq, Hh by done. by apply V5.
  - intros q died g Hc.
    assert (Hc' : died = q \/ exists od, objs s !! died = Some od /\ ~ is_tracked s died od).
    { destruct (decide (q = p)) as [->|Hn]; [eauto|]. rewrite Hh in Hc by done. eauto. }
    destruct Hc' as [->|(od & Hod & Hnt)]; [by left|right]. destruct (decide (died = p)) as [->|Hn].
    + exists o'. split; [done|]. intros Ht. apply Hnt. assert (od = o) as -> by congruence. unfold is_tracked in *. rewrite Hid in Ht. by apply Hsub.
    + exists od. rewrite Hq by done. split; [done|]. by rewrite Htr.
  - intros q g Hq'. destruct (decide (q = p)) as [->|Hn]; [eauto|]. rewrite Hq by done. eauto.
Qed.

Definition not_check (h : option pc) : Prop := forall died g, h <> Some (XCheck died g).

Lemma entry_same s s' p : exits s' = exits s -> dying s' = dying s -> gaveup s' = gaveup s ->
  (forall q, q <> p -> holders s' !! q = holders s !! q) -> not_check (holders s !! p) -> not_check (holders s' !! p) ->
  forall q g, entry s' q g <-> entry s q g.
Proof.
  intros He Hd Hg Hh H1 H2 q g. unfold entry. rewrite He, Hd, Hg.
  assert (Hx : (exists p', holders s' !! p' = Some (XCheck q g)) <-> (exists p', holders s !! p' = Some (XCheck q g))).
  { split; intros [p' Hp']; exists p'; (destruct (decide (p' = p)) as [->|Hn];
      [first [by destruct (H2 q g)|by destruct (H1 q g)]|]); [by rewrite <- Hh|by rewrite Hh]. }
  by rewrite Hx.
Qed.

Lemma slots_same sl tb ob p o o' : slots_ok sl tb ob -> ob !! p = Some o -> o_id o' = o_id o -> o_slot o' = o_slot o ->
  slots_ok sl tb (<[p := o']> ob).
Proof.
  intros [H1 H2] Ho Hid Hs. split.
  - intros q oq i [[<- <-]|[Hn Hq]]%lookup_insert_Some Ht Hi; [|eauto]. rewrite Hid in *. rewrite Hs in Hi. eauto.
  - intros i id Hi Hne. destruct (H2 i id Hi Hne) as (q & oq & Ht & Hq & Hidq & Hsq). destruct (decide (q = p)) as [->|Hn].
    + exists p, o'. rewrite lookup_insert_eq. split; [done|]. split; [done|]. split; congruence.
    + exists q, oq. by rewrite lookup_insert_ne.
Qed.

(** An operation moves on, the slots aside. *)
Lemma inv_goto s p o o' h h' sl' :
  inv s -> holders s !! p = h -> objs s !! p = Some o -> not_check h -> not_check h' -> o_id o' = o_id o ->
  slots_ok sl' (sandboxes s) (<[p := o']> (objs s)) ->
  local (is_tracked s p o) (entry s p) o' h' ->
  (p ∈ untracks s -> o_running o = false -> o_stopped o = false -> creating h = false ->
     o_running o' = false /\ o_stopped o' = false /\ creating h' = false) ->
  inv (mkSys sl' (sandboxes s) (<[p := o']> (objs s)) (match h' with Some c' => <[p := c']> (holders s) | None => delete p (holders s) end)
         (exits s) (dying s) (gaveup s) (untracks s)).
Proof.
  intros Hinv Hc Ho Hnc Hnc' Hid Hsl Hl Hd. set (s' := mkSys _ _ _ _ _ _ _ _).
  assert (Hh : forall q, q <> p -> holders s' !! q = holders s !! q).
  { intros q Hq. simpl. destruct h'; [by rewrite lookup_insert_ne|by rewrite lookup_delete_ne]. }
  assert (Hp : holders s' !! p = h') by (simpl; destruct h'; [apply lookup_insert_eq|apply lookup_delete_eq]).
  assert (HE : forall q g, entry s' q g <-> entry s q g).
  { apply (entry_same s s' p); try done; [by rewrite Hc|by rewrite Hp]. }
  eapply (fc_inv_update s s' p o o'); try done.
  - by left.
  - intros q g _. apply HE.
  - intros q g oq _ _ _. apply HE.
  - rewrite Hp. eapply local_ext; [| |exact Hl]; [unfold is_tracked; simpl; by rewrite Hid|]. intros g. by rewrite HE.
  - intros q Hq. simpl in Hq. destruct (decide (q = p)) as [->|Hn]; [right|by left]. split; [done|]. rewrite Hp.
    destruct (v_dead s Hinv p Hq) as (o0 & Ho0 & H1 & H2 & H3). assert (o0 = o) as -> by congruence. rewrite Hc in H3. by apply Hd.
  - intros died g. rewrite Hp. intros He. by destruct (Hnc' died g).
Qed.

(** ** Operations *)

Lemma goto_eq p o' c' s : goto p o' c' s = mkSys (slots s) (sandboxes s) (<[p := o']> (objs s)) (<[p := c']> (holders s)) (exits s) (dying s) (gaveup s) (untracks s).
Proof. done. Qed.

Lemma finish_eq p o' s : finish p o' s = mkSys (slots s) (sandboxes s) (<[p := o']> (objs s)) (delete p (holders s)) (exits s) (dying s) (gaveup s) (untracks s).
Proof. done. Qed.

Lemma there_resume E o P : there E o P -> has_guest o = true -> there E (resume_guest o) (eq Live) /\ o_guest (resume_guest o) <> None.
Proof.
  unfold has_guest. rewrite bool_decide_eq_true. intros [(st & HP & Hg & Hs)|(Hg & _)] Hn; [|congruence].
  unfold resume_guest. rewrite Hg. split; [|done]. left. exists Live. done.
Qed.

Lemma there_pause E o P : there E o P -> has_guest o = true -> there E (pause_guest o) (eq Paused).
Proof.
  unfold has_guest. rewrite bool_decide_eq_true. intros [(st & HP & Hg & Hs)|(Hg & _)] Hn; [|congruence].
  unfold pause_guest. rewrite Hg. left. exists Paused. done.
Qed.

Lemma there_any E o P : there E o P -> o_proc o = true -> any_guest E o.
Proof.
  intros [(st & HP & Hg & Hs)|(Hg & HE & Hle)] Hp; [|split; [done|by left]].
  split; [intros g Hg'; specialize (Hs g Hg'); lia|right; eauto].
Qed.

Lemma none_any E o : none E o -> any_guest E o.
Proof. intros [Hg Hs]. split; [intros g Hg'; specialize (Hs g Hg'); lia|by left]. Qed.

(** [resume_guest] and [pause_guest] change nothing but the guest and the disk. *)
Lemma resume_frame o : o_id (resume_guest o) = o_id o /\ o_slot (resume_guest o) = o_slot o /\ o_proc (resume_guest o) = o_proc o /\
  o_running (resume_guest o) = o_running o /\ o_stopped (resume_guest o) = o_stopped o /\ o_trans (resume_guest o) = o_trans o /\
  o_gen (resume_guest o) = o_gen o /\ o_cold (resume_guest o) = o_cold o.
Proof. unfold resume_guest. destruct (o_guest o) as [[]|]; repeat split. Qed.

Lemma pause_frame o : o_id (pause_guest o) = o_id o /\ o_slot (pause_guest o) = o_slot o /\ o_proc (pause_guest o) = o_proc o /\
  o_running (pause_guest o) = o_running o /\ o_stopped (pause_guest o) = o_stopped o /\ o_trans (pause_guest o) = o_trans o /\
  o_gen (pause_guest o) = o_gen o /\ o_cold (pause_guest o) = o_cold o.
Proof. unfold pause_guest. destruct (o_guest o) as [[]|]; repeat split. Qed.

(** An activation that fails leaves something its rollback can tear down. *)
Lemma local_failed tr E o k : base tr o k -> any_guest E o -> restorable o \/ k = KCreate -> local tr E o (Some (failed k)).
Proof.
  intros (Ht & [Hc1 Hc2] & Hr & Hs & Hsl) Hg Hres. destruct k; simpl.
  - split; [done|]. split; [done|]. split; [split; [congruence|done]|]. split; [congruence|done].
  - split; [|done]. destruct Hres as [Hres|]; [|done]. repeat split; try done. by right.
Qed.

Section activation.
Context (s : sys) (p : nat) (o : obj) (c : pc).
Hypothesis (Hinv : inv s) (Hc : holders s !! p = Some c) (Ho : objs s !! p = Some o).

Lemma local_now : local (is_tracked s p o) (entry s p) o (Some c).
Proof. rewrite <- Hc. by apply (v_local s Hinv). Qed.

(** A move that keeps the slot. *)
Lemma inv_move o' c' : not_check (Some c) -> not_check (Some c') -> o_id o' = o_id o -> o_slot o' = o_slot o ->
  local (is_tracked s p o) (entry s p) o' (Some c') ->
  (creating (Some c) = false -> o_running o = false -> o_stopped o = false -> o_running o' = false /\ o_stopped o' = false /\ creating (Some c') = false) ->
  inv (goto p o' c' s).
Proof.
  intros H1 H2 H3 H4 H5 H6. rewrite goto_eq. apply (inv_goto s p o o' (Some c) (Some c') (slots s)); try done.
  - eapply slots_same; [apply (v_slots s Hinv)|done..].
  - intros _ Hr Hs Hcr. by apply H6.
Qed.

Lemma inv_done o' : not_check (Some c) -> o_id o' = o_id o -> o_slot o' = o_slot o ->
  local (is_tracked s p o) (entry s p) o' None -> (creating (Some c) = false -> o_running o = false -> o_stopped o = false ->
     o_running o' = false /\ o_stopped o' = false) ->
  inv (finish p o' s).
Proof.
  intros H1 H3 H4 H5 H6. rewrite finish_eq. apply (inv_goto s p o o' (Some c) None (slots s)); try done.
  - eapply slots_same; [apply (v_slots s Hinv)|done..].
  - intros _ Hr Hs Hcr. destruct (H6 Hcr Hr Hs). done.
Qed.

(** Within an activation nothing is dead: a create is not, and a wake is of a
    stopped sandbox. *)
Lemma base_alive k : base (is_tracked s p o) o k -> creating (Some c) = (match k with KCreate => true | KWake => false end) ->
  creating (Some c) = false -> o_running o = false -> o_stopped o = false -> False.
Proof. intros (_ & _ & _ & Hs & _) Hcr Hf _ Hst. destruct k; congruence. Qed.
End activation.

Ltac nc := (intros ? ?; first [discriminate | match goal with k : kind |- _ => destruct k; discriminate end]).

(** The obligations of [inv_move] other than the local one, inside an activation. *)
Ltac act_move Hb :=
  eapply inv_move; [eassumption|eassumption|eassumption|nc|nc|reflexivity|reflexivity| |
    intros Hcr Hr' Hs'; exfalso; match goal with k : kind |- _ => destruct k end;
    [discriminate Hcr|destruct Hb as (_ & _ & _ & Hst & _); simpl in *; congruence]].

Lemma base_same tr o o' k : o_running o' = o_running o -> o_stopped o' = o_stopped o -> o_slot o' = o_slot o -> o_trans o' = o_trans o ->
  base tr o k -> base tr o' k.
Proof. unfold base, claimed. intros -> -> -> ->. done. Qed.

Lemma not_abandoned s p o k : base (is_tracked s p o) o k -> activationAbandonedLocked p o s = false.
Proof.
  intros (Ht & [_ Hc] & _). unfold activationAbandonedLocked, tracked. rewrite bool_decide_eq_true_2 by done. simpl.
  by apply bool_decide_eq_false_2.
Qed.

Lemma inv_activate_early s r p o c : inv s -> holders s !! p = Some c -> objs s !! p = Some o ->
  match c with PJail _ | PGen _ | PStart _ _ | PPublish _ | PSocket _ | PGuest _ => inv (activate r p o c s) | _ => True end.
Proof.
  intros Hinv Hc Ho. pose proof (local_now s p o c Hinv Hc Ho) as Hl. destruct c as [|k|k|k g|k|k|k| | | | | | | | | | | | | | | | | | | | | | | ]; try exact I; cbn [activate].
  - destruct Hl as (Hb & Hn & Hp & Hr). destruct r; act_move Hb; [done|apply local_failed; auto using none_any..].
  - destruct Hl as (Hb & Hn & Hp & Hr). act_move Hb. done.
  - destruct Hl as (Hb & [Hn Hs] & Hp & Hr & ->). destruct r; act_move Hb; [|apply local_failed; [done|by apply none_any|by left]..].
    split; [by apply (base_same _ o)|]. split; [|done]. left. exists Booting. done.
  - destruct Hl as (Hb & Hth & Hr). rewrite (not_abandoned s p o k Hb). act_move Hb. split; [by apply (base_same _ o)|]. done.
  - destruct Hl as (Hb & Hth & Hp & Hr). destruct r; act_move Hb; [done|apply local_failed; [done|by eapply there_any|by left]..].
  - destruct Hl as (Hb & Hth & Hp & Hr). act_move Hb. split; [by apply (base_same _ o)|]. split; [exact Hth|]. done.
Qed.

Lemma inv_activate_late s r p o c : inv s -> holders s !! p = Some c -> objs s !! p = Some o ->
  match c with PLoad _ _ | PProxy _ | PPubProxy _ | PProbe _ | PFinish _ => inv (activate r p o c s) | _ => True end.
Proof.
  intros Hinv Hc Ho. pose proof (local_now s p o c Hinv Hc Ho) as Hl.
  assert (Hcold : forall k, base (is_tracked s p o) o k -> any_guest (entry s p) o -> o_cold o = true -> local (is_tracked s p o) (entry s p) o (Some (failed k))).
  { intros k Hb Hg Hcold. apply local_failed; [done..|]. left. intros Hf. congruence. }
  destruct (resume_frame o) as (R1 & R2 & R3 & R4 & R5 & R6 & R7 & R8).
  destruct c as [| | | | | | |k cold|k|k|k|k| | | | | | | | | | | | | | | | | | ]; try exact I; cbn [activate].
  - destruct Hl as (Hb & Hth & Hp & Hcd & Hf).
    assert (Hb' : base (is_tracked s p o) (resume_guest o) k) by (eapply base_same; [..|exact Hb]; done).
    unfold guest_call. destruct (has_guest o) eqn:Hg; [|act_move Hb; apply Hcold; [done|by eapply there_any|done]].
    destruct (there_resume _ _ _ Hth Hg) as [Hth' _].
    destruct r; (eapply inv_move; [eassumption|eassumption|eassumption|nc|nc|first [reflexivity|exact R1]|first [reflexivity|exact R2]| |
      intros Hcr Hr' Hs'; exfalso; destruct k; [discriminate Hcr|destruct Hb as (_ & _ & _ & Hst & _); simpl in *; congruence]]).
    + split; [done|]. split; [done|]. split; congruence.
    + apply Hcold; [done|by eapply there_any|done].
    + apply local_failed; [done|eapply there_any; [done|congruence]|]. left. intros Hf'. congruence.
  - destruct Hl as (Hb & Hth & Hp & Hcd). destruct r; act_move Hb; [done|apply Hcold; [done|by eapply there_any|done]..].
  - destruct Hl as (Hb & Hth & Hp & Hcd). rewrite (not_abandoned s p o k Hb). act_move Hb. split; [by apply (base_same _ o)|]. done.
  - destruct Hl as (Hb & Hth & Hp & Hcd). destruct r; act_move Hb; [done|apply Hcold; [done|by eapply there_any|done]..].
  - destruct Hl as (Hb & Hth & Hp & Hcd). destruct Hb as (Ht & [Hc1 Hc2] & Hr & Hs & Hsl). destruct k; simpl.
    + eapply inv_done; [eassumption..|nc|done|done| |done].
      split; [|intros Hn; by destruct (Hn Ht)]. intros _. split; [done|]. split; simpl; [|done|congruence].
      intros _. rewrite Hs. done.
    + eapply inv_move; [eassumption..|nc|nc|done|done| |intros _ _ Hs'; congruence].
      split; [|done]. split; simpl; [|done|done]. intros _. done.
Qed.

(** ** Stopping *)

Lemma run_same tr E o o' P Q : o_running o' = o_running o -> o_stopped o' = o_stopped o -> o_slot o' = o_slot o -> o_trans o' = o_trans o ->
  o_cold o' = o_cold o -> o_proc o' = o_proc o -> there E o' Q -> run tr E o P -> run tr E o' Q.
Proof. unfold run, claimed. intros -> -> -> -> -> -> Ht (H1 & H2 & H3 & H4 & H5 & H6 & H7 & _). done. Qed.

(** A running sandbox that fails to stop goes back to running or is torn down. *)
Lemma run_tear tr E o P ct : run tr E o P -> ct = CStop \/ ct = CResume \/ ct = CDeath -> local tr E o (Some (PTear ct)).
Proof.
  intros (H1 & H2 & H3 & H4 & H5 & H6 & H7 & H8) Hct. split; [|by eapply there_any].
  assert (Ho : tr /\ claimed o /\ restorable o /\ (o_running o = true \/ o_stopped o = true)).
  { split; [done|]. split; [done|]. split; [intros Hc; congruence|by left]. }
  destruct Hct as [->|[->| ->]]; exact Ho.
Qed.

Lemma run_idle tr E o : run tr E o (eq Live) -> idle tr E o /\ claimed o.
Proof.
  intros (H1 & H2 & H3 & H4 & H5 & H6 & H7 & H8). split; [|done]. split; [done|congruence|congruence].
Qed.

Lemma there_weaken E o (P Q : gstate -> Prop) : (forall st, P st -> Q st) -> there E o P -> there E o Q.
Proof. intros HPQ [(st & H1 & H2)|H]; [left; eauto|by right]. Qed.

Lemma run_weaken tr E o (P Q : gstate -> Prop) : (forall st, P st -> Q st) -> run tr E o P -> run tr E o Q.
Proof. intros HPQ (H1 & H2 & H3 & H4 & H5 & H6 & H7 & H8). repeat (split; [done|]). by eapply there_weaken. Qed.

(** The obligations of [inv_move] other than the local one, with the sandbox
    running. *)
Ltac run_move Hrun :=
  eapply inv_move; [eassumption|eassumption|eassumption|nc|nc|first [reflexivity|eassumption]|first [reflexivity|eassumption]| |
    intros _ Hr' _; exfalso; destruct Hrun as (_ & _ & Hrr & _); congruence].

Lemma inv_stop s r p o c : inv s -> holders s !! p = Some c -> objs s !! p = Some o ->
  match c with SRead | SDisk | SPause | SSnap | SUnpin | SResume => inv (stop r p o c s) | _ => True end.
Proof.
  intros Hinv Hc Ho. pose proof (local_now s p o c Hinv Hc Ho) as Hl.
  destruct (resume_frame o) as (R1 & R2 & R3 & R4 & R5 & R6 & R7 & R8).
  destruct (pause_frame o) as (P1 & P2 & P3 & P4 & P5 & P6 & P7 & P8).
  destruct c; try exact I; cbn [stop]; cbn [local] in Hl.
  - destruct Hl as [Hid Hcl]. destruct (o_stopped o) eqn:Es; [|destruct (o_running o) eqn:Er];
      (eapply inv_move; [eassumption..|nc|nc|done|done| |intros; simpl; repeat split; congruence]).
    + done.
    + destruct (id_running _ _ _ Hid Er) as (H1 & H2 & H3 & H4 & H5 & H6). done.
    + done.
  - destruct r; run_move Hl; [exact Hl|by apply run_idle..].
  - pose proof Hl as (_ & _ & _ & _ & _ & _ & _ & Hth). unfold guest_call.
    assert (Hres : run (is_tracked s p o) (entry s p) o (fun st => st = Live \/ st = Paused)) by (eapply run_weaken; [|exact Hl]; naive_solver).
    destruct (has_guest o) eqn:Hg; [|run_move Hl; exact Hres]. pose proof (there_pause _ _ _ Hth Hg) as Hth'.
    destruct r; run_move Hl; [by eapply (run_same _ _ o)|exact Hres|].
    eapply run_weaken; [|by eapply (run_same _ _ o)]. intros st <-. by right.
  - pose proof Hl as (_ & _ & _ & _ & _ & _ & _ & Hth). unfold guest_call.
    assert (Hres : run (is_tracked s p o) (entry s p) o (fun st => st = Live \/ st = Paused)) by (eapply run_weaken; [|exact Hl]; naive_solver).
    destruct (has_guest o) eqn:Hg; [|run_move Hl; exact Hres].
    destruct r; run_move Hl; [|exact Hres..]. split; [|done]. by apply (run_same _ _ o _ (eq Paused)).
  - destruct Hl as [Hrun Hf]. run_move Hrun. destruct Hrun as (H1 & H2 & H3 & H4 & H5 & H6 & H7 & H8).
    split; [|by apply (there_any _ _ (eq Paused))]. split; [done|]. split; [done|]. split; [intros _; exact Hf|by left].
  - pose proof Hl as (_ & _ & _ & _ & _ & _ & Hp & Hth). unfold guest_call.
    destruct (has_guest o) eqn:Hg; [|run_move Hl; eapply run_tear; [exact Hl|auto]].
    destruct (there_resume _ _ _ Hth Hg) as [Hth' _].
    assert (Hl' : run (is_tracked s p o) (entry s p) (resume_guest o) (eq Live)) by (by eapply (run_same _ _ o)).
    destruct r; run_move Hl; [by apply run_idle|eapply run_tear; [exact Hl|auto]|eapply run_tear; [exact Hl'|auto]].
Qed.

(** ** Slots *)

Lemma free_slot_spec k l i : free_slot k l = Some i -> (k <= i)%nat /\ l !! (i - k)%nat = Some "".
Proof.
  revert k. induction l as [|x l IH]; intros k; simpl; [done|]. case_decide as Hx.
  - intros [= ->]. split; [lia|]. rewrite Nat.sub_diag. by subst.
  - intros Hi. destruct (IH (S k) Hi) as [Hle Hl]. split; [lia|]. replace (i - k)%nat with (S (i - S k)) by lia. done.
Qed.

Lemma reserve_spec id s i s' : reserveSlotLocked id s = (Some i, s') -> slots s !! i = Some "" /\ s' = set_slots (<[i := id]> (slots s)) s.
Proof.
  unfold reserveSlotLocked. destruct (free_slot 0 (slots s)) as [j|] eqn:E; [|done]. intros [= <- <-].
  apply free_slot_spec in E as [_ E]. by rewrite Nat.sub_0_r in E.
Qed.

(** A free slot goes to a tracked sandbox that has none. *)
Lemma slots_reserve sl tb ob p o' i :
  slots_ok sl tb ob -> sl !! i = Some "" -> (forall q o, ob !! q = Some o -> tb !! o_id o = Some q -> o_id o <> "") ->
  tb !! o_id o' = Some p -> o_slot o' = Some i -> o_id o' <> "" -> (forall o, ob !! p = Some o -> o_id o = o_id o' /\ o_slot o = None) ->
  slots_ok (<[i := o_id o']> sl) tb (<[p := o']> ob).
Proof.
  intros [H1 H2] Hi Hid Ht Hs Hne Hold. assert (Hlt : (i < length sl)%nat) by (by eapply lookup_lt_Some). split.
  - intros q oq j [[<- <-]|[Hn Hq]]%lookup_insert_Some Htq Hj.
    + rewrite Hs in Hj. injection Hj as <-. by apply list_lookup_insert_eq.
    + rewrite list_lookup_insert_ne; [eauto|]. intros <-. pose proof (H1 q oq i Hq Htq Hj) as Hx. rewrite Hi in Hx.
      injection Hx as Hx. by destruct (Hid q oq Hq Htq).
  - intros j id Hj Hne'. destruct (decide (j = i)) as [->|Hn].
    + rewrite list_lookup_insert_eq in Hj by done. injection Hj as <-. exists p, o'. by rewrite lookup_insert_eq.
    + rewrite list_lookup_insert_ne in Hj by done. destruct (H2 j id Hj Hne') as (q & oq & Htq & Hq & Hidq & Hsq).
      exists q, oq. rewrite lookup_insert_ne; [done|]. intros <-. destruct (Hold oq Hq) as [_ Hnone]. congruence.
Qed.

(** What [release_owned] does to the slots. *)
Definition released (o : obj) (sl : list string) : list string :=
  match o_slot o with Some i => if bool_decide (sl !! i = Some (o_id o)) then <[i := ""]> sl else sl | None => sl end.

Lemma release_eq o s : release_owned o s = set_slots (released o (slots s)) s.
Proof.
  unfold release_owned, released, slotOwnedByLocked. destruct (o_slot o) as [i|]; [|by destruct s]. by destruct (bool_decide _); destruct s.
Qed.

(** A tracked sandbox gives its slot back and lets go of it, one way or another. *)
Lemma slots_release sl tb tb' ob p o o' :
  slots_ok sl tb ob -> ob !! p = Some o -> tb !! o_id o = Some p -> o_id o' = o_id o ->
  (forall q oq, ob !! q = Some oq -> tb' !! o_id oq = Some q -> q <> p -> tb !! o_id oq = Some q) ->
  (forall id q, tb !! id = Some q -> q <> p -> tb' !! id = Some q) ->
  (tb' !! o_id o = None \/ o_slot o' = None) ->
  slots_ok (released o sl) tb' (<[p := o']> ob).
Proof.
  intros [H1 H2] Ho Ht Hid Htb Htb' Hlet. split.
  - intros q oq j [[<- <-]|[Hn Hq]]%lookup_insert_Some Htq Hj; [rewrite Hid in Htq; destruct Hlet; congruence|].
    pose proof (Htb q oq Hq Htq ltac:(done)) as Htq'. pose proof (H1 q oq j Hq Htq' Hj) as Hsl. unfold released. destruct (o_slot o) as [i|] eqn:Es; [|done].
    case_bool_decide as Hown; [|done]. rewrite list_lookup_insert_ne; [done|]. intros ->. rewrite Hown in Hsl. injection Hsl as Hsl.
    rewrite <- Hsl in Htq'. congruence.
  - intros j id Hj Hne. assert (Hj' : sl !! j = Some id /\ (o_slot o = Some j -> sl !! j <> Some (o_id o))).
    { unfold released in Hj. destruct (o_slot o) as [i|] eqn:Es; [|done]. case_bool_decide as Hown; [|split; [done|congruence]].
      destruct (decide (j = i)) as [->|Hn]; [|rewrite list_lookup_insert_ne in Hj by done; split; [done|congruence]].
      rewrite list_lookup_insert_eq in Hj by (by eapply lookup_lt_Some). congruence. }
    destruct Hj' as [Hj' Hnot]. destruct (H2 j id Hj' Hne) as (q & oq & Htq & Hq & Hidq & Hsq).
    assert (Hqp : q <> p). { intros ->. assert (oq = o) as -> by congruence. apply (Hnot Hsq). congruence. }
    exists q, oq. rewrite lookup_insert_ne by done. split; [by apply Htb'|done].
Qed.

Lemma tracked_named s : inv s -> forall q o, objs s !! q = Some o -> sandboxes s !! o_id o = Some q -> o_id o <> "".
Proof. intros Hinv q o _ Ht. by destruct (v_table s Hinv _ _ Ht) as (_ & _ & _ & Hne). Qed.

Lemma inv_wake s p o c : inv s -> holders s !! p = Some c -> objs s !! p = Some o ->
  match c with WRead | WSlot => inv (wake p o c s) | _ => True end.
Proof.
  intros Hinv Hc Ho. pose proof (local_now s p o c Hinv Hc Ho) as Hl. destruct c; try exact I; cbn [wake]; cbn [local] in Hl.
  - destruct Hl as [Hid Hcl]. destruct (o_running o) eqn:Er; [|destruct (o_stopped o) eqn:Es];
      (eapply inv_move; [eassumption..|nc|nc|done|done| |intros; simpl; repeat split; congruence]); [done| |done].
    destruct (id_not_running _ _ _ Hid Er). destruct (id_stopped _ _ _ Hid Es) as (? & ? & ?). done.
  - destruct Hl as (Ht & Hcl & Hr & Hs & Hsl & Hn & Hp & Hres). destruct (reserveSlotLocked (o_id o) s) as [[i|] s'] eqn:E.
    + apply reserve_spec in E as [Hi ->].
      refine (inv_goto s p o (set_slot (Some i) o) (Some WSlot) (Some (PJail KWake)) _ Hinv Hc Ho _ _ _ _ _ _); [nc|nc|done| | |congruence].
      * apply (slots_reserve _ _ _ _ (set_slot (Some i) o)); try done; [apply (v_slots s Hinv)|by apply tracked_named|exact (tracked_named s Hinv p o Ho Ht)|].
        intros o0 Ho0. assert (o0 = o) as -> by congruence. done.
      * split; [|done]. split; [done|]. split; [done|]. split; [done|]. by split; [|eexists].
    + assert (s' = s) as -> by (unfold reserveSlotLocked in E; destruct (free_slot _ _); congruence).
      eapply inv_move; [eassumption..|nc|nc|done|done| |congruence]. split; [|done]. split; [congruence|done|done].
Qed.

(** ** Teardown *)

(** The guest goes, and its exit is pending. *)
Lemma local_exit tr E o h g st : o_guest o = Some (g, st) -> local tr E o h ->
  local tr (fun g' => g' = g \/ E g') (set_guest None o) h.
Proof.
  intros Hg Hl. assert (Hno : none E o -> False) by (intros [H _]; congruence).
  assert (Hth : forall P, there E o P -> forall P', there (fun g' => g' = g \/ E g') (set_guest None o) P').
  { intros P [(st' & H1 & H2 & H3)|(H1 & _)] P'; [|congruence]. right. rewrite Hg in H2. injection H2 as -> ->.
    split; [done|]. split; [by left|]. intros g' [->|Hg']; simpl; [done|]. specialize (H3 g' Hg'). lia. }
  assert (Hag : any_guest E o -> any_guest (fun g' => g' = g \/ E g') (set_guest None o)).
  { intros [H1 [H2|(st' & H2 & H3 & H4)]]; [congruence|]. split; [|by left]. rewrite Hg in H2. injection H2 as -> ->.
    intros g' [->|Hg']; simpl; [done|by apply H1]. }
  assert (Hid : idle tr E o -> idle tr (fun g' => g' = g \/ E g') (set_guest None o)).
  { intros [H1 H2 H3]. split; [|intros Hr; by destruct (Hno (proj1 (H2 Hr)))|done]. intros Hr.
    destruct (H1 Hr) as (? & ? & ? & ? & ? & ?). repeat (split; [done|]). by eapply Hth. }
  assert (Hrun : forall P, run tr E o P -> run tr (fun g' => g' = g \/ E g') (set_guest None o) P).
  { intros P (H1 & H2 & H3 & H4 & H5 & H6 & H7 & H8). repeat (split; [done|]). by eapply Hth. }
  destruct h as [c|]; cbn [local] in Hl |- *; [|destruct Hl as [H1 H2]; split; [naive_solver|intros Hn; by destruct (Hno (proj1 (H2 Hn)))]].
  destruct c; try (exfalso; by apply Hno, Hl); try (by apply Hrun);
    try (destruct Hl as [Hx Hy]; split; [by apply Hid|done]);
    try (destruct Hl as [Hx Hy]; split; [by apply Hrun|done]);
    try (destruct Hl as (Hb & Ht & Hrest); split; [done|]; split; [by eapply Hth|done]).
  - destruct Hl as [Hx Hy]. split; [done|by apply Hag].
  - destruct Hl as (H1 & H2 & H3 & [H4|(g0 & st0 & H4 & H5 & H6)]); [congruence|]. split; [done|]. split; [done|]. split; [|by left].
    rewrite Hg in H4. injection H4 as -> ->. intros g' [->|Hg']; simpl; [lia|by apply H3].
  - destruct Hl as (H1 & H2 & H3 & H4 & H5). split; [done|]. split; [by apply Hag|done].
Qed.

Lemma inv_guest_exits s p o : inv s -> objs s !! p = Some o -> o_guest o <> None -> inv (guest_exits p o s).
Proof.
  intros Hinv Ho Hg. unfold guest_exits. destruct (o_guest o) as [[g st]|] eqn:Eg; [|done].
  set (s' := set_exits _ _). assert (HE : forall q g', entry s' q g' <-> (q, g') = (p, g) \/ entry s q g').
  { intros q g'. unfold entry. simpl. rewrite elem_of_cons. naive_solver. }
  apply (fc_inv_update s s' p o (set_guest None o)); try done.
  - by left.
  - intros q g' Hne. rewrite HE. naive_solver.
  - intros q g' oq _ _ _ He. rewrite HE. by right.
  - apply (local_ext (is_tracked s p o) _ (fun g' => g' = g \/ entry s p g') _); [done|intros g'; rewrite HE; naive_solver|].
    eapply local_exit; [exact Eg|by apply (v_local s Hinv)].
  - apply (slots_same _ _ _ _ o); [apply (v_slots s Hinv)|done..].
  - intros q Hq. destruct (decide (q = p)) as [->|Hn]; [right|by left]. split; [done|].
    destruct (v_dead s Hinv p Hq) as (o0 & Ho0 & H1 & H2 & H3). assert (o0 = o) as -> by congruence. done.
  - intros died g' Hx. by apply (v_check s Hinv _ _ _ Hx).
Qed.

Lemma inv_kill s p o ct had : inv s -> holders s !! p = Some (PKill ct had) -> objs s !! p = Some o ->
  inv (teardown Ok p o (PKill ct had) s).
Proof.
  intros Hinv Hc Ho. cbn [teardown].
  assert (Hstep : forall s1 o1, inv s1 -> holders s1 !! p = Some (PKill ct had) -> objs s1 !! p = Some o1 -> o_guest o1 = None ->
    inv (goto p o1 (PClean ct) s1)).
  { intros s1 o1 Hi Hc1 Ho1 Hg. pose proof (local_now s1 p o1 _ Hi Hc1 Ho1) as (H1 & H2 & H3 & _).
    eapply inv_move; [eassumption..|nc|nc|done|done|by repeat split|]. intros; split; [done|]. split; [done|]. by destruct ct as [| | | |[]]. }
  pose proof (local_now s p o _ Hinv Hc Ho) as (H1 & H2 & H3 & H4).
  destruct (o_guest o) as [[g st]|] eqn:Eg.
  - destruct H4 as [H4|(g0 & st0 & _ & _ & ->)]; [done|].
    assert (Hne : o_guest o <> None) by congruence. pose proof (inv_guest_exits s p o Hinv Ho Hne) as Hi.
    apply (Hstep (guest_exits p o s) (set_guest None o)); [done|unfold guest_exits; by rewrite Eg| |done].
    unfold guest_exits. rewrite Eg. simpl. apply lookup_insert_eq.
  - assert (Hs : (if had then guest_exits p o s else s) = s) by (destruct had; [unfold guest_exits; by rewrite Eg|done]). rewrite Hs.
    assert (Ho' : (if had then set_guest None o else o) = o) by (destruct had; [destruct o; simpl in *; by rewrite Eg|done]). rewrite Ho'.
    by apply Hstep.
Qed.

Lemma inv_teardown s r p o c : inv s -> holders s !! p = Some c -> objs s !! p = Some o ->
  match c with PTear _ | PKill _ _ | PClean _ | PStopped => inv (teardown r p o c s) | _ => True end.
Proof.
  intros Hinv Hc Ho. pose proof (local_now s p o c Hinv Hc Ho) as Hl. destruct c as [| | | | | | | | | | | |ct|ct had|ct| | | | | | | | | | | | | | | ]; try exact I.
  - destruct Hl as [Ho' [Hle Hg]]. cbn [teardown]. eapply inv_move; [eassumption..|nc|nc|done|done| |].
    + split; [by destruct ct|]. split; [done|]. split; [intros g Hg'; specialize (Hle g Hg'); simpl; lia|].
      destruct Hg as [Hg|(st & Hg & _ & Hp)]; [by left|right]. exists (o_gen o), st. done.
    + intros Hcr Hr Hs. split; [done|]. split; [done|]. by destruct ct as [| | | |[]].
  - exact (inv_kill s p o ct had Hinv Hc Ho).
  - destruct Hl as (Ho' & Hp & Hn). cbn [teardown]. eapply inv_move; [eassumption..|intros ? ?; discriminate|by destruct ct|done|done| |].
    + by destruct ct.
    + intros Hcr Hr Hs. split; [done|]. split; [done|]. by destruct ct as [| | | |[]].
  - destruct Hl as ((Ht & Hcl & Hres & Hrs) & Hp & Hn). cbn [teardown]. rewrite release_eq.
    set (o' := set_slot None _).
    refine (inv_goto s p o o' (Some PStopped) (Some PEnd) _ Hinv Hc Ho _ _ _ _ _ _); [nc|nc|done| | |].
    + apply (slots_release _ (sandboxes s)); try done; [apply (v_slots s Hinv)|by right].
    + split; [|done]. split; simpl; done.
    + intros _ Hr Hs. destruct Hrs; congruence.
Qed.

(** ** Deletion *)

Lemma tracked_eq p o s : tracked p o s = bool_decide (is_tracked s p o).
Proof. done. Qed.

Lemma inv_delete s r p o c : inv s -> holders s !! p = Some c -> objs s !! p = Some o ->
  match c with DMark _ | DData _ _ | DFail false => inv (delete_op r p o c s) | _ => True end.
Proof.
  intros Hinv Hc Ho. pose proof (local_now s p o c Hinv Hc Ho) as Hl.
  destruct c as [| | | | | | | | | | | | | | | | | | | | | | | |cr|cr err|cr| | |]; try exact I; [| |destruct cr; [exact I|]]; cbn [delete_op].
  - destruct Hl as (Hnone & Hag & [Hd1 Hd2] & Hrt & Hcr). rewrite tracked_eq.
    eapply inv_move; [eassumption..|nc|nc| | | |]; case_bool_decide as Ht; try done.
    split; [|done]. assert (o_running o = false) by (destruct (o_running o); [by destruct Ht; auto|done]).
    split; [done|]. split; [done|]. done.
  - destruct Hl as (Hown & Hn & Hp). eapply inv_move; [eassumption..|nc|by destruct (err || _)|done|done| |].
    + destruct (err || _); [done|]. split; [by exists cr|done].
    + intros Hx Hr Hs. split; [done|]. split; [done|]. destruct (err || _), cr; done.
  - destruct Hl as ((Hr & Ht & [Hd1 Hd2]) & Hn & Hp). rewrite tracked_eq. cbv zeta.
    eapply inv_done; [eassumption..|nc| | | |]; case_bool_decide as Htr; try done.
    split; [intros _|done]. split; [done|]. split; simpl; [congruence|done|]. intros Hs. by destruct (Hd1 Hs).
Qed.

(** The create gives up: its sandbox stays tracked until [untrackSandbox]. *)
Lemma inv_delete_failed s r p o : inv s -> holders s !! p = Some (DFail true) -> objs s !! p = Some o -> inv (delete_op r p o (DFail true) s).
Proof.
  intros Hinv Hc Ho. pose proof (local_now s p o _ Hinv Hc Ho) as ((Hr & Ht & [Hd1 Hd2]) & Hn & Hp). destruct (Hd2 eq_refl) as [Htr Hst].
  cbn [delete_op]. rewrite tracked_eq, bool_decide_eq_true_2 by done. cbv zeta. set (s' := set_untracks _ _).
  assert (Hh : forall q, q <> p -> holders s' !! q = holders s !! q) by (intros q Hq; simpl; by rewrite lookup_delete_ne).
  assert (Hhp : holders s' !! p = None) by (simpl; apply lookup_delete_eq).
  assert (HE : forall q g, entry s' q g <-> entry s q g) by (apply (entry_same s s' p); try done; [rewrite Hc|rewrite Hhp]; done).
  apply (fc_inv_update s s' p o (set_trans TNone o)); try done.
  - by left.
  - intros q g _. apply HE.
  - intros q g oq _ _ _. apply HE.
  - rewrite Hhp. apply (local_ext (is_tracked s p o) _ (entry s p)); [done|intros g; by rewrite HE|].
    split; [|done]. intros _. split; [done|]. split; simpl; [congruence|done|congruence].
  - apply (slots_same _ _ _ _ o); [apply (v_slots s Hinv)|done..].
  - intros q [->|Hq]%elem_of_cons; [right; rewrite Hhp; done|]. destruct (decide (q = p)) as [->|Hne]; [right; rewrite Hhp; done|by left].
  - intros died g. rewrite Hhp. done.
Qed.

(** A tracked sandbox is dropped with its slot. *)
Lemma inv_drop s p o hs us :
  inv s -> objs s !! p = Some o -> is_tracked s p o -> (forall q, q <> p -> hs !! q = holders s !! q) ->
  ((not_check (holders s !! p) /\ not_check (hs !! p)) \/ hs !! p = holders s !! p) ->
  local False (entry s p) o (hs !! p) ->
  (forall q, q ∈ us -> q ∈ untracks s) -> (p ∈ us -> o_running o = false /\ o_stopped o = false /\ creating (hs !! p) = false) ->
  inv (mkSys (released o (slots s)) (delete (o_id o) (sandboxes s)) (objs s) hs (exits s) (dying s) (gaveup s) us).
Proof.
  intros Hinv Ho Ht Hh Hhp Hl Hus Hdead. set (s' := mkSys _ _ _ _ _ _ _ _).
  assert (HE : forall q g, entry s' q g <-> entry s q g).
  { destruct Hhp as [[Ha Hb]|Hhp]; [by apply (entry_same s s' p)|]. intros q g. unfold entry. simpl.
    assert (Hall : forall q, hs !! q = holders s !! q) by (intros q'; destruct (decide (q' = p)) as [->|]; auto).
    apply map_eq in Hall. by rewrite Hall. }
  apply (fc_inv_update s s' p o o); try done.
  - simpl. by rewrite insert_id.
  - by right.
  - intros q g _. apply HE.
  - intros q g oq _ _ _. apply HE.
  - apply (local_ext False _ (entry s p)); [|intros g; by rewrite HE|exact Hl]. unfold is_tracked. simpl. by rewrite lookup_delete_eq.
  - simpl. rewrite <- (insert_id (objs s) p o) by done. apply (slots_release _ (sandboxes s)); try done; [apply (v_slots s Hinv)| | |left; apply lookup_delete_eq].
    + intros q oq _ [_ ?]%lookup_delete_Some _. done.
    + intros id q Hid Hn. rewrite lookup_delete_ne; [done|]. intros <-. unfold is_tracked in Ht. congruence.
  - intros q Hq. destruct (decide (q = p)) as [->|Hn]; [right; split; [done|by apply Hdead]|left; auto].
  - intros died g Hx. destruct Hhp as [[_ Hb]|Hhp]; [by destruct (Hb died g)|]. simpl in Hx. rewrite Hhp in Hx. by apply (v_check s Hinv _ _ _ Hx).
Qed.

Lemma inv_deleted s r p o : inv s -> holders s !! p = Some DUntrack -> objs s !! p = Some o -> inv (delete_op r p o DUntrack s).
Proof.
  intros Hinv Hc Ho. pose proof (local_now s p o _ Hinv Hc Ho) as ((cr & Hr & Ht & Hd) & Hn & Hp).
  cbn [delete_op]. unfold untrackSandbox. rewrite tracked_eq. case_bool_decide as Htr.
  - rewrite release_eq, finish_eq. simpl. rewrite insert_id by done. apply (inv_drop s p o); try done.
    + intros q Hq. by rewrite lookup_delete_ne.
    + left. rewrite Hc, lookup_delete_eq. done.
    + rewrite lookup_delete_eq. done.
    + intros Hu. rewrite lookup_delete_eq. destruct (v_dead s Hinv p Hu) as (o0 & Ho0 & H1 & H2 & H3).
      assert (o0 = o) as -> by congruence. done.
  - eapply inv_done; [eassumption..|nc|done|done| |done]. done.
Qed.

Lemma inv_step_untrack s p o before after : inv s -> untracks s = before ++ p :: after -> objs s !! p = Some o ->
  inv (untrackSandbox p o (set_untracks (before ++ after) s)).
Proof.
  intros Hinv Hu Ho. assert (Hp : p ∈ untracks s) by (rewrite Hu; apply elem_of_app; right; left).
  destruct (v_dead s Hinv p Hp) as (o0 & Ho0 & H1 & H2 & H3). assert (o0 = o) as -> by congruence.
  assert (Hsub : forall q, q ∈ before ++ after -> q ∈ untracks s)
    by (intros q Hq; rewrite Hu; rewrite elem_of_app in Hq |- *; destruct Hq; [by left|by right; right]).
  unfold untrackSandbox. rewrite tracked_eq. case_bool_decide as Htr.
  - rewrite release_eq. simpl. apply (inv_drop s p o); try done; [by right|].
    eapply local_untrack; [exact Htr| |done..]. by apply (v_local s Hinv).
  - destruct Hinv as [V1 V2 V3 V4 V5 V6 V7]. split; try done. simpl. auto.
Qed.

(** ** Deaths, claims and creates *)

Lemma rm_sub x y l : y ∈ rm x l -> y ∈ l.
Proof.
  unfold rm. destruct (list_find _ l) as [[i z]|]; [|done]. intros (j & Hj)%list_elem_of_lookup. apply list_elem_of_lookup.
  destruct (decide (j < i)%nat); [rewrite list_lookup_delete_lt in Hj by done|rewrite list_lookup_delete_ge in Hj by lia]; eauto.
Qed.

Lemma rm_keep x y l : y ∈ l -> y <> x -> y ∈ rm x l.
Proof.
  intros (j & Hj)%list_elem_of_lookup Hne. unfold rm. destruct (list_find _ l) as [[i z]|] eqn:E; [|by eapply list_elem_of_lookup_2].
  apply list_find_Some in E as (Hi & -> & _). assert (j <> i) by congruence. apply list_elem_of_lookup. destruct (decide (j < i)%nat).
  - exists j. by rewrite list_lookup_delete_lt.
  - exists (j - 1)%nat. rewrite list_lookup_delete_ge by lia. by replace (S (j - 1)) with j by lia.
Qed.

(** Only notices change. *)
Lemma inv_notices s ex dy gu : inv s -> let s' := mkSys (slots s) (sandboxes s) (objs s) (holders s) ex dy gu (untracks s) in
  (forall q g, entry s' q g -> entry s q g) ->
  (forall q o, objs s !! q = Some o -> is_tracked s q o -> o_trans o <> TDeleting -> entry s q (o_gen o) -> entry s' q (o_gen o)) -> inv s'.
Proof.
  intros Hinv s' HE1 HE2. destruct Hinv as [V1 V2 V3 V4 V5 V6 V7]. split; try done; [|eauto].
  intros q o Ho. specialize (V3 q o Ho). destruct (decide (is_tracked s q o)) as [Ht|Ht].
  - destruct (decide (o_trans o = TDeleting)) as [Hd|Hd]; [by apply (local_deleting _ (entry s q)); eauto|].
    apply (local_mono _ (entry s q)); [eauto| |exact V3]. intros _. eauto.
  - apply (local_mono _ (entry s q)); [eauto| |exact V3]. done.
Qed.

Lemma inv_record s p g o : inv s -> (p, g) ∈ exits s -> objs s !! p = Some o ->
  inv (recordGuestDeath p g o s).
Proof.
  intros Hinv Hin Ho. unfold recordGuestDeath. case_decide as Hg; apply (inv_notices s); try done; unfold entry; simpl.
  - intros q g'. rewrite elem_of_cons. intros [H|[[[= -> ->]|H]|H]]; [left; by eapply rm_sub|by left|right; by left|right; by right].
  - intros q oq Hoq Ht Hd. rewrite elem_of_cons. destruct (decide ((q, o_gen oq) = (p, g))) as [->|Hne]; [tauto|].
    intros [H|H]; [left; by apply rm_keep|tauto].
  - intros q g' [H|H]; [left; by eapply rm_sub|by right].
  - intros q oq Hoq Ht Hd [H|H]; [|by right]. left. apply rm_keep; [done|]. intros [= -> <-]. congruence.
Qed.

Lemma inv_death_gone s p g o : inv s -> (p, g) ∈ dying s -> objs s !! p = Some o ->
  match sandboxes s !! o_id o with Some p' => exists o', objs s !! p' = Some o' /\ o_trans o' = TDeleting | None => True end ->
  inv (set_dying (rm (p, g) (dying s)) s).
Proof.
  intros Hinv Hin Ho Hgone. apply (inv_notices s); try done; unfold entry; simpl.
  - intros q g' [H|[H|H]]; [by left|right; left; by eapply rm_sub|tauto].
  - intros q oq Hoq Ht Hd [H|[H|H]]; [by left| |tauto]. right. left. apply rm_keep; [done|]. intros [= -> <-].
    assert (oq = o) as -> by congruence. unfold is_tracked in Ht. rewrite Ht in Hgone. destruct Hgone as (o' & Ho' & Hd'). congruence.
Qed.

Lemma inv_death_late s p g : inv s -> (p, g) ∈ dying s -> inv (set_gaveup ((p, g) :: gaveup s) (set_dying (rm (p, g) (dying s)) s)).
Proof.
  intros Hinv Hin. apply (inv_notices s); try done; unfold entry; simpl.
  - intros q g'. rewrite elem_of_cons. intros [H|[H|[[[= -> ->]|H]|H]]]; [by left|right; left; by eapply rm_sub|tauto..].
  - intros q oq Hoq Ht Hd. rewrite elem_of_cons. destruct (decide ((q, o_gen oq) = (p, g))) as [->|Hne]; [tauto|].
    intros [H|[H|H]]; [tauto| |tauto]. right. left. by apply rm_keep.
Qed.

(** A tracked sandbox with no transition is nobody's. *)
Lemma local_trans tr E o c : local tr E o (Some c) -> tr -> o_trans o <> TNone.
Proof.
  intros Hl Ht. assert (Hcl : claimed o -> o_trans o <> TNone) by (intros [H _]; done).
  assert (Hb : forall k, base tr o k -> o_trans o <> TNone) by (intros k (_ & H & _); auto).
  assert (Hrun : forall P, run tr E o P -> o_trans o <> TNone) by (intros P (_ & H & _); auto).
  assert (Hown : forall ct, owner tr o ct -> o_trans o <> TNone).
  { intros [| | | |cr]; simpl; [intros (_ & H & _); by apply Hcl..|]. intros (_ & H & _). by rewrite (H Ht). }
  destruct c; cbn [local] in Hl; first [exact (Hb _ (proj1 Hl))|exact (Hrun _ Hl)|exact (Hrun _ (proj1 Hl))|exact (Hcl (proj2 Hl))
    |exact (Hown _ (proj1 Hl))|exact (Hown CStop (proj1 Hl))|exact (Hcl (proj1 (proj2 Hl)))|exact (proj1 Hl)|idtac].
  destruct Hl as ((cr & H) & _). by eapply Hown.
Qed.

Lemma free_idle s p o : inv s -> objs s !! p = Some o -> is_tracked s p o -> o_trans o = TNone ->
  holders s !! p = None /\ idle (is_tracked s p o) (entry s p) o.
Proof.
  intros Hinv Ho Ht Hn. pose proof (v_local s Hinv p o Ho) as Hl. destruct (holders s !! p) as [c|].
  - by destruct (local_trans _ _ _ _ Hl Ht).
  - split; [done|]. by apply Hl.
Qed.

Lemma idle_any tr E o : idle tr E o -> any_guest E o.
Proof.
  intros [H1 H2 H3]. destruct (o_running o) eqn:Er.
  - destruct (H1 eq_refl) as (_ & _ & _ & _ & Hp & Hth). by eapply there_any.
  - apply none_any. by apply H2.
Qed.

Lemma idle_trans tr E o t : idle tr E o -> idle tr E (set_trans t o).
Proof. intros [H1 H2 H3]. by split. Qed.

Lemma inv_claim s x id p o : inv s -> sandboxes s !! id = Some p -> objs s !! p = Some o -> o_trans o = TNone ->
  inv (goto p (set_trans (op_trans x) o) (op_start x) s).
Proof.
  intros Hinv Hid Ho Hn. destruct (v_table s Hinv _ _ Hid) as (o0 & Ho0 & Hido & _). assert (o0 = o) as -> by congruence. subst id.
  destruct (free_idle s p o Hinv Ho Hid Hn) as [Hh Hidle].
  apply (inv_goto s p o (set_trans (op_trans x) o) None (Some (op_start x)) (slots s)); try done.
  - by destruct x.
  - apply (slots_same _ _ _ _ o); [apply (v_slots s Hinv)|done..].
  - pose proof (idle_any _ _ _ Hidle). destruct x; simpl; [split; [by apply idle_trans|done]..|].
    destruct Hidle as [H1 H2 H3]. split; [done|]. split; [done|]. split; [split; [|done]; intros Hs; by destruct (H3 Hs)|done].
  - intros _ Hr Hs _. by destruct x.
Qed.

(** The death has the claim: it looks whether the guest it was told of is still
    the current one. *)
Lemma inv_check s r p o died g : inv s -> holders s !! p = Some (XCheck died g) -> objs s !! p = Some o ->
  inv (advance r p o (XCheck died g) s).
Proof.
  intros Hinv Hc Ho. pose proof (local_now s p o _ Hinv Hc Ho) as [Hidle Hcl].
  cbn [advance]. unfold handleGuestDeath. set (b := bool_decide (p <> died) || _). set (c' := if b then PEnd else PTear CDeath). set (s' := goto _ _ _ _).
  assert (Hc' : not_check (Some c')) by (unfold c'; by destruct b).
  assert (Hh : forall q, q <> p -> holders s' !! q = holders s !! q) by (intros q Hq; simpl; by rewrite lookup_insert_ne).
  assert (Hhp : holders s' !! p = Some c') by (simpl; apply lookup_insert_eq).
  assert (HE1 : forall q g', entry s' q g' -> entry s q g').
  { intros q g' [H|[H|[H|[p' Hp']]]]; unfold entry; [tauto..|]. destruct (decide (p' = p)) as [->|Hn]; [by destruct (Hc' q g'); rewrite <- Hhp|].
    rewrite Hh in Hp' by done. eauto. }
  assert (HE2 : forall q g', (q, g') <> (died, g) -> entry s q g' -> entry s' q g').
  { intros q g' Hne [H|[H|[H|[p' Hp']]]]; unfold entry; [tauto..|]. right. right. right. exists p'. rewrite Hh; [done|].
    intros ->. congruence. }
  apply (fc_inv_update s s' p o o); try done.
  - by left.
  - intros q g' _. apply HE1.
  - intros q g' oq Hq Hoq Ht. apply HE2. intros [= -> ->]. destruct (v_check s Hinv _ _ _ Hc) as [->|(od & Hod & Hnt)]; [done|].
    assert (od = oq) as -> by congruence. done.
  - rewrite Hhp. unfold c'. destruct b eqn:Hb; unfold b in Hb.
    + apply (local_mono _ (entry s p)); [auto| |done]. intros _. apply HE2. intros [= -> <-]. rewrite !bool_decide_eq_false_2 in Hb by tauto. done.
    + apply orb_false_iff in Hb as [H1%bool_decide_eq_false H2%bool_decide_eq_false].
      apply dec_stable in H1 as <-, H2 as <-.
      assert (Hg : entry s p (o_gen o)) by (unfold entry; eauto).
      destruct (o_running o) eqn:Er; [|destruct (id_not_running _ _ _ Hidle Er) as [[_ Hsp] _]; specialize (Hsp _ Hg); lia].
      destruct (id_running _ _ _ Hidle Er) as (H3 & Ht & H5 & H6 & H7 & Hth).
      destruct Hth as [(st & _ & _ & Hsp)|(Hgone & _ & Hle)]; [specialize (Hsp _ Hg); lia|].
      split; [|split; [auto|by left]]. split; [done|]. split; [done|]. split; [intros Hf; congruence|by left].
  - apply (slots_same _ _ _ _ o); [apply (v_slots s Hinv)|done..].
  - intros q Hq. destruct (decide (q = p)) as [->|Hn]; [right|by left]. split; [done|]. rewrite Hhp.
    destruct (v_dead s Hinv p Hq) as (o0 & Ho0 & H1 & H2 & H3). assert (o0 = o) as -> by congruence. split; [done|]. split; [done|].
    unfold c'. by destruct b.
  - intros d' g'. rewrite Hhp. intros Hx. by destruct (Hc' d' g').
Qed.

Lemma inv_death_claim s p g o p' o' : inv s -> (p, g) ∈ dying s -> objs s !! p = Some o -> sandboxes s !! o_id o = Some p' ->
  objs s !! p' = Some o' -> o_trans o' = TNone ->
  inv (goto p' (set_trans TStopping o') (XCheck p g) (set_dying (rm (p, g) (dying s)) s)).
Proof.
  intros Hinv Hin Ho Hid Ho' Hn. destruct (v_table s Hinv _ _ Hid) as (o0 & Ho0 & Hido & _). assert (o0 = o') as -> by congruence.
  assert (Htr : is_tracked s p' o') by (unfold is_tracked; by rewrite Hido).
  destruct (free_idle s p' o' Hinv Ho' Htr Hn) as [Hh Hidle]. set (s' := goto _ _ _ _).
  assert (Hhq : forall q, q <> p' -> holders s' !! q = holders s !! q) by (intros q Hq; simpl; by rewrite lookup_insert_ne).
  assert (Hhp : holders s' !! p' = Some (XCheck p g)) by (simpl; apply lookup_insert_eq).
  assert (HE : forall q g', entry s' q g' <-> entry s q g').
  { intros q g'. split.
    - intros [H|[H|[H|[p0 Hp0]]]]; unfold entry; [tauto|right; left; exact (rm_sub _ _ _ H)|tauto|].
      destruct (decide (p0 = p')) as [->|]; [rewrite Hhp in Hp0; injection Hp0 as <- <-; tauto|rewrite Hhq in Hp0 by done; eauto].
    - intros [H|[H|[H|[p0 Hp0]]]]; unfold entry; [tauto| |tauto|].
      + destruct (decide ((q, g') = (p, g))) as [[= -> ->]|Hne]; [eauto|]. right. left. exact (rm_keep _ _ _ H Hne).
      + assert (p0 <> p') by congruence. right. right. right. exists p0. by rewrite Hhq. }
  apply (fc_inv_update s s' p' o' (set_trans TStopping o')); try done.
  - by left.
  - intros q g' _. apply HE.
  - intros q g' oq _ _ _. apply HE.
  - rewrite Hhp. apply (local_ext (is_tracked s p' o') _ (entry s p')); [done|intros g'; by rewrite HE|]. split; [by apply idle_trans|done].
  - apply (slots_same _ _ _ _ o'); [apply (v_slots s Hinv)|done..].
  - intros q Hq. destruct (decide (q = p')) as [->|Hn']; [right|by left]. split; [done|]. rewrite Hhp.
    destruct (v_dead s Hinv p' Hq) as (o1 & Ho1 & H1 & H2 & H3). assert (o1 = o') as -> by congruence. done.
  - intros d' g'. rewrite Hhp. intros [= <- <-]. destruct (decide (p = p')) as [|Hne]; [by left|right]. exists o. split; [done|].
    unfold is_tracked. congruence.
Qed.

Lemma inv_create s s' id i p : inv s -> sandboxes s !! id = None -> id <> "" -> objs s !! p = None ->
  reserveSlotLocked id s = (Some i, s') ->
  inv (goto p (new_obj id i) PClone (set_sandboxes (<[id := p]> (sandboxes s')) s')).
Proof.
  intros Hinv Hid Hne Hp [Hi ->]%reserve_spec. set (s' := goto _ _ _ _).
  assert (Hnh : holders s !! p = None).
  { destruct (holders s !! p) eqn:E; [|done]. destruct (v_holder s Hinv _ _ E). congruence. }
  assert (Hhq : forall q, q <> p -> holders s' !! q = holders s !! q) by (intros q Hq; simpl; by rewrite lookup_insert_ne).
  assert (Hhp : holders s' !! p = Some PClone) by (simpl; apply lookup_insert_eq).
  assert (HE : forall q g', entry s' q g' <-> entry s q g') by (apply (entry_same s s' p); try done; [rewrite Hnh|rewrite Hhp]; done).
  assert (Htr : forall q oq, objs s !! q = Some oq -> is_tracked s' q oq <-> is_tracked s q oq).
  { intros q oq Hq. assert (q <> p) by congruence. unfold is_tracked. simpl. rewrite lookup_insert. case_decide; [|done]. subst. rewrite Hid. split; congruence. }
  assert (Hobj : forall q, q <> p -> objs s' !! q = objs s !! q) by (intros q Hq; simpl; by rewrite lookup_insert_ne).
  assert (Hobp : objs s' !! p = Some (new_obj id i)) by (simpl; apply lookup_insert_eq).
  pose proof Hinv as [V1 V2 V3 V4 V5 V6 V7]. split.
  - intros id' q. simpl. intros [[<- <-]|[Hn Hq]]%lookup_insert_Some; [exists (new_obj id i); by rewrite lookup_insert_eq|].
    destruct (V1 _ _ Hq) as (oq & Hoq & ? & ?). exists oq. rewrite lookup_insert_ne by congruence. done.
  - intros q c Hc. destruct (decide (q = p)) as [->|Hn]; [by rewrite Hobp|]. rewrite Hobj by done. rewrite Hhq in Hc by done. eauto.
  - intros q oq Hq. destruct (decide (q = p)) as [->|Hn].
    + rewrite Hobp in Hq. injection Hq as <-. rewrite Hhp.
      assert (is_tracked s' p (new_obj id i)) by (unfold is_tracked; simpl; apply lookup_insert_eq).
      split; [split; [done|split; [done|split; [done|split; [done|by eexists]]]]|]. split; [|done]. split; [done|].
      intros g Hg. apply HE in Hg. destruct (V7 _ _ Hg). congruence.
    + rewrite Hobj in Hq by done. rewrite Hhq by done. eapply local_ext; [| |exact (V3 q oq Hq)]; [symmetry; by apply Htr|intros g; by rewrite HE].
  - apply (slots_reserve _ _ _ _ (new_obj id i)); try done; [|intros q oq Hq| |].
    + destruct V4 as [S1 S2]. split.
      * intros q oq j Hq Ht Hj. apply (S1 q oq j Hq); [|done]. by apply (Htr q oq Hq).
      * intros j id' Hj Hne'. destruct (S2 j id' Hj Hne') as (q & oq & Ht & Hq & Hiq & Hsq). exists q, oq. split; [|done].
        simpl. rewrite lookup_insert_ne; [done|congruence].
    + intros Ht. apply (tracked_named s Hinv q oq Hq). by apply (Htr q oq Hq).
    + simpl. apply lookup_insert_eq.
    + simpl. intros oq Hq. congruence.
  - intros q Hq. destruct (V5 q Hq) as (oq & Hoq & ?). assert (q <> p) by congruence. rewrite Hobj, Hhq by done. eauto.
  - intros q died g Hq. assert (q <> p) by congruence. rewrite Hhq in Hq by done. destruct (V6 q died g Hq) as [->|(od & Hod & Hnt)]; [by left|right].
    exists od. rewrite Hobj by congruence. split; [done|]. by rewrite Htr.
  - intros q g Hq. apply HE in Hq. destruct (V7 q g Hq) as [oq Hoq]. rewrite Hobj by congruence. by eexists.
Qed.

Lemma inv_end s p o : inv s -> holders s !! p = Some PEnd -> objs s !! p = Some o -> inv (finish p (set_trans TNone o) s).
Proof.
  intros Hinv Hc Ho. pose proof (local_now s p o _ Hinv Hc Ho) as [Hidle Hcl].
  eapply inv_done; [eassumption..|nc|done|done| |done]. split.
  - intros _. split; [done|]. by apply idle_trans.
  - intros Hnt. assert (Hr : o_running o = false).
    { destruct (o_running o) eqn:Er; [|done]. destruct (id_running _ _ _ Hidle Er) as (_ & Ht & _). done. }
    split; [by apply (id_not_running _ _ _ Hidle)|done].
Qed.

Lemma inv_clone s r p o : inv s -> holders s !! p = Some PClone -> objs s !! p = Some o -> inv (advance r p o PClone s).
Proof.
  intros Hinv Hc Ho. pose proof (local_now s p o _ Hinv Hc Ho) as (Hb & Hn & Hp). cbn [advance].
  destruct r; (eapply inv_move; [eassumption..|nc|nc|done|done| |done]);
    [done|apply (local_failed _ _ _ KCreate); auto using none_any..].
Qed.

Lemma fc_inv_advance s r p o c : inv s -> holders s !! p = Some c -> objs s !! p = Some o -> inv (advance r p o c s).
Proof.
  intros Hinv Hc Ho. destruct c as [|k|k|k g|k|k|k|k cold|k|k|k|k|ct|ct had|ct| | | | | | | | | |cr|cr err|cr| |died g|];
    first [exact (inv_activate_early s r p o _ Hinv Hc Ho)|exact (inv_activate_late s r p o _ Hinv Hc Ho)
      |exact (inv_teardown s r p o _ Hinv Hc Ho)|exact (inv_stop s r p o _ Hinv Hc Ho)|exact (inv_wake s p o _ Hinv Hc Ho)
      |exact (inv_delete s r p o _ Hinv Hc Ho)|exact (inv_deleted s r p o Hinv Hc Ho)|exact (inv_check s r p o died g Hinv Hc Ho)
      |exact (inv_end s p o Hinv Hc Ho)|exact (inv_clone s r p o Hinv Hc Ho)|idtac].
  destruct cr; [exact (inv_delete_failed s r p o Hinv Hc Ho)|exact (inv_delete s r p o _ Hinv Hc Ho)].
Qed.

Lemma fc_inv_step s s' : inv s -> step s s' -> inv s'.
Proof.
  intros Hinv Hst. destruct Hst.
  - by eapply inv_create.
  - by eapply inv_claim.
  - by apply fc_inv_advance.
  - by apply inv_guest_exits.
  - by apply inv_record.
  - by eapply inv_death_claim.
  - by eapply inv_death_gone.
  - by apply inv_death_late.
  - by apply inv_step_untrack.
Qed.

Lemma fc_inv_initial n : inv (initial n).
Proof.
  assert (HE : forall p g, ~ entry (initial n) p g).
  { intros p g [H|[H|[H|[p' H]]]]; [by apply not_elem_of_nil in H..|]. simpl in H. by rewrite lookup_empty in H. }
  split; simpl; try (intros *; rewrite lookup_empty; done).
  - split; [intros p o i; by rewrite lookup_empty|]. intros i id [-> _]%lookup_replicate. done.
  - intros p H. by apply not_elem_of_nil in H.
  - intros p g H. by destruct (HE p g).
Qed.

Definition reachable (n : nat) (s : sys) : Prop := rtc step (initial n) s.

Lemma reachable_inv n s : reachable n s -> inv s.
Proof. apply (rtc_ind_r (fun s => inv s)); [apply fc_inv_initial|]. intros; by eapply fc_inv_step. Qed.

End FirecrackerInv.
