(* ===== verification/FirecrackerSafety.v ===== *)
(** * What the Firecracker lifecycle guarantees

    Every claimed operation ends; a snapshot is restored only while it describes the
    disk; slots belong to tracked sandboxes; a guest is always somebody's; a daemon
    URL leads to a live guest or to one whose death is being handled. *)

From S2P Require Import Prelude Firecracker FirecrackerInv.

Module FirecrackerSafety.
Import Firecracker FirecrackerInv.

(** ** An operation run to its end *)

(** The steps of [p]'s operation, one after the other, with what its host calls
    did. *)
Fixpoint drive (rs : list outcome) (p : nat) (s : sys) : sys :=
  match rs with
  | [] => s
  | r :: rs' =>
      match holders s !! p, objs s !! p with
      | Some c, Some o => drive rs' p (advance r p o c s)
      | _, _ => s
      end
  end.

Lemma drive_steps rs p s : rtc step s (drive rs p s).
Proof.
  revert s. induction rs as [|r rs IH]; intros s; simpl; [done|]. destruct (holders s !! p) as [c|] eqn:Ec; [|done].
  destruct (objs s !! p) as [o|] eqn:Eo; [|done]. eapply rtc_l; [|apply IH]. by apply step_advance.
Qed.

(** How many steps are left at most. *)
Definition rank (c : pc) : nat :=
  match c with
  | PEnd | DFail _ | DUntrack => 1
  | PStopped | DData _ _ => 2
  | PClean _ => 3
  | PKill _ _ => 4
  | PTear _ => 5
  | DMark _ | SResume | SUnpin | XCheck _ _ => 6
  | PFinish _ | SSnap => 7
  | PProbe _ | SPause => 8
  | PPubProxy _ | SDisk => 9
  | PProxy _ | SRead => 10
  | PLoad _ _ => 11
  | PGuest _ => 12
  | PSocket _ => 13
  | PPublish _ => 14
  | PStart _ _ => 15
  | PGen _ => 16
  | PJail _ => 17
  | PClone | WSlot => 18
  | WRead => 19
  end.

Definition ends_or_below (n : nat) (h : option pc) : Prop := match h with Some c => (rank c < n)%nat | None => True end.

Lemma goto_ends p o c n s : (rank c < n)%nat -> ends_or_below n (holders (goto p o c s) !! p).
Proof. intros Hr. simpl. rewrite lookup_insert_eq. exact Hr. Qed.

Lemma finish_ends p o n s : ends_or_below n (holders (finish p o s) !! p).
Proof. simpl. by rewrite lookup_delete_eq. Qed.

Lemma failed_rank k : (rank (failed k) < 7)%nat.
Proof. destruct k; simpl; lia. Qed.

Lemma advance_ends r p o c s : ends_or_below (rank c) (holders (advance r p o c s) !! p).
Proof.
  destruct c as [|k|k|k g|k|k|k|k cold|k|k|k|k|ct|ct had|ct| | | | | | | | | |cr|cr err|cr| |died g|];
    cbn [advance activate teardown stop wake delete_op]; try unfold handleGuestDeath; try (destruct k as [|]); unfold guest_call, ok_or;
    repeat (case_match; try (apply goto_ends; simpl; lia); try apply finish_ends); try (apply goto_ends; simpl; lia); try apply finish_ends.
Qed.

(** Nobody else moves [p]'s operation. *)
Lemma advance_other r p q o c s : q <> p -> holders (advance r q o c s) !! p = holders s !! p.
Proof.
  intros Hn. assert (HG : forall o' c' s', holders (goto q o' c' s') !! p = holders s' !! p) by (intros; simpl; by apply lookup_insert_ne).
  assert (HF : forall o' s', holders (finish q o' s') !! p = holders s' !! p) by (intros; simpl; by apply lookup_delete_ne).
  assert (HX : forall o' s', holders (guest_exits q o' s') = holders s') by (intros; unfold guest_exits; by destruct (o_guest o') as [[]|]).
  assert (HR : forall o' s', holders (release_owned o' s') = holders s') by (intros; by rewrite release_eq).
  assert (HU : forall o' s', holders (untrackSandbox q o' s') = holders s') by (intros; unfold untrackSandbox; case_match; [by rewrite HR|done]).
  assert (HS : forall id s' i s'', reserveSlotLocked id s' = (i, s'') -> holders s'' = holders s') by (intros *; unfold reserveSlotLocked; case_match; by intros [= <- <-]).
  destruct c as [|k|k|k g|k|k|k|k cold|k|k|k|k|ct|ct had|ct| | | | | | | | | |cr|cr err|cr| |died g|];
    cbn [advance activate teardown stop wake delete_op]; try unfold handleGuestDeath; cbv zeta; rewrite ?HF, ?HG, ?HR, ?HU; try done;
    repeat (case_match; rewrite ?HF, ?HG, ?HX, ?HR, ?HU; try done); try (simpl; by rewrite lookup_delete_ne); by erewrite HS.
Qed.

Lemma step_keeps s s' p c : inv s -> holders s !! p = Some c -> step s s' ->
  holders s' !! p = Some c \/ exists r o, objs s !! p = Some o /\ s' = advance r p o c s.
Proof.
  intros Hinv Hc Hst. assert (Hbusy : forall q o, objs s !! q = Some o -> is_tracked s q o -> o_trans o = TNone -> q <> p).
  { intros q o Ho Ht Hn ->. destruct (free_idle s p o Hinv Ho Ht Hn). congruence. }
  destruct Hst as [s s' id i q Hid Hne Hq [_ ->]%reserve_spec|s x id q o Hid Ho Hn|s r q o c' Hc' Ho|s q o Ho Hg|s q g o Hin Ho
    |s q g o q' o' Hin Ho Hid Ho' Hn|s q g o Hin Ho _|s q g Hin|s q o rest Hu Ho].
  - left. simpl. rewrite lookup_insert_ne; [done|]. destruct (v_holder s Hinv _ _ Hc). congruence.
  - left. simpl. rewrite lookup_insert_ne; [done|]. destruct (v_table s Hinv _ _ Hid) as (o0 & Ho0 & Hido & _).
    assert (o0 = o) as -> by congruence. apply (Hbusy q o Ho); [|done]. unfold is_tracked. by rewrite Hido.
  - destruct (decide (q = p)) as [->|Hn]; [right|left; by rewrite advance_other]. assert (c' = c) as -> by congruence. eauto.
  - left. unfold guest_exits. by destruct (o_guest o) as [[]|].
  - left. unfold recordGuestDeath. by case_decide.
  - left. simpl. rewrite lookup_insert_ne; [done|]. destruct (v_table s Hinv _ _ Hid) as (o0 & Ho0 & Hido & _).
    assert (o0 = o') as -> by congruence. apply (Hbusy q' o' Ho'); [|done]. unfold is_tracked. by rewrite Hido.
  - by left.
  - by left.
  - left. unfold untrackSandbox. case_match; [|done]. by rewrite release_eq.
Qed.

Lemma drive_ends rs : forall p s, inv s -> (match holders s !! p with Some c => rank c | None => 0 end <= length rs)%nat -> holders (drive rs p s) !! p = None.
Proof.
  induction rs as [|r rs IH]; intros p s Hinv Hlen; simpl in *; (destruct (holders s !! p) as [c|] eqn:Ec; [|try done]).
  - destruct c; simpl in Hlen; lia.
  - destruct (v_holder s Hinv _ _ Ec) as [o Ho]. rewrite Ho. apply IH; [by apply fc_inv_advance|].
    pose proof (advance_ends r p o c s) as He. unfold ends_or_below in He. case_match; lia.
Qed.

Lemma inv_steps s s' : inv s -> rtc step s s' -> inv s'.
Proof. intros Hinv. apply (rtc_ind_r (fun s => inv s)); [done|]. intros; by eapply fc_inv_step. Qed.

(** C28: the claim on a sandbox is always given back.  Whatever its host calls do, an
    operation (create, stop, wake, delete, or the handling of a death) ends within
    19 of its own steps, the sandbox is then free to be claimed or no longer
    tracked, and no step of anything else moves or ends the operation. *)
Theorem claim_always_released n s p c :
  reachable n s -> holders s !! p = Some c ->
  (forall rs, (19 <= length rs)%nat ->
     holders (drive rs p s) !! p = None /\
     forall o, objs (drive rs p s) !! p = Some o -> sandboxes (drive rs p s) !! o_id o = Some p -> o_trans o = TNone) /\
  (forall s', step s s' -> holders s' !! p = Some c \/ exists r o, objs s !! p = Some o /\ s' = advance r p o c s).
Proof.
  intros Hr%reachable_inv Hc. split; [|intros s' Hst; by eapply step_keeps]. intros rs Hlen.
  assert (Hend : holders (drive rs p s) !! p = None).
  { apply drive_ends; [done|]. rewrite Hc. destruct c; simpl; lia. }
  split; [done|]. intros o Ho Ht. pose proof (inv_steps _ _ Hr (drive_steps rs p s)) as Hi.
  pose proof (v_local _ Hi p o Ho) as Hl. rewrite Hend in Hl. by apply Hl.
Qed.

(** C2: a snapshot is only ever restored while it describes the disk: an activation
    that is about to load one (it did not choose a cold boot) has a snapshot taken
    after the guest last ran.  The same holds of every stopped sandbox that is not
    pinned to a cold boot. *)
Theorem no_stale_restore n s p o :
  reachable n s -> objs s !! p = Some o ->
  (forall k, holders s !! p = Some (PLoad k false) -> o_fresh o = true) /\
  (sandboxes s !! o_id o = Some p -> o_trans o = TNone -> o_stopped o = true -> o_cold o = false -> o_fresh o = true).
Proof.
  intros Hr%reachable_inv Ho. split.
  - intros k Hc. pose proof (local_now s p o _ Hr Hc Ho) as (_ & _ & _ & _ & Hf). auto.
  - intros Ht Hn Hs Hcold. destruct (free_idle s p o Hr Ho Ht Hn) as [_ Hidle]. destruct (id_stopped _ _ _ Hidle Hs) as (_ & _ & Hres). auto.
Qed.

(** Network slots belong to the tracked sandboxes.  A taken slot names a tracked
    sandbox that has recorded it, so no two share one; a sandbox that is running
    between operations holds a slot and a stopped one holds none. *)
Theorem slots_exclusive n s :
  reachable n s ->
  (forall i id, slots s !! i = Some id -> id <> "" -> exists p o, sandboxes s !! id = Some p /\ objs s !! p = Some o /\ o_id o = id /\ o_slot o = Some i) /\
  (forall i j id, slots s !! i = Some id -> slots s !! j = Some id -> id <> "" -> i = j) /\
  (forall id p o, sandboxes s !! id = Some p -> objs s !! p = Some o -> o_trans o = TNone ->
     (o_running o = true -> exists i, o_slot o = Some i /\ slots s !! i = Some id) /\
     (o_stopped o = true -> id ∉ slots s)).
Proof.
  intros Hr%reachable_inv. destruct (v_slots s Hr) as [H1 H2]. split; [exact H2|]. split.
  - intros i j id Hi Hj Hne. destruct (H2 i id Hi Hne) as (p & o & Ht & Ho & _ & Hs). destruct (H2 j id Hj Hne) as (p' & o' & Ht' & Ho' & _ & Hs').
    congruence.
  - intros id p o Ht Ho Hn. destruct (v_table s Hr _ _ Ht) as (o0 & Ho0 & Hid & Hne). assert (o0 = o) as -> by congruence. subst id.
    destruct (free_idle s p o Hr Ho Ht Hn) as [_ Hidle]. split.
    + intros Hrun. destruct (id_running _ _ _ Hidle Hrun) as (_ & _ & [i Hi] & _). exists i. split; [done|]. by eapply H1.
    + intros Hst (i & Hi)%list_elem_of_lookup. destruct (id_stopped _ _ _ Hidle Hst) as (_ & Hnone & _).
      destruct (H2 i _ Hi Hne) as (q & oq & Hq & Hoq & _ & Hsq). congruence.
Qed.

(** A daemon URL leads to a running guest.  Where [DaemonURL] hands one out, its
    slot is the sandbox's own, and the guest of the current generation is live, or
    has died and the notice of that very death is on its way or was given up on. *)
Theorem daemon_url_live n s id sl :
  reachable n s -> DaemonURL id s = inr sl ->
  exists p o i, sandboxes s !! id = Some p /\ objs s !! p = Some o /\ sl = Some i /\ slots s !! i = Some id /\
    (o_guest o = Some (o_gen o, Live) \/ (o_guest o = None /\ entry s p (o_gen o))).
Proof.
  intros Hr%reachable_inv. unfold DaemonURL. destruct (sandboxes s !! id) as [p|] eqn:Ht; simpl; [|done].
  destruct (v_table s Hr _ _ Ht) as (o & Ho & Hid & Hne). rewrite Ho. subst id. case_decide; [done|]. case_decide as Hx; [done|].
  intros [= <-]. assert (Hn : o_trans o = TNone) by (destruct (decide (o_trans o = TNone)); [done|tauto]).
  destruct (free_idle s p o Hr Ho Ht Hn) as [_ Hidle]. assert (Hrun : o_running o = true) by (destruct (o_running o); [done|tauto]).
  destruct (id_running _ _ _ Hidle Hrun) as (_ & _ & [i Hi] & _ & _ & Hth). exists p, o, i. destruct (v_slots s Hr) as [H1 _].
  split; [done|]. split; [done|]. split; [done|]. split; [by eapply H1|]. destruct Hth as [(st & <- & Hg & _)|(Hg & He & _)]; auto.
Qed.

(** C3: no guest is lost.  A microVM that runs belongs to a sandbox some operation
    has claimed, or to a tracked sandbox that is running, holds a slot, has the
    handle of the process, and cannot be restored from its snapshot. *)
Theorem no_orphan_guest n s p o :
  reachable n s -> objs s !! p = Some o -> o_guest o <> None ->
  is_Some (holders s !! p) \/
  (sandboxes s !! o_id o = Some p /\ o_running o = true /\ o_stopped o = false /\ is_Some (o_slot o) /\ o_proc o = true /\ o_cold o = true).
Proof.
  intros Hr%reachable_inv Ho Hg. pose proof (v_local s Hr p o Ho) as Hl. destruct (holders s !! p) as [c|]; [by left|right].
  destruct Hl as [H1 H2]. destruct (decide (is_tracked s p o)) as [Ht|Ht]; [|by destruct (H2 Ht) as [[Hn _] _]].
  destruct (H1 Ht) as [_ Hidle]. destruct (o_running o) eqn:Er.
  - destruct (id_running _ _ _ Hidle Er) as (? & ? & ? & ? & ? & ?). done.
  - destruct (id_not_running _ _ _ Hidle Er) as [[Hn _] _]. done.
Qed.

(** ** A sandbox is created, stopped and woken *)

Definition demo_created : sys :=
  goto 0 (new_obj "a" 0) PClone (set_sandboxes (<["a" := 0%nat]> ∅) (set_slots ["a"] (initial 1))).
Definition demo_claim (x : op) (s : sys) : sys :=
  match objs s !! 0%nat with Some o => goto 0 (set_trans (op_trans x) o) (op_start x) s | None => s end.
Definition demo_running : sys := drive (replicate 13 Ok) 0 demo_created.
Definition demo_stopped : sys := drive (replicate 12 Ok) 0 (demo_claim Stop demo_running).
Definition demo_waking : sys := drive (replicate 8 Ok) 0 (demo_claim Wake demo_stopped).

Lemma demo_created_reachable : reachable 1 demo_created.
Proof. apply rtc_once. by apply (step_create (initial 1) (set_slots ["a"] (initial 1)) "a" 0 0). Qed.

Lemma demo_claim_step x s o : objs s !! 0%nat = Some o -> sandboxes s !! "a" = Some 0%nat -> o_trans o = TNone ->
  rtc step s (demo_claim x s).
Proof. intros Ho Ht Hn. unfold demo_claim. rewrite Ho. apply rtc_once. by eapply step_claim. Qed.

Lemma demo_running_reachable : reachable 1 demo_running.
Proof. unfold reachable. etrans; [apply demo_created_reachable|apply drive_steps]. Qed.

Lemma demo_stopped_reachable : reachable 1 demo_stopped.
Proof.
  unfold reachable. etrans; [apply demo_running_reachable|]. etrans; [|apply drive_steps].
  eapply demo_claim_step; vm_compute; reflexivity.
Qed.

Lemma demo_waking_reachable : reachable 1 demo_waking.
Proof.
  unfold reachable. etrans; [apply demo_stopped_reachable|]. etrans; [|apply drive_steps].
  eapply demo_claim_step; vm_compute; reflexivity.
Qed.

Lemma claim_always_released_witness : holders (drive (replicate 19 Fail) 0 demo_created) !! 0%nat = None.
Proof.
  apply (claim_always_released 1 demo_created 0 PClone); [exact demo_created_reachable|vm_compute; reflexivity|simpl; lia].
Defined.

Lemma no_stale_restore_witness : exists o, objs demo_waking !! 0%nat = Some o /\ o_fresh o = true.
Proof.
  eexists. split; [vm_compute; reflexivity|].
  refine (proj1 (no_stale_restore 1 demo_waking 0 _ demo_waking_reachable _) KWake _); vm_compute; reflexivity.
Defined.

Lemma slots_exclusive_witness : slots demo_running = ["a"] /\ "a" ∉ slots demo_stopped.
Proof.
  split; [vm_compute; reflexivity|].
  eapply (proj2 (proj2 (slots_exclusive 1 demo_stopped demo_stopped_reachable)) "a" 0%nat); vm_compute; reflexivity.
Defined.

Lemma daemon_url_live_witness : DaemonURL "a" demo_running = inr (Some 0%nat) /\ slots demo_running !! 0%nat = Some "a".
Proof.
  split; [vm_compute; reflexivity|].
  destruct (daemon_url_live 1 demo_running "a" (Some 0%nat) demo_running_reachable) as (p & o & i & _ & _ & [= <-] & Hs & _); [vm_compute; reflexivity|exact Hs].
Defined.

Lemma no_orphan_guest_witness : exists o, objs demo_running !! 0%nat = Some o /\ o_guest o = Some (0%nat, Live) /\ o_running o = true.
Proof.
  eexists. split; [vm_compute; reflexivity|]. split; [reflexivity|].
  edestruct (no_orphan_guest 1 demo_running 0) as [Hh|H]; [exact demo_running_reachable|vm_compute; reflexivity|discriminate|vm_compute in Hh; by destruct Hh|apply H].
Defined.

End FirecrackerSafety.
