(* ===== verification/Registration.v ===== *)
(** * Runners register with the API ([internal/api/grpc/runner_server.go],
    [internal/runner/register], [internal/runner/cordon],
    [internal/api/handlers_runners.go])

    The heartbeat streams of the runners, as the API serves them over its registry;
    the runner's side of a stream and how a cordon travels over it; and the admin's
    cordon request, over the runners it may reach. *)

From S2P Require Import Prelude GoStrings Ids Quota World Store Registry RunnerCtl Auth.

Module Registration.
Import GoStrings Registry RunnerCtl.

(** ** The API's side of a stream *)

Definition lower (c : ascii) : ascii :=
  let n := Ascii.N_of_ascii c in if ((65 <=? n) && (n <=? 90))%N then byte (n + 32)%N else c.

(** [strings.HasPrefix(strings.ToLower(v), strings.ToLower(p))] for an ASCII [p], and
    what follows it in [v]. *)
Definition after_prefix_fold (p v : list ascii) : option (list ascii) :=
  if decide (lower <$> take (length p) v = lower <$> p) then Some (drop (length p) v) else None.

(** [vals]: the call's authorization metadata.  The first bearer value decides. *)
Fixpoint bearer_matches (vals : list string) (token : string) : bool :=
  match vals with
  | [] => false
  | v :: vals' =>
      match after_prefix_fold (chars "Bearer ") (chars (TrimSpace v)) with
      | Some got => bool_decide (TrimSpace (of_chars got) = token)
      | None => bearer_matches vals' token
      end
  end.

Definition validateBearer (vals : list string) (token : string) : bool :=
  if decide (token = "") then false else bearer_matches vals token.

(** [url.Parse]: scheme and host. *)
Class URLs := { url_parse : string -> option (string * string) }.

Section api.
Context {U : URLs}.

Definition ToLower (s : string) : string := of_chars (lower <$> chars s).

Definition IsValidRunnerHTTPBaseURL (s : string) : bool :=
  match url_parse s with
  | None => false
  | Some (scheme, host) =>
      bool_decide (ToLower scheme = "https") && bool_decide (host <> "") && HasPrefix (ToLower s) (ToLower scheme +:+ "://")
  end.

(** What [Connect] remembers of its stream. *)
Record stream := mkStream { committedRunnerID : string; committedHTTPBase : string; committedControlGRPC : string }.

Definition new_stream : stream := mkStream "" "" "".

Inductive conn_error := ErrIDChanged | ErrHTTPBase | ErrControlAddr.

(** One heartbeat: the error that ends the stream, or its new state; and the id the
    stream is bound to, which its end removes. *)
Definition on_heartbeat (hb : heartbeat) (now : Z) (st : stream) (r : MemoryRegistry) : string * (conn_error + stream) * MemoryRegistry :=
  let id := TrimSpace (h_id hb) in
  if decide (committedRunnerID st = "" /\ id = "") then ("", inr st, r)
  else if decide (committedRunnerID st <> "" /\ id <> "" /\ id <> committedRunnerID st) then (committedRunnerID st, inl ErrIDChanged, r)
  else
    let cid := if decide (committedRunnerID st = "") then id else committedRunnerID st in
    let base := TrimRight (h_base hb) (byte 47) in
    let base := if decide (base = "") then committedHTTPBase st else base in
    if bool_decide (base = "") || negb (IsValidRunnerHTTPBaseURL base) then (cid, inl ErrHTTPBase, r)
    else
      let addr := TrimSpace (h_addr hb) in
      let addr := if decide (addr = "") then committedControlGRPC st else addr in
      if decide (addr = "") then (cid, inl ErrControlAddr, r)
      else (cid, inr (mkStream cid base addr),
            Upsert (mkHeartbeat cid base addr (h_healthy hb) (h_cordoned hb) (h_total hb) (h_used hb) (h_stopped hb)) now r).

(** The deferred function of [Connect]. *)
Definition disconnect (id : string) (now : Z) (r : MemoryRegistry) : MemoryRegistry :=
  if decide (id <> "") then Remove id now r else r.

(** The streams a pod serves, and its registry. *)
Record pod := mkPod { streams : gmap nat stream; reg : MemoryRegistry }.

(** A heartbeat that arrives on stream [k]; [acked] is whether the ack is sent. *)
Definition receive (k : nat) (st : stream) (hb : heartbeat) (acked : bool) (now : Z) (p : pod) : pod :=
  let '(id, o, r) := on_heartbeat hb now st (reg p) in
  match o with
  | inl _ => mkPod (delete k (streams p)) (disconnect id now r)
  | inr st' =>
      if acked then mkPod (<[k := st']> (streams p)) r
      else mkPod (delete k (streams p)) (disconnect (committedRunnerID st') now r)
  end.

Inductive pod_step (token : string) : pod -> pod -> Prop :=
| pod_connect p k vals : streams p !! k = None -> validateBearer vals token = true ->
    pod_step token p (mkPod (<[k := new_stream]> (streams p)) (reg p))
| pod_rejected p vals : validateBearer vals token = false -> pod_step token p p
| pod_receive p k st hb acked now : streams p !! k = Some st -> pod_step token p (receive k st hb acked now p)
(* the stream ends, or Recv fails *)
| pod_end p k st now : streams p !! k = Some st ->
    pod_step token p (mkPod (delete k (streams p)) (disconnect (committedRunnerID st) now (reg p))).

Definition pod_init (grace : Z) : pod := mkPod ∅ (NewMemory grace).
End api.

(** ** The runner's side *)

Record capacity := mkCapacity { c_used : Z; c_total : Z; c_stopped : Z }.
Record identity := mkRunnerIdentity { i_id : string; i_base : string; i_addr : string; i_total : Z }.

(** [send] of [connectOnce]: [cap] and [ready] are what the runtime answered. *)
Definition make_heartbeat (i : identity) (cap : option capacity) (ready cordoned : bool) : heartbeat :=
  let c := default (mkCapacity 0 (i_total i) 0) cap in
  mkHeartbeat (i_id i) (i_base i) (i_addr i) ready cordoned (c_total c) (c_used c) (c_stopped c).

(** [Run]: the wait before the next attempt, in nanoseconds. *)
Definition first_backoff : Z := Second.
Definition max_backoff : Z := 30 * Second.
Definition next_backoff (b : Z) : Z :=
  if decide (b < max_backoff) then if decide (b * 2 > max_backoff) then max_backoff else b * 2 else b.

(** Where [connectOnce] is: not connected; about to read the cordon for a heartbeat;
    about to send it; waiting for a tick or a change. *)
Inductive loop := LOff | LRead | LEmit (cordoned : bool) | LWait.

(** [<-cd.Changed()] *)
Definition take_changed {RT} (s : runner RT) : runner RT := mkRunnerState (rn_runtime s) (rn_cordoned s) false (rn_keys s) (rn_id s).

(** A runner and the API pod it registers with: the runner, its loop, the stream it
    has open and the heartbeats under way on it, and the pod with all its streams and
    its registry.  [lk_mine] (ghost): the pod has taken a heartbeat from the stream,
    and no other stream that carries the runner's id did anything since. *)
Record link (RT : Type) := mkLink {
  lk_runner : runner RT; lk_loop : loop; lk_stream : option nat; lk_wire : list heartbeat; lk_pod : pod; lk_mine : bool }.
#[global] Arguments mkLink {RT}.
#[global] Arguments lk_runner {RT}.
#[global] Arguments lk_loop {RT}.
#[global] Arguments lk_stream {RT}.
#[global] Arguments lk_wire {RT}.
#[global] Arguments lk_pod {RT}.
#[global] Arguments lk_mine {RT}.

Section link.
Context {U : URLs} {RT : Type} (token : string) (i : identity).

(** The id a stream acts for when it takes the heartbeat. *)
Definition acts_for (st : stream) (hb : heartbeat) : string :=
  if decide (committedRunnerID st = "") then TrimSpace (h_id hb) else committedRunnerID st.

(** [untouched carried b]: [b], unless the id carried is the runner's. *)
Definition untouched (carried : string) (b : bool) : bool := b && negb (bool_decide (carried = TrimSpace (i_id i))).

Inductive link_step : link RT -> link RT -> Prop :=
| link_set l c : link_step l (mkLink (cordon_Set c (lk_runner l)).2 (lk_loop l) (lk_stream l) (lk_wire l) (lk_pod l) (lk_mine l))
| link_connect l k vals : lk_loop l = LOff -> streams (lk_pod l) !! k = None -> validateBearer vals token = true ->
    link_step l (mkLink (lk_runner l) LRead (Some k) [] (mkPod (<[k := new_stream]> (streams (lk_pod l))) (reg (lk_pod l))) false)
| link_read l : lk_loop l = LRead ->
    link_step l (mkLink (lk_runner l) (LEmit (rn_cordoned (lk_runner l))) (lk_stream l) (lk_wire l) (lk_pod l) (lk_mine l))
| link_emit l c cap ready : lk_loop l = LEmit c ->
    link_step l (mkLink (lk_runner l) LWait (lk_stream l) (lk_wire l ++ [make_heartbeat i cap ready c]) (lk_pod l) (lk_mine l))
(* the ticker, or the runtime that became ready *)
| link_tick l : lk_loop l = LWait -> link_step l (mkLink (lk_runner l) LRead (lk_stream l) (lk_wire l) (lk_pod l) (lk_mine l))
| link_changed l : lk_loop l = LWait -> rn_changed (lk_runner l) = true ->
    link_step l (mkLink (take_changed (lk_runner l)) LRead (lk_stream l) (lk_wire l) (lk_pod l) (lk_mine l))
(* the runner's end breaks, or is given up; the pod has not seen it yet *)
| link_drop l : link_step l (mkLink (lk_runner l) LOff None [] (lk_pod l) false)
(* the pod takes a heartbeat from the runner's stream, or sees the stream end *)
| link_recv l k st hb rest acked now : lk_stream l = Some k -> streams (lk_pod l) !! k = Some st -> lk_wire l = hb :: rest ->
    link_step l (mkLink (lk_runner l) (lk_loop l) (lk_stream l) rest (receive k st hb acked now (lk_pod l)) acked)
| link_end l k st now : lk_stream l = Some k -> streams (lk_pod l) !! k = Some st ->
    link_step l (mkLink (lk_runner l) (lk_loop l) (lk_stream l) (lk_wire l)
      (mkPod (delete k (streams (lk_pod l))) (disconnect (committedRunnerID st) now (reg (lk_pod l)))) false)
(* every other stream: of other runners, and of this one's earlier connections *)
| link_other_connect l k vals : lk_stream l <> Some k -> streams (lk_pod l) !! k = None -> validateBearer vals token = true ->
    link_step l (mkLink (lk_runner l) (lk_loop l) (lk_stream l) (lk_wire l)
      (mkPod (<[k := new_stream]> (streams (lk_pod l))) (reg (lk_pod l))) (lk_mine l))
| link_other_recv l k st hb acked now : lk_stream l <> Some k -> streams (lk_pod l) !! k = Some st ->
    link_step l (mkLink (lk_runner l) (lk_loop l) (lk_stream l) (lk_wire l) (receive k st hb acked now (lk_pod l))
      (untouched (acts_for st hb) (lk_mine l)))
| link_other_end l k st now : lk_stream l <> Some k -> streams (lk_pod l) !! k = Some st ->
    link_step l (mkLink (lk_runner l) (lk_loop l) (lk_stream l) (lk_wire l)
      (mkPod (delete k (streams (lk_pod l))) (disconnect (committedRunnerID st) now (reg (lk_pod l))))
      (untouched (committedRunnerID st) (lk_mine l))).

Definition link_init (grace : Z) (s : runner RT) : link RT := mkLink s LOff None [] (pod_init grace) false.
End link.

(** ** The admin's cordon request *)

(** What happened to a call on its way: delivered and answered; not delivered;
    delivered, and the answer lost. *)
Inductive delivery := Delivered | Undelivered (e : rpc_error) | ReplyLost (e : rpc_error).

Class CordonEnv := { deliver : nat -> string -> delivery; registered : nat -> string -> option Runner; clock : nat -> Z }.

(** The runners by control address, and the number of interactions so far. *)
Record fleet (RT : Type) := mkFleet { fl_tick : nat; fl_runners : gmap string (runner RT) }.
#[global] Arguments mkFleet {RT}.
#[global] Arguments fl_tick {RT}.
#[global] Arguments fl_runners {RT}.

(** [status.Code(err)] *)
Definition status_code (e : rpc_error) : Z := match e with StatusError c _ _ => c | PlainError _ => codes_Unknown end.

Section admin.
Context {RT : Type} {CE : CordonEnv} (graceNs : Z) (apiKey : string).
#[local] Open Scope act_scope.

Definition next {R} : act (fleet RT) R nat :=
  let! f := get in
  do! modify (fun f => mkFleet (S (fl_tick f)) (fl_runners f)) in
  ret (fl_tick f).

(** [runnerctl.SetCordon]: the call reaches whoever has the address now. *)
Definition ctl_SetCordon {R} (addr id : string) (cordoned : bool) : act (fleet RT) R (rpc_error + bool) :=
  let! n := next in
  let! f := get in
  match deliver n addr, fl_runners f !! addr with
  | Undelivered e, _ => ret (inl e)
  | _, None => ret (inl (StatusError codes_Unavailable [] "connection refused"))
  | d, Some s =>
      let '(o, s') := SetCordon (Some [apiKey]) id cordoned s in
      do! modify (fun f => mkFleet (fl_tick f) (<[addr := s']> (fl_runners f))) in
      ret (match d with ReplyLost e => inl e | _ => o end)
  end.

Definition handleSetRunnerCordon (auth : option Auth.authIdentity) (id : string) (cordoned : bool) :
    act (fleet RT) Auth.response (string * bool) :=
  do! Auth.requireAdminOrScaler auth in
  let! n := next in
  match registered n id with
  | None => exit (Auth.writeError 404 "runner not found")
  | Some run =>
      let! m := next in
      if decide (time_sub (clock m) (r_LastSeen run) > graceNs) then exit (Auth.writeError 503 "runner unavailable") else
      let! o := ctl_SetCordon (r_ControlGRPCAddr run) id cordoned in
      match o with
      | inl e =>
          if decide (status_code e = codes_Unavailable \/ status_code e = codes_DeadlineExceeded)
          then exit (Auth.writeError 503 "runner unavailable")
          else if decide (status_code e = codes_FailedPrecondition)
          then exit (Auth.writeError 409 "another runner now has this runner's address")
          else exit (Auth.writeError 502 "runner did not apply the cordon")
      | inr got => ret (id, got)
      end
  end.
End admin.

(** ** Who is registered *)

Section registered.
Context {U : URLs} (token : string).

(** A registry entry comes from a heartbeat of the stream bound to its id. *)
Definition entry_ok (ss : gmap nat stream) (id : string) (run : Runner) : Prop :=
  (exists k st, ss !! k = Some st /\ committedRunnerID st = id) /\ r_ID run = id /\ id <> "" /\
  exists base addr, IsValidRunnerHTTPBaseURL base = true /\ addr <> "" /\
    r_HTTPBaseURL run = TrimRight base (byte 47) /\ r_ControlGRPCAddr run = TrimSpace addr.

Record pod_ok (p : pod) : Prop := {
  po_entries id run : runners (reg p) !! id = Some run -> entry_ok (streams p) id run;
  po_token : token = "" -> streams p = ∅;
}.

Lemma entry_ok_ext ss ss' id run : (forall k st, ss !! k = Some st -> committedRunnerID st = id -> exists k' st', ss' !! k' = Some st' /\ committedRunnerID st' = id) ->
  entry_ok ss id run -> entry_ok ss' id run.
Proof. intros H ((k & st & Hk & Hid) & Hrest). split; [|done]. eauto. Qed.

(** A stream that ends takes its id with it. *)
Lemma pod_close p k st id now r : pod_ok (mkPod (streams p) r) -> streams p !! k = Some st ->
  (committedRunnerID st <> "" -> id = committedRunnerID st) ->
  pod_ok (mkPod (delete k (streams p)) (disconnect id now r)).
Proof.
  intros [H1 H2] Hk Hid. simpl in *. split; [|intros Ht; by rewrite (H2 Ht), lookup_empty in Hk]. simpl. intros id' run Hrun.
  assert (Hr : runners r !! id' = Some run /\ (id <> "" -> id' <> id)).
  { unfold disconnect, Remove in Hrun. destruct (decide (id <> "")) as [Hne|]; [|done]. destruct (decide (id = "")); [done|].
    simpl in Hrun. by apply lookup_delete_Some in Hrun as [Hn Hr]. }
  destruct Hr as [Hr Hne]. pose proof (H1 id' run Hr) as Hok. eapply entry_ok_ext; [|exact Hok]. intros k' st' Hk' Hid'.
  exists k', st'. split; [|done]. rewrite lookup_delete_ne; [done|]. intros <-. assert (st' = st) as -> by congruence.
  destruct Hok as (_ & _ & Hnz & _). rewrite <- Hid' in *. specialize (Hid Hnz). subst id. by apply Hne.
Qed.

(** What a heartbeat does to the registry and to its stream. *)
Lemma on_heartbeat_spec hb now st r id o r' : on_heartbeat hb now st r = (id, o, r') ->
  (committedRunnerID st <> "" -> id = committedRunnerID st) /\
  match o with
  | inl _ => r' = r
  | inr st' => (r' = r /\ st' = st) \/
      (committedRunnerID st' = id /\ id <> "" /\ exists h, h_id h = id /\ IsValidRunnerHTTPBaseURL (h_base h) = true /\ h_addr h <> "" /\ r' = Upsert h now r)
  end.
Proof.
  unfold on_heartbeat. cbv zeta. case_decide as H1; [intros [= <- <- <-]; naive_solver|].
  case_decide as H2; [intros [= <- <- <-]; naive_solver|].
  set (cid := if decide (committedRunnerID st = "") then _ else _).
  assert (Hcid : (committedRunnerID st <> "" -> cid = committedRunnerID st) /\ cid <> "").
  { unfold cid. case_decide; split; naive_solver. }
  set (base := if decide (TrimRight _ _ = "") then _ else _). set (addr := if decide (TrimSpace (h_addr hb) = "") then _ else _).
  destruct (bool_decide (base = "") || _) eqn:Hb; [intros [= <- <- <-]; naive_solver|].
  destruct (decide (addr = "")) as [H3|H3]; [intros [= <- <- <-]; naive_solver|].
  apply orb_false_iff in Hb as [_ Hv%negb_false_iff]. intros [= <- <- <-]. split; [apply Hcid|]. right.
  split; [done|]. split; [apply Hcid|]. eexists (mkHeartbeat cid base addr _ _ _ _ _). split; [done|]. split; [exact Hv|]. split; [exact H3|]. reflexivity.
Qed.

Lemma pod_upsert p k st h now : pod_ok p -> token <> "" -> committedRunnerID st = h_id h -> h_id h <> "" ->
  (forall st0, streams p !! k = Some st0 -> committedRunnerID st0 <> "" -> committedRunnerID st0 = h_id h) ->
  IsValidRunnerHTTPBaseURL (h_base h) = true -> h_addr h <> "" ->
  pod_ok (mkPod (<[k := st]> (streams p)) (Upsert h now (reg p))).
Proof.
  intros [H1 H2] Ht Hst Hne Hold Hv Ha. split; [|done]. simpl. intros id run. unfold Upsert. destruct (_ || _) eqn:Hb; simpl.
  - intros Hrun. pose proof (H1 id run Hrun) as Hok. eapply entry_ok_ext; [|exact Hok]. intros k' st' Hk' Hid'.
    destruct (decide (k' = k)) as [->|Hn]; [|exists k', st'; by rewrite lookup_insert_ne].
    exists k, st. rewrite lookup_insert_eq. split; [done|]. destruct Hok as (_ & _ & Hnz & _). rewrite Hst. rewrite <- Hid' in *. symmetry. by apply (Hold st').
  - intros [[<- <-]|[Hn Hrun]]%lookup_insert_Some.
    + split; [exists k, st; by rewrite lookup_insert_eq|]. split; [done|]. split; [done|]. exists (h_base h), (h_addr h). done.
    + pose proof (H1 id run Hrun) as Hok. eapply entry_ok_ext; [|exact Hok]. intros k' st' Hk' Hid'.
      destruct (decide (k' = k)) as [->|Hn']; [|exists k', st'; by rewrite lookup_insert_ne].
      exfalso. destruct Hok as (_ & _ & Hnz & _). apply Hn. rewrite <- Hid'. symmetry. apply (Hold st'); [done|congruence].
Qed.

Lemma pod_ok_step p p' : pod_ok p -> pod_step token p p' -> pod_ok p'.
Proof.
  intros Hp Hst. destruct Hst as [p k vals Hk Hv|p vals Hv|p k st hb acked now Hk|p k st now Hk]; [|done| |].
  - destruct Hp as [H1 H2]. split; simpl.
    + intros id run Hrun. eapply entry_ok_ext; [|by apply H1]. intros k' st' Hk' Hid. exists k', st'. rewrite lookup_insert_ne; [done|congruence].
    + intros ->. unfold validateBearer in Hv. by rewrite decide_True in Hv.
  - unfold receive. destruct (on_heartbeat hb now st (reg p)) as [[id o] r'] eqn:E. apply on_heartbeat_spec in E as [Hid Ho].
    destruct o as [e|st']; [subst r'; by apply (pod_close p k st id now (reg p)); [destruct p|..]|].
    destruct Ho as [[-> ->]|(Hc & Hne & h & Hh & Hv & Ha & ->)].
    + destruct acked; [by rewrite insert_id by done; destruct p|by apply (pod_close p k st); [destruct p|..]].
    + assert (Ht : token <> "") by (intros Ht; by rewrite (po_token p Hp Ht), lookup_empty in Hk).
      assert (Hup : pod_ok (mkPod (<[k := st']> (streams p)) (Upsert h now (reg p)))).
      { apply pod_upsert; try congruence. intros st0 Hst0 Hn0. assert (st0 = st) as -> by congruence. rewrite Hh. symmetry. by apply Hid. }
      destruct acked; [done|]. pose proof (pod_close (mkPod (<[k := st']> (streams p)) (reg p)) k st' (committedRunnerID st') now _ Hup (lookup_insert_eq _ _ _) ltac:(done)) as Hcl.
      simpl in Hcl. by rewrite delete_insert_eq in Hcl.
  - apply (pod_close p k st); [by destruct p|done|done].
Qed.

(** C33: the API lists a runner only while a stream that authenticated with the
    registration token is open for it: every entry has an open stream bound to its
    id, an https base URL that passed the check and a control address; a stream that
    ends, however it ends, takes its entry with it; and without a token configured
    nobody registers. *)
Theorem registered_means_connected grace p :
  rtc (pod_step token) (pod_init grace) p ->
  (forall id run, Get id (reg p) = Some run -> entry_ok (streams p) id run) /\ (token = "" -> runners (reg p) = ∅).
Proof.
  intros Hr. assert (Hp : pod_ok p).
  { revert Hr. apply (rtc_ind_r (fun p => pod_ok p)); [|intros; by eapply pod_ok_step].
    split; simpl; [|done]. intros id run. by rewrite lookup_empty. }
  split; [apply (po_entries p Hp)|]. intros Ht. apply map_eq. intros id. rewrite lookup_empty. destruct (runners (reg p) !! id) as [run|] eqn:E; [|done].
  destruct (po_entries p Hp id run E) as ((k & st & Hk & _) & _). by rewrite (po_token p Hp Ht), lookup_empty in Hk.
Qed.
End registered.

(** ** A cordon travels *)

Section cordon.
Context {U : URLs} {RT : Type} (token : string) (i : identity).

#[local] Notation id := (TrimSpace (i_id i)).

(** What the API accepts in a heartbeat; [loaded_runner_registers] has it of a loaded
    configuration. *)
Definition acceptable : Prop :=
  id <> "" /\ IsValidRunnerHTTPBaseURL (TrimRight (i_base i) (byte 47)) = true /\ TrimSpace (i_addr i) <> "".

Definition own_heartbeat (hb : heartbeat) : Prop := exists cap ready c, hb = make_heartbeat i cap ready c.

(** The registry lists the runner with the cordon [c]. *)
Definition listed (p : pod) (c : bool) : Prop := exists run, Get id (reg p) = Some run /\ r_Cordoned run = c.

Lemma valid_nonempty base : IsValidRunnerHTTPBaseURL base = true -> base <> "".
Proof.
  intros Hv ->. unfold IsValidRunnerHTTPBaseURL in Hv. destruct (url_parse "") as [[scheme host]|]; [|done].
  rewrite !andb_true_iff, bool_decide_eq_true in Hv. destruct Hv as [[Hs _] Hp]. rewrite Hs in Hp. discriminate Hp.
Qed.

(** The API takes every heartbeat of the runner's stream. *)
Lemma own_heartbeat_accepted hb now st r : acceptable -> own_heartbeat hb -> committedRunnerID st = "" \/ committedRunnerID st = id ->
  exists st' h, on_heartbeat hb now st r = (id, inr st', Upsert h now r) /\ committedRunnerID st' = id /\
    h_id h = id /\ h_base h <> "" /\ h_cordoned h = h_cordoned hb.
Proof.
  intros (Hid & Hv & Ha) (cap & ready & c & ->) Hst. pose proof (valid_nonempty _ Hv) as Hb.
  unfold on_heartbeat. cbn [h_id h_base h_addr make_heartbeat]. cbv zeta.
  rewrite decide_False by naive_solver. rewrite decide_False by naive_solver.
  assert (Hc : (if decide (committedRunnerID st = "") then id else committedRunnerID st) = id) by (case_decide; naive_solver).
  rewrite Hc. rewrite (decide_False (P := TrimRight _ _ = "")) by done. rewrite bool_decide_false, Hv by done. cbn [orb negb].
  rewrite (decide_False (P := TrimSpace _ = "")) by done. rewrite decide_False by done.
  do 2 eexists. split; [reflexivity|]. done.
Qed.

Lemma upsert_other h now r x : h_id h <> x -> runners (Upsert h now r) !! x = runners r !! x.
Proof. intros Hne. unfold Upsert. destruct (_ || _); [done|]. simpl. by rewrite lookup_insert_ne. Qed.

Lemma upsert_listed h now r : h_id h <> "" -> h_base h <> "" -> runners (Upsert h now r) !! h_id h = Some (runner_of h now).
Proof. intros H1 H2. unfold Upsert. rewrite !bool_decide_false by done. simpl. apply lookup_insert_eq. Qed.

Lemma disconnect_other x y now r : x <> y -> runners (disconnect x now r) !! y = runners r !! y.
Proof. intros Hne. unfold disconnect, Remove. repeat case_decide; try done. simpl. by rewrite lookup_delete_ne. Qed.

(** A stream that carries another id leaves the runner's entry and stream alone. *)
Lemma receive_other k st hb acked now p x : acts_for st hb <> x -> x <> "" ->
  runners (reg (receive k st hb acked now p)) !! x = runners (reg p) !! x.
Proof.
  intros Hne Hx. unfold receive. destruct (on_heartbeat hb now st (reg p)) as [[y o] r'] eqn:E.
  assert (Hy : y <> x /\ runners r' !! x = runners (reg p) !! x /\ forall st', o = inr st' -> committedRunnerID st' <> x).
  { revert E. unfold on_heartbeat. cbv zeta. unfold acts_for in Hne.
    destruct (decide (committedRunnerID st = "" /\ _)) as [[Hc _]|H1].
    { intros [= <- <- <-]. split; [done|]. split; [done|]. intros ? [= <-]. by rewrite Hc. }
    destruct (decide (committedRunnerID st <> "" /\ _)) as [[Hc _]|H2].
    { rewrite decide_False in Hne by done. by intros [= <- <- <-]. }
    destruct (_ || _); [by intros [= <- <- <-]|]. destruct (decide (_ = "")) in |- *; [by intros [= <- <- <-]|].
    intros [= <- <- <-]. split; [done|]. split; [by apply upsert_other|]. by intros ? [= <-]. }
  destruct Hy as (Hy & Hr & Hst). destruct o as [e|st']; [|destruct acked]; simpl; rewrite ?disconnect_other; auto.
Qed.

Lemma receive_streams k st hb acked now p k' : k' <> k -> streams (receive k st hb acked now p) !! k' = streams p !! k'.
Proof.
  intros Hne. unfold receive. destruct (on_heartbeat _ _ _ _) as [[y o] r']. destruct o as [e|st']; [|destruct acked]; simpl;
    by rewrite ?lookup_delete_ne, ?lookup_insert_ne by done.
Qed.

(** ** The invariant *)

Section invariant.
Context (Hacc : acceptable).

(** [seen]: the cordon of the last heartbeat of the stream the pod took. *)
Record stream_ok (l : link RT) (seen : option bool) : Prop := {
  so_wire : Forall own_heartbeat (lk_wire l);
  so_bound k st : lk_stream l = Some k -> streams (lk_pod l) !! k = Some st -> committedRunnerID st = "" \/ committedRunnerID st = id;
  so_off : lk_loop l = LOff <-> lk_stream l = None;
  so_idle : lk_loop l = LOff -> lk_wire l = [];
  so_mine : lk_mine l = true -> exists c, seen = Some c /\ listed (lk_pod l) c;
}.

(** The newest cordon the stream carries: in flight, or taken. *)
Definition newest (l : link RT) (seen : option bool) : option bool := last (option_list seen ++ (h_cordoned <$> lk_wire l)).

Definition loop_ok (l : link RT) (seen : option bool) : Prop :=
  let c := rn_cordoned (lk_runner l) in let pending := rn_changed (lk_runner l) = true in
  match lk_loop l with
  | LOff | LRead => True
  | LEmit v => pending \/ v = c
  | LWait => pending \/ newest l seen = Some c
  end.

Definition link_ok (l : link RT) : Prop := exists seen, stream_ok l seen /\ loop_ok l seen.

Lemma newest_take hb rest seen : last (option_list (Some (h_cordoned hb)) ++ (h_cordoned <$> rest)) = last (option_list seen ++ (h_cordoned <$> hb :: rest)).
Proof. destruct seen as [x|]; simpl; [|done]. by destruct rest. Qed.

Lemma link_recv_ok l k st hb rest acked now : link_ok l -> lk_stream l = Some k -> streams (lk_pod l) !! k = Some st -> lk_wire l = hb :: rest ->
  link_ok (mkLink (lk_runner l) (lk_loop l) (lk_stream l) rest (receive k st hb acked now (lk_pod l)) acked).
Proof.
  intros (seen & [S1 S2 S3 S4 S5] & Hl) Hk Hst Hw. rewrite Hw in S1. apply Forall_cons in S1 as [Hhb S1].
  destruct (own_heartbeat_accepted hb now st (reg (lk_pod l)) Hacc Hhb (S2 _ _ Hk Hst)) as (st' & h & Eh & Hc & H1 & H2 & H3).
  exists (Some (h_cordoned hb)). unfold receive. rewrite Eh. split; [split; simpl; try done|].
  - intros k' st0 Hk'. assert (k' = k) as -> by congruence. destruct acked; simpl; [|by rewrite lookup_delete_eq].
    rewrite lookup_insert_eq. intros [= <-]. by right.
  - intros Hoff. specialize (S4 Hoff). congruence.
  - intros ->. exists (h_cordoned hb). split; [done|]. exists (runner_of h now). split; [|done].
    unfold Get. simpl. rewrite <- H1. apply upsert_listed; [by rewrite H1; apply Hacc|done].
  - unfold loop_ok, newest in *. cbn [lk_loop lk_wire lk_runner]. rewrite Hw in Hl. destruct (lk_loop l); try done. by rewrite (newest_take hb rest seen).
Qed.

Lemma link_ok_step l l' : link_ok l -> link_step token i l l' -> link_ok l'.
Proof.
  intros Hok Hst. destruct Hst as [l c|l k vals H1 H2 H3|l H|l c cap ready H|l H|l H Hc|l|l k st hb rest acked now H1 H2 H3|l k st now H1 H2
    |l k vals H1 H2 H3|l k st hb acked now H1 H2|l k st now H1 H2]; [..|by eapply link_recv_ok| | | |];
    destruct Hok as (seen & [S1 S2 S3 S4 S5] & Hl); unfold loop_ok in Hl.
  - exists seen. split; [by split|]. unfold loop_ok, cordon_Set, newest in *. case_decide as Hc; simpl; [done|]. destruct (lk_loop l); naive_solver.
  - exists None. split; [|done]. split; simpl; try done. intros k' st [= <-]. rewrite lookup_insert_eq. intros [= <-]. by left.
  - exists seen. rewrite H in *. split; [split; simpl; try done; naive_solver|]. by right.
  - exists seen. rewrite H in *. split; [split; simpl; try done; [|naive_solver]|].
    + apply Forall_app. split; [done|]. apply Forall_singleton. by exists cap, ready, c.
    + unfold loop_ok, newest. simpl. rewrite fmap_app, app_assoc. simpl. rewrite last_snoc. naive_solver.
  - exists seen. rewrite H in *. split; [split; simpl; try done; naive_solver|done].
  - exists seen. rewrite H in *. split; [split; simpl; try done; naive_solver|done].
  - exists None. split; [|done]. split; simpl; done.
  - exists seen. split; [|done]. split; simpl; try done. intros k' st' Hk'. assert (k' = k) as -> by congruence. by rewrite lookup_delete_eq.
  - exists seen. split; [|done]. split; simpl; try done. intros k' st' Hk'. rewrite lookup_insert_ne by congruence. by apply S2.
  - exists seen. split; [|done]. split; simpl; try done.
    + intros k' st' Hk'. rewrite receive_streams by congruence. by apply S2.
    + unfold untouched. intros [Hm Hne%negb_true_iff%bool_decide_eq_false]%andb_true_iff. destruct (S5 Hm) as (c & Hc & run & Hr & Hrc).
      exists c. split; [done|]. exists run. split; [|done]. unfold Get in *. rewrite receive_other; [done|done|apply Hacc].
  - exists seen. split; [|done]. split; simpl; try done.
    + intros k' st' Hk'. rewrite lookup_delete_ne by congruence. by apply S2.
    + unfold untouched. intros [Hm Hne%negb_true_iff%bool_decide_eq_false]%andb_true_iff. destruct (S5 Hm) as (c & Hc & run & Hr & Hrc).
      exists c. split; [done|]. exists run. split; [|done]. exact (eq_trans (disconnect_other _ _ now (reg (lk_pod l)) Hne) Hr).
Qed.

Lemma link_ok_reachable grace s l : rtc (link_step token i) (link_init grace s) l -> link_ok l.
Proof.
  apply (rtc_ind_r (fun l => link_ok l)); [|intros; by eapply link_ok_step].
  exists None. split; [|done]. split; simpl; done.
Qed.

(** What is listed once everything sent was taken. *)
Lemma settled_listed l : link_ok l -> lk_loop l = LWait -> rn_changed (lk_runner l) = false -> lk_wire l = [] -> lk_mine l = true ->
  listed (lk_pod l) (rn_cordoned (lk_runner l)).
Proof.
  intros (seen & [S1 S2 S3 S4 S5] & Hl) Hw Hc He Hm. unfold loop_ok, newest in Hl. rewrite Hw, He, Hc in Hl.
  destruct (S5 Hm) as (c & -> & Hls). destruct Hl as [[=]|Hl]. simpl in Hl. by injection Hl as <-.
Qed.

(** The pod takes what is under way on an open stream, and acknowledges it. *)
Lemma link_drain l k st : link_ok l -> lk_stream l = Some k -> streams (lk_pod l) !! k = Some st -> lk_wire l <> [] ->
  exists l', rtc (link_step token i) l l' /\ lk_runner l' = lk_runner l /\ lk_loop l' = lk_loop l /\ lk_stream l' = Some k /\ lk_wire l' = [] /\ lk_mine l' = true.
Proof.
  remember (lk_wire l) as w eqn:Hw. revert l st Hw. induction w as [|hb w IH]; intros l st Hw Hok Hk Hst Hne; [done|].
  pose proof (link_recv token i l k st hb w true 0 Hk Hst (eq_sym Hw)) as Hstep. pose proof (link_ok_step _ _ Hok Hstep) as Hok'.
  destruct w as [|hb' w]; [by eexists; split; [by apply rtc_once|]|].
  assert (Hopen : exists st', streams (receive k st hb true 0 (lk_pod l)) !! k = Some st').
  { destruct Hok as (seen & [S1 S2 _ _ _] & _). rewrite <- Hw in S1. apply Forall_cons in S1 as [Hhb _].
    destruct (own_heartbeat_accepted hb 0 st (reg (lk_pod l)) Hacc Hhb (S2 _ _ Hk Hst)) as (st' & h & Eh & _).
    exists st'. unfold receive. rewrite Eh. apply lookup_insert_eq. }
  destruct Hopen as [st' Hst']. edestruct (IH (mkLink _ _ _ _ _ _) st' eq_refl Hok' Hk Hst') as (l' & H1 & H2); [done|].
  exists l'. split; [|exact H2]. by eapply rtc_l.
Qed.
End invariant.

(** C18: a cordon reaches the registry of the API pod the runner is connected to, for a
    runner whose id, base URL and address the API accepts.  However it is set and unset
    while heartbeats are under way and other streams come and go, a runner whose loop
    waits with no change pending and nothing in flight is listed with the cordon it has,
    if the pod took a heartbeat of its stream and no other stream that carries its id
    did anything since (the late end of an earlier connection unlists the runner).
    From any state in which its stream is open it can get there by its own heartbeats
    alone, on the same stream.  And the waits between reconnects stay between one
    second and thirty. *)
Theorem cordon_reaches_registry grace (s : runner RT) (l : link RT) :
  acceptable -> rn_changed s = false -> rtc (link_step token i) (link_init grace s) l ->
  (lk_loop l = LWait -> rn_changed (lk_runner l) = false -> lk_wire l = [] -> lk_mine l = true ->
     listed (lk_pod l) (rn_cordoned (lk_runner l))) /\
  (forall k st, lk_loop l = LWait -> lk_stream l = Some k -> streams (lk_pod l) !! k = Some st ->
     exists l', rtc (link_step token i) l l' /\ lk_loop l' = LWait /\ lk_stream l' = Some k /\
       rn_cordoned (lk_runner l') = rn_cordoned (lk_runner l) /\ listed (lk_pod l') (rn_cordoned (lk_runner l))) /\
  (forall n, Second <= Nat.iter n next_backoff first_backoff <= 30 * Second).
Proof.
  intros Hacc Hs Hr. pose proof (link_ok_reachable Hacc grace s l Hr) as Hok. split; [by apply settled_listed|]. split.
  - intros k st Hw Hk Hst. destruct l as [r lp sm w p m]. simpl in *. subst lp sm.
    set (r' := if rn_changed r then take_changed r else r). set (w' := w ++ [make_heartbeat i None true (rn_cordoned r)]).
    assert (H1 : rtc (link_step token i) (mkLink r LWait (Some k) w p m) (mkLink r' LWait (Some k) w' p m)).
    { eapply (rtc_l _ _ (mkLink r' LRead (Some k) w p m)).
      - unfold r'. destruct (rn_changed r) eqn:E; [by apply (link_changed token i (mkLink r LWait (Some k) w p m))|].
        by apply (link_tick token i (mkLink r LWait (Some k) w p m)).
      - eapply rtc_l; [by apply link_read|]. simpl. replace (rn_cordoned r') with (rn_cordoned r) by (unfold r'; by destruct (rn_changed r)).
        apply rtc_once. by apply (link_emit token i (mkLink r' (LEmit (rn_cordoned r)) (Some k) w p m) (rn_cordoned r) None true). }
    assert (Hr1 : rtc (link_step token i) (link_init grace s) (mkLink r' LWait (Some k) w' p m)) by (by etrans).
    pose proof (link_ok_reachable Hacc grace s _ Hr1) as Hok1.
    destruct (link_drain Hacc _ k st Hok1 eq_refl Hst) as (l' & H2 & E1 & E2 & E3 & E4 & E5); [by destruct w|].
    exists l'. simpl in E1, E2. split; [by etrans|]. split; [done|]. split; [done|].
    assert (Hc : rn_cordoned (lk_runner l') = rn_cordoned r) by (rewrite E1; unfold r'; by destruct (rn_changed r)).
    split; [done|]. rewrite <- Hc. apply settled_listed; try done; [apply (link_ok_reachable Hacc grace s); by etrans|].
    rewrite E1. unfold r'. by destruct (rn_changed r) eqn:E.
  - assert (Hb : forall b, Second <= b <= 30 * Second -> Second <= next_backoff b <= 30 * Second).
    { intros b. unfold next_backoff, max_backoff, Second. repeat case_decide; lia. }
    induction n as [|n IH]; simpl; [unfold first_backoff, Second; lia|]. by apply Hb.
Qed.
End cordon.

(** ** A cordon request lands where it should *)

Section landing.
Context {RT : Type} {CE : CordonEnv} (graceNs : Z) (apiKey : string).

(** Every runner keeps its place and its id, and only the one named changes. *)
Definition only_named (id : string) (f f' : fleet RT) : Prop :=
  forall addr s, fl_runners f !! addr = Some s ->
    exists s', fl_runners f' !! addr = Some s' /\ rn_id s' = rn_id s /\ rn_runtime s' = rn_runtime s /\ (rn_id s <> id -> s' = s).

Lemma only_named_refl id f n : only_named id f (mkFleet n (fl_runners f)).
Proof. intros addr s Hs. exists s. done. Qed.

Lemma SetCordon_wp id c (s : runner RT) : id <> "" ->
  let '(o, s') := SetCordon (Some [apiKey]) id c s in
  rn_id s' = rn_id s /\ rn_runtime s' = rn_runtime s /\ (rn_id s <> id -> s' = s) /\
  (forall got, o = inr got -> got = c /\ rn_cordoned s' = c /\ rn_id s' = id).
Proof.
  intros Hne.
  apply (wp_mono (SetCordon (Some [apiKey]) id c) (fun o s' => rn_id s' = rn_id s /\ rn_runtime s' = rn_runtime s /\ (rn_id s <> id -> s' = s) /\
    (forall got, o = inr got -> got = c /\ rn_cordoned s' = c /\ rn_id s' = id)) _ s); [|done].
  unfold SetCordon. apply wp_bind. apply checkAPIKey_wp; [|naive_solver]. repeat (wp_step; cbn beta iota).
  destruct (decide (id <> "" /\ id <> rn_id s)) as [Hd|Hd]; [apply wp_exit; naive_solver|].
  assert (rn_id s = id) by (destruct (decide (id = rn_id s)); naive_solver).
  repeat (wp_step; cbn beta iota). unfold cordon_Set. case_decide; simpl; naive_solver.
Qed.

Definition has_cordon (id : string) (c : bool) (f : fleet RT) : Prop :=
  exists addr s, fl_runners f !! addr = Some s /\ rn_id s = id /\ rn_cordoned s = c.

Lemma ctl_wp {R} addr id c (f f0 : fleet RT) : id <> "" -> fl_runners f = fl_runners f0 ->
  wp (ctl_SetCordon (R := R) apiKey addr id c)
    (fun o f' => match o with inl _ => False | inr x => only_named id f0 f' /\ forall got, x = inr got -> got = c /\ has_cordon id c f' end) f.
Proof.
  intros Hne Hf. unfold ctl_SetCordon, next. repeat (wp_step; cbn beta iota).
  match goal with |- wp _ _ ?x => set (f1 := x) end. assert (Hf1 : fl_runners f1 = fl_runners f0) by (by rewrite <- Hf).
  assert (Hstay : only_named id f0 f1) by (intros a s; rewrite Hf1; eauto).
  assert (Hgo : forall (d : delivery) s, fl_runners f1 !! addr = Some s ->
    wp (R := R) (A := rpc_error + bool) (let '(o, s') := SetCordon (Some [apiKey]) id c s in
        bind (modify (fun f => mkFleet (fl_tick f) (<[addr := s']> (fl_runners f)))) (fun _ => ret match d with ReplyLost e => inl e | _ => o end))
      (fun o f' => match o with inl _ => False : Prop | inr x => only_named id f0 f' /\ forall got, x = inr got -> got = c /\ has_cordon id c f' end) f1).
  { intros d s Hs. pose proof (SetCordon_wp id c s Hne) as Hset. destruct (SetCordon (Some [apiKey]) id c s) as [o s'].
    destruct Hset as (S1 & S2 & S3 & S4). repeat (wp_step; cbn beta iota). split.
    - intros a s0 Ha. simpl. rewrite <- Hf1 in Ha. destruct (decide (a = addr)) as [->|Hn]; [|exists s0; by rewrite lookup_insert_ne].
      assert (s0 = s) as -> by congruence. exists s'. by rewrite lookup_insert_eq.
    - intros got Hgot. assert (o = inr got) as -> by (by destruct d). destruct (S4 got eq_refl) as (-> & H1 & H2). split; [done|].
      exists addr, s'. simpl. by rewrite lookup_insert_eq. }
  destruct (deliver _ addr) as [|e|e] eqn:Ed; [|by wp_step|];
    (destruct (fl_runners f1 !! addr) as [s|] eqn:Es; [|by wp_step]); [by apply (Hgo Delivered)|by apply (Hgo (ReplyLost e))].
Qed.

(** A cordon lands on the runner it names.  A 200 to an admin's or a scaler's
    request means that the runner that answered has that very id and that cordon
    now, even if another runner has taken the address the registry knew; on every
    path no other runner changes, and a caller of another role changes nothing. *)
Theorem cordon_lands_on_named auth id c (f : fleet RT) :
  id <> "" ->
  let '(o, f') := handleSetRunnerCordon graceNs apiKey auth id c f in
  only_named id f f' /\
  (forall i got, o = inr (i, got) -> i = id /\ got = c /\ has_cordon id c f') /\
  ((forall a, auth = Some a -> Auth.Role a <> Auth.roleAdmin /\ Auth.Role a <> Auth.roleScaler) -> fl_runners f' = fl_runners f).
Proof.
  intros Hne. set (P := forall a, auth = Some a -> Auth.Role a <> Auth.roleAdmin /\ Auth.Role a <> Auth.roleScaler).
  set (Q := fun (o : Auth.response + string * bool) f' => only_named id f f' /\ (forall i got, o = inr (i, got) -> i = id /\ got = c /\ has_cordon id c f') /\
    (P -> fl_runners f' = fl_runners f)).
  change (wp (handleSetRunnerCordon graceNs apiKey auth id c) Q f).
  assert (Hsame : forall r n, Q (inl r) (mkFleet n (fl_runners f))) by (intros r n; split; [apply only_named_refl|done]).
  assert (Hf : forall r, Q (inl r) f) by (intros r; specialize (Hsame r (fl_tick f)); by destruct f).
  unfold handleSetRunnerCordon, Auth.requireAdminOrScaler. apply wp_bind. destruct auth as [a|]; [|apply wp_exit, Hf].
  case_decide as Hrole; [|apply wp_exit, Hf]. assert (HP : ~ P) by (intros H; destruct (H a eq_refl); naive_solver).
  apply wp_ret. cbn beta iota. unfold next at 1 2.
  repeat (wp_step; cbn beta iota). destruct (registered (fl_tick f) id) as [run|]; [|apply wp_exit, Hsame].
  repeat (wp_step; cbn beta iota). destruct (decide (time_sub _ _ > _)); [apply wp_exit, Hsame|].
  apply wp_bind. eapply wp_mono; [by apply (ctl_wp _ _ _ _ f)|]. intros [r|[e|got]] f' H; [done| |].
  - destruct H as [Ho _]. assert (Hbad : forall r, Q (inl r) f') by (intros r; split; [done|]; split; [done|]; by intros ?%HP).
    repeat case_decide; apply wp_exit, Hbad.
  - destruct H as [Ho Hg]. apply wp_ret. split; [done|]. split; [|by intros ?%HP]. intros i got' [= <- <-]. by destruct (Hg got eq_refl).
Qed.
End landing.

(** ** Runs *)

#[local] Instance toy_urls : URLs := { url_parse s := if decide (s = "https://r1") then Some ("https", "r1") else None }.

Definition hb1 : heartbeat := mkHeartbeat "r1" "https://r1/" " r1:9090" true false 8 0 0.
Definition one_stream : pod := receive 0 new_stream hb1 true 5 (mkPod {[0%nat := new_stream]} (NewMemory 0)).
Definition two_streams : pod :=
  receive 1 new_stream hb1 true 6 (mkPod (<[1%nat := new_stream]> (streams one_stream)) (reg one_stream)).

Lemma one_stream_reachable : rtc (pod_step "secret") (pod_init 0) one_stream.
Proof.
  eapply rtc_l; [apply (pod_connect "secret" (pod_init 0) 0 ["bearer secret"]); [done|vm_compute; reflexivity]|].
  apply rtc_once. exact (pod_receive "secret" (mkPod {[0%nat := new_stream]} (NewMemory 0)) 0 new_stream hb1 true 5 eq_refl).
Qed.

Lemma registered_means_connected_witness :
  exists run, Get "r1" (reg one_stream) = Some run /\ entry_ok (streams one_stream) "r1" run.
Proof.
  eexists. split; [vm_compute; reflexivity|].
  apply (registered_means_connected "secret" 0 one_stream one_stream_reachable). vm_compute. reflexivity.
Defined.

(** A runner that reconnects before its old stream is seen to end is dropped from the
    registry when it does end, although its new stream is open; its next heartbeat
    puts it back. *)
Lemma old_stream_unregisters_new :
  rtc (pod_step "secret") (pod_init 0) two_streams /\
  let p := mkPod (delete 0%nat (streams two_streams)) (disconnect "r1" 7 (reg two_streams)) in
  pod_step "secret" two_streams p /\ (committedRunnerID <$> streams p !! 1%nat) = Some "r1" /\ Get "r1" (reg p) = None /\
  is_Some (Get "r1" (reg (receive 1 (mkStream "r1" "https://r1" "r1:9090") hb1 true 8 p))).
Proof.
  split.
  - etrans; [apply one_stream_reachable|].
    eapply rtc_l; [apply (pod_connect "secret" one_stream 1 ["bearer secret"]); vm_compute; reflexivity|].
    apply rtc_once. apply (pod_receive "secret" (mkPod (<[1%nat := new_stream]> (streams one_stream)) (reg one_stream)) 1 new_stream hb1 true 6).
    vm_compute. reflexivity.
  - cbv zeta. split; [|split; [vm_compute; reflexivity|split; [vm_compute; reflexivity|vm_compute; by eexists]]].
    apply (pod_end "secret" two_streams 0 (mkStream "r1" "https://r1" "r1:9090") 7). vm_compute. reflexivity.
Qed.

Definition toy_runner : runner unit := mkRunnerState tt false false {["key"]} "r1".

Definition toy_identity : identity := mkRunnerIdentity "r1" "https://r1/" "r1:9090" 8.

(** The runner is connected, its first heartbeat under way, when it is cordoned. *)
Definition toy_link (s : runner unit) : link unit :=
  mkLink s LWait (Some 0%nat) [make_heartbeat toy_identity None true false] (mkPod {[0%nat := new_stream]} (NewMemory 0)) false.

Lemma cordon_reaches_registry_witness :
  exists l', rtc (link_step "secret" toy_identity) (toy_link (cordon_Set true toy_runner).2) l' /\ listed toy_identity (lk_pod l') true.
Proof.
  destruct (cordon_reaches_registry "secret" toy_identity 0 toy_runner (toy_link (cordon_Set true toy_runner).2)) as (_ & H & _).
  - split; [vm_compute; discriminate|]. split; [vm_compute; reflexivity|vm_compute; discriminate].
  - reflexivity.
  - eapply rtc_l; [apply (link_connect _ _ (link_init 0 toy_runner) 0 ["bearer secret"]); vm_compute; reflexivity|].
    eapply rtc_l; [by apply link_read|]. eapply rtc_l; [by apply (link_emit _ _ _ false None true)|].
    apply rtc_once. apply (link_set _ _ (toy_link toy_runner) true).
  - destruct (H 0%nat new_stream eq_refl eq_refl eq_refl) as (l' & H1 & _ & _ & _ & H2). exists l'. split; [exact H1|exact H2].
Defined.

#[local] Instance toy_cordon : CordonEnv := {
  deliver _ _ := Delivered;
  registered _ _ := Some (mkRunner "r1" "https://r1" "r1:9090" true false 8 0 0 0);
  clock _ := 0;
}.

Definition toy_fleet : fleet unit := mkFleet 0 {["r1:9090" := toy_runner]}.
Definition admin : option Auth.authIdentity := Some (Auth.mkIdentity Auth.roleAdmin "").

Lemma cordon_lands_on_named_witness :
  (handleSetRunnerCordon 45 "key" admin "r1" true toy_fleet).1 = inr ("r1", true) /\
  has_cordon "r1" true (handleSetRunnerCordon 45 "key" admin "r1" true toy_fleet).2.
Proof.
  split; [vm_compute; reflexivity|].
  pose proof (cordon_lands_on_named 45 "key" admin "r1" true toy_fleet ltac:(discriminate)) as H.
  destruct (handleSetRunnerCordon 45 "key" admin "r1" true toy_fleet) as [o f'] eqn:E.
  destruct H as (_ & H & _). apply (H "r1" true).
  replace o with (handleSetRunnerCordon 45 "key" admin "r1" true toy_fleet).1 by (by rewrite E). vm_compute. reflexivity.
Defined.

End Registration.
