(* ===== verification/Netfilter.v ===== *)
(** * What packet filter rules mean

    Rules as the argument lists both runtimes hand to iptables, and how they judge
    a packet: the vocabulary in which the egress policies are stated.  Addresses are
    32-bit numbers. *)

From S2P Require Import Prelude GoStrings.

Module Netfilter.
Import GoStrings.

Definition rule := list string.

(** ** Addresses *)

Definition digit (c : ascii) : option Z :=
  let n := Z.of_N (Ascii.N_of_ascii c) in if decide (48 <= n <= 57) then Some (n - 48) else None.

(** A decimal number up to [stop] or the end, and what follows. *)
Fixpoint number (acc : Z) (l : list ascii) : Z * list ascii :=
  match l with
  | c :: l' => match digit c with Some d => number (acc * 10 + d) l' | None => (acc, l) end
  | [] => (acc, [])
  end.

Definition skip (c : ascii) (l : list ascii) : list ascii :=
  match l with x :: l' => if decide (x = c) then l' else l | [] => [] end.

(** "a.b.c.d/len" as address and prefix length; without a length it is 32. *)
Definition parse_cidr (s : string) : Z * Z :=
  let dot := byte 46 in
  let '(a, l) := number 0 (chars s) in
  let '(b, l) := number 0 (skip dot l) in
  let '(c, l) := number 0 (skip dot l) in
  let '(d, l) := number 0 (skip dot l) in
  (((a * 256 + b) * 256 + c) * 256 + d, match l with [] => 32 | _ => (number 0 (skip (byte 47) l)).1 end).

Definition in_cidr (s : string) (ip : Z) : bool :=
  let '(base, len) := parse_cidr s in bool_decide (Z.shiftr ip (32 - len) = Z.shiftr base (32 - len)).

(** ** Packets and rules *)

Record packet := mkPacket {
  pk_in : string;       (* the interface it came in by *)
  pk_out : string;      (* the interface it would leave by *)
  pk_src : Z;
  pk_dst : Z;
  pk_tcp : bool;
  pk_dport : string;
  pk_established : bool; (* conntrack: ESTABLISHED or RELATED *)
}.

(** Whether a rule matches, and its target: the matches used, in any order. *)
Fixpoint judge (r : rule) (p : packet) : bool * string :=
  match r with
  | "-j" :: t :: _ => (true, t)
  | "-i" :: x :: r' => let '(b, t) := judge r' p in (bool_decide (pk_in p = x) && b, t)
  | "!" :: "-i" :: x :: r' => let '(b, t) := judge r' p in (bool_decide (pk_in p <> x) && b, t)
  | "-o" :: x :: r' => let '(b, t) := judge r' p in (bool_decide (pk_out p = x) && b, t)
  | "-d" :: x :: r' => let '(b, t) := judge r' p in (in_cidr x (pk_dst p) && b, t)
  | "-s" :: x :: r' => let '(b, t) := judge r' p in (in_cidr x (pk_src p) && b, t)
  | "-p" :: "tcp" :: r' => let '(b, t) := judge r' p in (pk_tcp p && b, t)
  | "--dport" :: x :: r' => let '(b, t) := judge r' p in (bool_decide (pk_dport p = x) && b, t)
  | "-m" :: "conntrack" :: "--ctstate" :: "ESTABLISHED,RELATED" :: r' => let '(b, t) := judge r' p in (pk_established p && b, t)
  | _ => (false, "")
  end.

Inductive verdict := Accept | Drop.
#[global] Instance verdict_eq_dec : EqDecision verdict.
Proof. solve_decision. Defined.

(** The first rule that matches decides; a jump comes back if its chain does not.
    [None]: the end of the chain.  [fuel] bounds nested jumps. *)
Fixpoint traverse (fuel : nat) (chains : gmap string (list rule)) (l : list rule) (p : packet) : option verdict :=
  match fuel with
  | O => None
  | S f =>
      (fix go (l : list rule) : option verdict :=
         match l with
         | [] => None
         | r :: l' =>
             let '(m, t) := judge r p in
             if negb m then go l'
             else if decide (t = "ACCEPT") then Some Accept
             else if decide (t = "DROP") then Some Drop
             else match traverse f chains (default [] (chains !! t)) p with Some v => Some v | None => go l' end
         end) l
  end.

Lemma traverse_nil f chains p : traverse f chains [] p = None.
Proof. by destruct f. Qed.

Lemma traverse_cons f chains r l p : traverse (S f) chains (r :: l) p =
  (let '(m, t) := judge r p in
   if negb m then traverse (S f) chains l p
   else if decide (t = "ACCEPT") then Some Accept
   else if decide (t = "DROP") then Some Drop
   else match traverse f chains (default [] (chains !! t)) p with Some v => Some v | None => traverse (S f) chains l p end).
Proof. reflexivity. Qed.

(** A rule that never accepts [p], alone. *)
Definition never_accepts (f : nat) (chains : gmap string (list rule)) (p : packet) (r : rule) : Prop :=
  forall l v, traverse (S f) chains (r :: l) p = Some v -> v = Drop \/ traverse (S f) chains l p = Some v.

(** Rules that never accept leave the verdict to the rest, or drop. *)
Lemma traverse_skip f chains p l l' :
  Forall (never_accepts f chains p) l -> traverse (S f) chains l' p = Some Drop -> traverse (S f) chains (l ++ l') p = Some Drop.
Proof.
  intros Hl Hd. assert (Hex : forall l, Forall (never_accepts f chains p) l -> is_Some (traverse (S f) chains (l ++ l') p)).
  { clear l Hl. intros l Hl. induction l as [|r l IH]; simpl app; [by rewrite Hd|]. apply Forall_cons in Hl as [_ Hl].
    rewrite traverse_cons. destruct (judge r p) as [m t]. destruct m; simpl; [|by apply IH]. repeat case_decide; [done..|].
    case_match; [done|]. by apply IH. }
  induction l as [|r l IH]; [done|]. pose proof Hl as [Hr Hl']%Forall_cons. destruct (Hex (r :: l) Hl) as [v Hv]. rewrite Hv.
  simpl in Hv. destruct (Hr _ _ Hv) as [->|Hv']; [done|]. rewrite IH in Hv' by done. by injection Hv' as <-.
Qed.

(** ** The first match *)

Definition matches (p : packet) (r : rule) : bool := (judge r p).1.
Definition target (p : packet) (r : rule) : string := (judge r p).2.

(** A chain whose first matching rule drops. *)
Lemma traverse_drop f chains p l1 r l2 : Forall (fun x => matches p x = true -> target p x = "DROP") l1 ->
  matches p r = true -> target p r = "DROP" -> traverse (S f) chains (l1 ++ r :: l2) p = Some Drop.
Proof.
  intros Hl Hm Ht. induction Hl as [|x l Hx Hl IH]; simpl app; rewrite traverse_cons; unfold matches, target in *.
  - destruct (judge r p) as [m t]. simpl in *. subst. done.
  - destruct (judge x p) as [m t]. simpl in *. destruct m; simpl; [|exact IH]. rewrite (Hx eq_refl). done.
Qed.

End Netfilter.
