(* ===== verification/Netrules.v ===== *)
(** * Rules of the Docker runner's bridges
    ([internal/runner/runtime/docker/netrules], [internal/runner/runtime/netpolicy])

    How the runner builds the rules that keep sandboxes from private networks, from
    each other and from the host, over any iptables that does what its manual says,
    and may fail at any call. *)

From S2P Require Import Prelude GoStrings Ids Netfilter.

Module Netrules.
Import GoStrings Netfilter.

Definition PrivateRangesV4 : list string :=
  ["10.0.0.0/8"; "172.16.0.0/12"; "192.168.0.0/16"; "169.254.0.0/16"; "127.0.0.0/8"; "100.64.0.0/10"; "198.18.0.0/15";
   "240.0.0.0/4"; "224.0.0.0/4"; "168.63.129.16/32"].

(** ** iptables *)

Inductive command :=
| CmdList (c : string)               (* -n -L *)
| CmdNew (c : string)                (* -N *)
| CmdAppend (c : string) (r : rule)  (* -A *)
| CmdInsert (c : string) (r : rule)  (* -I c 1 *)
| CmdCheck (c : string) (r : rule)   (* -C *)
| CmdDelete (c : string) (r : rule)  (* -D *)
| CmdFlush (c : string)              (* -F *)
| CmdRemove (c : string).            (* -X *)

(** [run n] is the [n]-th call and whether it exited with 0; [listing] is [-S], as
    lines, or an error and whether it says that there is no such chain; [shown] is a
    rule as [-S] prints it; [iface] whether the interface exists. *)
Class Iptables := {
  tables : Type;
  chains : tables -> gmap string (list rule);
  run : nat -> command -> tables -> bool * tables;
  listing : nat -> string -> tables -> bool + list string;
  shown : rule -> list string;
  iface : nat -> string -> bool;
}.

(** What iptables(8) says of the calls that succeed; one that fails changes nothing,
    and may fail for reasons of its own.  [-S] prints rules without white space around
    them, and a plain interface jump as it was given. *)
Class IptablesLaws (I : Iptables) := {
  run_fail n cmd t t' : run n cmd t = (false, t') -> chains t' = chains t;
  run_list n c t t' : run n (CmdList c) t = (true, t') -> chains t' = chains t /\ is_Some (chains t !! c);
  run_new n c t t' : run n (CmdNew c) t = (true, t') -> chains t !! c = None /\ chains t' = <[c := []]> (chains t);
  run_append n c r t t' : run n (CmdAppend c r) t = (true, t') ->
    exists l, chains t !! c = Some l /\ chains t' = <[c := l ++ [r]]> (chains t);
  run_insert n c r t t' : run n (CmdInsert c r) t = (true, t') ->
    exists l, chains t !! c = Some l /\ chains t' = <[c := r :: l]> (chains t);
  run_check n c r t t' : run n (CmdCheck c r) t = (true, t') ->
    chains t' = chains t /\ exists l, chains t !! c = Some l /\ r ∈ l;
  run_delete n c args t t' : run n (CmdDelete c args) t = (true, t') ->
    exists l1 r l2, chains t !! c = Some (l1 ++ r :: l2) /\ shown r = args /\ chains t' = <[c := l1 ++ l2]> (chains t);
  run_flush n c t t' : run n (CmdFlush c) t = (true, t') -> is_Some (chains t !! c) /\ chains t' = <[c := []]> (chains t);
  run_remove n c t t' : run n (CmdRemove c) t = (true, t') -> chains t !! c = Some [] /\ chains t' = delete c (chains t);
  listing_trimmed n c t lines line : listing n c t = inr lines -> line ∈ lines -> TrimSpace line = line;
  shown_jump b t : shown ["-i"; b; "-j"; t] = ["-i"; b; "-j"; t];
}.

(** ** Names *)

Definition chainPrefix : string := "N8N-SB-".
Definition bridgeEgressChain : string := chainPrefix +:+ "BR-EGRESS".
Definition bridgeHostChain : string := chainPrefix +:+ "BR-HOST".

Definition ChainName (containerID : string) : string :=
  chainPrefix +:+ (if (12 <? String.length containerID)%nat then String.substring 0 12 containerID else containerID).
Definition ingressChainName (containerID : string) : string := ChainName containerID +:+ "-IN".
Definition hostChainName (containerID : string) : string := ChainName containerID +:+ "-HOST".

(** ** The process *)

Inductive net_error := ErrArgument | ErrInterface | ErrCommand.

(** Guarded by [mu]; the calls so far number the next. *)
Record netrules {I : Iptables} := mkNet { nt_tick : nat; nt_tables : tables; sharedChainsReset : bool }.
#[global] Arguments netrules : clear implicits.

Section rules.
Context {I : Iptables}.
#[local] Open Scope act_scope.

Definition net A := act (netrules I) net_error A.

(** [run("iptables", ...)]: whether it succeeded. *)
Definition call (cmd : command) : net bool :=
  let! s := get in
  let '(ok, t) := run (nt_tick s) cmd (nt_tables s) in
  do! modify (fun _ => mkNet I (S (nt_tick s)) t (sharedChainsReset s)) in
  ret ok.

(** [if err := run(...); err != nil { return ... }] *)
Definition must (cmd : command) : net unit :=
  let! ok := call cmd in
  if ok : bool then ret tt else exit ErrCommand.

Fixpoint each {A} (f : A -> net unit) (l : list A) : net unit :=
  match l with [] => ret tt | x :: l' => do! f x in each f l' end.

Definition ensureDockerUserChain : net unit := must (CmdList "DOCKER-USER").

Definition ensureChain (chain : string) : net unit :=
  let! ok := call (CmdList chain) in
  if ok : bool then ret tt else must (CmdNew chain).

Definition resetSharedChains : net unit :=
  let! s := get in
  if sharedChainsReset s then ret tt else
  do! each (fun chain => must (CmdFlush chain)) [bridgeEgressChain; bridgeHostChain] in
  modify (fun s => mkNet I (nt_tick s) (nt_tables s) true).

Definition ensureRule (chain : string) (r : rule) : net unit :=
  let! ok := call (CmdCheck chain r) in
  if ok : bool then ret tt else must (CmdAppend chain r).

Definition ensureJump (parent : string) (r : rule) : net unit :=
  let! ok := call (CmdCheck parent r) in
  if ok : bool then ret tt else must (CmdInsert parent r).

Definition bridgeEgressRules (bridgeIface : string) : list rule :=
  [["-o"; bridgeIface; "-j"; "DROP"]; ["-m"; "conntrack"; "--ctstate"; "ESTABLISHED,RELATED"; "-j"; "ACCEPT"]] ++
  ((fun cidr => ["-d"; cidr; "-j"; "DROP"]) <$> PrivateRangesV4) ++ [["-j"; "ACCEPT"]].

Definition bridgeHostRules : list rule :=
  [["-m"; "conntrack"; "--ctstate"; "ESTABLISHED,RELATED"; "-j"; "ACCEPT"]; ["-j"; "DROP"]].

(** strings.ContainsAny(s, "/ ") *)
Definition odd_name (s : string) : bool := existsb (fun c => bool_decide (c = byte 47 \/ c = byte 32)) (chars s).

Definition ensureBridgePolicy (bridgeIface : string) (blockEgress : bool) : net unit :=
  if decide (bridgeIface = "") then exit ErrArgument else
  if odd_name bridgeIface then exit ErrArgument else
  let! s := get in
  if negb (iface (nt_tick s) bridgeIface) then exit ErrInterface else
  do! ensureChain bridgeEgressChain in
  do! ensureChain bridgeHostChain in
  do! resetSharedChains in
  do! (if blockEgress then ensureJump "DOCKER-USER" ["-i"; bridgeIface; "-j"; "DROP"]
       else
         do! ensureJump "DOCKER-USER" ["-i"; bridgeIface; "-j"; bridgeEgressChain] in
         each (ensureRule bridgeEgressChain) (bridgeEgressRules bridgeIface)) in
  do! ensureJump "INPUT" ["-i"; bridgeIface; "-j"; bridgeHostChain] in
  each (ensureRule bridgeHostChain) bridgeHostRules.

Definition EnsureBridgePolicy (bridgeIface : string) (blockEgress : bool) : net unit :=
  do! ensureDockerUserChain in
  ensureBridgePolicy bridgeIface blockEgress.

(** ** Jumps to a chain *)

Definition space : ascii := byte 32.

(** strings.Contains *)
Fixpoint contains (l sub : list ascii) : bool :=
  match strip_prefix sub l with
  | Some _ => true
  | None => match l with [] => false | _ :: l' => contains l' sub end
  end.

(** strings.Fields, of a line with no white space but spaces *)
Fixpoint fields_from (acc : list ascii) (l : list ascii) : list string :=
  let word := match acc with [] => [] | _ => [of_chars (reverse acc)] end in
  match l with
  | [] => word
  | c :: l' => if decide (c = space) then word ++ fields_from [] l' else fields_from (c :: acc) l'
  end.
Definition Fields (l : list ascii) : list string := fields_from [] l.

(** A line of [-S] to delete: one that names the chain and is a rule of [parent]. *)
Definition jump_args (parent chain line : string) : option (list string) :=
  if negb (contains (chars line) (chars ("-j " +:+ chain))) then None
  else match strip_prefix (chars ("-A " +:+ parent +:+ " ")) (chars (TrimSpace line)) with
       | Some rest => Some (Fields rest)
       | None => None
       end.

Definition removeJumpReferences (parent chain : string) : net unit :=
  let! s := get in
  do! modify (fun s => mkNet I (S (nt_tick s)) (nt_tables s) (sharedChainsReset s)) in
  match listing (nt_tick s) parent (nt_tables s) with
  | inl no_such => if no_such : bool then ret tt else exit ErrCommand
  | inr lines =>
      each (fun line => match jump_args parent chain line with
                        | Some args => do! call (CmdDelete parent args) in ret tt
                        | None => ret tt
                        end) lines
  end.

Definition teardownLocked (containerID : string) : net unit :=
  if decide (containerID = "") then ret tt else
  do! removeJumpReferences "DOCKER-USER" (ChainName containerID) in
  do! removeJumpReferences "DOCKER-USER" (ingressChainName containerID) in
  do! removeJumpReferences "INPUT" (hostChainName containerID) in
  each (fun chain => do! call (CmdFlush chain) in do! call (CmdRemove chain) in ret tt)
    [ChainName containerID; ingressChainName containerID; hostChainName containerID].

Definition Teardown (containerID : string) : net unit := teardownLocked containerID.

(** The rules of a sandbox's ingress chain. *)
Definition ingress_accept (bridgeIface gatewayIP : string) : rule :=
  ["!"; "-i"; bridgeIface; "-s"; gatewayIP +:+ "/32"; "-j"; "ACCEPT"].

(** [daemonPort] as printed. *)
Definition ApplyPolicy (bridgeIface containerID sourceIP gatewayIP daemonPort : string) (blockEgress : bool) : net unit :=
  if decide (containerID = "") then exit ErrArgument else
  if decide (sourceIP = "") then exit ErrArgument else
  do! ensureDockerUserChain in
  do! ensureBridgePolicy bridgeIface blockEgress in
  do! teardownLocked containerID in
  let ingressChain := ingressChainName containerID in
  do! must (CmdNew ingressChain) in
  do! must (CmdInsert "DOCKER-USER" ["-d"; sourceIP +:+ "/32"; "-p"; "tcp"; "--dport"; daemonPort; "-j"; ingressChain]) in
  do! (if decide (gatewayIP <> "") then must (CmdAppend ingressChain (ingress_accept bridgeIface gatewayIP)) else ret tt) in
  must (CmdAppend ingressChain ["-j"; "DROP"]).
End rules.

End Netrules.
