(* ===== verification/NetrulesInv.v ===== *)
(** * What the Docker runner's rules guarantee

    An invariant of the chains the runner shares with Docker and of its own, kept by
    every operation whichever of its commands fail; and the verdicts that follow. *)

From S2P Require Import Prelude GoStrings Ids Netfilter Netrules.

Module NetrulesInv.
Import GoStrings Ids Netfilter Netrules.

(** ** Rules in order *)

(** Every rule of [R] in [l] comes after all those before it in [R]. *)
Definition ordered (R l : list rule) : Prop :=
  forall i j ri rj l1 l2, R !! i = Some ri -> R !! j = Some rj -> (i < j)%nat -> l = l1 ++ rj :: l2 -> rj ∉ l1 -> ri ∈ l1.

Lemma ordered_nil R : ordered R [].
Proof. intros i j ri rj l1 l2 _ _ _ H. by destruct l1. Qed.

Lemma ordered_snoc R l j r : NoDup R -> ordered R l -> R !! j = Some r -> (forall i x, (i < j)%nat -> R !! i = Some x -> x ∈ l) -> ordered R (l ++ [r]).
Proof.
  intros Hnd Hl Hj Hall i j' ri rj l1 l2 Hi Hj' Hlt Heq Hnin. destruct l2 as [|x l2 _] using rev_ind.
  - apply app_inj_tail in Heq as [-> ->]. apply (Hall i); [|done]. assert (j' = j) as -> by (eapply NoDup_lookup; eauto). done.
  - rewrite app_comm_cons, app_assoc in Heq. apply app_inj_tail in Heq as [-> _]. by eapply Hl.
Qed.

(** ** Names *)

(** What Docker uses for ids: lower-case hex. *)
Definition docker_id (id : string) : Prop := chars id <> [] /\ Forall (fun c => lower_hex c = true) (chars id).

Definition ingress_name (c : string) : Prop := exists id, docker_id id /\ c = ingressChainName id.

Lemma substring_chars n s : chars (String.substring 0 n s) = take n (chars s).
Proof.
  revert n. induction s as [|x s IH]; intros [|n]; try done. simpl. change (chars (String x ?t)) with (x :: chars t). by rewrite IH.
Qed.

(** After the prefix, a container's chain goes on in lower-case hex. *)
Lemma chain_chars id : docker_id id -> exists c l, lower_hex c = true /\ Forall (fun c => lower_hex c = true) l /\
  chars (ChainName id) = chars chainPrefix ++ c :: l.
Proof.
  intros [Hne Hall]. unfold ChainName. rewrite chars_app. destruct (chars id) as [|c l] eqn:E; [done|]. apply Forall_cons in Hall as [Hc Hl].
  destruct (12 <? String.length id)%nat.
  - exists c, (take 11 l). rewrite substring_chars, E. split; [done|]. split; [by apply Forall_take|done].
  - exists c, l. by rewrite E.
Qed.

(** The first character after the prefix tells a container's chain from the shared
    ones, and the prefix from Docker's. *)
Lemma chain_tail id (suffix : string) : docker_id id ->
  exists c l, lower_hex c = true /\ chars (ChainName id +:+ suffix) = chars chainPrefix ++ c :: l.
Proof.
  intros Hid. destruct (chain_chars id Hid) as (c & l & Hc & _ & E). exists c, (l ++ chars suffix). split; [done|].
  rewrite chars_app, E. by rewrite <- app_assoc.
Qed.

Lemma chain_distinct id suffix c : docker_id id -> c ∈ ["DOCKER-USER"; "INPUT"; bridgeEgressChain; bridgeHostChain] -> ChainName id +:+ suffix <> c.
Proof.
  intros Hid Hc Heq. destruct (chain_tail id suffix Hid) as (x & l & Hx & E). rewrite Heq in E.
  repeat (apply elem_of_cons in Hc as [->|Hc]); [..|by apply not_elem_of_nil in Hc];
    vm_compute in E; try discriminate E; injection E as <- _; vm_compute in Hx; discriminate Hx.
Qed.

(** ** Lines that name a chain *)

Definition no_space (l : list ascii) : Prop := space ∉ l.

Fixpoint split_space (l : list ascii) : list (list ascii) :=
  match l with
  | [] => [[]]
  | c :: l' => if decide (c = space) then [] :: split_space l' else
      match split_space l' with w :: ws => (c :: w) :: ws | [] => [[c]] end
  end.

Lemma split_space_cons l : exists w ws, split_space l = w :: ws.
Proof. induction l as [|c l IH]; simpl; [eauto|]. destruct IH as (w & ws & ->). case_decide; eauto. Qed.

Lemma split_space_app a b : split_space (a ++ space :: b) = split_space a ++ split_space b.
Proof.
  induction a as [|c a IH]; simpl; [reflexivity|]. case_decide; [by rewrite IH|]. rewrite IH.
  destruct (split_space_cons a) as (w & ws & ->). done.
Qed.

Lemma split_space_word l : no_space l -> split_space l = [l].
Proof.
  induction l as [|c l IH]; intros Hn; simpl; [done|]. rewrite decide_False by (intros ->; apply Hn; left).
  rewrite IH; [done|]. intros H. apply Hn. by right.
Qed.

Lemma split_space_suffix a x : no_space x -> x <> [] -> exists ws w, split_space (a ++ x) = ws ++ [w ++ x].
Proof.
  intros Hx Hne. induction a as [|c a IH]; simpl; [exists [], []; by rewrite split_space_word|].
  destruct IH as (ws & w & IH). rewrite IH. case_decide; [exists ([] :: ws), w; done|]. destruct ws as [|u ws]; simpl.
  - by exists [], (c :: w).
  - by exists ((c :: u) :: ws), w.
Qed.

Lemma split_space_prefix x b : no_space x -> exists w ws, split_space (x ++ b) = (x ++ w) :: ws.
Proof.
  intros Hx. induction x as [|c x IH]; simpl; [apply split_space_cons|]. rewrite decide_False by (intros ->; apply Hx; left).
  destruct IH as (w & ws & ->); [intros H; apply Hx; by right|]. eauto.
Qed.

Lemma contains_split l sub : contains l sub = true -> exists a b, l = a ++ sub ++ b.
Proof.
  induction l as [|c l IH]; simpl; destruct (strip_prefix sub _) as [r|] eqn:E; try done.
  - intros _. apply strip_prefix_Some in E. by exists [], r.
  - intros _. apply strip_prefix_Some in E. by exists [], r.
  - intros H. destruct (IH H) as (a & b & ->). by exists (c :: a), b.
Qed.

Definition word (l : list ascii) : bool := match l with [] => false | _ => true end.

Lemma fields_split_from acc l : chars <$> fields_from acc l = List.filter word (match split_space l with w :: ws => (reverse acc ++ w) :: ws | [] => [] end).
Proof.
  revert acc. induction l as [|c l IH]; intros acc; simpl.
  - rewrite app_nil_r. destruct acc as [|x acc]; simpl; [done|]. rewrite chars_of_chars. rewrite reverse_cons. by destruct (reverse acc).
  - destruct (split_space_cons l) as (w & ws & E). rewrite E in *. destruct (decide (c = space)) as [Hc|Hc].
    + rewrite fmap_app, IH. rewrite reverse_nil, app_nil_r. simpl app at 2. destruct acc as [|x acc]; simpl; [done|].
      rewrite chars_of_chars, reverse_cons. by destruct (reverse acc).
    + rewrite IH. by rewrite reverse_cons, <- app_assoc.
Qed.

Lemma Fields_split l : chars <$> Fields l = List.filter word (split_space l).
Proof. unfold Fields. rewrite fields_split_from. destruct (split_space_cons l) as (w & ws & ->). done. Qed.

Lemma filter_word_app a b : List.filter word (a ++ b) = List.filter word a ++ List.filter word b.
Proof. apply List.filter_app. Qed.

(** No chain name has a space. *)
Lemma chain_no_space id suffix : docker_id id -> no_space (chars suffix) -> no_space (chars (ChainName id +:+ suffix)).
Proof.
  intros Hid Hs. destruct (chain_chars id Hid) as (c & l & Hc & Hl & E). rewrite chars_app, E. unfold no_space.
  rewrite !elem_of_app, elem_of_cons. intros [[H|[<-|H]]|H]; [|by vm_compute in Hc| |by apply Hs].
  - vm_compute in H. repeat (apply elem_of_cons in H as [H|H]; [discriminate H|]). by apply not_elem_of_nil in H.
  - rewrite Forall_forall in Hl. specialize (Hl _ H). by vm_compute in Hl.
Qed.

(** The words around the place where a line names a chain. *)
Lemma contains_words line (chain : string) : contains (chars line) (chars ("-j " +:+ chain)) = true ->
  no_space (chars chain) -> chars chain <> [] ->
  exists X w w' Y, List.filter word (split_space (chars line)) = X ++ (w ++ chars "-j") :: (chars chain ++ w') :: Y.
Proof.
  intros (a & b & E)%contains_split Hns Hne.
  assert (E' : chars line = (a ++ chars "-j") ++ space :: (chars chain ++ b)) by (rewrite E, chars_app; simpl; by rewrite <- !app_assoc).
  rewrite E', split_space_app, filter_word_app.
  destruct (split_space_suffix a (chars "-j")) as (ws & w & ->); [|done|].
  { intros H. vm_compute in H. repeat (apply elem_of_cons in H as [H|H]; [discriminate H|]). by apply not_elem_of_nil in H. }
  destruct (split_space_prefix (chars chain) b Hns) as (w' & ws' & ->).
  rewrite filter_word_app. exists (List.filter word ws), w, w', (List.filter word ws').
  rewrite <- app_assoc. f_equal. simpl. assert (word (w ++ chars "-j") = true) as Hw by (by destruct w).
  assert (word (chars chain ++ w') = true) as Hw' by (by destruct (chars chain)). simpl in Hw. rewrite Hw. simpl. by rewrite Hw'.
Qed.

Lemma six_split {A} (f0 f1 f2 f3 f4 f5 u v : A) X Y : [f0; f1; f2; f3; f4; f5] = X ++ u :: v :: Y ->
  (f0 = u /\ f1 = v) \/ (f1 = u /\ f2 = v) \/ (f2 = u /\ f3 = v) \/ (f3 = u /\ f4 = v) \/ (f4 = u /\ f5 = v).
Proof. destruct X as [|x0 [|x1 [|x2 [|x3 [|x4 [|x5 X]]]]]]; simpl; intros H; simplify_eq; try tauto; by destruct X. Qed.

(** A line with a plain interface jump to a shared chain, or to DROP, names no
    container's chain. *)
Lemma jump_kept parent id suffix line b t : docker_id id -> no_space (chars suffix) -> TrimSpace line = line ->
  parent ∈ ["DOCKER-USER"; "INPUT"] -> t ∈ ["DROP"; bridgeEgressChain; bridgeHostChain] ->
  jump_args parent (ChainName id +:+ suffix) line <> Some ["-i"; b; "-j"; t].
Proof.
  intros Hid Hs Htrim Hp Ht. unfold jump_args. destruct (contains _ _) eqn:Hc; cbn [negb]; [|done]. rewrite Htrim.
  destruct (strip_prefix _ _) as [rest|] eqn:Hr; [|done]. apply strip_prefix_Some in Hr. intros [= HF].
  destruct (chain_tail id suffix Hid) as (c & l & Hhex & Ec).
  apply contains_words in Hc as (X & w & w' & Y & HW); [|by apply chain_no_space|rewrite Ec; by destruct (chars chainPrefix)].
  assert (Hline : List.filter word (split_space (chars line)) = chars <$> ["-A"; parent; "-i"; b; "-j"; t]).
  { assert (E : chars line = chars "-A" ++ space :: (chars parent ++ space :: rest)) by (rewrite Hr, !chars_app; simpl; by rewrite <- app_assoc).
    rewrite E, !split_space_app, !filter_word_app, <- (Fields_split rest), HF.
    repeat (apply elem_of_cons in Hp as [->|Hp]); [reflexivity..|by apply not_elem_of_nil in Hp]. }
  rewrite Hline, Ec in HW. clear Hline Hr HF Htrim.
  assert (Hdash : forall x y, chars x = y ++ chars "-j" -> x ∉ ["-A"; "DOCKER-USER"; "INPUT"; "-i"]).
  { intros x y E Hin. apply (f_equal reverse) in E. rewrite reverse_app in E.
    repeat (apply elem_of_cons in Hin as [->|Hin]); [vm_compute in E; discriminate E..|by apply not_elem_of_nil in Hin]. }
  assert (Hpre : forall x y, chars x = (chars chainPrefix ++ c :: l) ++ y -> x ∉ ["-j"; "DROP"; bridgeEgressChain; bridgeHostChain]).
  { intros x y E Hin. repeat (apply elem_of_cons in Hin as [->|Hin]); [..|by apply not_elem_of_nil in Hin];
      vm_compute in E; try discriminate E; injection E as <- _; vm_compute in Hhex; discriminate Hhex. }
  assert (HpD : parent ∈ ["-A"; "DOCKER-USER"; "INPUT"; "-i"]) by set_solver.
  assert (HtD : t ∈ ["-j"; "DROP"; bridgeEgressChain; bridgeHostChain]) by set_solver.
  apply six_split in HW as [[Hu _]|[[Hu _]|[[Hu _]|[[_ Hv]|[_ Hv]]]]].
  - by eapply (Hdash "-A"); [|set_solver].
  - by eapply (Hdash parent).
  - by eapply (Hdash "-i"); [|set_solver].
  - by eapply (Hpre "-j"); [|set_solver].
  - by eapply (Hpre t).
Qed.

(** ** The invariant *)

Section policy.
Context {I : Iptables} {L : IptablesLaws I}.
(** The public bridge, the one without egress, and their gateways. *)
Context (pub closed : string) (gw : string -> string).
Hypothesis (Hpc : pub <> closed).

Definition bridge (b : string) : Prop := b = pub \/ b = closed.
Definition blocked (b : string) : bool := bool_decide (b = closed).

Definition jump (b : string) : rule := ["-i"; b; "-j"; if blocked b then "DROP" else bridgeEgressChain].
Definition host_jump (b : string) : rule := ["-i"; b; "-j"; bridgeHostChain].

(** The rules the runner puts on top of DOCKER-USER, on top of INPUT and into a
    container's chain. *)
Definition ours (r : rule) : Prop :=
  (exists b, bridge b /\ r = jump b) \/
  (exists ip port c, ingress_name c /\ r = ["-d"; ip; "-p"; "tcp"; "--dport"; port; "-j"; c]).
Definition host_ours (r : rule) : Prop := exists b, bridge b /\ r = host_jump b.
Definition ingress_rule (r : rule) : Prop := (exists b, bridge b /\ r = ingress_accept b (gw b)) \/ r = ["-j"; "DROP"].

(** Rules of others, below ours. *)
Definition foreign (r : rule) : Prop := forall b, bridge b -> r <> jump b /\ r <> host_jump b.

Definition stacked (P : rule -> Prop) (l : list rule) : Prop := exists A F, l = A ++ F /\ Forall P A /\ Forall foreign F.

Definition EGRESS := bridgeEgressRules pub.
Definition HOST := bridgeHostRules.

Record good (reset : bool) (T : gmap string (list rule)) : Prop := {
  g_ingress c l : ingress_name c -> T !! c = Some l -> Forall ingress_rule l;
  g_forward l : T !! "DOCKER-USER" = Some l -> stacked ours l;
  g_input l : T !! "INPUT" = Some l -> stacked host_ours l;
  g_shared : reset = true -> exists e h, T !! bridgeEgressChain = Some e /\ T !! bridgeHostChain = Some h /\
    ordered EGRESS e /\ Forall (fun r => r ∈ EGRESS) e /\ ordered HOST h /\ Forall (fun r => r ∈ HOST) h;
}.

(** A rule is in its chain. *)
Definition fact (T : gmap string (list rule)) (cr : string * rule) : Prop := exists l, T !! cr.1 = Some l /\ cr.2 ∈ l.

(** Facts no operation undoes. *)
Definition shared : list string := ["DOCKER-USER"; "INPUT"; bridgeEgressChain; bridgeHostChain].
Definition lasting (cr : string * rule) : Prop :=
  cr.1 ∈ shared /\
  (cr.1 ∈ ["DOCKER-USER"; "INPUT"] -> exists b t, t ∈ ["DROP"; bridgeEgressChain; bridgeHostChain] /\ cr.2 = ["-i"; b; "-j"; t]).

(** What makes the policy of bridge [b]. *)
Definition policy (b : string) : list (string * rule) :=
  ("DOCKER-USER", jump b) :: ("INPUT", host_jump b) ::
  ((fun r => (bridgeEgressChain, r)) <$> (if blocked b then [] else EGRESS)) ++ ((fun r => (bridgeHostChain, r)) <$> HOST).

(** The invariant, with the facts established so far. *)
Record inv (F : list (string * rule)) (s : netrules I) : Prop := {
  v_good : good (sharedChainsReset s) (chains (nt_tables s));
  v_reset : F <> [] -> sharedChainsReset s = true;
  v_lasting : Forall lasting F;
  v_facts : Forall (fact (chains (nt_tables s))) F;
}.

Lemma shared_names : bridgeEgressChain <> bridgeHostChain /\ bridgeEgressChain <> "DOCKER-USER" /\ bridgeEgressChain <> "INPUT" /\
  bridgeHostChain <> "DOCKER-USER" /\ bridgeHostChain <> "INPUT" /\ "DOCKER-USER" <> "INPUT".
Proof. repeat split; discriminate. Qed.

Lemma ingress_distinct c c' : ingress_name c -> c' ∈ shared -> c <> c'.
Proof. intros (id & Hid & ->) Hc. by apply chain_distinct. Qed.

(** A chain of a container changes. *)
Lemma good_container reset T T' c : c ∉ shared -> (forall c', c' <> c -> T' !! c' = T !! c') ->
  (forall l, ingress_name c -> T' !! c = Some l -> Forall ingress_rule l) -> good reset T -> good reset T'.
Proof.
  intros Hc Hsame Hl [G1 G2 G3 G4]. assert (Hk : forall x, x ∈ shared -> T' !! x = T !! x) by (intros x Hx; apply Hsame; intros ->; done).
  split.
  - intros c' l Hn Hc'. destruct (decide (c' = c)) as [->|Hne]; [by apply Hl|]. rewrite Hsame in Hc' by done. by eapply G1.
  - intros l. rewrite Hk by set_solver. apply G2.
  - intros l. rewrite Hk by set_solver. apply G3.
  - rewrite !Hk by set_solver. exact G4.
Qed.

(** What a change leaves of the facts. *)
Lemma facts_keep T T' F : (forall c r l, lasting (c, r) -> T !! c = Some l -> r ∈ l -> exists l', T' !! c = Some l' /\ r ∈ l') ->
  Forall lasting F -> Forall (fact T) F -> Forall (fact T') F.
Proof.
  intros H HL HF. rewrite Forall_forall in *. intros [c r] Hin. destruct (HF _ Hin) as (l & Hl & Hr). by apply (H c r l (HL _ Hin)).
Qed.

Lemma facts_other T T' c F : c ∉ shared -> (forall c', c' <> c -> T' !! c' = T !! c') -> Forall lasting F -> Forall (fact T) F -> Forall (fact T') F.
Proof.
  intros Hc Hs. apply facts_keep. intros c' r l [Hin _] Hl Hr. exists l. rewrite Hs; [done|]. intros ->. done.
Qed.

Lemma facts_grow T c l l' F : T !! c = Some l -> (forall r, lasting (c, r) -> r ∈ l -> r ∈ l') -> Forall lasting F -> Forall (fact T) F -> Forall (fact (<[c := l']> T)) F.
Proof.
  intros Hl Hmono. apply facts_keep. intros c' r l0 HL Hl0 Hr. destruct (decide (c' = c)) as [->|Hn].
  - exists l'. rewrite lookup_insert_eq. split; [done|]. apply Hmono; [done|]. congruence.
  - exists l0. by rewrite lookup_insert_ne.
Qed.

(** Rules come onto or off a shared chain's stack. *)
Lemma stacked_cons (P : rule -> Prop) r l : P r -> stacked P l -> stacked P (r :: l).
Proof. intros Hr (A & F & -> & HA & HF). exists (r :: A), F. split; [done|]. split; [by constructor|done]. Qed.

Lemma stacked_delete P l1 r l2 : stacked P (l1 ++ r :: l2) -> stacked P (l1 ++ l2).
Proof.
  intros (A & F & HAF & HA & HF). apply app_eq_app in HAF as (k & [[-> ->]|[-> HF']]).
  - exists A, (k ++ l2). rewrite <- app_assoc. split; [done|]. split; [done|]. apply Forall_app in HF as [H1 H2].
    apply Forall_cons in H2 as [_ H2]. by apply Forall_app.
  - apply Forall_app in HA as [HA1 HA2]. destruct k as [|x k]; simpl in HF'; [subst F; exists l1, l2|injection HF' as <- ->; exists (l1 ++ k), F].
    + apply Forall_cons in HF as [_ HF]. done.
    + rewrite <- app_assoc. split; [done|]. split; [|done]. apply Forall_cons in HA2 as [_ HA2]. by apply Forall_app.
Qed.

(** A shared chain of Docker's changes. *)
Lemma good_docker reset T l' c : c = "DOCKER-USER" \/ c = "INPUT" -> (c = "DOCKER-USER" -> stacked ours l') -> (c = "INPUT" -> stacked host_ours l') ->
  good reset T -> good reset (<[c := l']> T).
Proof.
  intros Hc H1 H2 [G1 G2 G3 G4]. destruct shared_names as (N1 & N2 & N3 & N4 & N5 & N6). split.
  - intros c' l Hn. rewrite lookup_insert_ne; [by apply G1|]. apply not_eq_sym, ingress_distinct; [done|]. destruct Hc as [-> | ->]; set_solver.
  - intros l. destruct Hc as [-> | ->]; [rewrite lookup_insert_eq; intros [= <-]; auto|rewrite lookup_insert_ne by done; apply G2].
  - intros l. destruct Hc as [-> | ->]; [rewrite lookup_insert_ne by done; apply G3|rewrite lookup_insert_eq; intros [= <-]; auto].
  - destruct Hc as [-> | ->]; by rewrite !lookup_insert_ne.
Qed.

(** One of the runner's shared chains gets its next rule. *)
Lemma good_append T c e j r (R : list rule) : (c = bridgeEgressChain /\ R = EGRESS) \/ (c = bridgeHostChain /\ R = HOST) -> NoDup R ->
  T !! c = Some e -> R !! j = Some r -> (forall i x, (i < j)%nat -> R !! i = Some x -> x ∈ e) ->
  good true T -> good true (<[c := e ++ [r]]> T).
Proof.
  intros Hc Hnd He Hj Hbefore [G1 G2 G3 G4]. destruct shared_names as (N1 & N2 & N3 & N4 & N5 & N6).
  assert (Hin : r ∈ R) by (by eapply list_elem_of_lookup_2). split.
  - intros c' l Hn. rewrite lookup_insert_ne; [by apply G1|]. apply not_eq_sym, ingress_distinct; [done|]. destruct Hc as [[-> _]|[-> _]]; set_solver.
  - intros l. rewrite lookup_insert_ne; [apply G2|]. by destruct Hc as [[-> _]|[-> _]].
  - intros l. rewrite lookup_insert_ne; [apply G3|]. by destruct Hc as [[-> _]|[-> _]].
  - intros _. destruct (G4 eq_refl) as (e0 & h0 & He0 & Hh0 & O1 & F1 & O2 & F2). destruct Hc as [[-> ->]|[-> ->]].
    + assert (e0 = e) as -> by congruence. exists (e ++ [r]), h0. rewrite lookup_insert_eq, lookup_insert_ne by done. split; [done|]. split; [done|].
      split; [by eapply ordered_snoc|]. split; [|done]. apply Forall_app. split; [done|]. by constructor.
    + assert (h0 = e) as -> by congruence. exists e0, (e ++ [r]). rewrite lookup_insert_eq, lookup_insert_ne by done. split; [done|]. split; [done|].
      split; [done|]. split; [done|]. split; [by eapply ordered_snoc|]. apply Forall_app. split; [done|]. by constructor.
Qed.

(** ** Commands *)

(** Runs keep the invariant; [P] holds when they get to their end. *)
Definition keeps {A} (m : net (I := I) A) (F : list (string * rule)) (P : A -> netrules I -> Prop) (s : netrules I) : Prop :=
  wp m (fun o s' => inv F s' /\ match o with inl _ => True | inr a => P a s' end) s.

Lemma keeps_bind {A B} (m : net A) (k : A -> net B) F P Q s :
  keeps m F P s -> (forall a s', inv F s' -> P a s' -> keeps (k a) F Q s') -> keeps (bind m k) F Q s.
Proof.
  intros Hm Hk. apply wp_bind. eapply wp_mono; [exact Hm|]. intros [e|a] s' [Hi Ha]; [done|]. by apply Hk.
Qed.

Lemma keeps_ret {A} (a : A) F (P : A -> netrules I -> Prop) s : inv F s -> P a s -> keeps (ret a) F P s.
Proof. done. Qed.

Lemma keeps_exit {A} e F (P : A -> netrules I -> Prop) s : inv F s -> keeps (exit e) F P s.
Proof. done. Qed.

Lemma keeps_mono {A} (m : net A) F (P Q : A -> netrules I -> Prop) s : keeps m F P s -> (forall a s', inv F s' -> P a s' -> Q a s') -> keeps m F Q s.
Proof. intros Hm HPQ. eapply wp_mono; [exact Hm|]. intros [e|a] s' [Hi Ha]; split; auto. Qed.

(** Something about the chains now. *)
Definition now (P : gmap string (list rule) -> Prop) (s : netrules I) : Prop := P (chains (nt_tables s)).

(** A command that, if it succeeds, keeps the invariant and gives [P]. *)
Definition safe (cmd : command) (F : list (string * rule)) (P : gmap string (list rule) -> Prop) (s : netrules I) : Prop :=
  forall t', run (nt_tick s) cmd (nt_tables s) = (true, t') ->
    good (sharedChainsReset s) (chains t') /\ Forall (fact (chains t')) F /\ P (chains t').

Lemma call_keeps cmd F P s : inv F s -> safe cmd F P s ->
  keeps (call cmd) F (fun ok s' => sharedChainsReset s' = sharedChainsReset s /\ (ok = true -> now P s')) s.
Proof.
  intros [V1 V2 V3 V4] Hs. unfold keeps, call. repeat (wp_step; cbn beta iota).
  destruct (run (nt_tick s) cmd (nt_tables s)) as [[] t'] eqn:E; repeat (wp_step; cbn beta iota).
  - destruct (Hs t' E) as (H1 & H2 & H3). split; [by split|done].
  - apply run_fail in E. split; [split; simpl; by rewrite ?E|done].
Qed.

Lemma must_keeps cmd F P s : inv F s -> safe cmd F P s ->
  keeps (must cmd) F (fun _ s' => sharedChainsReset s' = sharedChainsReset s /\ now P s') s.
Proof.
  intros Hi Hs. unfold must. eapply keeps_bind; [by apply call_keeps|]. intros [] s' Hi' [H1 H2]; [apply keeps_ret; auto|by apply keeps_exit].
Qed.

Lemma safe_list c F s : inv F s -> safe (CmdList c) F (fun _ => True) s.
Proof. intros [V1 V2 V3 V4] t' [-> _]%run_list. done. Qed.

Lemma safe_check c r F s : inv F s -> safe (CmdCheck c r) F (fun T => fact T (c, r)) s.
Proof. intros [V1 V2 V3 V4] t' [-> (l & Hl & Hr)]%run_check. split; [done|]. split; [done|]. by exists l. Qed.
Lemma safe_insert c r F s : inv F s -> (c = "DOCKER-USER" /\ ours r) \/ (c = "INPUT" /\ host_ours r) ->
  safe (CmdInsert c r) F (fun T => fact T (c, r)) s.
Proof.
  intros [V1 V2 V3 V4] Hc t' (l & Hl & ->)%run_insert. destruct shared_names as (N1 & N2 & N3 & N4 & N5 & N6). split; [|split].
  - apply good_docker; [naive_solver|..|done].
    + intros ->. destruct Hc as [[_ Hr]|[? _]]; [|done]. apply stacked_cons; [done|]. by apply (g_forward _ _ V1).
    + intros ->. destruct Hc as [[? _]|[_ Hr]]; [done|]. apply stacked_cons; [done|]. by apply (g_input _ _ V1).
  - apply (facts_grow _ c l); [done|set_solver|done|done].
  - exists (r :: l). simpl. rewrite lookup_insert_eq. set_solver.
Qed.

(** A shared chain is only ever created, or flushed, before any policy stands. *)
Lemma good_fresh T c l : c = bridgeEgressChain \/ c = bridgeHostChain -> good false T -> good false (<[c := l]> T).
Proof.
  intros Hc [G1 G2 G3 G4]. destruct shared_names as (N1 & N2 & N3 & N4 & N5 & N6). split; [| | |done].
  - intros c' l' Hn. rewrite lookup_insert_ne; [by apply G1|]. apply not_eq_sym, ingress_distinct; [done|]. destruct Hc as [-> | ->]; set_solver.
  - intros l'. rewrite lookup_insert_ne; [apply G2|]. by destruct Hc as [-> | ->].
  - intros l'. rewrite lookup_insert_ne; [apply G3|]. by destruct Hc as [-> | ->].
Qed.

Lemma no_facts F s : inv F s -> sharedChainsReset s = false -> F = [].
Proof. intros [V1 V2 V3 V4] Hr. destruct F as [|f F]; [done|]. specialize (V2 ltac:(done)). congruence. Qed.

Lemma safe_new_shared c F s : inv F s -> c = bridgeEgressChain \/ c = bridgeHostChain -> safe (CmdNew c) F (fun _ => True) s.
Proof.
  intros Hi Hc t' [Hn ->]%run_new. destruct (sharedChainsReset s) eqn:Er.
  - exfalso. pose proof (v_good _ _ Hi) as G. rewrite Er in G. destruct (g_shared _ _ G eq_refl) as (e & h & He & Hh & _). destruct Hc; congruence.
  - rewrite (no_facts F s Hi Er). split; [|done]. apply good_fresh; [done|]. rewrite <- Er. apply (v_good _ _ Hi).
Qed.

Lemma safe_flush_shared c F s (P : gmap string (list rule) -> Prop) : inv F s -> c = bridgeEgressChain \/ c = bridgeHostChain -> sharedChainsReset s = false ->
  (forall l, chains (nt_tables s) !! c = Some l -> P (<[c := []]> (chains (nt_tables s)))) -> safe (CmdFlush c) F P s.
Proof.
  intros Hi Hc Hr HP t' [[l Hl] ->]%run_flush. rewrite (no_facts F s Hi Hr). split; [|split; [done|by eapply HP]].
  rewrite Hr. apply good_fresh; [done|]. rewrite <- Hr. apply (v_good _ _ Hi).
Qed.

Lemma safe_append_shared c e j r R F s : inv F s -> sharedChainsReset s = true ->
  (c = bridgeEgressChain /\ R = EGRESS) \/ (c = bridgeHostChain /\ R = HOST) -> NoDup R ->
  chains (nt_tables s) !! c = Some e -> R !! j = Some r -> (forall i x, (i < j)%nat -> R !! i = Some x -> x ∈ e) ->
  safe (CmdAppend c r) F (fun T => fact T (c, r)) s.
Proof.
  intros [V1 V2 V3 V4] Hr Hc Hnd He Hj Hb t' (l & Hl & ->)%run_append. assert (l = e) as -> by congruence. rewrite Hr in *. split; [|split].
  - by eapply good_append.
  - apply (facts_grow _ c e); [done|set_solver|done|done].
  - exists (e ++ [r]). simpl. rewrite lookup_insert_eq. set_solver.
Qed.

(** A chain of a container: created, filled, flushed, removed. *)
Lemma safe_container cmd c F s : inv F s -> c ∉ shared ->
  (cmd = CmdNew c \/ cmd = CmdFlush c \/ cmd = CmdRemove c \/ exists r, cmd = CmdAppend c r /\ ingress_rule r) -> safe cmd F (fun _ => True) s.
Proof.
  intros [V1 V2 V3 V4] Hc Hcmd t' Hrun. set (T := chains (nt_tables s)) in *.
  assert (Hch : (forall c', c' <> c -> chains t' !! c' = T !! c') /\ (forall l, ingress_name c -> chains t' !! c = Some l -> Forall ingress_rule l)).
  { destruct Hcmd as [->|[->|[->|(r & -> & Hr)]]].
    - apply run_new in Hrun as [_ ->]. split; [intros; by rewrite lookup_insert_ne|]. intros l _. rewrite lookup_insert_eq. by intros [= <-].
    - apply run_flush in Hrun as [_ ->]. split; [intros; by rewrite lookup_insert_ne|]. intros l _. rewrite lookup_insert_eq. by intros [= <-].
    - apply run_remove in Hrun as [_ ->]. split; [intros; by rewrite lookup_delete_ne|]. intros l _. by rewrite lookup_delete_eq.
    - apply run_append in Hrun as (l0 & Hl0 & ->). split; [intros; by rewrite lookup_insert_ne|]. intros l Hn. rewrite lookup_insert_eq. intros [= <-].
      apply Forall_app. split; [by eapply (g_ingress _ _ V1)|by constructor]. }
  destruct Hch as [H1 H2]. split; [by eapply good_container|]. split; [|done]. by apply (facts_other T _ c).
Qed.

Lemma safe_delete c args F s : inv F s -> c = "DOCKER-USER" \/ c = "INPUT" ->
  (forall b t, t ∈ ["DROP"; bridgeEgressChain; bridgeHostChain] -> args <> ["-i"; b; "-j"; t]) -> safe (CmdDelete c args) F (fun _ => True) s.
Proof.
  intros [V1 V2 V3 V4] Hc Hargs t' (l1 & r & l2 & Hl & Hsh & ->)%run_delete. split; [|split; [|done]].
  - apply good_docker; [done|..|done]; intros ->; eapply stacked_delete; by apply V1.
  - apply (facts_grow _ c (l1 ++ r :: l2)); [done| |done|done]. intros r' [_ HL] Hr'. simpl in HL.
    destruct HL as (b & t & Ht & ->); [set_solver|]. apply elem_of_app in Hr' as [?|[<-|?]%elem_of_cons]; [set_solver| |set_solver].
    exfalso. apply (Hargs b t Ht). by rewrite <- Hsh, shown_jump.
Qed.
(** ** Operations *)

Lemma inv_sub F F' s : inv F' s -> F ⊆ F' -> inv F s.
Proof.
  intros [V1 V2 V3 V4] Hsub. rewrite Forall_forall in V3, V4. split; [done| |rewrite Forall_forall; intros; apply V3; auto|rewrite Forall_forall; intros; apply V4; auto].
  intros Hne. apply V2. intros ->. destruct F as [|f F]; [done|]. destruct (not_elem_of_nil f). apply Hsub. left.
Qed.

Lemma inv_add f F s : inv F s -> sharedChainsReset s = true -> lasting f -> fact (chains (nt_tables s)) f -> inv (f :: F) s.
Proof. intros [V1 V2 V3 V4] Hr Hl Hf. split; [done|done|by constructor|by constructor]. Qed.

(** A step that establishes [f], and the rest with [f] at hand. *)
Lemma keeps_fact {A B} (m : net A) (k : A -> net B) f F Q s : lasting f ->
  keeps m F (fun _ s' => sharedChainsReset s' = true /\ now (fun T => fact T f) s') s ->
  (forall a s', inv (f :: F) s' -> keeps (k a) (f :: F) Q s') -> keeps (bind m k) F Q s.
Proof.
  intros Hl Hm Hk. eapply keeps_bind; [exact Hm|]. intros a s' Hi [Hr Hf]. pose proof (Hk a s' (inv_add f F s' Hi Hr Hl Hf)) as H.
  eapply wp_mono; [exact H|]. intros o s'' [Hi' Ho]. split; [|done]. eapply inv_sub; [exact Hi'|]. set_solver.
Qed.

Lemma ensureChain_keeps c F s : inv F s -> c = bridgeEgressChain \/ c = bridgeHostChain -> keeps (ensureChain c) F (fun _ _ => True) s.
Proof.
  intros Hi Hc. unfold ensureChain. eapply keeps_bind; [by apply call_keeps, safe_list|]. intros [] s' Hi' _; [by apply keeps_ret|].
  eapply keeps_mono; [by apply must_keeps, safe_new_shared|done].
Qed.

Lemma reset_keeps F s : inv F s -> keeps resetSharedChains F (fun _ s' => sharedChainsReset s' = true) s.
Proof.
  intros Hi. unfold resetSharedChains. apply wp_bind. apply wp_get. cbn beta iota. destruct (sharedChainsReset s) eqn:Er; [by apply keeps_ret|].
  pose proof (no_facts F s Hi Er) as ->. destruct shared_names as (N1 & _).
  unfold each. eapply keeps_bind with (P := fun _ s' => sharedChainsReset s' = false /\ now (fun T => T !! bridgeEgressChain = Some [] /\ T !! bridgeHostChain = Some []) s').
  - eapply keeps_bind; [apply must_keeps with (P := fun T => T !! bridgeEgressChain = Some []); [done|]|].
    { apply safe_flush_shared; [done|by left|done|]. intros l _. apply lookup_insert_eq. }
    intros _ s1 Hi1 [Hr1 H1]. rewrite Er in Hr1.
    eapply keeps_bind; [apply must_keeps with (P := fun T => T !! bridgeEgressChain = Some [] /\ T !! bridgeHostChain = Some []); [done|]|].
    { apply safe_flush_shared; [done|by right|done|]. intros l _. rewrite lookup_insert_eq, lookup_insert_ne by done. done. }
    intros _ s2 Hi2 [Hr2 H2]. apply keeps_ret; [done|]. split; [congruence|done].
  - intros _ s' Hi' [Hr' [He Hh]]. apply wp_modify. split; [|done]. destruct (v_good _ _ Hi') as [G1 G2 G3 G4]. split; [|done|done|done]. split; try done.
    intros _. exists [], []. split; [done|]. split; [done|]. split; [apply ordered_nil|]. split; [done|]. split; [apply ordered_nil|done].
Qed.

Lemma ensureJump_keeps c r F s : inv F s -> sharedChainsReset s = true -> (c = "DOCKER-USER" /\ ours r) \/ (c = "INPUT" /\ host_ours r) ->
  keeps (ensureJump c r) F (fun _ s' => sharedChainsReset s' = true /\ now (fun T => fact T (c, r)) s') s.
Proof.
  intros Hi Hr Hc. unfold ensureJump. eapply keeps_bind; [by apply call_keeps, safe_check|]. intros [] s' Hi' [Hr' Hf]; rewrite Hr in Hr'.
  - apply keeps_ret; auto.
  - eapply keeps_mono; [by apply must_keeps, safe_insert|]. intros _ s'' _ [H1 H2]. split; [congruence|done].
Qed.

Lemma own_shared c : c = bridgeEgressChain \/ c = bridgeHostChain -> c ∉ ["DOCKER-USER"; "INPUT"].
Proof. destruct shared_names as (N1 & N2 & N3 & N4 & N5 & N6). intros Hc. rewrite !elem_of_cons. intros [H|[H|H%not_elem_of_nil]]; destruct Hc; congruence. Qed.

(** The rules of a shared chain, one after the other. *)
Lemma rules_keeps c R todo : (c = bridgeEgressChain /\ R = EGRESS) \/ (c = bridgeHostChain /\ R = HOST) -> NoDup R ->
  forall before F s, R = before ++ todo -> inv F s -> sharedChainsReset s = true -> Forall (fun r => (c, r) ∈ F) before ->
  keeps (each (ensureRule c) todo) F (fun _ s' => inv (((fun r => (c, r)) <$> todo) ++ F) s') s.
Proof.
  intros Hc Hnd. induction todo as [|r todo IH]; intros before F s HR Hi Hr Hb; simpl each; [by apply keeps_ret|].
  assert (Hlast : lasting (c, r)).
  { split; simpl; [destruct Hc as [[-> _]|[-> _]]; set_solver|]. intros H. destruct (own_shared c); [|done]. by destruct Hc as [[-> _]|[-> _]]; [left|right]. }
  assert (Hrule : keeps (ensureRule c r) F (fun _ s' => sharedChainsReset s' = true /\ now (fun T => fact T (c, r)) s') s).
  { unfold ensureRule. eapply keeps_bind; [by apply call_keeps, safe_check|]. intros [] s' Hi' [Hr' Hf]; rewrite Hr in Hr'; [apply keeps_ret; auto|].
    pose proof (v_good _ _ Hi') as G. rewrite Hr' in G. destruct (g_shared _ _ G eq_refl) as (e & h & He & Hh & _).
    assert (Hx : exists x, chains (nt_tables s') !! c = Some x) by (destruct Hc as [[-> _]|[-> _]]; eauto). destruct Hx as [x Hx].
    eapply keeps_mono; [apply must_keeps; [done|]|intros _ s'' _ [H1 H2]; split; [congruence|exact H2]].
    eapply (safe_append_shared c x (length before) r R); try done.
    - rewrite HR. by rewrite lookup_app_r, Nat.sub_diag.
    - intros i y Hlt Hy. rewrite HR, lookup_app_l in Hy by done. rewrite Forall_forall in Hb.
      assert (HyF : (c, y) ∈ F) by (apply Hb; by eapply list_elem_of_lookup_2).
      pose proof (v_facts _ _ Hi') as HF. rewrite Forall_forall in HF. destruct (HF _ HyF) as (x' & Hx' & Hin). simpl in *. congruence. }
  eapply keeps_fact; [done|exact Hrule|]. intros _ s' Hi'.
  assert (Hr' : sharedChainsReset s' = true) by (by apply (v_reset _ _ Hi')).
  eapply keeps_mono; [apply (IH (before ++ [r])); [by rewrite <- app_assoc|done|done|]|].
  - apply Forall_app. split; [|constructor; [left|done]]. eapply Forall_impl; [exact Hb|]. intros y Hy. by right.
  - intros ? s'' ? H. cbn beta in H. eapply inv_sub; [exact H|]. simpl. set_solver.
Qed.

Lemma EGRESS_NoDup : NoDup EGRESS.
Proof.
  unfold EGRESS, bridgeEgressRules, PrivateRangesV4. simpl.
  repeat (apply NoDup_cons; split; [rewrite ?elem_of_cons, elem_of_nil; naive_solver discriminate|]). by apply NoDup_nil.
Qed.

Lemma HOST_NoDup : NoDup HOST.
Proof. eapply bool_decide_unpack. vm_compute. done. Qed.

Lemma jump_lasting b : lasting ("DOCKER-USER", jump b).
Proof. split; [simpl; set_solver|]. intros _. exists b, (if blocked b then "DROP" else bridgeEgressChain). split; [|done]. destruct (blocked b); set_solver. Qed.

Lemma host_jump_lasting b : lasting ("INPUT", host_jump b).
Proof. split; [simpl; set_solver|]. intros _. exists b, bridgeHostChain. split; [set_solver|done]. Qed.

Lemma keeps_facts {A B} (m : net A) (k : A -> net B) G F Q s :
  keeps m F (fun _ s' => inv (G ++ F) s') s -> (forall a s', inv (G ++ F) s' -> keeps (k a) (G ++ F) Q s') -> keeps (bind m k) F Q s.
Proof.
  intros Hm Hk. eapply keeps_bind; [exact Hm|]. intros a s' Hi Hi'. eapply wp_mono; [exact (Hk a s' Hi')|]. intros o s'' [H Ho].
  split; [|done]. eapply inv_sub; [exact H|]. set_solver.
Qed.

(** Facts some command establishes, taken together. *)
Lemma ensureBridge_keeps b F s : inv F s -> bridge b ->
  keeps (ensureBridgePolicy b (blocked b)) F (fun _ s' => inv (policy b ++ F) s') s.
Proof.
  intros Hi Hb. unfold ensureBridgePolicy. destruct (decide (b = "")); [by apply keeps_exit|]. destruct (odd_name b); [by apply keeps_exit|].
  apply wp_bind, wp_get. cbn beta iota. destruct (iface _ _); cbn [negb]; [|by apply keeps_exit].
  eapply keeps_bind; [apply ensureChain_keeps; [done|by left]|]. intros _ s1 Hi1 _.
  eapply keeps_bind; [apply ensureChain_keeps; [done|by right]|]. intros _ s2 Hi2 _.
  eapply keeps_bind; [by apply reset_keeps|]. intros ? s3 Hi3 Hr3. cbn beta in Hr3.
  eapply (keeps_facts _ _ (("DOCKER-USER", jump b) :: ((fun r => (bridgeEgressChain, r)) <$> (if blocked b then [] else EGRESS)))).
  - assert (Hj : keeps (ensureJump "DOCKER-USER" (jump b)) F (fun _ s' => sharedChainsReset s' = true /\ now (fun T => fact T ("DOCKER-USER", jump b)) s') s3).
    { apply ensureJump_keeps; [done|done|]. left. split; [done|]. left. by exists b. }
    unfold jump in *. destruct (blocked b) eqn:Eb.
    + eapply keeps_mono; [exact Hj|]. intros ? s4 Hi4 [Hr4 Hf4]. apply inv_add; [done|done| |done]. pose proof (jump_lasting b) as Hl. unfold jump in Hl. by rewrite Eb in Hl.
    + assert (b = pub) as -> by (destruct Hb as [->| ->]; [done|]; unfold blocked in Eb; by rewrite bool_decide_true in Eb).
      eapply keeps_fact; [|exact Hj|].
      { pose proof (jump_lasting pub) as Hl. unfold jump in Hl. by rewrite Eb in Hl. }
      intros ? s4 Hi4. eapply keeps_mono; [apply (rules_keeps bridgeEgressChain EGRESS EGRESS) with (before := []); [by left|apply EGRESS_NoDup|done|done| |done]|].
      { by apply (v_reset _ _ Hi4). }
      intros ? s5 _ H. cbn beta in H. eapply inv_sub; [exact H|]. set_solver.
  - intros ? s4 Hi4. eapply keeps_fact; [apply (host_jump_lasting b)| |].
    { apply ensureJump_keeps; [done|by apply (v_reset _ _ Hi4)|]. right. split; [done|]. by exists b. }
    intros ? s5 Hi5. eapply keeps_mono; [apply (rules_keeps bridgeHostChain HOST HOST) with (before := []); [by right|apply HOST_NoDup|done|done| |done]|].
    { by apply (v_reset _ _ Hi5). }
    intros ? s6 _ H. cbn beta in H. eapply inv_sub; [exact H|]. unfold policy. set_solver.
Qed.

(** ** A container's chains *)

(** Loops that keep the invariant at every turn. *)
Lemma each_keeps {A} (f : A -> net unit) l F s : inv F s -> (forall x s', x ∈ l -> inv F s' -> keeps (f x) F (fun _ _ => True) s') ->
  keeps (each f l) F (fun _ _ => True) s.
Proof.
  revert s. induction l as [|x l IH]; intros s Hi Hf; simpl each; [by apply keeps_ret|].
  eapply keeps_bind; [apply Hf; [left|done]|]. intros _ s' Hi' _. apply IH; [done|]. intros y s'' Hy. apply Hf. by right.
Qed.

Lemma inv_same F s n : inv F s -> inv F (mkNet I n (nt_tables s) (sharedChainsReset s)).
Proof. intros [V1 V2 V3 V4]. by split. Qed.

Lemma removeJump_keeps parent id suffix F s : inv F s -> docker_id id -> no_space (chars suffix) -> parent ∈ ["DOCKER-USER"; "INPUT"] ->
  keeps (removeJumpReferences parent (ChainName id +:+ suffix)) F (fun _ _ => True) s.
Proof.
  intros Hi Hid Hs Hp. unfold removeJumpReferences. apply wp_bind, wp_get. cbn beta iota. apply wp_bind, wp_modify. cbn beta iota.
  destruct (listing _ _ _) as [[]|lines] eqn:E; [by apply keeps_ret; [apply inv_same|]|by apply keeps_exit, inv_same|].
  apply each_keeps; [by apply inv_same|]. intros line s' Hl Hi'. destruct (jump_args _ _ _) as [args|] eqn:Ha; [|by apply keeps_ret].
  eapply keeps_bind; [apply call_keeps; [done|]; apply safe_delete; [done|set_solver|]|intros; by apply keeps_ret].
  intros b t Ht ->. revert Ha. apply jump_kept; try done. by eapply listing_trimmed.
Qed.

Lemma container_unshared id suffix : docker_id id -> ChainName id +:+ suffix ∉ shared.
Proof. intros Hid H. by eapply chain_distinct. Qed.

Lemma append_empty x : x +:+ "" = x.
Proof. apply chars_inj. by rewrite chars_app, app_nil_r. Qed.

Lemma teardown_keeps id F s : inv F s -> docker_id id -> keeps (teardownLocked id) F (fun _ _ => True) s.
Proof.
  intros Hi Hid. unfold teardownLocked. destruct (decide (id = "")); [by apply keeps_ret|].
  assert (Hsp : no_space (chars "") /\ no_space (chars "-IN") /\ no_space (chars "-HOST")) by (unfold no_space; split_and!; apply (bool_decide_unpack _); vm_compute; done).
  destruct Hsp as (S1 & S2 & S3). rewrite <- (append_empty (ChainName id)).
  eapply keeps_bind; [apply removeJump_keeps; [done..|set_solver]|]. intros _ s1 Hi1 _.
  eapply keeps_bind; [apply removeJump_keeps; [done..|set_solver]|]. intros _ s2 Hi2 _.
  eapply keeps_bind; [apply removeJump_keeps; [done..|set_solver]|]. intros _ s3 Hi3 _.
  apply each_keeps; [done|]. intros c s' Hc Hi'.
  assert (Hu : c ∉ shared) by (repeat (apply elem_of_cons in Hc as [->|Hc]; [by apply container_unshared|]); by apply not_elem_of_nil in Hc).
  eapply keeps_bind; [by eapply call_keeps, (safe_container _ c); [..|right; left]|]. intros ? s4 Hi4 _.
  eapply keeps_bind; [by eapply call_keeps, (safe_container _ c); [..|right; right; left]|]. intros ? s5 Hi5 _. by apply keeps_ret.
Qed.

(** ** The exported operations *)

Lemma EnsureBridge_keeps b F s : inv F s -> bridge b -> keeps (EnsureBridgePolicy b (blocked b)) F (fun _ s' => inv (policy b ++ F) s') s.
Proof.
  intros Hi Hb. unfold EnsureBridgePolicy. eapply keeps_bind; [by apply must_keeps, safe_list|]. intros _ s' Hi' _. by apply ensureBridge_keeps.
Qed.

Lemma ApplyPolicy_keeps b id ip g port F s : inv F s -> bridge b -> docker_id id -> g = "" \/ g = gw b ->
  keeps (ApplyPolicy b id ip g port (blocked b)) F (fun _ s' => inv (policy b ++ F) s') s.
Proof.
  intros Hi Hb Hid Hg. unfold ApplyPolicy. do 2 (destruct (decide _); [by apply keeps_exit|]).
  eapply keeps_bind; [by apply must_keeps, safe_list|]. intros _ s1 Hi1 _.
  eapply keeps_facts; [by apply ensureBridge_keeps|]. intros ? s2 Hi2.
  eapply keeps_bind; [by apply teardown_keeps|]. intros _ s3 Hi3 _.
  pose proof (container_unshared id "-IN" Hid) as Hu. fold (ingressChainName id) in Hu.
  eapply keeps_bind; [by eapply must_keeps, (safe_container _ (ingressChainName id)); [..|left]|]. intros _ s4 Hi4 _.
  eapply keeps_bind; [eapply must_keeps; [done|apply safe_insert; [done|]]|].
  { left. split; [done|]. right. exists (ip +:+ "/32"), port, (ingressChainName id). split; [by exists id|done]. }
  intros _ s5 Hi5 _. eapply keeps_bind with (P := fun _ _ => True).
  { destruct (decide (g <> "")) as [Hne|]; [|by apply keeps_ret].
    eapply keeps_mono; [eapply must_keeps; [done|eapply safe_container; [done|exact Hu|]]|done].
    do 3 right. exists (ingress_accept b g). split; [done|]. left. exists b. by destruct Hg as [-> | ->]. }
  intros _ s6 Hi6 _. eapply keeps_mono; [eapply must_keeps; [done|eapply safe_container; [done|exact Hu|]]|done].
  do 3 right. exists ["-j"; "DROP"]. split; [done|]. by right.
Qed.
End policy.

End NetrulesInv.
