(* ===== verification/NetrulesPolicy.v ===== *)
(** * Which packets of a Docker sandbox pass

    The verdicts of the runner's rules after any sequence of its operations, failed
    ones and restarts included, once a bridge's policy was put in place. *)

From S2P Require Import Prelude GoStrings Ids Netfilter Netrules NetrulesInv.

Module NetrulesPolicy.
Import GoStrings Ids Netfilter Netrules NetrulesInv.

(** ** Intervals of addresses *)

Lemma in_cidr_interval s ip base len : parse_cidr s = (base, len) -> 0 <= len <= 32 -> base mod 2 ^ (32 - len) = 0 ->
  in_cidr s ip = true <-> base <= ip < base + 2 ^ (32 - len).
Proof.
  intros E Hlen Hal. unfold in_cidr. rewrite E, bool_decide_eq_true, !Z.shiftr_div_pow2 by lia.
  assert (Hp : 0 < 2 ^ (32 - len)) by (apply Z.pow_pos_nonneg; lia). set (w := 2 ^ (32 - len)) in *.
  pose proof (Z.div_mod base w ltac:(lia)) as Hb. pose proof (Z.div_mod ip w ltac:(lia)) as Hi. pose proof (Z.mod_pos_bound ip w Hp) as Hm. nia.
Qed.

Definition private (ip : Z) : bool := existsb (fun cidr => in_cidr cidr ip) PrivateRangesV4.

(** ** First matches *)

Definition terminal (p : packet) (r : rule) : Prop := target p r = "ACCEPT" \/ target p r = "DROP".
Definition verdict_of (p : packet) (r : rule) : verdict := if decide (target p r = "ACCEPT") then Accept else Drop.

Lemma traverse_first f T p l1 r l2 : Forall (fun x => matches p x = false) l1 -> matches p r = true -> terminal p r ->
  traverse (S f) T (l1 ++ r :: l2) p = Some (verdict_of p r).
Proof.
  intros Hl Hm Ht. induction Hl as [|x l Hx Hl IH]; simpl app; rewrite traverse_cons; unfold matches, terminal, target, verdict_of in *.
  - destruct (judge r p) as [m t] eqn:E. unfold target. rewrite E. simpl in *. subst. destruct Ht as [-> | ->]; done.
  - destruct (judge x p) as [m t]. simpl in *. subst. exact IH.
Qed.

(** The first rule that matches, if one does. *)
Lemma first_match p R : (exists l1 r l2, R = l1 ++ r :: l2 /\ Forall (fun x => matches p x = false) l1 /\ matches p r = true) \/
  Forall (fun x => matches p x = false) R.
Proof.
  induction R as [|x R IH]; [by right|]. destruct (matches p x) eqn:Hx; [left; by exists [], x, R|].
  destruct IH as [(l1 & r & l2 & -> & H1 & H2)|H]; [|by right; constructor]. left. exists (x :: l1), r, l2. split; [done|]. split; [by constructor|done].
Qed.

Lemma first_occurrence (x : rule) l : x ∈ l -> exists l1 l2, l = l1 ++ x :: l2 /\ x ∉ l1.
Proof.
  induction l as [|y l IH]; [by intros ?%not_elem_of_nil|]. intros Hx. destruct (decide (x = y)) as [->|Hne].
  - exists [], l. split; [done|]. apply not_elem_of_nil.
  - apply elem_of_cons in Hx as [?|Hx]; [done|]. destruct (IH Hx) as (l1 & l2 & -> & Hn). exists (y :: l1), l2. split; [done|]. by rewrite not_elem_of_cons.
Qed.

(** A chain with the rules of [R] in order, repeated or not, judges as [R] does. *)
Lemma traverse_ordered f T p R e : ordered R e -> Forall (fun r => r ∈ R) e -> Forall (fun r => r ∈ e) R -> Forall (terminal p) R ->
  (exists r, r ∈ R /\ matches p r = true) -> traverse (S f) T e p = traverse (S f) T R p.
Proof.
  intros Ho Hin Hall Hterm [r0 [Hr0 Hm0]]. destruct (first_match p R) as [(l1 & r & l2 & HR & H1 & H2)|Hnone].
  2:{ rewrite Forall_forall in Hnone. rewrite (Hnone _ Hr0) in Hm0. done. }
  rewrite Forall_forall in Hall, Hin, Hterm. assert (Hr : r ∈ R) by (rewrite HR; set_solver).
  destruct (first_occurrence r e (Hall _ Hr)) as (e1 & e2 & He & Hn).
  rewrite He, HR, !traverse_first; auto. clear f T. rewrite Forall_forall. intros x Hx.
  assert (HxR : x ∈ R) by (apply Hin; rewrite He; set_solver). rewrite HR in HxR. apply elem_of_app in HxR as [Hx1|Hx2].
  { rewrite Forall_forall in H1. by apply H1. }
  exfalso. apply elem_of_cons in Hx2 as [->|Hx2]; [done|]. destruct (first_occurrence x e1 Hx) as (a1 & a2 & -> & Hna).
  apply list_elem_of_lookup_1 in Hx2 as [j Hj]. apply Hn.
  assert (Hra : r ∈ a1); [|set_solver]. apply (Ho (length l1) (length l1 + S j)%nat r x a1 (a2 ++ r :: e2)); [| |lia|by rewrite He, <- app_assoc|done].
  - rewrite HR. by rewrite lookup_app_r, Nat.sub_diag.
  - rewrite HR. rewrite lookup_app_r by lia. by replace (length l1 + S j - length l1)%nat with (S j) by lia.
Qed.

(** ** What the shared chains say *)

(** A forwarded packet from the public bridge. *)
Definition egress_verdict (pub : string) (p : packet) : verdict :=
  if decide (pk_out p = pub) then Drop else if pk_established p then Accept else if private (pk_dst p) then Drop else Accept.

Definition host_verdict (p : packet) : verdict := if pk_established p then Accept else Drop.

Lemma egress_terminal pub p : Forall (terminal p) (bridgeEgressRules pub).
Proof. unfold bridgeEgressRules, PrivateRangesV4, terminal, target. simpl. repeat apply Forall_cons_2; simpl; auto. Qed.

Lemma drops_verdict f T p l rest : traverse (S f) T (((fun cidr => ["-d"; cidr; "-j"; "DROP"]) <$> l) ++ rest) p =
  if existsb (fun cidr => in_cidr cidr (pk_dst p)) l then Some Drop else traverse (S f) T rest p.
Proof. induction l as [|c l IH]; [done|].
  rewrite fmap_cons, <- app_comm_cons, traverse_cons. cbn [judge existsb]. rewrite andb_true_r. destruct (in_cidr c _); [done|exact IH].
Qed.

Lemma egress_rules_verdict f T pub p : traverse (S f) T (bridgeEgressRules pub) p = Some (egress_verdict pub p).
Proof.
  unfold bridgeEgressRules, egress_verdict. rewrite <- !app_comm_cons, !traverse_cons, app_nil_l. cbn [judge].
  rewrite !andb_true_r. destruct (decide (pk_out p = pub)); [by rewrite bool_decide_true|]. rewrite bool_decide_false by done. cbn [negb].
  destruct (pk_established p); [done|]. etrans; [apply drops_verdict|]. fold (private (pk_dst p)). destruct (private (pk_dst p)); reflexivity.
Qed.

Lemma host_rules_verdict f T p : traverse (S f) T bridgeHostRules p = Some (host_verdict p).
Proof. unfold bridgeHostRules, host_verdict. rewrite !traverse_cons. simpl. rewrite andb_true_r. by destruct (pk_established p). Qed.

(** The paths of a packet through the tables. *)
Definition forwarded (T : gmap string (list rule)) (p : packet) : option verdict := traverse 3 T (default [] (T !! "DOCKER-USER")) p.
Definition delivered (T : gmap string (list rule)) (p : packet) : option verdict := traverse 3 T (default [] (T !! "INPUT")) p.

Section verdicts.
Context {I : Iptables} {L : IptablesLaws I}.
Context (pub closed : string) (gw : string -> string).
Hypothesis (Hpc : pub <> closed).

#[local] Abbreviation bridge := (bridge pub closed).
#[local] Abbreviation blocked := (blocked closed).
#[local] Abbreviation inv := (inv pub closed gw).
#[local] Abbreviation ours := (ours pub closed).

(** Not a packet that claims to come from the gateway of the other bridge. *)
Definition no_gateway_spoof (p : packet) : Prop := forall b, bridge b -> pk_in p <> b -> in_cidr (gw b +:+ "/32") (pk_src p) = false.

(** ** What the invariant says *)

Lemma fact_chain T c r l : fact T (c, r) -> T !! c = Some l -> r ∈ l.
Proof. intros (l' & Hl' & Hr) Hl. simpl in *. congruence. Qed.

Lemma facts_chain F s c R l : Forall (fact (chains (nt_tables s))) F -> ((fun r => (c, r)) <$> R) ⊆ F -> chains (nt_tables s) !! c = Some l ->
  Forall (fun r => r ∈ l) R.
Proof.
  intros HF Hsub Hl. rewrite Forall_forall in HF. apply Forall_forall. intros r Hr. eapply fact_chain; [|exact Hl]. apply HF, Hsub. apply list_elem_of_fmap. eauto.
Qed.

(** The shared chains judge as the rules they are built from. *)
Lemma egress_chain F s f p : inv F s -> policy pub closed pub ⊆ F ->
  traverse (S f) (chains (nt_tables s)) (default [] (chains (nt_tables s) !! bridgeEgressChain)) p = Some (egress_verdict pub p).
Proof.
  intros [V1 V2 V3 V4] Hsub. assert (Hr : sharedChainsReset s = true) by (apply V2; intros ->; eapply not_elem_of_nil, Hsub; left).
  rewrite Hr in V1. destruct (g_shared _ _ _ _ _ V1 eq_refl) as (e & h & He & Hh & O1 & F1 & _). rewrite He. simpl default.
  rewrite (traverse_ordered _ _ _ (EGRESS pub)); [apply egress_rules_verdict|done|done| |apply egress_terminal|].
  - eapply facts_chain; [exact V4| |exact He]. intros x Hx. apply Hsub. unfold policy, NetrulesInv.blocked. rewrite bool_decide_false by done.
    right. right. apply elem_of_app. by left.
  - exists ["-j"; "ACCEPT"]. split; [|done]. unfold EGRESS, bridgeEgressRules. rewrite !elem_of_app. right. right. left.
Qed.

Lemma host_chain b F s f p : inv F s -> policy pub closed b ⊆ F ->
  traverse (S f) (chains (nt_tables s)) (default [] (chains (nt_tables s) !! bridgeHostChain)) p = Some (host_verdict p).
Proof.
  intros [V1 V2 V3 V4] Hsub. assert (Hr : sharedChainsReset s = true) by (apply V2; intros ->; eapply not_elem_of_nil, Hsub; left).
  rewrite Hr in V1. destruct (g_shared _ _ _ _ _ V1 eq_refl) as (e & h & He & Hh & _ & _ & O2 & F2). rewrite Hh. simpl default.
  rewrite (traverse_ordered _ _ _ HOST); [apply host_rules_verdict|done|done| | |].
  - eapply facts_chain; [exact V4| |exact Hh]. intros x Hx. apply Hsub. unfold policy. right. right. apply elem_of_app. by right.
  - unfold HOST, bridgeHostRules, terminal, target. repeat apply Forall_cons_2; simpl; auto.
  - exists ["-j"; "DROP"]. split; [|done]. unfold HOST, bridgeHostRules. set_solver.
Qed.

(** An ingress chain drops, or leaves the packet to the rules below its jump. *)
Lemma ingress_drops F s c f p : inv F s -> ingress_name c -> no_gateway_spoof p -> bridge (pk_in p) ->
  traverse (S f) (chains (nt_tables s)) (default [] (chains (nt_tables s) !! c)) p <> Some Accept.
Proof.
  intros [V1 _ _ _] Hc Hsp Hin. destruct (chains (nt_tables s) !! c) as [l|] eqn:E; simpl default; [|by rewrite traverse_nil].
  pose proof (g_ingress _ _ _ _ _ V1 c l Hc E) as Hl. clear E. induction Hl as [|r l Hr Hl IH]; [done|].
  rewrite traverse_cons. destruct Hr as [(b & Hb & ->)| ->]; [|done]. unfold ingress_accept. cbn [judge].
  destruct (decide (pk_in p = b)) as [->|Hne]; [by rewrite bool_decide_false by naive_solver|].
  rewrite (Hsp b Hb Hne). rewrite andb_false_r. exact IH.
Qed.

Lemma ours_never_accepts F s r f p : inv F s -> no_gateway_spoof p -> bridge (pk_in p) -> ours r -> r <> jump closed (pk_in p) ->
  never_accepts (S f) (chains (nt_tables s)) p r.
Proof.
  intros Hi Hsp Hin Hr Hne l v. rewrite traverse_cons. destruct Hr as [(b & Hb & ->)|(ip & port & c & Hc & ->)].
  - unfold jump. cbn [judge]. rewrite bool_decide_false by (intros <-; done). cbn [negb andb]. by right.
  - cbn [judge]. destruct (_ && _)%bool; cbn [negb]; [|by right]. pose proof (ingress_drops F s c f p Hi Hc Hsp Hin) as Hd.
    assert (Hn : c <> "ACCEPT" /\ c <> "DROP").
    { destruct Hc as (id & Hid & ->). destruct (chain_tail id "-IN" Hid) as (x & t & _ & E). split; intros Heq; unfold ingressChainName in Heq;
        rewrite Heq in E; discriminate E. }
    rewrite !decide_False by apply Hn. destruct (traverse (S f) _ (default _ _) p) as [[]|]; [by destruct Hd|intros [= <-]; by left|by right].
Qed.

(** The rules above a bridge's jump. *)
Lemma above_jump P l b (r : rule) : stacked pub closed P l -> bridge b -> r = jump closed b \/ r = host_jump b -> r ∈ l ->
  exists above below, l = above ++ r :: below /\ Forall (fun x => P x /\ x <> r) above.
Proof.
  intros (A & Fr & -> & HA & HF) Hb Hr Hin. rewrite Forall_forall in HF. apply elem_of_app in Hin as [Hin|Hin].
  2:{ exfalso. destruct (HF _ Hin b Hb). naive_solver. }
  destruct (first_occurrence r A Hin) as (A1 & A2 & -> & Hn). exists A1, (A2 ++ Fr). split; [by rewrite <- app_assoc|].
  apply Forall_app in HA as [HA _]. rewrite Forall_forall in *. intros x Hx. split; [by apply HA|]. by intros ->.
Qed.

Lemma policy_jump b F s : inv F s -> policy pub closed b ⊆ F -> exists l, chains (nt_tables s) !! "DOCKER-USER" = Some l /\ jump closed b ∈ l /\ stacked pub closed ours l.
Proof.
  intros [V1 _ _ V4] Hsub. rewrite Forall_forall in V4. destruct (V4 ("DOCKER-USER", jump closed b)) as (l & Hl & Hr); [apply Hsub; left|].
  exists l. split; [done|]. split; [done|]. by apply (g_forward _ _ _ _ _ V1).
Qed.

Lemma policy_host_jump b F s : inv F s -> policy pub closed b ⊆ F ->
  exists l, chains (nt_tables s) !! "INPUT" = Some l /\ host_jump b ∈ l /\ stacked pub closed (host_ours pub closed) l.
Proof.
  intros [V1 _ _ V4] Hsub. rewrite Forall_forall in V4. destruct (V4 ("INPUT", host_jump b)) as (l & Hl & Hr); [apply Hsub; right; left|].
  exists l. split; [done|]. split; [done|]. by apply (g_input _ _ _ _ _ V1).
Qed.

(** The jump of the packet's own bridge decides. *)
Lemma jump_pub f F s p rest : inv F s -> policy pub closed pub ⊆ F -> pk_in p = pub ->
  traverse (S (S f)) (chains (nt_tables s)) (jump closed pub :: rest) p = Some (egress_verdict pub p).
Proof.
  intros Hi Hsub Hin. rewrite traverse_cons. unfold jump, NetrulesInv.blocked. rewrite bool_decide_false by done. cbn [judge].
  rewrite bool_decide_true by done. cbn [negb andb]. rewrite !decide_False by done. by rewrite (egress_chain F s f p Hi Hsub).
Qed.

Lemma jump_closed f F s p rest : inv F s -> pk_in p = closed ->
  traverse (S (S f)) (chains (nt_tables s)) (jump closed closed :: rest) p = Some Drop.
Proof.
  intros Hi Hin. rewrite traverse_cons. unfold jump, NetrulesInv.blocked. rewrite bool_decide_true by done. cbn [judge].
  by rewrite bool_decide_true by done.
Qed.

(** An ingress jump of the forward chain that catches the packet. *)
Definition caught (T : gmap string (list rule)) (p : packet) : Prop :=
  exists l ip port c, T !! "DOCKER-USER" = Some l /\ ["-d"; ip; "-p"; "tcp"; "--dport"; port; "-j"; c] ∈ l /\ pk_tcp p = true /\
    in_cidr ip (pk_dst p) = true /\ pk_dport p = port.

Lemma forwarded_drop b F s p : inv F s -> policy pub closed b ⊆ F -> bridge b -> pk_in p = b -> no_gateway_spoof p ->
  (b = pub -> egress_verdict pub p = Drop) -> forwarded (chains (nt_tables s)) p = Some Drop.
Proof.
  intros Hi Hsub Hb Hin Hsp Hv. destruct (policy_jump b F s Hi Hsub) as (l & Hl & Hj & Hst). unfold forwarded. rewrite Hl. cbn [default].
  destruct (above_jump _ _ b _ Hst Hb (or_introl eq_refl) Hj) as (above & below & -> & Ha). unfold default, from_option, id. apply traverse_skip.
  - eapply Forall_impl; [exact Ha|]. intros r [Hr Hne]. apply (ours_never_accepts F); [done|done|by rewrite Hin|done|by rewrite Hin].
  - destruct Hb as [-> | ->]; [|by eapply jump_closed]. rewrite (jump_pub _ F) by done. by rewrite Hv.
Qed.

Lemma forwarded_accept F s p : inv F s -> policy pub closed pub ⊆ F -> pk_in p = pub -> egress_verdict pub p = Accept -> ~ caught (chains (nt_tables s)) p ->
  forwarded (chains (nt_tables s)) p = Some Accept.
Proof.
  intros Hi Hsub Hin Hv Hc. destruct (policy_jump pub F s Hi Hsub) as (l & Hl & Hj & Hst). unfold forwarded. rewrite Hl. unfold default, from_option, id.
  destruct (above_jump _ _ pub _ Hst (or_introl eq_refl) (or_introl eq_refl) Hj) as (above & below & -> & Ha).
  assert (Hno : Forall (fun r => matches p r = false) above).
  { rewrite Forall_forall in *. intros r Hr. destruct (Ha r Hr) as [[(b & Hb & ->)|(ip & port & c & Hcn & ->)] Hne].
    - unfold matches, jump. cbn [judge]. rewrite bool_decide_false; [done|]. intros Heq. apply Hne. congruence.
    - unfold matches. cbn [judge fst]. destruct (in_cidr ip (pk_dst p)) eqn:Ed; [|done]. destruct (pk_tcp p) eqn:Et; [|done].
      destruct (decide (pk_dport p = port)) as [Ep|Ep]; [|by rewrite bool_decide_false].
      exfalso. apply Hc. exists (above ++ jump closed pub :: below), ip, port, c. split; [done|]. split; [|done]. apply elem_of_app. by left. }
  rewrite <- Hv. clear Ha Hj Hst Hl. induction above as [|r above IH]; [by apply (jump_pub _ F)|].
  apply Forall_cons in Hno as [Hr Hno]. rewrite <- app_comm_cons, traverse_cons. unfold matches in Hr. destruct (judge r p) as [m t]. simpl in Hr. subst m.
  by apply IH.
Qed.

Lemma delivered_verdict b F s p : inv F s -> policy pub closed b ⊆ F -> bridge b -> pk_in p = b ->
  delivered (chains (nt_tables s)) p = Some (host_verdict p).
Proof.
  intros Hi Hsub Hb Hin. destruct (policy_host_jump b F s Hi Hsub) as (l & Hl & Hj & Hst). unfold delivered. rewrite Hl. unfold default, from_option, id.
  destruct (above_jump _ _ b _ Hst Hb (or_intror eq_refl) Hj) as (above & below & -> & Ha). clear Hj Hst Hl.
  induction above as [|r above IH].
  - rewrite app_nil_l, traverse_cons. unfold host_jump. cbn [judge]. rewrite bool_decide_true by done. cbn [negb andb].
    rewrite !decide_False by done. by rewrite (host_chain b F s).
  - apply Forall_cons in Ha as [[(b' & Hb' & ->) Hne] Ha]. rewrite <- app_comm_cons, traverse_cons. unfold host_jump at 1. cbn [judge].
    rewrite bool_decide_false; [by apply IH|]. intros Heq. apply Hne. congruence.
Qed.

(** ** Histories *)

(** What the runtime calls; an [Apply] names the gateway of its bridge, or none. *)
Inductive op :=
| OpEnsure (b : string)
| OpApply (b id ip : string) (gateway : bool) (port : string)
| OpTeardown (id : string)
| OpRestart.

Definition op_valid (o : op) : Prop :=
  match o with
  | OpEnsure b => bridge b
  | OpApply b id _ _ _ => bridge b /\ docker_id id
  | OpTeardown id => docker_id id
  | OpRestart => True
  end.

(** A new process finds the tables as they are. *)
Definition op_run (o : op) : net (I := I) unit :=
  match o with
  | OpEnsure b => EnsureBridgePolicy b (blocked b)
  | OpApply b id ip g port => ApplyPolicy b id ip (if g then gw b else "") port (blocked b)
  | OpTeardown id => Teardown id
  | OpRestart => modify (fun s => mkNet I (nt_tick s) (nt_tables s) false)
  end.

(** The bridges this process has a policy for, from its successful calls. *)
Definition op_done (o : op) (r : net_error + unit) (bs : list string) : list string :=
  match o, r with
  | OpEnsure b, inr _ | OpApply b _ _ _ _, inr _ => b :: bs
  | OpRestart, _ => []
  | _, _ => bs
  end.

Fixpoint history (os : list op) (bs : list string) (s : netrules I) : list string * netrules I :=
  match os with
  | [] => (bs, s)
  | o :: os' => let '(r, s') := op_run o s in history os' (op_done o r bs) s'
  end.

(** Where the runner starts: whatever is in the shared chains, nothing but its own
    rules above those of others in Docker's. *)
Definition start (s : netrules I) : Prop := sharedChainsReset s = false /\ good pub closed gw false (chains (nt_tables s)).

Definition covers (F : list (string * rule)) (bs : list string) : Prop := Forall (fun b => bridge b /\ policy pub closed b ⊆ F) bs.

Lemma op_keeps o F s bs r s' : inv F s -> covers F bs -> op_valid o -> op_run o s = (r, s') ->
  exists F', inv F' s' /\ covers F' (op_done o r bs).
Proof.
  intros Hi Hc Ho Hrun.
  assert (Hadd : forall b (m : net (I := I) unit), bridge b -> keeps pub closed gw m F (fun _ s' => inv (policy pub closed b ++ F) s') s -> m s = (r, s') ->
    exists F', inv F' s' /\ covers F' (match r with inl _ => bs | inr _ => b :: bs end)).
  { intros b m Hb Hk Hm. unfold keeps, wp in Hk. rewrite Hm in Hk. destruct Hk as [Hi' Hk]. destruct r as [e|[]]; [by exists F|].
    exists (policy pub closed b ++ F). split; [done|]. constructor; [split; [done|]; set_solver|].
    eapply Forall_impl; [exact Hc|]. intros b' [? ?]. split; [done|]. set_solver. }
  destruct o as [b|b id ip g port|id|]; simpl in Ho, Hrun.
  - eapply Hadd; [exact Ho|by apply EnsureBridge_keeps|done].
  - destruct Ho as [Hb Hid]. eapply (Hadd b); [exact Hb| |exact Hrun]. apply ApplyPolicy_keeps; [done..|]. destruct g; auto.
  - pose proof (teardown_keeps pub closed gw Hpc id F s Hi Ho) as Hk. unfold keeps, wp in Hk. unfold Teardown in Hrun. rewrite Hrun in Hk.
    exists F. split; [apply Hk|]. done.
  - injection Hrun as <- <-. exists []. split; [|constructor]. destruct Hi as [[G1 G2 G3 G4] _ _ _]. split; [|done|constructor|constructor]. by split.
Qed.

Lemma history_inv os bs s F : inv F s -> covers F bs -> Forall op_valid os ->
  exists F', inv F' (history os bs s).2 /\ covers F' (history os bs s).1.
Proof.
  revert bs s F. induction os as [|o os IH]; intros bs s F Hi Hc Hv; simpl; [by exists F|]. apply Forall_cons in Hv as [Ho Hv].
  destruct (op_run o s) as [r s'] eqn:E. destruct (op_keeps _ _ _ _ _ _ Hi Hc Ho E) as (F' & Hi' & Hc'). by apply (IH _ _ F').
Qed.

Lemma start_inv os s : start s -> Forall op_valid os ->
  exists F, inv F (history os [] s).2 /\ covers F (history os [] s).1.
Proof. intros [Hr Hg] Hv. apply (history_inv _ _ _ []); [|constructor|done]. split; [by rewrite Hr|done|constructor|constructor]. Qed.

(** C13: After any sequence of policy calls, teardowns and restarts, however many of
    their iptables commands failed, once the policy of the bridge a packet comes in by
    was put in place by this process: a forwarded packet from the bridge without
    egress is dropped; one from the public bridge is dropped if it would go out by the
    same bridge or, unless it belongs to an established connection, to a private
    range; and any other is accepted unless it is for the daemon port of a sandbox.  Two
    conditions: when the runner starts no rule of others stands above its own in Docker's
    chain ([start]), and the packet does not claim the gateway of the other bridge as its
    source ([no_gateway_spoof]; a sandbox has no capabilities). *)
Theorem egress_policy_holds os s b p : start s -> Forall op_valid os -> b ∈ (history os [] s).1 -> pk_in p = b -> no_gateway_spoof p ->
  (b = closed \/ egress_verdict pub p = Drop -> forwarded (chains (nt_tables (history os [] s).2)) p = Some Drop) /\
  (b = pub -> egress_verdict pub p = Accept -> ~ caught (chains (nt_tables (history os [] s).2)) p ->
    forwarded (chains (nt_tables (history os [] s).2)) p = Some Accept).
Proof.
  intros Hs Hv Hb Hin Hsp. destruct (start_inv os s Hs Hv) as (F & Hi & Hc). unfold covers in Hc. rewrite Forall_forall in Hc. destruct (Hc b Hb) as [Hbr Hsub].
  split.
  - intros Hd. apply (forwarded_drop b F); [done..|]. intros ->. by destruct Hd.
  - intros -> Hva Hnc. by apply (forwarded_accept F).
Qed.

(** Likewise, the runner's host takes packets from a sandbox exactly when they
    belong to an established connection: the sandbox reaches nothing of the host that did
    not call it. *)
Theorem host_unreachable os s b p : start s -> Forall op_valid os -> b ∈ (history os [] s).1 -> pk_in p = b ->
  delivered (chains (nt_tables (history os [] s).2)) p = Some (host_verdict p).
Proof.
  intros Hs Hv Hb Hin. destruct (start_inv os s Hs Hv) as (F & Hi & Hc). unfold covers in Hc. rewrite Forall_forall in Hc. destruct (Hc b Hb) as [Hbr Hsub].
  by apply (delivered_verdict b F).
Qed.
End verdicts.

(** ** The ranges *)

Definition ip4 (a b c d : Z) : Z := ((a * 256 + b) * 256 + c) * 256 + d.

(** The private ranges are these intervals of addresses, no more and no less. *)
Theorem private_ranges_exact ip : private ip = true <->
  ip4 10 0 0 0 <= ip <= ip4 10 255 255 255 \/ ip4 172 16 0 0 <= ip <= ip4 172 31 255 255 \/ ip4 192 168 0 0 <= ip <= ip4 192 168 255 255 \/
  ip4 169 254 0 0 <= ip <= ip4 169 254 255 255 \/ ip4 127 0 0 0 <= ip <= ip4 127 255 255 255 \/ ip4 100 64 0 0 <= ip <= ip4 100 127 255 255 \/
  ip4 198 18 0 0 <= ip <= ip4 198 19 255 255 \/ ip4 224 0 0 0 <= ip <= ip4 255 255 255 255 \/ ip = ip4 168 63 129 16.
Proof.
  unfold private, PrivateRangesV4, ip4. cbn [existsb]. rewrite !orb_true_iff.
  repeat match goal with |- context [in_cidr ?s ip = true] =>
    let v := eval vm_compute in (parse_cidr s) in
    match v with (?base, ?len) => rewrite (in_cidr_interval s ip base len) by (reflexivity || lia) end end.
  repeat match goal with |- context [2 ^ ?x] => let v := eval vm_compute in (2 ^ x) in change (2 ^ x) with v end. lia.
Qed.

(** ** An iptables *)

Definition toy_run (n : nat) (cmd : command) (t : gmap string (list rule)) : bool * gmap string (list rule) :=
  let at_chain (c : string) (f : list rule -> bool * gmap string (list rule)) := match t !! c with Some l => f l | None => (false, t) end in
  match cmd with
  | CmdList c => at_chain c (fun _ => (true, t))
  | CmdNew c => match t !! c with Some _ => (false, t) | None => (true, <[c := []]> t) end
  | CmdAppend c r => at_chain c (fun l => (true, <[c := l ++ [r]]> t))
  | CmdInsert c r => at_chain c (fun l => (true, <[c := r :: l]> t))
  | CmdCheck c r => at_chain c (fun l => (bool_decide (r ∈ l), t))
  | CmdDelete c r => at_chain c (fun l => match list_find (fun x => x = r) l with
                                          | Some (i, _) => (true, <[c := take i l ++ drop (S i) l]> t)
                                          | None => (false, t) end)
  | CmdFlush c => at_chain c (fun _ => (true, <[c := []]> t))
  | CmdRemove c => at_chain c (fun l => match l with [] => (true, delete c t) | _ => (false, t) end)
  end.

Definition toy_line (c : string) (r : rule) : string := String.concat " " (["-A"; c] ++ r).

#[local] Instance toy : Iptables := {
  tables := gmap string (list rule);
  chains t := t;
  run := toy_run;
  listing _ c t := match t !! c with
                   | Some l => inr (filter (fun line => TrimSpace line = line) (toy_line c <$> l))
                   | None => inl true
                   end;
  shown r := r;
  iface _ _ := true;
}.

#[local] Instance toy_laws : IptablesLaws toy.
Proof.
  split; simpl; try (intros n c t t'; unfold toy_run; intros Hr; repeat case_match; simplify_eq; eauto; fail).
  - intros n c r t t'. simpl. intros Hr. repeat case_match; simplify_eq; eauto.
  - intros n c r t t'. simpl. intros Hr. repeat case_match; simplify_eq; eauto.
  - intros n c r t t'. simpl. intros Hr. case_match; [|done]. injection Hr as Hr <-. split; [done|]. apply bool_decide_eq_true in Hr. eauto.
  - intros n c r t t'. simpl. intros Hr. case_match; [|done]. case_match; [|done]. case_match. simplify_eq.
    match goal with H : list_find _ _ = Some _ |- _ => apply list_find_Some in H as (Hl & -> & _) end.
    eexists _, _, _. split; [|split; [reflexivity|reflexivity]]. f_equal. by rewrite take_drop_middle.
  - intros n c t lines line Hl Hin. case_match; [|done]. simplify_eq. by apply list_elem_of_filter in Hin as [? _].
  - done.
Qed.

Definition toy_gw (b : string) : string := if decide (b = "br-pub") then "172.20.0.1" else "172.21.0.1".
Definition toy_start : netrules toy :=
  mkNet toy 0 (<["DOCKER-USER" := [["-j"; "RETURN"]]]> (<["INPUT" := [["-i"; "lo"; "-j"; "ACCEPT"]]]> ∅)) false.
Definition toy_ops : list op :=
  [OpEnsure "br-pub"; OpEnsure "br-closed"; OpApply "br-pub" "0a1b" "172.20.0.5" true "8080"; OpTeardown "0a1b";
   OpRestart; OpEnsure "br-closed"; OpApply "br-pub" "ffee0123456789" "172.20.0.6" true "8080"].

Lemma toy_good_for pub closed gw : pub <> "lo" -> closed <> "lo" -> start pub closed gw toy_start.
Proof.
  intros H1 H2. split; [done|]. split; [| | |done].
  - intros c l Hc. simpl. rewrite !lookup_insert_ne by (apply not_eq_sym; eapply ingress_distinct; [done|set_solver]). by rewrite lookup_empty.
  - intros l [= <-]. exists [], [["-j"; "RETURN"]]. split; [done|]. split; [constructor|]. constructor; [|constructor]. intros b _. done.
  - intros l [= <-]. exists [], [["-i"; "lo"; "-j"; "ACCEPT"]]. split; [done|]. split; [constructor|]. constructor; [|constructor].
    intros b [-> | ->]; split; unfold jump, host_jump; congruence.
Qed.

Lemma toy_good : start "br-pub" "br-closed" toy_gw toy_start.
Proof. by apply toy_good_for. Qed.

Lemma toy_id l : bool_decide (l <> [] /\ Forall (fun c => lower_hex c = true) l) = true -> docker_id (of_chars l).
Proof. intros H. unfold docker_id. rewrite chars_of_chars. by apply bool_decide_eq_true in H. Qed.

Lemma toy_valid : Forall (op_valid "br-pub" "br-closed") toy_ops.
Proof.
  assert (H1 : docker_id "0a1b") by (apply (toy_id (chars "0a1b")); vm_compute; done).
  assert (H2 : docker_id "ffee0123456789") by (apply (toy_id (chars "ffee0123456789")); vm_compute; done).
  unfold toy_ops, bridge. repeat apply Forall_cons_2; simpl; unfold bridge; auto.
Qed.

Lemma toy_bridges : (history "br-closed" toy_gw toy_ops [] toy_start).1 = ["br-pub"; "br-closed"].
Proof. vm_compute. reflexivity. Qed.

Definition toy_packet (dst : Z) : packet := mkPacket "br-pub" "eth0" (ip4 172 20 0 6) dst true "443" false.

Lemma toy_no_spoof dst : no_gateway_spoof "br-pub" "br-closed" toy_gw (toy_packet dst).
Proof. intros b [-> | ->] Hne; [done|]. vm_compute. reflexivity. Qed.

Lemma egress_policy_holds_witness :
  forwarded (chains (nt_tables (history "br-closed" toy_gw toy_ops [] toy_start).2)) (toy_packet (ip4 10 1 2 3)) = Some Drop /\
  forwarded (chains (nt_tables (history "br-closed" toy_gw toy_ops [] toy_start).2)) (toy_packet (ip4 8 8 8 8)) = Some Accept.
Proof.
  assert (Hin : "br-pub" ∈ (history "br-closed" toy_gw toy_ops [] toy_start).1) by (rewrite toy_bridges; left). split.
  - apply (egress_policy_holds "br-pub" "br-closed" toy_gw ltac:(done) toy_ops toy_start "br-pub" (toy_packet (ip4 10 1 2 3)) toy_good toy_valid Hin eq_refl (toy_no_spoof _)).
    right. vm_compute. reflexivity.
  - apply (egress_policy_holds "br-pub" "br-closed" toy_gw ltac:(done) toy_ops toy_start "br-pub" (toy_packet (ip4 8 8 8 8)) toy_good toy_valid Hin eq_refl (toy_no_spoof _));
      [reflexivity|vm_compute; reflexivity|].
    intros (l & ip & port & c & Hl & Hr & _ & Hd & Hp). vm_compute in Hl. injection Hl as <-. simpl in Hp. subst port.
    repeat (apply elem_of_cons in Hr as [Hr|Hr]; [discriminate Hr|]). by apply not_elem_of_nil in Hr.
Defined.

Lemma host_unreachable_witness :
  delivered (chains (nt_tables (history "br-closed" toy_gw toy_ops [] toy_start).2)) (toy_packet (ip4 172 20 0 1)) = Some Drop.
Proof.
  apply (host_unreachable "br-pub" "br-closed" toy_gw ltac:(done) toy_ops toy_start "br-pub" (toy_packet (ip4 172 20 0 1)) toy_good toy_valid); [|reflexivity].
  rewrite toy_bridges. left.
Defined.

(** A sandbox of the other bridge that takes the gateway's address for its own is let
    through to the daemon port by these rules: the accept of an ingress chain excludes
    only its own bridge. *)
Example other_bridge_spoofs :
  forwarded (chains (nt_tables (history "br-closed" toy_gw toy_ops [] toy_start).2))
    (mkPacket "br-closed" "br-pub" (ip4 172 20 0 1) (ip4 172 20 0 6) true "8080" false) = Some Accept.
Proof. vm_compute. reflexivity. Qed.

End NetrulesPolicy.
