(* ===== verification/Docker.v ===== *)
(** * Lifecycle of Docker sandboxes
    ([internal/runner/runtime/docker]: runtime.go, crash.go, docker_client.go)

    Create, stop, wake, delete, the lookup of a daemon's URL and the reaction to a
    container that dies, as the critical sections and Docker calls they are made of,
    in any interleaving.  Any call may fail, with or without having taken effect;
    containers die and are restarted by Docker at any point; events may be lost.

    Ghost fields record what the runner cannot see. *)

From S2P Require Import Prelude.

Module Docker.

(** ** Containers as Docker reports them *)

Definition containerStatusRunning : string := "running".
Definition containerStatusCreated : string := "created".
Definition containerStatusExited : string := "exited".
Definition containerStatusRestarting : string := "restarting".

Definition runnerBridgeNetwork : string := "runner-bridge".
Definition runnerNoEgressNetwork : string := "runner-no-egress".

Record containerState := mkState { Status : string; Running : bool; Paused : bool; Restarting : bool; Dead : bool }.

(** [Networks]: the address on each network the container is attached to. *)
Record containerInspect := mkInspect { ID : string; State : containerState; Networks : gmap string string }.

Definition isContainerReady (s : containerState) : bool :=
  bool_decide (Status s = containerStatusRunning) && Running s && negb (Paused s) && negb (Restarting s) && negb (Dead s).

Definition canStartContainer (s : containerState) : bool :=
  if Running s || Paused s || Restarting s || Dead s then false
  else bool_decide (Status s = containerStatusCreated) || bool_decide (Status s = containerStatusExited).

Definition sandboxAttachment (i : containerInspect) : string * string :=
  match Networks i !! runnerBridgeNetwork with
  | Some ip => (runnerBridgeNetwork, ip)
  | None => match Networks i !! runnerNoEgressNetwork with
            | Some ip => (runnerNoEgressNetwork, ip)
            | None => ("", "")
            end
  end.

(** The network of an egress mode, by its name, and the mode of a network. *)
Definition networkFor (blockEgress : bool) : string := if blockEgress then runnerNoEgressNetwork else runnerBridgeNetwork.
Definition networkNamed (name : string) : bool := bool_decide (name = runnerNoEgressNetwork).

(** ** Deaths the runner asked for *)

Record expectedStop := mkStop { es_token : Z; es_at : Z }.

(** Guarded by [mu]. *)
Record marks := mkMarks { expectedStops : gmap string expectedStop; stopToken : Z; restarted : gset string }.

Definition expectedStopTTL : Z := 2 * 60 * 1000000000.

Definition expectStop (now : Z) (containerID : string) (m : marks) : Z * marks :=
  if decide (containerID = "") then (0, m) else
  let swept := filter (fun '(_, stop) => ~ expectedStopTTL < now - es_at stop) (expectedStops m) in
  let token := (stopToken m + 1) mod 2 ^ 64 in
  (token, mkMarks (<[containerID := mkStop token now]> swept) token (restarted m)).

Definition forgetExpectedStop (containerID : string) (token : Z) (m : marks) : marks :=
  if decide (from_option es_token 0 (expectedStops m !! containerID) = token)
  then mkMarks (delete containerID (expectedStops m)) (stopToken m) (restarted m) else m.

Definition takeExpectedStop (now : Z) (containerID : string) (m : marks) : bool * marks :=
  match expectedStops m !! containerID with
  | None => (false, m)
  | Some stop => (bool_decide (now - es_at stop <= expectedStopTTL), mkMarks (delete containerID (expectedStops m)) (stopToken m) (restarted m))
  end.

Definition mark_restarted (sandboxID : string) (m : marks) : marks := mkMarks (expectedStops m) (stopToken m) ({[sandboxID]} ∪ restarted m).
Definition wasRestarted (sandboxID : string) (m : marks) : bool := bool_decide (sandboxID ∈ restarted m).
Definition clearRestarted (sandboxID : string) (m : marks) : marks := mkMarks (expectedStops m) (stopToken m) (restarted m ∖ {[sandboxID]}).

(** ** Docker *)

(** [Between]: dead, and about to be restarted by its restart policy. *)
Inductive phase := Created | Up | Between | Exited.
#[global] Instance phase_eq_dec : EqDecision phase.
Proof. solve_decision. Defined.

(** [c_restarted] (ghost): running because Docker restarted it, and nobody applied the
    network policy since.  [c_stray] (ghost): an operation that gave up on it could not
    clean up, or a remove of it was taken for done although Docker had failed it.
    [c_owned] (ghost): its create returned success. *)
Record container := mkContainer {
  c_label : string;
  c_name : string;
  c_blocked : bool;
  c_phase : phase;
  c_ip : string;
  c_restarted : bool;
  c_stray : bool;
  c_owned : bool;
}.

Definition set_phase (p : phase) (ip : string) (restarted : bool) (k : container) : container :=
  mkContainer (c_label k) (c_name k) (c_blocked k) p ip restarted (c_stray k) (c_owned k).
Definition set_stray (k : container) : container :=
  mkContainer (c_label k) (c_name k) (c_blocked k) (c_phase k) (c_ip k) (c_restarted k) true (c_owned k).
Definition set_owned (k : container) : container :=
  mkContainer (c_label k) (c_name k) (c_blocked k) (c_phase k) (c_ip k) (c_restarted k) (c_stray k) true.

Definition report (p : phase) : containerState :=
  match p with
  | Created => mkState containerStatusCreated false false false false
  | Up => mkState containerStatusRunning true false false false
  | Between => mkState containerStatusRestarting true false true false
  | Exited => mkState containerStatusExited false false false false
  end.

Definition inspect (c : string) (k : container) : containerInspect := mkInspect c (report (c_phase k)) {[networkFor (c_blocked k) := c_ip k]}.

(** ** Program counters *)

(** Who removes a container. *)
Inductive cont := KCreate | KDelete (id : string) | KReconcile (rest : list string).
#[global] Instance cont_eq_dec : EqDecision cont.
Proof. solve_decision. Defined.

Inductive pc :=
(* CreateContainer *)
| CCreate (id : string) (blocked : bool)
| CStart (id c : string) (blocked : bool) | CIp (id c : string) (blocked : bool) | CApply (id c ip : string) (blocked : bool)
| CWait (id c ip : string)
(* removeContainerAndTeardownRules *)
| RMark (c : string) (k : cont) | RRemove (c : string) (token : Z) (k : cont) | RTear (c : string) (k : cont)
(* DeleteSandbox *)
| DFind (id : string) | DClear (id : string)
(* ensureSandboxRunningOnce *)
| WFind (id : string) | WInspect (id c : string) | WCheck (id c : string) (i : containerInspect)
| WAwait (id c : string) | WDecide (id c : string) (i : containerInspect) (recovering : bool)
| WStart (id c : string) (i : containerInspect) (recovering : bool) | WIp (id c : string) (i : containerInspect) (recovering : bool)
| WApply (id c ip : string) (blocked recovering : bool) | WWait (id c ip : string) (recovering : bool) | WClear (id : string)
(* cleanupWakeFailure *)
| WMark (id c : string) | WStop (id c : string) (token : Z) | WTear (id c : string)
(* StopSandboxContainer *)
| SFind (id : string) | SInspect (id c : string) | SPlain (c : string) | SMark (c : string) | SStop (c : string) (token : Z)
(* DaemonURL *)
| UMark (id : string) | UFind (id : string) | UInspect (id c : string)
(* handleContainerDeath *)
| XTake (c id : string) | XMark (id : string)
(* reconcileContainers *)
| KFind.

(** What happened, for the record (ghost). *)
Inductive event := LCrash (id : string) | LReport (id : string) | LDeleted (id : string) | LAdmitted (id : string).
#[global] Instance event_eq_dec : EqDecision event.
Proof. solve_decision. Defined.

(** [used] (ghost): the container ids handed out; Docker does not reuse them.
    [pending]: die events on their way.  [rules]: the containers whose daemon port is
    protected by [netrules], at which address and for which egress mode. *)
Record sys := mkSys {
  cs : gmap string container;
  used : gset string;
  pending : list (string * string);
  rules : gmap string (string * bool);
  mk : marks;
  threads : gmap nat pc;
  clock : Z;
  log : list event;
}.

Definition set_cs (m : gmap string container) (s : sys) : sys := mkSys m (used s) (pending s) (rules s) (mk s) (threads s) (clock s) (log s).
Definition set_used (u : gset string) (s : sys) : sys := mkSys (cs s) u (pending s) (rules s) (mk s) (threads s) (clock s) (log s).
Definition set_pending (l : list (string * string)) (s : sys) : sys := mkSys (cs s) (used s) l (rules s) (mk s) (threads s) (clock s) (log s).
Definition set_rules (m : gmap string (string * bool)) (s : sys) : sys := mkSys (cs s) (used s) (pending s) m (mk s) (threads s) (clock s) (log s).
Definition set_mk (m : marks) (s : sys) : sys := mkSys (cs s) (used s) (pending s) (rules s) m (threads s) (clock s) (log s).
Definition set_threads (m : gmap nat pc) (s : sys) : sys := mkSys (cs s) (used s) (pending s) (rules s) (mk s) m (clock s) (log s).
Definition set_clock (t : Z) (s : sys) : sys := mkSys (cs s) (used s) (pending s) (rules s) (mk s) (threads s) t (log s).
Definition add_log (e : event) (s : sys) : sys := mkSys (cs s) (used s) (pending s) (rules s) (mk s) (threads s) (clock s) (e :: log s).

Definition initial : sys := mkSys ∅ ∅ [] ∅ (mkMarks ∅ 0 ∅) ∅ 0 [].

Definition on_container (c : string) (f : container -> container) (s : sys) : sys :=
  match cs s !! c with Some k => set_cs (<[c := f k]> (cs s)) s | None => s end.

(** [docker container start]: nothing happens to one that runs already. *)
Definition docker_start (c ip : string) (s : sys) : sys :=
  on_container c (fun k => match c_phase k with Created | Exited => set_phase Up ip false k | _ => k end) s.

Definition died (c : string) (k : container) (s : sys) : sys := set_pending (pending s ++ [(c, c_label k)]) s.

Definition docker_stop (c : string) (s : sys) : sys :=
  match cs s !! c with
  | Some k => match c_phase k with
              | Up => died c k (on_container c (set_phase Exited "" false) s)
              | Between => on_container c (set_phase Exited "" false) s
              | _ => s
              end
  | None => s
  end.

Definition docker_rm (c : string) (s : sys) : sys :=
  match cs s !! c with
  | Some k => let s' := set_cs (delete c (cs s)) s in match c_phase k with Up => died c k s' | _ => s' end
  | None => s
  end.

(** [netrules.ApplyPolicy] and [netrules.Teardown]. *)
Definition rules_applied (c ip : string) (blocked : bool) (s : sys) : sys :=
  set_rules (<[c := (ip, blocked)]> (rules s))
    (on_container c (fun k => if decide (c_ip k = ip) then set_phase (c_phase k) (c_ip k) false k else k) s).
Definition rules_removed (c : string) (s : sys) : sys := set_rules (delete c (rules s)) s.

(** ** One step of an operation *)

(** What a call did: it worked; it failed; it failed but took effect; it failed
    without effect and with a text that [isDockerNotFound] takes for a missing
    container. *)
Inductive outcome := Ok | Fail | FailTook | FailNotFound.

Definition took (r : outcome) (f : sys -> sys) (s : sys) : sys := match r with Fail | FailNotFound => s | _ => f s end.

Definition goto (t : nat) (p : pc) (s : sys) : sys := set_threads (<[t := p]> (threads s)) s.
Definition finish (t : nat) (s : sys) : sys := set_threads (delete t (threads s)) s.

(** [sandboxID[:12]] *)
Definition container_name (id : string) : string := "sandbox-" +:+ String.substring 0 12 id.

(** The next container of [reconcileContainers]. *)
Definition next_reconcile (t : nat) (rest : list string) (s : sys) : sys :=
  match rest with [] => finish t s | c :: rest' => goto t (RMark c (KReconcile rest')) s end.

(** A create, with the id ([a]) Docker gives or the address the container gets. *)
Definition CreateContainer (r : outcome) (a : string) (t : nat) (p : pc) (s : sys) : sys :=
  match p with
  | CCreate id blocked =>
      let s' := set_used ({[a]} ∪ used s) s in
      let k stray := mkContainer id (container_name id) blocked Created "" false stray false in
      match r with
      | Ok => goto t (CStart id a blocked) (set_cs (<[a := k false]> (cs s)) s')
      | Fail | FailNotFound => finish t s
      | FailTook => finish t (set_cs (<[a := k true]> (cs s)) s')
      end
  | CStart id c blocked => goto t (match r with Ok => CIp id c blocked | _ => RMark c KCreate end) (took r (docker_start c a) s)
  | CIp id c blocked =>
      goto t (match cs s !! c, r with
              | Some k, Ok => if decide (snd (sandboxAttachment (inspect c k)) = "") then RMark c KCreate
                              else CApply id c (snd (sandboxAttachment (inspect c k))) blocked
              | _, _ => RMark c KCreate
              end) s
  | CApply id c ip blocked =>
      match r with
      | Ok => goto t (CWait id c ip) (rules_applied c ip blocked s)
      | Fail | FailNotFound => goto t (RMark c KCreate) s
      | FailTook => goto t (RMark c KCreate) (rules_removed c s)
      end
  | CWait id c ip =>
      match r with
      | Ok => finish t (on_container c set_owned s)
      | _ => goto t (RMark c KCreate) s
      end
  | _ => s
  end.

(** [removeContainer] answers nil for a remove that failed with a text that reads as
    not found, whether the container is there or not; the rules then come down. *)
Definition removeContainerAndTeardownRules (r : outcome) (t : nat) (p : pc) (s : sys) : sys :=
  match p with
  | RMark c k =>
      if decide (c = "") then match k with KReconcile rest => next_reconcile t rest s | KDelete id => goto t (DClear id) s | KCreate => finish t s end
      else let '(token, m) := expectStop (clock s) c (mk s) in goto t (RRemove c token k) (set_mk m s)
  | RRemove c token k =>
      let s' := took r (docker_rm c) s in
      match r with
      | Ok => goto t (RTear c k) s'
      | FailNotFound => goto t (RTear c k) (on_container c set_stray s')
      | _ =>
          let s'' := set_mk (forgetExpectedStop c token (mk s')) s' in
          match k with
          | KCreate => finish t (on_container c set_stray s'')
          | KDelete _ => finish t s''
          | KReconcile rest => next_reconcile t rest s''
          end
      end
  | RTear c k =>
      let s' := match r with Fail | FailNotFound => s | _ => rules_removed c s end in
      match k with
      | KCreate => finish t s'
      | KDelete id => goto t (DClear id) s'
      | KReconcile rest => next_reconcile t rest s'
      end
  | _ => s
  end.

(** [FindContainerIDByLabel]: [a] is the first id listed, empty if there is none. *)
Definition found (r : outcome) (a : string) (t : nat) (p : pc) (s : sys) : sys :=
  match r with Ok => if decide (a = "") then finish t s else goto t p s | _ => finish t s end.

(** [inspectContainer]; a container that is not there is an error too. *)
Definition inspected (r : outcome) (c : string) (t : nat) (k : containerInspect -> pc) (s : sys) : sys :=
  match cs s !! c, r with
  | Some x, Ok => goto t (k (inspect c x)) s
  | _, _ => finish t s
  end.

Definition DeleteSandbox (r : outcome) (a : string) (t : nat) (p : pc) (s : sys) : sys :=
  match p with
  | DFind id => found r a t (RMark a (KDelete id)) s
  | DClear id => finish t (add_log (LDeleted id) (set_mk (clearRestarted id (mk s)) s))
  | _ => s
  end.

Definition ensureSandboxRunningOnce (r : outcome) (a : string) (t : nat) (p : pc) (s : sys) : sys :=
  match p with
  | WFind id => found r a t (WInspect id a) s
  | WInspect id c => inspected r c t (WCheck id c) s
  | WCheck id c i =>
      let recovering := wasRestarted id (mk s) in
      if negb recovering && isContainerReady (State i) then finish t s
      else goto t (if recovering then WAwait id c else WDecide id c i false) s
  | WAwait id c =>
      match cs s !! c, r with
      | Some k, Ok => if Restarting (State (inspect c k)) then s else goto t (WDecide id c (inspect c k) true) s
      | _, _ => finish t s
      end
  | WDecide id c i recovering =>
      if isContainerReady (State i) then goto t (WIp id c i recovering) s
      else if canStartContainer (State i) then goto t (WStart id c i recovering) s
      else finish t s
  | WStart id c i recovering =>
      let s' := took r (docker_start c a) s in
      match r with
      | Ok => goto t (WIp id c i recovering) s'
      | _ => finish t (match r with FailTook => on_container c set_stray s' | _ => s' end)
      end
  | WIp id c i recovering =>
      goto t (match cs s !! c, r with
              | Some k, Ok => if decide (snd (sandboxAttachment (inspect c k)) = "") then WMark id c
                              else WApply id c (snd (sandboxAttachment (inspect c k))) (networkNamed (fst (sandboxAttachment i))) recovering
              | _, _ => WMark id c
              end) s
  | WApply id c ip blocked recovering =>
      match r with
      | Ok => goto t (WWait id c ip recovering) (rules_applied c ip blocked s)
      | Fail | FailNotFound => goto t (WMark id c) s
      | FailTook => goto t (WMark id c) (rules_removed c s)
      end
  | WWait id c ip recovering =>
      match r with
      | Ok => if recovering : bool then goto t (WClear id) s else finish t s
      | _ => goto t (WMark id c) s
      end
  | WClear id => finish t (add_log (LReport id) (set_mk (clearRestarted id (mk s)) s))
  | _ => s
  end.

Definition cleanupWakeFailure (r : outcome) (t : nat) (p : pc) (s : sys) : sys :=
  match p with
  | WMark id c => let '(token, m) := expectStop (clock s) c (mk s) in goto t (WStop id c token) (set_mk m s)
  | WStop id c token =>
      let s' := took r (docker_stop c) s in
      match r with
      | Ok => goto t (WTear id c) s'
      | _ => finish t (on_container c set_stray (set_mk (forgetExpectedStop c token (mk s')) s'))
      end
  | WTear id c => finish t (match r with Fail | FailNotFound => s | _ => rules_removed c s end)
  | _ => s
  end.

Definition StopSandboxContainer (r : outcome) (a : string) (t : nat) (p : pc) (s : sys) : sys :=
  match p with
  | SFind id => found r a t (SInspect id a) s
  | SInspect id c =>
      match cs s !! c, r with
      | Some k, Ok => if negb (Running (State (inspect c k))) then finish t s
                      else goto t (if Restarting (State (inspect c k)) then SPlain c else SMark c) s
      | _, _ => finish t s
      end
  | SPlain c => finish t (took r (docker_stop c) s)
  | SMark c => let '(token, m) := expectStop (clock s) c (mk s) in goto t (SStop c token) (set_mk m s)
  | SStop c token =>
      let s' := took r (docker_stop c) s in
      finish t (match r with Ok => s' | _ => set_mk (forgetExpectedStop c token (mk s')) s' end)
  | _ => s
  end.

(** What a URL names: the address; [None] for an error. *)
Definition DaemonURL_of (i : containerInspect) : option string :=
  if negb (isContainerReady (State i)) then None
  else if decide (snd (sandboxAttachment i) = "") then None
  else Some (snd (sandboxAttachment i)).

Definition DaemonURL (r : outcome) (a : string) (t : nat) (p : pc) (s : sys) : sys :=
  match p with
  | UMark id => if wasRestarted id (mk s) then finish t s else goto t (UFind id) (add_log (LAdmitted id) s)
  | UFind id => found r a t (UInspect id a) s
  | UInspect id c => finish t s
  | _ => s
  end.

Definition handleContainerDeath (t : nat) (p : pc) (s : sys) : sys :=
  match p with
  | XTake c id =>
      let '(expected, m) := takeExpectedStop (clock s) c (mk s) in
      let s' := set_mk m s in
      if expected : bool then finish t s' else if decide (id = "") then finish t s' else goto t (XMark id) s'
  | XMark id => finish t (add_log (LCrash id) (set_mk (mark_restarted id (mk s)) s))
  | _ => s
  end.

(** [ids]: the containers listed. *)
Definition reconcileContainers (r : outcome) (ids : list string) (t : nat) (s : sys) : sys :=
  match r with Ok => next_reconcile t ids s | _ => finish t s end.

Definition advance (r : outcome) (a : string) (ids : list string) (t : nat) (p : pc) (s : sys) : sys :=
  match p with
  | CCreate _ _ | CStart _ _ _ | CIp _ _ _ | CApply _ _ _ _ | CWait _ _ _ => CreateContainer r a t p s
  | RMark _ _ | RRemove _ _ _ | RTear _ _ => removeContainerAndTeardownRules r t p s
  | DFind _ | DClear _ => DeleteSandbox r a t p s
  | WFind _ | WInspect _ _ | WCheck _ _ _ | WAwait _ _ | WDecide _ _ _ _ | WStart _ _ _ _ | WIp _ _ _ _ | WApply _ _ _ _ _
  | WWait _ _ _ _ | WClear _ => ensureSandboxRunningOnce r a t p s
  | WMark _ _ | WStop _ _ _ | WTear _ _ => cleanupWakeFailure r t p s
  | SFind _ | SInspect _ _ | SPlain _ | SMark _ | SStop _ _ => StopSandboxContainer r a t p s
  | UMark _ | UFind _ | UInspect _ _ => DaemonURL r a t p s
  | XTake _ _ | XMark _ => handleContainerDeath t p s
  | KFind => reconcileContainers r ids t s
  end.

(** What Docker can answer: ids are new, names are not taken, lookups by label and by
    id are right, and a container that is not there cannot be started or stopped. *)
Definition reply_ok (r : outcome) (a : string) (ids : list string) (p : pc) (s : sys) : Prop :=
  match p, r with
  | CCreate id _, (Ok | FailTook) => a <> "" /\ a ∉ used s /\ forall c k, cs s !! c = Some k -> c_name k <> container_name id
  | (CStart _ c _ | WStart _ c _ _ | WStop _ c _ | SPlain c | SStop c _), (Ok | FailTook) => is_Some (cs s !! c)
  | (DFind id | WFind id | SFind id | UFind id), Ok =>
      (a = "" /\ forall c k, cs s !! c = Some k -> c_label k <> id) \/ exists k, cs s !! a = Some k /\ c_label k = id
  | KFind, Ok => forall c, c ∈ ids <-> is_Some (cs s !! c)
  | _, _ => True
  end.

(** ** The runtime over time *)

(** The sandbox a create or a wake is about. *)
Definition creates (p : pc) : option string :=
  match p with
  | CCreate id _ | CStart id _ _ | CIp id _ _ | CApply id _ _ _ | CWait id _ _ => Some id
  | _ => None
  end.
Definition wakes (p : pc) : option string :=
  match p with
  | WFind id | WInspect id _ | WCheck id _ _ | WAwait id _ | WDecide id _ _ _ | WStart id _ _ _ | WIp id _ _ _ | WApply id _ _ _ _
  | WWait id _ _ _ | WClear id | WMark id _ | WStop id _ _ | WTear id _ => Some id
  | _ => None
  end.

Definition nobody (f : pc -> option string) (id : string) (s : sys) : Prop := forall t p, threads s !! t = Some p -> f p <> Some id.

(** Wakes of a sandbox share one flight; a sandbox is woken only once its create has
    returned, since the API knows no sandbox before that. *)
Inductive op := OCreate (id : string) (blocked : bool) | OWake (id : string) | OStop (id : string) | ODelete (id : string) | OURL (id : string) | OReconcile.

Definition op_start (o : op) : pc :=
  match o with
  | OCreate id blocked => CCreate id blocked
  | OWake id => WFind id
  | OStop id => SFind id
  | ODelete id => DFind id
  | OURL id => UMark id
  | OReconcile => KFind
  end.

Definition op_ok (o : op) (s : sys) : Prop :=
  match o with
  | OCreate id _ => (12 <= String.length id)%nat /\ nobody wakes id s
  | OWake id => nobody wakes id s /\ nobody creates id s
  | _ => True
  end.

Inductive step : sys -> sys -> Prop :=
| step_op s o t : threads s !! t = None -> op_ok o s -> step s (goto t (op_start o) s)
| step_advance s r a ids t p : threads s !! t = Some p -> reply_ok r a ids p s -> step s (advance r a ids t p s)
(* the container's main process dies; Docker restarts it, or gives up *)
| step_crash s c k : cs s !! c = Some k -> c_phase k = Up -> step s (died c k (on_container c (set_phase Between "" false) s))
| step_restart s c k ip : cs s !! c = Some k -> c_phase k = Between -> step s (on_container c (set_phase Up ip true) s)
| step_give_up s c k : cs s !! c = Some k -> c_phase k = Between -> step s (on_container c (set_phase Exited "" false) s)
(* watchContainerDeaths: an event arrives, or is lost with its stream *)
| step_event s c id rest t : pending s = (c, id) :: rest -> threads s !! t = None -> step s (goto t (XTake c id) (set_pending rest s))
| step_lost s e rest : pending s = e :: rest -> step s (set_pending rest s)
| step_tick s now : clock s <= now -> step s (set_clock now s).

End Docker.
