(* ===== verification/DockerInv.v ===== *)
(** * The invariant of the Docker lifecycle

    What every operation in progress knows of its container, who may start a
    container or change its rules, and that a running container is protected. *)

From S2P Require Import Prelude Docker.

Module DockerInv.
Import Docker.

(** ** What an operation knows of its container *)

Definition body (p : pc) : option string :=
  match p with
  | CStart _ c _ | CIp _ c _ | CApply _ c _ _ | CWait _ c _ | RMark c _ | RRemove c _ _ | RTear c _ | WInspect _ c | WCheck _ c _
  | WAwait _ c | WDecide _ c _ _ | WStart _ c _ _ | WIp _ c _ _ | WApply _ c _ _ _ | WWait _ c _ _ | WMark _ c | WStop _ c _
  | WTear _ c | SInspect _ c | SPlain c | SMark c | SStop c _ | UInspect _ c => Some c
  | _ => None
  end.

(** The address read is that of the container, unless Docker restarted it since. *)
Definition current (k : container) (ip : string) : Prop := c_phase k = Up -> c_restarted k = false -> c_ip k = ip.
Definition at_rest (k : container) : Prop := c_phase k = Created \/ c_phase k = Exited.
Definition attached (i : containerInspect) (k : container) : Prop := fst (sandboxAttachment i) = networkFor (c_blocked k).

Definition fits (p : pc) (k : container) : Prop :=
  match p with
  | CStart id _ b | CIp id _ b => c_label k = id /\ c_blocked k = b
  | CApply id _ ip b => c_label k = id /\ c_blocked k = b /\ current k ip
  | CWait id _ _ => c_label k = id
  | RTear _ _ => c_stray k = true
  | WInspect id _ | WAwait id _ | WMark id _ | WStop id _ _ | WWait id _ _ _ | UInspect id _ | SInspect id _ => c_label k = id
  | WCheck id _ i | WDecide id _ i _ | WStart id _ i _ | WIp id _ i _ => c_label k = id /\ attached i k
  | WApply id _ ip b _ => c_label k = id /\ c_blocked k = b /\ current k ip
  | WTear id _ => c_label k = id /\ at_rest k
  | _ => True
  end.

(** The ids an operation still holds. *)
Definition holds (p : pc) : list string :=
  match p with RMark _ (KReconcile l) | RRemove _ _ (KReconcile l) | RTear _ (KReconcile l) => l | _ => [] end.

(** The container a create made. *)
Definition made (p : pc) : option string :=
  match p with CStart _ c _ | CIp _ c _ | CApply _ c _ _ | CWait _ c _ => Some c | _ => None end.

(** Operations that are about to protect a container or to stop it, and those that
    still have to return it or remove it. *)
Definition guarding (p : pc) (c : string) : bool :=
  match p with
  | CIp _ c' _ | CApply _ c' _ _ | RMark c' KCreate | RRemove c' _ KCreate | WIp _ c' _ _ | WApply _ c' _ _ _ | WMark _ c' | WStop _ c' _ =>
      bool_decide (c' = c)
  | _ => false
  end.
Definition making (p : pc) (c : string) : bool :=
  match p with
  | CStart _ c' _ | CIp _ c' _ | CApply _ c' _ _ | CWait _ c' _ | RMark c' KCreate | RRemove c' _ KCreate => bool_decide (c' = c)
  | _ => false
  end.

Definition protected (R : gmap string (string * bool)) (c : string) (k : container) : Prop := R !! c = Some (c_ip k, c_blocked k).

(** Nothing to protect, protected, or given up. *)
Definition settled (R : gmap string (string * bool)) (c : string) (k : container) : Prop :=
  c_phase k = Up -> c_restarted k = false -> c_stray k = false -> protected R c k.
Definition kept (k : container) : Prop := c_owned k = true \/ c_stray k = true.

(** ** The invariant *)

Record inv (s : sys) : Prop := {
  i_empty : "" ∉ used s;
  i_used c k : cs s !! c = Some k -> c ∈ used s;
  i_body t p c : threads s !! t = Some p -> body p = Some c -> c ∈ used s;
  i_holds t p c : threads s !! t = Some p -> c ∈ holds p -> c ∈ used s;
  i_fits t p c k : threads s !! t = Some p -> body p = Some c -> cs s !! c = Some k -> fits p k;
  i_wakes t p t' p' id : threads s !! t = Some p -> threads s !! t' = Some p' -> wakes p = Some id -> wakes p' = Some id -> t = t';
  i_excl t p t' p' id : threads s !! t = Some p -> threads s !! t' = Some p' -> wakes p = Some id -> creates p' = Some id -> False;
  i_made t p t' p' c : threads s !! t = Some p -> threads s !! t' = Some p' -> made p = Some c -> made p' = Some c -> t = t';
  i_guard c k : cs s !! c = Some k -> settled (rules s) c k \/ exists t p, threads s !! t = Some p /\ guarding p c = true;
  i_kept c k : cs s !! c = Some k -> kept k \/ exists t p, threads s !! t = Some p /\ making p c = true;
}.

(** Only these fields matter. *)
Definition same_core (s s' : sys) : Prop := cs s' = cs s /\ used s' = used s /\ rules s' = rules s /\ threads s' = threads s.

Lemma inv_core s s' : same_core s s' -> inv s -> inv s'.
Proof. intros (E1 & E2 & E3 & E4) [I0 I1 I2 I3 I4 I5 I6 I7 I8 I9]. split; rewrite ?E1, ?E2, ?E3, ?E4; assumption. Qed.

(** A change to a container that starts nothing. *)
Record mild (k k' : container) : Prop := {
  m_label : c_label k' = c_label k;
  m_blocked : c_blocked k' = c_blocked k;
  m_up : c_phase k' = Up -> c_restarted k' = false -> c_phase k = Up /\ c_restarted k = false /\ c_ip k' = c_ip k;
  m_rest : at_rest k -> at_rest k';
  m_stray : c_stray k = true -> c_stray k' = true;
  m_kept : kept k -> kept k';
}.

Lemma mild_fits p k k' : mild k k' -> fits p k -> fits p k'.
Proof.
  intros [M1 M2 M3 M4 M5 M6]. assert (Hc : forall ip, current k ip -> current k' ip).
  { intros ip Hc Hu Hr. destruct (M3 Hu Hr) as (H1 & H2 & ->). by apply Hc. }
  destruct p; simpl; unfold attached; rewrite ?M1, ?M2; naive_solver.
Qed.

Lemma mild_settled R c k k' : mild k k' -> settled R c k -> settled R c k'.
Proof.
  intros [M1 M2 M3 M4 M5 M6] Hs Hu Hr Hst. destruct (M3 Hu Hr) as (H1 & H2 & E). unfold protected. rewrite E, M2. apply Hs; [done|done|].
  destruct (c_stray k) eqn:Ek; [|done]. by rewrite M5 in Hst.
Qed.

Lemma inv_mild s c k k' : inv s -> cs s !! c = Some k -> mild k k' -> inv (set_cs (<[c := k']> (cs s)) s).
Proof.
  intros [I0 I1 I2 I3 I4 I5 I6 I7 I8 I9] Hc Hm. split; simpl; try assumption.
  - intros c' x. rewrite lookup_insert_Some. intros [[<- <-]|[_ H]]; eauto.
  - intros t p c' x Ht Hb. rewrite lookup_insert_Some. intros [[<- <-]|[_ H]]; [|by eapply I4]. eapply mild_fits; [exact Hm|]. by eapply I4.
  - intros c' x. rewrite lookup_insert_Some. intros [[<- <-]|[_ H]]; [|by apply I8]. destruct (I8 _ _ Hc) as [H|H]; [left; by eapply mild_settled|by right].
  - intros c' x. rewrite lookup_insert_Some. intros [[<- <-]|[_ H]]; [|by apply I9]. destruct (I9 _ _ Hc) as [H|H]; [left; by apply (m_kept _ _ Hm)|by right].
Qed.

Lemma inv_del s c : inv s -> inv (set_cs (delete c (cs s)) s).
Proof.
  intros [I0 I1 I2 I3 I4 I5 I6 I7 I8 I9]. split; simpl; try assumption; intros *; rewrite lookup_delete_Some; naive_solver.
Qed.

Lemma inv_unrule s c : inv s -> (forall k, cs s !! c = Some k -> c_phase k <> Up \/ c_stray k = true \/ exists t p, threads s !! t = Some p /\ guarding p c = true) ->
  inv (rules_removed c s).
Proof.
  intros [I0 I1 I2 I3 I4 I5 I6 I7 I8 I9] Hc. split; simpl; try assumption. intros c' k Hk. destruct (decide (c' = c)) as [->|Hne].
  - destruct (Hc k Hk) as [H|[H|H]]; [left; by intros ?|left; intros _ _; by rewrite H|by right].
  - destruct (I8 _ _ Hk) as [H|H]; [|by right]. left. unfold settled, protected. rewrite lookup_delete_ne by done. exact H.
Qed.

(** ** An operation moves on *)

(** The invariant but for what it says of the operation [t] and, as far as they rest
    on [t], the containers of [G] and [K]. *)
Record inv_but (t : nat) (G K : string -> Prop) (s : sys) : Prop := {
  b_empty : "" ∉ used s;
  b_used c k : cs s !! c = Some k -> c ∈ used s;
  b_body t' p c : t' <> t -> threads s !! t' = Some p -> body p = Some c -> c ∈ used s;
  b_holds t' p c : t' <> t -> threads s !! t' = Some p -> c ∈ holds p -> c ∈ used s;
  b_fits t' p c k : t' <> t -> threads s !! t' = Some p -> body p = Some c -> cs s !! c = Some k -> fits p k;
  b_wakes t1 p t2 p' id : threads s !! t1 = Some p -> threads s !! t2 = Some p' -> wakes p = Some id -> wakes p' = Some id -> t1 = t2;
  b_excl t1 p t2 p' id : threads s !! t1 = Some p -> threads s !! t2 = Some p' -> wakes p = Some id -> creates p' = Some id -> False;
  b_made t1 p t2 p' c : threads s !! t1 = Some p -> threads s !! t2 = Some p' -> made p = Some c -> made p' = Some c -> t1 = t2;
  b_guard c k : cs s !! c = Some k -> settled (rules s) c k \/ G c \/ exists t' p, t' <> t /\ threads s !! t' = Some p /\ guarding p c = true;
  b_kept c k : cs s !! c = Some k -> kept k \/ K c \/ exists t' p, t' <> t /\ threads s !! t' = Some p /\ making p c = true;
}.

Lemma inv_but_of s t p : inv s -> threads s !! t = Some p -> inv_but t (fun c => guarding p c = true) (fun c => making p c = true) s.
Proof.
  intros [I0 I1 I2 I3 I4 I5 I6 I7 I8 I9] Ht. split; try assumption; try (intros; eauto; fail).
  - intros c k Hk. destruct (I8 _ _ Hk) as [H|(t' & q & Hq & Hg)]; [by left|]. right. destruct (decide (t' = t)) as [->|]; [left; congruence|right; eauto].
  - intros c k Hk. destruct (I9 _ _ Hk) as [H|(t' & q & Hq & Hg)]; [by left|]. right. destruct (decide (t' = t)) as [->|]; [left; congruence|right; eauto].
Qed.

Definition same_or_none (f : pc -> option string) (p p' : pc) : Prop := f p' = f p \/ f p' = None.
Definition alone (t : nat) (c : string) (s : sys) : Prop := forall t' q, t' <> t -> threads s !! t' = Some q -> made q <> Some c.
Definition names (t : nat) (s : sys) (p p' : pc) : Prop :=
  same_or_none wakes p p' /\ same_or_none creates p p' /\ (made p' = None \/ made p' = made p \/ exists c, made p' = Some c /\ alone t c s).

(** What the next place of an operation has to know; [None]: it ends. *)
Record follows (G K : string -> Prop) (s : sys) (o : option pc) : Prop := {
  f_body p' c : o = Some p' -> body p' = Some c -> c ∈ used s /\ forall k, cs s !! c = Some k -> fits p' k;
  f_holds p' c : o = Some p' -> c ∈ holds p' -> c ∈ used s;
  f_guard c k : G c -> cs s !! c = Some k -> (exists p', o = Some p' /\ guarding p' c = true) \/ settled (rules s) c k;
  f_kept c k : K c -> cs s !! c = Some k -> (exists p', o = Some p' /\ making p' c = true) \/ kept k;
}.

Definition move (t : nat) (o : option pc) (s : sys) : sys := set_threads (update_thread t o (threads s)) s.

Lemma same_or_none_Some f p p' id : same_or_none f p p' -> f p' = Some id -> f p = Some id.
Proof. intros [H|H] E; congruence. Qed.

Lemma dinv_move s t p o G K : inv_but t G K s -> threads s !! t = Some p -> (forall p', o = Some p' -> names t s p p') -> follows G K s o -> inv (move t o s).
Proof.
  intros [I0 I1 I2 I3 I4 I5 I6 I7 I8 I9] Ht F3 [F1 F2 F4 F5].
  assert (Hback : forall t' q, update_thread t o (threads s) !! t' = Some q -> exists q', threads s !! t' = Some q' /\ same_or_none wakes q' q /\ same_or_none creates q' q).
  { intros t' q [[<- Ho]|[_ Hq]]%update_thread_Some; [exists p; split; [done|]; by destruct (F3 _ Ho) as (? & ? & _)|exists q; split; [done|]; split; by left]. }
  split; simpl; [exact I0|exact I1|..].
  - intros t' q c [[<- Ho]|[? Hq]]%update_thread_Some Hb; [by eapply F1|by eapply I2].
  - intros t' q c [[<- Ho]|[? Hq]]%update_thread_Some Hb; [by eapply F2|by eapply I3].
  - intros t' q c k [[<- Ho]|[? Hq]]%update_thread_Some Hb Hk; [by eapply F1|by eapply I4].
  - intros t1 q1 t2 q2 id H1 H2 W1 W2. destruct (Hback _ _ H1) as (r1 & R1 & S1 & _). destruct (Hback _ _ H2) as (r2 & R2 & S2 & _).
    eapply I5; [exact R1|exact R2|..]; by eapply same_or_none_Some.
  - intros t1 q1 t2 q2 id H1 H2 W1 W2. destruct (Hback _ _ H1) as (r1 & R1 & S1 & _). destruct (Hback _ _ H2) as (r2 & R2 & _ & S2).
    eapply I6; [exact R1|exact R2|..]; by eapply same_or_none_Some.
  - assert (Hm : forall q t' q' c, o = Some q -> t' <> t -> threads s !! t' = Some q' -> made q = Some c -> made q' = Some c -> False).
    { intros q t' q' c Ho Hne Hq' W1 W2. destruct (F3 _ Ho) as (_ & _ & [H|[H|(c' & H & Ha)]]); [congruence| |].
      - destruct Hne. symmetry. apply (I7 t p t' q' c); congruence.
      - eapply Ha; [exact Hne|exact Hq'|congruence]. }
    intros t1 q1 t2 q2 c [[<- H1]|[N1 H1]]%update_thread_Some [[<- H2]|[N2 H2]]%update_thread_Some W1 W2; [done|..|exact (I7 _ _ _ _ _ H1 H2 W1 W2)]; exfalso.
    + eapply (Hm q1 t2 q2 c); eauto.
    + eapply (Hm q2 t1 q1 c); eauto.
  - intros c k Hk. destruct (I8 _ _ Hk) as [H|[HG|(t' & q & Hne & Hq & Hg)]]; [by left|..].
    + destruct (F4 _ _ HG Hk) as [(p' & -> & Hg')|H]; [|by left]. right. exists t, p'. split; [|done]. apply update_thread_Some. by left.
    + right. exists t', q. split; [|done]. apply update_thread_Some. right. done.
  - intros c k Hk. destruct (I9 _ _ Hk) as [H|[HG|(t' & q & Hne & Hq & Hg)]]; [by left|..].
    + destruct (F5 _ _ HG Hk) as [(p' & -> & Hg')|H]; [|by left]. right. exists t, p'. split; [|done]. apply update_thread_Some. by left.
    + right. exists t', q. split; [|done]. apply update_thread_Some. right. done.
Qed.

(** A new operation. *)
Lemma inv_spawn s t p : inv s -> threads s !! t = None -> body p = None -> holds p = [] -> made p = None ->
  (forall id, wakes p = Some id -> nobody wakes id s /\ nobody creates id s) -> (forall id, creates p = Some id -> nobody wakes id s) ->
  inv (goto t p s).
Proof.
  intros [I0 I1 I2 I3 I4 I5 I6 I7 I8 I9] Ht Hb Hh Hm Hw Hc. split; simpl; [exact I0|exact I1|..].
  - intros t' q c [[<- <-]|[_ Hq]]%lookup_insert_Some Hb'; [congruence|by eapply I2].
  - intros t' q c [[<- <-]|[_ Hq]]%lookup_insert_Some Hh'; [rewrite Hh in Hh'; by apply not_elem_of_nil in Hh'|by eapply I3].
  - intros t' q c k [[<- <-]|[_ Hq]]%lookup_insert_Some Hb'; [congruence|by eapply I4].
  - intros t1 q1 t2 q2 id [[<- <-]|[? H1]]%lookup_insert_Some [[<- <-]|[? H2]]%lookup_insert_Some W1 W2; [done|..|exact (I5 _ _ _ _ _ H1 H2 W1 W2)]; exfalso.
    + by eapply (proj1 (Hw _ W1)).
    + by eapply (proj1 (Hw _ W2)).
  - intros t1 q1 t2 q2 id [[<- <-]|[? H1]]%lookup_insert_Some [[<- <-]|[? H2]]%lookup_insert_Some W1 W2; [|..|exact (I6 _ _ _ _ _ H1 H2 W1 W2)].
    + by destruct p.
    + by eapply (proj2 (Hw _ W1)).
    + by eapply (Hc _ W2).
  - intros t1 q1 t2 q2 c [[<- <-]|[? H1]]%lookup_insert_Some [[<- <-]|[? H2]]%lookup_insert_Some W1 W2; [done|congruence|congruence|exact (I7 _ _ _ _ _ H1 H2 W1 W2)].
  - intros c k Hk. destruct (I8 _ _ Hk) as [H|(t' & q & Hq & Hg)]; [by left|]. right. exists t', q. split; [|done]. by rewrite lookup_insert_ne by congruence.
  - intros c k Hk. destruct (I9 _ _ Hk) as [H|(t' & q & Hq & Hg)]; [by left|]. right. exists t', q. split; [|done]. by rewrite lookup_insert_ne by congruence.
Qed.

(** ** A create or a wake changes its container *)

(** The operations that own their container's state: nobody else starts it. *)
Definition owns (p : pc) (c : string) : Prop :=
  match p with
  | CStart _ c' _ | CApply _ c' _ _ | WStart _ c' _ _ | WApply _ c' _ _ _ => c' = c
  | _ => False
  end.

(** Where a change of the container by somebody else would matter. *)
Definition sensitive (p : pc) : bool :=
  match p with CApply _ _ _ _ | WApply _ _ _ _ _ | WTear _ _ => true | _ => false end.

Lemma insensitive_fits p k k' : sensitive p = false -> c_label k' = c_label k -> c_blocked k' = c_blocked k ->
  (c_stray k = true -> c_stray k' = true) -> fits p k -> fits p k'.
Proof. intros Hs E1 E2 E3. destruct p; simpl in *; try discriminate; unfold attached; rewrite ?E1, ?E2; done. Qed.

Lemma owner_alone s t p t' q c k : inv s -> threads s !! t = Some p -> owns p c -> threads s !! t' = Some q -> body q = Some c -> sensitive q = true ->
  cs s !! c = Some k -> t = t'.
Proof.
  intros [I0 I1 I2 I3 I4 I5 I6 I7 I8 I9] Ht Ho Hq Hb Hs Hk.
  pose proof (I4 _ _ _ _ Hq Hb Hk) as Fq.
  assert (Hbp : body p = Some c) by (destruct p; simpl in Ho; try done; by subst).
  pose proof (I4 _ _ _ _ Ht Hbp Hk) as Fp.
  destruct q; simpl in Hs; try discriminate Hs; destruct p; simpl in Ho; try done; simpl in Fp, Fq, Hb, Hbp; simplify_eq;
    destruct_and?; simplify_eq;
    first [ eapply I7; [exact Ht|exact Hq|reflexivity|simpl; congruence]
          | eapply I5; [exact Ht|exact Hq|reflexivity|simpl; congruence]
          | exfalso; eapply I6; [exact Ht|exact Hq|reflexivity|simpl; congruence]
          | exfalso; eapply I6; [exact Hq|exact Ht|reflexivity|simpl; congruence] ].
Qed.

(** Its container and its rules change, whatever it does to them. *)
Lemma inv_own s t p c k k' R : inv s -> threads s !! t = Some p -> owns p c -> cs s !! c = Some k ->
  c_label k' = c_label k -> c_blocked k' = c_blocked k -> (c_stray k = true -> c_stray k' = true) -> (kept k -> kept k') -> (forall c', c' <> c -> R !! c' = rules s !! c') ->
  inv_but t (fun c' => c' = c \/ guarding p c' = true) (fun c' => making p c' = true) (set_rules R (set_cs (<[c := k']> (cs s)) s)).
Proof.
  intros Hi Ht Ho Hk El Eb Es Hkept HR. pose proof (inv_but_of s t p Hi Ht) as [I0 I1 I2 I3 I4 I5 I6 I7 I8 I9]. split; simpl; try assumption.
  - intros c' x. rewrite lookup_insert_Some. intros [[<- <-]|[_ H]]; eauto.
  - intros t' q c' x Hne Hq Hb. rewrite lookup_insert_Some. intros [[<- <-]|[_ H]]; [|by eapply I4].
    destruct (sensitive q) eqn:Eq; [destruct Hne; symmetry; by eapply owner_alone|]. eapply insensitive_fits; eauto.
  - intros c' x. rewrite lookup_insert_Some. intros [[<- <-]|[Hne H]]; [right; left; by left|].
    destruct (I8 _ _ H) as [Hs|[?|?]]; [|by right; left; right|by right; right]. left. unfold settled, protected in *. by rewrite HR.
  - intros c' x. rewrite lookup_insert_Some. intros [[<- <-]|[Hne H]]; [|by apply I9]. destruct (I9 _ _ Hk) as [?|?]; [left; auto|by right].
Qed.

(** A new container. *)
Lemma inv_new s t p a k : inv s -> threads s !! t = Some p -> a <> "" -> a ∉ used s ->
  inv_but t (fun c => c = a \/ guarding p c = true) (fun c => c = a \/ making p c = true) (set_cs (<[a := k]> (cs s)) (set_used ({[a]} ∪ used s) s)).
Proof.
  intros Hi Ht Hne0 Ha. pose proof (inv_but_of s t p Hi Ht) as [I0 I1 I2 I3 I4 I5 I6 I7 I8 I9]. split; simpl; try assumption.
  - set_solver.
  - intros c x. rewrite lookup_insert_Some. intros [[<- <-]|[_ H]]; [set_solver|]. specialize (I1 _ _ H). set_solver.
  - intros t' q c Hne Hq Hb. specialize (I2 _ _ _ Hne Hq Hb). set_solver.
  - intros t' q c Hne Hq Hb. specialize (I3 _ _ _ Hne Hq Hb). set_solver.
  - intros t' q c x Hne Hq Hb. rewrite lookup_insert_Some. intros [[<- <-]|[_ H]]; [|by eapply I4]. destruct Ha. by eapply I2.
  - intros c x. rewrite lookup_insert_Some. intros [[<- <-]|[Hne H]]; [right; left; by left|].
    destruct (I8 _ _ H) as [Hs|[?|?]]; [by left|by right; left; right|by right; right].
  - intros c x. rewrite lookup_insert_Some. intros [[<- <-]|[Hne H]]; [right; left; by left|].
    destruct (I9 _ _ H) as [Hs|[?|?]]; [by left|by right; left; right|by right; right].
Qed.
(** ** Calls *)

Lemma on_container_eq c f s : exists m, on_container c f s = set_cs m s /\ forall c', m !! c' = if decide (c' = c) then f <$> cs s !! c else cs s !! c'.
Proof.
  unfold on_container. destruct (cs s !! c) as [k|] eqn:E.
  - exists (<[c := f k]> (cs s)). split; [done|]. intros c'. case_decide; [subst; by rewrite lookup_insert_eq|by rewrite lookup_insert_ne].
  - exists (cs s). split; [by destruct s|]. intros c'. case_decide; [by subst|done].
Qed.

Lemma inv_on_container c f s : inv s -> (forall k, cs s !! c = Some k -> mild k (f k)) -> inv (on_container c f s).
Proof. intros Hi Hf. unfold on_container. destruct (cs s !! c) as [k|] eqn:E; [|done]. apply (inv_mild s c k); auto. Qed.

Lemma mild_down k p : p = Exited \/ p = Between /\ c_phase k = Up -> mild k (set_phase p "" false k).
Proof. intros [->|[-> Hu]]; split; simpl; try done; unfold at_rest; simpl; [auto|rewrite Hu; naive_solver]. Qed.

Lemma mild_stray k : mild k (set_stray k).
Proof. split; simpl; try done. intros _. by right. Qed.

Lemma mild_owned k : mild k (set_owned k).
Proof. split; simpl; try done. intros _. by left. Qed.

Lemma mild_restart k ip : c_phase k = Between -> mild k (set_phase Up ip true k).
Proof. intros Hb. split; simpl; try done. unfold at_rest. rewrite Hb. naive_solver. Qed.

(** Fields that calls leave alone. *)
Definition frame (s s' : sys) : Prop := used s' = used s /\ rules s' = rules s /\ threads s' = threads s.

Lemma frame_on_container c f s : frame s (on_container c f s).
Proof. unfold on_container. by destruct (cs s !! c). Qed.

Lemma frame_stop c s : frame s (docker_stop c s).
Proof. unfold docker_stop. destruct (cs s !! c) as [k|]; [|done]. destruct (c_phase k); try done; apply (frame_on_container c (set_phase Exited "" false) s). Qed.

Lemma frame_rm c s : frame s (docker_rm c s).
Proof. unfold docker_rm. destruct (cs s !! c) as [k|]; [|done]. by destruct (c_phase k). Qed.

Lemma dinv_stop c s : inv s -> inv (docker_stop c s).
Proof.
  intros Hi. unfold docker_stop. destruct (cs s !! c) as [k|] eqn:E; [|done].
  assert (H : inv (on_container c (set_phase Exited "" false) s)) by (apply inv_on_container; [done|]; intros; apply mild_down; by left).
  destruct (c_phase k); try done. by apply (inv_core (on_container c (set_phase Exited "" false) s)).
Qed.

Lemma stop_rests c s k : cs (docker_stop c s) !! c = Some k -> at_rest k /\ exists k0, cs s !! c = Some k0 /\ c_label k = c_label k0.
Proof.
  unfold docker_stop. destruct (cs s !! c) as [k0|] eqn:E; [|congruence].
  destruct (c_phase k0) eqn:Ep; unfold on_container; rewrite ?E; simpl; rewrite ?lookup_insert_eq; intros [= <-] || intros H; simplify_eq;
    unfold at_rest; simpl; eauto.
Qed.

Lemma inv_rm c s : inv s -> inv (docker_rm c s).
Proof.
  intros Hi. unfold docker_rm. destruct (cs s !! c) as [k|] eqn:E; [|done]. pose proof (inv_del s c Hi) as H.
  destruct (c_phase k); try done. by apply (inv_core (set_cs (delete c (cs s)) s)).
Qed.

Lemma rm_gone c s : cs (docker_rm c s) !! c = None.
Proof. unfold docker_rm. destruct (cs s !! c) as [k|] eqn:E; [|done]. destruct (c_phase k); simpl; by rewrite lookup_delete_eq. Qed.

Lemma attachment_inspect c k : sandboxAttachment (inspect c k) = (networkFor (c_blocked k), c_ip k).
Proof. unfold sandboxAttachment, inspect, networkFor. simpl. destruct (c_blocked k); simpl; by rewrite ?lookup_singleton_eq, ?lookup_singleton_ne by done. Qed.

Lemma inspect_attached c k k' : c_blocked k' = c_blocked k -> attached (inspect c k) k'.
Proof. intros E. unfold attached. by rewrite attachment_inspect, E. Qed.

Lemma named_for b : networkNamed (networkFor b) = b.
Proof. by destruct b. Qed.

(** ** Moves *)

Lemma dinv_goto s t p p' : inv s -> threads s !! t = Some p -> names t s p p' ->
  (forall c, body p' = Some c -> c ∈ used s /\ forall k, cs s !! c = Some k -> fits p' k) -> (forall c, c ∈ holds p' -> c ∈ used s) ->
  (forall c k, guarding p c = true -> cs s !! c = Some k -> guarding p' c = true \/ settled (rules s) c k) ->
  (forall c k, making p c = true -> cs s !! c = Some k -> making p' c = true \/ kept k) -> inv (goto t p' s).
Proof.
  intros Hi Ht Hn Hb Hh Hg Hk. apply (dinv_move s t p (Some p') _ _ (inv_but_of s t p Hi Ht) Ht); [by intros ? [= <-]|]. split.
  - intros ? c [= <-]. apply Hb.
  - intros ? c [= <-]. apply Hh.
  - intros c k HG Hc. destruct (Hg c k HG Hc); eauto.
  - intros c k HG Hc. destruct (Hk c k HG Hc); eauto.
Qed.

Lemma inv_finish s t p : inv s -> threads s !! t = Some p ->
  (forall c k, guarding p c = true -> cs s !! c = Some k -> settled (rules s) c k) ->
  (forall c k, making p c = true -> cs s !! c = Some k -> kept k) -> inv (finish t s).
Proof.
  intros Hi Ht Hg Hk. apply (dinv_move s t p None _ _ (inv_but_of s t p Hi Ht) Ht); [done|]. split; [done|done|..]; intros c k HG Hc; right; eauto.
Qed.

(** ** Creates *)

Ltac names_tac := unfold names, same_or_none; simpl; split_and!; auto.
(** Side conditions of a move: what the next place knows follows from what this one
    knows ([Hu], [Hf]); a guard stays a guard. *)
Ltac move_tac := try done; try (intros ? [= <-]); try (intros ? ?%not_elem_of_nil; done);
  try (intros ? ? ?%bool_decide_eq_true ?; simplify_eq; left; by apply bool_decide_eq_true);
  try (intros ? ? [=]).

Lemma inv_rules_gone s c R : inv s -> cs s !! c = None -> (forall c', c' <> c -> R !! c' = rules s !! c') -> inv (set_rules R s).
Proof.
  intros [I0 I1 I2 I3 I4 I5 I6 I7 I8 I9] Hc HR. split; simpl; try assumption. intros c' k Hk. destruct (I8 _ _ Hk) as [H|H]; [left|by right].
  unfold settled, protected in *. rewrite HR; [done|]. congruence.
Qed.

(** An apply that worked: the container is protected where it is, or was restarted. *)
Lemma inv_applied s t p p' c ip b : inv s -> threads s !! t = Some p -> owns p c -> names t s p p' -> body p' = Some c -> holds p' = [] ->
  (forall k, cs s !! c = Some k -> c_blocked k = b /\ current k ip) -> (forall k k', c_label k' = c_label k -> fits p k -> fits p' k') ->
  body p = Some c -> (forall c', guarding p c' = true -> c' = c) -> (forall c', making p c' = true -> making p' c' = true) ->
  inv (goto t p' (rules_applied c ip b s)).
Proof.
  intros Hi Ht Ho Hn Hb Hh Hc Hfit Hbp Hg Hm. pose proof (i_body _ Hi _ _ _ Ht Hbp) as Hu. unfold rules_applied, on_container.
  destruct (cs s !! c) as [k|] eqn:E.
  - destruct (Hc k eq_refl) as [Hblk Hcur]. set (k' := if decide (c_ip k = ip) then _ else _).
    assert (Hk' : c_label k' = c_label k /\ c_blocked k' = c_blocked k /\ (kept k -> kept k') /\ c_stray k' = c_stray k /\ (c_restarted k' = false -> c_phase k' = Up -> c_ip k' = ip)).
    { unfold k'. destruct (decide (c_ip k = ip)); simpl; split_and!; auto. }
    destruct Hk' as (K1 & K2 & K3 & K5 & K4).
    apply (dinv_move (set_rules (<[c := (ip, b)]> (rules s)) (set_cs (<[c := k']> (cs s)) s)) t p (Some p') (fun c' => c' = c \/ guarding p c' = true)
      (fun c' => making p c' = true)); [|done|by intros ? [= <-]|].
    + apply (inv_own s t p c k k'); try done; [by rewrite K5|]. intros c' Hne. by rewrite lookup_insert_ne.
    + split; simpl.
      * intros ? c' [= <-] Hb'. assert (c' = c) as -> by congruence. split; [done|]. intros x. rewrite lookup_insert_eq. intros [= <-].
        apply (Hfit k); [done|]. by eapply (i_fits _ Hi).
      * intros ? c' [= <-]. rewrite Hh. by intros ?%not_elem_of_nil.
      * intros c' x HG. assert (c' = c) as -> by naive_solver. rewrite lookup_insert_eq. intros [= <-]. right. intros H1 H2 H3.
        unfold protected. rewrite lookup_insert_eq, K2, Hblk. by rewrite K4.
      * intros c' x HK _. left. eauto.
  - assert (Hi' : inv (set_rules (<[c := (ip, b)]> (rules s)) s)).
    { apply (inv_rules_gone s c); [done|done|]. intros c' Hne. by rewrite lookup_insert_ne. }
    apply (dinv_goto _ t p); [done|done|done|..].
    + intros c' Hb'. assert (c' = c) as -> by congruence. split; [done|]. intros k Hk. simpl in Hk. congruence.
    + intros c'. rewrite Hh. by intros ?%not_elem_of_nil.
    + intros c' k HG Hk. simpl in Hk. rewrite (Hg _ HG) in Hk. congruence.
    + intros c' k HK _. left. auto.
Qed.

(** A start: the container runs, and the operation goes on to protect it or to stop it. *)
Lemma inv_started s t p p' c a k : inv s -> threads s !! t = Some p -> owns p c -> cs s !! c = Some k -> names t s p p' -> body p' = Some c -> holds p' = [] ->
  (forall k k', c_label k' = c_label k -> c_blocked k' = c_blocked k -> fits p k -> fits p' k') ->
  body p = Some c -> (forall c', guarding p c' = false) -> guarding p' c = true -> (forall c', making p c' = true -> making p' c' = true) ->
  inv (goto t p' (docker_start c a s)).
Proof.
  intros Hi Ht Ho Hk Hn Hb Hh Hfit Hbp Hg Hg' Hm. pose proof (i_body _ Hi _ _ _ Ht Hbp) as Hu. unfold docker_start, on_container. rewrite Hk.
  set (k' := match c_phase k with Created => _ | _ => _ end).
  assert (Hk' : c_label k' = c_label k /\ c_blocked k' = c_blocked k /\ c_stray k' = c_stray k /\ (kept k -> kept k')) by (unfold k'; by destruct (c_phase k)).
  destruct Hk' as (K1 & K2 & K4 & K3).
  apply (dinv_move (set_rules (rules s) (set_cs (<[c := k']> (cs s)) s)) t p (Some p') (fun c' => c' = c \/ guarding p c' = true)
    (fun c' => making p c' = true)); [|done|by intros ? [= <-]|].
  - apply (inv_own s t p c k k'); try done. by rewrite K4.
  - split; simpl.
    + intros ? c' [= <-] Hb'. assert (c' = c) as -> by congruence. split; [done|]. intros x. rewrite lookup_insert_eq. intros [= <-].
      apply (Hfit k); [done|done|]. by eapply (i_fits _ Hi).
    + intros ? c' [= <-]. rewrite Hh. by intros ?%not_elem_of_nil.
    + intros c' x [->|HG] _; [left; eauto|]. by rewrite Hg in HG.
    + intros c' x HK _. left. eauto.
Qed.

Lemma inv_CreateContainer r a ids t p s : inv s -> threads s !! t = Some p -> reply_ok r a ids p s -> inv (CreateContainer r a t p s).
Proof.
  intros Hi Ht Hr.
  assert (Hu : forall c, body p = Some c -> c ∈ used s) by (intros c; by eapply i_body).
  assert (Hf : forall c k, body p = Some c -> cs s !! c = Some k -> fits p k) by (intros c k; by eapply i_fits).
  destruct p as [id b|id c b|id c b|id c ip b|id c ip| | | | | | | | | | | | | | | | | | | | | | | | | | | | |]; cbn [CreateContainer]; try done.
  - destruct r; simpl in Hr; [destruct Hr as (H1 & H2 & _)|by apply (inv_finish s t _ Hi Ht)|destruct Hr as (H1 & H2 & _)|by apply (inv_finish s t _ Hi Ht)].
    + eapply (dinv_move _ t _ (Some (CStart id a b))); [by apply (inv_new s t (CCreate id b) a)|exact Ht|..].
      * intros ? [= <-]. split_and!; [by left|by left|]. right. right. exists a. split; [done|]. intros t' q Hne Hq Hm. apply H2.
        eapply (i_body _ Hi); [exact Hq|]. by destruct q.
      * split; simpl.
        -- intros ? c [= <-] [= <-]. split; [set_solver|]. intros k. rewrite lookup_insert_eq. by intros [= <-].
        -- intros ? c [= <-] []%not_elem_of_nil.
        -- intros c k [->|[=]]. rewrite lookup_insert_eq. intros [= <-]. right. intros [=].
        -- intros c k [->|[=]] _. left. eexists. split; [done|]. by apply bool_decide_eq_true.
    + eapply (dinv_move _ t _ None); [by apply (inv_new s t (CCreate id b) a)|exact Ht|done|]. split; simpl; try done.
      * intros c k [->|[=]]. rewrite lookup_insert_eq. intros [= <-]. right. intros [=].
      * intros c k [->|[=]]. rewrite lookup_insert_eq. intros [= <-]. right. by right.
  - destruct r; simpl in Hr; cbn [took].
    + destruct Hr as [k Hk]. eapply (inv_started s t _ _ c); try done; [names_tac| |by apply bool_decide_eq_true].
      intros k1 k2 E1 E2. simpl. by rewrite E1, E2.
    + apply (dinv_goto s t _ _ Hi Ht); [names_tac|..]; move_tac. split; [by apply Hu|done].
    + destruct Hr as [k Hk]. eapply (inv_started s t _ _ c); try done; [names_tac|by apply bool_decide_eq_true].
    + apply (dinv_goto s t _ _ Hi Ht); [names_tac|..]; move_tac. split; [by apply Hu|done].
  - apply (dinv_goto s t _ _ Hi Ht).
    + destruct (cs s !! c) as [k|]; [destruct r|]; try case_decide; names_tac.
    + destruct (cs s !! c) as [k|] eqn:E; [destruct r|]; try case_decide; intros ? [= <-]; (split; [by apply Hu|]); intros ? ?; simplify_eq; try done.
      simpl. destruct (Hf c k eq_refl E) as [-> ->]. split_and!; [done|done|]. intros _ _. by rewrite attachment_inspect.
    + destruct (cs s !! c) as [k|]; [destruct r|]; try case_decide; move_tac.
    + destruct (cs s !! c) as [k|] eqn:E; [destruct r|]; try case_decide; move_tac.
    + destruct (cs s !! c) as [k|] eqn:E; [destruct r|]; try case_decide; move_tac.
  - destruct r; cbn [took].
    + eapply (inv_applied s t _ _ c); try done; [names_tac| | |simpl].
      * intros k Hk. destruct (Hf c k eq_refl Hk) as (H1 & H2 & H3). done.
      * intros k k' E (H1 & _). simpl. congruence.
      * intros c' ?%bool_decide_eq_true. done.
    + apply (dinv_goto s t _ _ Hi Ht); [names_tac|..]; move_tac. split; [by apply Hu|done].
    + apply (dinv_goto _ t (CApply id c ip b)); [|done|names_tac|..]; move_tac.
      * apply inv_unrule; [done|]. intros k Hk. right. right. exists t, (CApply id c ip b). split; [done|]. by apply bool_decide_eq_true.
      * split; [by apply Hu|done].
    + apply (dinv_goto s t _ _ Hi Ht); [names_tac|..]; move_tac. split; [by apply Hu|done].
  - destruct r.
    + destruct (frame_on_container c set_owned s) as (_ & _ & ET). eapply (inv_finish _ t (CWait id c ip)); [|by rewrite ET|done|].
      * apply inv_on_container; [done|]. intros. apply mild_owned.
      * intros c' k <-%bool_decide_eq_true. destruct (on_container_eq c set_owned s) as (m & -> & Hm). simpl. rewrite Hm, decide_True by done.
        destruct (cs s !! c); [|done]. intros [= <-]. by left.
    + apply (dinv_goto s t _ _ Hi Ht); [names_tac|..]; move_tac. split; [by apply Hu|done].
    + apply (dinv_goto s t _ _ Hi Ht); [names_tac|..]; move_tac. split; [by apply Hu|done].
    + apply (dinv_goto s t _ _ Hi Ht); [names_tac|..]; move_tac. split; [by apply Hu|done].
Qed.

(** ** Removals and deletes *)

Lemma inv_next_reconcile t p rest s : inv s -> threads s !! t = Some p -> (forall c, c ∈ rest -> c ∈ used s) ->
  (forall c, guarding p c = false) -> (forall c, making p c = false) -> inv (next_reconcile t rest s).
Proof.
  intros Hi Ht Hr Hg Hm. destruct rest as [|c rest]; simpl.
  - apply (inv_finish s t p); [done|done|..]; intros ? ? H; [by rewrite Hg in H|by rewrite Hm in H].
  - apply (dinv_goto s t p); [done|done|names_tac|..].
    + intros ? [= <-]. split; [|done]. apply Hr. left.
    + intros c' Hc. apply Hr. by right.
    + intros ? ? H. by rewrite Hg in H.
    + intros ? ? H. by rewrite Hm in H.
Qed.

(** What follows a removal that is not a create's. *)
Lemma inv_after t p k s : inv s -> threads s !! t = Some p -> (forall c, c ∈ holds p -> c ∈ used s) -> k <> KCreate ->
  (forall l, k = KReconcile l -> holds p = l) -> (forall c, guarding p c = false) -> (forall c, making p c = false) ->
  inv (match k with KCreate => finish t s | KDelete id => goto t (DClear id) s | KReconcile rest => next_reconcile t rest s end).
Proof.
  intros Hi Ht Hh Hk Hl Hg Hm. destruct k as [|id|rest]; [done|..].
  - apply (dinv_goto s t p); [done|done|names_tac|done|intros ? []%not_elem_of_nil|..]; intros ? ? H; [by rewrite Hg in H|by rewrite Hm in H].
  - apply (inv_next_reconcile t p); [done|done| |done|done]. rewrite <- (Hl _ eq_refl). done.
Qed.

(** A failed create's container that could not be removed. *)
Lemma inv_give_up c t p s : inv s -> threads s !! t = Some p -> (forall c', guarding p c' = true -> c' = c) -> (forall c', making p c' = true -> c' = c) ->
  inv (finish t (on_container c set_stray s)).
Proof.
  intros Hi Ht Hg Hm. destruct (frame_on_container c set_stray s) as (_ & _ & ET). apply (inv_finish _ t p); [|by rewrite ET|..].
  - apply inv_on_container; [done|]. intros. apply mild_stray.
  - intros c' k ->%Hg. destruct (on_container_eq c set_stray s) as (m & -> & Hm'). simpl. rewrite Hm', decide_True by done.
    destruct (cs s !! c); [|done]. intros [= <-] _ _ [=].
  - intros c' k ->%Hm. destruct (on_container_eq c set_stray s) as (m & -> & Hm'). simpl. rewrite Hm', decide_True by done.
    destruct (cs s !! c); [|done]. intros [= <-]. by right.
Qed.

(** A container whose remove was taken for done. *)
Lemma inv_presume c t p k s : inv s -> threads s !! t = Some p -> c ∈ used s ->
  (forall c', c' ∈ holds (RTear c k) -> c' ∈ used s) -> (forall c', guarding p c' = true -> c' = c) -> (forall c', making p c' = true -> c' = c) ->
  inv (goto t (RTear c k) (on_container c set_stray s)).
Proof.
  intros Hi Ht Hc Hh Hg Hm. destruct (frame_on_container c set_stray s) as (EU & ER & ET).
  assert (Hs : forall x, cs (on_container c set_stray s) !! c = Some x -> c_stray x = true).
  { intros x. destruct (on_container_eq c set_stray s) as (m & -> & Hm'). simpl. rewrite Hm', decide_True by done.
    destruct (cs s !! c); [|done]. by intros [= <-]. }
  apply (dinv_goto _ t p); rewrite ?ET, ?EU; try done.
  - apply inv_on_container; [done|]. intros. apply mild_stray.
  - names_tac.
  - intros c' Hb. by injection Hb as <-.
  - intros c' x ->%Hg Hx. right. intros _ _. by rewrite (Hs x Hx).
  - intros c' x ->%Hm Hx. right. right. by apply Hs.
Qed.

Lemma took_frame r f s : (forall s, frame s (f s)) -> frame s (took r f s).
Proof. intros H. destruct r; [apply H|done|apply H|done]. Qed.

Lemma took_inv r f s : (forall s, inv s -> inv (f s)) -> inv s -> inv (took r f s).
Proof. intros H Hi. destruct r; [by apply H|done|by apply H|done]. Qed.

Lemma inv_set_mk m s : inv s -> inv (set_mk m s).
Proof. by apply inv_core. Qed.

Lemma inv_goto_mk s t p' m : inv (goto t p' s) -> inv (goto t p' (set_mk m s)).
Proof. by apply inv_core. Qed.

Lemma inv_Remove r t p s : inv s -> threads s !! t = Some p -> inv (removeContainerAndTeardownRules r t p s).
Proof.
  intros Hi Ht.
  assert (Hu : forall c, body p = Some c -> c ∈ used s) by (intros c; by eapply i_body).
  assert (Hh : forall c, c ∈ holds p -> c ∈ used s) by (intros c; by eapply i_holds).
  destruct p as [| | | | |c k|c token k|c k| | | | | | | | | | | | | | | | | | | | | | | | | |]; cbn [removeContainerAndTeardownRules]; try done.
  - destruct (decide (c = "")) as [->|Hne]; [destruct (i_empty _ Hi); by apply Hu|].
    destruct (expectStop (clock s) c (mk s)) as [token m]. apply inv_goto_mk. apply (dinv_goto s t (RMark c k)); [done|done|names_tac|..].
    + intros ? [= <-]. split; [by apply Hu|done].
    + exact Hh.
    + intros c' x Hg _. by left.
    + intros c' x Hg _. by left.
  - destruct (took_frame r _ s (frame_rm c)) as (EU & ER & ET). pose proof (took_inv r _ s (inv_rm c) Hi) as Hi'.
    set (s' := took r (docker_rm c) s) in *. assert (Ht' : threads s' !! t = Some (RRemove c token k)) by (by rewrite ET).
    assert (Hfail : inv (match k with
      | KCreate => finish t (on_container c set_stray (set_mk (forgetExpectedStop c token (mk s')) s'))
      | KDelete _ => finish t (set_mk (forgetExpectedStop c token (mk s')) s')
      | KReconcile rest => next_reconcile t rest (set_mk (forgetExpectedStop c token (mk s')) s') end)).
    { pose proof (inv_set_mk (forgetExpectedStop c token (mk s')) s' Hi') as Hi2. destruct k as [|id|rest].
      - apply (inv_give_up c t (RRemove c token KCreate)); [done|done|..]; by intros ? ->%bool_decide_eq_true.
      - by apply (inv_finish _ t (RRemove c token (KDelete id))).
      - apply (inv_next_reconcile t (RRemove c token (KReconcile rest))); try done. simpl. rewrite EU. apply Hh. }
    destruct r; [|exact Hfail..|].
    2: { apply (inv_presume c t (RRemove c token k)); [done|done|by apply Hu|exact Hh|..]; intros c' Hg;
           (destruct k; try done; by apply bool_decide_eq_true in Hg). }
    apply (dinv_goto s' t (RRemove c token k)); [done|done|names_tac|..].
    + intros ? [= <-]. rewrite EU. split; [by apply Hu|]. intros x Hx. unfold s', took in Hx. by rewrite rm_gone in Hx.
    + rewrite EU. exact Hh.
    + intros c' x Hg Hx. exfalso. assert (c' = c) as -> by (simpl in Hg; destruct k; try done; by apply bool_decide_eq_true in Hg).
      unfold s', took in Hx. by rewrite rm_gone in Hx.
    + intros c' x Hg Hx. exfalso. assert (c' = c) as -> by (simpl in Hg; destruct k; try done; by apply bool_decide_eq_true in Hg).
      unfold s', took in Hx. by rewrite rm_gone in Hx.
  - assert (Hgone : forall x, cs s !! c = Some x -> c_stray x = true) by (intros x Hx; by apply (i_fits _ Hi _ _ _ _ Ht eq_refl Hx)).
    set (s' := match r with Fail | FailNotFound => s | _ => rules_removed c s end).
    assert (Hi' : inv s') by (unfold s'; destruct r; try done; apply inv_unrule; try done; intros x Hx; right; left; by apply Hgone).
    assert (Ht' : threads s' !! t = Some (RTear c k)) by (unfold s'; by destruct r).
    assert (EU : used s' = used s) by (unfold s'; by destruct r).
    destruct (decide (k = KCreate)) as [->|Hk]; [by apply (inv_finish s' t (RTear c KCreate))|].
    apply (inv_after t (RTear c k)); try done; [by rewrite EU|by intros l ->].
Qed.

(** ** Lookups *)

(** An operation that guards nothing may end anywhere. *)
Definition free (p : pc) : Prop := (forall c, guarding p c = false) /\ forall c, making p c = false.

Lemma dinv_end s t p : inv s -> threads s !! t = Some p -> free p -> inv (finish t s).
Proof. intros Hi Ht [Hg Hm]. apply (inv_finish s t p); [done|done|..]; intros ? ? H; [by rewrite Hg in H|by rewrite Hm in H]. Qed.

Lemma inv_next s t p p' : inv s -> threads s !! t = Some p -> free p -> names t s p p' -> holds p' = [] ->
  (forall c, body p' = Some c -> c ∈ used s /\ forall k, cs s !! c = Some k -> fits p' k) -> inv (goto t p' s).
Proof.
  intros Hi Ht [Hg Hm] Hn Hh Hb. apply (dinv_goto s t p); [done|done|done|done|rewrite Hh; by intros ? []%not_elem_of_nil|..]; intros ? ? H; [by rewrite Hg in H|by rewrite Hm in H].
Qed.

Lemma inv_found r a t p p' id s : inv s -> threads s !! t = Some p -> free p -> names t s p p' -> holds p' = [] -> body p' = Some a ->
  (r = Ok -> (a = "" /\ forall c k, cs s !! c = Some k -> c_label k <> id) \/ exists k, cs s !! a = Some k /\ c_label k = id) ->
  (forall k, c_label k = id -> fits p' k) -> inv (found r a t p' s).
Proof.
  intros Hi Ht Hfr Hn Hh Hb Hr Hfit. unfold found. destruct r; try by eapply dinv_end. destruct (decide (a = "")); [by eapply dinv_end|].
  destruct (Hr eq_refl) as [[? _]|(k & Hk & El)]; [done|]. apply (inv_next s t p); try done. rewrite Hb. intros ? [= <-].
  split; [by eapply i_used|]. intros k' Hk'. assert (k' = k) as -> by congruence. by apply Hfit.
Qed.

Lemma inv_Delete r a ids t p s : inv s -> threads s !! t = Some p -> reply_ok r a ids p s -> inv (DeleteSandbox r a t p s).
Proof.
  intros Hi Ht Hr. destruct p as [| | | | | | | |id|id| | | | | | | | | | | | | | | | | | | | | | | |]; cbn [DeleteSandbox]; try done.
  - eapply (inv_found r a t _ _ id); try done; [names_tac|]. by intros ->.
  - apply (inv_core (finish t s)); [done|]. by eapply dinv_end.
Qed.

(** ** Wakes *)

Lemma inv_wake_started r c a t p p' s : inv s -> threads s !! t = Some p -> owns p c -> names t s p p' -> body p' = Some c -> holds p' = [] ->
  (r = Ok \/ r = FailTook -> is_Some (cs s !! c)) -> (forall k k', c_label k' = c_label k -> c_blocked k' = c_blocked k -> fits p k -> fits p' k') ->
  body p = Some c -> free p -> guarding p' c = true ->
  inv (let s' := took r (docker_start c a) s in
       match r with Ok => goto t p' s' | _ => finish t (match r with FailTook => on_container c set_stray s' | _ => s' end) end).
Proof.
  intros Hi Ht Ho Hn Hb Hh Hr Hfit Hbp Hfr Hg'. destruct r; cbn [took].
  - destruct Hr as [k Hk]; [by left|]. eapply (inv_started s t p p' c a k); try done; [apply Hfr|]. intros c' H. by rewrite (proj2 Hfr) in H.
  - by eapply dinv_end.
  - destruct Hr as [k Hk]; [by right|]. unfold docker_start, on_container. rewrite Hk. simpl. rewrite lookup_insert_eq, insert_insert_eq.
    set (k' := match c_phase k with Created => _ | _ => _ end).
    apply (dinv_move (set_rules (rules s) (set_cs (<[c := set_stray k']> (cs s)) s)) t p None (fun c' => c' = c \/ guarding p c' = true)
      (fun c' => making p c' = true)); [|done|done|].
    + apply (inv_own s t p c k); try done; unfold k'; [by destruct (c_phase k)..|]. intros _. by right.
    + split; simpl; [done|done|..].
      * intros c' x [->|HG]; [|by rewrite (proj1 Hfr) in HG]. rewrite lookup_insert_eq. intros [= <-]. right. by intros _ _ [=].
      * intros c' x HK. by rewrite (proj2 Hfr) in HK.
  - by eapply dinv_end.
Qed.

Lemma inv_Wake r a ids t p s : inv s -> threads s !! t = Some p -> reply_ok r a ids p s -> inv (ensureSandboxRunningOnce r a t p s).
Proof.
  intros Hi Ht Hr.
  assert (Hu : forall c, body p = Some c -> c ∈ used s) by (intros c; by eapply i_body).
  assert (Hf : forall c k, body p = Some c -> cs s !! c = Some k -> fits p k) by (intros c k; by eapply i_fits).
  destruct p as [| | | | | | | | | |id|id c|id c i|id c|id c i rc|id c i rc|id c i rc|id c ip b rc|id c ip rc|id| | | | | | | | | | | | | |];
    cbn [ensureSandboxRunningOnce]; try done.
  - eapply (inv_found r a t _ _ id); try done; [names_tac|]. by intros ->.
  - unfold inspected. destruct (cs s !! c) as [k|] eqn:E; [destruct r|]; try by eapply dinv_end.
    apply (inv_next s t _ _ Hi Ht); [done|names_tac|done|]. intros ? [= <-]. split; [by apply Hu|]. intros k' Hk'. simplify_eq.
    split; [by apply (Hf c)|by apply inspect_attached].
  - destruct (_ && _); [by eapply dinv_end|]. destruct (wasRestarted _ _); (apply (inv_next s t _ _ Hi Ht); [done|names_tac|done|]);
      intros ? [= <-]; (split; [by apply Hu|]); intros k Hk; by apply (Hf c).
  - destruct (cs s !! c) as [k|] eqn:E; [destruct r|]; try by eapply dinv_end. destruct (Restarting _); [done|].
    apply (inv_next s t _ _ Hi Ht); [done|names_tac|done|]. intros ? [= <-]. split; [by apply Hu|]. intros k' Hk'. simplify_eq.
    split; [by apply (Hf c)|by apply inspect_attached].
  - destruct (isContainerReady _); [|destruct (canStartContainer _)]; [| |by eapply dinv_end];
      (apply (inv_next s t _ _ Hi Ht); [done|names_tac|done|]); intros ? [= <-]; (split; [by apply Hu|]); intros k Hk; by apply (Hf c).
  - apply (inv_wake_started r c a t _ (WIp id c i rc) s Hi Ht); try done; [names_tac|by intros [-> | ->]| |by apply bool_decide_eq_true].
    intros k k' E1 E2. simpl. unfold attached. by rewrite E1, E2.
  - destruct (cs s !! c) as [k|] eqn:E.
    2:{ apply (dinv_goto s t _ _ Hi Ht); [names_tac|..]; move_tac. split; [by apply Hu|]. intros k' Hk'. congruence. }
    destruct (Hf c k eq_refl E) as [El Ea].
    assert (Hmark : inv (goto t (WMark id c) s)).
    { apply (dinv_goto s t _ _ Hi Ht); [names_tac|..]; move_tac. split; [by apply Hu|]. intros k' Hk'. by simplify_eq. }
    destruct r; try done. destruct (decide _); [done|].
    apply (dinv_goto s t _ _ Hi Ht); [names_tac|..]; move_tac. split; [by apply Hu|]. intros k' Hk'. simplify_eq. simpl.
    rewrite Ea, named_for, attachment_inspect. done.
  - assert (Hmark : inv (goto t (WMark id c) s)).
    { apply (dinv_goto s t _ _ Hi Ht); [names_tac|..]; move_tac. split; [by apply Hu|]. intros k' Hk'. by apply (Hf c). }
    destruct r; [|done| |done].
    + eapply (inv_applied s t _ _ c); try done; [names_tac|..].
      * intros k Hk. destruct (Hf c k eq_refl Hk) as (H1 & H2 & H3). done.
      * intros k k' E (H1 & _). simpl. congruence.
      * intros c' ?%bool_decide_eq_true. done.
    + apply (dinv_goto _ t (WApply id c ip b rc)); [|done|names_tac|..]; move_tac.
      * apply inv_unrule; [done|]. intros k Hk. right. right. exists t, (WApply id c ip b rc). split; [done|]. by apply bool_decide_eq_true.
      * split; [by apply Hu|]. intros k' Hk'. by apply (Hf c).
  - assert (Hmark : inv (goto t (WMark id c) s)).
    { apply (inv_next s t _ _ Hi Ht); [done|names_tac|done|]. intros ? [= <-]. split; [by apply Hu|]. intros k' Hk'. by apply (Hf c). }
    destruct r; try done. destruct rc; [|by eapply dinv_end]. apply (inv_next s t _ _ Hi Ht); [done|names_tac|done|done].
  - apply (inv_core (finish t s)); [done|]. by eapply dinv_end.
Qed.

Lemma inv_Cleanup r a ids t p s : inv s -> threads s !! t = Some p -> reply_ok r a ids p s -> inv (cleanupWakeFailure r t p s).
Proof.
  intros Hi Ht Hr.
  assert (Hu : forall c, body p = Some c -> c ∈ used s) by (intros c; by eapply i_body).
  assert (Hf : forall c k, body p = Some c -> cs s !! c = Some k -> fits p k) by (intros c k; by eapply i_fits).
  destruct p as [| | | | | | | | | | | | | | | | | | | |id c|id c token|id c| | | | | | | | | | |]; cbn [cleanupWakeFailure]; try done.
  - destruct (expectStop (clock s) c (mk s)) as [token m]. apply inv_goto_mk. apply (dinv_goto s t _ _ Hi Ht); [names_tac|..]; move_tac.
    split; [by apply Hu|]. intros k Hk. by apply (Hf c).
  - destruct (took_frame r _ s (frame_stop c)) as (EU & ER & ET). pose proof (took_inv r _ s (dinv_stop c) Hi) as Hi'.
    set (s' := took r (docker_stop c) s) in *. assert (Ht' : threads s' !! t = Some (WStop id c token)) by (by rewrite ET).
    assert (Hfail : inv (finish t (on_container c set_stray (set_mk (forgetExpectedStop c token (mk s')) s')))).
    { apply (inv_give_up c t (WStop id c token)); [by apply inv_set_mk|done|by intros ? ->%bool_decide_eq_true|done]. }
    destruct r; [|exact Hfail..]. apply (dinv_goto s' t (WStop id c token)); [done|done|names_tac|..].
    + intros ? [= <-]. rewrite EU. split; [by apply Hu|]. intros k Hk. destruct (stop_rests c s k Hk) as (H1 & k0 & H2 & H3).
      split; [|done]. rewrite H3. by apply (Hf c).
    + intros ? []%not_elem_of_nil.
    + intros c' k <-%bool_decide_eq_true Hk. right. destruct (stop_rests c s k Hk) as ([H1|H1] & _); intros ?; congruence.
    + done.
  - destruct r; try by eapply dinv_end.
    + apply (dinv_end _ t (WTear id c)); [|done|done]. apply inv_unrule; [done|]. intros k Hk. left. destruct (Hf c k eq_refl Hk) as [_ [H|H]]; congruence.
    + apply (dinv_end _ t (WTear id c)); [|done|done]. apply inv_unrule; [done|]. intros k Hk. left. destruct (Hf c k eq_refl Hk) as [_ [H|H]]; congruence.
Qed.

(** ** Stops, URLs, deaths *)

Lemma inv_Stop r a ids t p s : inv s -> threads s !! t = Some p -> reply_ok r a ids p s -> inv (StopSandboxContainer r a t p s).
Proof.
  intros Hi Ht Hr.
  assert (Hu : forall c, body p = Some c -> c ∈ used s) by (intros c; by eapply i_body).
  destruct p as [| | | | | | | | | | | | | | | | | | | | | | |id|id c|c|c|c token| | | | | |]; cbn [StopSandboxContainer]; try done.
  - eapply (inv_found r a t _ _ id); try done; [names_tac|]. by intros ->.
  - destruct (cs s !! c) as [k|]; [destruct r|]; try by eapply dinv_end. destruct (negb _); [by eapply dinv_end|].
    destruct (Restarting _); (apply (inv_next s t _ _ Hi Ht); [done|names_tac|done|]); intros ? [= <-]; (split; [by apply Hu|done]).
  - destruct (took_frame r _ s (frame_stop c)) as (_ & _ & ET). apply (dinv_end _ t (SPlain c)); [|by rewrite ET|done].
    apply took_inv; [apply dinv_stop|done].
  - destruct (expectStop (clock s) c (mk s)) as [token m]. apply inv_goto_mk. apply (inv_next s t _ _ Hi Ht); [done|names_tac|done|].
    intros ? [= <-]. split; [by apply Hu|done].
  - destruct (took_frame r _ s (frame_stop c)) as (_ & _ & ET). pose proof (took_inv r _ s (dinv_stop c) Hi) as Hi'.
    assert (H : inv (finish t (took r (docker_stop c) s))) by (apply (dinv_end _ t (SStop c token)); [done|by rewrite ET|done]).
    destruct r; [done|..]; revert H; by apply inv_core.
Qed.

Lemma inv_URL r a ids t p s : inv s -> threads s !! t = Some p -> reply_ok r a ids p s -> inv (DaemonURL r a t p s).
Proof.
  intros Hi Ht Hr. destruct p as [| | | | | | | | | | | | | | | | | | | | | | | | | | | |id|id|id c| | |]; cbn [DaemonURL]; try done.
  - destruct (wasRestarted _ _); [by eapply dinv_end|]. apply (inv_core (goto t (UFind id) s)); [done|].
    by apply (inv_next s t _ _ Hi Ht); [|names_tac| |].
  - eapply (inv_found r a t _ _ id); try done; [names_tac|]. by intros ->.
  - by eapply dinv_end.
Qed.

Lemma inv_Death t p s : inv s -> threads s !! t = Some p -> inv (handleContainerDeath t p s).
Proof.
  intros Hi Ht. destruct p as [| | | | | | | | | | | | | | | | | | | | | | | | | | | | | | |c id|id|]; cbn [handleContainerDeath]; try done.
  - assert (Hend : inv (finish t s)) by (by eapply dinv_end).
    destruct (takeExpectedStop _ _ _) as [[] m]; [revert Hend; by apply inv_core|]. destruct (decide (id = "")); [revert Hend; by apply inv_core|].
    apply inv_goto_mk. by apply (inv_next s t _ _ Hi Ht); [|names_tac| |].
  - assert (Hend : inv (finish t s)) by (by eapply dinv_end). revert Hend. by apply inv_core.
Qed.

Lemma dinv_advance r a ids t p s : inv s -> threads s !! t = Some p -> reply_ok r a ids p s -> inv (advance r a ids t p s).
Proof.
  intros Hi Ht Hr. destruct p; cbn [advance];
    first [ by eapply inv_CreateContainer | by eapply inv_Remove | by eapply inv_Delete | by eapply inv_Wake | by eapply inv_Cleanup
          | by eapply inv_Stop | by eapply inv_URL | by eapply inv_Death | idtac ].
  unfold reconcileContainers. destruct r; try by eapply dinv_end. apply (inv_next_reconcile t KFind); try done.
  intros c Hc. simpl in Hr. apply Hr in Hc as [k Hk]. by eapply i_used.
Qed.

Lemma dinv_initial : inv initial.
Proof. split; simpl; try set_solver. Qed.

Lemma dinv_step s s' : inv s -> step s s' -> inv s'.
Proof.
  intros Hi Hstep. destruct Hstep as [s o t Ht Ho|s r a ids t p Ht Hr|s c k Hc Hp|s c k ip Hc Hp|s c k Hc Hp|s c id rest t Hp Ht|s e rest Hp|s now Hn].
  - apply inv_spawn; try done; destruct o; simpl in *; try done; naive_solver.
  - by apply dinv_advance.
  - apply (inv_core (on_container c (set_phase Between "" false) s)); [done|]. apply inv_on_container; [done|]. intros k' Hk'. simplify_eq.
    apply mild_down. by right.
  - apply inv_on_container; [done|]. intros k' Hk'. simplify_eq. by apply mild_restart.
  - apply inv_on_container; [done|]. intros k' Hk'. apply mild_down. by left.
  - apply (inv_spawn (set_pending rest s)); try done. by apply (inv_core s).
  - by apply (inv_core s).
  - by apply (inv_core s).
Qed.

Lemma dinv_reachable s : rtc step initial s -> inv s.
Proof.
  intros H. assert (G : forall x y, rtc step x y -> inv x -> inv y) by (intros x y Hxy; induction Hxy; eauto using dinv_step). by apply (G _ _ H), dinv_initial.
Qed.

End DockerInv.
