(* ===== verification/DockerSafety.v ===== *)
(** * What the Docker lifecycle guarantees

    A running sandbox is protected at its present address, a URL leads to its own
    container, rules outlive their container, a failed create leaves nothing, a crash
    that was seen is reported before the sandbox is used again, and a death the runner
    asked for is told from a crash. *)

From S2P Require Import Prelude Docker DockerInv.

Module DockerSafety.
Import Docker DockerInv.

(** ** Protection *)

Definition being_guarded (s : sys) (c : string) : Prop := exists t p, threads s !! t = Some p /\ guarding p c = true.

Lemma ready_up p : isContainerReady (report p) = true -> p = Up.
Proof. by destruct p. Qed.

Lemma url_address c k ip : DaemonURL_of (inspect c k) = Some ip -> c_phase k = Up /\ c_ip k = ip.
Proof.
  unfold DaemonURL_of. rewrite attachment_inspect. simpl. destruct (isContainerReady (report (c_phase k))) eqn:E; simpl; [|done].
  destruct (decide (c_ip k = "")); [done|]. intros [= <-]. split; [by apply ready_up|done].
Qed.

(** C14: However operations, crashes, restarts, lost events and failing calls
    interleave: a running container is protected by rules for its present address and
    for the network it is on, unless Docker restarted it and no wake has applied its
    policy since, a create or wake is about to protect it or to stop it, or it should
    not be there any more: an operation that gave up on it could not clean up, or a
    remove of it was taken for done because Docker's error read as "not found"
    ([isDockerNotFound]); and a URL handed out for a sandbox names the present address
    of a running container of that sandbox. *)
Theorem docker_sandbox_confined s c k : rtc step initial s -> cs s !! c = Some k ->
  (c_phase k = Up -> protected (rules s) c k \/ c_restarted k = true \/ c_stray k = true \/ being_guarded s c) /\
  (forall t id ip, threads s !! t = Some (UInspect id c) -> DaemonURL_of (inspect c k) = Some ip ->
    c_label k = id /\ c_phase k = Up /\ c_ip k = ip).
Proof.
  intros Hi%dinv_reachable Hc. split.
  - intros Hu. destruct (i_guard _ Hi _ _ Hc) as [H|H]; [|by right; right; right].
    destruct (c_restarted k) eqn:Er; [by right; left|]. destruct (c_stray k) eqn:Es; [by right; right; left|]. left. by apply H.
  - intros t id ip Ht Hurl. split; [by apply (i_fits _ Hi _ _ _ _ Ht eq_refl Hc)|by apply (url_address c)].
Qed.

(** A container's network rules are torn down only while it does not run and cannot
    come back by itself (it is gone, or stopped by the wake that failed), or when its
    remove was taken for done although Docker had failed it. *)
Theorem docker_rules_outlive_container s t p c k : rtc step initial s -> threads s !! t = Some p ->
  (exists x, p = RTear c x) \/ (exists id, p = WTear id c) -> cs s !! c = Some k ->
  c_stray k = true \/ at_rest k /\ exists id, p = WTear id c /\ c_label k = id.
Proof.
  intros Hi%dinv_reachable Ht [[x ->]|[id ->]] Hc; pose proof (i_fits _ Hi _ _ _ _ Ht eq_refl Hc) as Hf; [by left|right].
  destruct Hf as [H1 H2]. split; [done|]. by exists id.
Qed.

(** Every container of the runner was returned by a create that succeeded, is still
    in the hands of a create that will return it or remove it, or belongs to a create or
    wake whose clean-up, or whose own reply, Docker failed. *)
Theorem docker_no_orphan s c k : rtc step initial s -> cs s !! c = Some k ->
  c_owned k = true \/ c_stray k = true \/ exists t p, threads s !! t = Some p /\ making p c = true.
Proof. intros Hi%dinv_reachable Hc. destruct (i_kept _ Hi _ _ Hc) as [[H|H]|H]; auto. Qed.

(** ** Crashes and their reports *)

Definition view (s : sys) : gset string * list event := (restarted (mk s), log s).

(** Whether the last word about [id] is a crash. *)
Fixpoint outstanding (id : string) (l : list event) : bool :=
  match l with
  | [] => false
  | LCrash x :: l' => if decide (x = id) then true else outstanding id l'
  | (LReport x | LDeleted x) :: l' => if decide (x = id) then false else outstanding id l'
  | LAdmitted _ :: l' => outstanding id l'
  end.

Fixpoint admitted_clean (l : list event) : Prop :=
  match l with
  | [] => True
  | LAdmitted id :: l' => outstanding id l' = false /\ admitted_clean l'
  | _ :: l' => admitted_clean l'
  end.

Definition view_ok (v : gset string * list event) : Prop :=
  (forall id, bool_decide (id ∈ v.1) = outstanding id v.2) /\ admitted_clean v.2.

Lemma view_on_container c f s : view (on_container c f s) = view s.
Proof. unfold on_container. by destruct (cs s !! c). Qed.
Lemma view_start c a s : view (docker_start c a s) = view s.
Proof. apply view_on_container. Qed.
Lemma view_stop c s : view (docker_stop c s) = view s.
Proof. unfold docker_stop. destruct (cs s !! c) as [k|]; [|done]. destruct (c_phase k); try done; apply (view_on_container c (set_phase Exited "" false) s). Qed.
Lemma view_rm c s : view (docker_rm c s) = view s.
Proof. unfold docker_rm. destruct (cs s !! c) as [k|]; [|done]. by destruct (c_phase k). Qed.
Lemma view_applied c ip b s : view (rules_applied c ip b s) = view s.
Proof. unfold rules_applied. etrans; [|apply (view_on_container c (fun k => if decide (c_ip k = ip) then set_phase (c_phase k) (c_ip k) false k else k) s)]. done. Qed.
Lemma view_took r f s : (forall s, view (f s) = view s) -> view (took r f s) = view s.
Proof. intros H. by destruct r. Qed.
Lemma view_mk m s : restarted m = restarted (mk s) -> view (set_mk m s) = view s.
Proof. intros E. unfold view. simpl. by rewrite E. Qed.
Lemma view_expect s c token m : expectStop (clock s) c (mk s) = (token, m) -> view (set_mk m s) = view s.
Proof. unfold expectStop. case_decide; intros [= <- <-]; by apply view_mk. Qed.
Lemma view_forget c token s : view (set_mk (forgetExpectedStop c token (mk s)) s) = view s.
Proof. apply view_mk. unfold forgetExpectedStop. by case_decide. Qed.
Lemma view_take s c b m : takeExpectedStop (clock s) c (mk s) = (b, m) -> view (set_mk m s) = view s.
Proof. unfold takeExpectedStop. case_match; intros [= <- <-]; by apply view_mk. Qed.
Lemma view_next t l s : view (next_reconcile t l s) = view s.
Proof. by destruct l. Qed.
Lemma view_found r a t p s : view (found r a t p s) = view s.
Proof. destruct r; simpl; try done. by case_decide. Qed.

(** The steps that matter; all others leave the view alone. *)
Definition quiet (p : pc) : bool := match p with DClear _ | WClear _ | UMark _ | XMark _ => false | _ => true end.

Lemma view_goto t p s : view (goto t p s) = view s.
Proof. done. Qed.
Lemma view_finish t s : view (finish t s) = view s.
Proof. done. Qed.

#[local] Create Rewrite HintDb view.
#[local] Hint Rewrite view_goto view_finish view_next view_found view_forget view_on_container view_applied view_rm view_stop view_start : view.
Ltac view_tac := repeat (case_match; autorewrite with view; try done); autorewrite with view;
  try (rewrite view_took; [done|intros; autorewrite with view; done]); try done.

Lemma view_quiet r a ids t p s : quiet p = true -> view (advance r a ids t p s) = view s.
Proof.
  intros Hq. destruct p; try discriminate Hq; cbn [advance CreateContainer removeContainerAndTeardownRules DeleteSandbox ensureSandboxRunningOnce
    cleanupWakeFailure StopSandboxContainer DaemonURL handleContainerDeath reconcileContainers took]; unfold inspected, reconcileContainers.
  all: try (destruct (expectStop (clock s) _ (mk s)) as [token' m] eqn:Em; apply view_expect in Em).
  all: try (destruct (takeExpectedStop (clock s) _ (mk s)) as [b' m] eqn:Em; apply view_take in Em).
  all: view_tac.
Qed.

Lemma view_ok_step s s' : view_ok (view s) -> step s s' -> view_ok (view s').
Proof.
  intros Hv Hstep. destruct Hstep as [s o t Ht Ho|s r a ids t p Ht Hr|s c k Hc Hp|s c k ip Hc Hp|s c k Hc Hp|s c id rest t Hp Ht|s e rest Hp|s now Hn];
    try done; try (by rewrite view_on_container).
  2:{ change (view_ok (view (on_container c (set_phase Between "" false) s))). by rewrite view_on_container. }
  destruct (quiet p) eqn:Eq; [by rewrite view_quiet|]. destruct Hv as [V1 V2].
  destruct p; try discriminate Eq; cbn [advance DeleteSandbox ensureSandboxRunningOnce DaemonURL handleContainerDeath].
  - split; [|exact V2]. intros x. simpl. rewrite <- V1. destruct (decide (id = x)) as [->|]; [rewrite bool_decide_false|apply bool_decide_ext]; set_solver.
  - split; [|exact V2]. intros x. simpl. rewrite <- V1. destruct (decide (id = x)) as [->|]; [rewrite bool_decide_false|apply bool_decide_ext]; set_solver.
  - destruct (wasRestarted id (mk s)) eqn:E; [done|]. split; [exact V1|]. split; [|exact V2]. rewrite <- V1. exact E.
  - split; [|exact V2]. intros x. simpl. rewrite <- V1. destruct (decide (id = x)) as [->|]; [rewrite bool_decide_true|apply bool_decide_ext]; set_solver.
Qed.

Lemma view_ok_reachable s : rtc step initial s -> view_ok (view s).
Proof.
  intros H. assert (G : forall x y, rtc step x y -> view_ok (view x) -> view_ok (view y)) by (intros x y Hxy; induction Hxy; eauto using view_ok_step).
  apply (G _ _ H). split; [|done]. intros id. simpl. apply bool_decide_false. set_solver.
Qed.

Lemma admitted_clean_at l1 id l2 : admitted_clean (l1 ++ LAdmitted id :: l2) -> outstanding id l2 = false.
Proof. induction l1 as [|[] l1 IH]; simpl; try tauto. Qed.

(** Once a crash of a sandbox was recorded, no request is given its URL until a wake
    that found the mark has put the policy back, reached the daemon and reported the
    restart, or the sandbox was deleted. *)
Theorem docker_crash_reported s l1 id l2 l3 l4 : rtc step initial s -> log s = l1 ++ LAdmitted id :: l2 -> l2 = l3 ++ LCrash id :: l4 ->
  LReport id ∈ l3 \/ LDeleted id ∈ l3.
Proof.
  intros [_ Hv]%view_ok_reachable E ->. simpl in Hv. rewrite E in Hv. apply admitted_clean_at in Hv. clear E.
  induction l3 as [|e l3 IH]; simpl in Hv; [by rewrite decide_True in Hv|].
  destruct e as [x|x|x|x]; try (destruct (decide (x = id)) as [->|]); try done; try (left; left); try (right; left); destruct (IH Hv); set_solver.
Qed.

(** ** Deaths the runner asked for *)

(** What else happens to the marks. *)
Inductive mark_op := MExpect (now : Z) (c : string) | MForget (c : string) (token : Z) | MTake (now : Z) (c : string) | MMark (id : string) | MClear (id : string).

Definition mark_apply (o : mark_op) (m : marks) : marks :=
  match o with
  | MExpect now c => snd (expectStop now c m)
  | MForget c token => forgetExpectedStop c token m
  | MTake now c => snd (takeExpectedStop now c m)
  | MMark id => mark_restarted id m
  | MClear id => clearRestarted id m
  end.

(** On other containers, no later than [deadline]. *)
Definition elsewhere (c : string) (deadline : Z) (o : mark_op) : Prop :=
  match o with
  | MExpect now c' => c' <> c /\ now <= deadline
  | MForget c' _ | MTake _ c' => c' <> c
  | MMark _ | MClear _ => True
  end.

Lemma elsewhere_keeps c d os m : Forall (elsewhere c d) os ->
  (forall e, expectedStops m !! c = Some e -> d - es_at e <= expectedStopTTL) ->
  expectedStops (foldl (fun m o => mark_apply o m) m os) !! c = expectedStops m !! c.
Proof.
  intros Hos. revert m. induction Hos as [|o os Ho Hos IH]; intros m Hm; [done|]. simpl.
  assert (E : expectedStops (mark_apply o m) !! c = expectedStops m !! c).
  { destruct o as [now c'|c' token|now c'|id|id]; simpl in *; try done.
    - unfold expectStop. case_decide; [done|]. simpl. rewrite lookup_insert_ne by naive_solver. destruct (expectedStops m !! c) as [e|] eqn:E.
      + apply map_lookup_filter_Some. split; [done|]. specialize (Hm e eq_refl). destruct Ho as [_ Hn]. lia.
      + apply map_lookup_filter_None. by left.
    - unfold forgetExpectedStop. case_decide; [|done]. simpl. by apply lookup_delete_ne.
    - unfold takeExpectedStop. case_match; [|done]. simpl. by apply lookup_delete_ne. }
  rewrite IH, E; [done|]. intros e He. apply Hm. by rewrite <- E.
Qed.

(** A stop recorded for a container excuses one death of it within two minutes,
    whatever happens to other containers meanwhile, and only one; once its call failed
    and took it back it excuses none, while a call on the same container that failed
    takes back no mark but its own. *)
Theorem expected_stop_excuses_once c m now now' os os' token m1 : c <> "" -> expectStop now c m = (token, m1) -> now <= now' <= now + expectedStopTTL ->
  Forall (elsewhere c now') os -> Forall (elsewhere c now') os' ->
  let m2 := foldl (fun m o => mark_apply o m) m1 os in
  (exists m3, takeExpectedStop now' c m2 = (true, m3) /\ fst (takeExpectedStop now' c (foldl (fun m o => mark_apply o m) m3 os')) = false) /\
  fst (takeExpectedStop now' c (forgetExpectedStop c token m2)) = false /\
  (forall token', token' <> token -> forgetExpectedStop c token' m2 = m2).
Proof.
  intros Hc He Hn Hos Hos' m2. unfold expectStop in He. rewrite decide_False in He by done. injection He as <- <-.
  assert (E : expectedStops m2 !! c = Some (mkStop ((stopToken m + 1) mod 2 ^ 64) now)).
  { unfold m2. rewrite (elsewhere_keeps c now'); simpl; [by rewrite lookup_insert_eq|done|]. intros e. rewrite lookup_insert_eq. intros [= <-]. simpl. lia. }
  split_and!.
  - unfold takeExpectedStop at 1. rewrite E. eexists. split; [rewrite bool_decide_true by (simpl; lia); reflexivity|].
    unfold takeExpectedStop. rewrite (elsewhere_keeps c now'); simpl; rewrite ?lookup_delete_eq; done.
  - unfold forgetExpectedStop, takeExpectedStop. rewrite E. simpl. rewrite decide_True by done. simpl. by rewrite lookup_delete_eq.
  - intros token' Hne. unfold forgetExpectedStop. rewrite E. simpl. by rewrite decide_False by congruence.
Qed.

(** ** Traces *)

Lemma rtc_norm s s1 v z : step s s1 -> s1 = v -> rtc step v z -> rtc step s z.
Proof. intros H <-. by apply rtc_l. Qed.

(** One step, with the state computed. *)
Ltac reply_tac := first [ exact I | (vm_compute; eexists; reflexivity) | (right; eexists; split; [vm_compute; reflexivity|reflexivity])
  | (split; [discriminate|split; [intros Hx; vm_compute in Hx; discriminate Hx|intros ? ? Hl; vm_compute in Hl; discriminate Hl]]) ].
Ltac norm := vm_compute; reflexivity.
Ltac advs t r a := eapply rtc_norm; [eapply (step_advance _ r a [] t); [vm_compute; reflexivity|reply_tac]|norm|].
Ltac nobody_tac := intros ? ? Hx; vm_compute in Hx; rewrite ?lookup_empty in Hx; discriminate Hx.
Ltac starts t o := eapply rtc_norm; [eapply (step_op _ o t); [vm_compute; reflexivity|
  first [exact I|(split; [vm_compute; lia|nobody_tac])|(split; nobody_tac)]]|norm|].
Ltac crashes c := eapply rtc_norm; [eapply (step_crash _ c); vm_compute; reflexivity|norm|].
Ltac restarts c ip := eapply rtc_norm; [eapply (step_restart _ c _ ip); vm_compute; reflexivity|norm|].
Ltac event_comes t := eapply rtc_norm; [eapply (step_event _ _ _ _ t); vm_compute; reflexivity|norm|].

Definition sb : string := "sandbox-number-1".

(** A sandbox is created and somebody asks for its URL. *)
Definition asked : sys :=
  mkSys {["c1" := mkContainer sb (container_name sb) false Up "172.20.0.2" false false true]} {["c1"]} [] {["c1" := ("172.20.0.2", false)]}
    (mkMarks ∅ 0 ∅) {[7%nat := UInspect sb "c1"]} 0 [LAdmitted sb].

Lemma asked_reachable : rtc step initial asked.
Proof.
  starts 7%nat (OCreate sb false). advs 7%nat Ok "c1". advs 7%nat Ok "172.20.0.2". advs 7%nat Ok "". advs 7%nat Ok "". advs 7%nat Ok "".
  starts 7%nat (OURL sb). advs 7%nat Ok "". advs 7%nat Ok "c1". vm_compute. apply rtc_refl.
Qed.

Lemma docker_sandbox_confined_witness : protected (rules asked) "c1" (mkContainer sb (container_name sb) false Up "172.20.0.2" false false true).
Proof.
  destruct (docker_sandbox_confined asked "c1" _ asked_reachable eq_refl) as [H _].
  destruct (H eq_refl) as [?|[[=]|[[=]|(t & p & Ht & Hg)]]]; [done|]. unfold asked in Ht. cbn [threads] in Ht. apply lookup_singleton_Some in Ht as [_ <-]. discriminate Hg.
Defined.

(** A delete whose remove fails with a text that reads as not found: the rules come
    down around a container that goes on running. *)
Example misread_remove_unprotects :
  rtc step asked (mkSys {["c1" := mkContainer sb (container_name sb) false Up "172.20.0.2" false true true]} {["c1"]} [] ∅
    (mkMarks {["c1" := mkStop 1 0]} 1 ∅) {[7%nat := UInspect sb "c1"]} 0 [LDeleted sb; LAdmitted sb]).
Proof.
  starts 8%nat (ODelete sb). advs 8%nat Ok "c1". advs 8%nat Ok "". advs 8%nat FailNotFound "". advs 8%nat Ok "". advs 8%nat Ok "".
  vm_compute. apply rtc_refl.
Qed.

Lemma docker_no_orphan_witness : c_owned (mkContainer sb (container_name sb) false Up "172.20.0.2" false false true) = true.
Proof.
  destruct (docker_no_orphan asked "c1" _ asked_reachable eq_refl) as [?|[[=]|(t & p & Ht & Hg)]]; [done|].
  unfold asked in Ht. cbn [threads] in Ht. apply lookup_singleton_Some in Ht as [_ <-]. discriminate Hg.
Defined.

(** The sandbox is stopped; a wake starts it, and it dies before its daemon answers. *)
Definition woken (k : container) (m : marks) (p : pc) (l : list event) : sys :=
  mkSys {["c1" := k]} {["c1"]} [] {["c1" := ("172.20.0.3", false)]} m {[1%nat := p]} 0 l.
Definition stopped_again : container := mkContainer sb (container_name sb) false Exited "" false false true.
Definition failed_wake : sys := woken stopped_again (mkMarks {["c1" := mkStop 2 0]} 2 {[sb]}) (WTear sb "c1") [LCrash sb].

Lemma failed_wake_reachable : rtc step initial failed_wake.
Proof.
  starts 1%nat (OCreate sb false). advs 1%nat Ok "c1". advs 1%nat Ok "172.20.0.2". advs 1%nat Ok "". advs 1%nat Ok "". advs 1%nat Ok "".
  starts 1%nat (OStop sb). advs 1%nat Ok "c1". advs 1%nat Ok "". advs 1%nat Ok "". advs 1%nat Ok "".
  event_comes 1%nat. advs 1%nat Ok "".
  starts 1%nat (OWake sb). advs 1%nat Ok "c1". advs 1%nat Ok "". advs 1%nat Ok "". advs 1%nat Ok "". advs 1%nat Ok "172.20.0.3".
  advs 1%nat Ok "". advs 1%nat Ok "".
  crashes "c1". event_comes 2%nat. advs 2%nat Ok "". advs 2%nat Ok "".
  advs 1%nat Fail "". advs 1%nat Ok "". advs 1%nat Ok "". vm_compute. apply rtc_refl.
Qed.

Lemma docker_rules_outlive_container_witness : at_rest stopped_again.
Proof.
  destruct (docker_rules_outlive_container failed_wake 1 (WTear sb "c1") "c1" stopped_again failed_wake_reachable) as [H|[H _]];
    [reflexivity|right; by exists sb|reflexivity|discriminate H|exact H].
Defined.

(** The wake that failed recorded a stop for a container that was dead already, so no
    death of it came to take the record back: the next wake recovers the sandbox, and
    when the container dies within two minutes that crash goes unrecorded, and the
    sandbox Docker restarts serves requests as if nothing was lost. *)
Definition hidden_crash : sys :=
  mkSys {["c1" := mkContainer sb (container_name sb) false Up "172.20.0.5" true false true]} {["c1"]} [] {["c1" := ("172.20.0.4", false)]}
    (mkMarks ∅ 2 ∅) {[2%nat := UInspect sb "c1"]} 0 [LAdmitted sb; LReport sb; LCrash sb].

Example failed_wake_hides_next_crash : rtc step failed_wake hidden_crash.
Proof.
  advs 1%nat Ok "". starts 1%nat (OWake sb). advs 1%nat Ok "c1". advs 1%nat Ok "". advs 1%nat Ok "". advs 1%nat Ok "". advs 1%nat Ok "".
  advs 1%nat Ok "172.20.0.4". advs 1%nat Ok "". advs 1%nat Ok "". advs 1%nat Ok "". advs 1%nat Ok "".
  crashes "c1". event_comes 2%nat. advs 2%nat Ok "". restarts "c1" "172.20.0.5".
  starts 2%nat (OURL sb). advs 2%nat Ok "". advs 2%nat Ok "c1". vm_compute. apply rtc_refl.
Qed.

Lemma docker_crash_reported_witness : LReport sb ∈ [LReport sb] \/ LDeleted sb ∈ [LReport sb].
Proof.
  apply (docker_crash_reported hidden_crash [] sb [LReport sb; LCrash sb] [LReport sb] []); [|reflexivity|reflexivity].
  etrans; [apply failed_wake_reachable|apply failed_wake_hides_next_crash].
Defined.

Lemma expected_stop_excuses_once_witness :
  let m1 := snd (expectStop 5 "c1" (mkMarks ∅ 0 ∅)) in
  exists m3, takeExpectedStop 9 "c1" (snd (expectStop 7 "c2" m1)) = (true, m3) /\ fst (takeExpectedStop 9 "c1" m3) = false.
Proof.
  simpl. destruct (expected_stop_excuses_once "c1" (mkMarks ∅ 0 ∅) 5 9 [MExpect 7 "c2"] [] 1 _ ltac:(done) eq_refl) as [(m3 & H1 & H2) _].
  - vm_compute. split; discriminate.
  - constructor; [|constructor]. split; [done|lia].
  - constructor.
  - exists m3. split; [exact H1|exact H2].
Defined.
End DockerSafety.
