(* ===== verification/DockerHost.v ===== *)
(** * What the Docker runner asks of its host
    ([internal/runner/runtime/docker]: docker_client.go, bridge_netfilter.go, and [New] of runtime.go)

    The command line a sandbox container is created with, the check that bridged
    packets pass iptables, and the start of the runner, which puts the policy of both
    bridges in place before any sandbox exists. *)

From S2P Require Import Prelude GoStrings Ids Wire Netfilter Netrules NetrulesInv NetrulesPolicy Docker.

Module DockerHost.
Import GoStrings Wire Netfilter Netrules NetrulesInv NetrulesPolicy.

(** ** Arguments *)

Record ResourceLimits := mkLimits { MemoryMB : Z; CPUPercent : Z; PidsMax : Z; DiskMB : Z }.

(** What [defaultLimits] reads of the configuration. *)
Record DockerConfig := mkDockerConfig {
  DefaultMemoryMB : Z; DefaultCPUPercent : Z; DefaultPidsMax : Z; DefaultDiskQuotaMB : Z; DiskQuotaActive : bool;
}.

Definition defaultLimits (cfg : DockerConfig) : ResourceLimits :=
  mkLimits (DefaultMemoryMB cfg) (DefaultCPUPercent cfg) (DefaultPidsMax cfg) (if DiskQuotaActive cfg then DefaultDiskQuotaMB cfg else 0).

Definition itoa (n : Z) : string := of_chars (format_int n).

(** [strconv.FormatFloat(float64(n)/100, 'f', 2, 64)] of a positive [n] that a double
    holds exactly. *)
Definition hundredths (n : Z) : string :=
  of_chars (format_uint (n / 100) ++ [byte 46; Wire.digit (n mod 100 / 10); Wire.digit (n mod 10)]).

Definition dockerSandboxSecurityArgs : list string := ["--cap-drop"; "ALL"; "--security-opt"; "no-new-privileges"].

Definition dockerIPv6Args (onlyIPv4 : bool) : list string :=
  if onlyIPv4 then [] else
  ["--sysctl"; "net.ipv6.conf.all.disable_ipv6=1"; "--sysctl"; "net.ipv6.conf.default.disable_ipv6=1"; "--sysctl"; "net.ipv6.conf.lo.disable_ipv6=1"].

Definition dockerDNSArgs (servers : list string) : list string :=
  match servers with [] => [] | _ => (servers ≫= fun server => ["--dns"; server]) ++ ["--dns-search"; "."] end.

Definition dockerLimitArgs (l : ResourceLimits) : list string :=
  (if decide (MemoryMB l > 0) then ["--memory"; itoa (MemoryMB l) +:+ "m"] else []) ++
  (if decide (CPUPercent l > 0) then ["--cpus"; hundredths (CPUPercent l)] else []) ++
  (if decide (PidsMax l > 0) then ["--pids-limit"; itoa (PidsMax l)] else []).

Definition dockerDiskQuotaArgs (l : ResourceLimits) : list string :=
  if decide (DiskMB l <= 0) then [] else ["--storage-opt"; "size=" +:+ itoa (DiskMB l) +:+ "m"].

Definition containerLabelManaged : string := "sandbox-service.managed".
Definition containerLabelSandboxID : string := "sandbox-service.id".

Definition dockerContainerCreateArgs (sandboxID containerName image network : string) (limits : ResourceLimits) (enableCgroups : bool)
    (dnsServers : list string) (onlyIPv4 : bool) : list string :=
  ["container"; "create"; "--name"; containerName; "--hostname"; "sandbox"; "--restart"; "unless-stopped"; "--network"; network;
   "--label"; containerLabelManaged +:+ "=" +:+ "true"; "--label"; containerLabelSandboxID +:+ "=" +:+ sandboxID; "--user"; "1000:1000";
   "--env"; "HOME=/home/user"; "--env"; "PATH=/usr/local/sbin:/usr/local/bin:/usr/sbin:/usr/bin:/sbin:/bin"] ++
  dockerSandboxSecurityArgs ++ dockerIPv6Args onlyIPv4 ++ dockerDNSArgs dnsServers ++
  (if enableCgroups then dockerLimitArgs limits else []) ++ dockerDiskQuotaArgs limits ++ [image].

(** The command line as docker reads it: options with a value each. *)
Definition flatten (l : list (string * string)) : list string := l ≫= fun '(flag, value) => [flag; value].

(** The options that are ever given. *)
Definition options : list string :=
  ["--name"; "--hostname"; "--restart"; "--network"; "--label"; "--user"; "--env"; "--cap-drop"; "--security-opt"; "--sysctl"; "--dns"; "--dns-search";
   "--memory"; "--cpus"; "--pids-limit"; "--storage-opt"].

Lemma flatten_app a b : flatten (a ++ b) = flatten a ++ flatten b.
Proof. apply bind_app. Qed.

Lemma flatten_dns servers : dockerDNSArgs servers = flatten (match servers with [] => [] | _ => ((fun x => ("--dns", x)) <$> servers) ++ [("--dns-search", ".")] end).
Proof.
  assert (H : forall l, (l ≫= fun server => ["--dns"; server]) = flatten ((fun x => ("--dns", x)) <$> l)) by (induction l as [|x l IH]; [done|]; csimpl; by rewrite IH).
  destruct servers as [|x l]; [done|]. unfold dockerDNSArgs. by rewrite flatten_app, H.
Qed.

(** A sandbox container is created with options from a fixed list, none of which
    grants privileges or mounts anything, whatever the ids, servers and limits are: it
    drops all capabilities, gains none, runs as user 1000 on the network of its egress
    mode alone, has IPv6 off unless the host has none, and carries the labels it is found
    by; with cgroups on, a memory limit above 0 is passed on. *)
Theorem create_args_confined id name image network limits cgroups dns onlyIPv4 :
  exists opts, dockerContainerCreateArgs id name image network limits cgroups dns onlyIPv4 = ["container"; "create"] ++ flatten opts ++ [image] /\
    Forall (fun o => o.1 ∈ options) opts /\
    [("--cap-drop", "ALL"); ("--security-opt", "no-new-privileges"); ("--user", "1000:1000"); ("--network", network);
     ("--label", "sandbox-service.managed=true"); ("--label", "sandbox-service.id=" +:+ id)] ⊆ opts /\
    (forall net, ("--network", net) ∈ opts -> net = network) /\
    (onlyIPv4 = false -> ("--sysctl", "net.ipv6.conf.all.disable_ipv6=1") ∈ opts /\ ("--sysctl", "net.ipv6.conf.default.disable_ipv6=1") ∈ opts) /\
    (cgroups = true -> MemoryMB limits > 0 -> ("--memory", itoa (MemoryMB limits) +:+ "m") ∈ opts).
Proof.
  set (base := [("--name", name); ("--hostname", "sandbox"); ("--restart", "unless-stopped"); ("--network", network);
    ("--label", "sandbox-service.managed=true"); ("--label", "sandbox-service.id=" +:+ id); ("--user", "1000:1000"); ("--env", "HOME=/home/user");
    ("--env", "PATH=/usr/local/sbin:/usr/local/bin:/usr/sbin:/usr/bin:/sbin:/bin"); ("--cap-drop", "ALL"); ("--security-opt", "no-new-privileges")]).
  set (v6 := if onlyIPv4 then [] else [("--sysctl", "net.ipv6.conf.all.disable_ipv6=1"); ("--sysctl", "net.ipv6.conf.default.disable_ipv6=1");
    ("--sysctl", "net.ipv6.conf.lo.disable_ipv6=1")]).
  set (dn := match dns with [] => [] | _ => ((fun x => ("--dns", x)) <$> dns) ++ [("--dns-search", ".")] end).
  set (lim := if cgroups then (if decide (MemoryMB limits > 0) then [("--memory", itoa (MemoryMB limits) +:+ "m")] else []) ++
    (if decide (CPUPercent limits > 0) then [("--cpus", hundredths (CPUPercent limits))] else []) ++
    (if decide (PidsMax limits > 0) then [("--pids-limit", itoa (PidsMax limits))] else []) else []).
  set (disk := if decide (DiskMB limits <= 0) then [] else [("--storage-opt", "size=" +:+ itoa (DiskMB limits) +:+ "m")]).
  assert (Hd : Forall (fun o => o.1 ∈ options /\ o.1 <> "--network") (v6 ++ dn ++ lim ++ disk)).
  { rewrite !Forall_app. split_and!.
    - unfold v6. destruct onlyIPv4; repeat constructor; set_solver.
    - unfold dn. destruct dns as [|x l]; [constructor|]. rewrite Forall_app, Forall_fmap. split; [apply Forall_true; intros; simpl; split; [set_solver|done]|].
      repeat constructor; simpl; set_solver.
    - unfold lim. destruct cgroups; [|constructor]. rewrite !Forall_app. split_and!; case_decide; repeat constructor; simpl; set_solver.
    - unfold disk. case_decide; repeat constructor; simpl; set_solver. }
  exists (base ++ v6 ++ dn ++ lim ++ disk). split_and!.
  - rewrite !flatten_app, <- !app_assoc. unfold dockerContainerCreateArgs. rewrite flatten_dns. fold dn.
    replace (dockerIPv6Args onlyIPv4) with (flatten v6) by (unfold v6; by destruct onlyIPv4).
    replace (if cgroups then dockerLimitArgs limits else []) with (flatten lim).
    2:{ unfold lim, dockerLimitArgs. destruct cgroups; [|done]. rewrite !flatten_app. repeat case_decide; done. }
    replace (dockerDiskQuotaArgs limits) with (flatten disk) by (unfold disk, dockerDiskQuotaArgs; by case_decide). reflexivity.
  - apply Forall_app. split; [unfold base; repeat constructor; set_solver|]. eapply Forall_impl; [exact Hd|]. by intros ? [? ?].
  - intros x Hx. apply elem_of_app. left. unfold base. set_solver.
  - intros net. rewrite elem_of_app. intros [H|H]; [unfold base in H; set_solver|]. rewrite Forall_forall in Hd. by destruct (Hd _ H).
  - intros ->. split; apply elem_of_app; right; apply elem_of_app; left; unfold v6; set_solver.
  - intros -> Hm. apply elem_of_app. right. do 2 (apply elem_of_app; right). apply elem_of_app. left. unfold lim. rewrite decide_True by done. set_solver.
Qed.

(** ** Bridge netfilter *)

(** [strconv.Atoi] *)
Definition Atoi (l : list ascii) : option Z :=
  let '(neg, ds) := match l with
                    | c :: l' => if decide (c = byte 45) then (true, l') else if decide (c = byte 43) then (false, l') else (false, l)
                    | [] => (false, [])
                    end in
  match ds with
  | [] => None
  | _ => match digits_value 0 ds with
         | Some n => let v := if neg : bool then - n else n in if decide (- 2 ^ 63 <= v < 2 ^ 63) then Some v else None
         | None => None
         end
  end.

Definition dot : ascii := byte 46.

(** The digits at the front of [l]. *)
Fixpoint leading_digits (l : list ascii) : list ascii :=
  match l with c :: l' => if decide (is_Some (digit_value c)) then c :: leading_digits l' else [] | [] => [] end.

(** [None]: not [ok]. *)
Definition kernelAtLeast (release : string) (major minor : Z) : option bool :=
  match cut_at dot (chars release) with
  | Some (a, _ :: rest) =>
      let b := match cut_at dot rest with Some (b, _) => b | None => rest end in
      match Atoi a, Atoi (leading_digits b) with
      | Some gotMajor, Some gotMinor => Some (if decide (gotMajor <> major) then bool_decide (gotMajor > major) else bool_decide (gotMinor >= minor))
      | _, _ => None
      end
  | _ => None
  end.

(** [os.ReadFile] *)
Inductive read_result := NotExist | ReadError | Contents (s : string).

Inductive netfilter_error := ErrReadSysctl | ErrSysctlOff | ErrMissing | ErrUnacknowledged.

Definition checkHostWideBridgeNetfilter (osRelease : read_result) (ackLoaded : bool) : netfilter_error + bool :=
  match osRelease with
  | Contents b =>
      match kernelAtLeast (TrimSpace b) 5 3 with
      | None => inl ErrMissing
      | Some true => inl ErrMissing
      | Some false => if ackLoaded then inr true else inl ErrUnacknowledged
      end
  | _ => inl ErrMissing
  end.

(** [inr unverified] *)
Definition checkBridgeNetfilter (callIPTables osRelease : read_result) (ackLoaded : bool) : netfilter_error + bool :=
  match callIPTables with
  | NotExist => checkHostWideBridgeNetfilter osRelease ackLoaded
  | ReadError => inl ErrReadSysctl
  | Contents b => if decide (TrimSpace b <> "1") then inl ErrSysctlOff else inr false
  end.

Lemma bridge_netfilter_checked call rel ack u : checkBridgeNetfilter call rel ack = inr u <->
  (u = false /\ exists b, call = Contents b /\ TrimSpace b = "1") \/
  (u = true /\ call = NotExist /\ ack = true /\ exists r, rel = Contents r /\ kernelAtLeast (TrimSpace r) 5 3 = Some false).
Proof.
  unfold checkBridgeNetfilter, checkHostWideBridgeNetfilter. split.
  - destruct call as [| |b]; [|done|].
    + destruct rel as [| |r]; [done|done|]. destruct (kernelAtLeast (TrimSpace r) 5 3) as [[]|] eqn:E; [done| |done].
      destruct ack; [|done]. intros [= <-]. right. eauto 6.
    + destruct (decide (TrimSpace b = "1")) as [H|H]; [|by rewrite decide_True]. rewrite decide_False by auto. intros [= <-]. left. eauto.
  - intros [(-> & b & -> & H)|(-> & -> & -> & r & -> & H)].
    + rewrite decide_False; [done|]. by intros ?.
    + by rewrite H.
Qed.

(** *** Kernel releases *)

Lemma leading_digits_app l rest : Forall is_digit l -> match rest with [] => True | c :: _ => digit_value c = None end ->
  leading_digits (l ++ rest) = l.
Proof.
  intros Hl Hr. induction Hl as [|c l Hc Hl IH]; simpl.
  - destruct rest as [|c rest]; [done|]. simpl. rewrite decide_False; [done|]. rewrite Hr. by intros [? [=]].
  - rewrite decide_True by done. by rewrite IH.
Qed.

Lemma Atoi_format n : 0 <= n < 2 ^ 63 -> Atoi (format_uint n) = Some n.
Proof.
  intros Hn. unfold Atoi, format_uint. pose proof (decimal_nonempty 20 n [] ltac:(lia)) as Hne.
  pose proof (decimal_digits 20 n [] ltac:(lia) ltac:(constructor)) as Hd. pose proof (decimal_value 20 n [] ltac:(change (10 ^ Z.of_nat 20) with 100000000000000000000; lia) ltac:(lia)) as Hv.
  destruct (decimal 20 n []) as [|c l] eqn:E; [done|]. apply Forall_cons in Hd as [Hc _].
  rewrite !decide_False by (intros ->; destruct Hc as [? Hc]; vm_compute in Hc; discriminate Hc).
  rewrite Hv. simpl. by rewrite decide_True by lia.
Qed.

Lemma format_no_dot n : 0 <= n -> dot ∉ format_uint n.
Proof. intros Hn. apply digits_no; [|reflexivity]. apply decimal_digits; [done|constructor]. Qed.

(** A kernel release "a.b", with anything after it that is not a digit, is compared by
    its version. *)
Lemma kernel_at_least_correct a b rest major minor : 0 <= a < 2 ^ 63 -> 0 <= b < 2 ^ 63 ->
  match rest with [] => True | c :: _ => digit_value c = None end ->
  kernelAtLeast (of_chars (format_uint a ++ dot :: format_uint b ++ rest)) major minor = Some (bool_decide (a > major \/ a = major /\ b >= minor)).
Proof.
  intros Ha Hb Hr. unfold kernelAtLeast. rewrite chars_of_chars, cut_at_app by (apply format_no_dot; lia).
  assert (Hm : leading_digits (match cut_at dot (format_uint b ++ rest) with Some (x, _) => x | None => format_uint b ++ rest end) = format_uint b).
  { assert (Hd : Forall is_digit (format_uint b)) by (apply decimal_digits; [lia|constructor]).
    assert (Hcut : forall l, Forall is_digit l -> forall r, cut_at dot (l ++ r) = match cut_at dot r with Some (x, y) => Some (l ++ x, y) | None => None end).
    { intros l Hl r. induction Hl as [|c l Hc Hl IH]; simpl; [by destruct (cut_at dot r) as [[]|]|].
      rewrite decide_False; [rewrite IH; by destruct (cut_at dot r) as [[]|]|]. intros ->. by destruct Hc. }
    rewrite (Hcut _ Hd). destruct rest as [|c rest]; [simpl; rewrite app_nil_r; rewrite <- (app_nil_r (format_uint b)) at 1; by apply leading_digits_app|].
    simpl. destruct (decide (c = dot)) as [->|Hc]; [by apply leading_digits_app|].
    destruct (cut_at dot rest) as [[x y]|]; by apply leading_digits_app. }
  rewrite Hm, !Atoi_format by done. f_equal. case_decide; apply bool_decide_ext; lia.
Qed.

(** ** The start of the runner *)

Record networkInspect := mkNetwork { ni_ID : string; ni_Options : gmap string string; ni_Gateways : list string }.

Definition bridgeNameOption : string := "com.docker.network.bridge.name".

Definition firstGateway (i : networkInspect) : string := match ni_Gateways i with g :: _ => g | [] => "" end.

Definition bridgeInterface (i : networkInspect) : string :=
  let by_id := if (12 <=? String.length (ni_ID i))%nat then "br-" +:+ String.substring 0 12 (ni_ID i) else "" in
  match ni_Options i !! bridgeNameOption with
  | Some name => if decide (name <> "") then name else by_id
  | None => by_id
  end.

Record runnerNetwork := mkRunnerNetwork {
  networkName : string; bridgeName : string; blockEgress : bool; rn_iface : string; gatewayIP : string;
}.

Definition runnerNoEgressBridge : string := "br-no-egress".
Definition publicNetwork : runnerNetwork := mkRunnerNetwork Docker.runnerBridgeNetwork Docker.runnerBridgeNetwork false "" "".
Definition noEgressNetwork : runnerNetwork := mkRunnerNetwork Docker.runnerNoEgressNetwork runnerNoEgressBridge true "" "".

Definition network_create_args (n : runnerNetwork) : list string :=
  ["network"; "create"; "--driver"; "bridge"] ++ (if blockEgress n then ["--internal"] else []) ++
  ["--opt"; "com.docker.network.bridge.enable_icc=false"; "--opt"; bridgeNameOption +:+ "=" +:+ bridgeName n; networkName n].

Inductive new_error := ErrReconcile | ErrNetwork | ErrPolicy (e : net_error) | ErrBridgeNetfilter (e : netfilter_error).

Section start.
Context {I : Iptables}.
(** Docker, by the number of the call: the managed containers, or an error; whether a
    container was removed; a network, or an error and whether it says that there is none;
    whether a command succeeded. *)
Context (docker_list : nat -> option (list string)) (docker_rm : nat -> string -> bool)
  (docker_network : nat -> string -> bool + networkInspect) (docker_run : nat -> list string -> bool).
#[local] Open Scope act_scope.

Definition start_act A := act (netrules I) new_error A.

Definition ask {A} (f : nat -> A) : start_act A :=
  let! s := get in
  do! modify (fun s => mkNet I (S (nt_tick s)) (nt_tables s) (sharedChainsReset s)) in
  ret (f (nt_tick s)).

(** [removeContainerAndTeardownRules], as far as the tables go. *)
Definition remove_managed (id : string) : start_act unit :=
  let! ok := ask (fun n => docker_rm n id) in
  if ok : bool then do! try (Teardown id) in ret tt else ret tt.

Fixpoint remove_all (ids : list string) : start_act unit :=
  match ids with [] => ret tt | id :: ids' => do! remove_managed id in remove_all ids' end.

Definition reconcile : start_act unit :=
  let! ids := ask docker_list in
  match ids with Some ids => remove_all ids | None => exit ErrReconcile end.

Definition createRunnerNetwork (n : runnerNetwork) : start_act (bool + networkInspect) :=
  let! ok := ask (fun k => docker_run k (network_create_args n)) in
  if ok : bool then ask (fun k => docker_network k (networkName n)) else ret (inl false).

Definition ensureRunnerNetwork (n : runnerNetwork) : start_act runnerNetwork :=
  let! i := ask (fun k => docker_network k (networkName n)) in
  let! i := (match i with inl true => createRunnerNetwork n | _ => ret i end) in
  match i with
  | inl _ => exit ErrNetwork
  | inr i => if decide (bridgeInterface i = "") then exit ErrNetwork
             else ret (mkRunnerNetwork (networkName n) (bridgeName n) (blockEgress n) (bridgeInterface i) (firstGateway i))
  end.

Definition start_network (n : runnerNetwork) : start_act runnerNetwork :=
  let! n := ensureRunnerNetwork n in
  let! o := try (EnsureBridgePolicy (rn_iface n) (blockEgress n)) in
  match o with inl e => exit (ErrPolicy e) | inr _ => ret n end.

Definition New (callIPTables osRelease : read_result) (ackLoaded : bool) : start_act (runnerNetwork * runnerNetwork) :=
  do! reconcile in
  let! np := start_network publicNetwork in
  let! nc := start_network noEgressNetwork in
  match checkBridgeNetfilter callIPTables osRelease ackLoaded with
  | inl e => exit (ErrBridgeNetfilter e)
  | inr _ => ret (np, nc)
  end.
End start.

(** *** What a start that succeeded did *)

Lemma bind_inr {W R A B} (m : act W R A) (k : A -> act W R B) w b w' : bind m k w = (inr b, w') -> exists a w1, m w = (inr a, w1) /\ k a w1 = (inr b, w').
Proof. unfold bind. destruct (m w) as [[r|a] w1]; [done|]. eauto. Qed.

Section started.
Context {I : Iptables} {L : IptablesLaws I}.
Context (docker_list : nat -> option (list string)) (docker_rm : nat -> string -> bool)
  (docker_network : nat -> string -> bool + networkInspect) (docker_run : nat -> list string -> bool).
Context (pub closed : string) (gw : string -> string).
Hypothesis (Hpc : pub <> closed).
(** Docker's ids are Docker's. *)
Hypothesis (Hids : forall n ids id, docker_list n = Some ids -> id ∈ ids -> docker_id id).

#[local] Abbreviation inv := (inv pub closed gw).

Lemma ask_inr {A} (f : nat -> A) s a s' : ask f s = (inr a, s') -> a = f (nt_tick s) /\ s' = mkNet I (S (nt_tick s)) (nt_tables s) (sharedChainsReset s).
Proof. unfold ask, bind, get, modify, ret. by intros [= <- <-]. Qed.

Lemma ask_inv {A} (f : nat -> A) F s a s' : inv F s -> ask f s = (inr a, s') -> inv F s'.
Proof. intros Hi [_ ->]%ask_inr. by apply inv_same. Qed.

Lemma remove_all_inv ids F s u s' : inv F s -> (forall id, id ∈ ids -> docker_id id) -> remove_all docker_rm ids s = (inr u, s') -> inv F s'.
Proof using Hpc L.
  revert s. induction ids as [|id ids IH]; intros s Hi Hd Hr; simpl in Hr; [by injection Hr as _ <-|].
  apply bind_inr in Hr as (v & s1 & H1 & H2). apply (IH s1); [|intros; apply Hd; by right|done]. clear IH H2.
  unfold remove_managed in H1. apply bind_inr in H1 as (ok & s2 & H1 & H2). pose proof (ask_inv _ _ _ _ _ Hi H1) as Hi2.
  destruct ok; [|by injection H2 as _ <-]. apply bind_inr in H2 as (o & s3 & H2 & H3). injection H3 as _ <-.
  unfold try in H2. destruct (Teardown id s2) as [o' w'] eqn:E. injection H2 as _ <-.
  pose proof (teardown_keeps pub closed gw Hpc id F s2 Hi2 (Hd id ltac:(left))) as Hk. unfold keeps, wp in Hk. unfold Teardown in E. rewrite E in Hk. apply Hk.
Qed.

Lemma ensureRunnerNetwork_inv n F s n' s' : inv F s -> ensureRunnerNetwork docker_network docker_run n s = (inr n', s') ->
  inv F s' /\ blockEgress n' = blockEgress n /\ rn_iface n' <> "".
Proof.
  intros Hi Hr. unfold ensureRunnerNetwork in Hr. apply bind_inr in Hr as (i & s1 & H1 & Hr). pose proof (ask_inv _ _ _ _ _ Hi H1) as Hi1.
  apply bind_inr in Hr as (i' & s2 & H2 & Hr).
  assert (Hi2 : inv F s2).
  { destruct i as [[]|x]; [|by injection H2 as _ <-..]. unfold createRunnerNetwork in H2. apply bind_inr in H2 as (ok & s3 & H3 & H4).
    pose proof (ask_inv _ _ _ _ _ Hi1 H3) as Hi3. destruct ok; [by eapply ask_inv|by injection H4 as _ <-]. }
  destruct i' as [?|x]; [done|]. destruct (decide (bridgeInterface x = "")); [done|]. by injection Hr as <- <-.
Qed.

Lemma start_network_inv n F s n' s' b : inv F s -> start_network docker_network docker_run n s = (inr n', s') -> rn_iface n' = b -> bridge pub closed b ->
  blockEgress n = blocked closed b -> inv (policy pub closed b ++ F) s'.
Proof using Hpc L.
  intros Hi Hr Hb Hbr Hbl. unfold start_network in Hr. apply bind_inr in Hr as (n1 & s1 & H1 & Hr).
  destruct (ensureRunnerNetwork_inv _ _ _ _ _ Hi H1) as (Hi1 & E1 & _). apply bind_inr in Hr as (o & s2 & H2 & Hr).
  destruct o as [e|[]]; [done|]. injection Hr as -> <-. subst b. unfold try in H2. rewrite E1, Hbl in H2.
  destruct (EnsureBridgePolicy _ _ s1) as [o' w'] eqn:E. injection H2 as -> <-.
  pose proof (EnsureBridge_keeps pub closed gw Hpc _ F s1 Hi1 Hbr) as Hk. unfold keeps, wp in Hk. rewrite E in Hk. apply Hk.
Qed.

(** C15: Once the Docker runner has started, the policies of both its bridges are in
    place: it reaches no host service from either, nothing at all is forwarded from the
    one without egress, and from the public one nothing to private ranges or back to the
    bridge; and bridged packets do pass these rules, because the sysctl reads 1 or, on a
    kernel before 5.3 that hides it, the operator has said so.  The conditions are those of
    the policies: [start], and for what is forwarded [no_gateway_spoof]. *)
Theorem docker_start_protects call rel ack s np nc s' :
  start pub closed gw s -> New docker_list docker_rm docker_network docker_run call rel ack s = (inr (np, nc), s') -> rn_iface np = pub -> rn_iface nc = closed ->
  (forall p, bridge pub closed (pk_in p) -> delivered (chains (nt_tables s')) p = Some (host_verdict p)) /\
  (forall p, bridge pub closed (pk_in p) -> no_gateway_spoof pub closed gw p -> (pk_in p = pub -> egress_verdict pub p = Drop) ->
    forwarded (chains (nt_tables s')) p = Some Drop) /\
  ((exists b, call = Contents b /\ TrimSpace b = "1") \/ (call = NotExist /\ ack = true /\ exists r, rel = Contents r /\ kernelAtLeast (TrimSpace r) 5 3 = Some false)).
Proof using Hpc L Hids.
  intros [Hrst Hg] Hnew Ep Ec. assert (Hi : inv [] s) by (split; [by rewrite Hrst|done|constructor|constructor]).
  unfold New in Hnew. apply bind_inr in Hnew as (u & s1 & H1 & Hnew). apply bind_inr in Hnew as (np' & s2 & H2 & Hnew).
  apply bind_inr in Hnew as (nc' & s3 & H3 & Hnew). destruct (checkBridgeNetfilter call rel ack) as [e|un] eqn:Hck; [done|]. injection Hnew as -> -> <-.
  assert (Hi1 : inv [] s1).
  { unfold reconcile in H1. apply bind_inr in H1 as (ids & s0 & H0 & H1). pose proof (ask_inv _ _ _ _ _ Hi H0) as Hi0. destruct ids as [ids|]; [|done].
    apply (remove_all_inv ids [] s0 u); [done| |done]. apply ask_inr in H0 as [H0 _]. intros id. by apply (Hids (nt_tick s)). }
  assert (Hi2 : inv (policy pub closed pub ++ []) s2).
  { eapply start_network_inv; [exact Hi1|exact H2|done|by left|]. unfold blocked. by rewrite bool_decide_false. }
  assert (Hi3 : inv (policy pub closed closed ++ policy pub closed pub ++ []) s3).
  { eapply start_network_inv; [exact Hi2|exact H3|done|by right|]. unfold blocked. by rewrite bool_decide_true. }
  assert (Hsub : forall b, bridge pub closed b -> policy pub closed b ⊆ policy pub closed closed ++ policy pub closed pub ++ []).
  { intros b [-> | ->] x Hx; rewrite !elem_of_app; auto. }
  split_and!.
  - intros p Hb. eapply (delivered_verdict pub closed gw Hpc); [exact Hi3|by apply Hsub|exact Hb|done].
  - intros p Hb Hsp Hv. eapply (forwarded_drop pub closed gw Hpc); [exact Hi3|by apply Hsub|exact Hb|done|done|done].
  - apply bridge_netfilter_checked in Hck as [(_ & H)|(_ & H)]; [by left|by right].
Qed.
End started.

(** A start on a host with one container left over, where only the public network
    exists. *)
Definition toy_networks (n : nat) (name : string) : bool + networkInspect :=
  if decide (name = "runner-bridge") then inr (mkNetwork "0123456789abcdef" ∅ ["172.20.0.1"])
  else if (n <? 40)%nat then inl true else inr (mkNetwork "f" {[bridgeNameOption := "br-no-egress"]} ["172.21.0.1"]).

#[local] Existing Instance toy.
#[local] Existing Instance toy_laws.

#[local] Abbreviation toy_new := (New (I := toy) (fun _ => Some ["0a1b"]) (fun _ _ => true) toy_networks (fun _ _ => true) (Contents ("1" +:+ of_chars [byte 10])) NotExist false).

Definition toy_final : netrules toy := snd (toy_new toy_start).
Definition toy_public : runnerNetwork := mkRunnerNetwork "runner-bridge" "runner-bridge" false "br-0123456789ab" "172.20.0.1".
Definition toy_closed : runnerNetwork := mkRunnerNetwork "runner-no-egress" "br-no-egress" true "br-no-egress" "172.21.0.1".

Lemma toy_new_eq : toy_new toy_start = (inr (toy_public, toy_closed), toy_final).
Proof. vm_compute. reflexivity. Qed.

Lemma toy_ids (n : nat) ids id : Some ["0a1b"] = Some ids -> id ∈ ids -> docker_id id.
Proof. intros [= <-] ->%list_elem_of_singleton. apply (toy_id (chars "0a1b")). vm_compute. done. Qed.

Lemma docker_start_protects_witness :
  delivered (chains (nt_tables toy_final)) (mkPacket "br-no-egress" "" 0 0 true "22" false) = Some (host_verdict (mkPacket "br-no-egress" "" 0 0 true "22" false)).
Proof.
  pose proof (docker_start_protects (fun _ => Some ["0a1b"]) (fun _ _ => true) toy_networks (fun _ _ => true) "br-0123456789ab" "br-no-egress" toy_gw
    ltac:(discriminate) toy_ids (Contents ("1" +:+ of_chars [byte 10])) NotExist false toy_start toy_public toy_closed toy_final
    (toy_good_for "br-0123456789ab" "br-no-egress" toy_gw ltac:(discriminate) ltac:(discriminate)) toy_new_eq eq_refl eq_refl) as [H _].
  apply H. right. reflexivity.
Defined.

End DockerHost.
