(* ===== verification/ShellQuote.v ===== *)
(** * Words in shell scripts
    ([internal/shellquote], [internal/runner/runtime/firecracker.ee/network])

    How /bin/sh cuts a script into words, that a quoted string is one word whatever is
    in it, and the scripts that build a Firecracker slot's network as the commands they
    run. *)

From S2P Require Import Prelude GoStrings.

Module ShellQuote.
Import GoStrings.

(** ** [shellquote.Quote] *)

Definition squote : ascii := byte 39.
Definition dquote : ascii := byte 34.

(** [strings.ReplaceAll(s, "'", `'"'"'`)] *)
Definition escape_quotes (l : list ascii) : list ascii := l ≫= fun c => if decide (c = squote) then [squote; dquote; squote; dquote; squote] else [c].

Definition Quote (s : string) : string :=
  if decide (s = "") then of_chars [squote; squote] else of_chars ([squote] ++ escape_quotes (chars s) ++ [squote]).

(** ** Words

    Blanks and newlines separate words outside quotes; single quotes keep everything;
    so do double quotes what the scripts have between them; a backslash keeps the next
    character and drops a newline.  Operators come out as unquoted words. *)

Inductive token := Word (s : string) | Quoted (s : string) | NL.
#[global] Instance token_eq_dec : EqDecision token.
Proof. solve_decision. Defined.

Inductive mode := Plain | Single | Double | Backslash.

(** [l_word]: the word so far, backwards; [l_any]: whether there is one; [l_quoted]:
    whether part of it was quoted. *)
Record lexer := mkLexer { l_mode : mode; l_word : list ascii; l_any : bool; l_quoted : bool; l_out : list token }.

Definition end_word (x : lexer) : lexer :=
  if l_any x then
    let s := of_chars (reverse (l_word x)) in
    mkLexer Plain [] false false (l_out x ++ [if l_quoted x then Quoted s else Word s])
  else mkLexer Plain [] false false (l_out x).

Definition add (c : ascii) (quoted : bool) (m : mode) (x : lexer) : lexer := mkLexer m (c :: l_word x) true (l_quoted x || quoted) (l_out x).

Definition lex_char (x : lexer) (c : ascii) : lexer :=
  match l_mode x with
  | Plain =>
      if decide (c = byte 32) then end_word x
      else if decide (c = byte 10) then let y := end_word x in mkLexer Plain [] false false (l_out y ++ [NL])
      else if decide (c = squote) then mkLexer Single (l_word x) true true (l_out x)
      else if decide (c = dquote) then mkLexer Double (l_word x) true true (l_out x)
      else if decide (c = byte 92) then mkLexer Backslash (l_word x) (l_any x) (l_quoted x) (l_out x)
      else add c false Plain x
  | Single => if decide (c = squote) then mkLexer Plain (l_word x) true true (l_out x) else add c true Single x
  | Double => if decide (c = dquote) then mkLexer Plain (l_word x) true true (l_out x) else add c true Double x
  | Backslash => if decide (c = byte 10) then mkLexer Plain (l_word x) (l_any x) (l_quoted x) (l_out x) else add c true Plain x
  end.

Definition lex_from (x : lexer) (s : string) : lexer := foldl lex_char x (chars s).
Definition lex_start : lexer := mkLexer Plain [] false false [].
Definition lex (s : string) : list token := l_out (end_word (lex_from lex_start s)).

Lemma lex_from_app x a b : lex_from x (a +:+ b) = lex_from (lex_from x a) b.
Proof. unfold lex_from. by rewrite chars_app, foldl_app. Qed.

Lemma lex_single l x : l_mode x = Single ->
  foldl lex_char x (escape_quotes l) = mkLexer Single (reverse l ++ l_word x) (l_any x || negb (bool_decide (l = []))) (l_quoted x || negb (bool_decide (l = []))) (l_out x).
Proof.
  revert x. induction l as [|c l IH]; intros [m w any q out] Hm; simpl in Hm; subst m; [by rewrite !orb_false_r|].
  change (escape_quotes (c :: l)) with ((if decide (c = squote) then [squote; dquote; squote; dquote; squote] else [c]) ++ escape_quotes l). rewrite foldl_app.
  replace (foldl lex_char _ (if decide (c = squote) then _ else _)) with (mkLexer Single (c :: w) true true out).
  - rewrite IH by done. simpl. rewrite reverse_cons, <- app_assoc, !orb_true_r. done.
  - destruct (decide (c = squote)) as [->|Hc]; [reflexivity|]. simpl. unfold lex_char. simpl. rewrite decide_False by done. unfold add. simpl. by rewrite orb_true_r.
Qed.

(** A quoted string adds exactly its characters to the word. *)
Lemma lex_quote s x : l_mode x = Plain -> lex_from x (Quote s) = mkLexer Plain (reverse (chars s) ++ l_word x) true true (l_out x).
Proof.
  intros Hm. unfold Quote, lex_from. destruct (decide (s = "")) as [->|Hne].
  - destruct x as [m w any q out]. simpl in Hm. by subst m.
  - rewrite chars_of_chars, !foldl_app. destruct x as [m w any q out]. simpl in Hm. subst m.
    change (foldl lex_char (mkLexer Plain w any q out) [squote]) with (mkLexer Single w true true out). rewrite lex_single by done. simpl.
    unfold lex_char. simpl. done.
Qed.

(** What was read before changes nothing. *)
Lemma lex_char_out m w any q c : exists m' w' any' q' o', forall o, lex_char (mkLexer m w any q o) c = mkLexer m' w' any' q' (o ++ o').
Proof.
  destruct m; unfold lex_char, end_word, add; cbn -[reverse of_chars]; repeat case_decide; try destruct any; cbn -[reverse of_chars];
    try (eexists _, _, _, _, []; intros o; rewrite app_nil_r; reflexivity); eexists _, _, _, _, _; intros o; rewrite <- ?app_assoc; reflexivity.
Qed.

Lemma lex_chars_out l m w any q : exists m' w' any' q' o', forall o, foldl lex_char (mkLexer m w any q o) l = mkLexer m' w' any' q' (o ++ o').
Proof.
  revert m w any q. induction l as [|c l IH]; intros m w any q; simpl; [exists m, w, any, q, []; intros o; by rewrite app_nil_r|].
  destruct (lex_char_out m w any q c) as (m1 & w1 & a1 & q1 & o1 & H1). destruct (IH m1 w1 a1 q1) as (m2 & w2 & a2 & q2 & o2 & H2).
  exists m2, w2, a2, q2, (o1 ++ o2). intros o. by rewrite H1, H2, <- app_assoc.
Qed.

Lemma lex_fresh out s : l_out (end_word (lex_from (mkLexer Plain [] false false out) s)) = out ++ lex s.
Proof.
  unfold lex, lex_from, lex_start. destruct (lex_chars_out (chars s) Plain [] false false) as (m & w & any & q & o' & H). rewrite !H.
  unfold end_word. simpl. destruct any; simpl; by rewrite ?app_assoc.
Qed.

Definition space : string := of_chars [byte 32].
Definition newline : string := of_chars [byte 10].

(** Whatever characters a string has, quotes, newlines and shell syntax included,
    its quoted form is one word to the shell, and that word is the string. *)
Theorem quote_is_one_word s rest : lex (Quote s +:+ space +:+ rest) = Quoted s :: lex rest.
Proof.
  unfold lex at 1. rewrite lex_from_app, lex_quote by done. rewrite lex_from_app.
  assert (E : lex_from (mkLexer Plain (reverse (chars s) ++ l_word lex_start) true true (l_out lex_start)) space = mkLexer Plain [] false false [Quoted s]).
  { unfold lex_from, space. rewrite chars_of_chars. cbn [foldl]. unfold lex_char, end_word. cbn -[reverse chars of_chars].
    rewrite app_nil_r, reverse_involutive, of_chars_chars. done. }
  rewrite E. apply lex_fresh.
Qed.

(** ** Scripts from pieces *)

(** What [fmt.Sprintf] and [q] put together. *)
Inductive piece := Lit (s : string) | Arg (s : string).

Definition render (l : list piece) : string := foldr (fun p acc => match p with Lit s => s | Arg s => Quote s end +:+ acc) "" l.

(** The lexer on pieces: literal text by the character, arguments at once. *)
Definition lex_piece (x : lexer) (p : piece) : lexer :=
  match p with Lit s => lex_from x s | Arg s => mkLexer Plain (reverse (chars s) ++ l_word x) true true (l_out x) end.

(** The mode alone. *)
Definition mode_char (m : mode) (c : ascii) : mode :=
  match m with
  | Plain => if decide (c = squote) then Single else if decide (c = dquote) then Double else if decide (c = byte 92) then Backslash else Plain
  | Single => if decide (c = squote) then Plain else Single
  | Double => if decide (c = dquote) then Plain else Double
  | Backslash => Plain
  end.

Lemma lex_char_mode x c : l_mode (lex_char x c) = mode_char (l_mode x) c.
Proof.
  destruct x as [m w any q out]. destruct m; unfold lex_char, end_word, add; simpl; repeat case_decide; subst; try done; try (by destruct any);
    vm_compute in *; congruence.
Qed.

(** Text that leaves the shell outside quotes. *)
Definition closed_text (s : string) : Prop := foldl mode_char Plain (chars s) = Plain.

Lemma lex_from_mode x s : l_mode (lex_from x s) = foldl mode_char (l_mode x) (chars s).
Proof. unfold lex_from. generalize (chars s). intros l. revert x. induction l as [|c l IH]; intros x; simpl; [done|]. by rewrite IH, lex_char_mode. Qed.

Lemma lex_pieces l x : Forall (fun p => match p with Lit s => closed_text s | Arg _ => True end) l -> l_mode x = Plain ->
  lex_from x (render l) = foldl lex_piece x l.
Proof.
  intros Hl. revert x. induction Hl as [|p l Hp Hl IH]; intros x Hm; [done|]. simpl. rewrite lex_from_app. destruct p as [s|s]; simpl.
  - rewrite IH; [done|]. by rewrite lex_from_mode, Hm.
  - rewrite lex_quote by done. by rewrite IH.
Qed.
End ShellQuote.
