(* ===== verification/FirecrackerNet.v ===== *)
(** * Networks of Firecracker slots
    ([internal/runner/runtime/firecracker.ee]: network/network.go, network/egress.go, network_wirer.go)

    The scripts as the commands the shell runs, the addresses and names of slots, what
    the rules in a slot's namespace say of the guest's packets, and the wirer that builds
    and clears namespaces while sandboxes come and go. *)

From S2P Require Import Prelude GoStrings Wire Netfilter Netrules NetrulesPolicy ShellQuote.

Module FirecrackerNet.
Import GoStrings ShellQuote.
Import Netfilter.

(** ** Names and addresses *)

Definition itoa (n : Z) : string := of_chars (Wire.format_int n).

Definition uplinkIfaceName : string := "fc-uplink".
Definition defaultTapIface : string := "fc-tap-0".
Definition guestSubnetCIDR : string := "172.16.0.0/24".

Definition NetnsName (slot : Z) : string := "fc-sb-" +:+ itoa slot.
Definition HostVethName (slot : Z) : string := "fc-veth-" +:+ itoa slot.

Definition MaxSlots : Z := 64 * 256.

(** The octets of the two addresses of a link. *)
Definition uplink_octets (slot : Z) : Z * Z := (slot / 64, slot mod 64 * 4).

Definition uplinkSubnet (slot : Z) : string * string * string :=
  let '(octet, base) := uplink_octets slot in
  ("10.200." +:+ itoa octet +:+ "." +:+ itoa (base + 1), "10.200." +:+ itoa octet +:+ "." +:+ itoa (base + 2), "30").

(** ** Scripts *)

Definition tap_or_default (tapDevice : string) : string := if decide (tapDevice = "") then defaultTapIface else tapDevice.

Definition line (l : list piece) : list piece := l ++ [Lit newline].

Definition exec (netns : string) (rest : list piece) : list piece := [Lit "ip netns exec "; Arg netns; Lit " "] ++ rest.

Definition forwardEgressRules (netns tap : string) : list (list piece) :=
  [exec netns [Lit "iptables -w 5 -A FORWARD -i "; Arg tap; Lit " -m conntrack --ctstate ESTABLISHED,RELATED -j ACCEPT"]] ++
  ((fun cidr => exec netns [Lit "iptables -w 5 -A FORWARD -i "; Arg tap; Lit " -d "; Arg cidr; Lit " -j DROP"]) <$> Netrules.PrivateRangesV4) ++
  [exec netns [Lit "iptables -w 5 -A FORWARD -i "; Arg tap; Lit " -j ACCEPT"]].

Definition setup_head (slot : Z) (tapDevice tapCIDR : string) : list (list piece) :=
  let tap := tap_or_default tapDevice in
  let netns := NetnsName slot in
  let veth := HostVethName slot in
  let '(hostIP, netnsIP, prefix) := uplinkSubnet slot in
  [ [Lit "set -eu"];
    [Lit "ip link delete "; Arg veth; Lit " 2>/dev/null || true"];
    [Lit "ip netns delete "; Arg netns; Lit " 2>/dev/null || true"];
    [Lit "ip netns add "; Arg netns];
    [Lit "ip link add "; Arg veth; Lit " type veth peer name "; Arg uplinkIfaceName; Lit " netns "; Arg netns];
    [Lit "ip addr add "; Arg hostIP; Lit "/"; Lit prefix; Lit " dev "; Arg veth];
    [Lit "ip link set "; Arg veth; Lit " up"];
    exec netns [Lit "ip addr add "; Arg netnsIP; Lit "/"; Lit prefix; Lit " dev "; Arg uplinkIfaceName];
    exec netns [Lit "ip link set "; Arg uplinkIfaceName; Lit " up"];
    exec netns [Lit "ip link set lo up"];
    exec netns [Lit "ip tuntap add name "; Arg tap; Lit " mode tap"];
    exec netns [Lit "ip addr add "; Arg tapCIDR; Lit " dev "; Arg tap];
    exec netns [Lit "ip link set "; Arg tap; Lit " up"];
    exec netns [Lit "ip route add default via "; Arg hostIP; Lit " dev "; Arg uplinkIfaceName];
    exec netns [Lit "sysctl -w net.ipv4.ip_forward=1"];
    exec netns [Lit "iptables -w 5 -t nat -A POSTROUTING -s "; Lit guestSubnetCIDR; Lit " -o "; Arg uplinkIfaceName; Lit " -j MASQUERADE"] ].

Definition setup_lines (slot : Z) (tapDevice tapCIDR : string) : list (list piece) :=
  setup_head slot tapDevice tapCIDR ++ forwardEgressRules (NetnsName slot) (tap_or_default tapDevice).

Definition SetupScript (slot : Z) (tapDevice tapCIDR : string) : string := render (setup_lines slot tapDevice tapCIDR ≫= line).

Definition continued : string := of_chars ([byte 32; byte 92; byte 10; byte 32; byte 32]).

Definition block_line (netns tap : string) : list piece :=
  exec netns [Lit "iptables -w 5 -C FORWARD -i "; Arg tap; Lit " -j DROP 2>/dev/null"; Lit continued; Lit "|| "] ++
  exec netns [Lit "iptables -w 5 -I FORWARD 1 -i "; Arg tap; Lit " -j DROP"].

Definition BlockEgressScript (slot : Z) (tapDevice : string) : string :=
  render ([[Lit "set -eu"]; block_line (NetnsName slot) (tap_or_default tapDevice)] ≫= line).

Definition CleanupScript (slot : Z) : string :=
  render ([Lit newline] ++ line [Lit "set -eu"] ++
    line [Lit "ip link delete "; Arg (HostVethName slot); Lit " 2>/dev/null || true"] ++
    line [Lit "ip netns delete "; Arg (NetnsName slot); Lit " 2>/dev/null || true"]).

(** ** The commands of a script *)

Definition text (t : token) : string := match t with Word s | Quoted s => s | NL => "" end.

(** Tokens by line. *)
Fixpoint by_line (acc : list token) (l : list token) : list (list token) :=
  match l with
  | [] => match acc with [] => [] | _ => [acc] end
  | NL :: l' => acc :: by_line [] l'
  | t :: l' => by_line (acc ++ [t]) l'
  end.

Definition commands (script : string) : list (list token) := by_line [] (lex script).

(** The rule a command appends to FORWARD in the namespace. *)
Definition appended (netns : string) (cmd : list token) : option rule :=
  match cmd with
  | Word "ip" :: Word "netns" :: Word "exec" :: Quoted ns :: Word "iptables" :: Word "-w" :: Word "5" :: Word "-A" :: Word "FORWARD" :: r =>
      if decide (ns = netns) then Some (text <$> r) else None
  | _ => None
  end.

(** A namespace is made anew, so its FORWARD chain is what the script appends. *)
Definition built_forward (slot : Z) (tapDevice tapCIDR : string) : list rule := omap (appended (NetnsName slot)) (commands (SetupScript slot tapDevice tapCIDR)).

(** The rules, without the shell. *)
Definition guest_rules (tap : string) : list rule :=
  [["-i"; tap; "-m"; "conntrack"; "--ctstate"; "ESTABLISHED,RELATED"; "-j"; "ACCEPT"]] ++
  ((fun cidr => ["-i"; tap; "-d"; cidr; "-j"; "DROP"]) <$> Netrules.PrivateRangesV4) ++ [["-i"; tap; "-j"; "ACCEPT"]].
Definition block_rule (tap : string) : rule := ["-i"; tap; "-j"; "DROP"].

(** *** Lexing line by line *)

(** The tokens of a line that starts outside quotes. *)
Definition line_tokens (l : list piece) : list token := l_out (end_word (foldl lex_piece lex_start l)).

Definition closed_line (l : list piece) : Prop := Forall (fun p => match p with Lit s => closed_text s | Arg _ => True end) l.

Definition fresh (out : list token) : lexer := mkLexer Plain [] false false out.

Lemma piece_out p m w any q : exists m' w' any' q' o', forall o, lex_piece (mkLexer m w any q o) p = mkLexer m' w' any' q' (o ++ o').
Proof.
  destruct p as [s|s]; [apply lex_chars_out|]. eexists _, _, _, _, []. intros o. simpl. rewrite app_nil_r. reflexivity.
Qed.

Lemma pieces_out l m w any q : exists m' w' any' q' o', forall o, foldl lex_piece (mkLexer m w any q o) l = mkLexer m' w' any' q' (o ++ o').
Proof.
  revert m w any q. induction l as [|p l IH]; intros m w any q; simpl; [exists m, w, any, q, []; intros o; by rewrite app_nil_r|].
  destruct (piece_out p m w any q) as (m1 & w1 & a1 & q1 & o1 & H1). destruct (IH m1 w1 a1 q1) as (m2 & w2 & a2 & q2 & o2 & H2).
  exists m2, w2, a2, q2, (o1 ++ o2). intros o. by rewrite H1, H2, <- app_assoc.
Qed.

Lemma tokens_from out l : l_out (end_word (foldl lex_piece (fresh out) l)) = out ++ line_tokens l.
Proof.
  unfold line_tokens, lex_start, fresh. destruct (pieces_out l Plain [] false false) as (m & w & any & q & o' & H). rewrite !H.
  unfold end_word. simpl. destruct any; simpl; by rewrite ?app_assoc.
Qed.

Lemma pieces_mode l x : closed_line l -> l_mode x = Plain -> l_mode (foldl lex_piece x l) = Plain.
Proof.
  intros Hl. revert x. induction Hl as [|p l Hp Hl IH]; intros x Hm; simpl; [done|]. apply IH. destruct p as [s|s]; simpl; [|done].
  by rewrite lex_from_mode, Hm.
Qed.

Lemma line_ends out l : closed_line l -> foldl lex_piece (fresh out) (line l) = fresh (out ++ line_tokens l ++ [NL]).
Proof.
  intros Hl. unfold line. rewrite foldl_app. pose proof (pieces_mode l (fresh out) Hl eq_refl) as Hm. pose proof (tokens_from out l) as Ht.
  destruct (foldl lex_piece (fresh out) l) as [m w any q o]. simpl in Hm. subst m. cbn [foldl lex_piece]. unfold lex_from, newline. rewrite chars_of_chars.
  cbn [foldl]. unfold lex_char. cbn [l_mode]. rewrite decide_False by done. rewrite decide_True by done. rewrite Ht. unfold fresh. by rewrite app_assoc.
Qed.

Lemma lines_end ls out : Forall closed_line ls -> foldl lex_piece (fresh out) (ls ≫= line) = fresh (out ++ (ls ≫= fun l => line_tokens l ++ [NL])).
Proof.
  intros Hls. revert out. induction Hls as [|l ls Hl Hls IH]; intros out; [by rewrite app_nil_r|]. csimpl. rewrite foldl_app, line_ends, IH by done.
  by rewrite <- !app_assoc.
Qed.

Lemma by_line_lines ls : Forall (fun l => NL ∉ l) ls -> by_line [] (ls ≫= fun l => l ++ [NL]) = ls.
Proof.
  assert (H : forall l acc rest, NL ∉ l -> by_line acc (l ++ NL :: rest) = (acc ++ l) :: by_line [] rest).
  { intros l. induction l as [|t l IH]; intros acc rest Hn; simpl; [by rewrite app_nil_r|]. rewrite not_elem_of_cons in Hn. destruct Hn as [Ht Hn].
    destruct t; [..|done]; rewrite IH by done; by rewrite <- app_assoc. }
  induction 1 as [|l ls Hl Hls IH]; [done|]. csimpl. rewrite <- app_assoc. simpl. rewrite H by done. by rewrite IH.
Qed.

(** No line has a newline outside quotes. *)
Lemma commands_lines ls : Forall closed_line ls -> Forall (fun l => NL ∉ line_tokens l) ls -> commands (render (ls ≫= line)) = line_tokens <$> ls.
Proof.
  intros Hc Hn. unfold commands, lex. rewrite lex_pieces; [|apply Forall_bind; eapply Forall_impl; [exact Hc|]|done].
  2:{ intros l Hl. unfold line. apply Forall_app. split; [exact Hl|]. by repeat constructor. }
  change lex_start with (fresh []). rewrite lines_end by done. simpl.
  rewrite <- (by_line_lines (line_tokens <$> ls)) by (by rewrite Forall_fmap). f_equal. clear. induction ls as [|l ls IH]; [done|]. csimpl. by rewrite IH.
Qed.

(** The tokens of a line, piece by piece. *)
Lemma exec_tokens netns rest : line_tokens (exec netns rest) = [Word "ip"; Word "netns"; Word "exec"; Quoted netns] ++ line_tokens rest.
Proof.
  unfold line_tokens at 1, exec. rewrite foldl_app.
  assert (E : foldl lex_piece lex_start [Lit "ip netns exec "; Arg netns; Lit " "] = fresh [Word "ip"; Word "netns"; Word "exec"; Quoted netns]).
  { cbn [foldl lex_piece]. replace (lex_from lex_start "ip netns exec ") with (fresh [Word "ip"; Word "netns"; Word "exec"]) by reflexivity.
    cbn [fresh l_word l_out]. unfold lex_from. change (chars " ") with [byte 32]. cbn [foldl]. unfold lex_char, end_word. cbn -[reverse chars of_chars].
    by rewrite app_nil_r, reverse_involutive, of_chars_chars. }
  rewrite E. apply tokens_from.
Qed.

Lemma lit_tokens b rest : exists o, line_tokens (Lit b :: rest) = l_out (lex_from lex_start b) ++ o.
Proof.
  unfold line_tokens. cbn [foldl lex_piece]. destruct (lex_from lex_start b) as [m w any q o]. destruct (pieces_out rest m w any q) as (m' & w' & any' & q' & o' & H).
  rewrite H. unfold end_word. simpl. destruct any'; simpl; [|by exists o']. eexists. by rewrite <- app_assoc.
Qed.

Lemma lit_arg_tokens b toks x c rest : lex_from lex_start b = fresh toks ->
  line_tokens (Lit b :: Arg x :: Lit (space +:+ c) :: rest) = toks ++ [Quoted x] ++ line_tokens (Lit c :: rest).
Proof.
  intros Hb. unfold line_tokens at 1. cbn [foldl lex_piece]. rewrite Hb, lex_from_app. cbn [fresh l_word l_out].
  replace (lex_from (mkLexer Plain (reverse (chars x) ++ []) true true toks) space) with (fresh (toks ++ [Quoted x])).
  - change (foldl lex_piece (lex_from (fresh (toks ++ [Quoted x])) c) rest) with (foldl lex_piece (fresh (toks ++ [Quoted x])) (Lit c :: rest)).
    rewrite tokens_from. by rewrite <- app_assoc.
  - unfold lex_from, space. rewrite chars_of_chars. cbn [foldl]. unfold lex_char, end_word. cbn -[reverse chars of_chars].
    by rewrite app_nil_r, reverse_involutive, of_chars_chars.
Qed.

(** Literals without newlines that leave quotes closed. *)
Definition tidy (p : piece) : Prop := match p with Lit s => closed_text s /\ byte 10 ∉ chars s | Arg _ => True end.

Lemma tidy_closed l : Forall tidy l -> closed_line l.
Proof. intros H. eapply Forall_impl; [exact H|]. by intros [] ?; simpl in *; [destruct_and?|]. Qed.

Lemma tidy_no_newline l : Forall tidy l -> NL ∉ line_tokens l.
Proof.
  assert (Hc : forall c x, c <> byte 10 -> NL ∉ l_out x -> NL ∉ l_out (lex_char x c)).
  { intros c x Hc Hx. unfold lex_char, end_word, add. destruct (l_mode x); repeat case_decide; try done; destruct (l_any x); simpl; try done;
      rewrite not_elem_of_app; (split; [done|]); destruct (l_quoted x); set_solver. }
  assert (Hs : forall s x, byte 10 ∉ chars s -> NL ∉ l_out x -> NL ∉ l_out (lex_from x s)).
  { intros s. unfold lex_from. generalize (chars s). intros cl. induction cl as [|c cl IH]; intros x Hn Hx; simpl; [done|].
    rewrite not_elem_of_cons in Hn. destruct Hn as [H1 H2]. apply IH; [done|]. apply Hc; [congruence|done]. }
  intros Hl. assert (H : forall x, NL ∉ l_out x -> NL ∉ l_out (foldl lex_piece x l)).
  { induction Hl as [|p l Hp Hl IH]; intros x Hx; simpl; [done|]. apply IH. destruct p as [s|s]; [|done]. destruct Hp. by apply Hs. }
  unfold line_tokens, end_word. specialize (H lex_start ltac:(apply not_elem_of_nil)). destruct (l_any _); simpl; [|done].
  rewrite not_elem_of_app. split; [done|]. destruct (l_quoted _); set_solver.
Qed.

Ltac tidy_tac := repeat (apply Forall_cons_2); try apply Forall_nil_2; try done; (split; [vm_compute; reflexivity|apply (bool_decide_unpack _); vm_compute; reflexivity]).

Ltac tidy_lines := repeat (apply Forall_cons_2; [tidy_tac|]); apply Forall_nil_2.

Lemma setup_tidy slot tap cidr : Forall (Forall tidy) (setup_lines slot tap cidr).
Proof.
  unfold setup_lines. apply Forall_app. split.
  - unfold setup_head, uplinkSubnet, exec. destruct (uplink_octets slot) as [octet base]. cbn [app]. repeat (apply Forall_cons_2; [tidy_tac|]). apply Forall_nil_2.
  - unfold forwardEgressRules, exec. rewrite !Forall_app. split_and!; [apply Forall_cons_2; [tidy_tac|apply Forall_nil_2]| |apply Forall_cons_2; [tidy_tac|apply Forall_nil_2]].
    apply Forall_fmap, Forall_true. intros c. simpl. tidy_tac.
Qed.

Lemma appended_lit netns b rest (o := l_out (lex_from lex_start b)) : (forall l, appended netns (o ++ l) = None) -> appended netns (line_tokens (Lit b :: rest)) = None.
Proof. intros H. destruct (lit_tokens b rest) as [l ->]. apply H. Qed.

Lemma appended_exec netns b rest (o := l_out (lex_from lex_start b)) : (forall l, appended netns ([Word "ip"; Word "netns"; Word "exec"; Quoted netns] ++ o ++ l) = None) ->
  appended netns (line_tokens (exec netns (Lit b :: rest))) = None.
Proof. intros H. rewrite exec_tokens. destruct (lit_tokens b rest) as [l ->]. apply H. Qed.

Lemma appended_forward netns tap c rest toks : line_tokens (Lit c :: rest) = toks ->
  appended netns (line_tokens (exec netns (Lit "iptables -w 5 -A FORWARD -i " :: Arg tap :: Lit (space +:+ c) :: rest))) = Some ("-i" :: tap :: (text <$> toks)).
Proof. intros <-. rewrite exec_tokens, (lit_arg_tokens "iptables -w 5 -A FORWARD -i " [Word "iptables"; Word "-w"; Word "5"; Word "-A"; Word "FORWARD"; Word "-i"] tap c rest eq_refl). cbn [app appended]. by rewrite decide_True by done. Qed.

Lemma head_appends_nothing slot tap cidr : omap (appended (NetnsName slot)) (line_tokens <$> setup_head slot tap cidr) = [].
Proof.
  assert (H : Forall (fun l => appended (NetnsName slot) (line_tokens l) = None) (setup_head slot tap cidr)).
  { unfold setup_head, uplinkSubnet. destruct (uplink_octets slot) as [octet base].
    repeat (apply Forall_cons_2; [first [apply appended_exec; reflexivity|apply appended_lit; reflexivity]|]). apply Forall_nil_2. }
  induction H as [|l ls Hl Hls IH]; [done|]. csimpl. by rewrite Hl.
Qed.

(** The namespace the script builds has these rules, whatever the device is called. *)
Lemma built_forward_rules slot tap cidr : built_forward slot tap cidr = guest_rules (tap_or_default tap).
Proof.
  unfold built_forward, SetupScript. rewrite commands_lines.
  2:{ eapply Forall_impl; [apply setup_tidy|]. apply tidy_closed. }
  2:{ eapply Forall_impl; [apply setup_tidy|]. apply tidy_no_newline. }
  unfold setup_lines. rewrite fmap_app, omap_app, head_appends_nothing. set (netns := NetnsName slot). set (dev := tap_or_default tap).
  cbn [app]. unfold forwardEgressRules, guest_rules. rewrite !fmap_app, !omap_app. f_equal; [|f_equal].
  - cbn [fmap list_fmap omap list_omap]. change (" -m conntrack --ctstate ESTABLISHED,RELATED -j ACCEPT") with (space +:+ "-m conntrack --ctstate ESTABLISHED,RELATED -j ACCEPT").
    by rewrite (appended_forward _ _ _ _ _ eq_refl).
  - generalize Netrules.PrivateRangesV4. intros l. induction l as [|c l IH]; [done|]. cbn [fmap list_fmap omap list_omap].
    change (" -d ") with (space +:+ "-d ").
    rewrite (appended_forward netns dev "-d " [Arg c; Lit " -j DROP"] [Word "-d"; Quoted c; Word "-j"; Word "DROP"]); [by f_equal|].
    change (" -j DROP") with (space +:+ "-j DROP"). by rewrite (lit_arg_tokens "-d " [Word "-d"] c "-j DROP" [] eq_refl).
  - cbn [fmap list_fmap omap list_omap]. change (" -j ACCEPT") with (space +:+ "-j ACCEPT"). by rewrite (appended_forward _ _ _ _ _ eq_refl).
Qed.

(** The block script checks for the drop and inserts it on top if it is not there. *)
Definition block_tokens (ns dev : string) : list token :=
  [Word "ip"; Word "netns"; Word "exec"; Quoted ns; Word "iptables"; Word "-w"; Word "5"; Word "-C"; Word "FORWARD"; Word "-i"; Quoted dev; Word "-j"; Word "DROP";
   Word "2>/dev/null"; Word "||";
   Word "ip"; Word "netns"; Word "exec"; Quoted ns; Word "iptables"; Word "-w"; Word "5"; Word "-I"; Word "FORWARD"; Word "1"; Word "-i"; Quoted dev; Word "-j"; Word "DROP"].

Lemma block_line_tokens ns dev : line_tokens (block_line ns dev) = block_tokens ns dev.
Proof.
  change (block_line ns dev) with (exec ns ([Lit "iptables -w 5 -C FORWARD -i "; Arg dev; Lit (space +:+ "-j DROP 2>/dev/null"); Lit continued; Lit "|| "] ++
    exec ns [Lit "iptables -w 5 -I FORWARD 1 -i "; Arg dev; Lit (space +:+ "-j DROP")])).
  rewrite exec_tokens. cbn [app].
  rewrite (lit_arg_tokens "iptables -w 5 -C FORWARD -i " [Word "iptables"; Word "-w"; Word "5"; Word "-C"; Word "FORWARD"; Word "-i"] dev _ _ eq_refl).
  assert (E : forall l, line_tokens (Lit "-j DROP 2>/dev/null" :: Lit continued :: Lit "|| " :: l) =
    [Word "-j"; Word "DROP"; Word "2>/dev/null"; Word "||"] ++ line_tokens l).
  { intros l. rewrite <- tokens_from. unfold line_tokens. cbn [foldl]. do 2 f_equal. }
  rewrite E, exec_tokens.
  by rewrite (lit_arg_tokens "iptables -w 5 -I FORWARD 1 -i " [Word "iptables"; Word "-w"; Word "5"; Word "-I"; Word "FORWARD"; Word "1"; Word "-i"] dev "-j DROP" [] eq_refl).
Qed.

Lemma block_commands slot tap : commands (BlockEgressScript slot tap) = [[Word "set"; Word "-eu"]; block_tokens (NetnsName slot) (tap_or_default tap)].
Proof.
  unfold BlockEgressScript. rewrite commands_lines.
  - cbn [fmap list_fmap]. by rewrite block_line_tokens.
  - repeat apply Forall_cons_2; try apply Forall_nil_2; try done; unfold block_line, exec; cbn [app]; repeat apply Forall_cons_2; try apply Forall_nil_2; try done; vm_compute; reflexivity.
  - repeat apply Forall_cons_2; [apply (bool_decide_unpack _); vm_compute; reflexivity|rewrite block_line_tokens; unfold block_tokens; set_solver|apply Forall_nil_2].
Qed.

(** ** Verdicts in a namespace *)

Definition guest_verdict (p : packet) : verdict :=
  if pk_established p then Accept else if NetrulesPolicy.NetrulesPolicy.private (pk_dst p) then Drop else Accept.

Lemma guest_drops f T p tap l rest : pk_in p = tap ->
  traverse (S f) T (((fun cidr => ["-i"; tap; "-d"; cidr; "-j"; "DROP"]) <$> l) ++ rest) p =
  if existsb (fun cidr => in_cidr cidr (pk_dst p)) l then Some Drop else traverse (S f) T rest p.
Proof.
  intros Hin. induction l as [|c l IH]; [done|]. rewrite fmap_cons, <- app_comm_cons, traverse_cons. cbn [judge existsb].
  rewrite bool_decide_true by done. rewrite andb_true_r. destruct (in_cidr c _); [done|exact IH].
Qed.

Lemma guest_rules_verdict f T tap p : pk_in p = tap -> traverse (S f) T (guest_rules tap) p = Some (guest_verdict p).
Proof.
  intros Hin. unfold guest_rules. rewrite <- app_comm_cons, app_nil_l, traverse_cons. cbn [judge]. rewrite bool_decide_true by done. rewrite andb_true_r. cbn [andb].
  unfold guest_verdict. destruct (pk_established p); [done|]. cbn [negb]. etrans; [by apply guest_drops|].
  fold (NetrulesPolicy.NetrulesPolicy.private (pk_dst p)). destruct (NetrulesPolicy.NetrulesPolicy.private (pk_dst p)); [done|].
  rewrite traverse_cons. cbn [judge]. by rewrite bool_decide_true by done.
Qed.

Lemma block_rule_verdict f T tap p l : pk_in p = tap -> traverse (S f) T (block_rule tap :: l) p = Some Drop.
Proof. intros Hin. rewrite traverse_cons. unfold block_rule. cbn [judge]. by rewrite bool_decide_true by done. Qed.

(** ** Slots do not share names or addresses *)

Lemma decimal_length fuel n k acc : 0 <= n < 10 ^ Z.of_nat (S k) -> (length (Wire.decimal fuel n acc) <= S k + length acc)%nat.
Proof.
  revert n k acc. induction fuel as [|f IH]; intros n k acc Hn; simpl; [lia|]. case_decide as H; simpl; [lia|]. destruct k as [|k]; [simpl in Hn; lia|].
  assert (Hd : 0 <= n / 10 < 10 ^ Z.of_nat (S k)).
  { split; [apply Z.div_pos; lia|]. apply Z.div_lt_upper_bound; [lia|]. rewrite (Nat2Z.inj_succ (S k)), Z.pow_succ_r in Hn by lia. lia. }
  specialize (IH _ k (Wire.digit (n mod 10) :: acc) Hd). simpl in IH. lia.
Qed.

Lemma itoa_inj a b : 0 <= a < MaxSlots -> 0 <= b < MaxSlots -> itoa a = itoa b -> a = b.
Proof.
  intros Ha Hb H. unfold itoa in H. apply (f_equal chars) in H. rewrite !chars_of_chars in H. unfold Wire.format_int in H.
  rewrite !decide_False in H by lia. apply (f_equal Wire.ParseUint) in H. unfold MaxSlots in *. rewrite !Wire.ParseUint_format in H by lia. congruence.
Qed.

(** Every slot below the limit has its own namespace and veth, the veth's name
    fits an interface name, and its link takes the four addresses from 10.200.0.0 on
    that start at four times its number: links never overlap and stay inside
    10.200.0.0/16. *)
Theorem slot_networks_distinct i j : 0 <= i < MaxSlots -> 0 <= j < MaxSlots -> i <> j ->
  NetnsName i <> NetnsName j /\ HostVethName i <> HostVethName j /\ (length (chars (HostVethName i)) <= 15)%nat /\
  (let '(o, b) := uplink_octets i in 0 <= o <= 255 /\ 0 <= b /\ b + 3 <= 255 /\ o * 256 + b = 4 * i).
Proof.
  intros Hi Hj Hne.
  assert (Hinj : forall pre, pre +:+ itoa i <> pre +:+ itoa j).
  { intros pre H. apply (f_equal chars) in H. rewrite !chars_app in H. apply app_inv_head in H. apply chars_inj in H. apply Hne. by apply itoa_inj. }
  split_and!; [apply Hinj|apply Hinj|..].
  - unfold HostVethName, itoa. rewrite chars_app, chars_of_chars, length_app. change (length (chars "fc-veth-")) with 8%nat. unfold Wire.format_int, Wire.format_uint.
    rewrite decide_False by lia. pose proof (decimal_length 20 i 4 [] ltac:(change (10 ^ Z.of_nat 5) with 100000; unfold MaxSlots in Hi; lia)) as Hl. cbn [length] in Hl. lia.
  - unfold uplink_octets, MaxSlots in *. pose proof (Z.div_mod i 64 ltac:(lia)). pose proof (Z.mod_pos_bound i 64 ltac:(lia)).
    assert (i / 64 < 256) by (apply Z.div_lt_upper_bound; lia). assert (0 <= i / 64) by (apply Z.div_pos; lia). lia.
Qed.

Lemma slot_networks_distinct_witness : NetnsName 0 <> NetnsName 16383 /\ uplink_octets 16383 = (255, 252).
Proof. split; [|reflexivity]. apply (slot_networks_distinct 0 16383); unfold MaxSlots; lia. Defined.

(** ** The wirer

    Builds and clears of a slot exclude each other by the slot's [netMu], so each is one
    step, with what its scripts did.  [owner]: [slots[i].sandboxID]; [sandboxes]: the
    incarnation tracked under an id; [forward]: the FORWARD chain of a slot's
    namespace; [users] (ghost): the incarnation whose setup of the slot returned, and
    whether it asked for no egress, until its own teardown or its removal. *)

Record wirer := mkWirer {
  owner : gmap Z string;
  sandboxes : gmap string nat;
  wired : gset Z;
  forward : gmap Z (list rule);
  users : gmap Z (nat * bool);
}.

(** What a script did: all of it, nothing, or it failed and left some FORWARD chain. *)
Inductive run_result := Done | Nothing | Left (l : option (list rule)).

Section wirer.
Context (id_of : nat -> string) (tapDevice tapCIDR : string).
Let tap := tap_or_default tapDevice.

Definition set_forward (slot : Z) (o : option (list rule)) (w : wirer) : wirer :=
  mkWirer (owner w) (sandboxes w) (wired w) (match o with Some l => <[slot := l]> (forward w) | None => delete slot (forward w) end) (users w).
Definition set_wired (slot : Z) (b : bool) (w : wirer) : wirer :=
  mkWirer (owner w) (sandboxes w) (if b then {[slot]} ∪ wired w else wired w ∖ {[slot]}) (forward w) (users w).
Definition set_user (slot : Z) (u : option (nat * bool)) (w : wirer) : wirer :=
  mkWirer (owner w) (sandboxes w) (wired w) (forward w) (match u with Some x => <[slot := x]> (users w) | None => delete slot (users w) end).
Definition set_owner (slot : Z) (o : option string) (w : wirer) : wirer :=
  mkWirer (match o with Some x => <[slot := x]> (owner w) | None => delete slot (owner w) end) (sandboxes w) (wired w) (forward w) (users w).
Definition set_tracked (id : string) (o : option nat) (w : wirer) : wirer :=
  mkWirer (owner w) (match o with Some x => <[id := x]> (sandboxes w) | None => delete id (sandboxes w) end) (wired w) (forward w) (users w).

(** [iptables -C ... || iptables -I ... 1] *)
Definition block_inserted (l : list rule) : list rule := if decide (block_rule tap ∈ l) then l else block_rule tap :: l.

(** [nat]: whether host NAT is ready; [r1], [r2]: the two scripts.  Whether it returned
    nil. *)
Definition setupNetwork (nat_ready : bool) (r1 r2 : run_result) (slot : Z) (blockEgress : bool) (w : wirer) : bool * wirer :=
  let '(ok, w) :=
    if decide (slot ∈ wired w) then (true, w)
    else if negb nat_ready then (false, w)
    else match r1 with
         | Done => (true, set_wired slot true (set_forward slot (Some (built_forward slot tapDevice tapCIDR)) w))
         | Nothing => (false, w)
         | Left l => (false, set_forward slot l w)
         end in
  if negb ok then (false, w)
  else if negb blockEgress then (true, w)
  else let blocked := set_forward slot (block_inserted <$> (forward w !! slot)) w in
       match r2 with Done => (true, blocked) | Nothing => (false, w) | Left _ => (false, blocked) end.

(** One turn of [wireSlots]: [occupied] is what it read of the slot, which may have
    changed since. *)
Definition wire_turn (occupied : bool) (nat_ready : bool) (r1 r2 : run_result) (slot : Z) (w : wirer) : wirer :=
  if occupied then w else snd (setupNetwork nat_ready r1 r2 slot false w).

Definition unwiredSlots (n : nat) (w : wirer) : nat := length (filter (fun i => i ∉ wired w) (seqZ 0 (Z.of_nat n))).

(** [state]: the incarnation whose teardown it is, [None] at shutdown. *)
Definition clear_applies (slot : Z) (state : option nat) (w : wirer) : bool :=
  let free := bool_decide (owner w !! slot = None) in
  let ours := match state with
              | Some o => bool_decide (owner w !! slot = Some (id_of o)) &&
                          match sandboxes w !! id_of o with Some current => bool_decide (current = o) | None => true end
              | None => false
              end in
  free || ours.

Definition clearSlotNetwork (r : run_result) (slot : Z) (state : option nat) (w : wirer) : wirer :=
  if negb (clear_applies slot state w) then w
  else let w' := set_wired slot false w in
       match r with Done => set_forward slot None w' | Nothing => w' | Left l => set_forward slot l w' end.

(** A teardown ends its own sandbox's use of the slot. *)
Definition ends_use (slot : Z) (o : nat) (w : wirer) : wirer :=
  match users w !! slot with Some (o', _) => if decide (o' = o) then set_user slot None w else w | None => w end.

Inductive wirer_step : wirer -> wirer -> Prop :=
(* reserveSandbox, or the reservation of a wake *)
| w_reserve w slot o : owner w !! slot = None -> sandboxes w !! id_of o = None \/ sandboxes w !! id_of o = Some o ->
    wirer_step w (set_owner slot (Some (id_of o)) (set_tracked (id_of o) (Some o) w))
(* activation *)
| w_setup w w' slot o block n r1 r2 ok : owner w !! slot = Some (id_of o) -> sandboxes w !! id_of o = Some o ->
    setupNetwork n r1 r2 slot block w = (ok, w') -> wirer_step w (if ok : bool then set_user slot (Some (o, block)) w' else w')
(* wireSlots, which may have read the slot's owner long ago *)
| w_wire w slot occupied n r1 r2 : wirer_step w (wire_turn occupied n r1 r2 slot w)
(* teardown of an incarnation, which may have read its slot long ago *)
| w_clear w slot o r : wirer_step w (clearSlotNetwork r slot (Some o) (ends_use slot o w))
(* Shutdown *)
| w_clear_free w slot r : wirer_step w (clearSlotNetwork r slot None w)
(* the slot is released after its sandbox's teardown *)
| w_release w slot o : owner w !! slot = Some (id_of o) -> sandboxes w !! id_of o = Some o -> users w !! slot = None ->
    wirer_step w (set_owner slot None w)
(* the sandbox is untracked: deleted, or dropped by Shutdown *)
| w_untrack w slot o : owner w !! slot = Some (id_of o) -> sandboxes w !! id_of o = Some o ->
    (forall slot' o' b, users w !! slot' = Some (o', b) -> o' = o -> slot' = slot) ->
    wirer_step w (set_user slot None (set_owner slot None (set_tracked (id_of o) None w))).

Definition wirer_start : wirer := mkWirer ∅ ∅ ∅ ∅ ∅.

(** A slot that is wired has the rules; one in use is its user's, wired, and blocked if
    its user asked for that. *)
Record wirer_ok (w : wirer) : Prop := {
  w_wired slot : slot ∈ wired w -> forward w !! slot = Some (guest_rules tap) \/ forward w !! slot = Some (block_rule tap :: guest_rules tap);
  w_user slot o b : users w !! slot = Some (o, b) -> slot ∈ wired w /\ owner w !! slot = Some (id_of o) /\ sandboxes w !! id_of o = Some o /\
    (b = true -> forward w !! slot = Some (block_rule tap :: guest_rules tap));
}.

Lemma block_not_guest : block_rule tap ∉ guest_rules tap.
Proof.
  unfold guest_rules, block_rule. rewrite !elem_of_app, !list_elem_of_singleton. intros [[=]|[H|[=]]]. apply list_elem_of_fmap in H as (c & [=] & _).
Qed.

Lemma block_inserted_ok l : l = guest_rules tap \/ l = block_rule tap :: guest_rules tap -> block_inserted l = block_rule tap :: guest_rules tap.
Proof. unfold block_inserted. intros [-> | ->]; [by rewrite decide_False by apply block_not_guest|by rewrite decide_True by left]. Qed.

Lemma setup_ok n r1 r2 slot block w ok w' : wirer_ok w -> setupNetwork n r1 r2 slot block w = (ok, w') ->
  wirer_ok w' /\ owner w' = owner w /\ sandboxes w' = sandboxes w /\ users w' = users w /\
  (ok = true -> slot ∈ wired w' /\ (block = true -> forward w' !! slot = Some (block_rule tap :: guest_rules tap))).
Proof.
  intros [W1 W2] Hs. unfold setupNetwork in Hs.
  set (first := if decide (slot ∈ wired w) then _ else _) in Hs.
  assert (Hf : wirer_ok first.2 /\ owner first.2 = owner w /\ sandboxes first.2 = sandboxes w /\ users first.2 = users w /\ (first.1 = true -> slot ∈ wired first.2)).
  { unfold first. destruct (decide (slot ∈ wired w)) as [Hin|Hin]; [by split|]. destruct n; simpl; [|by split].
    assert (Hu : forall slot' o b, users w !! slot' = Some (o, b) -> slot' <> slot) by (intros slot' o b Hu ->; by destruct (W2 _ _ _ Hu)).
    destruct r1 as [| |l]; simpl; [|by split|]; (split; [|split_and!; try done; set_solver]); split; simpl.
    - intros slot' Hs'. destruct (decide (slot' = slot)) as [->|Hne]; [rewrite lookup_insert_eq, built_forward_rules; by left|].
      rewrite lookup_insert_ne by done. apply W1. set_solver.
    - intros slot' o b Hu'. pose proof (Hu _ _ _ Hu'). destruct (W2 _ _ _ Hu') as (? & ? & ? & ?). split_and!; [set_solver|done|done|]. by rewrite lookup_insert_ne.
    - intros slot' Hs'. assert (slot' <> slot) by (by intros ->). destruct l; simpl; [rewrite lookup_insert_ne by done|rewrite lookup_delete_ne by done]; by apply W1.
    - intros slot' o b Hu'. pose proof (Hu _ _ _ Hu'). destruct (W2 _ _ _ Hu') as (? & ? & ? & ?). split_and!; [done|done|done|].
      destruct l; simpl; [by rewrite lookup_insert_ne|by rewrite lookup_delete_ne]. }
  clearbody first. destruct first as [ok1 w1]. simpl in Hf. destruct Hf as ([F1 F2] & E1 & E2 & E3 & Hin).
  destruct ok1; simpl in Hs; [|injection Hs as <- <-; by split]. specialize (Hin eq_refl).
  destruct block; simpl in Hs; [|injection Hs as <- <-; by split].
  assert (Hb : forall w2, w2 = set_forward slot (block_inserted <$> (forward w1 !! slot)) w1 -> wirer_ok w2 /\ owner w2 = owner w /\ sandboxes w2 = sandboxes w /\
    users w2 = users w /\ slot ∈ wired w2 /\ forward w2 !! slot = Some (block_rule tap :: guest_rules tap)).
  { intros w2 ->. assert (E : (block_inserted <$> (forward w1 !! slot)) = Some (block_rule tap :: guest_rules tap)).
    { destruct (F1 slot Hin) as [-> | ->]; cbn [fmap option_fmap option_map]; f_equal; apply block_inserted_ok; auto. }
    rewrite E. simpl. split_and!; [split; simpl|done..|by rewrite lookup_insert_eq].
    - intros slot' Hs'. destruct (decide (slot' = slot)) as [->|Hne]; [rewrite lookup_insert_eq; by right|]. rewrite lookup_insert_ne by done. by apply F1.
    - intros slot' o b Hu'. destruct (F2 _ _ _ Hu') as (? & ? & ? & ?). split_and!; try done. intros ->.
      destruct (decide (slot' = slot)) as [->|Hne]; [by rewrite lookup_insert_eq|]. rewrite lookup_insert_ne by done. auto. }
  destruct r2 as [| |l]; injection Hs as <- <-; [|by split|]; destruct (Hb _ eq_refl) as (? & ? & ? & ? & ? & ?); by split_and!.
Qed.

Lemma ends_use_ok slot o w : wirer_ok w -> wirer_ok (ends_use slot o w) /\ forall b, users (ends_use slot o w) !! slot <> Some (o, b).
Proof.
  intros [W1 W2]. unfold ends_use. destruct (users w !! slot) as [[o' b]|] eqn:E; [|split; [by split|congruence]].
  destruct (decide (o' = o)) as [->|Hne]; [|split; [by split|congruence]]. split; [|intros b'; simpl; by rewrite lookup_delete_eq].
  split; simpl; [done|]. intros slot' o' b' Hu. apply lookup_delete_Some in Hu as [_ Hu]. by apply W2.
Qed.

(** A teardown clears no slot in use by another sandbox, not even by one under the same
    id. *)
Lemma clear_spares slot state w o b : wirer_ok w -> users w !! slot = Some (o, b) -> state <> Some o -> clear_applies slot state w = false.
Proof.
  intros [_ W2] Hu Hne. destruct (W2 _ _ _ Hu) as (_ & Ho & Ht & _). unfold clear_applies. rewrite Ho. simpl. destruct state as [o'|]; [|done].
  destruct (decide (id_of o = id_of o')) as [E|E]; [|by rewrite bool_decide_false by congruence].
  rewrite <- E, Ht. rewrite (bool_decide_false (o = o')) by congruence. apply andb_false_r.
Qed.

Lemma clear_ok r slot state w : wirer_ok w -> (forall o b, users w !! slot = Some (o, b) -> state <> Some o) -> wirer_ok (clearSlotNetwork r slot state w).
Proof.
  intros Hw Hst. unfold clearSlotNetwork. destruct (clear_applies slot state w) eqn:E; simpl; [|done].
  assert (Hu : users w !! slot = None).
  { destruct (users w !! slot) as [[o b]|] eqn:Eu; [|done]. by rewrite (clear_spares slot state w o b Hw Eu (Hst o b eq_refl)) in E. }
  destruct Hw as [W1 W2]. assert (Hl : forall l, wirer_ok (set_forward slot l (set_wired slot false w))).
  { intros l. split; simpl.
    - intros slot' Hs'. assert (slot' <> slot) by set_solver. destruct l; [rewrite lookup_insert_ne by done|rewrite lookup_delete_ne by done]; apply W1; set_solver.
    - intros slot' o b Hu'. assert (slot' <> slot) by congruence. destruct (W2 _ _ _ Hu') as (? & ? & ? & ?). split_and!; [set_solver|done|done|].
      destruct l; [by rewrite lookup_insert_ne|by rewrite lookup_delete_ne]. }
  destruct r as [| |l]; [apply Hl| |apply Hl]. split; simpl.
  - intros slot' Hs'. apply W1. set_solver.
  - intros slot' o b Hu'. assert (slot' <> slot) by congruence. destruct (W2 _ _ _ Hu') as (? & ? & ? & ?). split_and!; [set_solver|done|done|done].
Qed.

Lemma wirer_ok_step w w' : wirer_ok w -> wirer_step w w' -> wirer_ok w'.
Proof.
  intros Hw Hstep. destruct Hstep as [w slot o Ho Hid|w w' slot o block n r1 r2 ok Ho Ht Hs|w slot occupied n r1 r2|w slot o r|w slot r|w slot o Ho Ht Hu|w slot o Ho Ht Hu].
  - destruct Hw as [W1 W2]. split; simpl; [done|]. intros slot' o' b Hu. destruct (W2 _ _ _ Hu) as (H1 & H2 & H3 & H4).
    assert (slot' <> slot) by congruence. split_and!; [done|by rewrite lookup_insert_ne| |done].
    destruct (decide (id_of o' = id_of o)) as [E|E]; [|by rewrite lookup_insert_ne by done]. rewrite E, lookup_insert_eq. rewrite E in H3. destruct Hid; congruence.
  - destruct (setup_ok _ _ _ _ _ _ _ _ Hw Hs) as ([W1 W2] & E1 & E2 & E3 & Hok). destruct ok; [|by split]. destruct (Hok eq_refl) as [Hin Hb].
    split; simpl; [done|]. intros slot' o' b Hu. apply lookup_insert_Some in Hu as [[<- [= <- <-]]|[Hne Hu]]; [|by apply W2]. rewrite E1, E2. by split_and!.
  - unfold wire_turn. destruct occupied; [done|]. destruct (setupNetwork n r1 r2 slot false w) as [ok w'] eqn:E. by apply (setup_ok _ _ _ _ _ _ _ _ Hw E).
  - destruct (ends_use_ok slot o w Hw) as [Hw' Hn]. apply clear_ok; [done|]. intros o' b Hu [= <-]. by apply (Hn b).
  - by apply clear_ok.
  - destruct Hw as [W1 W2]. split; simpl; [done|]. intros slot' o' b Hu'. destruct (W2 _ _ _ Hu') as (? & ? & ? & ?). split_and!; try done.
    rewrite lookup_delete_ne by congruence. done.
  - destruct Hw as [W1 W2]. split; simpl; [done|]. intros slot' o' b Hu'. apply lookup_delete_Some in Hu' as [Hne Hu']. destruct (W2 _ _ _ Hu') as (? & ? & ? & ?).
    split_and!; try done; [by rewrite lookup_delete_ne|]. destruct (decide (id_of o = id_of o')) as [E|E]; [|by rewrite lookup_delete_ne].
    exfalso. apply Hne. symmetry. apply (Hu _ _ _ Hu'). congruence.
Qed.

Lemma wirer_reachable w : rtc wirer_step wirer_start w -> wirer_ok w.
Proof.
  intros H. assert (G : forall x y, rtc wirer_step x y -> wirer_ok x -> wirer_ok y) by (intros x y Hxy; induction Hxy; eauto using wirer_ok_step).
  apply (G _ _ H). split; simpl; [set_solver|]. intros slot o b Hu. by rewrite lookup_empty in Hu.
Qed.

(** C16: However builds, clears, releases and re-creates of slots interleave and fail: a
    sandbox whose activation set its network up, and that has not been torn down or
    dropped since, is behind the rules the setup script appends to its namespace, so new
    packets of its guest to private ranges are dropped, and all of them when it asked for
    no egress; nobody else's teardown clears its namespace. *)
Theorem firecracker_guest_confined w slot o b p f T : rtc wirer_step wirer_start w -> users w !! slot = Some (o, b) -> pk_in p = tap ->
  exists l, forward w !! slot = Some l /\
    (b = true \/ guest_verdict p = Drop -> traverse (S f) T l p = Some Drop) /\
    (forall state, state <> Some o -> clear_applies slot state w = false).
Proof.
  intros Hw%wirer_reachable Hu Hin. pose proof Hw as [W1 W2]. destruct (W2 _ _ _ Hu) as (Hwd & _ & _ & Hb).
  assert (Hc : forall state, state <> Some o -> clear_applies slot state w = false) by (intros state Hne; by eapply clear_spares).
  destruct (W1 _ Hwd) as [E|E]; rewrite E; eexists; (split; [done|]); (split; [|exact Hc]).
  - intros [->|Hv]; [|by rewrite guest_rules_verdict, Hv]. exfalso. assert (E' : length (block_rule tap :: guest_rules tap) = length (guest_rules tap)) by (f_equal; rewrite Hb in E by done; congruence).
    cbn [length] in E'. lia.
  - intros _. by apply block_rule_verdict.
Qed.
End wirer.

(** A sandbox without egress on slot 3, built by the wirer; a teardown of an earlier
    incarnation of its id comes late. *)
Definition used : wirer :=
  mkWirer {[3 := "sb"]} {["sb" := 2%nat]} {[3]} {[3 := block_rule "tap'0" :: guest_rules "tap'0"]} {[3 := (2%nat, true)]}.

Lemma used_reachable : rtc (wirer_step (fun _ => "sb") "tap'0" "172.16.0.1/24") wirer_start used.
Proof.
  eapply rtc_l; [apply (w_wire _ _ _ _ 3 false true Done Done)|]. eapply rtc_l; [apply (w_reserve _ _ _ _ 3 2%nat); [reflexivity|by left]|].
  eapply rtc_l; [eapply (w_setup _ _ _ _ _ 3 2%nat true true Done Done true); reflexivity|].
  eapply rtc_l; [apply (w_clear _ _ _ _ 3 1%nat Done)|].
  match goal with |- rtc _ ?x used => replace x with used; [apply rtc_refl|] end. symmetry. vm_compute. reflexivity.
Qed.

Lemma firecracker_guest_confined_witness : exists l, forward used !! 3 = Some l /\
  traverse 1 ∅ l (mkPacket "tap'0" "fc-uplink" 0 (NetrulesPolicy.NetrulesPolicy.ip4 8 8 8 8) true "443" false) = Some Drop.
Proof.
  destruct (firecracker_guest_confined (fun _ => "sb") "tap'0" "172.16.0.1/24" used 3 2%nat true
    (mkPacket "tap'0" "fc-uplink" 0 (NetrulesPolicy.NetrulesPolicy.ip4 8 8 8 8) true "443" false) 0 ∅ used_reachable eq_refl eq_refl) as (l & H1 & H2 & _).
  exists l. split; [exact H1|]. apply H2. by left.
Defined.
End FirecrackerNet.
