(* ===== verification/Paths.v ===== *)
(** * Paths (src/internal/daemon/files.go: resolvePath, isSameOrSubpath)

    The functions of Go's [path/filepath] the daemon uses, on byte strings, and what the
    daemon builds from them.  The Go functions follow their documentation: elements
    between slashes, [.] and empty elements dropped, [..] resolved lexically. *)

From S2P Require Import Prelude.
From S2P Require Import GoStrings.

Module Paths.
Import GoStrings.

Definition slash : ascii := byte 47.

(** ** [path/filepath] *)

Fixpoint split (l : list ascii) : list (list ascii) :=
  match l with
  | [] => [[]]
  | x :: l' => if decide (x = slash) then [] :: split l'
               else match split l' with w :: ws => (x :: w) :: ws | [] => [[x]] end
  end.

(** [strings.Split(s, "/")] *)
Definition Split (s : string) : list string := of_chars <$> split (chars s).

Fixpoint join (l : list string) : string :=
  match l with
  | [] => ""
  | [e] => e
  | e :: l' => e +:+ "/" +:+ join l'
  end.

(** [st]: the elements kept so far, last first. *)
Fixpoint clean_elems (rooted : bool) (st l : list string) : list string :=
  match l with
  | [] => reverse st
  | e :: l' =>
      if decide (e = "" \/ e = ".") then clean_elems rooted st l'
      else if decide (e = "..") then
        match st with
        | [] => clean_elems rooted (if rooted then [] else [".."]) l'
        | x :: st' => clean_elems rooted (if decide (x = "..") then ".." :: st else st') l'
        end
      else clean_elems rooted (e :: st) l'
  end.

Definition IsAbs (s : string) : bool := HasPrefix s "/".

Definition Clean (s : string) : string :=
  if decide (s = "") then "."
  else let l := clean_elems (IsAbs s) [] (Split s) in
       if IsAbs s then "/" +:+ join l
       else match l with [] => "." | _ => join l end.

Definition Join (a b : string) : string :=
  if decide (a = "") then (if decide (b = "") then "" else Clean b) else Clean (a +:+ "/" +:+ b).

(** Up to and with the last slash, cleaned. *)
Definition Dir (s : string) : string :=
  match reverse (Split s) with
  | _ :: ((_ :: _) as r) => Clean (join (reverse r) +:+ "/")
  | _ => "."
  end.

Fixpoint strip_common (a b : list string) : list string * list string :=
  match a, b with
  | x :: a', y :: b' => if decide (x = y) then strip_common a' b' else (a, b)
  | _, _ => (a, b)
  end.

Definition elements (s : string) : list string := filter (fun e => e <> "") (Split s).

Definition Rel (basepath targpath : string) : option string :=
  let base := Clean basepath in
  let targ := Clean targpath in
  if decide (targ = base) then Some "."
  else let base := if decide (base = ".") then "" else base in
       if negb (Bool.eqb (IsAbs base) (IsAbs targ)) then None
       else let '(b, t) := strip_common (elements base) (elements targ) in
            if decide (head b = Some "..") then None
            else Some (join (replicate (length b) ".." ++ t)).

Definition IsLocal (s : string) : bool :=
  if IsAbs s || bool_decide (s = "") then false
  else let dots := existsb (fun e => bool_decide (e = "." \/ e = "..")) (Split s) in
       let s := if dots then Clean s else s in
       negb (bool_decide (s = "..") || HasPrefix s "../").

(** ** The daemon's own *)

Definition resolvePath (path : string) : string := Join "/" (Clean ("/" +:+ path)).

Definition isSameOrSubpath (root candidate : string) : bool :=
  match Rel root candidate with
  | None => false
  | Some rel => bool_decide (rel = ".") || (negb (bool_decide (rel = "..")) && negb (HasPrefix rel "../"))
  end.

(** ** Absolute paths in normal form *)

Definition plain_elem (e : string) : Prop := e <> "" /\ e <> "." /\ e <> ".." /\ slash ∉ chars e.
Definition plain (l : list string) : Prop := Forall plain_elem l.
Definition abs (l : list string) : string := "/" +:+ join l.

Lemma split_word w l : slash ∉ w -> split (w ++ slash :: l) = w :: split l.
Proof.
  intros Hw. induction w as [|x w IH]; simpl; [done|]. rewrite decide_False by set_solver. by rewrite IH by set_solver.
Qed.

Lemma split_last w : slash ∉ w -> split w = [w].
Proof. intros Hw. induction w as [|x w IH]; simpl; [done|]. rewrite decide_False by set_solver. by rewrite IH by set_solver. Qed.

Lemma split_no_slash l : Forall (fun w => slash ∉ w) (split l).
Proof.
  induction l as [|x l IH]; simpl; [constructor; [set_solver|done]|]. case_decide; [constructor; [set_solver|done]|].
  destruct (split l) as [|w ws]; [constructor; set_solver|]. inversion_clear IH. constructor; set_solver.
Qed.

Lemma Split_no_slash s : Forall (fun e => slash ∉ chars e) (Split s).
Proof. unfold Split. rewrite Forall_fmap. eapply Forall_impl; [apply split_no_slash|]. intros w Hw. simpl. by rewrite chars_of_chars. Qed.

Lemma Split_cons e s : slash ∉ chars e -> Split (e +:+ "/" +:+ s) = e :: Split s.
Proof.
  intros He. unfold Split. rewrite !chars_app. change (chars "/" ++ chars s) with (slash :: chars s). rewrite split_word by done. simpl. by rewrite of_chars_chars.
Qed.

Lemma Split_abs s : Split ("/" +:+ s) = "" :: Split s.
Proof. apply (Split_cons "" s). simpl. set_solver. Qed.

Lemma Split_word e : slash ∉ chars e -> Split e = [e].
Proof. intros He. unfold Split. rewrite split_last by done. simpl. by rewrite of_chars_chars. Qed.

Lemma Split_join l : l <> [] -> Forall (fun e => slash ∉ chars e) l -> Split (join l) = l.
Proof.
  intros Hne Hl. induction l as [|e l IH]; [done|]. inversion_clear Hl as [|? ? He Hl']. destruct l as [|e' l].
  - by apply Split_word.
  - change (join (e :: e' :: l)) with (e +:+ "/" +:+ join (e' :: l)). by rewrite Split_cons, IH.
Qed.

Lemma plain_no_slash l : plain l -> Forall (fun e => slash ∉ chars e) l.
Proof. intros H. eapply Forall_impl; [exact H|]. by intros e (_ & _ & _ & He). Qed.

Lemma Split_plain l : plain l -> Split (abs l) = "" :: (match l with [] => [""] | _ => l end).
Proof.
  intros Hl. unfold abs. rewrite Split_abs. f_equal. destruct l as [|e l]; [done|]. apply Split_join; [done|by apply plain_no_slash].
Qed.

Lemma elements_abs l : plain l -> elements (abs l) = l.
Proof.
  intros Hl. unfold elements. rewrite Split_plain by done. rewrite filter_cons_False by (intros H; by apply H). destruct l as [|e l]; [done|].
  clear -Hl. induction Hl as [|x l' Hx Hl' IH]; [done|]. rewrite filter_cons_True by apply Hx. by rewrite IH.
Qed.

Lemma clean_plain rooted st l : plain l -> clean_elems rooted st l = reverse st ++ l.
Proof.
  intros Hl. revert st. induction Hl as [|e l (H1 & H2 & H3 & _) Hl IH]; intros st; simpl; [by rewrite app_nil_r|].
  rewrite decide_False by (intros [?|?]; done). rewrite decide_False by done. rewrite IH, reverse_cons, <- (assoc_L (++)). done.
Qed.

Lemma clean_elems_plain st l : plain st -> Forall (fun e => slash ∉ chars e) l -> plain (clean_elems true st l).
Proof.
  intros Hst Hl. revert st Hst. induction Hl as [|e l He Hl IH]; intros st Hst; simpl; [by apply Forall_reverse|].
  destruct (decide (e = "" \/ e = ".")) as [|Hd]; [by apply IH|]. destruct (decide (e = "..")) as [->|Hdd].
  - destruct st as [|x st]; [by apply IH|]. inversion_clear Hst as [|? ? Hx Hst']. rewrite decide_False by apply Hx. by apply IH.
  - apply IH. constructor; [|done]. split_and!; [| |done|done]; intros ->; apply Hd; tauto.
Qed.

Lemma IsAbs_cons s : IsAbs ("/" +:+ s) = true.
Proof. by destruct s. Qed.

Lemma abs_not_empty s : "/" +:+ s <> "".
Proof. done. Qed.

Lemma Clean_rooted s : Clean ("/" +:+ s) = abs (clean_elems true [] (Split s)).
Proof.
  unfold Clean. rewrite decide_False by apply abs_not_empty. rewrite IsAbs_cons, Split_abs. reflexivity.
Qed.

Lemma Clean_abs l : plain l -> Clean (abs l) = abs l.
Proof.
  intros Hl. unfold abs at 1. rewrite Clean_rooted. f_equal. destruct l as [|e l]; [done|].
  rewrite Split_join by (done || by apply plain_no_slash). by rewrite clean_plain.
Qed.

(** The elements of a resolved path. *)
Definition resolved (path : string) : list string := clean_elems true [] (Split path).

Lemma resolved_plain path : plain (resolved path).
Proof. apply clean_elems_plain; [constructor|apply Split_no_slash]. Qed.
#[export] Hint Resolve resolved_plain : core.

Lemma resolve_abs path : resolvePath path = abs (resolved path).
Proof.
  unfold resolvePath. rewrite Clean_rooted. fold (resolved path). unfold Join. rewrite decide_False by done. change ("/" +:+ "/" +:+ abs (resolved path)) with ("/" +:+ ("/" +:+ abs (resolved path))).
  rewrite Clean_rooted, Split_abs. change (clean_elems true [] ("" :: Split (abs (resolved path)))) with (clean_elems true [] (Split (abs (resolved path)))).
  rewrite Split_plain by done. change (clean_elems true [] ("" :: ?x)) with (clean_elems true [] x). destruct (resolved path) as [|e l] eqn:E; [done|].
  rewrite clean_plain; [done|]. rewrite <- E. done.
Qed.

Lemma Dir_abs l e : plain (l ++ [e]) -> Dir (abs (l ++ [e])) = abs l.
Proof.
  intros Hl. unfold Dir. rewrite Split_plain by done. destruct (l ++ [e]) as [|x l'] eqn:E; [by destruct l|]. rewrite <- E.
  rewrite reverse_cons, reverse_snoc. simpl. assert (Hp : plain l) by (rewrite <- E in Hl; by apply Forall_app in Hl as [? _]).
  destruct (reverse l ++ [""]) as [|y r] eqn:Er; [by destruct (reverse l)|]. rewrite <- Er, reverse_snoc, reverse_involutive.
  destruct l as [|a l]; [done|]. change (join ("" :: a :: l)) with ("/" +:+ join (a :: l)).
  assert (Hs : forall s, ("/" +:+ s) +:+ "/" = "/" +:+ (s +:+ "/")) by (intros s; apply chars_inj; by rewrite !chars_app, (assoc_L (++))).
  rewrite Hs, Clean_rooted. f_equal.
  assert (Hj : forall k, k <> [] -> Forall (fun w => slash ∉ chars w) k -> Split (join k +:+ "/") = k ++ [""]).
  { clear. intros k Hk Hf. induction k as [|w k IH]; [done|]. inversion_clear Hf as [|? ? Hw Hf']. destruct k as [|w' k].
    - change (join [w] +:+ "/") with (w +:+ "/" +:+ ""). by rewrite Split_cons.
    - replace (join (w :: w' :: k) +:+ "/") with (w +:+ "/" +:+ (join (w' :: k) +:+ "/")) by (apply chars_inj; change (join (w :: w' :: k)) with (w +:+ "/" +:+ join (w' :: k)); by rewrite !chars_app, !(assoc_L (++))).
      rewrite Split_cons by done. by rewrite IH. }
  rewrite Hj by (done || by apply plain_no_slash).
  assert (Hc : forall st k, plain k -> clean_elems true st (k ++ [""]) = reverse st ++ k).
  { clear. intros st k Hk. revert st. induction Hk as [|w k (H1 & H2 & H3 & _) Hk IH]; intros st; simpl; [by rewrite app_nil_r|].
    rewrite decide_False by (intros [?|?]; done). rewrite decide_False by done. by rewrite IH, reverse_cons, <- (assoc_L (++)). }
  by rewrite Hc.
Qed.

Lemma Dir_root : Dir (abs []) = abs [].
Proof. reflexivity. Qed.

Lemma Join_abs l e : plain (l ++ [e]) -> Join (abs l) e = abs (l ++ [e]).
Proof.
  intros Hl. pose proof Hl as [Hp He]%Forall_app. unfold Join. rewrite decide_False by apply abs_not_empty.
  change (abs l +:+ "/" +:+ e) with ("/" +:+ (join l +:+ "/" +:+ e)). rewrite Clean_rooted. f_equal.
  assert (He' : slash ∉ chars e) by (inversion_clear He as [|? ? (_ & _ & _ & H) _]; exact H).
  destruct l as [|x l].
  - change (join [] +:+ "/" +:+ e) with ("/" +:+ e). rewrite Split_abs, Split_word by done. change (clean_elems true [] ["" ; e]) with (clean_elems true [] [e]). by apply clean_plain.
  - replace (Split (join (x :: l) +:+ "/" +:+ e)) with (x :: l ++ [e]); [by apply (clean_plain true [] (x :: l ++ [e]))|]. symmetry.
    transitivity (Split (join ((x :: l) ++ [e]))); [|apply Split_join; [done|by apply plain_no_slash]]. f_equal.
    clear. revert x. induction l as [|y l IH]; intros x; [done|]. change (join (x :: y :: l)) with (x +:+ "/" +:+ join (y :: l)).
    change (join ((x :: y :: l) ++ [e])) with (x +:+ "/" +:+ join ((y :: l) ++ [e])). rewrite <- IH. apply chars_inj. by rewrite !chars_app, !(assoc_L (++)).
Qed.

Lemma strip_common_spec a b a' b' : strip_common a b = (a', b') ->
  exists c, a = c ++ a' /\ b = c ++ b' /\ (a' = [] \/ b' = [] \/ head a' <> head b').
Proof.
  revert b. induction a as [|x a IH]; intros b; simpl; [intros [= <- <-]; exists []; eauto|]. destruct b as [|y b]; [intros [= <- <-]; exists []; eauto|].
  destruct (decide (x = y)) as [->|Hne].
  - intros H. destruct (IH _ H) as (c & -> & -> & Hd). by exists (y :: c).
  - intros [= <- <-]. exists []. split_and!; [done|done|]. right. right. simpl. congruence.
Qed.

Lemma HasPrefix_app s p : HasPrefix s p = true -> exists r, s = p +:+ r.
Proof.
  unfold HasPrefix. revert s. induction p as [|a p IH]; intros s; [by exists s|]. destruct s as [|b s]; [done|]. cbn [String.prefix].
  destruct (Ascii.ascii_dec a b) as [->|]; [|done]. intros H. destruct (IH _ H) as [r ->]. by exists r.
Qed.

(** The path [rel] goes up exactly if its first element is [..]. *)
Lemma goes_up_iff l : l <> [] -> Forall (fun e => slash ∉ chars e) l -> head l <> Some "." ->
  (bool_decide (join l = ".") || (negb (bool_decide (join l = "..")) && negb (HasPrefix (join l) "../"))) = bool_decide (head l <> Some "..").
Proof.
  intros Hne Hf Hd. destruct l as [|e l]; [done|]. inversion_clear Hf as [|? ? He Hf']. simpl head in *.
  assert (Hdot : forall s, slash ∉ chars s -> join (e :: l) = s -> e = s).
  { intros s Hs E. apply (f_equal Split) in E. rewrite Split_join in E by (done || by constructor). rewrite Split_word in E by done. congruence. }
  assert (H1 : join (e :: l) <> ".") by (intros E; apply Hd; rewrite (Hdot "."); [done|vm_compute; set_solver|done]).
  rewrite bool_decide_false by done. cbn [orb].
  destruct (decide (e = "..")) as [->|Hup].
  - rewrite (bool_decide_false (Some ".." <> Some "..")) by (intros H; by apply H). destruct l as [|e' l]; [done|]. apply andb_false_iff. right.
    change (join (".." :: e' :: l)) with ("../" +:+ join (e' :: l)). by destruct (join (e' :: l)).
  - rewrite (bool_decide_true (Some e <> Some "..")) by congruence. rewrite bool_decide_false by (intros E; apply Hup; apply Hdot; [vm_compute; set_solver|done]).
    cbn [negb andb]. destruct (HasPrefix (join (e :: l)) "../") eqn:E; [|done]. exfalso. apply Hup.
    destruct (HasPrefix_app _ _ E) as [r E2].
    apply (f_equal Split) in E2. rewrite Split_join in E2 by (done || by constructor). change ("../" +:+ ?x) with (".." +:+ "/" +:+ x) in E2.
    rewrite Split_cons in E2 by (vm_compute; set_solver). congruence.
Qed.

Lemma subpath_abs a b : plain a -> plain b -> isSameOrSubpath (abs a) (abs b) = bool_decide (a `prefix_of` b).
Proof.
  intros Ha Hb. unfold isSameOrSubpath, Rel. rewrite !Clean_abs by done. destruct (decide (abs b = abs a)) as [E|Hne].
  - apply (f_equal elements) in E. rewrite !elements_abs in E by done. subst b. rewrite (bool_decide_true (a `prefix_of` a)) by done. reflexivity.
  - rewrite (decide_False (P := abs a = ".")) by (intros E; apply (f_equal IsAbs) in E; unfold abs in E; rewrite IsAbs_cons in E; discriminate E).
    unfold abs at 1 2. rewrite !IsAbs_cons. cbn [Bool.eqb negb]. rewrite !elements_abs by done.
    destruct (strip_common a b) as [a' b'] eqn:E. destruct (strip_common_spec _ _ _ _ E) as (c & -> & -> & Hd).
    pose proof Ha as [_ Ha']%Forall_app. pose proof Hb as [_ Hb']%Forall_app.
    rewrite decide_False. 2: { destruct a' as [|x a']; [done|]. inversion_clear Ha' as [|? ? Hx _]. simpl. intros [= ->]. by destruct Hx as (_ & _ & Hx & _). }
    assert (Hf : Forall (fun e => slash ∉ chars e) (replicate (length a') ".." ++ b')).
    { apply Forall_app. split; [|by apply plain_no_slash]. apply Forall_replicate. vm_compute. set_solver. }
    destruct a' as [|x a'].
    + destruct b' as [|y b']; [by rewrite app_nil_r in Hne|]. inversion_clear Hb' as [|? ? (Hy1 & Hy2 & Hy3 & _) _]. simpl replicate. rewrite goes_up_iff; [|done|done|simpl; intros [= ->]; done].
      rewrite !bool_decide_true; [done|rewrite app_nil_r; by apply prefix_app_r|simpl; intros [= ->]; done].
    + rewrite goes_up_iff by (done || simpl; congruence). rewrite !bool_decide_false; [done| |simpl; intros H; by apply H].
      intros [k Hk]. rewrite <- (assoc_L (++)) in Hk. apply app_inv_head in Hk. subst b'. simpl in Hd. destruct Hd as [|[|]]; [done..|]. by apply H.
Qed.

(** A resolved path is absolute and in normal form, with no [.], [..] or empty
    element however the request wrote it, and resolving it again changes nothing; and the
    guard against copying or moving a directory into itself says yes exactly if the
    elements of the one path start the elements of the other, also where names begin with
    dots or paths only share a textual prefix. *)
Theorem subpath_check_exact p q :
  plain (elements (resolvePath p)) /\ resolvePath p = abs (elements (resolvePath p)) /\ resolvePath (resolvePath p) = resolvePath p /\
  isSameOrSubpath (resolvePath p) (resolvePath q) = bool_decide (elements (resolvePath p) `prefix_of` elements (resolvePath q)).
Proof.
  rewrite !resolve_abs, !elements_abs by done. split_and!; [done|done| |by apply subpath_abs]. f_equal.
  unfold resolved at 1. rewrite Split_plain by done. change (clean_elems true [] ("" :: ?x)) with (clean_elems true [] x).
  pose proof (resolved_plain p) as Hp. destruct (resolved p); [done|]. by apply clean_plain.
Qed.

Example resolves : resolvePath "../a/./b//../..x/" = "/a/..x". Proof. reflexivity. Qed.
Example inside_dots : isSameOrSubpath "/a" "/a/..b" = true /\ isSameOrSubpath "/a" "/ab" = false /\ isSameOrSubpath "/a/b" "/a" = false. Proof. done. Qed.
End Paths.
