(* ===== verification/Fs.v ===== *)
(** * A file system and the calls the daemon makes on it

    The part of Go's [os] package that src/internal/daemon/files.go uses, over a tree of
    directories, regular files and symbolic links.  A call may fail at any point and for any
    reason of its own ([fault]: no permission, no space, ...), having done part of its work.
    Modes, owners and times are left out, and nothing else changes the tree meanwhile. *)

From S2P Require Import Prelude.
From S2P Require Import GoStrings.
From S2P Require Import Paths.

Module Fs.
Import GoStrings Paths.
Open Scope act_scope.

(** ** Trees *)

Abbreviation path := (list string).

Inductive node := NDir | NFile (c : list ascii) | NLink (target : string).
#[export] Instance node_eq_dec : EqDecision node.
Proof. solve_decision. Defined.

Abbreviation tree := (gmap (list string) node).

(** Every node is in a directory, under a proper name. *)
Record wf (t : tree) : Prop := {
  wf_root : t !! [] = Some NDir;
  wf_plain : forall p n, t !! p = Some n -> plain p;
  wf_parent : forall p e n, t !! (p ++ [e]) = Some n -> t !! p = Some NDir;
}.

(** ** Errors *)

(** [EEscape]: [os.Root] refuses a path that leaves it; [EOther]: whatever else a call may
    fail with; [EFuel]: a recursion that was cut off, which the theorems exclude. *)
Inductive errno := ENOENT | EEXIST | ENOTDIR | EISDIR | ENOTEMPTY | ELOOP | EXDEV | EINVAL | EEscape | EOther (text : string) | EFuel.
#[export] Instance errno_eq_dec : EqDecision errno.
Proof. solve_decision. Defined.

Definition strerror (e : errno) : string :=
  match e with
  | ENOENT => "no such file or directory"
  | EEXIST => "file exists"
  | ENOTDIR => "not a directory"
  | EISDIR => "is a directory"
  | ENOTEMPTY => "directory not empty"
  | ELOOP => "too many levels of symbolic links"
  | EXDEV => "invalid cross-device link"
  | EINVAL => "invalid argument"
  | EEscape => "path escapes from parent"
  | EOther text => text
  | EFuel => ""
  end.

(** A Go error: what it wraps and its text. *)
Record oserr := mkErr { e_no : errno; e_text : string }.

(** [PathError.Error] *)
Definition pathError (op path : string) (e : errno) : oserr := mkErr e (op +:+ " " +:+ path +:+ ": " +:+ strerror e).

(** ** Looking a path up *)

(** [Absent p]: nothing there, but its directory exists. *)
Inductive place := At (p : path) (n : node) | Absent (p : path).

Definition steps (s : string) : list string := filter (fun e => e <> "" /\ e <> ".") (Split s).

Definition parent (p : path) : path := take (length p - 1) p.

(** From directory [cur] on, through [todo].  [floor]: the directory of an [os.Root], which
    the way must not leave; [follow]: whether a link at the end is followed; [links]: how
    many links may be followed at all. *)
Fixpoint walk (links : nat) (t : tree) (floor : option path) (follow : bool) : path -> list string -> errno + place :=
  fix go (cur : path) (todo : list string) {struct todo} : errno + place :=
  match todo with
  | [] => inr (At cur NDir)
  | e :: todo' =>
      if decide (e = "..") then
        if decide (floor = Some cur) then inl EEscape else go (parent cur) todo'
      else
        match t !! (cur ++ [e]) with
        | None => match todo' with [] => inr (Absent (cur ++ [e])) | _ => inl ENOENT end
        | Some NDir => go (cur ++ [e]) todo'
        | Some (NFile c) => match todo' with [] => inr (At (cur ++ [e]) (NFile c)) | _ => inl ENOTDIR end
        | Some (NLink target) =>
            if decide (todo' = [] /\ follow = false) then inr (At (cur ++ [e]) (NLink target))
            else match links with
                 | O => inl ELOOP
                 | S k => if IsAbs target then
                            match floor with Some _ => inl EEscape | None => walk k t floor follow [] (steps target ++ todo') end
                          else walk k t floor follow cur (steps target ++ todo')
                 end
        end
  end.

(** What the host decides: which calls fail, the limit on links, which file system a
    directory is on, and the size it reports for a directory. *)
Record failure := mkFailure { f_text : string; f_count : nat; f_kept : path -> bool }.

Class Host := {
  fault : nat -> option failure;
  maxLinks : nat;
  device : path -> nat;
  dirSize : Z;
}.

Record os := mkOs { fs : tree; calls : nat }.

Section calls.
Context `{Host}.

(** A call: [work] if it goes through, [partly] for what it did before it failed. *)
Definition sys {A} (op name : string) (work : tree -> (errno + A) * tree) (partly : failure -> tree -> tree) : act os oserr A := fun w =>
  match fault (calls w) with
  | Some f => (inl (pathError op name (EOther (f_text f))), mkOs (partly f (fs w)) (S (calls w)))
  | None => let '(r, t) := work (fs w) in
            (match r with inl e => inl (pathError op name e) | inr a => inr a end, mkOs t (S (calls w)))
  end.

Definition query {A} (op name : string) (work : tree -> errno + A) : act os oserr A := sys op name (fun t => (work t, t)) (fun _ t => t).

Definition lookup_path (t : tree) (follow : bool) (s : string) : errno + place := walk maxLinks t None follow [] (steps s).

Definition existing (r : errno + place) : errno + path * node :=
  match r with inl e => inl e | inr (Absent _) => inl ENOENT | inr (At p n) => inr (p, n) end.

Definition Stat (s : string) : act os oserr node := query "stat" s (fun t => match existing (lookup_path t true s) with inl e => inl e | inr (_, n) => inr n end).
Definition Lstat (s : string) : act os oserr node := query "lstat" s (fun t => match existing (lookup_path t false s) with inl e => inl e | inr (_, n) => inr n end).

(** Names in a directory, in order. *)
Definition children (t : tree) (p : path) : list string :=
  merge_sort str_le (omap (fun kv => match reverse (fst kv) with e :: r => if decide (reverse r = p) then Some e else None | [] => None end) (map_to_list t)).

Definition entries_of (t : tree) (p : path) : list (string * node) := omap (fun e => n ← t !! (p ++ [e]); Some (e, n)) (children t p).

(** [os.ReadDir]: the entries, and the error if reading them broke off. *)
Definition ReadDir_partial (s : string) : act os oserr (list (string * node) * option oserr) := fun w =>
  let here := match existing (lookup_path (fs w) true s) with
              | inl e => inl (pathError "open" s e)
              | inr (p, NDir) => inr (entries_of (fs w) p)
              | inr _ => inl (pathError "readdirent" s ENOTDIR)
              end in
  match here, fault (calls w) with
  | inl e, _ => (inr ([], Some e), mkOs (fs w) (S (calls w)))
  | inr l, Some f => (inr (take (f_count f) l, Some (pathError "readdirent" s (EOther (f_text f)))), mkOs (fs w) (S (calls w)))
  | inr l, None => (inr (l, None), mkOs (fs w) (S (calls w)))
  end.

Definition ReadDir (s : string) : act os oserr (list (string * node)) :=
  let! r := ReadDir_partial s in match r with (l, None) => ret l | (_, Some e) => exit e end.

(** Without effect if it fails. *)
Definition change {A} (op name : string) (work : tree -> errno + A * tree) : act os oserr A :=
  sys op name (fun t => match work t with inl e => (inl e, t) | inr (a, t') => (inr a, t') end) (fun _ t => t).

Definition mkdir_at (r : errno + place) (t : tree) : errno + unit * tree :=
  match r with inl e => inl e | inr (At _ _) => inl EEXIST | inr (Absent p) => inr (tt, <[p := NDir]> t) end.

Definition Mkdir (s : string) : act os oserr unit := change "mkdir" s (fun t => mkdir_at (lookup_path t false s) t).

(** [os.MkdirAll]; [r]: the elements of the path, last first. *)
Fixpoint mkdirAll (r : list string) : act os oserr unit :=
  let s := abs (reverse r) in
  let! st := try (Stat s) in
  match st with
  | inr NDir => ret tt
  | inr _ => exit (pathError "mkdir" s ENOTDIR)
  | inl _ =>
      do! match r with _ :: ((_ :: _) as r') => mkdirAll r' | _ => ret tt end in
      let! made := try (Mkdir s) in
      match made with
      | inr _ => ret tt
      | inl e => let! st := try (Lstat s) in
                 match st with inr NDir => ret tt | _ => exit e end
      end
  end.
Definition MkdirAll (s : string) : act os oserr unit := mkdirAll (reverse (elements s)).

(** Opening; what is open is known by where it is. *)
Definition Open (s : string) : act os oserr (path * node) := query "open" s (fun t => existing (lookup_path t true s)).

(** [O_WRONLY|O_CREATE], with [O_TRUNC] or (to append) without *)
Definition open_at (trunc : bool) (r : errno + place) (t : tree) : errno + path * tree :=
  match r with
  | inl e => inl e
  | inr (Absent p) => inr (p, <[p := NFile []]> t)
  | inr (At p (NFile c)) => inr (p, if trunc then <[p := NFile []]> t else t)
  | inr (At p NDir) => inl EISDIR
  | inr (At p (NLink _)) => inl ELOOP
  end.

Definition OpenFile (trunc : bool) (s : string) : act os oserr path := change "open" s (fun t => open_at trunc (lookup_path t true s) t).

(** [O_WRONLY|O_CREATE|O_EXCL] *)
Definition OpenExcl (s : string) : act os oserr path :=
  change "open" s (fun t => match lookup_path t false s with
                            | inl e => inl e
                            | inr (At _ _) => inl EEXIST
                            | inr (Absent p) => inr (p, <[p := NFile []]> t)
                            end).

Definition file_at (t : tree) (p : path) : list ascii := match t !! p with Some (NFile c) => c | _ => [] end.

(** How a file was opened for writing: with [O_APPEND], or at its first byte. *)
Inductive write_mode := FromStart | AtEnd.

Definition written (m : write_mode) (old data : list ascii) : list ascii :=
  match m with FromStart => data ++ drop (length data) old | AtEnd => old ++ data end.

(** Into the file at [p]; nothing if its name is gone. *)
Definition put_bytes (m : write_mode) (p : path) (data : list ascii) (t : tree) : tree :=
  match t !! p with Some (NFile c) => <[p := NFile (written m c data)]> t | _ => t end.

(** The first write to an open file, so its offset is 0; [name]: what it was opened as. *)
Definition Write (m : write_mode) (name : string) (p : path) (data : list ascii) : act os oserr unit :=
  sys "write" name (fun t => (inr tt, put_bytes m p data t)) (fun f t => put_bytes m p (take (f_count f) data) t).

Definition Close (name : string) : act os oserr unit := query "close" name (fun _ => inr tt).

Definition ReadAll (name : string) (p : path) : act os oserr (list ascii) :=
  query "read" name (fun t => match t !! p with Some (NFile c) => inr c | _ => inl EISDIR end).

(** [io.Copy] from one open file to another, both at their first byte. *)
Definition Copy (name : string) (dst src : path) : act os oserr unit :=
  sys "write" name (fun t => match t !! src with
                             | Some (NFile c) => (inr tt, put_bytes FromStart dst c t)
                             | _ => (inl EISDIR, t)
                             end)
    (fun f t => put_bytes FromStart dst (take (f_count f) (file_at t src)) t).

(** [os.WriteFile]: the first error of the write and the close. *)
Definition WriteFile (s : string) (data : list ascii) : act os oserr unit :=
  let! p := OpenFile true s in
  let! r := try (Write FromStart s p data) in
  let! c := try (Close s) in
  match r, c with inl e, _ => exit e | inr _, inl e => exit e | inr _, inr _ => ret tt end.

(** [FileInfo.Size] *)
Definition size_of (n : node) : Z :=
  match n with NDir => dirSize | NFile c => Z.of_nat (length c) | NLink target => Z.of_nat (length (chars target)) end.

Definition has_children (t : tree) (p : path) : bool := match children t p with [] => false | _ => true end.

Definition EBUSY : errno := EOther "device or resource busy".

Definition Remove (s : string) : act os oserr unit :=
  change "remove" s (fun t => match existing (lookup_path t false s) with
                              | inl e => inl e
                              | inr (p, n) => if decide (p = []) then inl EBUSY
                                              else if decide (n = NDir /\ has_children t p = true) then inl ENOTEMPTY
                                              else inr (tt, delete p t)
                              end).

(** Everything at or below [p] that [kept] lets go, with all that is below it. *)
Definition gone (t : tree) (p : path) (kept : path -> bool) (q : path) : Prop :=
  q <> [] /\ p `prefix_of` q /\ Forall (fun kv => q `prefix_of` fst kv -> kept (fst kv) = false) (map_to_list t).
#[export] Instance gone_dec t p kept q : Decision (gone t p kept q).
Proof. unfold gone. apply _. Defined.

Definition remove_below (t : tree) (p : path) (kept : path -> bool) : tree := filter (fun kv => ~ gone t p kept (fst kv)) t.

Definition RemoveAll (s : string) : act os oserr unit :=
  sys "unlinkat" s
    (fun t => match lookup_path t false s with
              | inl ENOENT | inr (Absent _) => (inr tt, t)
              | inl e => (inl e, t)
              | inr (At p _) => (if decide (p = []) then inl EBUSY else inr tt, remove_below t p (fun _ => false))
              end)
    (fun f t => match lookup_path t false s with inr (At p _) => remove_below t p (f_kept f) | _ => t end).

(** [p] and all below it become [q]. *)
Definition move (p q : path) (t : tree) : tree :=
  list_to_map (omap (fun kv => let '(x, n) := kv in
      if decide (p `prefix_of` x) then Some (q ++ drop (length p) x, n)
      else if decide (x = q) then None else Some (x, n)) (map_to_list t)).

(** [rename(2)] where the new place is free or not a directory. *)
Definition rename_over (p : path) (n : node) (q : path) (free : bool) (t : tree) : errno + unit * tree :=
  if decide (p = []) then inl EBUSY
  else if decide (device (parent p) <> device (parent q)) then inl EXDEV
  else if decide (p = q) then inr (tt, t)
  else if decide (n = NDir /\ p `prefix_of` q) then inl EINVAL
  else if decide (n = NDir /\ free = false) then inl ENOTDIR
  else inr (tt, move p q t).

Definition rename_at (same : bool) (old new : errno + place) (t : tree) : errno + unit * tree :=
  match existing old with
  | inl e => inl e
  | inr (p, n) =>
      match new with
      | inl e => inl e
      | inr (At q NDir) => if same || negb (bool_decide (p = q)) then inl EEXIST else inr (tt, t)
      | inr (At q _) => rename_over p n q false t
      | inr (Absent q) => rename_over p n q true t
      end
  end.

(** [os.Rename]; it never replaces a directory. *)
Definition Rename (old new : string) : act os oserr unit :=
  change "rename" (old +:+ " " +:+ new)
    (fun t => rename_at (bool_decide (new = old)) (lookup_path t false old) (lookup_path t false new) t).

(** ** [os.Root]: the same below a directory that the way must not leave *)

Definition lookup_in (t : tree) (root : path) (follow : bool) (name : string) : errno + place := walk maxLinks t (Some root) follow root (steps name).

(** [Root.OpenFile] with [O_WRONLY|O_CREATE|O_TRUNC] *)
Definition RootOpenFile (root : path) (name : string) : act os oserr path :=
  change "openat" name (fun t => open_at true (lookup_in t root true name) t).

(** [Root.MkdirAll]: the directories of the path one after another; [done]: what is made. *)
Fixpoint rootMkdirAll (root : path) (name : string) (made : list string) (todo : list string) : act os oserr unit :=
  match todo with
  | [] => ret tt
  | e :: todo' =>
      let s := join (made ++ [e]) in
      do! change "mkdirat" name (fun t =>
            match lookup_in t root true s with
            | inl x => inl x
            | inr (At _ NDir) => inr (tt, t)
            | inr (At _ _) => inl ENOTDIR
            | inr (Absent p) => match lookup_in t root false s with inr (Absent _) => inr (tt, <[p := NDir]> t) | _ => inl EEXIST end
            end) in
      rootMkdirAll root name (made ++ [e]) todo'
  end.
Definition RootMkdirAll (root : path) (name : string) : act os oserr unit := rootMkdirAll root name [] (steps name).
End calls.
End Fs.
