(* ===== verification/Files.v ===== *)
(** * The daemon's file routes (src/internal/daemon/files.go, daemon.go)

    The handlers over the calls of [Fs], and the routes that turn their errors into status
    codes by the error's text.  Tar and gzip decoding is a parameter ([untar]); times are
    left out of what listings and stats report. *)

From S2P Require Import Prelude.
From S2P Require Import GoStrings.
From S2P Require Import Wire.
From S2P Require Import Paths.
From S2P Require Import Fs.

Module Files.
Import GoStrings Paths Fs.
Open Scope act_scope.

(** A handler's error: whether it wraps [errInvalidArchive], and its text. *)
Record ferr := mkFerr { fe_invalid : bool; fe_text : string }.

Definition plainErr (text : string) : ferr := mkFerr false text.
(** [fmt.Errorf("<what>: %w", err)] *)
Definition wrap (what : string) (e : oserr) : ferr := mkFerr false (what +:+ ": " +:+ e_text e).

(** [if err := m; err != nil { return f(err) }] *)
Definition or_fail {A} (m : act os oserr A) (f : oserr -> ferr) : act os ferr A :=
  let! r := try m in match r with inl e => exit (f e) | inr a => ret a end.

Definition itoa (n : Z) : string := of_chars (Wire.format_int n).

Definition HasSuffix (s suffix : string) : bool :=
  match strip_prefix (reverse (chars suffix)) (reverse (chars s)) with Some _ => true | None => false end.

Record FileInfo := mkFileInfo { fi_Name : string; fi_Size : Z; fi_IsDir : bool; fi_Type : string }.
Record FileStatInfo := mkFileStatInfo { fs_Name : string; fs_Path : string; fs_Type : string; fs_Size : Z }.
Record ArchiveResult := mkArchiveResult { ar_Files : Z; ar_Bytes : Z }.

(** ** Archives as the tar reader hands them over *)

Inductive typeflag := TypeReg | TypeDir | TypeXGlobalHeader | TypeOther.
#[export] Instance typeflag_eq_dec : EqDecision typeflag.
Proof. solve_decision. Defined.
Record header := mkHeader { h_Name : string; h_Typeflag : typeflag; h_PAXRecords : list string }.

(** [TEnd footer]: the end, and what reading on to the end of the gzip stream reports;
    [TBad]: [Next] fails; an entry's content may break off with an error. *)
Inductive tar_stream :=
| TEnd (footer : option string)
| TBad (text : string)
| TEntry (h : header) (content : list ascii) (broken : option string) (rest : tar_stream).

Section files.
Context `{Host}.
(** Decompressing if told to, and reading the archive; or what [gzip.NewReader] reports. *)
Context (untar : bool -> list ascii -> string + tar_stream).
(** [strconv.Quote] *)
Context (quoted : string -> string).

Definition fileInfoFrom (name : string) (n : node) : FileInfo :=
  let isDir := bool_decide (n = NDir) in
  mkFileInfo name (size_of n) isDir (if isDir then "directory" else "file").

(** *** Listing *)

Definition filtered (extension name : string) (n : node) : bool :=
  negb (bool_decide (extension = "")) && negb (bool_decide (n = NDir)) && negb (HasSuffix name extension).

Fixpoint list_entries (resolved extension : string) (entries : list (string * node)) : act os ferr (list FileInfo) :=
  match entries with
  | [] => ret []
  | (name, n) :: entries' =>
      if filtered extension name n then list_entries resolved extension entries'
      else let! info := try (Lstat (Join resolved name)) in
           let! infos := list_entries resolved extension entries' in
           ret (match info with inl _ => infos | inr n => fileInfoFrom name n :: infos end)
  end.

Definition base (s : string) : string := match reverse (elements s) with e :: _ => e | [] => "/" end.

(** The callback of [WalkDir]. *)
Definition visit (resolved extension walkPath : string) (d : node) : act os ferr (list FileInfo) :=
  if decide (walkPath = resolved) then ret []
  else if filtered extension (base walkPath) d then ret []
  else let! info := try (Lstat walkPath) in
       match info with
       | inl _ => ret []
       | inr n => ret [fileInfoFrom (default "" (Rel resolved walkPath)) n]
       end.

(** [filepath.walkDir]; errors reading a directory are skipped by the callback. *)
Fixpoint walkDir (fuel : nat) (resolved extension path : string) (d : node) : act os ferr (list FileInfo) :=
  let! own := visit resolved extension path d in
  if decide (d <> NDir) then ret own
  else match fuel with
       | O => exit (wrap "" (pathError "" "" EFuel))
       | S k =>
           let! r := try (ReadDir_partial path) in
           let! below :=
             (fix each (entries : list (string * node)) : act os ferr (list FileInfo) :=
                match entries with
                | [] => ret []
                | (name, n) :: entries' =>
                    let! a := walkDir k resolved extension (Join path name) n in
                    let! b := each entries' in
                    ret (a ++ b)
                end) (match r with inr (entries, _) => entries | inl _ => [] end) in
           ret (own ++ below)
       end.

Definition HandleFileList (fuel : nat) (path : string) (recursive : bool) (extension : string) : act os ferr (list FileInfo) :=
  let resolved := resolvePath path in
  if negb recursive then
    let! entries := or_fail (ReadDir resolved) (wrap ("file_list readdir " +:+ resolved)) in
    list_entries resolved extension entries
  else
    let! root := try (Lstat resolved) in
    match root with
    | inl _ => ret []
    | inr d => walkDir fuel resolved extension resolved d
    end.

(** *** Reading and writing *)

Definition HandleFileRead (path : string) (maxBytes : Z) : act os ferr (list ascii) :=
  let resolved := resolvePath path in
  let! f := or_fail (Open resolved) (wrap ("file_read open " +:+ resolved)) in
  let '(p, n) := f in
  if decide (maxBytes > 0) then
    do! or_fail (query "stat" resolved (fun _ => inr tt)) (wrap ("file_read stat " +:+ resolved)) in
    if decide (size_of n > maxBytes) then
      exit (plainErr ("file_read: file size " +:+ itoa (size_of n) +:+ " exceeds limit " +:+ itoa maxBytes))
    else if decide (size_of n = 0) then ret []
    else or_fail (ReadAll resolved p) (wrap ("file_read read " +:+ resolved))
  else or_fail (ReadAll resolved p) (wrap ("file_read read " +:+ resolved)).

Definition HandleFileWrite (path : string) (data : list ascii) (maxBytes : Z) (overwrite : bool) : act os ferr unit :=
  let len := Z.of_nat (length data) in
  if decide (maxBytes > 0 /\ len > maxBytes) then
    exit (plainErr ("file_write: data size " +:+ itoa len +:+ " exceeds limit " +:+ itoa maxBytes))
  else
  let resolved := resolvePath path in
  let dir := Dir resolved in
  do! or_fail (MkdirAll dir) (wrap ("file_write mkdir " +:+ dir)) in
  if overwrite then or_fail (WriteFile resolved data) (wrap ("file_write write " +:+ resolved))
  else
    let! p := or_fail (OpenExcl resolved) (fun e =>
                if decide (e_no e = EEXIST \/ e_no e = ENOTEMPTY) then plainErr ("file_write: file already exists: " +:+ path)
                else wrap ("file_write open " +:+ resolved) e) in
    let! r := try (Write FromStart resolved p data) in
    match r with
    | inl e => do! try (Close resolved) in exit (wrap ("file_write write " +:+ resolved) e)
    | inr _ => or_fail (Close resolved) (wrap ("file_write close " +:+ resolved))
    end.

Definition HandleFileAppend (path : string) (data : list ascii) : act os ferr unit :=
  let resolved := resolvePath path in
  let dir := Dir resolved in
  do! or_fail (MkdirAll dir) (wrap ("file_append mkdir " +:+ dir)) in
  let! p := or_fail (OpenFile false resolved) (wrap ("file_append open " +:+ resolved)) in
  or_fail (Write AtEnd resolved p data) (wrap ("file_append write " +:+ resolved)).

Definition HandleFileDelete (path : string) (recursive force : bool) : act os ferr unit :=
  let resolved := resolvePath path in
  let! r := try (if recursive then RemoveAll resolved else Remove resolved) in
  match r with
  | inl e => if decide (force = true /\ e_no e = ENOENT) then ret tt else exit (wrap ("file_delete remove " +:+ resolved) e)
  | inr _ => ret tt
  end.

(** *** Copying and moving *)

Definition copyFile (src dest : string) : act os oserr unit :=
  do! MkdirAll (Dir dest) in
  let! s := Open src in
  do! query "stat" src (fun _ => inr tt) in
  let! d := OpenFile true dest in
  let! r := try (Copy dest d (fst s)) in
  match r with
  | inl e => do! try (Close dest) in exit e
  | inr _ => Close dest
  end.

(** The loop over the entries; [sub]: [copyDir] itself. *)
Fixpoint copy_entries (sub : string -> string -> act os oserr unit) (src dest : string) (entries : list (string * node)) : act os oserr unit :=
  match entries with
  | [] => ret tt
  | (name, n) :: entries' =>
      let srcPath := Join src name in
      let destPath := Join dest name in
      do! (if decide (n = NDir) then sub srcPath destPath else copyFile srcPath destPath) in
      copy_entries sub src dest entries'
  end.

Fixpoint copyDir (fuel : nat) (src dest : string) : act os oserr unit :=
  do! Stat src in
  do! MkdirAll dest in
  let! entries := ReadDir src in
  match fuel with
  | O => exit (pathError "" "" EFuel)
  | S k => copy_entries (copyDir k) src dest entries
  end.

Definition HandleFileCopy (fuel : nat) (srcPath destPath : string) (recursive overwrite : bool) : act os ferr unit :=
  let resolvedSrc := resolvePath srcPath in
  let resolvedDest := resolvePath destPath in
  let! srcInfo := or_fail (Stat resolvedSrc) (wrap ("file_copy stat src " +:+ resolvedSrc)) in
  let! there := if overwrite then ret false
                else let! r := try (Stat resolvedDest) in ret (match r with inl _ => false | inr _ => true end) in
  if there : bool then exit (plainErr ("file_copy: destination already exists: " +:+ destPath))
  else
  let raw e := plainErr (e_text e) in
  if decide (srcInfo = NDir) then
    if negb recursive then exit (plainErr "file_copy: source is a directory, use recursive option")
    else if isSameOrSubpath resolvedSrc resolvedDest then exit (plainErr "file_copy: destination must not be inside source directory")
    else or_fail (copyDir fuel resolvedSrc resolvedDest) raw
  else or_fail (copyFile resolvedSrc resolvedDest) raw.

Definition HandleFileMove (fuel : nat) (srcPath destPath : string) (overwrite : bool) : act os ferr unit :=
  let resolvedSrc := resolvePath srcPath in
  let resolvedDest := resolvePath destPath in
  let! there := if overwrite then ret false
                else let! r := try (Stat resolvedDest) in ret (match r with inl _ => false | inr _ => true end) in
  if there : bool then exit (plainErr ("file_move: destination already exists: " +:+ destPath))
  else
  let! srcInfo := or_fail (Stat resolvedSrc) (wrap ("file_move stat src " +:+ resolvedSrc)) in
  if decide (srcInfo = NDir /\ isSameOrSubpath resolvedSrc resolvedDest = true) then
    exit (plainErr "file_move: destination must not be inside source directory")
  else
  do! or_fail (MkdirAll (Dir resolvedDest)) (wrap "file_move mkdir dest") in
  let! r := try (Rename resolvedSrc resolvedDest) in
  match r with
  | inr _ => ret tt
  | inl e =>
      if decide (e_no e <> EXDEV) then exit (wrap ("file_move rename " +:+ resolvedSrc +:+ " -> " +:+ resolvedDest) e)
      else
        do! (if decide (srcInfo = NDir) then or_fail (copyDir fuel resolvedSrc resolvedDest) (wrap "file_move copy fallback")
             else or_fail (copyFile resolvedSrc resolvedDest) (wrap "file_move copy fallback")) in
        or_fail (RemoveAll resolvedSrc) (wrap "file_move remove src after copy")
  end.

Definition HandleFileMkdir (path : string) (recursive : bool) : act os ferr unit :=
  let resolved := resolvePath path in
  if recursive then or_fail (MkdirAll resolved) (wrap ("file_mkdir mkdirall " +:+ resolved))
  else or_fail (Mkdir resolved) (wrap ("file_mkdir mkdir " +:+ resolved)).

Definition HandleFileStat (path : string) : act os ferr FileStatInfo :=
  let resolved := resolvePath path in
  let! n := or_fail (Stat resolved) (wrap ("file_stat stat " +:+ resolved)) in
  ret (mkFileStatInfo (base resolved) path (if bool_decide (n = NDir) then "directory" else "file") (size_of n)).

(** *** Unpacking *)

Definition entryErr (name : string) (invalid : bool) (text : string) : ferr :=
  mkFerr invalid ("file_archive entry " +:+ quoted name +:+ ": " +:+ text).

Definition invalidEntry (name text : string) : ferr := entryErr name true ("invalid archive: " +:+ text).

(** The number of bytes written, or the error and whether the archive is at fault. *)
Definition writeArchiveFile (root : path) (name : string) (content : list ascii) (broken : option string) : act os (bool * string) Z :=
  let sysErr {A} (m : act os oserr A) : act os (bool * string) A :=
    let! r := try m in match r with inl e => exit (false, e_text e) | inr a => ret a end in
  let dir := Dir name in
  do! (if decide (dir = ".") then ret tt else sysErr (RootMkdirAll root dir)) in
  let! p := sysErr (RootOpenFile root name) in
  let! r := try (Write FromStart name p content) in
  let! c := try (Close name) in
  match r, broken, c with
  | inl e, _, _ => exit (false, e_text e)
  | inr _, Some text, _ => exit (true, "invalid archive: " +:+ text)
  | inr _, None, inl e => exit (false, e_text e)
  | inr _, None, inr _ => ret (Z.of_nat (length content))
  end.

Definition bad_name (name : string) : bool := negb (IsLocal name) || bool_decide (".." ∈ Split name).

Definition archiveErr (text : string) : ferr := mkFerr true ("file_archive: invalid archive: " +:+ text).

(** The loop over the entries. *)
Fixpoint unpack (root : path) (s : tar_stream) (res : ArchiveResult) : act os ferr ArchiveResult :=
  match s with
  | TEnd None => ret res
  | TEnd (Some text) | TBad text => exit (archiveErr text)
  | TEntry h content broken rest =>
      if decide (h_Typeflag h = TypeXGlobalHeader) then unpack root rest res
      else
      let name := h_Name h in
      if bad_name name then exit (invalidEntry name "path must be relative and must not contain ..")
      else if existsb (fun key => HasPrefix key "GNU.sparse.") (h_PAXRecords h) then exit (invalidEntry name "sparse files are not allowed")
      else match h_Typeflag h with
           | TypeDir =>
               do! or_fail (RootMkdirAll root name) (fun e => entryErr name false (e_text e)) in
               unpack root rest res
           | TypeReg =>
               let! r := try (writeArchiveFile root name content broken) in
               match r with
               | inl (invalid, text) => exit (entryErr name invalid text)
               | inr n => unpack root rest (mkArchiveResult (ar_Files res + 1) (ar_Bytes res + n))
               end
           | _ => exit (invalidEntry name "only regular files and directories are allowed")
           end
  end.

Definition gzipped (body : list ascii) : bool :=
  match body with a :: b :: _ => bool_decide (a = byte 31 /\ b = byte 139) | _ => false end.

Definition gunzipIfCompressed (body : list ascii) : string + tar_stream := untar (gzipped body) body.

Definition HandleFileArchive (path : string) (body : list ascii) : act os ferr ArchiveResult :=
  let resolved := resolvePath path in
  do! or_fail (MkdirAll resolved) (wrap ("file_archive mkdir " +:+ resolved)) in
  let! root := or_fail (Open resolved) (wrap ("file_archive open " +:+ resolved)) in
  match root with
  | (p, NDir) =>
      match gunzipIfCompressed body with
      | inl text => exit (archiveErr text)
      | inr s => unpack p s (mkArchiveResult 0 0)
      end
  | _ => exit (wrap ("file_archive open " +:+ resolved) (pathError "open" resolved ENOTDIR))
  end.

(** ** Routes *)

(** [strings.ToLower], as far as it makes ASCII letters: capitals, the Kelvin sign and the
    dotted capital I. *)
Definition lower (c : ascii) : ascii := let n := Ascii.N_of_ascii c in if decide (65 <= n <= 90)%N then byte (n + 32) else c.
Fixpoint to_lower (l : list ascii) : list ascii :=
  match l with
  | [] => []
  | a :: r =>
      match r with
      | b :: r' =>
          if decide (a = byte 196 /\ b = byte 176) then byte 105 :: to_lower r'
          else match r' with
               | c :: r'' => if decide (a = byte 226 /\ b = byte 132 /\ c = byte 170) then byte 107 :: to_lower r'' else lower a :: to_lower r
               | [] => lower a :: to_lower r
               end
      | [] => [lower a]
      end
  end.

Fixpoint contains (sub l : list ascii) : bool :=
  match strip_prefix sub l with
  | Some _ => true
  | None => match l with [] => false | _ :: l' => contains sub l' end
  end.
Definition Contains (s sub : string) : bool := contains (chars sub) (chars s).

Definition fileOpStatusCode (e : ferr) : Z :=
  if fe_invalid e then 400
  else let msg := of_chars (to_lower (chars (fe_text e))) in
       if Contains msg "path escapes from parent" then 400
       else if Contains msg "already exists" then 409
       else if Contains msg "not found" || Contains msg "no such file or directory" then 404
       else if Contains msg "source is a directory" || Contains msg "destination must not be inside source directory" ||
               Contains msg "invalid argument" || Contains msg "directory not empty" then 400
       else 500.

Inductive freply :=
| FError (code : Z) (msg : string)
| FStatus (code : Z)
| FList (l : list FileInfo)
| FContent (data : list ascii)
| FStat (s : FileStatInfo)
| FArchive (r : ArchiveResult).

(** [if err != nil { writeError(w, fileOpStatusCode(err), err.Error()) }] *)
Definition answer {A} (m : act os ferr A) (k : A -> freply) (w : os) : freply * os :=
  match m w with
  | (inl e, w') => (FError (fileOpStatusCode e) (fe_text e), w')
  | (inr a, w') => (k a, w')
  end.

Definition refuse (msg : string) (w : os) : freply * os := (FError 400 msg, w).

(** [q]: the query's [Get]; a body that could not be read or decoded comes as its error. *)
Definition get_files (fuel : nat) (q : string -> string) : os -> freply * os :=
  let path := if decide (q "path" = "") then "/" else q "path" in
  answer (HandleFileList fuel path (bool_decide (q "recursive" = "true")) (q "extension")) FList.

Definition get_content (q : string -> string) : os -> freply * os :=
  if decide (q "path" = "") then refuse "missing file path" else answer (HandleFileRead (q "path") 0) FContent.

Definition put_file (q : string -> string) (data : string + list ascii) : os -> freply * os :=
  if decide (q "path" = "") then refuse "missing file path"
  else match data with
       | inl err => refuse ("failed to read request body: " +:+ err)
       | inr data => answer (HandleFileWrite (q "path") data 0 (negb (bool_decide (q "overwrite" = "false")))) (fun _ => FStatus 200)
       end.

Definition post_file (q : string -> string) (data : string + list ascii) : os -> freply * os :=
  if decide (q "path" = "") then refuse "missing file path"
  else match data with
       | inl err => refuse ("failed to read request body: " +:+ err)
       | inr data => answer (HandleFileAppend (q "path") data) (fun _ => FStatus 200)
       end.

Definition post_archive (q : string -> string) (data : list ascii) : os -> freply * os :=
  if decide (q "path" = "") then refuse "missing directory path" else answer (HandleFileArchive (q "path") data) FArchive.

Definition delete_file (q : string -> string) : os -> freply * os :=
  if decide (q "path" = "") then refuse "missing file path"
  else answer (HandleFileDelete (q "path") (bool_decide (q "recursive" = "true")) (bool_decide (q "force" = "true"))) (fun _ => FStatus 204).

Record copyRequest := mkCopyRequest { cr_Src : string; cr_Dest : string; cr_Recursive : bool; cr_Overwrite : bool }.
Record moveRequest := mkMoveRequest { mr_Src : string; mr_Dest : string; mr_Overwrite : bool }.

Definition post_copy (fuel : nat) (req : string + copyRequest) : os -> freply * os :=
  match req with
  | inl err => refuse ("invalid request body: " +:+ err)
  | inr r => if decide (cr_Src r = "" \/ cr_Dest r = "") then refuse "src and dest are required"
             else answer (HandleFileCopy fuel (cr_Src r) (cr_Dest r) (cr_Recursive r) (cr_Overwrite r)) (fun _ => FStatus 200)
  end.

Definition post_move (fuel : nat) (req : string + moveRequest) : os -> freply * os :=
  match req with
  | inl err => refuse ("invalid request body: " +:+ err)
  | inr r => if decide (mr_Src r = "" \/ mr_Dest r = "") then refuse "src and dest are required"
             else answer (HandleFileMove fuel (mr_Src r) (mr_Dest r) (mr_Overwrite r)) (fun _ => FStatus 200)
  end.

Definition post_mkdir (q : string -> string) : os -> freply * os :=
  if decide (q "path" = "") then refuse "missing directory path"
  else answer (HandleFileMkdir (q "path") (bool_decide (q "recursive" = "true"))) (fun _ => FStatus 201).

Definition get_stat (q : string -> string) : os -> freply * os :=
  if decide (q "path" = "") then refuse "missing file path" else answer (HandleFileStat (q "path")) FStat.

(** The file routes of the mux. *)
Inductive request :=
| GetFiles (q : string -> string) | GetContent (q : string -> string)
| PutFile (q : string -> string) (data : string + list ascii) | PostFile (q : string -> string) (data : string + list ascii)
| PostArchive (q : string -> string) (data : list ascii) | DeleteFile (q : string -> string)
| PostCopy (req : string + copyRequest) | PostMove (req : string + moveRequest)
| PostMkdir (q : string -> string) | GetStat (q : string -> string).

Definition serve (fuel : nat) (r : request) : os -> freply * os :=
  match r with
  | GetFiles q => get_files fuel q
  | GetContent q => get_content q
  | PutFile q data => put_file q data
  | PostFile q data => post_file q data
  | PostArchive q data => post_archive q data
  | DeleteFile q => delete_file q
  | PostCopy req => post_copy fuel req
  | PostMove req => post_move fuel req
  | PostMkdir q => post_mkdir q
  | GetStat q => get_stat q
  end.
End files.

(** ** Runs *)

Definition calm : Host := Build_Host (fun _ => None) 40%nat (fun _ => 0%nat) 4096.

Definition text (s : string) : node := NFile (chars s).
Definition home : os :=
  mkOs (<[[] := NDir]> (<[["d"] := NDir]> (<[["d"; "f"] := text "data"]> (<[["link"] := NLink "d"]> ∅)))) 0%nat.

(** Copying a file onto itself empties it and reports success. *)
Example copy_onto_itself : let r := post_copy (H := calm) 5 (inr (mkCopyRequest "/d/f" "/d/../d/f" false true)) home in
  fst r = FStatus 200 /\ fs (snd r) !! ["d"; "f"] = Some (NFile []).
Proof. vm_compute. done. Qed.

(** A directory copied below a link to itself is copied into itself until something gives. *)
Example copy_into_itself : let r := post_copy (H := calm) 20 (inr (mkCopyRequest "/d" "/link/x" true false)) home in
  (exists msg, fst r = FError 500 msg) /\ fs (snd r) !! (["d"] ++ replicate 19 "x" ++ ["f"]) = Some (text "data").
Proof. vm_compute. split; [by eexists|done]. Qed.

(** Listing a directory that is not there: 404, but an empty list if recursive; a link to
    a directory lists its files, but nothing if recursive. *)
Definition asked (path recursive k : string) : string := if decide (k = "path") then path else if decide (k = "recursive") then recursive else "".

Example list_missing : (exists msg, fst (get_files (H := calm) 5 (asked "/no" "false") home) = FError 404 msg) /\
  fst (get_files (H := calm) 5 (asked "/no" "true") home) = FList [].
Proof. vm_compute. split; [by eexists|done]. Qed.

Example list_link : fst (get_files (H := calm) 5 (asked "/link" "false") home) = FList [mkFileInfo "f" 4 false "file"] /\
  fst (get_files (H := calm) 5 (asked "/link" "true") home) = FList [].
Proof. by vm_compute. Qed.

(** The status depends on words of the path: what is not there is a conflict if its name
    says so; and a directory that exists is not a conflict. *)
Example stat_conflict : (exists msg, fst (get_stat (H := calm) (asked "/already exists" "") home) = FError 409 msg) /\
  (exists msg, fst (get_stat (H := calm) (asked "/gone" "") home) = FError 404 msg) /\
  (exists msg, fst (get_stat (H := calm) (asked "/d/f/x" "") home) = FError 500 msg).
Proof. vm_compute. split_and!; by eexists. Qed.

Example mkdir_existing : exists msg, fst (post_mkdir (H := calm) (asked "/d" "") home) = FError 500 msg.
Proof. vm_compute. by eexists. Qed.
End Files.
