(* ===== verification/FilesInv.v ===== *)
(** * What the file handlers do to the tree

    How a path is found in a well-formed tree; a small logic for which changes a handler
    may make, whatever fails; that every handler keeps the tree well formed, an archive
    writes only below its directory, and a write without overwrite changes nothing there was. *)

From S2P Require Import Prelude.
From S2P Require Import GoStrings.
From S2P Require Import Paths.
From S2P Require Import Fs.
From S2P Require Import Files.

Module FilesInv.
Import GoStrings Paths Fs Files.

(** ** Finding a path *)

Definition word (e : string) : Prop := e <> "" /\ e <> "." /\ slash ∉ chars e.

Lemma steps_words s : Forall word (steps s).
Proof.
  unfold steps. apply Forall_forall. intros e [[H1 H2] He]%list_elem_of_filter. split_and!; [done..|].
  by apply (proj1 (Forall_forall _ _) (Split_no_slash s)).
Qed.

Lemma steps_abs l : plain l -> steps (abs l) = l.
Proof.
  intros Hl. unfold steps. rewrite Split_plain by done. rewrite filter_cons_False by tauto. destruct l as [|e l]; [done|].
  clear -Hl. induction Hl as [|x l' Hx Hl' IH]; [done|]. rewrite filter_cons_True by (split; apply Hx). by rewrite IH.
Qed.

Lemma parent_snoc p e : parent (p ++ [e]) = p.
Proof. unfold parent. rewrite length_app. cbn [length]. replace (length p + 1 - 1)%nat with (length p) by lia. by apply take_app_length. Qed.

Lemma parent_below (root cur : path) : root `prefix_of` cur -> cur <> root -> root `prefix_of` parent cur.
Proof.
  intros [k ->] Hne. destruct k as [|e k _] using rev_ind; [by rewrite app_nil_r in Hne|]. rewrite (assoc_L (++)), parent_snoc. by apply prefix_app_r.
Qed.

Lemma wf_prefix t p q n : wf t -> t !! (p ++ q) = Some n -> q <> [] -> t !! p = Some NDir.
Proof.
  intros Hw. revert n. induction q as [|e q IH] using rev_ind; [done|]. intros n Hn _. rewrite (assoc_L (++)) in Hn. apply (wf_parent _ Hw) in Hn.
  destruct q as [|x q]; [by rewrite app_nil_r in Hn|]. by eapply IH.
Qed.

Lemma wf_parent_dir t p : wf t -> t !! p = Some NDir -> t !! parent p = Some NDir.
Proof.
  intros Hw Hp. destruct p as [|e p _] using rev_ind; [done|]. rewrite parent_snoc. by apply (wf_parent _ Hw) in Hp.
Qed.

(** What is found is there; what is absent has a directory and a proper name. *)
Definition place_ok (t : tree) (follow : bool) (r : errno + place) : Prop :=
  match r with
  | inl _ => True
  | inr (At p n) => t !! p = Some n /\ (follow = true -> forall l, n <> NLink l)
  | inr (Absent p) => t !! p = None /\ exists q e, p = q ++ [e] /\ t !! q = Some NDir /\ plain p
  end.

Lemma walk_ok links t floor follow cur todo : wf t -> t !! cur = Some NDir -> Forall word todo -> place_ok t follow (walk links t floor follow cur todo).
Proof.
  intros Hw. revert cur todo. induction links as [|k IHk]; intros cur todo; revert cur; induction todo as [|e todo IH]; intros cur Hcur Htodo; try (by split).
  all: inversion_clear Htodo as [|? ? He Htodo']; cbn [walk]; destruct (decide (e = "..")) as [Hup|Hup];
    [destruct (decide (floor = Some cur)); [done|]; apply IH; [by apply wf_parent_dir|done]|];
    destruct (t !! (cur ++ [e])) as [[| c | target]|] eqn:E;
    [by apply IH|destruct todo; [by split|done]| |destruct todo; [|done]].
  - destruct (decide _) as [[-> ->]|]; [by split|done].
  - split; [done|]. exists cur, e. split_and!; [done..|]. apply Forall_app. split; [by eapply wf_plain|]. constructor; [|done]. by destruct He as (? & ? & ?).
  - destruct (decide _) as [[-> ->]|]; [by split|]. destruct (IsAbs target); [destruct floor; [done|]|]; apply IHk; try done;
      [apply Hw| |]; apply Forall_app; (split; [apply steps_words|done]).
  - split; [done|]. exists cur, e. split_and!; [done..|]. apply Forall_app. split; [by eapply wf_plain|]. constructor; [|done]. by destruct He as (? & ? & ?).
Qed.

(** A walk with a floor stays on it. *)
Definition place_at (r : place) : path := match r with At p _ | Absent p => p end.

Lemma walk_confined links t root follow cur todo r : root `prefix_of` cur -> walk links t (Some root) follow cur todo = inr r -> root `prefix_of` place_at r.
Proof.
  revert cur todo. induction links as [|k IHk]; intros cur todo; revert cur; induction todo as [|e todo IH]; intros cur Hcur; cbn [walk];
    try (intros [= <-]; exact Hcur).
  all: destruct (decide (e = "..")) as [Hup|Hup];
    [destruct (decide (Some root = Some cur)); [done|]; apply IH; apply parent_below; congruence|];
    assert (Hnext : root `prefix_of` cur ++ [e]) by (by apply prefix_app_r);
    destruct (t !! (cur ++ [e])) as [[| c | target]|];
    [by apply IH|destruct todo; [by intros [= <-]|done]| |destruct todo; [by intros [= <-]|done]];
    (destruct (decide (todo = [] /\ follow = false)); [by intros [= <-]|]).
  - done.
  - destruct (IsAbs target); [done|]. by apply IHk.
Qed.

Lemma walk_existing links t floor follow cur todo n : wf t -> plain todo -> t !! (cur ++ todo) = Some n -> (todo = [] -> n = NDir) ->
  (forall l, n = NLink l -> follow = false) -> walk links t floor follow cur todo = inr (At (cur ++ todo) n).
Proof.
  intros Hw Hp. revert cur. induction Hp as [|e todo (_ & _ & He & _) Hp IH]; intros cur Hn Hd Hl.
  - destruct links; cbn [walk]; rewrite app_nil_r in *; by rewrite Hd.
  - assert (Hstep : cur ++ e :: todo = (cur ++ [e]) ++ todo) by (by rewrite <- (assoc_L (++))). rewrite Hstep in *.
    assert (Hgo : t !! (cur ++ [e]) = Some NDir -> walk links t floor follow (cur ++ [e]) todo = inr (At ((cur ++ [e]) ++ todo) n)).
    { intros Hdir. apply IH; [done| |done]. intros ->. rewrite app_nil_r in Hn. congruence. }
    destruct links; cbn [walk]; (rewrite decide_False by done);
      (destruct todo as [|x todo]; [rewrite app_nil_r in *; rewrite Hn; destruct n as [| |l];
         [by apply Hgo|done|by rewrite decide_True by (split; [done|by eapply Hl])]
       |pose proof (wf_prefix _ _ _ _ Hw Hn ltac:(done)) as Hdir; rewrite Hdir; by apply Hgo]).
Qed.

Lemma walk_missing links t floor follow cur todo e : wf t -> plain (todo ++ [e]) -> t !! (cur ++ todo) = Some NDir -> t !! ((cur ++ todo) ++ [e]) = None ->
  walk links t floor follow cur (todo ++ [e]) = inr (Absent ((cur ++ todo) ++ [e])).
Proof.
  intros Hw. revert cur. induction todo as [|x todo IH]; intros cur Hp Hd Hn.
  - inversion_clear Hp as [|? ? (_ & _ & He & _) _]. rewrite app_nil_r in *. destruct links; cbn [walk app]; (rewrite decide_False by done); by rewrite Hn.
  - inversion_clear Hp as [|? ? (_ & _ & Hx & _) Hp']. assert (Hstep : cur ++ x :: todo = (cur ++ [x]) ++ todo) by (by rewrite <- (assoc_L (++))). rewrite Hstep in *.
    assert (Hdir : t !! (cur ++ [x]) = Some NDir) by (destruct todo as [|y todo]; [by rewrite app_nil_r in Hd|by eapply wf_prefix]).
    destruct links; cbn [walk app]; (rewrite decide_False by done); rewrite Hdir; by apply IH.
Qed.

(** ** Which changes a call may make *)

Section moves.
Context (R : tree -> tree -> Prop) `{!PreOrder R}.

(** Whatever it returns, [m] changes the tree as [R] allows, and returns what [V] says. *)
Definition moves {E A} (V : A -> Prop) (m : act os E A) : Prop :=
  forall w, R (fs w) (fs (snd (m w))) /\ match fst (m w) with inr a => V a | inl _ => True end.

Abbreviation moves_any m := (moves (fun _ => True) m).

Lemma moves_ret {E A} (V : A -> Prop) (a : A) : V a -> moves V (ret (R := E) a).
Proof. intros Ha w. by split. Qed.

Lemma moves_exit {E A} (V : A -> Prop) (e : E) : moves V (exit (A := A) e).
Proof. intros w. by split. Qed.

Lemma moves_bind {E A B} V V' (m : act os E A) (k : A -> act os E B) : moves V m -> (forall a, V a -> moves V' (k a)) -> moves V' (bind m k).
Proof.
  intros Hm Hk w. unfold bind. specialize (Hm w). destruct (m w) as [[e|a] w1]; simpl in *; [tauto|]. destruct Hm as [H1 Ha].
  destruct (Hk a Ha w1) as [H2 Hb]. split; [by etrans|done].
Qed.

Lemma moves_try {E E' A} V (m : act os E' A) : moves V m -> moves (fun r => match r with inr a => V a | inl _ => True end) (try (R := E) m).
Proof. intros Hm w. specialize (Hm w). unfold try. by destruct (m w) as [[e|a] w1]. Qed.

Lemma moves_then {E A B} V' (m : act os E A) (k : A -> act os E B) : moves_any m -> (forall a, moves V' (k a)) -> moves V' (bind m k).
Proof. intros Hm Hk. eapply moves_bind; [exact Hm|]. intros a _. apply Hk. Qed.

Lemma moves_attempt {E E' A} (m : act os E' A) : moves_any m -> moves_any (try (R := E) m).
Proof. intros Hm w. specialize (Hm w). unfold try. by destruct (m w) as [[e|a] w1]. Qed.

Lemma moves_weaken {E A} (V V' : A -> Prop) (m : act os E A) : moves V m -> (forall a, V a -> V' a) -> moves V' m.
Proof. intros Hm HV w. specialize (Hm w). destruct (m w) as [[e|a] w1]; simpl in *; naive_solver. Qed.

Lemma moves_or_fail {A} V (m : act os oserr A) f : moves V m -> moves V (or_fail m f).
Proof. intros Hm. unfold or_fail. eapply moves_bind; [by apply moves_try|]. intros [e|a] Ha; [apply moves_exit|by apply moves_ret]. Qed.

Lemma moves_answer {A} (m : act os ferr A) k w : moves_any m -> R (fs w) (fs (snd (answer m k w))).
Proof. intros Hm. unfold answer. destruct (Hm w) as [Hr _]. by destruct (m w) as [[e|a] w1]. Qed.
End moves.

Section handlers.
Context `{Host}.

Section relation.
Context (R : tree -> tree -> Prop) `{!PreOrder R}.

Lemma moves_sys {A} (V : A -> Prop) (op name : string) (work : tree -> (errno + A) * tree) (partly : failure -> tree -> tree) :
  (forall t, R t (snd (work t)) /\ match fst (work t) with inr a => V a | inl _ => True end) -> (forall f t, R t (partly f t)) -> moves R V (sys op name work partly).
Proof.
  intros Hw Hp w. unfold sys. destruct (fault (calls w)) as [f|]; [split; [apply Hp|done]|]. specialize (Hw (fs w)). destruct (work (fs w)) as [[e|a] t]; simpl in *; tauto.
Qed.

Lemma moves_query {A} (op name : string) (work : tree -> errno + A) : moves R (fun _ => True) (query op name work).
Proof. apply moves_sys; [|done]. intros t. simpl. split; [done|]. by destruct (work t). Qed.

Lemma moves_change {A} (V : A -> Prop) (op name : string) (work : tree -> errno + A * tree) :
  (forall t a t', work t = inr (a, t') -> R t t' /\ V a) -> moves R V (change op name work).
Proof.
  intros Hw. apply moves_sys; [|done]. intros t. destruct (work t) as [e|[a t']] eqn:E; simpl; [by split|]. by apply Hw.
Qed.

Lemma moves_ReadDir_partial s : moves R (fun _ => True) (ReadDir_partial s).
Proof. intros w. unfold ReadDir_partial. by destruct (match existing _ with inl _ => _ | inr _ => _ end), (fault (calls w)). Qed.

Lemma moves_ReadDir s : moves R (fun _ => True) (ReadDir s).
Proof. unfold ReadDir. eapply moves_bind; [done|apply moves_ReadDir_partial|]. intros [l [e|]] _; [by apply moves_exit|by apply moves_ret]. Qed.
End relation.

(** One step of a handler's body. *)
Ltac moves_step :=
  first
  [ assumption
  | apply moves_ret; [apply _|first [exact I|assumption]]
  | apply moves_exit; apply _
  | apply moves_query; apply _
  | apply moves_ReadDir; apply _
  | apply moves_ReadDir_partial; apply _
  | apply moves_or_fail; [apply _|]
  | apply moves_attempt
  | match goal with
    | |- moves _ _ (bind _ _) => apply moves_then; [apply _| |]
    | |- moves _ _ (if ?b then _ else _) => destruct b
    | |- moves _ _ (match ?o with _ => _ end) => destruct o
    | |- moves _ _ (let '(_, _) := ?o in _) => destruct o
    end
  | match goal with |- forall _, _ => intro end
  | progress cbn beta iota zeta ].

(** *** Well-formedness *)

Definition keeps_wf (t t' : tree) : Prop := wf t -> wf t'.
#[local] Instance keeps_wf_pre : PreOrder keeps_wf.
Proof. split; unfold keeps_wf, Reflexive, Transitive; auto. Qed.

Lemma wf_insert_absent t q e n : wf t -> t !! q = Some NDir -> t !! (q ++ [e]) = None -> plain (q ++ [e]) -> wf (<[q ++ [e] := n]> t).
Proof.
  intros Hw Hq Hn Hp. split.
  - rewrite lookup_insert_ne by (by destruct q). apply Hw.
  - intros p m [[<- _]|[_ Hm]]%lookup_insert_Some; [done|by eapply wf_plain].
  - intros p x m Hm. assert (Hne : forall y, t !! y = Some NDir -> <[q ++ [e] := n]> t !! y = Some NDir) by (intros y Hy; by rewrite lookup_insert_ne by congruence).
    apply Hne. apply lookup_insert_Some in Hm as [[E _]|[_ Hm]]; [|by apply (wf_parent _ Hw) in Hm].
    apply app_inj_tail in E as [<- _]. done.
Qed.

Lemma wf_replace_file t p c c' : wf t -> t !! p = Some (NFile c) -> wf (<[p := NFile c']> t).
Proof.
  intros Hw Hp. assert (Hroot : p <> []) by (intros ->; rewrite (wf_root _ Hw) in Hp; done).
  assert (Hd : forall y, t !! y = Some NDir -> <[p := NFile c']> t !! y = Some NDir) by (intros y Hy; by rewrite lookup_insert_ne by congruence).
  split; [by apply Hd, Hw| |].
  - intros q m [[<- _]|[_ Hm]]%lookup_insert_Some; by eapply wf_plain.
  - intros q x m Hm. apply Hd. apply lookup_insert_Some in Hm as [[-> _]|[_ Hm]]; by eapply wf_parent.
Qed.

Lemma wf_put_bytes m p data t : keeps_wf t (put_bytes m p data t).
Proof. intros Hw. unfold put_bytes. destruct (t !! p) as [[]|] eqn:E; [done|by eapply wf_replace_file|done..]. Qed.

Lemma lookup_ok t follow s : wf t -> place_ok t follow (lookup_path t follow s).
Proof. intros Hw. apply walk_ok; [done|apply Hw|apply steps_words]. Qed.

Lemma lookup_in_ok t root follow s : wf t -> t !! root = Some NDir -> place_ok t follow (lookup_in t root follow s).
Proof. intros Hw Hr. apply walk_ok; [done|done|apply steps_words]. Qed.

Lemma open_at_wf trunc r t p t' : wf t -> place_ok t true r -> open_at trunc r t = inr (p, t') -> wf t'.
Proof.
  intros Hw Hr. unfold open_at. destruct r as [|[q [| |]|q]]; try done.
  - intros [= <- <-]. destruct trunc; [|done]. by eapply wf_replace_file; [|apply Hr].
  - intros [= <- <-]. destruct Hr as (Hn & q' & e & -> & Hd & Hp). by apply wf_insert_absent.
Qed.

Lemma Mkdir_wf s : moves keeps_wf (fun _ => True) (Mkdir s).
Proof.
  apply moves_change; [apply _|]. intros t [] t' Ht. split; [|done]. intros Hw. pose proof (lookup_ok t false s Hw) as Hr. unfold mkdir_at in Ht.
  destruct (lookup_path t false s) as [|[|p]]; simplify_eq. destruct Hr as (Hn & q & e & -> & Hd & Hp). by apply wf_insert_absent.
Qed.

Lemma MkdirAll_moves (R : tree -> tree -> Prop) `{!PreOrder R} s : (forall s, moves R (fun _ => True) (Mkdir s)) -> moves R (fun _ => True) (MkdirAll s).
Proof.
  intros Hm. unfold MkdirAll. generalize (reverse (elements s)). intros r. induction r as [|e r IH]; cbn [mkdirAll]; repeat moves_step; try apply Hm; try apply IH.
Qed.

Lemma OpenFile_wf trunc s : moves keeps_wf (fun _ => True) (OpenFile trunc s).
Proof.
  apply moves_change; [apply _|]. intros t p t' Ht. split; [|done]. intros Hw. eapply open_at_wf; [done|by apply lookup_ok|done].
Qed.

Lemma OpenExcl_wf s : moves keeps_wf (fun _ => True) (OpenExcl s).
Proof.
  apply moves_change; [apply _|]. intros t p t' Ht. split; [|done]. intros Hw. pose proof (lookup_ok t false s Hw) as Hr.
  destruct (lookup_path t false s) as [|[|q]]; simplify_eq. destruct Hr as (Hn & q' & e & -> & Hd & Hp). by apply wf_insert_absent.
Qed.

Lemma Write_wf m name p data : moves keeps_wf (fun _ => True) (Write m name p data).
Proof. apply moves_sys; [intros t; split; [apply wf_put_bytes|done]|intros f t; apply wf_put_bytes]. Qed.

Lemma Copy_wf name dst src : moves keeps_wf (fun _ => True) (Copy name dst src).
Proof. apply moves_sys; [|intros f t; apply wf_put_bytes]. intros t. destruct (t !! src) as [[]|]; (split; [|done]); try done. apply wf_put_bytes. Qed.

Lemma elem_of_children t p e : e ∈ children t p <-> is_Some (t !! (p ++ [e])).
Proof.
  unfold children. rewrite merge_sort_Permutation, list_elem_of_omap. split.
  - intros ([k n] & Hk & He). apply elem_of_map_to_list in Hk. simpl in He. destruct (reverse k) as [|x r] eqn:E; [done|].
    destruct (decide (reverse r = p)) as [<-|]; simplify_eq. apply (f_equal reverse) in E. rewrite reverse_involutive, reverse_cons in E. subst k. by exists n.
  - intros [n Hn]. exists (p ++ [e], n). split; [by apply elem_of_map_to_list|]. simpl. rewrite reverse_snoc, decide_True by apply reverse_involutive. done.
Qed.

Lemma no_children t p e : has_children t p = false -> t !! (p ++ [e]) = None.
Proof.
  unfold has_children. destruct (children t p) eqn:E; [|done]. intros _. destruct (t !! (p ++ [e])) eqn:Hn; [|done].
  assert (Hin : e ∈ children t p) by (apply elem_of_children; eauto). rewrite E in Hin. by apply not_elem_of_nil in Hin.
Qed.

Lemma wf_delete t p : wf t -> p <> [] -> (forall e, t !! (p ++ [e]) = None) -> wf (delete p t).
Proof.
  intros Hw Hp Hc. split.
  - rewrite lookup_delete_ne by done. apply Hw.
  - intros q n [_ Hq]%lookup_delete_Some. by eapply wf_plain.
  - intros q e n [_ Hq]%lookup_delete_Some. rewrite lookup_delete_ne; [by apply (wf_parent _ Hw) in Hq|]. intros ->. by rewrite Hc in Hq.
Qed.

Lemma Remove_wf s : moves keeps_wf (fun _ => True) (Remove s).
Proof.
  apply moves_change; [apply _|]. intros t [] t' Ht. split; [|done]. intros Hw. pose proof (lookup_ok t false s Hw) as Hr.
  destruct (lookup_path t false s) as [|[p n|]]; simplify_eq/=. destruct Hr as [Hp _].
  destruct (decide (p = [])); [done|]. destruct (decide (n = NDir /\ has_children t p = true)) as [|Hno]; [done|]. simplify_eq.
  apply wf_delete; [done..|]. intros e. destruct (decide (n = NDir)) as [->|Hn].
  - apply no_children. apply not_true_is_false. tauto.
  - destruct (t !! (p ++ [e])) eqn:E; [|done]. apply (wf_parent _ Hw) in E. congruence.
Qed.

Lemma remove_below_Some t p kept q n : remove_below t p kept !! q = Some n <-> t !! q = Some n /\ ~ gone t p kept q.
Proof. unfold remove_below. by rewrite map_lookup_filter_Some. Qed.

Lemma remove_below_wf t p kept : keeps_wf t (remove_below t p kept).
Proof.
  intros Hw. split.
  - apply remove_below_Some. split; [apply Hw|]. by intros [? _].
  - intros q n [Hq _]%remove_below_Some. by eapply wf_plain.
  - intros q e n [Hq Hk]%remove_below_Some. apply remove_below_Some. split; [by apply (wf_parent _ Hw) in Hq|]. intros (Hne & Hpre & Hall). apply Hk.
    split_and!; [by destruct q|by apply prefix_app_r|]. eapply Forall_impl; [exact Hall|]. intros [x m] Hx Hxe. apply Hx. etrans; [|exact Hxe]. by apply prefix_app_r.
Qed.

Lemma RemoveAll_wf s : moves keeps_wf (fun _ => True) (RemoveAll s).
Proof.
  apply moves_sys.
  - intros t. split; [|by destruct (lookup_path t false s) as [[]|[]]; try destruct (decide _)].
    destruct (lookup_path t false s) as [[]|[]]; simpl; try done; apply remove_below_wf.
  - intros f t. destruct (lookup_path t false s) as [|[]]; try done. apply remove_below_wf.
Qed.

Lemma move_Some t p q x n : (forall s m, t !! (q ++ s) = Some m -> s = []) -> ~ p `prefix_of` q ->
  move p q t !! x = Some n <-> (exists s, x = q ++ s /\ t !! (p ++ s) = Some n) \/ (~ p `prefix_of` x /\ x <> q /\ t !! x = Some n).
Proof.
  intros Hq Hpq. unfold move. set (f := fun kv => _ : option (path * node)).
  assert (Hf : forall y m, (y, m) ∈ omap f (map_to_list t) <-> (exists s, y = q ++ s /\ t !! (p ++ s) = Some m) \/ (~ p `prefix_of` y /\ y <> q /\ t !! y = Some m)).
  { intros y m. rewrite list_elem_of_omap. split.
    - intros ([k n'] & Hk & Hy). apply elem_of_map_to_list in Hk. simpl in Hy. destruct (decide (p `prefix_of` k)) as [[s ->]|Hn]; simplify_eq.
      + left. exists s. by rewrite drop_app_length.
      + destruct (decide (k = q)); simplify_eq. by right.
    - intros [(s & -> & Hs)|(H1 & H2 & H3)].
      + exists (p ++ s, m). split; [by apply elem_of_map_to_list|]. simpl. rewrite decide_True by (by apply prefix_app_r). by rewrite drop_app_length.
      + exists (y, m). split; [by apply elem_of_map_to_list|]. simpl. by rewrite !decide_False. }
  rewrite <- Hf. split; [apply elem_of_list_to_map_2|]. intros Hin. apply elem_of_list_to_map_1'; [|done]. intros n' Hin'.
  apply Hf in Hin, Hin'. destruct Hin as [(s & -> & Hs)|(H1 & H2 & H3)], Hin' as [(s' & E & Hs')|(H1' & H2' & H3')].
  - apply app_inv_head in E. congruence.
  - apply Hq in H3' as ->. by rewrite app_nil_r in H2'.
  - subst x. apply Hq in H3 as ->. by rewrite app_nil_r in H2.
  - congruence.
Qed.

(** Where a rename puts something: a name in a directory that is free or no directory. *)
Definition spot (t : tree) (q : path) : Prop := exists d e, q = d ++ [e] /\ t !! d = Some NDir /\ plain q /\ t !! q <> Some NDir.

Lemma spot_below t q s m : wf t -> spot t q -> t !! (q ++ s) = Some m -> s = [].
Proof. intros Hw (d & e & _ & _ & _ & Hq) Hs. destruct s as [|x s]; [done|]. destruct Hq. by eapply wf_prefix. Qed.

Lemma spot_not_under t p n q : wf t -> spot t q -> t !! p = Some n -> p <> q -> ~ (n = NDir /\ p `prefix_of` q) -> ~ p `prefix_of` q.
Proof.
  intros Hw (d & e & -> & Hd & _) Hp Hne Hno Hpre. apply Hno. split; [|done]. destruct Hpre as [k E]. destruct k as [|x k _] using rev_ind; [by rewrite app_nil_r in E|].
  rewrite (assoc_L (++)) in E. apply app_inj_tail in E as [-> _]. destruct k as [|y k]; [rewrite app_nil_r in Hd; congruence|].
  apply (wf_prefix _ _ _ _ Hw) in Hd; [congruence|done].
Qed.

Lemma move_wf t p q n : wf t -> spot t q -> t !! p = Some n -> p <> [] -> ~ p `prefix_of` q -> wf (move p q t).
Proof.
  intros Hw Hs Hp Hp0 Hpq. pose proof Hs as (d & e & Eq & Hd & Hplain & Hq). assert (Hm := fun x n => move_Some t p q x n (fun s m => spot_below t q s m Hw Hs) Hpq). split.
  - apply Hm. right. split_and!; [intros [k E]; by destruct p|by rewrite Eq; destruct d|apply Hw].
  - intros x m [(s & -> & Hx)|(_ & _ & Hx)]%Hm; [|by eapply wf_plain]. apply (wf_plain _ Hw) in Hx. apply Forall_app in Hx as [_ Hx]. by apply Forall_app.
  - intros x y m [(s & E & Hx)|(H1 & _ & Hx)]%Hm; apply Hm.
    + destruct s as [|z s _] using rev_ind.
      * rewrite app_nil_r, Eq in E. apply app_inj_tail in E as [-> _]. right. split_and!; [|intros E; rewrite Eq in E; by apply (f_equal length) in E; rewrite length_app in E; simpl in E; lia|done].
        intros Hpd. apply Hpq. rewrite Eq. by apply prefix_app_r.
      * rewrite (assoc_L (++)) in E, Hx. apply app_inj_tail in E as [-> _]. left. exists s. split; [done|]. by apply (wf_parent _ Hw) in Hx.
    + right. apply (wf_parent _ Hw) in Hx. split_and!; [|congruence|done]. intros Hpx. apply H1. by apply prefix_app_r.
Qed.

(** What a rename that succeeds did. *)
Lemma rename_inv old new t t' : wf t -> rename_at (bool_decide (new = old)) (lookup_path t false old) (lookup_path t false new) t = inr (tt, t') ->
  exists p n, lookup_path t false old = inr (At p n) /\ t !! p = Some n /\
    ((t' = t /\ exists m, lookup_path t false new = inr (At p m)) \/
     exists q, (exists r, lookup_path t false new = inr r /\ place_at r = q) /\ spot t q /\ p <> [] /\ ~ p `prefix_of` q /\ t' = move p q t).
Proof.
  intros Hw. unfold rename_at. pose proof (lookup_ok t false old Hw) as Ho. pose proof (lookup_ok t false new Hw) as Hn.
  destruct (lookup_path t false old) as [|[p n|]]; [done| |done]. simpl. destruct Ho as [Hp _]. intros Hres. exists p, n. split_and!; [done..|].
  assert (Hover : forall q free, spot t q -> (exists r, lookup_path t false new = inr r /\ place_at r = q) -> (p = q -> exists m, lookup_path t false new = inr (At q m)) -> rename_over p n q free t = inr (tt, t') ->
    (t' = t /\ exists m, lookup_path t false new = inr (At p m)) \/
     exists q, (exists r, lookup_path t false new = inr r /\ place_at r = q) /\ spot t q /\ p <> [] /\ ~ p `prefix_of` q /\ t' = move p q t).
  { intros q free Hsp Hl Hm. unfold rename_over. destruct (decide (p = [])); [done|]. destruct (decide _); [done|]. destruct (decide (p = q)) as [->|Hne]; [intros [= <-]; left; by split; [|apply Hm]|].
    destruct (decide (n = NDir /\ p `prefix_of` q)) as [|Hno]; [done|]. destruct (decide _); [done|]. intros [= <-]. right. exists q. split_and!; try done. by eapply spot_not_under. }
  destruct (lookup_path t false new) as [|[q m|q]] eqn:E; [done| |].
  - destruct Hn as [Hq _]. assert (Hsp : m <> NDir -> spot t q).
    { intros Hm. destruct q as [|e d _] using rev_ind; [by rewrite (wf_root _ Hw) in Hq; simplify_eq|]. exists d, e. split_and!; [done|by eapply wf_parent|by eapply wf_plain|congruence]. }
    destruct m as [| |]; [|eapply Hover; try done; [by apply Hsp|by eexists|by eexists]..].
    destruct (bool_decide (new = old) || negb (bool_decide (p = q))) eqn:Eb; [done|]. apply orb_false_iff in Eb as [_ Eb%negb_false_iff%bool_decide_eq_true]. subst q.
    injection Hres as <-. left. split; [done|by eexists].
  - destruct Hn as (Hq & d & e & -> & Hd & Hpl). eapply Hover; [| | |exact Hres]; [|by eexists|intros ->; congruence]. exists d, e. split_and!; try done. congruence.
Qed.

Lemma Rename_wf old new : moves keeps_wf (fun _ => True) (Rename old new).
Proof.
  apply moves_change; [apply _|]. intros t [] t' Ht. split; [|done]. intros Hw. destruct (rename_inv _ _ _ _ Hw Ht) as (p & n & _ & Hp & [[-> _]|(q & _ & Hs & Hp0 & Hpq & ->)]); [done|].
  by eapply move_wf.
Qed.

(** *** The handlers *)

Create HintDb moves.
#[local] Hint Resolve Mkdir_wf OpenFile_wf OpenExcl_wf Write_wf Copy_wf Remove_wf RemoveAll_wf Rename_wf : moves.

Lemma MkdirAll_wf s : moves keeps_wf (fun _ => True) (MkdirAll s).
Proof. apply MkdirAll_moves; [apply _|apply Mkdir_wf]. Qed.
#[local] Hint Resolve MkdirAll_wf : moves.

Ltac solve_moves := repeat first [ solve [eauto with moves nocore] | moves_step ].

Lemma copyFile_wf src dest : moves keeps_wf (fun _ => True) (copyFile src dest).
Proof. unfold copyFile. solve_moves. Qed.
#[local] Hint Resolve copyFile_wf : moves.

Lemma copyDir_wf fuel src dest : moves keeps_wf (fun _ => True) (copyDir fuel src dest).
Proof.
  revert src dest. induction fuel as [|k IH]; intros src dest; cbn [copyDir]; solve_moves.
  match goal with |- moves _ _ (copy_entries _ _ _ ?l) => induction l as [|[name n] l IHl] end; cbn [copy_entries]; solve_moves.
Qed.
#[local] Hint Resolve copyDir_wf : moves.

Lemma walkDir_moves (R : tree -> tree -> Prop) `{!PreOrder R} fuel resolved extension path d : moves R (fun _ => True) (walkDir fuel resolved extension path d).
Proof.
  revert path d. induction fuel as [|k IH]; intros path d; cbn [walkDir]; unfold visit; solve_moves.
  all: match goal with |- moves _ _ (_ ?l) => generalize l end; intros l; induction l as [|[] l IHl]; solve_moves.
Qed.

Lemma list_entries_moves (R : tree -> tree -> Prop) `{!PreOrder R} resolved extension l : moves R (fun _ => True) (list_entries resolved extension l).
Proof. induction l as [|[name n] l IH]; cbn [list_entries]; solve_moves. Qed.

(** Below a directory: it stays one, and nothing else changes. *)
Definition keeps_below (root : path) (t t' : tree) : Prop :=
  (forall q, ~ root `prefix_of` q -> t' !! q = t !! q) /\ (wf t -> t !! root = Some NDir -> wf t' /\ t' !! root = Some NDir).
#[local] Instance keeps_below_pre root : PreOrder (keeps_below root).
Proof.
  split; [by intros t; split|]. intros t1 t2 t3 [A1 A2] [B1 B2]. split; [intros q Hq; rewrite B1, A1 by done; done|]. intros Hw Hr. destruct (A2 Hw Hr). by apply B2.
Qed.

Lemma put_bytes_below root m p data t : root `prefix_of` p -> keeps_below root t (put_bytes m p data t).
Proof.
  intros Hp. split.
  - intros q Hq. unfold put_bytes. destruct (t !! p) as [[]|]; try done. rewrite lookup_insert_ne; [done|]. by intros ->.
  - intros Hw Hr. split; [by apply wf_put_bytes|]. unfold put_bytes. destruct (t !! p) as [[]|] eqn:E; try done. rewrite lookup_insert_ne; [done|]. congruence.
Qed.

Lemma RootOpenFile_below root name : moves (keeps_below root) (fun p => root `prefix_of` p) (RootOpenFile root name).
Proof.
  apply moves_change; [apply _|]. intros t p t' Ht. destruct (lookup_in t root true name) as [|r] eqn:E; [done|]. unfold lookup_in in E.
  assert (Hr : root `prefix_of` place_at r) by (by eapply walk_confined). assert (Hp : place_at r = p) by (unfold open_at in Ht; destruct r as [? []|]; by simplify_eq).
  rewrite Hp in Hr. split; [|done]. split.
  - intros q Hq. assert (Hne : p <> q) by (by intros ->). unfold open_at in Ht. destruct r as [? []|]; simplify_eq; by rewrite lookup_insert_ne.
  - intros Hw Hd. pose proof (lookup_in_ok t root true name Hw Hd) as Hok. unfold lookup_in in Hok. rewrite E in Hok. split; [by eapply open_at_wf|].
    unfold open_at in Ht. destruct r as [? []|]; simplify_eq/=; destruct Hok as [Hok _]; rewrite lookup_insert_ne; try done; congruence.
Qed.

Lemma RootMkdirAll_below root name : moves (keeps_below root) (fun _ => True) (RootMkdirAll root name).
Proof.
  unfold RootMkdirAll. generalize (@nil string). generalize (steps name). intros todo. induction todo as [|e todo IH]; intros made; cbn [rootMkdirAll]; [moves_step|].
  apply moves_then; [apply _| |intros _; apply IH]. apply moves_change; [apply _|]. intros t [] t' Ht. split; [|done]. unfold lookup_in in Ht.
  destruct (walk maxLinks t (Some root) true root _) as [|[p [| |]|p]] eqn:E; simplify_eq; [done|]. destruct (walk maxLinks t (Some root) false root _) as [|[|p']] eqn:E'; simplify_eq.
  assert (Hp : root `prefix_of` p) by (by apply (walk_confined _ _ _ _ _ _ _ (reflexivity root)) in E). split.
  - intros q Hq. rewrite lookup_insert_ne; [done|]. by intros ->.
  - intros Hw Hd. pose proof (walk_ok maxLinks t (Some root) true root (steps (join (made ++ [e]))) Hw Hd (steps_words _)) as Hok. rewrite E in Hok. destruct Hok as (Hn & q & x & -> & Hq & Hpl).
    split; [by apply wf_insert_absent|]. rewrite lookup_insert_ne; [done|]. congruence.
Qed.

Lemma writeArchiveFile_below root name content broken : moves (keeps_below root) (fun _ => True) (writeArchiveFile root name content broken).
Proof.
  unfold writeArchiveFile. apply moves_then; [apply _| |intros _].
  - destruct (decide _); [moves_step|]. apply moves_then; [apply _|apply moves_attempt; apply RootMkdirAll_below|]. intros [e|[]]; [moves_step|moves_step].
  - eapply moves_bind with (V := fun p => root `prefix_of` p); [apply _|..].
    + eapply moves_bind; [apply _|apply moves_try, RootOpenFile_below|]. intros [e|p] Hp; [moves_step|moves_step].
    + intros p Hp. apply moves_then; [apply _|apply moves_attempt|intros r; solve_moves].
      apply moves_sys; [intros t; split; [by apply put_bytes_below|done]|intros f t; by apply put_bytes_below].
Qed.

Lemma unpack_below quoted root s res : moves (keeps_below root) (fun _ => True) (unpack quoted root s res).
Proof.
  revert res. induction s as [[text|]|text|h content broken rest IH]; intros res; cbn [unpack]; solve_moves; first [apply RootMkdirAll_below|apply writeArchiveFile_below].
Qed.

(** *** What is found after a change *)

(** More nodes do not change what was found. *)
Lemma walk_mono links t t' floor follow cur todo p n : t ⊆ t' -> walk links t floor follow cur todo = inr (At p n) -> walk links t' floor follow cur todo = inr (At p n).
Proof.
  intros Hsub. revert cur todo. induction links as [|k IHk]; intros cur todo; revert cur; induction todo as [|e todo IH]; intros cur; cbn [walk]; try done.
  all: destruct (decide (e = "..")); [destruct (decide (floor = Some cur)); [done|apply IH]|]; destruct (t !! (cur ++ [e])) as [m|] eqn:E; [|by destruct todo];
    rewrite (lookup_weaken _ _ _ _ E Hsub); destruct m as [| |target]; [apply IH|done|destruct (decide _); try done].
  destruct (IsAbs target); [destruct floor; [done|]|]; apply IHk.
Qed.

(** A file put where nothing or a file was found is what is found there. *)
Lemma walk_put links t floor follow cur todo r c : walk links t floor follow cur todo = inr r -> (forall n, r = At (place_at r) n -> exists c', n = NFile c') ->
  t !! place_at r = match r with At _ n => Some n | Absent _ => None end ->
  walk links (<[place_at r := NFile c]> t) floor follow cur todo = inr (At (place_at r) (NFile c)).
Proof.
  intros Hr Hf Ht. assert (Hne : forall q m, t !! q = Some m -> (forall c', m <> NFile c') -> <[place_at r := NFile c]> t !! q = Some m).
  { intros q m Hq Hm. rewrite lookup_insert_ne; [done|]. intros <-. rewrite Ht in Hq. destruct r as [p n|]; simplify_eq. destruct (Hf m eq_refl) as [c' ->]. by destruct (Hm c'). }
  revert cur todo Hr. induction links as [|k IHk]; intros cur todo; revert cur; induction todo as [|e todo IH]; intros cur; cbn [walk];
    try (intros [= <-]; destruct (Hf NDir eq_refl) as [? ?]; done).
  all: destruct (decide (e = "..")); [destruct (decide (floor = Some cur)); [done|apply IH]|]; destruct (t !! (cur ++ [e])) as [m|] eqn:E;
    [|destruct todo; [intros [= <-]; simpl; by rewrite lookup_insert_eq|done]];
    (destruct m as [|c'|target]; [rewrite (Hne _ _ E) by done; apply IH|destruct todo; [intros [= <-]; simpl; by rewrite lookup_insert_eq|done]|rewrite (Hne _ _ E) by done]);
    (destruct (decide (todo = [] /\ follow = false)); [intros [= <-]; by destruct (Hf (NLink target) eq_refl)|]).
  - done.
  - destruct (IsAbs target); [destruct floor; [done|]|]; apply IHk.
Qed.

Lemma open_at_put trunc r t p t' : place_ok t true (inr r) -> open_at trunc (inr r) t = inr (p, t') ->
  place_at r = p /\ (forall n, r = At (place_at r) n -> exists c', n = NFile c') /\ t !! place_at r = (match r with At _ n => Some n | Absent _ => None end) /\
  exists c, t' = <[p := NFile c]> t /\ c = (if trunc then [] else file_at t p).
Proof.
  intros Hr. unfold open_at. destruct r as [q [|c|]|q]; simpl in *; intros [= <- <-].
  - split_and!; [done|intros n [= <-]; eauto|apply Hr|]. destruct Hr as [Hq _]. destruct trunc; [by exists []|]. exists c. rewrite insert_id by done. unfold file_at. by rewrite Hq.
  - split_and!; [done|done|apply Hr|]. exists []. split; [done|]. destruct trunc; [done|]. unfold file_at. by rewrite (proj1 Hr).
Qed.

Lemma put_put m p c data t : put_bytes m p data (<[p := NFile c]> t) = <[p := NFile (written m c data)]> t.
Proof. unfold put_bytes. by rewrite lookup_insert_eq, insert_insert_eq. Qed.

(** What is written to an empty file is all it holds. *)
Lemma put_empty p data t : put_bytes FromStart p data (<[p := NFile []]> t) = <[p := NFile data]> t.
Proof. rewrite put_put. simpl. by rewrite drop_nil, app_nil_r. Qed.

(** Directories are added, nothing else. *)
Definition adds_dirs (t t' : tree) : Prop := t ⊆ t' /\ forall q n, t' !! q = Some n -> t !! q = Some n \/ n = NDir.
#[export] Instance adds_dirs_pre : PreOrder adds_dirs.
Proof.
  split; [intros t; split; auto|]. intros t1 t2 t3 [A1 A2] [B1 B2]. split; [by etrans|]. intros q n Hq. destruct (B2 _ _ Hq) as [Hq'|]; [|by right]. by apply A2.
Qed.

Lemma adds_dirs_insert t p : t !! p = None -> adds_dirs t (<[p := NDir]> t).
Proof. intros Hp. split; [by apply insert_subseteq|]. intros q n [[_ <-]|[_ Hq]]%lookup_insert_Some; auto. Qed.

Definition grows (t t' : tree) : Prop := wf t -> wf t' /\ adds_dirs t t'.
#[export] Instance grows_pre : PreOrder grows.
Proof. split; [by intros t Hw|]. intros t1 t2 t3 A B Hw. destruct (A Hw) as [Hw2 ?]. destruct (B Hw2). split; [done|by etrans]. Qed.

Lemma Mkdir_grows s : moves grows (fun _ => True) (Mkdir s).
Proof.
  apply moves_change; [apply _|]. intros t [] t' Ht. split; [|done]. intros Hw. pose proof (lookup_ok t false s Hw) as Hr. unfold mkdir_at in Ht.
  destruct (lookup_path t false s) as [|[|p]]; simplify_eq. destruct Hr as (Hn & q & e & -> & Hd & Hp). split; [by apply wf_insert_absent|by apply adds_dirs_insert].
Qed.

Lemma MkdirAll_grows s : moves grows (fun _ => True) (MkdirAll s).
Proof. apply MkdirAll_moves; [apply _|apply Mkdir_grows]. Qed.


Lemma RootMkdirAll_grows root name : moves (fun t t' => wf t -> t !! root = Some NDir -> (wf t' /\ t' !! root = Some NDir) /\ adds_dirs t t') (fun _ => True) (RootMkdirAll root name).
Proof.
  assert (Hpre : PreOrder (fun t t' => wf t -> t !! root = Some NDir -> (wf t' /\ t' !! root = Some NDir) /\ adds_dirs t t')).
  { split; [by intros t Hw Hd|]. intros t1 t2 t3 A B Hw Hd. destruct (A Hw Hd) as [[Hw2 Hd2] ?]. destruct (B Hw2 Hd2). split; [done|by etrans]. }
  unfold RootMkdirAll. generalize (@nil string). generalize (steps name). intros todo. induction todo as [|e todo IH]; intros made; cbn [rootMkdirAll]; [moves_step|].
  apply moves_then; [apply _| |intros _; apply IH]. apply moves_change; [apply _|]. intros t [] t' Ht. split; [|done]. intros Hw Hd.
  pose proof (lookup_in_ok t root true (join (made ++ [e])) Hw Hd) as Hok. destruct (lookup_in t root true _) as [|[p [| |]|p]] eqn:E; simplify_eq; [done|].
  destruct (lookup_in t root false _) as [|[|p']]; simplify_eq. destruct Hok as (Hn & q & x & -> & Hq & Hpl).
  split; [|by apply adds_dirs_insert]. split; [by apply wf_insert_absent|]. rewrite lookup_insert_ne; [done|]. congruence.
Qed.

(** *** Unpacking an archive *)

Fixpoint files_of (s : tar_stream) : list (string * list ascii) :=
  match s with
  | TEntry h content _ rest => (if decide (h_Typeflag h = TypeReg) then [(h_Name h, content)] else []) ++ files_of rest
  | _ => []
  end.

(** An archive without anything the route refuses. *)
Fixpoint acceptable (s : tar_stream) : Prop :=
  match s with
  | TEnd footer => footer = None
  | TBad _ => False
  | TEntry h _ broken rest =>
      (h_Typeflag h = TypeXGlobalHeader \/
       (IsLocal (h_Name h) = true /\ ".." ∉ Split (h_Name h) /\ Forall (fun key => HasPrefix key "GNU.sparse." = false) (h_PAXRecords h) /\
        (h_Typeflag h = TypeDir \/ (h_Typeflag h = TypeReg /\ broken = None)))) /\ acceptable rest
  end.

Lemma writeArchiveFile_ok root name content broken w n w' : writeArchiveFile root name content broken w = (inr n, w') -> wf (fs w) -> fs w !! root = Some NDir ->
  broken = None /\ n = Z.of_nat (length content) /\ exists p, lookup_in (fs w') root true name = inr (At p (NFile content)).
Proof.
  intros Hrun Hw Hd. unfold writeArchiveFile in Hrun.
  set (mk := if decide (Dir name = ".") then ret tt else _) in Hrun.
  assert (Hmk : wf (fs (snd (mk w))) /\ fs (snd (mk w)) !! root = Some NDir).
  { subst mk. destruct (decide _); [done|]. unfold bind, try. pose proof (RootMkdirAll_below root (Dir name) w) as [[_ Hk] _]. destruct (RootMkdirAll root (Dir name) w) as [[e|[]] w1]; by apply Hk. }
  unfold bind at 1 in Hrun. destruct (mk w) as [[e|[]] w1]; [done|]. simpl in Hmk. destruct Hmk as [Hw1 Hd1]. clear mk Hw Hd w.
  unfold bind at 1, try at 1 in Hrun. unfold bind at 1 in Hrun. unfold RootOpenFile, change, sys in Hrun. destruct (fault (calls w1)); [done|].
  pose proof (lookup_in_ok (fs w1) root true name Hw1 Hd1) as Hok. destruct (lookup_in (fs w1) root true name) as [e|r] eqn:El; [done|].
  destruct (open_at true (inr r) (fs w1)) as [e|[p t2]] eqn:Eo; [done|]. destruct (open_at_put _ _ _ _ _ Hok Eo) as (Hr & Hf & Ht & c & -> & ->). cbn in Hrun.
  unfold bind, try, Write, sys in Hrun. cbn in Hrun. destruct (fault (S (calls w1))); [by destruct (Close _ _) as [[]]|]. cbn in Hrun. rewrite put_empty in Hrun.
  unfold Close, query, sys in Hrun. destruct broken as [text|]; [by destruct (fault _)|]. destruct (fault _); [done|]. cbn in Hrun. unfold ret in Hrun. simplify_eq/=. split_and!; [done..|].
  exists (place_at r). unfold lookup_in in *. by apply walk_put with (r := r).
Qed.

Definition total_size (l : list (string * list ascii)) : Z := foldr (fun f acc => Z.of_nat (length (snd f)) + acc) 0 l.

Lemma unpack_ok quoted root s res w res' w' : unpack quoted root s res w = (inr res', w') -> wf (fs w) -> fs w !! root = Some NDir ->
  acceptable s /\ res' = mkArchiveResult (ar_Files res + Z.of_nat (length (files_of s))) (ar_Bytes res + total_size (files_of s)) /\
  match last (files_of s) with
  | None => adds_dirs (fs w) (fs w')
  | Some (name, content) => exists p, lookup_in (fs w') root true name = inr (At p (NFile content))
  end.
Proof.
  revert res w. induction s as [[text|]|text|h content broken rest IH]; intros res w; cbn [unpack]; [done| |done|].
  - intros [= <- <-] Hw Hd. destruct res. simpl. split_and!; [done|f_equal; lia|done].
  - destruct (decide (h_Typeflag h = TypeXGlobalHeader)) as [Hg|Hg].
    { intros Hrun Hw Hd. destruct (IH _ _ Hrun Hw Hd) as (Ha & Hres & Hl). simpl. rewrite decide_False by congruence. split_and!; [by left|done..]. }
    destruct (bad_name (h_Name h)) eqn:Eb; [done|]. destruct (existsb _ _) eqn:Es; [done|].
    assert (Hgood : h_Typeflag h = TypeDir \/ h_Typeflag h = TypeReg /\ broken = None -> acceptable rest -> acceptable (TEntry h content broken rest)).
    { intros Hk Hrest. split; [|done]. right. unfold bad_name in Eb. apply orb_false_iff in Eb as [E1 E2%bool_decide_eq_false]. split_and!; [by apply negb_false_iff in E1|done| |done].
      apply Forall_forall. intros key Hkey. apply not_true_is_false. intros Hp. 
      assert (Hx : existsb (fun key => HasPrefix key "GNU.sparse.") (h_PAXRecords h) = true) by (apply existsb_exists; exists key; split; [by apply list_elem_of_In|done]). congruence. }
    destruct (h_Typeflag h) eqn:Ht; [|..]; try done; intros Hrun Hw Hd.
    + unfold bind at 1, try in Hrun. pose proof (writeArchiveFile_below root (h_Name h) content broken w) as [[_ Hk] _].
      destruct (writeArchiveFile root (h_Name h) content broken w) as [[[b text]|n] w1] eqn:Ew; [done|]. destruct (Hk Hw Hd) as [Hw1 Hd1].
      destruct (writeArchiveFile_ok _ _ _ _ _ _ _ Ew Hw Hd) as (-> & -> & p & Hp). destruct (IH _ _ Hrun Hw1 Hd1) as (Ha & -> & Hl). cbn [files_of]. rewrite decide_True by done.
      split_and!; [apply Hgood; auto|simpl; f_equal; lia|]. cbn [app]. destruct (files_of rest) as [|f l] eqn:Ef; [|rewrite last_cons_cons; destruct (last (f :: l)) as [[]|] eqn:El; [exact Hl|by apply last_None in El]]. simpl. exists p.
      unfold lookup_in in *. eapply walk_mono; [apply Hl|done].
    + unfold or_fail, bind, try in Hrun. pose proof (RootMkdirAll_grows root (h_Name h) w) as [Hk _]. destruct (RootMkdirAll root (h_Name h) w) as [[e|[]] w1]; [done|].
      destruct (Hk Hw Hd) as [[Hw1 Hd1] Hadd]. destruct (IH _ _ Hrun Hw1 Hd1) as (Ha & -> & Hl). cbn [files_of]. rewrite decide_False by congruence. cbn [app].
      split_and!; [apply Hgood; auto|done|]. destruct (last (files_of rest)) as [[name c]|]; [done|]. simpl in Hadd. by etrans.
Qed.

Lemma HandleFileList_wf fuel path recursive extension : moves keeps_wf (fun _ => True) (HandleFileList fuel path recursive extension).
Proof. unfold HandleFileList. destruct recursive; cbn [negb]; solve_moves; [apply walkDir_moves; apply _|apply list_entries_moves; apply _]. Qed.

Lemma HandleFileRead_wf path maxBytes : moves keeps_wf (fun _ => True) (HandleFileRead path maxBytes).
Proof. unfold HandleFileRead. solve_moves. Qed.

Lemma HandleFileWrite_wf path data maxBytes overwrite : moves keeps_wf (fun _ => True) (HandleFileWrite path data maxBytes overwrite).
Proof. unfold HandleFileWrite, WriteFile. solve_moves. Qed.

Lemma HandleFileAppend_wf path data : moves keeps_wf (fun _ => True) (HandleFileAppend path data).
Proof. unfold HandleFileAppend. solve_moves. Qed.

Lemma HandleFileDelete_wf path recursive force : moves keeps_wf (fun _ => True) (HandleFileDelete path recursive force).
Proof. unfold HandleFileDelete. solve_moves. Qed.

Lemma HandleFileCopy_wf fuel src dest recursive overwrite : moves keeps_wf (fun _ => True) (HandleFileCopy fuel src dest recursive overwrite).
Proof. unfold HandleFileCopy. solve_moves. Qed.

Lemma HandleFileMove_wf fuel src dest overwrite : moves keeps_wf (fun _ => True) (HandleFileMove fuel src dest overwrite).
Proof. unfold HandleFileMove. solve_moves. Qed.

Lemma HandleFileMkdir_wf path recursive : moves keeps_wf (fun _ => True) (HandleFileMkdir path recursive).
Proof. unfold HandleFileMkdir. solve_moves. Qed.

Lemma HandleFileStat_wf path : moves keeps_wf (fun _ => True) (HandleFileStat path).
Proof. unfold HandleFileStat. solve_moves. Qed.
#[local] Hint Resolve HandleFileList_wf HandleFileRead_wf HandleFileWrite_wf HandleFileAppend_wf HandleFileDelete_wf HandleFileCopy_wf HandleFileMove_wf HandleFileMkdir_wf HandleFileStat_wf : moves.

Section archive.
Context (untar : bool -> list ascii -> string + tar_stream) (quoted : string -> string).

Lemma archive_run path body w r w' : wf (fs w) -> HandleFileArchive untar quoted path body w = (r, w') ->
  exists t1, wf t1 /\ adds_dirs (fs w) t1 /\
    ((fs w' = t1 /\ exists e, r = inl e) \/
     exists root s w1, fs w1 = t1 /\ lookup_path t1 true (resolvePath path) = inr (At root NDir) /\ t1 !! root = Some NDir /\ gunzipIfCompressed untar body = inr s /\
       unpack quoted root s (mkArchiveResult 0 0) w1 = (r, w')).
Proof.
  intros Hw. unfold HandleFileArchive. pose proof (MkdirAll_grows (resolvePath path) w) as [Hg _]. unfold bind at 1, or_fail at 1, bind at 1, try at 1.
  destruct (MkdirAll (resolvePath path) w) as [[e|[]] w1]; destruct (Hg Hw) as [Hw1 Hadd]; simpl in *.
  { intros [= <- <-]. exists (fs w1). split_and!; [done..|]. left. eauto. }
  unfold bind at 1, or_fail at 1, bind at 1, try at 1, Open, query, sys. destruct (fault (calls w1)) as [f|].
  { intros [= <- <-]. exists (fs w1). split_and!; [done..|]. left. eauto. }
  pose proof (lookup_ok (fs w1) true (resolvePath path) Hw1) as Hok. destruct (lookup_path (fs w1) true (resolvePath path)) as [e|[root n|p]] eqn:El; simpl;
    [intros [= <- <-]; exists (fs w1); (split_and!; [done..|]); left; eauto| |intros [= <- <-]; exists (fs w1); (split_and!; [done..|]); left; eauto].
  destruct Hok as [Hroot _]. destruct n as [| |]; [|intros [= <- <-]; exists (fs w1); (split_and!; [done..|]); left; eauto..].
  destruct (gunzipIfCompressed untar body) as [text|s]; [intros [= <- <-]; exists (fs w1); (split_and!; [done..|]); left; eauto|].
  intros Hrun. exists (fs w1). split_and!; [done..|]. right. by exists root, s, (mkOs (fs w1) (S (calls w1))).
Qed.

(** C26: Whatever the archive holds, whatever links are in the tree and whichever call fails,
    unpacking first adds directories only (those missing on the way to the target) and from
    then on changes only what is below the directory the target resolved to.  It succeeds only on an archive of
    directories and complete regular files with local names, reports how many there were and
    how many bytes, and leaves the last one written where its name leads. *)
Theorem archive_confined path body w r w' : wf (fs w) -> HandleFileArchive untar quoted path body w = (r, w') ->
  exists t1, adds_dirs (fs w) t1 /\
    ((fs w' = t1 /\ exists e, r = inl e) \/
     exists root s, lookup_path t1 true (resolvePath path) = inr (At root NDir) /\ gunzipIfCompressed untar body = inr s /\
       (forall q, ~ root `prefix_of` q -> fs w' !! q = t1 !! q) /\
       forall res, r = inr res -> acceptable s /\
         res = mkArchiveResult (Z.of_nat (length (files_of s))) (total_size (files_of s)) /\
         forall name content, last (files_of s) = Some (name, content) ->
           exists p, root `prefix_of` p /\ lookup_in (fs w') root true name = inr (At p (NFile content)) /\ fs w' !! p = Some (NFile content)).
Proof.
  intros Hw Hrun. destruct (archive_run _ _ _ _ _ Hw Hrun) as (t1 & Hw1 & Hadd & [Hend|(root & s & w1 & <- & Hl & Hroot & Hs & Hun)]); exists (fs w1) || exists t1; (split; [done|]); [by left|].
  right. exists root, s. pose proof (unpack_below quoted root s (mkArchiveResult 0 0) w1) as [[Hout Hkeep] _]. rewrite Hun in Hout, Hkeep. simpl in Hout, Hkeep. split_and!; [done..|].
  intros res ->. destruct (unpack_ok _ _ _ _ _ _ _ Hun Hw1 Hroot) as (Ha & -> & Hlast). split_and!; [done|done|]. intros name content El. rewrite El in Hlast.
  destruct Hlast as [p Hp]. exists p. destruct (Hkeep Hw1 Hroot) as [Hw' Hd']. pose proof (lookup_in_ok (fs w') root true name Hw' Hd') as Hok. rewrite Hp in Hok.
  split_and!; [|done|apply Hok]. by apply (walk_confined _ _ _ _ _ _ _ (reflexivity root)) in Hp.
Qed.

Lemma HandleFileArchive_wf path body : moves keeps_wf (fun _ => True) (HandleFileArchive untar quoted path body).
Proof.
  intros w. split; [|by destruct (HandleFileArchive untar quoted path body w) as [[]]]. intros Hw. destruct (HandleFileArchive untar quoted path body w) as [r w'] eqn:E.
  destruct (archive_run _ _ _ _ _ Hw E) as (t1 & Hw1 & Hadd & [[<- _]|(root & s & w1 & <- & Hl & Hroot & Hs & Hun)]); [done|].
  pose proof (unpack_below quoted root s (mkArchiveResult 0 0) w1) as [[_ Hkeep] _]. rewrite Hun in Hkeep. by apply Hkeep.
Qed.
#[local] Hint Resolve HandleFileArchive_wf : moves.

(** Every file route keeps the tree well formed, whichever call fails and however much of
    its work was done: nothing is left without its directory or below a file, and every name
    is a proper one. *)
Theorem file_routes_keep_tree fuel r w : wf (fs w) -> wf (fs (snd (serve untar quoted fuel r w))).
Proof.
  assert (Hrun : forall A (m : act os ferr A) k, moves keeps_wf (fun _ => True) m -> wf (fs w) -> wf (fs (snd (answer m k w)))) by (intros A m k Hm; by apply (moves_answer keeps_wf)).
  intros Hw. destruct r as [q|q|q d|q d|q d|q|[e|req]|[e|req]|q|q]; cbn [serve]; unfold get_files, get_content, put_file, post_file, post_archive, delete_file, post_copy, post_move, post_mkdir, get_stat;
    try (destruct (decide _); [exact Hw|]); try (destruct d as [e|d]; [exact Hw|]); first [exact Hw|apply Hrun; [eauto with moves nocore|exact Hw]].
Qed.

End archive.

(** *** Writing and reading back *)

Lemma walk_follow links t floor cur todo r : walk links t floor false cur todo = inr r -> (forall p l, r <> At p (NLink l)) -> walk links t floor true cur todo = inr r.
Proof.
  intros Hr Hl. revert cur todo Hr. induction links as [|k IHk]; intros cur todo; revert cur; induction todo as [|e todo IH]; intros cur; cbn [walk]; try done.
  all: destruct (decide (e = "..")); [destruct (decide (floor = Some cur)); [done|apply IH]|]; destruct (t !! (cur ++ [e])) as [m|]; [|done];
    destruct m as [| |target]; [apply IH|done|];
    (destruct (decide (todo = [] /\ false = false)); [intros [= <-]; by destruct (Hl (cur ++ [e]) target)|]); rewrite decide_False by (intros [_ ?]; done).
  - done.
  - destruct (IsAbs target); [destruct floor; [done|]|]; apply IHk.
Qed.

(** What writing to an opened file did, if anything. *)
Lemma write_run m name p data w r w' : Write m name p data w = (r, w') -> exists d, fs w' = put_bytes m p d (fs w) /\ (r = inr tt -> d = data).
Proof.
  unfold Write, sys. destruct (fault (calls w)) as [f|]; intros [= <- <-]; simpl; [by exists (take (f_count f) data)|by exists data].
Qed.

Lemma close_run name w r w' : Close name w = (r, w') -> fs w' = fs w.
Proof. unfold Close, query, sys. by destruct (fault (calls w)); intros [= <- <-]. Qed.

(** Opening a new file and writing to it, whatever fails. *)
Lemma excl_run s t0 w r w' : adds_dirs t0 (fs w) -> wf (fs w) -> OpenExcl s w = (r, w') ->
  match r with
  | inl _ => fs w' = fs w
  | inr p => fs w !! p = None /\ t0 !! p = None /\ fs w' = <[p := NFile []]> (fs w) /\ forall c, lookup_path (<[p := NFile c]> (fs w)) true s = inr (At p (NFile c))
  end.
Proof.
  intros Hadd Hw. unfold OpenExcl, change, sys. destruct (fault (calls w)); [by intros [= <- <-]|]. pose proof (lookup_ok (fs w) false s Hw) as Hok.
  destruct (lookup_path (fs w) false s) as [e|[q n|p]] eqn:E; intros [= <- <-]; simpl; try done. destruct Hok as (Hn & _). split_and!; [done| |done|].
  - destruct (t0 !! p) eqn:E0; [|done]. by rewrite (lookup_weaken _ _ _ _ E0 (proj1 Hadd)) in Hn.
  - intros c. unfold lookup_path in *. apply walk_follow; [|done]. by apply (walk_put _ _ _ _ _ _ (Absent p)).
Qed.

(** A write that must not overwrite leaves everything there was as it was, whichever
    call fails and however little of the data was written; if it reports success the file is
    new and holds exactly the data; and a file that was there is refused. *)
Theorem write_keeps_existing path data maxBytes w r w' : wf (fs w) -> HandleFileWrite path data maxBytes false w = (r, w') ->
  fs w ⊆ fs w' /\ (r = inr tt -> exists p, fs w !! p = None /\ lookup_path (fs w') true (resolvePath path) = inr (At p (NFile data)) /\ fs w' !! p = Some (NFile data)).
Proof.
  intros Hw. unfold HandleFileWrite. destruct (decide _); [by intros [= <- <-]|]. pose proof (MkdirAll_grows (Dir (resolvePath path)) w) as [Hg _].
  unfold bind at 1, or_fail at 1, bind at 1, try at 1. destruct (MkdirAll (Dir (resolvePath path)) w) as [[e|[]] w1]; destruct (Hg Hw) as [Hw1 Hadd]; simpl in Hw1, Hadd; [by intros [= <- <-]; split; [apply Hadd|]|].
  unfold ret at 1, bind at 1, or_fail at 1, bind at 1, try at 1. destruct (OpenExcl (resolvePath path) w1) as [o w2] eqn:Eo. pose proof (excl_run _ _ _ _ _ Hadd Hw1 Eo) as Hex.
  destruct o as [e|p]; [destruct (decide _); intros [= <- <-]; (split; [rewrite Hex; apply Hadd|done])|]. destruct Hex as (Hn1 & Hn & Ht2 & Hlook). unfold ret at 1, bind at 1, try at 1.
  destruct (Write FromStart (resolvePath path) p data w2) as [o w3] eqn:Ew. destruct (write_run _ _ _ _ _ _ _ Ew) as (d & Ht3 & Hd). rewrite Ht2, put_empty in Ht3.
  assert (Hsub : fs w ⊆ fs w3) by (rewrite Ht3; etrans; [apply Hadd|by apply insert_subseteq]).
  assert (Hclose : forall c w4, Close (resolvePath path) w3 = (c, w4) -> fs w4 = fs w3) by (intros c w4; apply close_run).
  destruct o as [e|[]].
  - unfold bind, try. destruct (Close (resolvePath path) w3) as [c w4] eqn:Ec. intros [= <- <-]. simpl. by rewrite (Hclose _ _ eq_refl).
  - unfold or_fail, bind, try. destruct (Close (resolvePath path) w3) as [c w4] eqn:Ec. pose proof (Hclose _ _ eq_refl) as Hc. destruct c as [e|[]]; intros [= <- <-]; simpl; rewrite Hc; (split; [done|]); [done|].
    intros _. exists p. rewrite Ht3, (Hd eq_refl). split_and!; [done|apply Hlook|apply lookup_insert_eq].
Qed.

Lemma openfile_run trunc s w r w' : wf (fs w) -> OpenFile trunc s w = (r, w') ->
  match r with
  | inl _ => fs w' = fs w
  | inr p => exists c, fs w' = <[p := NFile c]> (fs w) /\ c = (if trunc then [] else file_at (fs w) p) /\
      (forall c', lookup_path (<[p := NFile c']> (fs w)) true s = inr (At p (NFile c'))) /\
      forall q n, lookup_path (fs w) true s = inr (At q n) -> q = p
  end.
Proof.
  intros Hw. unfold OpenFile, change, sys. destruct (fault (calls w)); [by intros [= <- <-]|]. pose proof (lookup_ok (fs w) true s Hw) as Hok.
  destruct (lookup_path (fs w) true s) as [e|r0] eqn:E; [by intros [= <- <-]|]. destruct (open_at trunc (inr r0) (fs w)) as [e|[p t']] eqn:Eo; intros [= <- <-]; [done|].
  destruct (open_at_put _ _ _ _ _ Hok Eo) as (Hr & Hf & Ht & c & -> & ->). exists (if trunc then [] else file_at (fs w) p). split_and!; [done|done| |].
  - intros c'. unfold lookup_path in *. rewrite <- Hr. by apply walk_put with (r := r0).
  - intros q n [= ->]. done.
Qed.

(** A write that reports success. *)
Lemma write_found path data maxBytes overwrite w w' : wf (fs w) -> HandleFileWrite path data maxBytes overwrite w = (inr tt, w') ->
  wf (fs w') /\ exists p, lookup_path (fs w') true (resolvePath path) = inr (At p (NFile data)).
Proof.
  intros Hw Hrun. pose proof (HandleFileWrite_wf path data maxBytes overwrite w) as [Hkeep _]. rewrite Hrun in Hkeep. split; [by apply Hkeep|].
  destruct overwrite; [|destruct (write_keeps_existing _ _ _ _ _ _ Hw Hrun) as [_ Hok]; destruct (Hok eq_refl) as (p & _ & Hp & _); by exists p].
  unfold HandleFileWrite in Hrun. destruct (decide _); [done|]. pose proof (MkdirAll_grows (Dir (resolvePath path)) w) as [Hg _].
  unfold bind at 1, or_fail at 1, bind at 1, try at 1 in Hrun. destruct (MkdirAll (Dir (resolvePath path)) w) as [[e|[]] w1]; [done|]. destruct (Hg Hw) as [Hw1 _]. simpl in Hw1.
  unfold ret at 1, or_fail, WriteFile, try in Hrun. unfold bind at 1 2 in Hrun. destruct (OpenFile true (resolvePath path) w1) as [[e|p] w2] eqn:Eo; [done|].
  destruct (openfile_run _ _ _ _ _ Hw1 Eo) as (c & Ht2 & -> & Hlook & _). unfold bind in Hrun. destruct (Write FromStart (resolvePath path) p data w2) as [o w3] eqn:Ew.
  destruct (write_run _ _ _ _ _ _ _ Ew) as (d & Ht3 & Hd). destruct (Close (resolvePath path) w3) as [c w4] eqn:Ec. pose proof (close_run _ _ _ _ Ec) as Hc.
  destruct o as [e|[]], c as [e'|[]]; try done. injection Hrun as <-. exists p. rewrite Hc, Ht3, Ht2, put_empty, (Hd eq_refl). apply Hlook.
Qed.

Lemma append_found path data w w' p c : wf (fs w) -> lookup_path (fs w) true (resolvePath path) = inr (At p (NFile c)) -> HandleFileAppend path data w = (inr tt, w') ->
  lookup_path (fs w') true (resolvePath path) = inr (At p (NFile (c ++ data))).
Proof.
  intros Hw Hl Hrun. unfold HandleFileAppend in Hrun. pose proof (MkdirAll_grows (Dir (resolvePath path)) w) as [Hg _].
  unfold bind at 1, or_fail at 1, bind at 1, try at 1 in Hrun. destruct (MkdirAll (Dir (resolvePath path)) w) as [[e|[]] w1]; [done|]. destruct (Hg Hw) as [Hw1 Hadd]. simpl in Hw1, Hadd.
  unfold ret at 1, bind at 1, or_fail at 1, bind at 1, try at 1 in Hrun. destruct (OpenFile false (resolvePath path) w1) as [[e|q] w2] eqn:Eo; [done|].
  destruct (openfile_run _ _ _ _ _ Hw1 Eo) as (c0 & Ht2 & -> & Hlook & Hsame). unfold lookup_path in Hl. pose proof (walk_mono _ _ _ _ _ _ _ _ _ (proj1 Hadd) Hl) as Hl1. pose proof (Hsame _ _ Hl1) as <-.
  pose proof (lookup_ok (fs w1) true (resolvePath path) Hw1) as Hok. unfold lookup_path in Hok. rewrite Hl1 in Hok. destruct Hok as [Hp _].
  unfold ret at 1, or_fail, bind, try in Hrun. destruct (Write AtEnd (resolvePath path) p data w2) as [[e|[]] w3] eqn:Ew; [done|]. injection Hrun as <-.
  destruct (write_run _ _ _ _ _ _ _ Ew) as (d & -> & Hd). rewrite Ht2, put_put, (Hd eq_refl). unfold file_at. rewrite Hp. apply Hlook.
Qed.

Lemma read_found path maxBytes w p c : wf (fs w) -> lookup_path (fs w) true (resolvePath path) = inr (At p (NFile c)) -> (forall n, (calls w <= n)%nat -> fault n = None) ->
  fst (HandleFileRead path maxBytes w) =
    if decide (maxBytes > 0 /\ Z.of_nat (length c) > maxBytes)
    then inl (plainErr ("file_read: file size " +:+ Files.itoa (Z.of_nat (length c)) +:+ " exceeds limit " +:+ Files.itoa maxBytes)) else inr c.
Proof.
  intros Hw Hl Hf. pose proof (lookup_ok (fs w) true (resolvePath path) Hw) as Hok. rewrite Hl in Hok. destruct Hok as [Hp _].
  unfold HandleFileRead, or_fail, bind, try, Open, query, sys, ret. rewrite Hf by lia. rewrite Hl. cbn beta iota zeta delta [existing calls fs].
  assert (Hread : forall k, (calls w <= k)%nat -> ReadAll (resolvePath path) p (mkOs (fs w) k) = (inr c, mkOs (fs w) (S k))).
  { intros k Hk. unfold ReadAll, query, sys. cbn [calls fs]. rewrite Hf by lia. by rewrite Hp. }
  destruct (decide (maxBytes > 0)) as [Hm|Hm].
  - cbn [calls]. rewrite Hf by lia. cbn beta iota zeta delta [size_of fs calls]. destruct (decide (Z.of_nat (length c) > maxBytes)); [by rewrite (decide_True (P := maxBytes > 0 /\ _))|]. rewrite (decide_False (P := maxBytes > 0 /\ _)) by lia.
    destruct (decide (Z.of_nat (length c) = 0)) as [Hz|]; [by destruct c|]. by rewrite Hread by lia.
  - rewrite (decide_False (P := maxBytes > 0 /\ _)) by lia. by rewrite Hread by lia.
Qed.

(** C38: What was written, and then appended, is what a read returns, byte for byte, whether or
    not the write replaced something and whatever links the path goes through; a limit on the
    read refuses it exactly if it is longer. *)
Theorem write_append_read path data more maxW overwrite maxR w w1 w2 : wf (fs w) ->
  HandleFileWrite path data maxW overwrite w = (inr tt, w1) -> HandleFileAppend path more w1 = (inr tt, w2) -> (forall n, (calls w2 <= n)%nat -> fault n = None) ->
  fst (HandleFileRead path maxR w2) =
    if decide (maxR > 0 /\ Z.of_nat (length (data ++ more)) > maxR)
    then inl (plainErr ("file_read: file size " +:+ Files.itoa (Z.of_nat (length (data ++ more))) +:+ " exceeds limit " +:+ Files.itoa maxR)) else inr (data ++ more).
Proof.
  intros Hw H1 H2 Hf. destruct (write_found _ _ _ _ _ _ Hw H1) as (Hw1 & p & Hp). pose proof (append_found _ _ _ _ _ _ Hw1 Hp H2) as Hp2.
  eapply read_found; [|exact Hp2|exact Hf]. pose proof (HandleFileAppend_wf path more w1) as [Hk _]. rewrite H2 in Hk. by apply Hk.
Qed.
End handlers.

(** ** Runs *)

Lemma wf_checked (t : tree) : t !! [] = Some NDir ->
  Forall (fun kv => plain (fst kv) /\ (fst kv = [] \/ t !! parent (fst kv) = Some NDir)) (map_to_list t) -> wf t.
Proof.
  intros H0 Hall. rewrite Forall_forall in Hall. split; [done| |].
  - intros p n Hp%elem_of_map_to_list. by apply Hall in Hp as [? _].
  - intros p e n Hp%elem_of_map_to_list. apply Hall in Hp as [_ [Hnil|Hd]]; simpl in *; [by destruct p|]. by rewrite parent_snoc in Hd.
Qed.

#[export] Instance plain_elem_dec e : Decision (plain_elem e).
Proof. unfold plain_elem. apply _. Defined.
#[export] Instance plain_dec l : Decision (plain l).
Proof. unfold plain. apply _. Defined.

Lemma wf_home : wf (fs home).
Proof. apply wf_checked; [done|]. apply (bool_decide_unpack _). vm_compute. exact I. Qed.

(** An archive with a directory and a file in it, unpacked through a link. *)
Definition packed (z : bool) (body : list ascii) : string + tar_stream :=
  inr (TEntry (mkHeader "sub/" TypeDir []) [] None (TEntry (mkHeader "sub/x" TypeReg []) (chars "abc") None (TEnd None))).

Lemma archive_confined_witness : exists r w', HandleFileArchive (H := calm) packed (fun s => s) "/link" [] home = (r, w') /\
  exists t1, adds_dirs (fs home) t1 /\ ((fs w' = t1 /\ exists e, r = inl e) \/ r = inr (mkArchiveResult 1 3)).
Proof.
  destruct (HandleFileArchive (H := calm) packed (fun s => s) "/link" [] home) as [r w'] eqn:E. exists r, w'. split; [done|].
  destruct (archive_confined (H := calm) packed (fun s => s) "/link" [] home r w' wf_home E) as (t1 & Hadd & [Hend|(root & s & Hl & Hs & _ & Hok)]); exists t1; (split; [done|]); [by left|].
  right. injection Hs as <-. destruct r as [e|res]; [vm_compute in E; congruence|]. by destruct (Hok res eq_refl) as (_ & -> & _).
Defined.

Lemma file_routes_keep_tree_witness : wf (fs (snd (serve (H := calm) packed (fun s => s) 5 (PostMove (inr (mkMoveRequest "/d" "/e/d2" false))) home))).
Proof. apply (file_routes_keep_tree (H := calm)). exact wf_home. Defined.

(** A disk that is full after three bytes. *)
Definition full : Host := Build_Host (fun n => if decide (n = 3)%nat then Some (mkFailure "no space left on device" 3 (fun _ => false)) else None) 40%nat (fun _ => 0%nat) 4096.

Lemma write_keeps_existing_witness : exists r w', HandleFileWrite (H := full) "/link/g" (chars "data") 0 false home = (r, w') /\ fs home ⊆ fs w'.
Proof.
  destruct (HandleFileWrite (H := full) "/link/g" (chars "data") 0 false home) as [r w'] eqn:E. exists r, w'. split; [done|].
  by destruct (write_keeps_existing (H := full) _ _ _ _ _ _ wf_home E).
Defined.

Lemma write_append_read_witness : let w1 := snd (HandleFileWrite (H := calm) "/link/f" (chars "new") 0 true home) in
  let w2 := snd (HandleFileAppend (H := calm) "/link/f" (chars "er") w1) in
  fst (HandleFileRead (H := calm) "/link/f" 0 w2) = inr (chars "newer").
Proof.
  refine (write_append_read (H := calm) "/link/f" (chars "new") (chars "er") 0 true 0 home _ _ wf_home _ _ _); [| |done].
  - vm_compute. reflexivity.
  - vm_compute. reflexivity.
Defined.
End FilesInv.
