(* ===== verification/FilesCopy.v ===== *)
(** * Copying and moving directories

    [copyDir] reads a tree while it writes one.  For paths without links on the way: it
    terminates, whatever fails it changes nothing there was, and if it succeeds the copy is
    complete; a move never loses a file, also when it falls back to copying and removing. *)

From S2P Require Import Prelude.
From S2P Require Import GoStrings.
From S2P Require Import Paths.
From S2P Require Import Fs.
From S2P Require Import Files.
From S2P Require Import FilesInv.

Module FilesCopy.
Import GoStrings Paths Fs Files FilesInv.

(** No link on the way to [d], nor there. *)
Definition direct (t : tree) (d : path) : Prop := forall p l, p `prefix_of` d -> t !! p <> Some (NLink l).

Lemma direct_adds t t' d : direct t d -> adds_dirs t t' -> direct t' d.
Proof. intros Hd [_ Ha] p l Hp Hl. apply Ha in Hl as [Hl|]; [|done]. by eapply Hd. Qed.

Lemma direct_prefix t d d' : direct t d -> d' `prefix_of` d -> direct t d'.
Proof. intros Hd Hp p l Hpd. apply Hd. by etrans. Qed.

Lemma walk_none links t floor follow cur todo : plain todo -> (forall p l, p `prefix_of` todo -> t !! (cur ++ p) <> Some (NLink l)) -> todo <> [] -> t !! (cur ++ todo) = None ->
  (exists e, walk links t floor follow cur todo = inl e) \/ walk links t floor follow cur todo = inr (Absent (cur ++ todo)).
Proof.
  intros Hp. revert cur. induction Hp as [|e todo (_ & _ & He & _) Hp IH]; intros cur Hl Hne Hn; [done|].
  assert (Hstep : cur ++ e :: todo = (cur ++ [e]) ++ todo) by (by rewrite <- (assoc_L (++))). rewrite Hstep in *.
  assert (Hlink : forall l, t !! (cur ++ [e]) <> Some (NLink l)) by (intros l; apply Hl; apply prefix_cons, prefix_nil).
  assert (Hnil : todo = [] -> t !! (cur ++ [e]) = None) by (intros ->; by rewrite app_nil_r in Hn).
  assert (Hgo : t !! (cur ++ [e]) = Some NDir -> (exists x, walk links t floor follow (cur ++ [e]) todo = inl x) \/ walk links t floor follow (cur ++ [e]) todo = inr (Absent ((cur ++ [e]) ++ todo))).
  { intros Hdir. apply IH; [|by intros E; rewrite (Hnil E) in Hdir|done]. intros p l Hpre. rewrite <- (assoc_L (++)). apply Hl. by apply prefix_cons. }
  destruct links; cbn [walk]; (rewrite decide_False by done);
    (destruct (t !! (cur ++ [e])) as [[|c|l]|] eqn:E; [by apply Hgo| |by destruct (Hlink l)|]);
    (destruct todo as [|x todo]; [first [by specialize (Hnil eq_refl)|right; by rewrite app_nil_r]|by left; eauto]).
Qed.

Section copy.
Context `{Host}.

(** What looking up a path without links finds. *)
Lemma lookup_direct t follow d : wf t -> plain d -> direct t d ->
  match t !! d with
  | Some n => lookup_path t follow (abs d) = inr (At d n)
  | None => (exists e, lookup_path t follow (abs d) = inl e) \/ lookup_path t follow (abs d) = inr (Absent d)
  end.
Proof.
  intros Hw Hp Hd. unfold lookup_path. rewrite steps_abs by done. destruct (t !! d) as [n|] eqn:E.
  - apply (walk_existing _ _ _ _ [] d); [done..| |].
    + intros ->. rewrite (wf_root _ Hw) in E. congruence.
    + intros l ->. exfalso. by eapply Hd.
  - apply (walk_none _ _ _ _ [] d); [done| | |done].
    + intros p l Hpre. by apply Hd.
    + intros ->. rewrite (wf_root _ Hw) in E. done.
Qed.

Lemma query_run {A} (op name : string) (work : tree -> errno + A) w r w' : query op name work w = (r, w') -> fs w' = fs w /\ forall a, r = inr a -> work (fs w) = inr a.
Proof.
  unfold query, sys. destruct (fault (calls w)); [by intros [= <- <-]|]. destruct (work (fs w)) as [e|a]; intros [= <- <-]; (split; [done|]); [done|congruence].
Qed.

Lemma change_run {A} (op name : string) (work : tree -> errno + A * tree) w r w' : change op name work w = (r, w') ->
  match r with inl _ => fs w' = fs w | inr a => work (fs w) = inr (a, fs w') end.
Proof.
  unfold change, sys. destruct (fault (calls w)); [by intros [= <- <-]|]. destruct (work (fs w)) as [e|[a t]] eqn:E; intros [= <- <-]; by simpl.
Qed.

Lemma stat_run s d w r w' : wf (fs w) -> plain d -> direct (fs w) d -> s = abs d -> Stat s w = (r, w') \/ Lstat s w = (r, w') ->
  fs w' = fs w /\ forall n, r = inr n -> fs w !! d = Some n.
Proof.
  intros Hw Hp Hd -> Hrun. assert (Hr : fs w' = fs w /\ forall n, r = inr n -> exists follow, existing (lookup_path (fs w) follow (abs d)) = inr (d, n)).
  { destruct Hrun as [Hrun|Hrun]; destruct (query_run _ _ _ _ _ _ Hrun) as [-> Hq]; (split; [done|]); intros n Hn; specialize (Hq n Hn);
      [exists true|exists false]; (pose proof (lookup_direct (fs w) true d Hw Hp Hd); pose proof (lookup_direct (fs w) false d Hw Hp Hd));
      destruct (fs w !! d) as [m|]; repeat match goal with H : _ \/ _ |- _ => destruct H as [[? H]|H] | H : lookup_path _ _ _ = _ |- _ => rewrite H in * end; simpl in *; congruence. }
  destruct Hr as [-> Hr]. split; [done|]. intros n Hn. destruct (Hr n Hn) as [follow Hf]. pose proof (lookup_direct (fs w) follow d Hw Hp Hd) as Hl.
  destruct (fs w !! d) as [m|]; [rewrite Hl in Hf; simpl in Hf; congruence|]. destruct Hl as [[e Hl]|Hl]; by rewrite Hl in Hf.
Qed.

Lemma mkdirAll_abs r : plain (reverse r) -> mkdirAll r = MkdirAll (abs (reverse r)).
Proof. intros Hp. unfold MkdirAll. by rewrite elements_abs, reverse_involutive. Qed.

(** The last step of [MkdirAll]. *)
Lemma mkdir_last d w res w' : wf (fs w) -> plain d -> direct (fs w) d ->
  (let! made := try (Mkdir (abs d)) in
   match made with inr _ => ret tt | inl e => let! st := try (Lstat (abs d)) in match st with inr NDir => ret tt | _ => exit e end end)%act w = (res, w') ->
  (forall q, fs w !! q = None -> fs w' !! q <> None -> q `prefix_of` d) /\ (res = inr tt -> fs w' !! d = Some NDir).
Proof.
  intros Hw Hp Hd. unfold bind at 1, try at 1. destruct (Mkdir (abs d) w) as [o w1] eqn:Em. pose proof (change_run _ _ _ _ _ _ Em) as Hm. destruct o as [e|[]].
  - unfold bind, try. destruct (Lstat (abs d) w1) as [st w2] eqn:El. rewrite <- Hm in Hw, Hd |- *. destruct (stat_run (abs d) d w1 st w2 Hw Hp Hd eq_refl (or_intror El)) as [E Hn].
    destruct st as [e'|[| |]]; intros [= <- <-]; rewrite E; (split; [congruence|]); try done. intros _. by apply Hn.
  - intros [= <- <-]. unfold mkdir_at in Hm. pose proof (lookup_direct (fs w) false d Hw Hp Hd) as Hl. destruct (fs w !! d) as [n|]; [by rewrite Hl in Hm|].
    destruct Hl as [[e Hl]|Hl]; rewrite Hl in Hm; [done|]. injection Hm as <-. split; [|intros _; apply lookup_insert_eq].
    intros q Hq Hq'. destruct (decide (q = d)) as [->|Hne]; [done|]. by rewrite lookup_insert_ne in Hq'.
Qed.

Lemma mkdirAll_new r w res w' : wf (fs w) -> plain (reverse r) -> direct (fs w) (reverse r) -> mkdirAll r w = (res, w') ->
  (forall q, fs w !! q = None -> fs w' !! q <> None -> q `prefix_of` reverse r) /\ (res = inr tt -> fs w' !! reverse r = Some NDir).
Proof.
  revert w res w'. induction r as [|e r IH]; intros w res w' Hw Hp Hd; cbn [mkdirAll]; unfold bind at 1, try at 1;
    (destruct (Stat _ w) as [st w1] eqn:Es; destruct (stat_run _ _ w st w1 Hw Hp Hd eq_refl (or_introl Es)) as [E Hst]);
    (destruct st as [x|[| |]]; [|intros [= <- <-]; rewrite E; (split; [congruence|]); first [done|intros _; by apply Hst]..]).
  - rewrite <- E in Hw, Hd |- *. unfold bind at 1, ret at 1. by apply mkdir_last.
  - rewrite <- E in Hw, Hd |- *. clear w Es Hst E. destruct r as [|y r'].
    { unfold bind at 1, ret at 1. by apply mkdir_last. }
    assert (Hpre : reverse (y :: r') `prefix_of` reverse (e :: y :: r')) by (rewrite (reverse_cons (y :: r') e); by apply prefix_app_r).
    assert (Hp' : plain (reverse (y :: r'))) by (rewrite reverse_cons in Hp; by apply Forall_app in Hp as [? _]).
    unfold bind at 1. destruct (mkdirAll (y :: r') w1) as [o w2] eqn:Em. destruct (IH _ _ _ Hw Hp' (direct_prefix _ _ _ Hd Hpre) Em) as [Hnew _].
    rewrite mkdirAll_abs in Em by done. pose proof (MkdirAll_grows (abs (reverse (y :: r'))) w1) as [Hg _]. rewrite Em in Hg. destruct (Hg Hw) as [Hw2 Hadd]. simpl in Hw2, Hadd.
    destruct o as [x'|[]]; [intros [= <- <-]; split; [intros q Hq Hq'; etrans; [by apply Hnew|done]|done]|].
    intros Hrun. destruct (mkdir_last _ _ _ _ Hw2 Hp (direct_adds _ _ _ Hd Hadd) Hrun) as [Hnew2 Hok]. split; [|done].
    intros q Hq Hq'. destruct (fs w2 !! q) eqn:Eq; [etrans; [apply Hnew; congruence|done]|by apply Hnew2].
Qed.

(** Only directories on the way to [d] are made, and [d] is there if it succeeds. *)
Lemma mkdirAll_run d w res w' : wf (fs w) -> plain d -> direct (fs w) d -> MkdirAll (abs d) w = (res, w') ->
  wf (fs w') /\ adds_dirs (fs w) (fs w') /\ (forall q, fs w !! q = None -> fs w' !! q <> None -> q `prefix_of` d) /\ (res = inr tt -> fs w' !! d = Some NDir).
Proof.
  intros Hw Hp Hd Hrun. pose proof (MkdirAll_grows (abs d) w) as [Hg _]. rewrite Hrun in Hg. destruct (Hg Hw) as [Hw' Hadd]. simpl in Hw', Hadd.
  unfold MkdirAll in Hrun. rewrite elements_abs in Hrun by done. apply mkdirAll_new in Hrun; by rewrite ?reverse_involutive in *.
Qed.

(** *** One file *)

Lemma copy_run name dst src w r w' : Copy name dst src w = (r, w') ->
  exists d, fs w' = put_bytes FromStart dst d (fs w) /\ (r = inr tt -> fs w !! src = Some (NFile d)).
Proof.
  unfold Copy, sys. destruct (fault (calls w)) as [f|]; [intros [= <- <-]; simpl; by eexists|]. destruct (fs w !! src) as [[|c|]|] eqn:E; intros [= <- <-]; simpl; [|by exists c|..];
    exists []; (split; [|done]); unfold put_bytes; destruct (fs w !! dst) as [[|c|]|] eqn:Ed; try done; simpl; by rewrite insert_id.
Qed.

Lemma open_run s w r w' : wf (fs w) -> plain s -> Open (abs s) w = (r, w') -> fs w' = fs w /\ forall p n, r = inr (p, n) -> forall c, fs w !! s = Some (NFile c) -> p = s.
Proof.
  intros Hw Hp Hrun. destruct (query_run _ _ _ _ _ _ Hrun) as [-> Hq]. split; [done|]. intros p n Hr c Hc. specialize (Hq _ Hr). unfold lookup_path in Hq. rewrite steps_abs in Hq by done.
  rewrite (walk_existing _ _ _ _ [] s (NFile c)) in Hq; [by injection Hq|done..| |done]. intros ->. rewrite (wf_root _ Hw) in Hc. congruence.
Qed.

(** [d] is new: whatever fails, only [d] and directories on the way to it are. *)
Lemma copyFile_run s D x w r w' : wf (fs w) -> plain (D ++ [x]) -> direct (fs w) (D ++ [x]) -> fs w !! (D ++ [x]) = None -> plain s ->
  copyFile (abs s) (abs (D ++ [x])) w = (r, w') ->
  wf (fs w') /\ fs w ⊆ fs w' /\ (forall q, fs w !! q = None -> fs w' !! q <> None -> q `prefix_of` D ++ [x]) /\
  (r = inr tt -> exists c, fs w' !! (D ++ [x]) = Some (NFile c) /\ forall c0, fs w !! s = Some (NFile c0) -> c = c0).
Proof.
  intros Hw Hp Hd Hn Hs Hrun. pose proof (copyFile_wf (abs s) (abs (D ++ [x])) w) as [Hk _]. rewrite Hrun in Hk. split; [by apply Hk|]. clear Hk.
  assert (HD : plain D) by (by apply Forall_app in Hp as [? _]). assert (Hpre : D `prefix_of` D ++ [x]) by (by apply prefix_app_r).
  unfold copyFile in Hrun. rewrite Dir_abs in Hrun by done. unfold bind at 1 in Hrun. destruct (MkdirAll (abs D) w) as [o w1] eqn:Em.
  destruct (mkdirAll_run _ _ _ _ Hw HD (direct_prefix _ _ _ Hd Hpre) Em) as (Hw1 & Hadd & Hnew & Hdir).
  assert (Hn1 : fs w1 !! (D ++ [x]) = None).
  { destruct (fs w1 !! (D ++ [x])) eqn:E; [|done]. assert (Hl : D ++ [x] `prefix_of` D) by (apply Hnew; congruence). apply prefix_length in Hl. rewrite length_app in Hl. simpl in Hl. lia. }
  assert (Hbase : fs w ⊆ fs w1 /\ forall q, fs w !! q = None -> fs w1 !! q <> None -> q `prefix_of` D ++ [x]) by (split; [apply Hadd|intros q H1 H2; etrans; [by apply Hnew|done]]).
  assert (Hput : forall c, fs w ⊆ <[D ++ [x] := NFile c]> (fs w1) /\ forall q, fs w !! q = None -> <[D ++ [x] := NFile c]> (fs w1) !! q <> None -> q `prefix_of` D ++ [x]).
  { intros c. split; [etrans; [apply Hadd|by apply insert_subseteq]|]. intros q H1 H2. destruct (decide (q = D ++ [x])) as [->|Hne]; [done|]. rewrite lookup_insert_ne in H2 by done. by apply Hbase. }
  destruct o as [e|[]]; [injection Hrun as <- <-; by split_and!; [apply Hbase..|]|].
  unfold bind at 1 in Hrun. destruct (Open (abs s) w1) as [o w2] eqn:Eo. destruct (open_run _ _ _ _ Hw1 Hs Eo) as [E2 Hopen].
  destruct o as [e|[ps n]]; [injection Hrun as <- <-; rewrite E2; by split_and!; [apply Hbase..|]|].
  unfold bind at 1 in Hrun. destruct (query "stat" _ _ w2) as [o w3] eqn:Eq. destruct (query_run _ _ _ _ _ _ Eq) as [E3 _]. rewrite E2 in E3.
  destruct o as [e|[]]; [injection Hrun as <- <-; rewrite E3; by split_and!; [apply Hbase..|]|].
  unfold bind at 1 in Hrun. destruct (OpenFile true _ w3) as [o w4] eqn:Ef. pose proof (change_run _ _ _ _ _ _ Ef) as Hf.
  destruct o as [e|pd]; [injection Hrun as <- <-; rewrite Hf, E3; by split_and!; [apply Hbase..|]|].
  rewrite E3 in Hf. pose proof (lookup_direct (fs w1) true _ Hw1 Hp (direct_adds _ _ _ Hd Hadd)) as Hl. rewrite Hn1 in Hl. destruct Hl as [[e Hl]|Hl]; rewrite Hl in Hf; [done|]. injection Hf as <- E4. symmetry in E4.
  unfold bind, try in Hrun. destruct (Copy _ _ _ w4) as [o w5] eqn:Ec. destruct (copy_run _ _ _ _ _ _ Ec) as (c & E5 & Hc). rewrite E4, put_empty in E5.
  destruct (Close (abs (D ++ [x])) w5) as [oc w6] eqn:Ex. pose proof (close_run _ _ _ _ Ex) as E6.
  destruct o as [e|[]]; cbn beta in Hrun; rewrite Ex in Hrun; injection Hrun as <- <-; rewrite E6, E5; [by split_and!; [apply Hput..|]|]. split_and!; [apply Hput..|].
  intros ->. exists c. split; [apply lookup_insert_eq|]. intros c0 Hc0. assert (Hc1 : fs w1 !! s = Some (NFile c0)) by (eapply lookup_weaken; [done|apply Hadd]).
  specialize (Hc eq_refl). rewrite E4 in Hc. simpl in Hc. rewrite (Hopen ps n eq_refl c0 Hc1) in Hc. rewrite lookup_insert_ne in Hc by congruence. rewrite Hc1 in Hc. by injection Hc.
Qed.

(** *** Calls are never cut off *)

Definition no_cut {A} (m : act os oserr A) : Prop := forall w, match fst (m w) with inl e => e_no e <> EFuel | inr _ => True end.

Lemma no_cut_ret {A} (a : A) : no_cut (ret a).
Proof. by intros w. Qed.

Lemma no_cut_exit {A} e : e_no e <> EFuel -> no_cut (exit (A := A) e).
Proof. by intros He w. Qed.

Lemma no_cut_bind {A B} (m : act os oserr A) (k : A -> act os oserr B) : no_cut m -> (forall a, no_cut (k a)) -> no_cut (bind m k).
Proof. intros Hm Hk w. unfold bind. specialize (Hm w). destruct (m w) as [[e|a] w1]; [done|apply Hk]. Qed.

(** The error of an attempt may be passed on. *)
Lemma no_cut_try {A B} (m : act os oserr A) (k : oserr + A -> act os oserr B) : no_cut m -> (forall r, match r with inl e => e_no e <> EFuel | inr _ => True end -> no_cut (k r)) ->
  no_cut (bind (try m) k).
Proof. intros Hm Hk w. unfold bind, try. specialize (Hm w). destruct (m w) as [r w1]. by apply Hk. Qed.

Lemma no_cut_sys {A} (op name : string) (work : tree -> (errno + A) * tree) partly : (forall t e, fst (work t) = inl e -> e <> EFuel) -> no_cut (sys op name work partly).
Proof.
  intros Hw w. unfold sys. destruct (fault (calls w)); [done|]. specialize (Hw (fs w)). destruct (work (fs w)) as [[e|a] t]; [|done]. by apply Hw.
Qed.

Lemma walk_errs links t floor follow cur todo e : walk links t floor follow cur todo = inl e -> e <> EFuel.
Proof.
  revert cur todo. induction links as [|k IHk]; intros cur todo; revert cur; induction todo as [|x todo IH]; intros cur; cbn [walk]; try done.
  all: destruct (decide (x = "..")); [destruct (decide (floor = Some cur)); [congruence|apply IH]|]; destruct (t !! (cur ++ [x])) as [[| |target]|]; [apply IH|destruct todo; congruence| |destruct todo; congruence];
    (destruct (decide _); [congruence|]); try congruence.
  destruct (IsAbs target); [destruct floor; [congruence|]|]; apply IHk.
Qed.

Lemma existing_errs t follow s e : existing (lookup_path t follow s) = inl e -> e <> EFuel.
Proof. unfold existing. destruct (lookup_path t follow s) as [x|[]] eqn:E; [|congruence..]. intros [= ->]. by eapply walk_errs. Qed.

Lemma Stat_no_cut s : no_cut (Stat s).
Proof. apply no_cut_sys. intros t e. simpl. destruct (existing (lookup_path t true s)) as [x|[]] eqn:E; [intros [= ->]; by eapply existing_errs|done]. Qed.

Lemma Lstat_no_cut s : no_cut (Lstat s).
Proof. apply no_cut_sys. intros t e. simpl. destruct (existing (lookup_path t false s)) as [x|[]] eqn:E; [intros [= ->]; by eapply existing_errs|done]. Qed.

Lemma Mkdir_no_cut s : no_cut (Mkdir s).
Proof. apply no_cut_sys. intros t e. unfold mkdir_at. destruct (lookup_path t false s) as [x|[]] eqn:E; simpl; [intros [= <-]; by eapply walk_errs|congruence|done]. Qed.

Lemma MkdirAll_no_cut s : no_cut (MkdirAll s).
Proof.
  assert (Hend : forall s e, e_no e <> EFuel -> no_cut (let! st := try (Lstat s) in match st with inr NDir => ret tt | _ => exit e end)%act).
  { intros s' e He. apply no_cut_try; [apply Lstat_no_cut|]. intros [z|[| |]] _; by first [apply no_cut_ret|apply no_cut_exit]. }
  unfold MkdirAll. generalize (reverse (elements s)). intros r. induction r as [|e r IH]; cbn [mkdirAll]; (apply no_cut_try; [apply Stat_no_cut|]); intros [x|[| |]] _;
    try (by apply no_cut_ret); try (by apply no_cut_exit); (apply no_cut_bind; [first [apply no_cut_ret|destruct r; [apply no_cut_ret|apply IH]]|]); intros _;
    (apply no_cut_try; [apply Mkdir_no_cut|]); (intros [y|[]] Hy; [by apply Hend|apply no_cut_ret]).
Qed.

Lemma ReadDir_no_cut s : no_cut (ReadDir s).
Proof.
  intros w. unfold ReadDir, bind, ReadDir_partial. destruct (existing (lookup_path (fs w) true s)) as [x|[p [| |]]] eqn:E; simpl; [by eapply existing_errs| |done..]. by destruct (fault (calls w)).
Qed.

Lemma copyFile_no_cut src dest : no_cut (copyFile src dest).
Proof.
  unfold copyFile. apply no_cut_bind; [apply MkdirAll_no_cut|]. intros _. apply no_cut_bind; [apply no_cut_sys; intros t e; apply existing_errs|]. intros [ps n].
  apply no_cut_bind; [by apply no_cut_sys|]. intros _. apply no_cut_bind.
  - apply no_cut_sys. intros t e. unfold open_at. destruct (lookup_path t true dest) as [x|[p [| |]|]] eqn:E; simpl; try congruence. intros [= <-]. by eapply walk_errs.
  - intros d. apply no_cut_try.
    + apply no_cut_sys. intros t e. destruct (t !! (ps, n).1) as [[]|]; simpl; congruence.
    + intros [e|[]] He; [apply no_cut_try; [by apply no_cut_sys|]; intros r _; by apply no_cut_exit|by apply no_cut_sys].
Qed.

(** *** A directory *)

(** What the copy of a node is; of a link, a file. *)
Definition image (n o : option node) : Prop :=
  match n with
  | None => o = None
  | Some (NLink _) => exists c, o = Some (NFile c)
  | Some n => o = Some n
  end.

(** [t'] has below [D] a copy of what [t] has below [S]. *)
Definition copied (t : tree) (S D : path) (t' : tree) : Prop := forall p, image (t !! (S ++ p)) (t' !! (D ++ p)).

(** Nothing there was is changed, and what is new is at, below or on the way to [D]. *)
Definition fresh_at (D : path) (t t' : tree) : Prop :=
  wf t' /\ t ⊆ t' /\ forall q, t !! q = None -> t' !! q <> None -> q `prefix_of` D \/ D `prefix_of` q.

(** [copyDir] of directories less deep than [k]. *)
Definition copies (k : nat) (copy : string -> string -> act os oserr unit) : Prop := forall S D w r w',
  wf (fs w) -> fs w !! S = Some NDir -> plain D -> fs w !! D = None -> direct (fs w) D -> ~ S `prefix_of` D -> (forall p, fs w !! (S ++ p) <> None -> (length p < k)%nat) ->
  copy (abs S) (abs D) w = (r, w') ->
  fresh_at D (fs w) (fs w') /\ (forall e, r = inl e -> e_no e <> EFuel) /\ (r = inr tt -> copied (fs w) S D (fs w')).

Lemma copyFile_copies S D e n w r w' : wf (fs w) -> fs w !! S = Some n -> n <> NDir -> plain (D ++ [e]) -> direct (fs w) (D ++ [e]) -> fs w !! (D ++ [e]) = None ->
  copyFile (abs S) (abs (D ++ [e])) w = (r, w') ->
  fresh_at (D ++ [e]) (fs w) (fs w') /\ (forall x, r = inl x -> e_no x <> EFuel) /\ (r = inr tt -> copied (fs w) S (D ++ [e]) (fs w')).
Proof.
  intros Hw HS Hn Hp Hd Hnone Hrun. assert (HpS : plain S) by (by eapply wf_plain). destruct (copyFile_run _ _ _ _ _ _ Hw Hp Hd Hnone HpS Hrun) as (Hw' & Hsub & Hnew & Hok). split_and!.
  - split_and!; [done..|]. intros q H1 H2. left. by apply Hnew.
  - intros x ->. pose proof (copyFile_no_cut (abs S) (abs (D ++ [e])) w) as Hc. by rewrite Hrun in Hc.
  - intros Hr. destruct (Hok Hr) as (c & Hc & Hsame). intros p. destruct p as [|y p].
    + rewrite !app_nil_r, HS, Hc. destruct n as [| c0 |]; simpl; [done| |by eexists]. by rewrite (Hsame c0).
    + destruct (fs w !! (S ++ y :: p)) eqn:E; [apply (wf_prefix _ _ _ _ Hw) in E; [congruence|done]|]. simpl.
      destruct (fs w' !! ((D ++ [e]) ++ y :: p)) eqn:E'; [apply (wf_prefix _ _ _ _ Hw') in E'; [congruence|done]|done].
Qed.

Lemma prefix_snoc_inv (p D : path) e : p `prefix_of` D ++ [e] -> p `prefix_of` D \/ p = D ++ [e].
Proof.
  intros [k E]. destruct k as [|x k _] using rev_ind; [right; by rewrite app_nil_r in E|]. left. rewrite (assoc_L (++)) in E. apply app_inj_tail in E as [-> _]. by apply prefix_app_r.
Qed.

(** Paths that do not lie below one another have nothing below them in common. *)
Lemma apart (S D q : path) : ~ S `prefix_of` D -> ~ D `prefix_of` S -> S `prefix_of` q -> D `prefix_of` q -> False.
Proof. intros H1 H2 H3 H4. destruct (prefix_weak_total _ _ _ H3 H4); tauto. Qed.

(** The loop: from [tb], where [D] is an empty directory. *)
Lemma copy_entries_run k sub S D tb l w r w' : copies k sub -> plain S -> plain D -> ~ S `prefix_of` D -> ~ D `prefix_of` S ->
  Forall (fun en => tb !! (S ++ [fst en]) = Some (snd en)) l -> NoDup (fst <$> l) -> (forall p, tb !! (S ++ p) <> None -> (length p < Datatypes.S k)%nat) ->
  wf (fs w) -> fs w !! D = Some NDir -> (forall q, S `prefix_of` q -> fs w !! q = tb !! q) -> Forall (fun en => fs w !! (D ++ [fst en]) = None) l ->
  copy_entries sub (abs S) (abs D) l w = (r, w') ->
  wf (fs w') /\ fs w ⊆ fs w' /\ (forall q, fs w !! q = None -> fs w' !! q <> None -> exists en, en ∈ l /\ D ++ [fst en] `prefix_of` q) /\
  (forall e, r = inl e -> e_no e <> EFuel) /\ (r = inr tt -> Forall (fun en => copied tb (S ++ [fst en]) (D ++ [fst en]) (fs w')) l).
Proof.
  intros Hsub HS HD Hsd Hds. revert w r w'. induction l as [|[e n] l IH]; intros w r w' Hsrc Hdup Hdeep Hw HDd Hstat Hfree; cbn [copy_entries]; [intros [= <- <-]; split_and!; try done; intros; congruence|].
  inversion_clear Hsrc as [|? ? Hn Hsrc']. inversion_clear Hfree as [|? ? Hfe Hfree']. inversion_clear Hdup as [|? ? Hnin Hdup']. simpl in Hn, Hfe, Hnin.
  assert (Hwn : fs w !! (S ++ [e]) = Some n) by (by rewrite Hstat by (by apply prefix_app_r)). assert (HpSe : plain (S ++ [e])) by (by eapply wf_plain).
  assert (HpDe : plain (D ++ [e])) by (apply Forall_app; split; [done|by apply Forall_app in HpSe as [_ ?]]). rewrite !Join_abs by done.
  assert (Hdir : direct (fs w) (D ++ [e])).
  { intros p x Hp Hx. destruct (prefix_snoc_inv _ _ _ Hp) as [[s ->]| ->]; [|congruence]. destruct s as [|y s]; [rewrite app_nil_r in HDd; congruence|].
    apply (wf_prefix _ _ _ _ Hw) in HDd; [congruence|done]. }
  assert (Hone : forall o w1, (if decide (n = NDir) then sub (abs (S ++ [e])) (abs (D ++ [e])) else copyFile (abs (S ++ [e])) (abs (D ++ [e]))) w = (o, w1) ->
    fresh_at (D ++ [e]) (fs w) (fs w1) /\ (forall x, o = inl x -> e_no x <> EFuel) /\ (o = inr tt -> copied (fs w) (S ++ [e]) (D ++ [e]) (fs w1))).
  { intros o w1 Hrun. destruct (decide (n = NDir)) as [->|Hnd]; [|by eapply copyFile_copies]. eapply Hsub; try done.
    - intros [Hp|E]%prefix_snoc_inv; [apply Hsd; etrans; [|exact Hp]; by apply prefix_app_r|]. apply app_inj_tail in E as [-> _]. by apply Hsd.
    - intros p Hp. rewrite Hstat in Hp by (rewrite <- (assoc_L (++)); by apply prefix_app_r). rewrite <- (assoc_L (++)) in Hp. apply Hdeep in Hp. simpl in Hp. lia. }
  unfold bind. destruct ((if decide (n = NDir) then sub (abs (S ++ [e])) (abs (D ++ [e])) else copyFile (abs (S ++ [e])) (abs (D ++ [e]))) w) as [o w1] eqn:Eo. destruct (Hone _ _ eq_refl) as ((Hw1 & Hsub1 & Hnew1) & Hcut1 & Hcop1).
  assert (Hnew1' : forall q, fs w !! q = None -> fs w1 !! q <> None -> D ++ [e] `prefix_of` q).
  { intros q H1 H2. destruct (Hnew1 q H1 H2) as [Hp|]; [|done]. destruct (prefix_snoc_inv _ _ _ Hp) as [[s ->]| ->]; [|done]. exfalso.
    destruct s as [|y s]; [rewrite app_nil_r in HDd; congruence|]. apply (wf_prefix _ _ _ _ Hw) in HDd; [congruence|done]. }
  destruct o as [x|[]].
  { intros [= <- <-]. split_and!; [done..| |done|done]. intros q H1 H2. exists (e, n). split; [left|by apply Hnew1']. }
  intros Hrun. assert (Hstat1 : forall q, S `prefix_of` q -> fs w1 !! q = tb !! q).
  { intros q Hq. rewrite <- (Hstat q Hq). destruct (fs w !! q) eqn:E; [by eapply lookup_weaken|]. destruct (fs w1 !! q) eqn:E1; [|done]. exfalso.
    apply (apart S D q); [done|done|done|]. etrans; [|apply Hnew1'; congruence]. by apply prefix_app_r. }
  assert (Hother : forall en q, en ∈ l -> D ++ [fst en] `prefix_of` q -> D ++ [e] `prefix_of` q -> False).
  { intros en q Hen [s ->] [s' E]. rewrite <- !(assoc_L (++)) in E. apply app_inv_head in E. injection E as <- _. apply Hnin. by apply list_elem_of_fmap_2. }
  assert (Hfree1 : Forall (fun en => fs w1 !! (D ++ [fst en]) = None) l).
  { apply Forall_forall. intros en Hen. rewrite Forall_forall in Hfree'. specialize (Hfree' _ Hen). destruct (fs w1 !! (D ++ [fst en])) eqn:E1; [|done]. exfalso.
    apply (Hother en (D ++ [fst en]) Hen); [done|]. apply Hnew1'; congruence. }
  destruct (IH _ _ _ Hsrc' Hdup' Hdeep Hw1 (lookup_weaken _ _ _ _ HDd Hsub1) Hstat1 Hfree1 Hrun) as (Hw' & Hsub' & Hnew' & Hcut' & Hcop').
  split_and!; [done|by etrans| |done|].
  - intros q H1 H2. destruct (fs w1 !! q) eqn:E1; [exists (e, n); split; [left|apply Hnew1'; congruence]|]. destruct (Hnew' q E1 H2) as (en & Hen & Hp). exists en. split; [by right|done].
  - intros Hr. constructor; [|by apply Hcop']. intros p. simpl. specialize (Hcop1 eq_refl p). rewrite Hstat in Hcop1 by (rewrite <- (assoc_L (++)); by apply prefix_app_r).
    destruct (fs w1 !! ((D ++ [e]) ++ p)) as [m|] eqn:E1; [by rewrite (lookup_weaken _ _ _ _ E1 Hsub')|].
    destruct (fs w' !! ((D ++ [e]) ++ p)) eqn:E'; [|done]. exfalso. destruct (Hnew' ((D ++ [e]) ++ p) E1 ltac:(congruence)) as (en & Hen & Hp). eapply Hother; [done|done|by apply prefix_app_r].
Qed.

Lemma children_nodup t p : NoDup (children t p).
Proof.
  unfold children. rewrite merge_sort_Permutation. pose proof (NoDup_fst_map_to_list t) as Hk. induction (map_to_list t) as [|[k n] l IH]; [constructor|].
  inversion_clear Hk as [|? ? Hnin Hk']. specialize (IH Hk'). cbn [omap list_omap fst]. destruct (reverse k) as [|x r] eqn:Ek; [exact IH|]. destruct (decide (reverse r = p)) as [Er|]; [|exact IH].
  constructor; [|exact IH]. intros ([k' n'] & Hin & Hf)%list_elem_of_omap. apply Hnin. simpl in Hf. apply list_elem_of_fmap. exists (k', n'). split; [|done]. simpl.
  destruct (reverse k') as [|x' r'] eqn:Ek'; [done|]. destruct (decide (reverse r' = p)) as [Er'|]; simplify_eq. apply (inj reverse). congruence.
Qed.

Lemma entries_spec t p : Forall (fun en => t !! (p ++ [fst en]) = Some (snd en)) (entries_of t p) /\ NoDup (fst <$> entries_of t p) /\
  forall e n, t !! (p ++ [e]) = Some n -> (e, n) ∈ entries_of t p.
Proof.
  unfold entries_of. pose proof (fun e => elem_of_children t p e) as Hc. split_and!.
  - apply Forall_forall. intros [e n] (e' & _ & He)%list_elem_of_omap. simpl. destruct (t !! (p ++ [e'])) eqn:E; by simplify_eq/=.
  - clear Hc. pose proof (children_nodup t p) as Hd. induction Hd as [|e l Hnin Hd IH]; [constructor|]. cbn [omap list_omap]. destruct (t !! (p ++ [e])) as [n|]; simpl; [|exact IH].
    constructor; [|exact IH]. intros ([e' n'] & -> & (x & Hx & Hs)%list_elem_of_omap)%list_elem_of_fmap. simpl in *. destruct (t !! (p ++ [x])); simplify_eq/=. done.
  - intros e n He. apply list_elem_of_omap. exists e. split; [apply Hc; eauto|]. by rewrite He.
Qed.

Lemma readdir_run S w r w' : wf (fs w) -> fs w !! S = Some NDir -> ReadDir (abs S) w = (r, w') -> fs w' = fs w /\ forall l, r = inr l -> l = entries_of (fs w) S.
Proof.
  intros Hw HS. unfold ReadDir, bind, ReadDir_partial. assert (Hp : plain S) by (by eapply wf_plain).
  unfold lookup_path. rewrite steps_abs, (walk_existing _ _ _ _ [] S NDir) by done. simpl. destruct (fault (calls w)); intros [= <- <-]; (split; [done|]); intros l Hl; by simplify_eq.
Qed.

Lemma copyDir_run k : copies k (copyDir k).
Proof.
  induction k as [|k IH]; intros S D w r w' Hw HS HD Hnone Hdir Hsd Hdeep Hrun.
  { specialize (Hdeep []). rewrite app_nil_r in Hdeep. assert (length (@nil string) < 0)%nat by (apply Hdeep; congruence). simpl in *. lia. }
  assert (HpS : plain S) by (by eapply wf_plain). assert (HD0 : D <> []) by (intros ->; rewrite (wf_root _ Hw) in Hnone; done).
  assert (Hds : ~ D `prefix_of` S). { intros [s E]. destruct s as [|x s]; [rewrite app_nil_r in E; congruence|]. rewrite E in HS. apply (wf_prefix _ _ _ _ Hw) in HS; [congruence|done]. }
  cbn [copyDir] in Hrun. unfold bind at 1 in Hrun. destruct (Stat (abs S) w) as [o w1] eqn:Es. destruct (query_run _ _ _ _ _ _ Es) as [E1 _].
  destruct o as [e|n]; [injection Hrun as <- <-; rewrite E1; split_and!; [by split_and!; [..|congruence]|intros x [= <-]; pose proof (Stat_no_cut (abs S) w) as Hc; by rewrite Es in Hc|done]|].
  unfold bind at 1 in Hrun. destruct (MkdirAll (abs D) w1) as [o w2] eqn:Em. rewrite <- E1 in Hw, Hdir. destruct (mkdirAll_run _ _ _ _ Hw HD Hdir Em) as (Hw2 & Hadd & Hnew & Hok). rewrite E1 in *.
  assert (Hfresh : fresh_at D (fs w) (fs w2)) by (split_and!; [done|apply Hadd|intros q H1 H2; left; by apply Hnew]).
  destruct o as [e|[]]; [injection Hrun as <- <-; split_and!; [done|intros x [= <-]; pose proof (MkdirAll_no_cut (abs D) w1) as Hc; by rewrite Em in Hc|done]|]. specialize (Hok eq_refl).
  assert (HS2 : fs w2 !! S = Some NDir) by (eapply lookup_weaken; [done|apply Hadd]).
  unfold bind at 1 in Hrun. destruct (ReadDir (abs S) w2) as [o w3] eqn:Er. destruct (readdir_run _ _ _ _ Hw2 HS2 Er) as [E3 Hl].
  destruct o as [e|l]; [injection Hrun as <- <-; rewrite E3; split_and!; [done|intros x [= <-]; pose proof (ReadDir_no_cut (abs S) w2) as Hc; by rewrite Er in Hc|done]|].
  rewrite (Hl l eq_refl) in Hrun. clear Hl. destruct (entries_spec (fs w2) S) as (He1 & He2 & He3).
  assert (Hstat : forall q, S `prefix_of` q -> fs w2 !! q = fs w !! q).
  { intros q Hq. destruct (fs w !! q) eqn:E; [eapply lookup_weaken; [done|apply Hadd]|]. destruct (fs w2 !! q) eqn:E2; [|done]. exfalso. apply Hsd. etrans; [exact Hq|]. apply Hnew; congruence. }
  assert (Hbelow : forall s, s <> [] -> fs w2 !! (D ++ s) = None).
  { intros s Hs. destruct (fs w2 !! (D ++ s)) eqn:E2; [|done]. exfalso. destruct (fs w !! (D ++ s)) eqn:E.
    - apply (wf_prefix _ _ _ _ Hw) in E; [congruence|done].
    - assert (Hp : D ++ s `prefix_of` D) by (apply Hnew; congruence). apply prefix_length in Hp. rewrite length_app in Hp. destruct s; [done|simpl in Hp; lia]. }
  apply (copy_entries_run k (copyDir k) S D (fs w2)) in Hrun; try done.
  2: { intros p Hp. rewrite Hstat in Hp by (by apply prefix_app_r). by apply Hdeep. }
  2: by rewrite E3. 2: by rewrite E3. 2: intros q _; by rewrite E3.
  2: { apply Forall_forall. intros en _. rewrite E3. by apply Hbelow. }
  rewrite E3 in Hrun. destruct Hrun as (Hw' & Hsub' & Hnew' & Hcut & Hcop). split_and!; [|done|].
  - split_and!; [done|etrans; [apply Hadd|done]|]. intros q H1 H2. destruct (fs w2 !! q) eqn:E; [left; apply Hnew; congruence|]. right.
    destruct (Hnew' q E H2) as (en & _ & Hp). etrans; [|exact Hp]. by apply prefix_app_r.
  - intros Hr. specialize (Hcop Hr). rewrite Forall_forall in Hcop. intros p. rewrite <- Hstat by (by apply prefix_app_r). destruct p as [|x p].
    + rewrite !app_nil_r, HS2. simpl. by eapply lookup_weaken.
    + assert (Hx : forall (y : path), y ++ x :: p = (y ++ [x]) ++ p) by (intros y; by rewrite <- (assoc_L (++))). rewrite !Hx. destruct (fs w2 !! (S ++ [x])) as [n'|] eqn:En.
      * apply (Hcop (x, n')). by apply He3.
      * assert (Hno : fs w2 !! ((S ++ [x]) ++ p) = None) by (destruct p as [|y p]; [by rewrite app_nil_r|]; destruct (fs w2 !! ((S ++ [x]) ++ y :: p)) eqn:E; [apply (wf_prefix _ _ _ _ Hw2) in E; [congruence|done]|done]).
        rewrite Hno. simpl. destruct (fs w' !! ((D ++ [x]) ++ p)) eqn:E; [|done]. exfalso.
        destruct (Hnew' ((D ++ [x]) ++ p)) as ([e m] & Hen & Hp); [rewrite <- (assoc_L (++)); by apply Hbelow|congruence|]. simpl in Hp. destruct Hp as [s Es'].
        rewrite <- !(assoc_L (++)) in Es'. apply app_inv_head in Es'. injection Es' as -> _. rewrite Forall_forall in He1. specialize (He1 _ Hen). simpl in He1. congruence.
Qed.

(** More fuel changes nothing once it was enough. *)
Lemma copy_entries_more sub sub' src dest l w r w' :
  (forall s d w r w', sub s d w = (r, w') -> (forall e, r = inl e -> e_no e <> EFuel) -> sub' s d w = (r, w')) ->
  copy_entries sub src dest l w = (r, w') -> (forall e, r = inl e -> e_no e <> EFuel) -> copy_entries sub' src dest l w = (r, w').
Proof.
  intros Hsub. revert w. induction l as [|[name n] l IH]; intros w; cbn [copy_entries]; [done|]. unfold bind. destruct (decide (n = NDir)).
  - destruct (sub (Join src name) (Join dest name) w) as [[e1|[]] w1] eqn:E; intros Hrun Hcut.
    + injection Hrun as <- <-. by rewrite (Hsub _ _ _ _ _ E Hcut).
    + rewrite (Hsub _ _ _ _ _ E) by done. by apply IH.
  - destruct (copyFile (Join src name) (Join dest name) w) as [[e1|[]] w1]; [done|]. by apply IH.
Qed.

Lemma copyDir_more k src dest w r w' : copyDir k src dest w = (r, w') -> (forall e, r = inl e -> e_no e <> EFuel) -> copyDir (S k) src dest w = (r, w').
Proof.
  revert src dest w r w'. induction k as [|k IH]; intros src dest w r w' Hrun Hcut; cbn [copyDir] in *; unfold bind in *;
    destruct (Stat src w) as [[e1|n] w1]; try done; destruct (MkdirAll dest w1) as [[e2|[]] w2]; try done; destruct (ReadDir src w2) as [[e3|l] w3]; try done.
  - injection Hrun as <- <-. exfalso. by apply (Hcut _ eq_refl).
  - eapply copy_entries_more; [exact IH|done|done].
Qed.

Lemma copyDir_enough k k' src dest w r w' : copyDir k src dest w = (r, w') -> (forall e, r = inl e -> e_no e <> EFuel) -> (k <= k')%nat -> copyDir k' src dest w = (r, w').
Proof. intros Hrun Hcut. induction 1 as [|k' _ IH]; [done|]. by apply copyDir_more. Qed.

Lemma snoc_dir (d : path) : d <> [] -> exists D x, d = D ++ [x].
Proof. destruct d as [|x D _] using rev_ind; [done|]. by exists D, x. Qed.

(** A copy onto a path that is free, both paths without links. *)
Lemma copy_node fuel src dst n w r w' : wf (fs w) -> fs w !! src = Some n -> direct (fs w) dst -> plain dst -> fs w !! dst = None -> (n = NDir -> ~ src `prefix_of` dst) ->
  (forall p, fs w !! (src ++ p) <> None -> (length p < fuel)%nat) ->
  (if decide (n = NDir) then copyDir fuel (abs src) (abs dst) else copyFile (abs src) (abs dst)) w = (r, w') ->
  fresh_at dst (fs w) (fs w') /\ (forall e, r = inl e -> e_no e <> EFuel) /\ (r = inr tt -> copied (fs w) src dst (fs w')).
Proof.
  intros Hw Hs Hd Hp Hn Hpre Hdeep Hrun. destruct (decide (n = NDir)) as [->|Hdir].
  - eapply copyDir_run; try done. by apply Hpre.
  - destruct (snoc_dir dst) as (D & x & ->); [intros ->; rewrite (wf_root _ Hw) in Hn; done|]. by eapply copyFile_copies.
Qed.

(** C27: Copying a file or a directory to a path that is free, where neither path goes through a
    link: whatever fails on the way, nothing there was is changed and what is new is the
    destination, what is below it and directories on the way to it; the copy terminates, since
    more depth than the source has makes no difference; and if it reports success the copy is
    complete: every directory and file of the source is there with its content, links as files,
    and nothing else.  The condition on links is needed: through a link back into the source the
    guard against copying a directory into itself is passed ([Files.copy_into_itself]). *)
Theorem copy_faithful fuel srcPath destPath recursive w r w' : let src := resolved srcPath in let dst := resolved destPath in
  wf (fs w) -> direct (fs w) src -> direct (fs w) dst -> fs w !! dst = None -> (forall p, fs w !! (src ++ p) <> None -> (length p < fuel)%nat) ->
  HandleFileCopy fuel srcPath destPath recursive false w = (r, w') ->
  fresh_at dst (fs w) (fs w') /\ (r = inr tt -> is_Some (fs w !! src) /\ copied (fs w) src dst (fs w')) /\
  (forall fuel', (fuel <= fuel')%nat -> HandleFileCopy fuel' srcPath destPath recursive false w = (r, w')).
Proof.
  intros src dst Hw Hds Hdd Hn Hdeep. unfold HandleFileCopy. rewrite !resolve_abs. fold src dst.
  assert (Hps : plain src) by apply resolved_plain. assert (Hpd : plain dst) by apply resolved_plain.
  unfold or_fail at 1 4, bind, try. destruct (Stat (abs src) w) as [o w1] eqn:E1. destruct (stat_run _ _ _ _ _ Hw Hps Hds eq_refl (or_introl E1)) as [F1 H1].
  assert (Hsame : fresh_at dst (fs w) (fs w)) by (split_and!; [done..|congruence]).
  destruct o as [e|n]; [intros [= <- <-]; rewrite F1; by split_and!|]. specialize (H1 n eq_refl). unfold ret.
  destruct (Stat (abs dst) w1) as [o w2] eqn:E2. rewrite <- F1 in Hw, Hdd. destruct (stat_run _ _ _ _ _ Hw Hpd Hdd eq_refl (or_introl E2)) as [F2 H2]. rewrite F1 in *.
  destruct o as [e|m]; [|specialize (H2 m eq_refl); congruence]. clear H2 E2 E1. cbn beta iota.
  assert (Hguard : isSameOrSubpath (abs src) (abs dst) = bool_decide (src `prefix_of` dst)) by (by apply subpath_abs). rewrite Hguard.
  assert (Hgo : (n = NDir -> ~ src `prefix_of` dst) -> forall o w3, (if decide (n = NDir) then copyDir fuel (abs src) (abs dst) else copyFile (abs src) (abs dst)) w2 = (o, w3) ->
    fresh_at dst (fs w) (fs w3) /\ (forall x, o = inl x -> e_no x <> EFuel) /\ (o = inr tt -> copied (fs w) src dst (fs w3))).
  { intros Hpre o w3 Hrun. rewrite <- F2 in *. by eapply copy_node. }
  destruct (decide (n = NDir)) as [->|Hnd].
  - destruct recursive; cbn [negb]; [|intros [= <- <-]; rewrite F2; by split_and!]. case_bool_decide as Hp; [intros [= <- <-]; rewrite F2; by split_and!|].
    unfold or_fail, bind, try. destruct (copyDir fuel (abs src) (abs dst) w2) as [o w3] eqn:E3. destruct (Hgo (fun _ => Hp) o w3 eq_refl) as (Hf & Hcut & Hc).
    assert (Hmore : forall fuel', (fuel <= fuel')%nat -> copyDir fuel' (abs src) (abs dst) w2 = (o, w3)) by (intros fuel' Hle; by eapply copyDir_enough).
    destruct o as [x|[]]; intros [= <- <-]; (split_and!; [done|intros; by split; [eauto|apply Hc]|intros fuel' Hle; by rewrite Hmore]).
  - unfold or_fail, bind, try. destruct (copyFile (abs src) (abs dst) w2) as [o w3] eqn:E3. destruct (Hgo ltac:(done) o w3 eq_refl) as (Hf & Hcut & Hc).
    destruct o as [x|[]]; intros [= <- <-]; (split_and!; [done|intros; by split; [eauto|apply Hc]|done]).
Qed.

(** *** Moving *)

Lemma removeall_run src n w r w' : wf (fs w) -> fs w !! src = Some n -> src <> [] -> RemoveAll (abs src) w = (r, w') ->
  (forall q, ~ src `prefix_of` q -> fs w' !! q = fs w !! q) /\ (r = inr tt -> fs w' !! src = None).
Proof.
  intros Hw Hs Hne. assert (Hp : plain src) by (by eapply wf_plain). assert (Hl : lookup_path (fs w) false (abs src) = inr (At src n)).
  { unfold lookup_path. rewrite steps_abs by done. by apply (walk_existing _ _ _ _ [] src). }
  assert (Hout : forall kept q, ~ src `prefix_of` q -> remove_below (fs w) src kept !! q = fs w !! q).
  { intros kept q Hq. destruct (fs w !! q) as [m|] eqn:E.
    - apply remove_below_Some. split; [done|]. by intros (_ & ? & _).
    - apply eq_None_not_Some. intros [m Hm]. apply remove_below_Some in Hm as [Hm _]. congruence. }
  unfold RemoveAll, sys. rewrite Hl. destruct (fault (calls w)) as [f|]; [intros [= <- <-]; simpl; split; [apply Hout|done]|]. rewrite decide_False by done. intros [= <- <-]. simpl. split; [apply Hout|].
  intros _. apply eq_None_not_Some. intros [m Hm]. apply remove_below_Some in Hm as [_ Hg]. apply Hg. split_and!; [done|done|]. by apply Forall_forall.
Qed.

(** What a move may leave: no file lost, nothing else changed. *)
Definition safe_move (src dst : path) (t t' : tree) : Prop :=
  (forall p c, t !! (src ++ p) = Some (NFile c) -> t' !! (src ++ p) = Some (NFile c) \/ t' !! (dst ++ p) = Some (NFile c)) /\
  (forall q n, t !! q = Some n -> ~ src `prefix_of` q -> t' !! q = Some n).

Lemma safe_move_grown src dst t t' : t ⊆ t' -> safe_move src dst t t'.
Proof. intros Hs. split; [intros p c Hc; left; by eapply lookup_weaken|intros q n Hq _; by eapply lookup_weaken]. Qed.

Definition moved (src dst : path) (t t' : tree) : Prop := t' !! src = None /\ forall p c, t !! (src ++ p) = Some (NFile c) -> t' !! (dst ++ p) = Some (NFile c).

(** The rename, and copying and removing instead, from a tree where the way to [dst] is made. *)
Lemma rename_moves src dst n t w w' : wf (fs w) -> fs w !! src = Some n -> direct (fs w) dst -> plain dst -> fs w !! dst = None -> ~ dst `prefix_of` src -> t ⊆ fs w ->
  Rename (abs src) (abs dst) w = (inr tt, w') -> safe_move src dst t (fs w') /\ moved src dst t (fs w').
Proof.
  intros Hw Hs Hd Hp Hn Hds Hsub Hrun. apply change_run in Hrun. destruct (rename_inv _ _ _ _ Hw Hrun) as (p & m & Hlo & Hpm & Hcase).
  assert (Hps : plain src) by (by eapply wf_plain). assert (p = src) as ->.
  { unfold lookup_path in Hlo. rewrite steps_abs, (walk_existing _ _ _ _ [] src n) in Hlo by (try done; intros ->; rewrite (wf_root _ Hw) in Hs; congruence). by injection Hlo. }
  pose proof (lookup_direct (fs w) false dst Hw Hp Hd) as Hl. rewrite Hn in Hl. destruct Hcase as [[_ [m' Hm]]|(q & (r & Hr & <-) & Hspot & Hne & Hnot & Ht)]; [destruct Hl as [[e Hl]|Hl]; congruence|].
  destruct Hl as [[e Hl]|Hl]; rewrite Hl in Hr; [done|]. injection Hr as <-. simpl in *.
  assert (Hmv := fun x k => move_Some (fs w) src dst x k (fun s o => spot_below (fs w) dst s o Hw Hspot) Hnot). rewrite <- Ht in Hmv.
  assert (Hto : forall p c, t !! (src ++ p) = Some (NFile c) -> fs w' !! (dst ++ p) = Some (NFile c)) by (intros p c Hc; apply Hmv; left; exists p; split; [done|by eapply lookup_weaken]).
  split; [split|split]; [auto| | |done].
  - intros q k Hq Hout. apply Hmv. right. split_and!; [done| |by eapply lookup_weaken]. intros ->. rewrite (lookup_weaken _ _ _ _ Hq Hsub) in Hn. done.
  - apply eq_None_not_Some. intros [k [(s & E & _)|(Hx & _)]%Hmv]; [|by apply Hx]. apply Hds. rewrite E. by apply prefix_app_r.
Qed.

Lemma fallback_moves fuel src dst n t w r w' : wf (fs w) -> fs w !! src = Some n -> src <> [] -> direct (fs w) dst -> plain dst -> fs w !! dst = None -> ~ src `prefix_of` dst -> ~ dst `prefix_of` src ->
  (forall p, fs w !! (src ++ p) <> None -> (length p < fuel)%nat) -> t ⊆ fs w ->
  (do! (if decide (n = NDir) then or_fail (copyDir fuel (abs src) (abs dst)) (wrap "file_move copy fallback") else or_fail (copyFile (abs src) (abs dst)) (wrap "file_move copy fallback")) in
   or_fail (RemoveAll (abs src)) (wrap "file_move remove src after copy"))%act w = (r, w') ->
  safe_move src dst t (fs w') /\ (r = inr tt -> moved src dst t (fs w')).
Proof.
  intros Hw Hs Hne Hd Hp Hn Hsd Hds Hdeep Hsub Hrun.
  assert (Hone : exists o w1, (if decide (n = NDir) then copyDir fuel (abs src) (abs dst) else copyFile (abs src) (abs dst)) w = (o, w1) /\
    match o with inl _ => fs w' = fs w1 /\ exists e, r = inl e | inr _ => or_fail (RemoveAll (abs src)) (wrap "file_move remove src after copy") w1 = (r, w') end).
  { unfold bind at 1 in Hrun. destruct (decide (n = NDir)); unfold or_fail at 1, bind, try in Hrun.
    - destruct (copyDir fuel (abs src) (abs dst) w) as [[x|[]] w1]; eexists _, w1; (split; [done|]); [injection Hrun as <- <-; eauto|done].
    - destruct (copyFile (abs src) (abs dst) w) as [[x|[]] w1]; eexists _, w1; (split; [done|]); [injection Hrun as <- <-; eauto|done]. }
  destruct Hone as (o & w1 & Hcopy & Hrest). destruct (copy_node _ _ _ _ _ _ _ Hw Hs Hd Hp Hn (fun _ => Hsd) Hdeep Hcopy) as ((Hw1 & Hgrow & _) & _ & Hcop).
  destruct o as [e|[]]; [destruct Hrest as [-> [x ->]]; split; [apply safe_move_grown; by etrans|done]|].
  unfold or_fail, bind, try in Hrest. destruct (RemoveAll (abs src) w1) as [o w2] eqn:Er. destruct (removeall_run _ _ _ _ _ Hw1 (lookup_weaken _ _ _ _ Hs Hgrow) Hne Er) as [Hout Hgone].
  assert (Hto : forall p c, t !! (src ++ p) = Some (NFile c) -> fs w2 !! (dst ++ p) = Some (NFile c)).
  { intros p c Hc. rewrite Hout by (intros Hx; eapply apart; [exact Hsd|exact Hds|exact Hx|by apply prefix_app_r]).
    specialize (Hcop eq_refl p). by rewrite (lookup_weaken _ _ _ _ Hc Hsub) in Hcop. }
  assert (Hsafe : safe_move src dst t (fs w2)).
  { split; [by auto|]. intros q k Hq Hx. rewrite Hout by done. eapply lookup_weaken; [by eapply lookup_weaken|done]. }
  destruct o as [e|[]]; injection Hrest as <- <-; (split; [done|]); [done|]. intros _. split; [by apply Hgone|done].
Qed.

(** A move to a path that is free, where neither path goes through a link, never loses a
    file: whichever call fails and wherever the fallback of copying and removing across file
    systems stops, every file of the source is still there or is already at its new place with
    its content, and everything outside the source is as it was; if it reports success, every
    file is at its new place and the source is gone. *)
Theorem move_loses_nothing fuel srcPath destPath w r w' : let src := resolved srcPath in let dst := resolved destPath in
  wf (fs w) -> direct (fs w) src -> direct (fs w) dst -> fs w !! dst = None -> (forall p, fs w !! (src ++ p) <> None -> (length p < fuel)%nat) ->
  HandleFileMove fuel srcPath destPath false w = (r, w') ->
  safe_move src dst (fs w) (fs w') /\ (r = inr tt -> moved src dst (fs w) (fs w')).
Proof.
  intros src dst Hw Hds Hdd Hn Hdeep. unfold HandleFileMove. rewrite !resolve_abs. fold src dst.
  assert (Hps : plain src) by apply resolved_plain. assert (Hpd : plain dst) by apply resolved_plain.
  assert (Hkeep : safe_move src dst (fs w) (fs w)) by (by apply safe_move_grown).
  unfold bind at 1, try at 1, bind at 1. destruct (Stat (abs dst) w) as [o w1] eqn:E1. destruct (stat_run _ _ _ _ _ Hw Hpd Hdd eq_refl (or_introl E1)) as [F1 H1].
  destruct o as [e|m]; [|specialize (H1 m eq_refl); congruence]. clear H1 E1. unfold ret at 1. cbn beta iota. unfold or_fail at 1, bind at 1, try at 1, bind at 1.
  destruct (Stat (abs src) w1) as [o w2] eqn:E2. rewrite <- F1 in Hw, Hds. destruct (stat_run _ _ _ _ _ Hw Hps Hds eq_refl (or_introl E2)) as [F2 H2]. rewrite F1 in *.
  destruct o as [e'|n]; [intros [= <- <-]; rewrite F2; by split|]. specialize (H2 n eq_refl). clear E2. unfold ret at 1. cbn beta iota.
  rewrite subpath_abs by done. destruct (decide (n = NDir /\ _)) as [|Hguard]; [intros [= <- <-]; rewrite F2; by split|].
  destruct (snoc_dir dst) as (D & x & Edst); [intros E; rewrite E, (wf_root _ Hw) in Hn; done|]. assert (HpD : plain D) by (rewrite Edst in Hpd; by apply Forall_app in Hpd as [? _]).
  rewrite Edst at 1. rewrite Dir_abs by (by rewrite <- Edst). unfold or_fail at 1, bind at 1, try at 1, bind at 1. destruct (MkdirAll (abs D) w2) as [o w3] eqn:Em.
  assert (Hpre : D `prefix_of` dst) by (rewrite Edst; by apply prefix_app_r). rewrite <- F2 in Hw, Hdd. destruct (mkdirAll_run _ _ _ _ Hw HpD (direct_prefix _ _ _ Hdd Hpre) Em) as (Hw3 & Hadd & Hnew & Hok). rewrite F2 in *.
  destruct o as [e'|[]]; [intros [= <- <-]; split; [apply safe_move_grown, Hadd|done]|]. specialize (Hok eq_refl). unfold ret at 1. cbn beta iota.
  assert (Hs3 : fs w3 !! src = Some n) by (eapply lookup_weaken; [done|apply Hadd]).
  assert (HsD : ~ src `prefix_of` D).
  { intros Hx. destruct (decide (n = NDir)) as [->|Hnd]; [apply Hguard; split; [done|]; apply bool_decide_eq_true; by etrans|]. destruct Hx as [s Es]. rewrite Es in Hok. destruct s as [|y s]; [rewrite app_nil_r in Hok; congruence|].
    apply (wf_prefix _ _ _ _ Hw3) in Hok; [congruence|done]. }
  assert (Hsd : ~ src `prefix_of` dst) by (rewrite Edst; intros [|E]%prefix_snoc_inv; [done|]; congruence).
  assert (Hdsrc : ~ dst `prefix_of` src) by (intros [s Es]; destruct s as [|y s]; [rewrite app_nil_r in Es; congruence|]; rewrite Es in H2; apply (wf_prefix _ _ _ _ Hw) in H2; [congruence|done]).
  assert (Hn3 : fs w3 !! dst = None).
  { destruct (fs w3 !! dst) eqn:E; [|done]. assert (Hl : dst `prefix_of` D) by (apply Hnew; congruence). apply prefix_length in Hl. rewrite Edst, length_app in Hl. simpl in Hl. lia. }
  assert (Hd3 : direct (fs w3) dst) by (by eapply direct_adds).
  assert (Hdeep3 : forall p, fs w3 !! (src ++ p) <> None -> (length p < fuel)%nat).
  { intros p Hp. apply Hdeep. intros E. apply HsD. etrans; [|by apply Hnew]. by apply prefix_app_r. }
  assert (Hne : src <> []) by (intros E; apply HsD; rewrite E; apply prefix_nil).
  unfold bind at 1, try at 1. destruct (Rename (abs src) (abs dst) w3) as [[e'|[]] w4] eqn:Er.
  - pose proof (change_run _ _ _ _ _ _ Er) as F4. simpl in F4. destruct (decide (e_no e' <> EXDEV)); [intros [= <- <-]; rewrite F4; split; [apply safe_move_grown, Hadd|done]|].
    intros Hrun. rewrite <- F4 in *. eapply fallback_moves; try done. apply Hadd.
  - intros [= <- <-]. destruct (rename_moves src dst n (fs w) w3 w4) as [? ?]; try done. apply Hadd.
Qed.
End copy.

(** ** Runs *)

Lemma direct_checked t d : Forall (fun k => forall l, t !! take k d <> Some (NLink l)) (seq 0 (S (length d))) -> direct t d.
Proof.
  intros Hall p l [s ->]. rewrite Forall_forall in Hall. specialize (Hall (length p)). rewrite take_app_length in Hall. apply Hall. apply elem_of_seq. rewrite length_app. lia.
Qed.

Lemma depth_checked (t : tree) src fuel : Forall (fun kv => length (fst kv) < fuel)%nat (map_to_list t) -> forall p, t !! (src ++ p) <> None -> (length p < fuel)%nat.
Proof.
  intros Hall p Hp. destruct (t !! (src ++ p)) as [n|] eqn:E; [|done]. apply elem_of_map_to_list in E. rewrite Forall_forall in Hall. apply Hall in E. simpl in E. rewrite length_app in E. lia.
Qed.

Lemma home_direct d : d = ["d"] \/ d = ["e"; "d2"] -> direct (fs home) d.
Proof. intros [->| ->]; apply direct_checked; repeat (constructor; [intros l; vm_compute; congruence|]); constructor. Qed.

Lemma home_depth src : forall p, fs home !! (src ++ p) <> None -> (length p < 5)%nat.
Proof. apply depth_checked. apply (bool_decide_unpack _). vm_compute. exact I. Qed.

Lemma copy_faithful_witness : exists r w', HandleFileCopy (H := full) 5 "/d" "/e/d2" true false home = (r, w') /\
  fresh_at ["e"; "d2"] (fs home) (fs w') /\ (r = inr tt -> copied (fs home) ["d"] ["e"; "d2"] (fs w')).
Proof.
  destruct (HandleFileCopy (H := full) 5 "/d" "/e/d2" true false home) as [r w'] eqn:E. exists r, w'. split; [done|].
  destruct (copy_faithful (H := full) 5 "/d" "/e/d2" true home r w' wf_home (home_direct _ (or_introl eq_refl)) (home_direct _ (or_intror eq_refl)) eq_refl (home_depth _) E) as (H1 & H2 & _).
  split; [exact H1|]. intros Hr. by destruct (H2 Hr).
Defined.

(** The file systems of /e and / differ, and removing the source stops half way. *)
Definition apart_host : Host :=
  Build_Host (fun n => if decide (n = 16)%nat then Some (mkFailure "permission denied" 0 (fun p => bool_decide (p = ["d"]))) else None) 40%nat (fun p => length p) 4096.

Lemma move_loses_nothing_witness : exists r w', HandleFileMove (H := apart_host) 5 "/d" "/e/d2" false home = (r, w') /\
  (fs w' !! ["d"; "f"] = Some (text "data") \/ fs w' !! ["e"; "d2"; "f"] = Some (text "data")).
Proof.
  destruct (HandleFileMove (H := apart_host) 5 "/d" "/e/d2" false home) as [r w'] eqn:E. exists r, w'. split; [done|].
  destruct (move_loses_nothing (H := apart_host) 5 "/d" "/e/d2" home r w' wf_home (home_direct _ (or_introl eq_refl)) (home_direct _ (or_intror eq_refl)) eq_refl (home_depth _) E) as ((H1 & _) & _).
  exact (H1 ["f"] (chars "data") eq_refl).
Defined.

(** The copy succeeds on a host without faults, and the move across file systems falls back. *)
Example copy_works : fst (HandleFileCopy (H := calm) 5 "/d" "/e/d2" true false home) = inr tt. Proof. reflexivity. Qed.
Example move_falls_back : let r := HandleFileMove (H := Build_Host (fun _ => None) 40%nat (fun p => length p) 4096) 5 "/d" "/e/d2" false home in
  fst r = inr tt /\ fs (snd r) !! ["e"; "d2"; "f"] = Some (text "data") /\ fs (snd r) !! ["d"] = None.
Proof. vm_compute. done. Qed.
End FilesCopy.
