(* ===== verification/EnvParse.v ===== *)
(** * Reading settings from the environment

    The functions of Go's [strconv], [time], [net] and [log/slog] with which the binaries
    parse their settings, the error monad the loaders use, and what the parsed values are
    bounded by. *)

From S2P Require Import Prelude.
From S2P Require Import GoStrings.
From S2P Require Import Wire.
From S2P Require Import DockerHost.

Module EnvParse.
Import GoStrings.

(** ** [strconv] *)

(** [strconv.ParseInt(s, 10, bits)]; [strconv.Atoi] is the one of 64 bits. *)
Definition ParseInt (bits : Z) (s : string) : option Z :=
  match DockerHost.Atoi (chars s) with
  | Some n => if decide (- 2 ^ (bits - 1) <= n < 2 ^ (bits - 1)) then Some n else None
  | None => None
  end.
Definition Atoi (s : string) : option Z := ParseInt 64 s.

Definition ParseBool (s : string) : option bool :=
  if decide (s ∈ ["1"; "t"; "T"; "true"; "TRUE"; "True"]) then Some true
  else if decide (s ∈ ["0"; "f"; "F"; "false"; "FALSE"; "False"]) then Some false
  else None.

Lemma ParseInt_range bits s n : ParseInt bits s = Some n -> - 2 ^ (bits - 1) <= n < 2 ^ (bits - 1).
Proof. unfold ParseInt. destruct (DockerHost.Atoi (chars s)); [|done]. case_decide; [|done]. by intros [= <-]. Qed.

(** ** [time.ParseDuration] *)

Definition Millisecond : Z := 1000000.
Definition Second : Z := 1000 * Millisecond.
Definition Minute : Z := 60 * Second.
Definition Hour : Z := 60 * Minute.

Definition unitMap (u : list ascii) : option Z :=
  let s := of_chars u in
  if decide (s = "ns") then Some 1
  else if decide (s = "us" \/ u = [byte 194; byte 181; byte 115] \/ u = [byte 206; byte 188; byte 115]) then Some 1000
  else if decide (s = "ms") then Some Millisecond
  else if decide (s = "s") then Some Second
  else if decide (s = "m") then Some Minute
  else if decide (s = "h") then Some Hour
  else None.

(** A uint64 that must stay at or below 2^63. *)
Fixpoint leadingInt (x : Z) (l : list ascii) : option (Z * list ascii) :=
  match l with
  | [] => Some (x, [])
  | c :: l' =>
      match Wire.digit_value c with
      | None => Some (x, l)
      | Some d => if decide (x > 2 ^ 63 / 10) then None
                  else let x := x * 10 + d in
                       if decide (x > 2 ^ 63) then None else leadingInt x l'
      end
  end.

(** [full]: digits past what fits are skipped. *)
Fixpoint leadingFraction (full : bool) (x scale : Z) (l : list ascii) : Z * Z * list ascii :=
  match l with
  | [] => (x, scale, [])
  | c :: l' =>
      match Wire.digit_value c with
      | None => (x, scale, l)
      | Some d => if full then leadingFraction true x scale l'
                  else if decide (x > (2 ^ 63 - 1) / 10) then leadingFraction true x scale l'
                  else let y := x * 10 + d in
                       if decide (y > 2 ^ 63) then leadingFraction true x scale l' else leadingFraction false y (scale * 10) l'
      end
  end.

Definition dot : ascii := byte 46.

(** A unit goes up to the next digit or dot. *)
Fixpoint take_unit (l : list ascii) : list ascii * list ascii :=
  match l with
  | [] => ([], [])
  | c :: l' => if decide (c = dot \/ is_Some (Wire.digit_value c)) then ([], l)
               else let '(u, r) := take_unit l' in (c :: u, r)
  end.

Section duration.
(** [uint64(float64(f) * (float64(unit) / scale))] *)
Context (fraction : Z -> Z -> Z -> Z).

(** One number with its unit. *)
Definition duration_part (l : list ascii) : option (Z * list ascii) :=
  let starts := match l with c :: _ => bool_decide (c = dot \/ is_Some (Wire.digit_value c)) | [] => false end in
  if negb starts then None
  else match leadingInt 0 l with
       | None => None
       | Some (v, r) =>
           let pre := negb (bool_decide (length r = length l)) in
           let '(f, scale, post, r) :=
             match r with
             | c :: r' => if decide (c = dot) then
                            let '(f, scale, r'') := leadingFraction false 0 1 r' in (f, scale, negb (bool_decide (length r'' = length r')), r'')
                          else (0, 1, false, r)
             | [] => (0, 1, false, r)
             end in
           if negb pre && negb post then None
           else match take_unit r with
                | ([], _) => None
                | (u, r) =>
                    match unitMap u with
                    | None => None
                    | Some unit =>
                        if decide (v > 2 ^ 63 / unit) then None
                        else let v := v * unit + (if decide (f > 0) then fraction f unit scale else 0) in
                             if decide (f > 0 /\ v > 2 ^ 63) then None else Some (v, r)
                    end
                end
       end.

(** [d]: the sum so far, a uint64.  A part takes at least a byte, so the length is enough fuel. *)
Fixpoint duration_parts (fuel : nat) (d : Z) (l : list ascii) : option Z :=
  match l with
  | [] => Some d
  | _ => match fuel with
         | O => None
         | S k => match duration_part l with
                  | None => None
                  | Some (v, r) => let d := (d + v) mod 2 ^ 64 in
                                   if decide (d > 2 ^ 63) then None else duration_parts k d r
                  end
         end
  end.

Definition ParseDuration (s : string) : option Z :=
  let '(neg, l) := match chars s with
                   | c :: l => if decide (c = byte 45) then (true, l) else if decide (c = byte 43) then (false, l) else (false, c :: l)
                   | [] => (false, [])
                   end in
  if decide (l = [byte 48]) then Some 0
  else match l with
       | [] => None
       | _ => match duration_parts (length l) 0 l with
              | None => None
              | Some d => if neg : bool then Some (- d) else if decide (d > 2 ^ 63 - 1) then None else Some d
              end
       end.

Lemma duration_parts_range fuel d l r : 0 <= d <= 2 ^ 63 -> duration_parts fuel d l = Some r -> 0 <= r <= 2 ^ 63.
Proof.
  revert d l. induction fuel as [|k IH]; intros d l Hd; destruct l as [|c l]; cbn [duration_parts]; try done; try (by intros [= <-]).
  destruct (duration_part (c :: l)) as [[v r']|]; [|done]. case_decide as Hbig; [done|]. apply IH. pose proof (Z.mod_pos_bound (d + v) (2 ^ 64) ltac:(lia)). lia.
Qed.

Lemma ParseDuration_range s d : ParseDuration s = Some d -> in_int64 d.
Proof.
  unfold ParseDuration, in_int64, int64_min, int64_max. destruct (match chars s with [] => _ | _ => _ end) as [neg l]. case_decide; [intros [= <-]; lia|]. destruct l as [|c l]; [done|].
  destruct (duration_parts _ 0 (c :: l)) as [x|] eqn:E; [|done]. apply duration_parts_range in E; [|lia]. destruct neg; [intros [= <-]; lia|]. case_decide; [done|]. intros [= <-]. lia.
Qed.
End duration.

Definition exact_fraction (f unit scale : Z) : Z := f * unit / scale.
Example duration_1h30 : ParseDuration exact_fraction "1h30m0.5s" = Some (90 * Minute + 500 * Millisecond). Proof. reflexivity. Qed.
Example duration_bad : ParseDuration exact_fraction "5" = None /\ ParseDuration exact_fraction "" = None /\ ParseDuration exact_fraction ".s" = None /\ ParseDuration exact_fraction "-1.5h" = Some (- 90 * Minute).
Proof. done. Qed.

(** ** [net] *)

Fixpoint index (c : ascii) (l : list ascii) : option nat :=
  match l with [] => None | x :: l' => if decide (x = c) then Some 0%nat else S <$> index c l' end.
Definition last_index (c : ascii) (l : list ascii) : option nat := (fun i => length l - 1 - i)%nat <$> index c (reverse l).

Definition colon : ascii := byte 58.
Definition lbracket : ascii := byte 91.
Definition rbracket : ascii := byte 93.

Definition SplitHostPort (s : string) : option (string * string) :=
  let l := chars s in
  match last_index colon l with
  | None => None
  | Some i =>
      let finish (host : list ascii) (j k : nat) :=
        if decide (lbracket ∈ drop j l \/ rbracket ∈ drop k l) then None else Some (of_chars host, of_chars (drop (S i) l)) in
      if decide (head l = Some lbracket) then
        match index rbracket l with
        | None => None
        | Some e => if decide (S e = i) then finish (take (e - 1) (drop 1 l)) 1%nat (S e) else None
        end
      else let host := take i l in
           if decide (colon ∈ host) then None else finish host 0%nat 0%nat
  end.

Definition JoinHostPort (host port : string) : string :=
  if decide (colon ∈ chars host) then "[" +:+ host +:+ "]:" +:+ port else host +:+ ":" +:+ port.

Example split_ports : SplitHostPort ":9100" = Some ("", "9100") /\ SplitHostPort "[::1]:80" = Some ("::1", "80") /\ SplitHostPort "::1:80" = None /\ SplitHostPort "host" = None.
Proof. done. Qed.

(** ** [slog.Level.UnmarshalText], as [logging.ParseLevel] uses it *)

Definition upper (c : ascii) : ascii := let n := Ascii.N_of_ascii c in if decide (97 <= n <= 122)%N then byte (n - 32) else c.

Fixpoint cut_sign (l : list ascii) : list ascii * list ascii :=
  match l with
  | [] => ([], [])
  | c :: l' => if decide (c = byte 43 \/ c = byte 45) then ([], l) else let '(a, b) := cut_sign l' in (c :: a, b)
  end.

Definition ParseLevel (s : string) : option Z :=
  let '(name, rest) := cut_sign (chars s) in
  let offset := match rest with [] => Some 0 | _ => Atoi (of_chars rest) end in
  let level := let n := of_chars (upper <$> name) in
    if decide (n = "DEBUG") then Some (-4) else if decide (n = "INFO") then Some 0
    else if decide (n = "WARN") then Some 4 else if decide (n = "ERROR") then Some 8 else None in
  match offset, level with Some o, Some l => Some (wrap64 (l + o)) | _, _ => None end.

(** ** Lists and numbers in a variable *)

Fixpoint split_on (c : ascii) (l : list ascii) : list (list ascii) :=
  match l with
  | [] => [[]]
  | x :: l' => if decide (x = c) then [] :: split_on c l'
               else match split_on c l' with w :: ws => (x :: w) :: ws | [] => [[x]] end
  end.

(** [strings.Split(s, ",")] *)
Definition SplitComma (s : string) : list string := of_chars <$> split_on (byte 44) (chars s).

(** ** Loaders

    A loader reads variables and returns a value or the error it gives up with. *)

Definition env : Type := string -> string.
Definition loader (A : Type) : Type := act env string A.
Open Scope act_scope.

Definition Getenv (name : string) : loader string := fun e => (inr (e name), e).
Definition GetTrimmed (name : string) : loader string := let! v := Getenv name in ret (TrimSpace v).

(** [if v != "" { x, err := parse(v); if err != nil || <refused> { return err }; cfg.X = x }]; [text]: the
    message, without the value it quotes. *)
Definition optional {A} (v : string) (parse : string -> option A) (default : A) (text : string) : loader A :=
  if decide (v = "") then ret default
  else match parse v with Some a => ret a | None => exit text end.

Definition where_ {A} (parse : string -> option A) (ok : A -> bool) (s : string) : option A :=
  match parse s with Some a => if ok a then Some a else None | None => None end.

Definition required (b : bool) (text : string) : loader unit := if b then ret tt else exit text.

(** What a loader that succeeds returns. *)
Definition loads {A} (m : loader A) (e : env) (a : A) : Prop := m e = (inr a, e).

(** Loaders do not change the environment. *)
Definition reads_env {A} (m : loader A) : Prop := forall e, snd (m e) = e.

Lemma loads_bind {A B} (m : loader A) (k : A -> loader B) e b : reads_env m -> loads (bind m k) e b -> exists a, loads m e a /\ loads (k a) e b.
Proof.
  unfold loads, bind. intros Hm. specialize (Hm e). destruct (m e) as [[t|a] e'] eqn:E; [done|]. simpl in Hm. subst e'. eauto.
Qed.

Lemma loads_answer {A} (m : loader A) e a : reads_env m -> fst (m e) = inr a -> loads m e a.
Proof. unfold loads. intros Hm. specialize (Hm e). destruct (m e). simpl in *. by intros ->; subst. Qed.

Lemma loads_ret {A} (a b : A) e : loads (ret a) e b -> a = b.
Proof. by intros [= ->]. Qed.

Lemma loads_exit {A} text e (b : A) : loads (exit text) e b -> False.
Proof. done. Qed.

Lemma loads_optional {A} v parse (d : A) text e b : loads (optional v parse d text) e b -> (v = "" /\ b = d) \/ (v <> "" /\ parse v = Some b).
Proof.
  unfold optional. destruct (decide (v = "")); [intros <-%loads_ret; by left|]. destruct (parse v) as [a|]; [|by intros ?%loads_exit]. intros <-%loads_ret. by right.
Qed.

Lemma loads_required b text e u : loads (required b text) e u -> b = true.
Proof. unfold required. by destruct b; [|intros ?%loads_exit]. Qed.

Lemma where_Some {A} parse (ok : A -> bool) s a : where_ parse ok s = Some a -> parse s = Some a /\ ok a = true.
Proof. unfold where_. destruct (parse s); [|done]. destruct (ok _) eqn:E; [|done]. by intros [= <-]. Qed.

Lemma reads_bind {A B} (m : loader A) (k : A -> loader B) : reads_env m -> (forall a, reads_env (k a)) -> reads_env (bind m k).
Proof. intros Hm Hk e. unfold bind. specialize (Hm e). destruct (m e) as [[t|a] e']; [done|]. simpl in Hm. subst e'. apply Hk. Qed.

Lemma reads_optional {A} v parse (d : A) text : reads_env (optional v parse d text).
Proof. intros e. unfold optional. destruct (decide _); [done|]. by destruct (parse v). Qed.

Lemma reads_required b text : reads_env (required b text).
Proof. by destruct b. Qed.

Lemma reads_Getenv name : reads_env (Getenv name).
Proof. done. Qed.

Lemma reads_ret {A} (a : A) : reads_env (ret a).
Proof. done. Qed.

Lemma reads_exit {A} text : reads_env (exit (A := A) text).
Proof. done. Qed.

Lemma reads_GetTrimmed name : reads_env (GetTrimmed name).
Proof. done. Qed.

Create HintDb loaders.
#[export] Hint Resolve reads_bind reads_optional reads_required reads_Getenv reads_GetTrimmed reads_ret reads_exit : loaders.

Ltac reads := repeat first
  [ solve [eauto with loaders nocore]
  | apply reads_bind; [|intro]
  | match goal with
    | |- reads_env (if ?b then _ else _) => destruct b
    | |- reads_env (match ?o with _ => _ end) => destruct o
    end ].

(** Take a run of a loader that succeeded apart. *)
Ltac load_step :=
  match goal with
  | H : loads (bind _ _) _ _ |- _ => apply loads_bind in H as (? & ? & H); [|by reads]
  | H : loads (ret _) _ _ |- _ => apply loads_ret in H; subst
  | H : loads (exit _) _ _ |- _ => by apply loads_exit in H
  | H : loads (optional _ _ _ _) _ _ |- _ => apply loads_optional in H
  | H : loads (required _ _) _ _ |- _ => apply loads_required in H
  | H : loads (Getenv _) _ _ |- _ => injection H as H; subst
  | H : loads (GetTrimmed _) _ _ |- _ => injection H as H; subst
  | H : loads (let '(_, _) := ?x in _) _ _ |- _ => destruct x
  | H : loads (if ?b then _ else _) _ _ |- _ => destruct b eqn:?
  end.
Ltac unload := repeat load_step.
End EnvParse.

(** ** The daemon ([internal/daemon/config.go]) *)

Module DaemonEnv.
Import EnvParse.

Section env.
Context (e : env) (fraction : Z -> Z -> Z -> Z).

Definition envInt64 (key : string) (fallback : Z) : Z :=
  if decide (e key = "") then fallback else default fallback (ParseInt 64 (e key)).

Definition envDuration (key : string) (fallback : Z) : Z :=
  if decide (e key = "") then fallback else default fallback (ParseDuration fraction (e key)).

(** A malformed variable never stops the daemon, and what it runs on fits its type. *)
Lemma daemon_env_total key fallback : in_int64 fallback -> in_int64 (envInt64 key fallback) /\ in_int64 (envDuration key fallback).
Proof.
  intros Hf. unfold envInt64, envDuration. destruct (decide (e key = "")); [done|]. split.
  - destruct (ParseInt 64 (e key)) as [z|] eqn:E; [|done]. apply ParseInt_range in E. unfold in_int64, int64_min, int64_max. simpl. lia.
  - destruct (ParseDuration fraction (e key)) as [d|] eqn:E; [|done]. by apply ParseDuration_range in E.
Qed.
End env.
End DaemonEnv.
