(* ===== verification/LoadAPI.v ===== *)
(** * The API's configuration ([internal/api/config/config.go])

    [LoadAPI] reads every setting of the gateway from the environment and refuses to start
    on one it cannot use.  The segments below follow it from top to bottom; [loaded_config_sound]
    says what the rest of the program may rely on when it has returned. *)

From S2P Require Import Prelude.
From S2P Require Import GoStrings.
From S2P Require Import Wire.
From S2P Require Import Registration Config.
From S2P Require Import DockerHost.
From S2P Require Import EnvParse.

Module LoadAPI.
Import GoStrings EnvParse.

(** ** Listen addresses *)

(** [net.parsePort]: [None] when the text has to be looked up.  The accumulator is a uint32. *)
Definition cutoff : Z := 2 ^ 30.
Definition max_uint32 : Z := 2 ^ 32 - 1.

Fixpoint port_digits (n : Z) (l : list ascii) : option Z :=
  match l with
  | [] => Some n
  | c :: l' =>
      match Wire.digit_value c with
      | None => None
      | Some d =>
          if decide (n >= cutoff) then Some max_uint32
          else let n := (n * 10) mod 2 ^ 32 in
               let nn := (n + d) mod 2 ^ 32 in
               if decide (nn < n) then Some max_uint32 else port_digits nn l'
      end
  end.

Definition parsePort (service : string) : option Z :=
  match chars service with
  | [] => Some 0
  | c :: l =>
      let '(neg, ds) := if decide (c = byte 43) then (false, l) else if decide (c = byte 45) then (true, l) else (false, c :: l) in
      (fun n => let port := if negb neg && bool_decide (n >= cutoff) then cutoff - 1
                            else if neg && bool_decide (n > cutoff) then cutoff else n in
                if neg : bool then - port else port) <$> port_digits 0 ds
  end.

(** The host's table of services, [/etc/services]. *)
Class Services := { service_port : string -> option Z }.

Section load.
Context {S : Services} (fraction : Z -> Z -> Z -> Z).

(** [net.LookupPort("tcp", service)] *)
Definition LookupPort (service : string) : option Z :=
  match match parsePort service with Some p => Some p | None => service_port service end with
  | Some p => if decide (0 <= p <= 65535) then Some p else None
  | None => None
  end.

Definition Itoa (n : Z) : string := of_chars (Wire.format_int n).

Definition valid_port (p : Z) : bool := bool_decide (0 < p <= 65535).

Definition validateListenAddr (v : string) : bool :=
  match SplitHostPort (TrimSpace v) with
  | None => false
  | Some (_, port) => match Atoi port with Some p => valid_port p | None => false end
  end.

Definition listenPort (addr : string) : string :=
  match SplitHostPort (TrimSpace addr) with
  | None => ""
  | Some (_, port) => match LookupPort port with Some n => Itoa n | None => port end
  end.

Definition isWildcardHost (host : string) : bool := bool_decide (TrimSpace host ∈ [""; "0.0.0.0"; "::"]).

Definition sameListenHost (a b : string) : bool :=
  match SplitHostPort (TrimSpace a), SplitHostPort (TrimSpace b) with
  | Some (hostA, _), Some (hostB, _) => if isWildcardHost hostA && isWildcardHost hostB then true else bool_decide (hostA = hostB)
  | _, _ => false
  end.

Definition MetricsOnMainListener (listen metrics : string) : bool :=
  if decide (metrics = "") then true else bool_decide (listenPort metrics = listenPort listen).

Definition ResolvedMetricsListenAddr (listen metrics : string) : string :=
  if MetricsOnMainListener listen metrics then listen else metrics.

(** ** Keys and limits *)

Definition parseKeySet (raw : string) : gset string :=
  list_to_set (filter (fun k => k <> "") (TrimSpace <$> SplitComma raw)).

Definition max_int32 : Z := 2 ^ 31 - 1.

Definition in_range (lo hi n : Z) : bool := bool_decide (lo <= n <= hi).

Definition parseLimit (name : string) (dst : Z) : loader Z :=
  let! v := GetTrimmed name in
  optional v (where_ Atoi (in_range 0 max_int32)) dst (name +:+ " must be an integer between 0 and 2147483647").

(** ** The settings, in the order they are read *)

Definition positive (d : Z) : bool := bool_decide (0 < d).
Definition nonnegative (d : Z) : bool := bool_decide (0 <= d).
Definition Duration (ok : Z -> bool) : string -> option Z := where_ (ParseDuration fraction) ok.

Definition or_default (v default : string) : string := if decide (v = "") then default else v.

Definition load_log_level : loader Z :=
  let! v := Getenv "SANDBOX_API_LOG_LEVEL" in
  optional v ParseLevel 0 "SANDBOX_API_LOG_LEVEL".

(** Admin, provisioner and scaler keys.  A scaler key that is in use is refused with one of two
    messages, after the key the map yields first. *)
Definition load_keys : loader (gset string * gset string * gset string) :=
  let! rawKeys := Getenv "SANDBOX_API_KEYS" in
  do! required (bool_decide (rawKeys <> "")) "SANDBOX_API_KEYS must be set" in
  let APIKeys := parseKeySet rawKeys in
  do! required (bool_decide (APIKeys <> ∅)) "SANDBOX_API_KEYS contains no valid keys" in
  let! rawProvisioner := Getenv "SANDBOX_API_PROVISIONER_KEYS" in
  let ProvisionerKeys := parseKeySet rawProvisioner in
  do! required (bool_decide (set_Forall (fun k => k ∉ APIKeys) ProvisionerKeys))
        "SANDBOX_API_PROVISIONER_KEYS must not share a key with SANDBOX_API_KEYS" in
  let! rawScaler := Getenv "SANDBOX_API_SCALER_KEYS" in
  let ScalerKeys := parseKeySet rawScaler in
  do! required (bool_decide (set_Forall (fun k => (k ∉ APIKeys) /\ (k ∉ ProvisionerKeys)) ScalerKeys))
        "SANDBOX_API_SCALER_KEYS must not share a key with SANDBOX_API_KEYS or SANDBOX_API_PROVISIONER_KEYS" in
  ret (APIKeys, ProvisionerKeys, ScalerKeys).

(** Public, gRPC and metrics listeners. *)
Definition load_addrs : loader (string * string * string) :=
  let! v := Getenv "SANDBOX_API_LISTEN_ADDR" in
  let ListenAddr := or_default v ":8080" in
  let! v := Getenv "SANDBOX_API_GRPC_LISTEN_ADDR" in
  let GRPCListenAddr := or_default v ":9090" in
  let! MetricsListenAddr := GetTrimmed "SANDBOX_API_METRICS_LISTEN_ADDR" in
  if decide (MetricsListenAddr = "") then ret (ListenAddr, GRPCListenAddr, "")
  else
    do! required (validateListenAddr MetricsListenAddr) "SANDBOX_API_METRICS_LISTEN_ADDR must be host:port (e.g. :9100)" in
    do! required (negb (bool_decide (listenPort MetricsListenAddr = listenPort GRPCListenAddr)))
          "SANDBOX_API_METRICS_LISTEN_ADDR must not use the same port as SANDBOX_API_GRPC_LISTEN_ADDR" in
    do! required (negb (MetricsOnMainListener ListenAddr MetricsListenAddr && negb (sameListenHost MetricsListenAddr ListenAddr)))
          "SANDBOX_API_METRICS_LISTEN_ADDR uses the port of SANDBOX_API_LISTEN_ADDR but a different host; leave it unset to serve /metrics on the API listener" in
    ret (ListenAddr, GRPCListenAddr, MetricsListenAddr).

Definition load_token : loader string :=
  let! token := Getenv "SANDBOX_API_RUNNER_REGISTRATION_TOKEN" in
  do! required (bool_decide (token <> "")) "SANDBOX_API_RUNNER_REGISTRATION_TOKEN must be set" in
  ret token.

Record limits := mkLimits { MaxFileBytes : Z; DefaultMaxSandboxes : Z; MaxInflightPerTenant : Z }.

Definition load_limits (ProvisionerKeys : gset string) : loader limits :=
  let! v := Getenv "SANDBOX_API_MAX_FILE_BYTES" in
  let! bytes := optional v (where_ (ParseInt 64) positive) (10 * 1024 * 1024) "SANDBOX_API_MAX_FILE_BYTES must be a positive integer" in
  let! v := Getenv "SANDBOX_API_DEFAULT_MAX_SANDBOXES" in
  let! quota := optional v (where_ Atoi (in_range 0 max_int32)) 50 "SANDBOX_API_DEFAULT_MAX_SANDBOXES must be an integer between 0 and 2147483647" in
  do! required (negb (bool_decide (ProvisionerKeys <> ∅) && bool_decide (quota = 0)))
        "SANDBOX_API_PROVISIONER_KEYS requires SANDBOX_API_DEFAULT_MAX_SANDBOXES to be at least 1" in
  let! inflight := parseLimit "SANDBOX_API_MAX_INFLIGHT_PER_TENANT" 512 in
  ret (mkLimits bytes quota inflight).

Definition load_flag (name : string) (default : bool) : loader bool :=
  let! v := Getenv name in
  optional v ParseBool default (name +:+ " must be a boolean").

Record switches := mkSwitches {
  RunnerAPIKey : string; DataDir : string; SQLiteWAL : bool; MetricsEnabled : bool; EnableCORS : bool; HeartbeatGrace : Z }.

Definition load_switches : loader switches :=
  let! key := Getenv "SANDBOX_API_RUNNER_API_KEY" in
  let! dir := Getenv "SANDBOX_API_DATA_DIR" in
  let! wal := load_flag "SANDBOX_API_SQLITE_WAL" true in
  let! metrics := load_flag "SANDBOX_API_METRICS_ENABLED" false in
  let! cors := load_flag "SANDBOX_API_ENABLE_CORS" false in
  let! v := Getenv "SANDBOX_API_RUNNER_HEARTBEAT_GRACE" in
  let! grace := optional v (Duration positive) (45 * Second) "SANDBOX_API_RUNNER_HEARTBEAT_GRACE must be a positive duration (e.g. 45s, 2m)" in
  ret (mkSwitches key (or_default dir "/var/lib/n8n-sandbox-api") wal metrics cors grace).

(** The files of a TLS identity; all three are counted. *)
Record tls_files := mkTLS { CertFile : string; KeyFile : string; CAFile : string }.

Definition set_count (t : tls_files) : Z :=
  (if decide (CertFile t <> "") then 1 else 0) + (if decide (KeyFile t <> "") then 1 else 0) + (if decide (CAFile t <> "") then 1 else 0).

Definition load_grpc_tls : loader tls_files :=
  let! cert := GetTrimmed "SANDBOX_API_GRPC_TLS_CERT_FILE" in
  let! key := GetTrimmed "SANDBOX_API_GRPC_TLS_KEY_FILE" in
  let! ca := GetTrimmed "SANDBOX_API_GRPC_TLS_CLIENT_CA_FILE" in
  let t := mkTLS cert key ca in
  do! required (bool_decide (set_count t = 3)) "SANDBOX_API_GRPC_TLS_CERT_FILE, SANDBOX_API_GRPC_TLS_KEY_FILE, and SANDBOX_API_GRPC_TLS_CLIENT_CA_FILE are required for runner-registry mTLS" in
  ret t.

(** With the server name, which may be empty. *)
Definition load_control_tls : loader (tls_files * string) :=
  let! ca := GetTrimmed "SANDBOX_API_RUNNER_CONTROL_GRPC_TLS_CA_FILE" in
  let! cert := GetTrimmed "SANDBOX_API_RUNNER_CONTROL_GRPC_TLS_CERT_FILE" in
  let! key := GetTrimmed "SANDBOX_API_RUNNER_CONTROL_GRPC_TLS_KEY_FILE" in
  let! name := GetTrimmed "SANDBOX_API_RUNNER_CONTROL_GRPC_TLS_SERVER_NAME" in
  let t := mkTLS cert key ca in
  do! required (bool_decide (set_count t = 3)) "SANDBOX_API_RUNNER_CONTROL_GRPC_TLS_CA_FILE, SANDBOX_API_RUNNER_CONTROL_GRPC_TLS_CERT_FILE, and SANDBOX_API_RUNNER_CONTROL_GRPC_TLS_KEY_FILE are required for control-plane mTLS" in
  ret (t, name).

(** The windows of the sweeper: stop, delete and safety buffer, which is defaulted. *)
Definition load_idle : loader (Z * Z * Z) :=
  let! v := GetTrimmed "SANDBOX_API_IDLE_STOP_AFTER" in
  let! stop := optional v (Duration nonnegative) Hour "SANDBOX_API_IDLE_STOP_AFTER must be unset, 0, or a positive duration" in
  let! v := GetTrimmed "SANDBOX_API_IDLE_DELETE_AFTER" in
  let! delete := optional v (Duration nonnegative) (24 * Hour) "SANDBOX_API_IDLE_DELETE_AFTER must be unset, 0, or a positive duration" in
  let! v := GetTrimmed "SANDBOX_API_IDLE_DELETE_SAFETY_BUFFER" in
  let! buffer := optional v (Duration nonnegative) 0 "SANDBOX_API_IDLE_DELETE_SAFETY_BUFFER must be a non-negative duration" in
  ret (stop, delete, if decide ((delete > 0 \/ stop > 0) /\ buffer <= 0) then Minute else buffer).

Record sweeping := mkSweeping { IdleSweepInterval : Z; IdleSweepConcurrency : Z; OrphanReap : Z; APIKeyCacheTTL : Z }.

Definition maxIdleSweepConcurrency : Z := 16.
Definition sandboxLockRequestHeadroom : Z := 5.
Definition maxAPIKeyCacheTTL : Z := Minute.

Definition load_sweeping : loader sweeping :=
  let! v := GetTrimmed "SANDBOX_API_IDLE_SWEEP_INTERVAL" in
  let! interval := optional v (Duration positive) Minute "SANDBOX_API_IDLE_SWEEP_INTERVAL must be a positive duration" in
  let! v := GetTrimmed "SANDBOX_API_IDLE_SWEEP_CONCURRENCY" in
  let! n := optional v (where_ Atoi (in_range 1 maxIdleSweepConcurrency)) 8 "SANDBOX_API_IDLE_SWEEP_CONCURRENCY must be an integer between 1 and 16" in
  let! v := GetTrimmed "SANDBOX_API_ORPHAN_REAP_BUFFER" in
  let! orphan := optional v (Duration positive) (5 * Minute) "SANDBOX_API_ORPHAN_REAP_BUFFER must be a positive duration" in
  let! v := GetTrimmed "SANDBOX_API_KEY_CACHE_TTL" in
  let! ttl := optional v (Duration (in_range 0 maxAPIKeyCacheTTL)) (15 * Second) "SANDBOX_API_KEY_CACHE_TTL must be 0 or a duration up to 1m0s" in
  ret (mkSweeping interval n orphan ttl).

Inductive StoreBackend := StoreSQLite | StorePostgres.

(** [strings.ToLower], for a comparison with an ASCII word: besides the capitals, only
    U+0130 and U+212A have an ASCII lower case. *)
Fixpoint lower_ascii (l : list ascii) : list ascii :=
  match l with
  | [] => []
  | a :: l' =>
      match l' with
      | b :: l'' =>
          if decide (a = byte 196 /\ b = byte 176) then byte 105 :: lower_ascii l''
          else match l'' with
               | c :: r => if decide (a = byte 226 /\ b = byte 132 /\ c = byte 170) then byte 107 :: lower_ascii r
                           else Registration.lower a :: lower_ascii l'
               | [] => Registration.lower a :: lower_ascii l'
               end
      | [] => [Registration.lower a]
      end
  end.

Definition backend_of (v : string) : option StoreBackend :=
  let n := of_chars (lower_ascii (chars v)) in
  if decide (n = "sqlite") then Some StoreSQLite else if decide (n = "postgres") then Some StorePostgres else None.

Record PostgresConfig := mkPostgres {
  Host : string; Port : Z; User : string; Password : string; Database : string; SSLMode : string; LockPoolSize : Z }.

Definition load_postgres (Store : StoreBackend) (lockPool : Z) : loader PostgresConfig :=
  match Store with
  | StoreSQLite => ret (mkPostgres "" 5432 "" "" "" "require" lockPool)
  | StorePostgres =>
      let! host := GetTrimmed "SANDBOX_API_POSTGRES_HOST" in
      let! user := GetTrimmed "SANDBOX_API_POSTGRES_USER" in
      let! password := Getenv "SANDBOX_API_POSTGRES_PASSWORD" in
      let! db := GetTrimmed "SANDBOX_API_POSTGRES_DB" in
      let! v := GetTrimmed "SANDBOX_API_POSTGRES_PORT" in
      let! port := optional v (where_ Atoi positive) 5432 "SANDBOX_API_POSTGRES_PORT must be a positive integer" in
      let! v := GetTrimmed "SANDBOX_API_POSTGRES_SSLMODE" in
      do! required (bool_decide (host <> "")) "SANDBOX_API_POSTGRES_HOST must be set when SANDBOX_API_STORE=postgres" in
      do! required (bool_decide (user <> "")) "SANDBOX_API_POSTGRES_USER must be set when SANDBOX_API_STORE=postgres" in
      do! required (bool_decide (password <> "")) "SANDBOX_API_POSTGRES_PASSWORD must be set when SANDBOX_API_STORE=postgres" in
      do! required (bool_decide (db <> "")) "SANDBOX_API_POSTGRES_DB must be set when SANDBOX_API_STORE=postgres" in
      ret (mkPostgres host port user password db (or_default v "require") lockPool)
  end.

Definition load_store (lockPool : Z) : loader (StoreBackend * PostgresConfig) :=
  let! v := GetTrimmed "SANDBOX_API_STORE" in
  let! Store := optional v backend_of StoreSQLite "SANDBOX_API_STORE must be sqlite or postgres" in
  let! pg := load_postgres Store lockPool in
  ret (Store, pg).

Definition DSN (p : PostgresConfig) : string :=
  "host=" +:+ Host p +:+ " port=" +:+ Itoa (Port p) +:+ " user=" +:+ User p +:+ " password=" +:+ Password p +:+
  " dbname=" +:+ Database p +:+ " sslmode=" +:+ SSLMode p.

(** [windows]: the fields the handlers and the sweeper read, as [Config] has them. *)
Record APIConfig := mkAPIConfig {
  LogLevel : Z;
  APIKeys : gset string; ProvisionerKeys : gset string; ScalerKeys : gset string;
  ListenAddr : string; GRPCListenAddr : string; MetricsListenAddr : string;
  RegistrationToken : string;
  caps : limits;
  switched : switches;
  grpc_tls : tls_files;
  control_tls : tls_files; RunnerControlGRPCClientServerName : string;
  windows : Config.APIConfig;
  sweeps : sweeping;
  Store : StoreBackend; Postgres : PostgresConfig;
  ScalerURL : string;
}.

Definition LoadAPI : loader APIConfig :=
  let! level := load_log_level in
  let! '(admin, provisioner, scaler) := load_keys in
  let! '(listen, grpc, metrics) := load_addrs in
  let! token := load_token in
  let! caps := load_limits provisioner in
  let! sw := load_switches in
  let! tls := load_grpc_tls in
  let! '(ctl, ctlName) := load_control_tls in
  let! '(stop, delete, buffer) := load_idle in
  let! sweeps := load_sweeping in
  let! '(store, pg) := load_store (IdleSweepConcurrency sweeps + sandboxLockRequestHeadroom) in
  let! url := GetTrimmed "SANDBOX_API_SCALER_URL" in
  ret (mkAPIConfig level admin provisioner scaler listen grpc metrics token caps sw tls ctl ctlName
         (Config.mkConfig stop delete buffer (OrphanReap sweeps)) sweeps store pg (TrimRight url (byte 47))).

(** ** What a loaded configuration promises *)

Record sound (c : APIConfig) : Prop := {
  (** Someone can administer the API, and nobody with an empty key. *)
  sound_admin : APIKeys c <> ∅ /\ "" ∉ APIKeys c ∪ ProvisionerKeys c ∪ ScalerKeys c;
  (** A key has one role. *)
  sound_roles : APIKeys c ## ProvisionerKeys c /\ APIKeys c ## ScalerKeys c /\ ProvisionerKeys c ## ScalerKeys c;
  (** The default quota fits the database's column, and no provisioner creates tenants without one. *)
  sound_quota : 0 <= DefaultMaxSandboxes (caps c) <= max_int32 /\ (ProvisionerKeys c <> ∅ -> 1 <= DefaultMaxSandboxes (caps c));
  sound_caps : 0 < MaxFileBytes (caps c) <= int64_max /\ 0 <= MaxInflightPerTenant (caps c) <= max_int32;
  (** Metrics have a port of their own, or are on the public listener and its host. *)
  sound_metrics : MetricsListenAddr c <> "" ->
    forall h p h' q n m, SplitHostPort (TrimSpace (MetricsListenAddr c)) = Some (h, p) -> Atoi p = Some n ->
      SplitHostPort (TrimSpace (GRPCListenAddr c)) = Some (h', q) -> Atoi q = Some m -> n <> m;
  sound_listener : MetricsOnMainListener (ListenAddr c) (MetricsListenAddr c) = true ->
    MetricsListenAddr c = "" \/ sameListenHost (MetricsListenAddr c) (ListenAddr c) = true;
  sound_token : RegistrationToken c <> "";
  sound_tls : CertFile (grpc_tls c) <> "" /\ KeyFile (grpc_tls c) <> "" /\ CAFile (grpc_tls c) <> "" /\
              CertFile (control_tls c) <> "" /\ KeyFile (control_tls c) <> "" /\ CAFile (control_tls c) <> "";
  sound_grace : 0 < HeartbeatGrace (switched c) <= int64_max;
  (** The windows are what the sweeper assumes of them. *)
  sound_windows : 0 <= Config.IdleStopAfter (windows c) <= int64_max /\ 0 <= Config.IdleDeleteAfter (windows c) <= int64_max /\
                  0 <= Config.IdleDeleteSafetyBuffer (windows c) <= int64_max /\ 0 < Config.OrphanReapBuffer (windows c) <= int64_max /\
                  windows c = Config.default_buffer (windows c);
  sound_sweeps : 0 < IdleSweepInterval (sweeps c) <= int64_max /\ 1 <= IdleSweepConcurrency (sweeps c) <= 16 /\
                 0 <= APIKeyCacheTTL (sweeps c) <= Minute;
  (** The sweeper at full width leaves connections for the request path. *)
  sound_pool : LockPoolSize (Postgres c) = IdleSweepConcurrency (sweeps c) + 5;
  sound_postgres : Store c = StorePostgres ->
    Host (Postgres c) <> "" /\ User (Postgres c) <> "" /\ Password (Postgres c) <> "" /\ Database (Postgres c) <> "" /\ 0 < Port (Postgres c);
}.

Lemma digit_nonneg c d : Wire.digit_value c = Some d -> 0 <= d.
Proof.
  unfold Wire.digit_value, Wire.between. destruct ((48 <=? _) && _)%N eqn:B; [|done]. apply andb_true_iff in B as [B _]. apply N.leb_le in B. intros [= <-]. lia.
Qed.

Lemma digits_value_grows acc l v : 0 <= acc -> Wire.digits_value acc l = Some v -> acc <= v.
Proof.
  revert acc. induction l as [|c l IH]; intros acc Hacc; cbn [Wire.digits_value]; [intros [= <-]; lia|].
  destruct (Wire.digit_value c) as [d|] eqn:E; [|done]. intros H. pose proof (digit_nonneg c d E).
  apply IH in H; lia.
Qed.

Lemma port_digits_value n l v : 0 <= n -> v <= 65535 -> Wire.digits_value n l = Some v -> port_digits n l = Some v.
Proof.
  revert n. induction l as [|c l IH]; intros n Hn Hv; cbn [Wire.digits_value port_digits]; [done|].
  destruct (Wire.digit_value c) as [d|] eqn:E; [|done]. intros H.
  pose proof (digit_nonneg c d E).
  pose proof (digits_value_grows (n * 10 + d) l v ltac:(lia) H). unfold cutoff.
  rewrite decide_False by lia. rewrite (Z.mod_small (n * 10)) by lia. rewrite Z.mod_small by lia. rewrite decide_False by lia. apply IH; [lia|done|done].
Qed.

(** A port that is a number is looked up as that number, however it is padded. *)
Lemma LookupPort_number p n : Atoi p = Some n -> 0 <= n <= 65535 -> LookupPort p = Some n.
Proof.
  unfold Atoi, ParseInt, LookupPort, parsePort. intros H Hn. destruct (DockerHost.Atoi (chars p)) as [m|] eqn:E; [|done].
  case_decide; [|done]. injection H as ->. unfold DockerHost.Atoi in E. destruct (chars p) as [|c l]; [done|].
  assert (Hpos : forall ds, Wire.digits_value 0 ds = Some n -> port_digits 0 ds = Some n) by (intros; apply port_digits_value; [lia|lia|done]).
  assert (Hcap : bool_decide (n >= cutoff) = false) by (apply bool_decide_eq_false; unfold cutoff; lia).
  destruct (decide (c = byte 43)) as [->|Hp]; [|destruct (decide (c = byte 45)) as [->|Hm]].
  - rewrite decide_False in E by done. destruct l as [|c l]; [done|]. destruct (Wire.digits_value 0 (c :: l)) as [v|] eqn:Ev; [|done].
    case_decide; [|done]. injection E as ->. rewrite (Hpos _ Ev). cbn [fmap option_fmap option_map negb andb]. rewrite Hcap. by rewrite decide_True.
  - destruct l as [|c l]; [done|]. destruct (Wire.digits_value 0 (c :: l)) as [v|] eqn:Ev; [|done].
    case_decide; [|done]. injection E as E. pose proof (digits_value_grows 0 _ v ltac:(lia) Ev). assert (n = 0) as -> by lia. assert (v = 0) as -> by lia. by rewrite (Hpos _ Ev).
  - destruct (Wire.digits_value 0 (c :: l)) as [v|] eqn:Ev; [|done].
    case_decide; [|done]. injection E as ->. rewrite (Hpos _ Ev). cbn [fmap option_fmap option_map negb andb]. rewrite Hcap. by rewrite decide_True.
Qed.

Lemma listenPort_number addr h p n : SplitHostPort (TrimSpace addr) = Some (h, p) -> Atoi p = Some n -> 0 <= n <= 65535 -> listenPort addr = Itoa n.
Proof. intros Hs Hp Hn. unfold listenPort. rewrite Hs. by rewrite (LookupPort_number p n). Qed.

Lemma parseKeySet_nonempty raw : "" ∉ parseKeySet raw.
Proof. unfold parseKeySet. rewrite elem_of_list_to_set, list_elem_of_filter. by intros []. Qed.

Lemma Duration_sound ok v d : Duration ok v = Some d -> in_int64 d /\ ok d = true.
Proof. intros [H ?]%where_Some. by apply ParseDuration_range in H. Qed.

(** ** Each segment *)

Ltac clean := unfold positive, nonnegative, in_range, Atoi in *; repeat match goal with
  | H : bool_decide _ = true |- _ => apply bool_decide_eq_true_1 in H
  | H : negb (bool_decide _) = true |- _ => apply negb_true_iff, bool_decide_eq_false_1 in H
  | H : where_ _ _ _ = Some _ |- _ => apply where_Some in H as [? H]
  | H : ParseInt _ _ = Some _ |- _ => apply ParseInt_range in H
  | H : Duration _ _ = Some _ |- _ => apply Duration_sound in H as [? H]
  | H : _ \/ _ |- _ => destruct H
  | H : _ /\ _ |- _ => destruct H
  end; unfold in_int64, int64_min, int64_max, max_int32 in *; subst.

Ltac segment f := unfold f; let H := fresh "H" in intros H; unload; clean.

Lemma load_keys_sound e a p s : loads load_keys e (a, p, s) ->
  a <> ∅ /\ ("" ∉ a ∪ p ∪ s) /\ a ## p /\ a ## s /\ p ## s.
Proof.
  segment load_keys. simplify_eq. pose proof (parseKeySet_nonempty (e "SANDBOX_API_KEYS")).
  pose proof (parseKeySet_nonempty (e "SANDBOX_API_PROVISIONER_KEYS")). pose proof (parseKeySet_nonempty (e "SANDBOX_API_SCALER_KEYS")).
  unfold set_Forall in *. set_solver.
Qed.

Lemma load_addrs_sound e l g m : loads load_addrs e (l, g, m) ->
  (m = "" \/ validateListenAddr m = true /\ listenPort m <> listenPort g /\
   (MetricsOnMainListener l m = true -> sameListenHost m l = true)).
Proof.
  segment load_addrs; simplify_eq; [by left|]. right. split; [done|]. split; [done|].
  intros Hm. rewrite Hm in *. match goal with H : negb (true && negb ?b) = true |- _ => by destruct b end.
Qed.

Lemma load_token_sound e t : loads load_token e t -> t <> "".
Proof. by segment load_token. Qed.

Lemma load_limits_sound prov e c : loads (load_limits prov) e c ->
  0 < MaxFileBytes c <= int64_max /\ 0 <= DefaultMaxSandboxes c <= max_int32 /\
  (prov <> ∅ -> 1 <= DefaultMaxSandboxes c) /\ 0 <= MaxInflightPerTenant c <= max_int32.
Proof.
  intros H. assert (Hin : forall n, loads (parseLimit "SANDBOX_API_MAX_INFLIGHT_PER_TENANT" 512) e n -> 0 <= n <= max_int32) by (intros n; segment parseLimit; lia).
  unfold load_limits in H. unload. match goal with H : loads (parseLimit _ _) _ _ |- _ => apply Hin in H end.
  clean; simpl; repeat split; try lia; intros Hne; rewrite (bool_decide_eq_true_2 (prov <> ∅)) in * by done; simpl in *; clean; lia.
Qed.

Lemma load_switches_sound e s : loads load_switches e s -> 0 < HeartbeatGrace s <= int64_max.
Proof. segment load_switches; simpl; unfold Second, Millisecond; lia. Qed.

Lemma set_count_all t : set_count t = 3 -> CertFile t <> "" /\ KeyFile t <> "" /\ CAFile t <> "".
Proof. unfold set_count. repeat case_decide; try done; lia. Qed.

Lemma load_grpc_tls_sound e t : loads load_grpc_tls e t -> CertFile t <> "" /\ KeyFile t <> "" /\ CAFile t <> "".
Proof. segment load_grpc_tls. by apply set_count_all. Qed.

Lemma load_control_tls_sound e t n : loads load_control_tls e (t, n) -> CertFile t <> "" /\ KeyFile t <> "" /\ CAFile t <> "".
Proof. segment load_control_tls. simplify_eq. by apply set_count_all. Qed.

Lemma load_idle_sound e s d b : loads load_idle e (s, d, b) ->
  0 <= s <= int64_max /\ 0 <= d <= int64_max /\ 0 <= b <= int64_max /\ (d > 0 \/ s > 0 -> 0 < b).
Proof.
  segment load_idle; simplify_eq; unfold Hour, Minute, Second, Millisecond in *; repeat case_decide; lia.
Qed.

Lemma load_sweeping_sound e s : loads load_sweeping e s ->
  0 < IdleSweepInterval s <= int64_max /\ 1 <= IdleSweepConcurrency s <= 16 /\ 0 < OrphanReap s <= int64_max /\ 0 <= APIKeyCacheTTL s <= Minute.
Proof.
  segment load_sweeping; simpl in *; unfold maxIdleSweepConcurrency, maxAPIKeyCacheTTL, Minute, Second, Millisecond in *; lia.
Qed.

Lemma load_postgres_sound st n e pg : loads (load_postgres st n) e pg ->
  LockPoolSize pg = n /\ (st = StorePostgres -> Host pg <> "" /\ User pg <> "" /\ Password pg <> "" /\ Database pg <> "" /\ 0 < Port pg).
Proof. destruct st; segment load_postgres; simpl; done || (split; [done|]; intros _; repeat split; done || lia). Qed.

Lemma segments_read :
  reads_env load_log_level /\
  reads_env load_keys /\
  reads_env load_addrs /\
  reads_env load_token /\
  reads_env load_switches /\
  reads_env load_grpc_tls /\
  reads_env load_control_tls /\
  reads_env load_idle /\
  reads_env load_sweeping /\
  (forall p, reads_env (load_limits p)) /\ (forall n, reads_env (load_store n)).
Proof.
  assert (Hflag : forall n d, reads_env (load_flag n d)) by (intros; unfold load_flag; reads).
  assert (Hlim : forall n d, reads_env (parseLimit n d)) by (intros; unfold parseLimit; reads).
  assert (Hpg : forall st n, reads_env (load_postgres st n)) by (intros [] ?; unfold load_postgres; reads).
  repeat split; intros; unfold load_log_level, load_keys, load_addrs, load_token, load_switches, load_grpc_tls, load_control_tls, load_idle, load_sweeping, load_limits, load_store; reads; auto.
Qed.

Lemma load_store_sound n e st pg : loads (load_store n) e (st, pg) ->
  LockPoolSize pg = n /\ (st = StorePostgres -> Host pg <> "" /\ User pg <> "" /\ Password pg <> "" /\ Database pg <> "" /\ 0 < Port pg).
Proof.
  unfold load_store. intros H. apply loads_bind in H as (v & _ & H); [|by reads]. apply loads_bind in H as (b & _ & H); [|by reads].
  apply loads_bind in H as (p & Hp & H); [|by destruct b; unfold load_postgres; reads]. apply loads_ret in H. simplify_eq. by eapply load_postgres_sound.
Qed.

(** Two ports that are one number are one text for [listenPort]. *)
Lemma ports_differ m g h p h' q n k : validateListenAddr m = true -> listenPort m <> listenPort g ->
  SplitHostPort (TrimSpace m) = Some (h, p) -> Atoi p = Some n -> SplitHostPort (TrimSpace g) = Some (h', q) -> Atoi q = Some k -> n <> k.
Proof.
  unfold validateListenAddr, valid_port. intros Hv Hne Hm Hp Hg Hq <-. rewrite Hm, Hp in Hv. apply bool_decide_eq_true_1 in Hv.
  apply Hne. rewrite (listenPort_number m h p n), (listenPort_number g h' q n) by (done || lia). done.
Qed.

Lemma default_buffer_fixed s d b o : (d > 0 \/ s > 0 -> 0 < b) -> Config.mkConfig s d b o = Config.default_buffer (Config.mkConfig s d b o).
Proof. intros Hb. unfold Config.default_buffer. rewrite decide_False; [done|]. simpl. lia. Qed.

(** C37: whatever the environment holds, a configuration that LoadAPI returns is one the rest
    of the program can run on. There is an admin key, no key is empty and none has two roles;
    the default quota fits its 32-bit column and is at least 1 when provisioners may create tenants;
    the metrics port differs from the gRPC port as a number, however its digits are spelled; both TLS
    identities are complete; every duration and limit is in its range; a deletion window comes
    with a positive safety buffer, as the sweeper requires; and the lock pool holds five
    connections more than the sweeper uses. *)
Theorem loaded_config_sound e c : loads LoadAPI e c -> sound c.
Proof.
  unfold LoadAPI. intros H. destruct segments_read as (?&?&?&?&?&?&?&?&?&?&?).
  repeat (apply loads_bind in H as (? & ? & H); [|by auto with loaders]; try match type of H with loads (let '(_, _) := ?x in _) _ _ => destruct x as [[??]?] || destruct x end).
  apply loads_ret in H. subst c.
  repeat match goal with
  | H : loads load_keys _ _ |- _ => apply load_keys_sound in H as (? & ? & ? & ? & ?)
  | H : loads load_addrs _ _ |- _ => apply load_addrs_sound in H; rename H into Haddr
  | H : loads load_token _ _ |- _ => apply load_token_sound in H
  | H : loads (load_limits _) _ _ |- _ => apply load_limits_sound in H as (? & ? & ? & ?)
  | H : loads load_switches _ _ |- _ => apply load_switches_sound in H
  | H : loads load_grpc_tls _ _ |- _ => apply load_grpc_tls_sound in H as (? & ? & ?)
  | H : loads load_control_tls _ _ |- _ => apply load_control_tls_sound in H as (? & ? & ?)
  | H : loads load_idle _ _ |- _ => apply load_idle_sound in H as (? & ? & ? & ?)
  | H : loads load_sweeping _ _ |- _ => apply load_sweeping_sound in H as (? & ? & ? & ?)
  | H : loads (load_store _) _ _ |- _ => apply load_store_sound in H as [? ?]
  end.
  split; cbn; auto using default_buffer_fixed; try done.
  - intros Hm h p' h' q n m Hs1 Hn Hs2 Hq. destruct Haddr as [->|(Hv & Hne & _)]; [done|]. by eapply ports_differ.
  - intros Hon. destruct Haddr as [->|(_ & _ & Hh)]; auto.
  - auto 10 using default_buffer_fixed.
Qed.

Lemma LoadAPI_reads : reads_env LoadAPI.
Proof. destruct segments_read as (?&?&?&?&?&?&?&?&?&?&?). unfold LoadAPI. reads; auto. Qed.
End load.

(** ** A minimal environment *)

Definition no_services : Services := {| service_port := fun _ => None |}.

Definition set (l : list (string * string)) : env := fun name => default "" (list_to_map (M := gmap string string) l !! name).

Definition minimal : list (string * string) :=
  [("SANDBOX_API_KEYS", " admin ,,second"); ("SANDBOX_API_RUNNER_REGISTRATION_TOKEN", "t");
   ("SANDBOX_API_GRPC_TLS_CERT_FILE", "c"); ("SANDBOX_API_GRPC_TLS_KEY_FILE", "k"); ("SANDBOX_API_GRPC_TLS_CLIENT_CA_FILE", "a");
   ("SANDBOX_API_RUNNER_CONTROL_GRPC_TLS_CA_FILE", "a"); ("SANDBOX_API_RUNNER_CONTROL_GRPC_TLS_CERT_FILE", "c");
   ("SANDBOX_API_RUNNER_CONTROL_GRPC_TLS_KEY_FILE", "k")].

Definition default_config : APIConfig :=
  mkAPIConfig 0 {["admin"; "second"]} ∅ ∅ ":8080" ":9090" "" "t" (mkLimits 10485760 50 512)
    (mkSwitches "" "/var/lib/n8n-sandbox-api" true false false (45 * Second)) (mkTLS "c" "k" "a") (mkTLS "c" "k" "a") ""
    (Config.mkConfig Hour (24 * Hour) Minute (5 * Minute)) (mkSweeping Minute 8 (5 * Minute) (15 * Second))
    StoreSQLite (mkPostgres "" 5432 "" "" "" "require" 13) "".

(** What the loader answers, without the environment it returns. *)
Definition answer (vars : list (string * string)) : string + APIConfig := fst (LoadAPI (S := no_services) exact_fraction (set vars)).

Example loads_defaults : answer minimal = inr default_config.
Proof. vm_compute. reflexivity. Qed.

Example refuses_shared_key : answer (("SANDBOX_API_SCALER_KEYS", "x,second") :: minimal) =
  inl "SANDBOX_API_SCALER_KEYS must not share a key with SANDBOX_API_KEYS or SANDBOX_API_PROVISIONER_KEYS".
Proof. vm_compute. reflexivity. Qed.

(** A padded port is the same port. *)
Example refuses_grpc_port : answer (("SANDBOX_API_METRICS_LISTEN_ADDR", "127.0.0.1:09090") :: minimal) =
  inl "SANDBOX_API_METRICS_LISTEN_ADDR must not use the same port as SANDBOX_API_GRPC_LISTEN_ADDR".
Proof. vm_compute. reflexivity. Qed.

Lemma loaded_config_sound_witness :
  loads (LoadAPI (S := no_services) exact_fraction) (set minimal) default_config /\ sound (S := no_services) default_config.
Proof.
  assert (H : loads (LoadAPI (S := no_services) exact_fraction) (set minimal) default_config).
  { apply loads_answer; [apply LoadAPI_reads|exact loads_defaults]. }
  split; [exact H|]. apply (loaded_config_sound (S := no_services) exact_fraction (set minimal) default_config H).
Defined.
End LoadAPI.
