(* ===== verification/NetAddr.v ===== *)
(** * IP addresses in settings ([net], [net/netip])

    [net.ParseIP], [net.ParseCIDR] and [net.ParseMAC], as the configuration loaders and the
    golden snapshot's checks use them; and that an IPv4 address survives being printed. *)

From S2P Require Import Prelude.
From S2P Require Import GoStrings.
From S2P Require Import Wire.
From S2P Require Import EnvParse.

Module NetAddr.
Import GoStrings EnvParse.

(** [netip.Addr] without a zone: the bytes of its four or sixteen. *)
Inductive Addr := V4 (l : list Z) | V6 (l : list Z).

(** One decimal field: no sign, no leading zero, at most 255. *)
Definition octet (l : list ascii) : option Z :=
  match l with
  | [] => None
  | c :: r => if decide (c = byte 48 /\ r <> []) then None
              else match Wire.digits_value 0 l with Some n => if decide (n <= 255) then Some n else None | None => None end
  end.

(** [parseIPv4Fields] *)
Definition parseIPv4 (l : list ascii) : option (list Z) :=
  let fields := split_on dot l in
  if decide (length fields = 4%nat) then mapM octet fields else None.

Definition hex_value (c : ascii) : option Z :=
  let n := Z.of_N (Ascii.N_of_ascii c) in
  if decide (48 <= n <= 57) then Some (n - 48)
  else if decide (97 <= n <= 102) then Some (n - 87)
  else if decide (65 <= n <= 70) then Some (n - 55)
  else None.

(** The digits of a group with their value, and what follows them. *)
Fixpoint hex_digits (l : list ascii) (acc : Z) (n : nat) : Z * nat * list ascii :=
  match l with
  | c :: l' => match hex_value c with Some d => hex_digits l' (acc * 16 + d) (S n) | None => (acc, n, l) end
  | [] => (acc, n, [])
  end.

(** The loop of [parseIPv6]: [ip] holds the bytes so far and [ellipsis] where the zeros go; the
    result is both, with what is left of the text.  Every round adds two bytes. *)
Fixpoint ipv6_groups (rounds : nat) (ip : list Z) (ellipsis : option nat) (s : list ascii) : option (list Z * option nat * list ascii) :=
  match rounds with
  | O => Some (ip, ellipsis, s)
  | S k =>
      let '(acc, off, rest) := hex_digits s 0 0 in
      if decide (4 < off)%nat then None
      else if decide (off = 0)%nat then None
      else match rest with
           | c :: _ =>
               if decide (c = dot) then
                 if decide (ellipsis = None /\ length ip <> 12%nat) then None
                 else if decide (16 < length ip + 4)%nat then None
                 else match parseIPv4 s with Some v4 => Some (ip ++ v4, ellipsis, []) | None => None end
               else
                 let ip := ip ++ [acc / 256; acc mod 256] in
                 if decide (c <> colon) then None
                 else match rest with
                      | _ :: d :: r =>
                          if decide (d = colon) then
                            match ellipsis with
                            | Some _ => None
                            | None => match r with
                                      | [] => Some (ip, Some (length ip), [])
                                      | _ => ipv6_groups k ip (Some (length ip)) r
                                      end
                            end
                          else ipv6_groups k ip ellipsis (d :: r)
                      | _ => None
                      end
           | [] => Some (ip ++ [acc / 256; acc mod 256], ellipsis, [])
           end
  end.

(** A zone is no part of an IP: [net.ParseIP] and [net.ParseCIDR] refuse it. *)
Definition parseIPv6 (l : list ascii) : option (list Z) :=
  if decide (byte 37 ∈ l) then None
  else
    let '(ellipsis, s) := match l with
                          | a :: b :: r => if decide (a = colon /\ b = colon) then (Some 0%nat, r) else (None, l)
                          | _ => (None, l)
                          end in
    if decide (ellipsis = Some 0%nat /\ s = []) then Some (replicate 16 0)
    else match ipv6_groups 8 [] ellipsis s with
         | Some (ip, ellipsis, []) =>
             if decide (length ip < 16)%nat then
               match ellipsis with
               | None => None
               | Some e => Some (take e ip ++ replicate (16 - length ip) 0 ++ drop e ip)
               end
             else match ellipsis with Some _ => None | None => Some ip end
         | _ => None
         end.

(** [netip.ParseAddr]: the first dot, colon or percent sign decides. *)
Fixpoint kind_of (l : list ascii) : option ascii :=
  match l with
  | [] => None
  | c :: l' => if decide (c = dot \/ c = colon \/ c = byte 37) then Some c else kind_of l'
  end.

Definition ParseAddr (s : string) : option Addr :=
  let l := chars s in
  match kind_of l with
  | Some c => if decide (c = dot) then V4 <$> parseIPv4 l else if decide (c = colon) then V6 <$> parseIPv6 l else None
  | None => None
  end.

(** [net.IP]: sixteen bytes. *)
Definition v4_prefix : list Z := replicate 10 0 ++ [255; 255].
Definition As16 (a : Addr) : list Z := match a with V4 l => v4_prefix ++ l | V6 l => l end.
Definition ParseIP (s : string) : option (list Z) := As16 <$> ParseAddr s.

Definition To4 (ip : list Z) : option (list Z) := if decide (take 12 ip = v4_prefix) then Some (drop 12 ip) else None.
Definition IsUnspecified (ip : list Z) : bool := bool_decide (ip = v4_prefix ++ [0; 0; 0; 0] \/ ip = replicate 16 0).

Definition number_of (l : list Z) : Z := foldl (fun n b => n * 256 + b) 0 l.

(** [net.dtoi], of all of [mask]. *)
Fixpoint dtoi (n : Z) (l : list ascii) : option Z :=
  match l with
  | [] => Some n
  | c :: l' => match Wire.digit_value c with
               | Some d => let n := n * 10 + d in if decide (n >= 16777215) then None else dtoi n l'
               | None => None
               end
  end.

Definition BitLen (a : Addr) : Z := match a with V4 _ => 32 | V6 _ => 128 end.

Definition ParseCIDR (s : string) : option (Addr * Z) :=
  let l := chars s in
  match index (byte 47) l with
  | None => None
  | Some i =>
      match ParseAddr (of_chars (take i l)), drop (S i) l with
      | None, _ | _, [] => None
      | Some a, mask => match dtoi 0 mask with
                        | Some n => if decide (n > BitLen a) then None else Some (a, n)
                        | None => None
                        end
      end
  end.

(** [IPNet.Contains], for an address of sixteen bytes: an IPv4 address is in no IPv6
    network, and the other way round; a network of mapped addresses counts as IPv4. *)
Definition Contains (net : Addr * Z) (ip : list Z) : bool :=
  let same a b n bits := bool_decide (Z.shiftr (number_of a) (bits - n) = Z.shiftr (number_of b) (bits - n)) in
  match net.1, To4 ip with
  | V4 base, Some x => same base x net.2 32
  | V4 _, None => false
  | V6 base, x =>
      match To4 base, x with
      | Some b, Some y => if decide (96 <= net.2) then same b y (net.2 - 96) 32 else false
      | Some _, None => if decide (96 <= net.2) then false else same base ip net.2 128
      | None, Some _ => false
      | None, None => same base ip net.2 128
      end
  end.

(** [(net.IP).String] of four bytes. *)
Definition IPv4String (l : list Z) : string :=
  match l with
  | [a; b; c; d] => of_chars (Wire.format_uint a ++ dot :: Wire.format_uint b ++ dot :: Wire.format_uint c ++ dot :: Wire.format_uint d)
  | _ => ""
  end.

Example parses_ips :
  ParseIP "8.8.8.8" = Some (v4_prefix ++ [8; 8; 8; 8]) /\ ParseIP "::ffff:1.2.3.4" = Some (v4_prefix ++ [1; 2; 3; 4]) /\
  ParseIP "2001:db8::1" = Some ([32; 1; 13; 184] ++ replicate 11 0 ++ [1]) /\ ParseIP "::" = Some (replicate 16 0) /\
  ParseIP "1:2:3:4:5:6:7::" = Some [0; 1; 0; 2; 0; 3; 0; 4; 0; 5; 0; 6; 0; 7; 0; 0].
Proof. vm_compute. auto 10. Qed.

Example refuses_ips :
  ParseIP "01.2.3.4" = None /\ ParseIP "1.2.3" = None /\ ParseIP "256.0.0.1" = None /\ ParseIP "fe80::1%eth0" = None /\
  ParseIP "1:2:3:4:5:6:7:8::" = None /\ ParseIP "1::2::3" = None /\ ParseIP ":1" = None /\ ParseIP "" = None /\ ParseIP "12345::" = None.
Proof. vm_compute. auto 10. Qed.

Example parses_cidrs : ParseCIDR "172.16.0.1/24" = Some (V4 [172; 16; 0; 1], 24) /\ ParseCIDR "10.0.0.0/33" = None /\ ParseCIDR "10.0.0.0" = None.
Proof. vm_compute. auto. Qed.

(** ** Printing and parsing *)

Definition is_byte (b : Z) : Prop := 0 <= b <= 255.

Lemma octet_format n : is_byte n -> octet (Wire.format_uint n) = Some n.
Proof.
  intros Hn. assert (H : forallb (fun k => bool_decide (octet (Wire.format_uint (Z.of_nat k)) = Some (Z.of_nat k))) (seq 0 256) = true) by (vm_compute; reflexivity).
  rewrite forallb_forall in H. specialize (H (Z.to_nat n)). rewrite Z2Nat.id in H by (unfold is_byte in Hn; lia).
  eapply bool_decide_eq_true_1. apply H. apply in_seq. unfold is_byte in Hn. lia.
Qed.

Lemma split_on_cons c l r : c ∉ l -> split_on c (l ++ c :: r) = l :: split_on c r.
Proof.
  induction l as [|x l IH]; cbn [app split_on]; intros Hc; [by destruct (decide (c = c))|]. apply not_elem_of_cons in Hc as [Hx Hl].
  destruct (decide (x = c)); [congruence|]. by rewrite IH.
Qed.

Lemma split_on_last c l : c ∉ l -> split_on c l = [l].
Proof.
  induction l as [|x l IH]; cbn [split_on]; intros Hc; [done|]. apply not_elem_of_cons in Hc as [Hx Hl]. destruct (decide (x = c)); [congruence|]. by rewrite IH.
Qed.

Lemma format_no c n : Wire.digit_value c = None -> 0 <= n -> c ∉ Wire.format_uint n.
Proof. intros Hc Hn. apply Wire.digits_no; [|done]. apply Wire.decimal_digits; [done|constructor]. Qed.

Lemma parseIPv4_print a b c d : is_byte a -> is_byte b -> is_byte c -> is_byte d ->
  parseIPv4 (chars (IPv4String [a; b; c; d])) = Some [a; b; c; d].
Proof.
  intros Ha Hb Hc Hd. unfold IPv4String. rewrite chars_of_chars. unfold parseIPv4.
  assert (Hno : forall n, is_byte n -> dot ∉ Wire.format_uint n) by (intros n [? ?]; apply format_no; [reflexivity|lia]).
  rewrite !split_on_cons by auto. rewrite split_on_last by auto. cbn [length]. rewrite (decide_True (P := 4%nat = 4%nat)) by done.
  cbn [mapM]. by rewrite !octet_format.
Qed.

Lemma kind_of_print a r : is_byte a -> kind_of (Wire.format_uint a ++ dot :: r) = Some dot.
Proof.
  intros [Ha _]. assert (Hd : Forall Wire.is_digit (Wire.format_uint a)) by (apply Wire.decimal_digits; [done|constructor]).
  induction Hd as [|x l Hx Hl IH]; cbn [app kind_of]; [by rewrite decide_True by auto|].
  rewrite decide_False; [done|]. intros [-> | [-> | ->] ]; destruct Hx as [? Hx]; vm_compute in Hx; discriminate Hx.
Qed.

Lemma ParseIP_print a b c d : is_byte a -> is_byte b -> is_byte c -> is_byte d ->
  ParseIP (IPv4String [a; b; c; d]) = Some (v4_prefix ++ [a; b; c; d]).
Proof.
  intros Ha Hb Hc Hd. unfold ParseIP, ParseAddr. rewrite parseIPv4_print by done.
  unfold IPv4String at 1. rewrite chars_of_chars, kind_of_print by done. by rewrite decide_True by done.
Qed.

(** ** An IP is sixteen bytes *)

Lemma digits_value_nonneg acc l v : 0 <= acc -> Wire.digits_value acc l = Some v -> 0 <= v.
Proof.
  revert acc. induction l as [|c l IH]; intros acc Hacc; cbn [Wire.digits_value]; [by intros [= <-]|].
  destruct (Wire.digit_value c) as [d|] eqn:E; [|done]. apply IH. revert E. unfold Wire.digit_value, Wire.between. destruct ((48 <=? _) && _)%N eqn:B; [|done].
  apply andb_true_iff in B as [B _]. apply N.leb_le in B. intros [= <-]. lia.
Qed.

Lemma octet_byte l n : octet l = Some n -> is_byte n.
Proof.
  unfold octet. destruct l as [|c l]; [done|]. case_decide; [done|]. destruct (Wire.digits_value 0 (c :: l)) as [m|] eqn:E; [|done].
  case_decide; [|done]. intros [= <-]. split; [by eapply digits_value_nonneg|done].
Qed.

Lemma parseIPv4_bytes l r : parseIPv4 l = Some r -> length r = 4%nat /\ Forall is_byte r.
Proof.
  unfold parseIPv4. case_decide as Hl; [|done]. intros H. apply mapM_Some in H. split; [by rewrite <- (Forall2_length _ _ _ H)|].
  clear Hl. induction H; constructor; [by eapply octet_byte|done].
Qed.

Lemma hex_value_range c d : hex_value c = Some d -> 0 <= d < 16.
Proof. unfold hex_value. repeat case_decide; try done; intros [= <-]; lia. Qed.

Lemma hex_digits_range l acc n a m r : 0 <= acc < 16 ^ Z.of_nat n -> hex_digits l acc n = (a, m, r) -> 0 <= a < 16 ^ Z.of_nat m.
Proof.
  revert acc n. induction l as [|c l IH]; intros acc n Hacc; cbn [hex_digits]; [intros [= <- <- <-]; lia|].
  destruct (hex_value c) as [d|] eqn:E; [|intros [= <- <- <-]; lia]. apply IH. apply hex_value_range in E.
  rewrite Nat2Z.inj_succ, Z.pow_succ_r by lia. lia.
Qed.

Lemma group_bytes l acc off r : hex_digits l 0 0 = (acc, off, r) -> (off <= 4)%nat -> Forall is_byte [acc / 256; acc mod 256].
Proof.
  intros H Ho. apply hex_digits_range in H; [|simpl; lia].
  assert (16 ^ Z.of_nat off <= 16 ^ 4) by (apply Z.pow_le_mono_r; lia). change (16 ^ 4) with 65536 in *.
  repeat constructor; try (apply Z.mod_pos_bound; lia) || (apply Z.div_pos; lia) || idtac.
  - assert (acc / 256 < 256) by (apply Z.div_lt_upper_bound; lia). lia.
  - pose proof (Z.mod_pos_bound acc 256). lia.
Qed.

Definition good_groups (ip : list Z) (e : option nat) (most : nat) : Prop :=
  Forall is_byte ip /\ (length ip <= most)%nat /\ (forall i, e = Some i -> i <= length ip)%nat.

Lemma ipv6_groups_bytes rounds ip e s ip' e' s' : (length ip + 2 * rounds = 16)%nat -> good_groups ip e 16 ->
  ipv6_groups rounds ip e s = Some (ip', e', s') -> good_groups ip' e' 16.
Proof.
  revert ip e s. induction rounds as [|k IH]; intros ip e s Hlen Hg; cbn [ipv6_groups]; [by intros [= <- <- <-]|].
  destruct (hex_digits s 0 0) as [[acc off] rest] eqn:E. case_decide as Ho; [done|]. case_decide; [done|].
  assert (Hgrp : Forall is_byte [acc / 256; acc mod 256]) by (eapply group_bytes; [exact E|lia]).
  destruct Hg as (Hb & Hl & He). remember [acc / 256; acc mod 256] as two eqn:Etwo. assert (H2 : length two = 2%nat) by (by rewrite Etwo). clear Etwo.
  assert (Hext : forall x, (forall i, x = Some i -> (i <= length (ip ++ two)%list)%nat) -> good_groups (ip ++ two) x 16).
  { intros x Hx. split; [by apply Forall_app|]. split; [rewrite length_app; lia|exact Hx]. }
  assert (Hmon : forall i, e = Some i -> (i <= length (ip ++ two)%list)%nat) by (intros i Hi; rewrite length_app; specialize (He i Hi); lia).
  destruct rest as [|c rest]; [intros [= <- <- <-]; by apply Hext|].
  case_decide.
  - case_decide; [done|]. case_decide; [done|]. destruct (parseIPv4 s) as [v4|] eqn:E4; [|done]. intros [= <- <- <-].
    apply parseIPv4_bytes in E4 as [Hl4 Hb4]. split; [by apply Forall_app|]. rewrite length_app. split; [lia|]. intros i Hi. specialize (He i Hi). lia.
  - case_decide; [done|]. destruct rest as [|d r]; [done|]. case_decide.
    + destruct e; [done|]. assert (Hn : good_groups (ip ++ two) (Some (length (ip ++ two))) 16) by (apply Hext; intros i Hi; by injection Hi as <-).
      destruct r; [by intros [= <- <- <-]|]. apply IH; [rewrite length_app; lia|done].
    + apply IH; [rewrite length_app; lia|by apply Hext].
Qed.

Lemma parseIPv6_bytes l ip : parseIPv6 l = Some ip -> length ip = 16%nat /\ Forall is_byte ip.
Proof.
  assert (Hz : forall n, Forall is_byte (replicate n 0)) by (intros n; apply Forall_replicate; split; lia).
  unfold parseIPv6. case_decide; [done|].
  destruct (match l with a :: b :: r => _ | _ => _ end) as [e s] eqn:Ee. case_decide; [intros [= <-]; split; [done|exact (Hz 16%nat)]|].
  destruct (ipv6_groups 8 [] e s) as [[[ip1 e1] [|]]|] eqn:E; [|done..].
  apply ipv6_groups_bytes in E as (Hb & Hl & He); [|done|].
  2:{ split; [constructor|]. split; [simpl; lia|]. intros i ->. destruct l as [|a [|b r]]; [done..|]. revert Ee. case_decide; [|done]. by intros [= <- _]. }
  case_decide.
  - destruct e1 as [i|]; [|done]. intros [= <-]. specialize (He i eq_refl). rewrite !length_app, length_take, length_replicate, length_drop. split; [lia|].
    rewrite !Forall_app. split; [by apply Forall_take|]. split; [apply Hz|by apply Forall_drop].
  - destruct e1; [done|]. intros [= <-]. split; [lia|done].
Qed.

Lemma ParseIP_bytes s ip : ParseIP s = Some ip -> length ip = 16%nat /\ Forall is_byte ip.
Proof.
  unfold ParseIP, ParseAddr. destruct (kind_of (chars s)) as [c|]; [|done]. case_decide; [|case_decide; [|done]].
  - destruct (parseIPv4 (chars s)) as [l|] eqn:E; [|done]. intros [= <-]. apply parseIPv4_bytes in E as [Hl Hb]. split; [simpl; by rewrite Hl|].
    do 12 (constructor; [split; lia|]). done.
  - destruct (parseIPv6 (chars s)) as [l|] eqn:E; [|done]. intros [= <-]. by apply parseIPv6_bytes in E.
Qed.

Lemma ParseIP_To4 s ip l : ParseIP s = Some ip -> To4 ip = Some l ->
  exists a b c d, l = [a; b; c; d] /\ is_byte a /\ is_byte b /\ is_byte c /\ is_byte d.
Proof.
  intros [Hl Hb]%ParseIP_bytes. unfold To4. case_decide; [|done]. intros [= <-]. apply (Forall_drop _ 12) in Hb. pose proof (length_drop ip 12) as Hd. rewrite Hl in Hd.
  destruct (drop 12 ip) as [|a [|b [|c [|d [|]]]]]; try done. exists a, b, c, d. by rewrite !Forall_cons in Hb; naive_solver.
Qed.

(** ** [net.ParseMAC]: whether it accepts [s] *)

(** [xtoi2]: two hexadecimal digits and then [sep], or the end. *)
Definition xtoi2 (sep : option ascii) (l : list ascii) : bool :=
  match l with
  | a :: b :: r => match hex_value a, hex_value b with
                   | Some _, Some _ => match r with [] => true | c :: _ => bool_decide (Some c = sep) end
                   | _, _ => false
                   end
  | _ => false
  end.

Definition mac_length (n : nat) : bool := bool_decide (n = 6 \/ n = 8 \/ n = 20)%nat.

Definition ParseMAC (s : string) : bool :=
  let l := chars s in
  let len := length l in
  if decide (len < 14)%nat then false
  else match l !! 2%nat, l !! 4%nat with
       | Some c, Some d =>
           if decide (c = colon \/ c = byte 45) then
             bool_decide ((len + 1) mod 3 = 0)%nat && mac_length ((len + 1) / 3) &&
             forallb (fun i => xtoi2 (Some c) (drop (3 * i) l)) (seq 0 ((len + 1) / 3))
           else if decide (d = dot) then
             bool_decide ((len + 1) mod 5 = 0)%nat && mac_length (2 * (len + 1) / 5) &&
             forallb (fun i => xtoi2 None (take 2 (drop (5 * i) l)) && xtoi2 (Some d) (drop (5 * i + 2) l)) (seq 0 ((len + 1) / 5))
           else false
       | _, _ => false
       end.

Example parses_macs : ParseMAC "06:00:AC:10:00:02" = true /\ ParseMAC "0600.ac10.0002" = true /\ ParseMAC "06:00:AC:10:00" = false /\ ParseMAC "06-00-AC-10-00-0g" = false.
Proof. vm_compute. auto. Qed.
End NetAddr.
