(* ===== verification/ServeMux.v ===== *)
(** * [http.ServeMux] of Go's standard library, as both servers use it

    Patterns of literal segments and one-segment wildcards, matched against the escaped
    path, whose segments are decoded one by one; an unclean path is redirected.  Shared by
    the API's router ([Gateway]) and the runner's ([RunnerHTTP]). *)

From S2P Require Import Prelude GoStrings NetAddr Paths.

Module ServeMux.
Import GoStrings.

(** ** Matching *)

Definition percent : ascii := byte 37.

(** [url.PathUnescape] *)
Fixpoint unescape (l : list ascii) : option (list ascii) :=
  match l with
  | [] => Some []
  | c :: l' =>
      if decide (c = percent) then
        match l' with
        | a :: b :: r =>
            match NetAddr.hex_value a, NetAddr.hex_value b with
            | Some x, Some y => cons (byte (Z.to_N (x * 16 + y))) <$> unescape r
            | _, _ => None
            end
        | _ => None
        end
      else cons c <$> unescape l'
  end.

(** The segments of a path, decoded one by one as they are matched. *)
Definition segments (raw : string) : list (list ascii) := (fun s => default s (unescape s)) <$> Paths.split (chars raw).

(** A wildcard matches one segment that is not empty. *)
Definition is_wildcard (p : list ascii) : bool := match p with c :: _ => bool_decide (c = byte 123) | [] => false end.

Fixpoint match_segments (p s : list (list ascii)) : bool :=
  match p, s with
  | [], [] => true
  | a :: p', b :: s' => (if is_wildcard a then bool_decide (b <> []) else bool_decide (a = b)) && match_segments p' s'
  | _, _ => false
  end.

Definition match_method (pattern method : string) : bool :=
  bool_decide (pattern = method) || bool_decide (pattern = "GET" /\ method = "HEAD").

Definition match_pattern (pattern raw : string) : bool := match_segments (Paths.split (chars pattern)) (segments raw).

(** [cleanPath] of net/http *)
Definition cleanPath (p : string) : string :=
  if decide (p = "") then "/"
  else
    let p := if HasPrefix p "/" then p else "/" +:+ p in
    let np := Paths.Clean p in
    if decide (last (chars p) = Some Paths.slash /\ np <> "/") then np +:+ "/" else np.

(** Redirected to its clean form before any route is looked for. *)
Definition redirected (method raw : string) : Prop := method <> "CONNECT" /\ cleanPath raw <> raw.
#[global] Instance redirected_dec method raw : Decision (redirected method raw).
Proof. unfold redirected. apply _. Defined.

(** [URL.Path] of a request whose [URL.EscapedPath()] is [raw]. *)
Definition decoded (raw : string) : string := of_chars (default (chars raw) (unescape (chars raw))).

(** Two patterns that some path matches both. *)
Fixpoint overlap (p q : list (list ascii)) : bool :=
  match p, q with
  | [], [] => true
  | a :: p', b :: q' => (is_wildcard a || is_wildcard b || bool_decide (a = b)) && overlap p' q'
  | _, _ => false
  end.

(** ** What a pattern's paths decode to *)

Fixpoint joins (l : list (list ascii)) : list ascii :=
  match l with [] => [] | [e] => e | e :: l' => e ++ Paths.slash :: joins l' end.

Lemma split_cons l : exists w ws, Paths.split l = w :: ws.
Proof. induction l as [|x l (w & ws & E)]; simpl; [eauto|]. case_decide; [eauto|]. rewrite E. eauto. Qed.

Lemma hex_not_slash c x : NetAddr.hex_value c = Some x -> c <> Paths.slash.
Proof. intros H ->. by vm_compute in H. Qed.

(** Decoding the whole path is decoding its segments: an escape holds no slash. *)
Lemma unescape_segments l p : unescape l = Some p ->
  exists segs, Forall2 (fun s s' => unescape s = Some s') (Paths.split l) segs /\ p = joins segs.
Proof.
  revert p. remember (length l) as n eqn:Hn. assert (Hle : (length l <= n)%nat) by lia. clear Hn. revert l Hle.
  induction n as [|n IH]; intros l Hle p.
  { destruct l; [|simpl in Hle; lia]. intros [= <-]. exists [ [] ]. split; [by repeat constructor|done]. }
  destruct l as [|c l]; [intros [= <-]; exists [ [] ]; split; [by repeat constructor|done]|]. simpl in Hle.
  assert (Hjoin : forall a (segs : list (list ascii)) s1 segs', segs = s1 :: segs' -> a :: joins segs = joins ((a :: s1) :: segs')).
  { intros a segs s1 segs' ->. by destruct segs'. }
  cbn [unescape Paths.split]. case_decide as Hc.
  - rewrite decide_False by (subst; done). destruct l as [|a [|b r] ]; try done.
    destruct (NetAddr.hex_value a) as [x|] eqn:Ea; [|done]. destruct (NetAddr.hex_value b) as [y|] eqn:Eb; [|done].
    destruct (unescape r) as [q|] eqn:Er; [|done]. intros [= <-].
    destruct (IH r ltac:(simpl in Hle; lia) q Er) as (segs & HF & ->).
    cbn [Paths.split]. rewrite !decide_False by (by eapply hex_not_slash).
    destruct (split_cons r) as (w & ws & Ew). rewrite Ew in *. inversion HF as [|? s1 ? segs' Hw HF']; subst.
    exists ((byte (Z.to_N (x * 16 + y)) :: s1) :: segs'). split; [|by apply Hjoin].
    constructor; [|done]. cbn [unescape]. rewrite decide_True by done. by rewrite Ea, Eb, Hw.
  - destruct (unescape l) as [q|] eqn:El; [|done]. intros [= <-]. destruct (IH l ltac:(lia) q El) as (segs & HF & ->).
    case_decide as Hs.
    + exists ([] :: segs). split; [by constructor|]. destruct (split_cons l) as (w & ws & Ew). rewrite Ew in HF.
      inversion HF; subst. done.
    + destruct (split_cons l) as (w & ws & Ew). rewrite Ew in *. inversion HF as [|? s1 ? segs' Hw HF']; subst.
      exists ((c :: s1) :: segs'). split; [|by apply Hjoin]. constructor; [|done]. cbn [unescape]. rewrite decide_False by done. by rewrite Hw.
Qed.

Lemma segments_path raw path : unescape (chars raw) = Some (chars path) -> chars path = joins (segments raw).
Proof.
  intros (segs & HF & ->)%unescape_segments. f_equal. unfold segments.
  induction HF as [|s s' l l' H _ IH]; [done|]. rewrite fmap_cons, H, <- IH. done.
Qed.

(** The path of a request that a pattern takes, by its segments. *)
Lemma match_pattern_segments pattern raw : match_pattern pattern raw = true ->
  Forall2 (fun a b => if is_wildcard a then b <> [] else a = b) (Paths.split (chars pattern)) (segments raw).
Proof.
  unfold match_pattern. generalize (Paths.split (chars pattern)) (segments raw). intros p.
  induction p as [|a p IH]; intros [|b s]; simpl; try done. intros [H1 H2]%andb_true_iff. constructor; [|by apply IH].
  destruct (is_wildcard a); by apply bool_decide_eq_true in H1.
Qed.

(** No path of a pattern passes [ok], whatever its wildcards stand for. *)
Definition excluded (ok : list ascii -> bool) (p : list (list ascii)) : Prop :=
  forall segs, Forall2 (fun a b : list ascii => if is_wildcard a then b <> [] else a = b) p segs -> ok (joins segs) = false.

Ltac exclude :=
  unfold excluded; simpl; intros segs HF;
  repeat match goal with
    | H : Forall2 _ (_ :: _) _ |- _ => let b := fresh "b" in let l := fresh "l" in inversion H as [|? b ? l ? ?]; clear H; subst; simpl in *
    | H : Forall2 _ [] _ |- _ => inversion H; clear H; subst
    end; simpl; subst; try reflexivity.

(** A pattern that takes a path with a decoding that passes [ok] is not excluded. *)
Lemma excluded_path ok pattern raw path : excluded ok (Paths.split (chars pattern)) -> match_pattern pattern raw = true ->
  unescape (chars raw) = Some (chars path) -> ok (chars path) = false.
Proof. intros Hx Hm Hu. rewrite (segments_path _ _ Hu). apply Hx. by apply match_pattern_segments. Qed.
End ServeMux.
