(* ===== verification/RunnerHTTP.v ===== *)
(** * The runner's HTTP server ([internal/runner]: server.go, proxy.go, handlers.go,
    response.go, middleware_auth.go, middleware_limits.go; [internal/sandboxproxy];
    [internal/probes])

    Every request the API proxies to a runner: authentication, the route, the cap
    on requests in progress per sandbox, waking the sandbox, and the hop to the
    daemon, whose answers the guest controls.  A panic, logging, metrics, 1xx
    answers and trailers are left out. *)

From S2P Require Import Prelude GoStrings Ids Limits Wire Exec ExecProxy Paths ServeMux.

Module RunnerHTTP.
Import GoStrings Ids Limits ServeMux.

(** ** What the runtime answers *)

Inductive sentinel := ErrSandboxNotFound | ErrSandboxNotRunning | ErrSandboxNetworkUnavailable.
#[global] Instance sentinel_eq_dec : EqDecision sentinel.
Proof. solve_decision. Defined.

Record rt_error := mkRtError { err_is : list sentinel; err_text : string }.
Definition errors_Is (e : rt_error) (s : sentinel) : bool := bool_decide (s ∈ err_is e).

Record wake_result := mkWake { Recovered : bool; wake_err : option rt_error }.

Class Runtime (RT : Type) := {
  rt_Ready : RT -> option string;
  rt_Info : string -> RT -> option rt_error;
  rt_DaemonURL : string -> RT -> rt_error + string;
  rt_EnsureRunning : string -> RT -> wake_result * RT;
}.

(** ** Requests and responses *)

(** [q_raw] is [URL.EscapedPath()]; headers are keyed by their canonical names, as
    [net/http] keeps them. *)
Record request := mkRequest {
  q_method : string;
  q_raw : string;
  q_query : string;
  q_cert : bool;                              (* the peer presented a certificate *)
  q_headers : gmap string string;
  q_exec : option ExecProxy.execRequestBody;  (* the body of an exec POST, decoded *)
}.

(** [URL.Path] *)
Definition q_path (q : request) : string := decoded (q_raw q).

(** Header.Get *)
Definition header (h : gmap string string) (k : string) : string := default "" (h !! k).

Inductive body := BText (text : string) | BReason (text reason : string) | BEmpty | BGuest | BStream (r : ExecProxy.streamed).

Record response := mkResponse { p_status : Z; p_headers : gmap string string; p_body : body }.

(** ** Signals to the API ([sandboxproxy/signals.go]) *)

Definition SandboxGoneHeader : string := "X-Sandbox-Gone".
Definition SandboxRestartedHeader : string := "X-Sandbox-Restarted".
Definition MarkSandboxGone (h : gmap string string) : gmap string string := <[SandboxGoneHeader := "1"]> h.
Definition MarkSandboxRestarted (h : gmap string string) : gmap string string := <[SandboxRestartedHeader := "1"]> h.
Definition StripSignals (h : gmap string string) : gmap string string :=
  delete SandboxRestartedHeader (delete SandboxGoneHeader h).
Definition RunnerReportsSandboxGone (r : response) : bool := bool_decide (header (p_headers r) SandboxGoneHeader = "1").

(** ** Answers the runner writes itself *)

Definition json_header : gmap string string := {["Content-Type" := "application/json"]}.
Definition writeError (status : Z) (message : string) : response := mkResponse status json_header (BText message).
Definition writeSandboxNotFound : response :=
  mkResponse 404 (MarkSandboxGone json_header) (BText "sandbox not found").
Definition writeSandboxRestarted : response :=
  mkResponse 409 (MarkSandboxRestarted json_header)
    (BReason "sandbox restarted after guest crash; state in memory was lost" "sandbox_restarted").
Definition writeExecutionGone : response := mkResponse 204 ∅ BEmpty.
Definition writeSandboxRequestLimit : response :=
  mkResponse 429 (<["Retry-After" := "1"]> json_header)
    (BReason "too many requests in progress for this sandbox" "sandbox_request_limit").

(** ** The daemon *)

(** What reaches the guest of a proxied request. *)
Record daemon_request := mkDaemonRequest { d_method : string; d_path : string; d_query : string; d_headers : gmap string string }.

Inductive daemon_answer := DFailed (too_large : bool) | DAnswer (status : Z) (headers : gmap string string).

Class Guest := {
  daemon : nat -> string -> daemon_request -> daemon_answer;
  exec_env : nat -> string -> ExecProxy.ProxyEnv;
  exec_content_type : nat -> string;          (* of an answer that is not a stream *)
}.

(** ** The process *)

(** What a request made the runner do. *)
Inductive call :=
| CallDaemonURL (id : string) (r : rt_error + string)
| CallWake (id : string) (r : wake_result)
| CallInfo (id : string) (r : option rt_error)
| CallDaemon (id url : string) (q : daemon_request)
| CallExec (id url : string).

Record process (RT : Type) := mkProcess { w_rt : RT; w_limit : KeyedLimiter; w_deletes : KeyedLimiter; w_calls : list call }.
#[global] Arguments mkProcess {RT}.
#[global] Arguments w_rt {RT}.
#[global] Arguments w_limit {RT}.
#[global] Arguments w_deletes {RT}.
#[global] Arguments w_calls {RT}.

Record config := mkConfig { APIKeys : gset string; MaxInflightPerSandbox : Z; MaxExecTimeout : Z; metrics_on : bool }.

Definition maxExecutionDeletesPerSandbox : Z := 4.

Section server.
Context {RT : Type} {HR : Runtime RT} {G : Guest} (cfg : config).
#[local] Open Scope act_scope.

Definition init (rt : RT) : process RT :=
  mkProcess rt (NewKeyedLimiter (MaxInflightPerSandbox cfg))
    (NewKeyedLimiter (if decide (MaxInflightPerSandbox cfg > 0) then maxExecutionDeletesPerSandbox else 0)) [].

Definition log_call (c : call) (w : process RT) : process RT := mkProcess (w_rt w) (w_limit w) (w_deletes w) (w_calls w ++ [c]).
Definition set_rt (rt : RT) (w : process RT) : process RT := mkProcess rt (w_limit w) (w_deletes w) (w_calls w).

Definition handler := act (process RT) response response.

Definition call_daemon_url (id : string) : act (process RT) response (rt_error + string) :=
  let! w := get in
  let r := rt_DaemonURL id (w_rt w) in
  do! modify (log_call (CallDaemonURL id r)) in
  ret r.

Definition call_wake (id : string) : act (process RT) response wake_result :=
  let! w := get in
  let '(r, rt) := rt_EnsureRunning id (w_rt w) in
  do! modify (fun w => log_call (CallWake id r) (set_rt rt w)) in
  ret r.

(** The last part of [resolveDaemonURL], once it is not going to wake. *)
Definition resolved (r : rt_error + string) : act (process RT) response string :=
  match r with
  | inr url => ret url
  | inl e =>
      if errors_Is e ErrSandboxNotFound then exit writeSandboxNotFound
      else if errors_Is e ErrSandboxNotRunning then exit (writeError 502 "sandbox is not running")
      else if errors_Is e ErrSandboxNetworkUnavailable then exit (writeError 503 "sandbox temporarily unavailable")
      else exit (writeError 500 (err_text e))
  end.

Definition resolveDaemonURL (id : string) (wake : bool) : act (process RT) response string :=
  if negb (isValidID id) then exit (writeError 400 "invalid sandbox id") else
  let! r := call_daemon_url id in
  match r with
  | inl e =>
      if errors_Is e ErrSandboxNotRunning then
        if negb wake then exit writeExecutionGone else
        let! wk := call_wake id in
        match wake_err wk with
        | Some we =>
            if errors_Is we ErrSandboxNotFound then exit writeSandboxNotFound
            else exit (writeError 503 ("sandbox start: " +:+ err_text we))
        | None =>
            if Recovered wk then exit writeSandboxRestarted
            else let! r' := call_daemon_url id in resolved r'
        end
      else resolved r
  | inr _ => resolved r
  end.

(** [Rewrite]: of the client's headers the daemon gets the content type. *)
Definition rewrite_headers (h : gmap string string) : gmap string string :=
  if decide (header h "Content-Type" <> "") then {["Content-Type" := header h "Content-Type"]} else ∅.

(** strings.TrimPrefix *)
Definition TrimPrefix (s p : string) : string :=
  match strip_prefix (chars p) (chars s) with Some l => of_chars l | None => s end.

Definition daemon_path (path id : string) : string :=
  let p := TrimPrefix path ("/sandboxes/" +:+ id) in
  if decide (p = "") then "/" else p.

Definition daemonRedirected (status : Z) : bool := bool_decide (300 <= status < 400).

(** [ModifyResponse] and [ErrorHandler] of the reverse proxy. *)
Definition proxy_answer (a : daemon_answer) : response :=
  match a with
  | DFailed too_large =>
      if too_large : bool then writeError 400 "failed to read request body: http: request body too large"
      else writeError 503 "daemon temporarily unavailable"
  | DAnswer status h =>
      if daemonRedirected status then writeError 502 "daemon returned a redirect"
      else mkResponse status (StripSignals h) BGuest
  end.

Definition proxyHandler (wake : bool) (q : request) (id : string) : handler :=
  let! url := resolveDaemonURL id wake in
  let dq := mkDaemonRequest (q_method q) (daemon_path (q_path q) id) (q_query q) (rewrite_headers (q_headers q)) in
  let! w := get in
  do! modify (log_call (CallDaemon id url dq)) in
  ret (proxy_answer (daemon (length (w_calls w)) url dq)).

(** The URL is what [resolveDaemonURL] gave. *)
Definition with_url (PE : ExecProxy.ProxyEnv) (url : string) : ExecProxy.ProxyEnv :=
  {| ExecProxy.resolve := inr url; ExecProxy.fresh_id := @ExecProxy.fresh_id PE; ExecProxy.post := @ExecProxy.post PE;
     ExecProxy.resume := @ExecProxy.resume PE; ExecProxy.cancelled := @ExecProxy.cancelled PE; ExecProxy.accepts := @ExecProxy.accepts PE |}.

(** The headers [ExecProxyHandler] sets; of the daemon's it keeps the content type. *)
Definition exec_response (ct : string) (p : ExecProxy.proxied) : response :=
  match p with
  | ExecProxy.PError code => writeError code "exec failed"
  | ExecProxy.PForwarded code => mkResponse code {["Content-Type" := ct]} BGuest
  | ExecProxy.PStreamed id r => mkResponse 200 {["Content-Type" := "application/x-ndjson"; "Cache-Control" := "no-cache"; "X-Content-Type-Options" := "nosniff"; "X-Exec-Id" := id]} (BStream r)
  end.

Definition execHandler (q : request) (id : string) : handler :=
  match q_exec q with
  | None => exit (writeError 400 "invalid request body")
  | Some b =>
      if decide (MaxExecTimeout cfg > 0 /\ ExecProxy.TimeoutMs b > MaxExecTimeout cfg) then exit (writeError 400 "timeout_ms too large")
      else
        let! url := resolveDaemonURL id true in
        let! w := get in
        do! modify (log_call (CallExec id url)) in
        ret (exec_response (exec_content_type (length (w_calls w)))
          (@ExecProxy.ExecProxyHandler (with_url (exec_env (length (w_calls w)) url) url) (MaxExecTimeout cfg) (Some b)))
  end.

Definition GetSandbox (id : string) : handler :=
  if negb (isValidID id) then exit (writeError 400 "invalid sandbox id") else
  let! w := get in
  let r := rt_Info id (w_rt w) in
  do! modify (log_call (CallInfo id r)) in
  match r with
  | Some e => if errors_Is e ErrSandboxNotFound then exit writeSandboxNotFound else exit (writeError 500 (err_text e))
  | None => ret (mkResponse 200 json_header (BText "running"))
  end.

(** ** The cap per sandbox *)

(** Which of the two limiters a route is counted by. *)
Inductive cap := CapRequests | CapDeletes.

Definition limiter (c : cap) (w : process RT) : KeyedLimiter := match c with CapRequests => w_limit w | CapDeletes => w_deletes w end.
Definition set_limiter (c : cap) (l : KeyedLimiter) (w : process RT) : process RT :=
  match c with
  | CapRequests => mkProcess (w_rt w) l (w_deletes w) (w_calls w)
  | CapDeletes => mkProcess (w_rt w) (w_limit w) l (w_calls w)
  end.

(** [defer l.Release(id)]: on every way out of [next]. *)
Definition sandboxLimit (c : cap) (id : string) (next : handler) : handler :=
  if negb (isValidID id) then exit (writeError 400 "invalid sandbox id") else
  let! w := get in
  let '(ok, l) := TryAcquire (limiter c w) id in
  do! modify (set_limiter c l) in
  if negb ok then exit writeSandboxRequestLimit else
  let! o := try next in
  do! modify (fun w => set_limiter c (Release (limiter c w) id) w) in
  match o with inl r => exit r | inr r => ret r end.

(** ** Routes *)

Inductive route :=
| RAlive | RReady | RMetrics | RGet (id : string) | RExec (id : string)
| RProxy (id : string) | RUpload (id : string) | RDeleteExec (id : string).

Record entry := mkEntry { e_method : string; e_pattern : string; e_route : string -> route }.

(** The patterns of [NewRouter]. *)
Definition routes : list entry :=
  [ mkEntry "GET" "/healthz" (fun _ => RAlive); mkEntry "GET" "/livez" (fun _ => RAlive); mkEntry "GET" "/readyz" (fun _ => RReady) ] ++
  (if metrics_on cfg then [mkEntry "GET" "/metrics" (fun _ => RMetrics)] else []) ++
  [ mkEntry "GET" "/sandboxes/{id}" RGet;
    mkEntry "POST" "/sandboxes/{id}/executions" RExec;
    mkEntry "GET" "/sandboxes/{id}/executions/{exec_id}" RProxy;
    mkEntry "DELETE" "/sandboxes/{id}/executions/{exec_id}" RDeleteExec;
    mkEntry "POST" "/sandboxes/{id}/files/copy" RProxy;
    mkEntry "POST" "/sandboxes/{id}/files/move" RProxy;
    mkEntry "GET" "/sandboxes/{id}/files" RProxy;
    mkEntry "GET" "/sandboxes/{id}/files/content" RProxy;
    mkEntry "PUT" "/sandboxes/{id}/files" RUpload;
    mkEntry "POST" "/sandboxes/{id}/files" RUpload;
    mkEntry "POST" "/sandboxes/{id}/files/archive" RUpload;
    mkEntry "DELETE" "/sandboxes/{id}/files" RProxy;
    mkEntry "POST" "/sandboxes/{id}/mkdir" RProxy;
    mkEntry "GET" "/sandboxes/{id}/stat" RProxy ].

(** [r.PathValue("id")]: what the second segment decodes to. *)
Definition path_id (raw : string) : string := match segments raw with _ :: _ :: id :: _ => of_chars id | _ => "" end.

Definition mux (method raw : string) : option route :=
  (fun e => e_route e (path_id raw)) <$> find (fun e => match_method (e_method e) method && match_pattern (e_pattern e) raw) routes.

(** [ServeMux] answers 404, or 405 when another method would match. *)
Definition no_route (raw : string) : response :=
  if existsb (fun e => match_pattern (e_pattern e) raw) routes then mkResponse 405 ∅ BEmpty else mkResponse 404 ∅ BEmpty.

Definition dispatch (q : request) : handler :=
  if decide (redirected (q_method q) (q_raw q)) then exit (mkResponse 301 ∅ BEmpty) else
  match mux (q_method q) (q_raw q) with
  | None => exit (no_route (q_raw q))
  | Some RAlive | Some RMetrics => ret (mkResponse 200 json_header BEmpty)
  | Some RReady =>
      let! w := get in
      match rt_Ready (w_rt w) with
      | Some e => exit (writeError 503 e)
      | None => ret (mkResponse 200 json_header BEmpty)
      end
  | Some (RGet id) => GetSandbox id
  | Some (RExec id) => sandboxLimit CapRequests id (execHandler q id)
  | Some (RProxy id) => sandboxLimit CapRequests id (proxyHandler true q id)
  | Some (RUpload id) => sandboxLimit CapRequests id (proxyHandler true q id)
  | Some (RDeleteExec id) => sandboxLimit CapDeletes id (proxyHandler false q id)
  end.

(** ** Middleware *)

Definition isGetOrHead (method : string) : bool := bool_decide (method = "GET") || bool_decide (method = "HEAD").
Definition publicPaths : list string := ["/healthz"; "/livez"; "/readyz"; "/metrics"].
Definition Public (q : request) : bool := bool_decide (q_path q ∈ publicPaths) && isGetOrHead (q_method q).

Definition RejectOtherMethods (next : request -> handler) (q : request) : handler :=
  if bool_decide (q_path q ∈ publicPaths) && negb (isGetOrHead (q_method q)) then exit (mkResponse 405 {["Allow" := "GET, HEAD"]} BEmpty)
  else next q.

Definition AuthMiddleware (next : request -> handler) (q : request) : handler :=
  if Public q then next q
  else if negb (q_cert q) then exit (writeError 401 "client certificate required")
  else
    let key := header (q_headers q) "X-Api-Key" in
    if decide (key = "") then exit (writeError 401 "missing API key")
    else if decide (key ∉ APIKeys cfg) then exit (writeError 401 "invalid API key")
    else next q.

Definition NewRouter (q : request) : process RT -> response * process RT :=
  Prelude.body (RejectOtherMethods (AuthMiddleware dispatch) q).
End server.

(** ** What an answer rests on *)

(** The runtime said in one of these calls that it does not know the sandbox. *)
Definition said_gone (new : list call) : Prop :=
  exists id e, errors_Is e ErrSandboxNotFound = true /\
    (CallDaemonURL id (inl e) ∈ new \/ (exists b, CallWake id (mkWake b (Some e)) ∈ new) \/ CallInfo id (Some e) ∈ new).

(** The runtime brought the sandbox back after a crash. *)
Definition said_restarted (new : list call) : Prop := exists id, CallWake id (mkWake true None) ∈ new.

Definition is_wake (c : call) : bool := match c with CallWake _ _ => true | _ => false end.

(** What reached a daemon carries no header of the client's but its content type. *)
Definition clean (c : call) : Prop :=
  match c with CallDaemon _ _ dq => forall k v, d_headers dq !! k = Some v -> k = "Content-Type" | _ => True end.

Definition honest (r : response) (new : list call) : Prop :=
  (RunnerReportsSandboxGone r = true -> said_gone new) /\
  (is_Some (p_headers r !! SandboxRestartedHeader) -> said_restarted new) /\
  (p_body r = BGuest -> exists id url, (exists dq, CallDaemon id url dq ∈ new) \/ CallExec id url ∈ new).

(** From [w] to [w'] the calls [new] were made, and no slot moved. *)
Record extends {RT} (w w' : process RT) (new : list call) : Prop := {
  x_calls : w_calls w' = w_calls w ++ new;
  x_limit : w_limit w' = w_limit w;
  x_deletes : w_deletes w' = w_deletes w;
  x_clean : Forall clean new;
}.

(** A plain answer signals nothing. *)
Lemma honest_plain status h b new : h !! SandboxGoneHeader = None -> h !! SandboxRestartedHeader = None -> b <> BGuest ->
  honest (mkResponse status h b) new.
Proof.
  intros H1 H2 H3. split; [|split]; simpl; [|rewrite H2; by intros []|done].
  unfold RunnerReportsSandboxGone, header. simpl. rewrite H1. by intros ?%bool_decide_eq_true.
Qed.

Lemma honest_error status m new : honest (writeError status m) new.
Proof. by apply honest_plain. Qed.

Lemma honest_gone new : said_gone new -> honest writeSandboxNotFound new.
Proof. intros H. split; [done|]. split; [simpl; by intros []|done]. Qed.

Lemma honest_restarted new : said_restarted new -> honest writeSandboxRestarted new.
Proof. intros H. split; [|done]. unfold RunnerReportsSandboxGone. by intros ?%bool_decide_eq_true. Qed.

#[local] Hint Resolve honest_error honest_gone honest_restarted : core.

(** A guest's answer signals nothing either. *)
Lemma honest_proxied a new id url dq : CallDaemon id url dq ∈ new -> honest (proxy_answer a) new.
Proof.
  intros Hin. unfold proxy_answer. destruct a as [[]|status h]; [auto..|]. destruct (daemonRedirected status); [auto|].
  split; [|split; [|intros _; eauto]].
  - unfold RunnerReportsSandboxGone, header, StripSignals. simpl. rewrite lookup_delete_ne by done. rewrite lookup_delete_eq.
    by intros ?%bool_decide_eq_true.
  - unfold StripSignals. simpl. rewrite lookup_delete_eq. by intros [].
Qed.

Lemma honest_exec ct p new id url : CallExec id url ∈ new -> honest (exec_response ct p) new.
Proof.
  intros Hin. destruct p as [code|code|eid r]; simpl; [auto| |by apply honest_plain].
  split; [|split; [|intros _; eauto]].
  - unfold RunnerReportsSandboxGone. by intros ?%bool_decide_eq_true.
  - simpl. by intros [].
Qed.

Lemma clean_rewrite id url m p query h : clean (CallDaemon id url (mkDaemonRequest m p query (rewrite_headers h))).
Proof.
  simpl. intros k v. unfold rewrite_headers. case_decide; [|by rewrite lookup_empty]. by intros [<- _]%lookup_singleton_Some.
Qed.

Section proofs.
Context {RT : Type} {HR : Runtime RT} {G : Guest} (cfg : config).

Lemma extends_refl (w : process RT) : extends w w [].
Proof. split; try done. by rewrite app_nil_r. Qed.

Lemma extends_log (w w' : process RT) new c : extends w w' new -> clean c -> extends w (log_call c w') (new ++ [c]).
Proof.
  intros [H1 H2 H3 H4] Hc. split; try done; [simpl; by rewrite H1, app_assoc|]. apply Forall_app. split; [done|]. by constructor.
Qed.

Lemma extends_rt (w w' : process RT) new rt : extends w w' new -> extends w (set_rt rt w') new.
Proof. by intros [H1 H2 H3 H4]. Qed.

(** [calls w0 old Q]: from [w0] the calls so far extend [old], and satisfy [Q]. *)
Definition calls (w0 : process RT) (wake : bool) (old : list call) (Q : list call -> Prop) (w : process RT) : Prop :=
  exists new, extends w0 w new /\ old `prefix_of` new /\
    (wake = false -> Forall (fun c => is_wake c = false) old -> Forall (fun c => is_wake c = false) new) /\ Q new.

Lemma calls_mono w0 wake (Q Q' : list call -> Prop) old w : (forall new, Q new -> Q' new) -> calls w0 wake old Q w -> calls w0 wake old Q' w.
Proof. intros HQ (new & H1 & H2 & H3 & H4). exists new. auto. Qed.

(** Logging one more call. *)
Lemma calls_log w0 wake old (Q Q' : list call -> Prop) w c : clean c -> (wake = false -> is_wake c = false) ->
  (forall new, Q new -> Q' (new ++ [c])) -> calls w0 wake old Q w -> calls w0 wake old Q' (log_call c w).
Proof.
  intros Hc Hw HQ (new & H1 & H2 & H3 & H4). exists (new ++ [c]). split; [by apply extends_log|]. split; [by apply prefix_app_r|].
  split; [|auto]. intros Hf Ho. apply Forall_app. split; [auto|]. constructor; auto.
Qed.

Lemma calls_rt w0 wake old Q w rt : calls w0 wake old Q w -> calls w0 wake old Q (set_rt rt w).
Proof. intros (new & H1 & H2 & H3 & H4). exists new. split; [by apply extends_rt|auto]. Qed.

(** [resolveDaemonURL]: the runtime's word, and a wake only where one is wanted. *)
Lemma resolved_wp w0 wake old id r w : calls w0 wake old (fun new => CallDaemonURL id r ∈ new) w ->
  wp (resolved r) (fun o w' => calls w0 wake old (fun new => match o with inl a => honest a new | inr _ => True end) w') w.
Proof.
  intros Hc. unfold resolved. destruct r as [e|url]; [|apply wp_ret; by eapply calls_mono; [|exact Hc]].
  destruct (errors_Is e ErrSandboxNotFound) eqn:Eg; wp_auto; (eapply calls_mono; [|exact Hc]; intros new Hin; simpl; auto).
  apply honest_gone. exists id, e. auto.
Qed.

Lemma resolve_wp w0 id wake w : calls w0 wake [] (fun _ => True) w ->
  wp (resolveDaemonURL id wake) (fun o w' => calls w0 wake [] (fun new => match o with inl a => honest a new | inr _ => True end) w') w.
Proof.
  intros Hc. unfold resolveDaemonURL. wp_split; [apply wp_exit; eapply calls_mono; [|exact Hc]; auto|].
  unfold call_daemon_url. repeat (wp_step; cbn beta iota). set (r := rt_DaemonURL id (w_rt w)).
  assert (H1 : calls w0 wake [] (fun new => CallDaemonURL id r ∈ new) (log_call (CallDaemonURL id r) w)).
  { eapply calls_log; [done|done| |exact Hc]. set_solver. }
  destruct r as [e|url]; [|by eapply resolved_wp]. destruct (errors_Is e ErrSandboxNotRunning); [|by eapply resolved_wp].
  destruct wake; simpl; [|apply wp_exit; eapply calls_mono; [|exact H1]; intros; by apply honest_plain].
  unfold call_wake. repeat (wp_step; cbn beta iota). destruct (rt_EnsureRunning id _) as [wk rt] eqn:Ek. repeat (wp_step; cbn beta iota).
  match goal with |- wp _ _ ?x => set (w2 := x) end.
  assert (H2 : calls w0 true [] (fun new => CallWake id wk ∈ new) w2).
  { eapply calls_log; [done|done| |apply calls_rt, H1]. set_solver. }
  destruct wk as [b [we|]]; simpl.
  - destruct (errors_Is we ErrSandboxNotFound) eqn:Eg; apply wp_exit; (eapply calls_mono; [|exact H2]); intros new Hin; simpl; auto.
    apply honest_gone. exists id, we. eauto.
  - destruct b; [apply wp_exit; eapply calls_mono; [|exact H2]; intros new Hin; apply honest_restarted; by exists id|].
    repeat (wp_step; cbn beta iota). eapply (resolved_wp _ _ _ id), calls_log; [done|done| |exact H2]. set_solver.
Qed.

Definition honest_out (w0 : process RT) (wake : bool) (o : response + response) (w : process RT) : Prop :=
  calls w0 wake [] (fun new => match o with inl a | inr a => honest a new end) w.

Lemma runner_proxy_wp w0 wake q id w : calls w0 wake [] (fun _ => True) w -> wp (proxyHandler wake q id) (honest_out w0 wake) w.
Proof.
  intros Hc. unfold proxyHandler. apply wp_bind. eapply wp_mono; [by apply resolve_wp|]. intros [a|url] w' H; [exact H|]. simpl in H.
  repeat (wp_step; cbn beta iota). unfold honest_out. eapply calls_log; [apply clean_rewrite|done| |exact H].
  intros new _. eapply (honest_proxied _ _ id url). rewrite elem_of_app, list_elem_of_singleton. by right.
Qed.

Lemma exec_wp w0 q id w : calls w0 true [] (fun _ => True) w -> wp (execHandler cfg q id) (honest_out w0 true) w.
Proof.
  intros Hc. unfold execHandler. destruct (q_exec q) as [b|]; [|apply wp_exit; eapply calls_mono; [|exact Hc]; auto].
  case_decide; [apply wp_exit; eapply calls_mono; [|exact Hc]; auto|].
  apply wp_bind. eapply wp_mono; [by apply resolve_wp|]. intros [a|url] w' Hr; [exact Hr|]. simpl in Hr.
  repeat (wp_step; cbn beta iota). unfold honest_out. eapply calls_log; [done|done| |exact Hr].
  intros new _. eapply (honest_exec _ _ _ id url). set_solver.
Qed.

Lemma get_wp id w : wp (GetSandbox id) (honest_out w false) w.
Proof.
  assert (Hc : calls w false [] (fun _ => True) w) by (exists []; split; [apply extends_refl|done]).
  unfold GetSandbox. wp_split; [apply wp_exit; eapply calls_mono; [|exact Hc]; auto|]. repeat (wp_step; cbn beta iota).
  set (r := rt_Info id (w_rt w)).
  assert (H1 : calls w false [] (fun new => CallInfo id r ∈ new) (log_call (CallInfo id r) w)).
  { eapply calls_log; [done|done| |exact Hc]. set_solver. }
  destruct r as [e|]; [|apply wp_ret; eapply calls_mono; [|exact H1]; intros; by apply honest_plain].
  destruct (errors_Is e ErrSandboxNotFound) eqn:Eg; apply wp_exit; (eapply calls_mono; [|exact H1]); intros new Hin; simpl; auto.
  apply honest_gone. exists id, e. auto.
Qed.

(** ** Slots *)

Lemma refused_same l id l' : TryAcquire l id = (false, l') -> l' = l.
Proof. unfold TryAcquire. repeat case_decide; congruence. Qed.

Record sane (w : process RT) : Prop := {
  s_limit key : 0 <= count_of (w_limit w) key;
  s_deletes key : 0 <= count_of (w_deletes w) key;
}.

(** What a request does, seen from outside: [wakes] says on which sandbox it may
    wake, [calls_ok] whether it may make calls at all. *)
Record served (may_call : Prop) (may_wake : Prop) (w : process RT) (r : response) (w' : process RT) (new : list call) : Prop := {
  v_calls : w_calls w' = w_calls w ++ new;
  v_clean : Forall clean new;
  v_honest : honest r new;
  v_slots : same_counts (w_limit w) (w_limit w') /\ same_counts (w_deletes w) (w_deletes w');
  v_auth : new <> [] -> may_call;
  v_wake : Exists (fun c => is_wake c = true) new -> may_wake;
}.

Definition serves (may_call may_wake : Prop) (w : process RT) (o : response + response) (w' : process RT) : Prop :=
  exists new, match o with inl r | inr r => served may_call may_wake w r w' new end.

Lemma serves_plain P Q w r (o : response + response) : o = inl r \/ o = inr r -> honest r [] -> serves P Q w o w.
Proof.
  intros Ho Hr. exists []. destruct Ho as [-> | ->]; (split; [by rewrite app_nil_r|done|done|done|done|]); by intros ?%Exists_nil.
Qed.

Lemma limit_wp c id next w (Q : Prop) (wake : bool) : sane w -> (wake = true -> (TryAcquire (limiter c w) id).1 = true -> Q) ->
  (forall w1, calls w1 wake [] (fun _ => True) w1 -> wp next (honest_out w1 wake) w1) ->
  wp (sandboxLimit c id next) (serves True Q w) w.
Proof.
  intros [Hl Hd] HQ Hnext. unfold sandboxLimit. wp_split; [apply wp_exit; eapply serves_plain; [by left|auto]|].
  repeat (wp_step; cbn beta iota). destruct (TryAcquire (limiter c w) id) as [ok l] eqn:Ea. repeat (wp_step; cbn beta iota).
  destruct ok; simpl.
  2: { apply wp_exit. apply refused_same in Ea. assert (set_limiter c l w = w) as -> by (subst l; by destruct c, w).
       eapply serves_plain; [by left|]. by apply honest_plain. }
  apply wp_bind. apply wp_try. eapply wp_mono; [apply Hnext; exists []; split; [apply extends_refl|done]|].
  intros o w' (new & [X1 X2 X3 X4] & _ & Hwk & Hh). repeat (wp_step; cbn beta iota).
  assert (Hs : served True Q w (match o with inl a | inr a => a end) (set_limiter c (Release (limiter c w') id) w') new).
  { split; [destruct c; exact X1|done|by destruct o| |done|].
    - assert (Hr : same_counts (limiter c w) (Release l id)) by (eapply acquire_release; [done|by destruct c]).
      destruct c; simpl in *; rewrite ?X2, ?X3; done.
    - intros Hex. destruct wake; [by apply HQ|]. exfalso. specialize (Hwk eq_refl ltac:(done)).
      apply Exists_exists in Hex as (x & Hx & Hw). rewrite Forall_forall in Hwk. specialize (Hwk x Hx). congruence. }
  destruct o as [a|a]; wp_step; exists new; exact Hs.
Qed.

(** A sandbox route that may wake. *)
Definition wakes (q : request) (w : process RT) : Prop :=
  exists id, (mux cfg (q_method q) (q_raw q) = Some (RExec id) \/ mux cfg (q_method q) (q_raw q) = Some (RProxy id) \/
              mux cfg (q_method q) (q_raw q) = Some (RUpload id)) /\ (TryAcquire (w_limit w) id).1 = true.

Lemma dispatch_wp q w : sane w -> wp (dispatch cfg q) (serves True (wakes q w) w) w.
Proof.
  intros Hs. unfold dispatch. case_decide; [apply wp_exit; eapply serves_plain; [by left|by apply honest_plain]|]. destruct (mux cfg (q_method q) (q_raw q)) as [r|] eqn:Em.
  2: { apply wp_exit. eapply serves_plain; [by left|]. unfold no_route. case_match; by apply honest_plain. }
  destruct r as [| | |id|id|id|id|id].
  - apply wp_ret. eapply serves_plain; [by right|]. by apply honest_plain.
  - repeat (wp_step; cbn beta iota). destruct (rt_Ready _); wp_step; eapply serves_plain; [by left|auto|by right|by apply honest_plain].
  - apply wp_ret. eapply serves_plain; [by right|]. by apply honest_plain.
  - eapply wp_mono; [apply get_wp|]. intros o w' (new & [X1 X2 X3 X4] & _ & Hwk & Hh). exists new. specialize (Hwk eq_refl ltac:(done)).
    assert (Hf : ~ Exists (fun c => is_wake c = true) new).
    { intros (x & Hx & Hw)%Exists_exists. rewrite Forall_forall in Hwk. specialize (Hwk x Hx). congruence. }
    destruct o; (split; [done|done|done|by rewrite X2, X3|done|done]).
  - apply (limit_wp _ _ _ _ _ true); [done|intros _ Ha; exists id; auto|]. intros w1 Hc. by apply exec_wp.
  - apply (limit_wp _ _ _ _ _ true); [done|intros _ Ha; exists id; auto|]. intros w1 Hc. by apply runner_proxy_wp.
  - apply (limit_wp _ _ _ _ _ true); [done|intros _ Ha; exists id; auto|]. intros w1 Hc. by apply runner_proxy_wp.
  - apply (limit_wp _ _ _ _ _ false); [done|done|]. intros w1 Hc. by apply runner_proxy_wp.
Qed.

Definition authenticated (q : request) : Prop := q_cert q = true /\ header (q_headers q) "X-Api-Key" ∈ APIKeys cfg.

(** A path that decodes to a public one leads to a probe, however it is escaped. *)
Definition probe (r : route) : bool := match r with RAlive | RReady | RMetrics => true | _ => false end.
Definition public_path (l : list ascii) : bool := bool_decide (l ∈ chars <$> publicPaths).

Lemma runner_public_routes : Forall (fun e => (forall id, probe (e_route e id) = true) \/ excluded public_path (Paths.split (chars (e_pattern e)))) (routes cfg).
Proof.
  unfold routes. destruct (metrics_on cfg); simpl; repeat apply Forall_cons_2; try (by left); try apply Forall_nil_2; right; exclude;
    apply bool_decide_eq_false_2; simpl; rewrite !elem_of_cons, elem_of_nil; intros H; repeat destruct H as [H|H]; by try injection H.
Qed.

Lemma public_unescaped q : q_path q ∈ publicPaths -> unescape (chars (q_raw q)) = Some (chars (q_path q)).
Proof.
  unfold q_path, decoded. destruct (unescape (chars (q_raw q))) as [l|] eqn:E; simpl; intros Hp; [by rewrite chars_of_chars|].
  exfalso. rewrite of_chars_chars in Hp. repeat (apply elem_of_cons in Hp as [Hp|Hp]; [by rewrite Hp in E|]). by apply not_elem_of_nil in Hp.
Qed.

Lemma public_mux q r : q_path q ∈ publicPaths -> mux cfg (q_method q) (q_raw q) = Some r -> probe r = true.
Proof.
  intros Hp (e & [Hin%list_elem_of_In [_ Hm]%andb_true_iff]%find_some & ->)%fmap_Some. pose proof runner_public_routes as HE. rewrite Forall_forall in HE.
  destruct (HE e Hin) as [|Hx]; [done|]. pose proof (excluded_path _ _ _ _ Hx Hm (public_unescaped q Hp)) as Hf.
  apply bool_decide_eq_false in Hf. destruct Hf. by apply list_elem_of_fmap_2.
Qed.

Lemma public_wp q w : Public q = true -> wp (dispatch cfg q) (serves False False w) w.
Proof.
  unfold Public. intros [Hp%bool_decide_eq_true _]%andb_true_iff. unfold dispatch.
  assert (Hok : forall b : body, b <> BGuest -> honest (mkResponse 200 json_header b) []) by (intros b Hb; by apply honest_plain).
  case_decide; [apply wp_exit; eapply serves_plain; [by left|by apply honest_plain]|].
  destruct (mux cfg (q_method q) (q_raw q)) as [r|] eqn:Em; [apply public_mux in Em; [|done]|].
  2: { apply wp_exit. eapply serves_plain; [by left|]. unfold no_route. case_match; by apply honest_plain. }
  destruct r; try done; [apply wp_ret; eapply serves_plain; [by right|by apply Hok]| |apply wp_ret; eapply serves_plain; [by right|by apply Hok]].
  repeat (wp_step; cbn beta iota). destruct (rt_Ready (w_rt w)); wp_step; eapply serves_plain; [by left|auto|by right|by apply Hok].
Qed.

Lemma router_wp q w : sane w ->
  let '(r, w') := NewRouter cfg q w in exists new, served (authenticated q) (wakes q w) w r w' new.
Proof.
  intros Hs. unfold NewRouter. apply (wp_body _ (fun r w' => exists new, served (authenticated q) (wakes q w) w r w' new)).
  assert (Hgo : forall (o : response + response) w', serves (authenticated q) (wakes q w) w o w' ->
    match o with inl r | inr r => exists new, served (authenticated q) (wakes q w) w r w' new end) by (intros [] w' [new H]; eauto).
  eapply wp_mono; [|exact Hgo]. clear Hgo.
  assert (Hpl : forall r, honest r [] -> serves (authenticated q) (wakes q w) w (inl r) w) by (intros r Hr; eapply serves_plain; [by left|done]).
  unfold RejectOtherMethods, AuthMiddleware. wp_split; [apply wp_exit, Hpl; by apply honest_plain|].
  destruct (Public q) eqn:Hpub.
  { eapply wp_mono; [by apply public_wp|]. intros o w' [new H]. exists new. destruct o, H; split; try done; intros; exfalso; auto. }
  destruct (q_cert q) eqn:Hcert; cbn beta iota zeta delta [negb]; [|apply wp_exit, Hpl; auto].
  destruct (decide (header (q_headers q) "X-Api-Key" = "")); [apply wp_exit, Hpl; auto|].
  destruct (decide (header (q_headers q) "X-Api-Key" ∉ APIKeys cfg)) as [|Hkey]; [apply wp_exit, Hpl; auto|]. eapply wp_mono; [by apply dispatch_wp|]. intros o w' [new H0]. exists new.
  assert (Ha : authenticated q) by (split; [done|]; destruct (decide (header (q_headers q) "X-Api-Key" ∈ APIKeys cfg)); tauto).
  destruct o, H0; split; done.
Qed.

(** C34: the runner's signals are the runtime's word, never the guest's.  An answer is
    marked gone only if the runtime said during this very request that it does not
    know the sandbox, and marked restarted only after a recovery that succeeded; the
    guest's own answers are forwarded without either mark; and of a client's headers
    (the fleet key among them) a daemon sees the content type alone.  The last part is
    about proxied requests: an exec is a request of the runner's own, whose headers are not
    modelled. *)
Theorem guest_cannot_forge_signals q w :
  sane w ->
  let '(r, w') := NewRouter cfg q w in
  exists new, w_calls w' = w_calls w ++ new /\ honest r new /\ Forall clean new.
Proof.
  intros Hs. pose proof (router_wp q w Hs) as H. destruct (NewRouter cfg q w) as [r w']. destruct H as [new []]. eauto.
Qed.

(** C35: a request that is not a health probe reaches the runtime or a daemon only with
    a client certificate and an API key of the fleet; it wakes a sandbox only on a
    route that is meant to, and only once it holds one of the sandbox's slots; and
    every path gives the slot back. *)
Theorem runner_requests_guarded q w :
  sane w ->
  let '(r, w') := NewRouter cfg q w in
  exists new, w_calls w' = w_calls w ++ new /\
    (new <> [] -> authenticated q) /\
    (Exists (fun c => is_wake c = true) new -> wakes q w) /\
    same_counts (w_limit w) (w_limit w') /\ same_counts (w_deletes w) (w_deletes w').
Proof.
  intros Hs. pose proof (router_wp q w Hs) as H. destruct (NewRouter cfg q w) as [r w']. destruct H as [new []]. naive_solver.
Qed.
End proofs.

(** ** A stopped sandbox is woken for a request *)

Definition some_id : string := "00000000-0000-0000-0000-000000000000".

(** Running or not; a sandbox that is not is woken. *)
#[local] Instance toy_runtime : Runtime bool := {
  rt_Ready _ := None;
  rt_Info _ _ := None;
  rt_DaemonURL _ up := if up : bool then inr "http://daemon" else inl (mkRtError [ErrSandboxNotRunning] "sandbox is not running");
  rt_EnsureRunning _ _ := (mkWake false None, true);
}.

(** A guest that claims to be gone. *)
#[local] Instance toy_guest : Guest := {
  daemon _ _ _ := DAnswer 200 {["X-Sandbox-Gone" := "1"]};
  exec_env _ _ := {| ExecProxy.resolve := inr ""; ExecProxy.fresh_id := ""; ExecProxy.post _ := ExecProxy.PostFailed;
    ExecProxy.resume _ _ _ := ExecProxy.ResumeFailed; ExecProxy.cancelled _ := false; ExecProxy.accepts _ := true |};
  exec_content_type _ := "";
}.

Definition toy_config : config := mkConfig {["key"]} 8 0 false.
Definition toy_request : request :=
  mkRequest "GET" ("/sandboxes/" +:+ some_id +:+ "/stat") "" true {["X-Api-Key" := "key"]} None.

(** The escaped path is matched, so an escaped slash does not end a segment; an unclean
    path is redirected. *)
Example escaped_slash_is_proxied :
  mux toy_config "GET" ("/sandboxes/" +:+ some_id +:+ "/executions/a%2Fb") = Some (RProxy some_id) /\
  mux toy_config "GET" "/%68ealthz" = Some RAlive /\
  bool_decide (redirected "GET" ("/sandboxes//" +:+ some_id)) = true.
Proof. by vm_compute. Qed.

Lemma toy_sane : sane (init toy_config false).
Proof. split; intros key; unfold count_of; simpl; by rewrite lookup_empty. Qed.

Lemma guest_cannot_forge_signals_witness :
  RunnerReportsSandboxGone (NewRouter toy_config toy_request (init toy_config false)).1 = false /\
  exists new, w_calls (NewRouter toy_config toy_request (init toy_config false)).2 = new /\ Forall clean new /\ length new = 4%nat.
Proof.
  split; [vm_compute; reflexivity|].
  pose proof (guest_cannot_forge_signals toy_config toy_request (init toy_config false) toy_sane) as H.
  destruct (NewRouter toy_config toy_request (init toy_config false)) as [r w'] eqn:E. destruct H as (new & Hc & _ & Hcl).
  exists new. split; [exact Hc|]. split; [exact Hcl|]. vm_compute in E. injection E as _ <-. simpl in Hc. by rewrite <- Hc.
Defined.

Lemma runner_requests_guarded_witness : wakes toy_config toy_request (init (RT := bool) toy_config false).
Proof.
  pose proof (runner_requests_guarded toy_config toy_request (init toy_config false) toy_sane) as H.
  destruct (NewRouter toy_config toy_request (init toy_config false)) as [r w'] eqn:E. destruct H as (new & Hc & _ & Hw & _).
  apply Hw. vm_compute in E. injection E as _ <-. simpl in Hc. rewrite <- Hc. apply Exists_cons. right. apply Exists_cons. by left.
Defined.

End RunnerHTTP.
