(* ===== verification/LoadRunner.v ===== *)
(** * The runner's configuration

    The settings both runtimes share ([internal/runner/config/config.go]): what the loader
    accepts, and that a runner that starts is one the API registers. *)

From S2P Require Import Prelude.
From S2P Require Import GoStrings.
From S2P Require Import Wire.
From S2P Require Import Registry.
From S2P Require Import Registration Config.
From S2P Require Import EnvParse.
From S2P Require Import LoadAPI.

Module LoadRunner.
Import GoStrings EnvParse LoadAPI.

(** [url.Parse] and [URL.String] after the scheme was set to https.  The laws say what a URL
    "scheme://host/path" is. *)
Class RunnerURLs := {
  urls :: Registration.URLs;
  with_https : string -> string;
  url_text s scheme host : Registration.url_parse s = Some (scheme, host) -> host <> "" ->
    HasPrefix (Registration.ToLower s) (Registration.ToLower scheme +:+ "://") = true;
  url_trim s scheme host : Registration.url_parse s = Some (scheme, host) -> host <> "" ->
    Registration.url_parse (TrimRight s (byte 47)) = Some (scheme, host);
  url_https s scheme host : Registration.url_parse s = Some (scheme, host) -> host <> "" ->
    Registration.url_parse (with_https s) = Some ("https", host);
}.

Definition validateHostPort (v : string) : bool :=
  match SplitHostPort (TrimSpace v) with
  | None => false
  | Some (host, port) =>
      if decide (TrimSpace host = "") then false
      else match Atoi port with Some p => valid_port p | None => false end
  end.

(** [URL.Hostname]: the host without its port and brackets. *)
Definition all_digits (l : list ascii) : bool := forallb (fun c => bool_decide (is_Some (Wire.digit_value c))) l.

Definition Hostname (host : string) : string :=
  let l := chars host in
  let l := match last_index colon l with
           | Some i => if all_digits (drop (S i) l) then take i l else l
           | None => l
           end in
  of_chars (if decide (head l = Some lbracket /\ last l = Some rbracket /\ (2 <= length l)%nat) then removelast (drop 1 l) else l).

Section load.
Context {U : RunnerURLs} (fraction : Z -> Z -> Z -> Z).

(** The fields of [Config] that the settings below depend on; [runner_tls] and [control_tls] are
    the files of the registration client and of the control server. *)
Record Config := mkConfig {
  APIKeys : gset string; MaxFileBytes : Z; DataDir : string; ListenAddr : string; APIGRPCAddr : string;
  RegistrationToken : string; RunnerID : string; RunnerHTTPBaseURL : string; CapacityTotal : Z;
  runner_tls : tls_files; GRPCServerName : string; LogLevel : Z;
  ControlGRPCListenAddr : string; ControlGRPCAdvertiseAddr : string; control_tls : tls_files;
  MetricsEnabled : bool; MaxInflightPerSandbox : Z; MaxExecTimeout : Z;
}.

Definition ResolvedControlGRPCAdvertiseAddr (listen advertise base : string) : string :=
  if decide (TrimSpace listen = "") then ""
  else let adv := TrimSpace advertise in
       if decide (adv <> "") then adv
       else match Registration.url_parse base with
            | None => ""
            | Some (_, host) =>
                let host := Hostname host in
                if decide (host = "") then ""
                else let port := match SplitHostPort listen with
                                 | Some (_, p) => if decide (p <> "") then p else "9091"
                                 | None => "9091"
                                 end in
                     JoinHostPort host port
            end.

Definition DefaultExecTimeout : Z := 5 * Minute.

(** [hostname]: [os.Hostname], empty when it fails. *)
Definition load_keys : loader (gset string) :=
  let! rawKeys := Getenv "SANDBOX_RUNNER_API_KEYS" in
  do! required (bool_decide (rawKeys <> "")) "SANDBOX_RUNNER_API_KEYS must be set" in
  let keys := parseKeySet rawKeys in
  do! required (bool_decide (keys <> ∅)) "SANDBOX_RUNNER_API_KEYS contains no valid keys" in
  ret keys.

Record knobs := mkKnobs { k_bytes : Z; k_dir : string; k_listen : string; k_metrics : bool; k_inflight : Z; k_timeout : Z }.

(** A duration that rounds down to nothing is not a request for no limit. *)
Definition exec_timeout (v : string) : option Z :=
  match ParseDuration fraction v with
  | Some d =>
      let roundedToZero := bool_decide (d = 0) && existsb (fun c => bool_decide (c ∈ chars "123456789")) (chars v) in
      if bool_decide (d < 0) || roundedToZero || bool_decide (0 < d < DefaultExecTimeout) then None else Some d
  | None => None
  end.

Definition load_knobs : loader knobs :=
  let! v := Getenv "SANDBOX_RUNNER_MAX_FILE_BYTES" in
  let! bytes := optional v (where_ (ParseInt 64) positive) (10 * 1024 * 1024) "SANDBOX_RUNNER_MAX_FILE_BYTES must be a positive integer" in
  let! dir := Getenv "SANDBOX_RUNNER_DATA_DIR" in
  let! listen := Getenv "SANDBOX_RUNNER_LISTEN_ADDR" in
  let! metrics := load_flag "SANDBOX_RUNNER_METRICS_ENABLED" false in
  let! inflight := parseLimit "SANDBOX_RUNNER_MAX_INFLIGHT_PER_SANDBOX" 256 in
  let! v := GetTrimmed "SANDBOX_RUNNER_MAX_EXEC_TIMEOUT" in
  let! timeout := optional v exec_timeout (15 * Minute) "SANDBOX_RUNNER_MAX_EXEC_TIMEOUT must be 0 or a duration of at least 5m0s (the default exec timeout)" in
  ret (mkKnobs bytes (or_default dir "/var/sandboxes") (or_default listen ":8080") metrics inflight timeout).

Definition load_id (hostname : string) : loader string :=
  let! v := GetTrimmed "SANDBOX_RUNNER_ID" in
  ret (or_default v hostname).

Definition load_capacity : loader Z :=
  let! v := Getenv "SANDBOX_RUNNER_CAPACITY_TOTAL" in
  optional v (where_ (ParseInt 32) nonnegative) 1000 "SANDBOX_RUNNER_CAPACITY_TOTAL must be a non-negative integer".

Definition load_runner_tls : loader (tls_files * string) :=
  let! ca := GetTrimmed "SANDBOX_RUNNER_REGISTRATION_GRPC_CA_FILE" in
  let! cert := GetTrimmed "SANDBOX_RUNNER_REGISTRATION_GRPC_CERT_FILE" in
  let! key := GetTrimmed "SANDBOX_RUNNER_REGISTRATION_GRPC_KEY_FILE" in
  let! name := GetTrimmed "SANDBOX_RUNNER_REGISTRATION_GRPC_SERVER_NAME" in
  let t := mkTLS cert key ca in
  do! required (bool_decide (set_count t = 3)) "SANDBOX_RUNNER_REGISTRATION_GRPC_CA_FILE, SANDBOX_RUNNER_REGISTRATION_GRPC_CERT_FILE, and SANDBOX_RUNNER_REGISTRATION_GRPC_KEY_FILE are required for registration mTLS" in
  ret (t, name).

(** An http URL is upgraded: the listener serves TLS. *)
Definition check_base_url (base : string) : loader string :=
  let text := "SANDBOX_RUNNER_HTTP_BASE_URL must be an https:// URL with a host" in
  match Registration.url_parse base with
  | None => exit text
  | Some (scheme, host) =>
      let upgrade := bool_decide (host <> "") && bool_decide (Registration.ToLower scheme = "http") in
      let scheme := if upgrade then "https" else scheme in
      do! required (bool_decide (Registration.ToLower scheme = "https") && bool_decide (Hostname host <> "")) text in
      ret (if upgrade then with_https base else base)
  end.

Definition load_control (base : string) : loader (string * string * tls_files) :=
  let! v := GetTrimmed "SANDBOX_RUNNER_CONTROL_GRPC_LISTEN_ADDR" in
  let listen := or_default v ":9091" in
  let! advertise := GetTrimmed "SANDBOX_RUNNER_CONTROL_GRPC_ADVERTISE_ADDR" in
  let! cert := GetTrimmed "SANDBOX_RUNNER_CONTROL_GRPC_TLS_CERT_FILE" in
  let! key := GetTrimmed "SANDBOX_RUNNER_CONTROL_GRPC_TLS_KEY_FILE" in
  let! ca := GetTrimmed "SANDBOX_RUNNER_CONTROL_GRPC_TLS_CLIENT_CA_FILE" in
  do! required (validateListenAddr listen) "SANDBOX_RUNNER_CONTROL_GRPC_LISTEN_ADDR must be host:port (e.g. :9091)" in
  do! required (bool_decide (advertise = "") || validateHostPort advertise) "SANDBOX_RUNNER_CONTROL_GRPC_ADVERTISE_ADDR must be host:port" in
  do! required (bool_decide (ResolvedControlGRPCAdvertiseAddr listen advertise base <> ""))
        "SANDBOX_RUNNER_CONTROL_GRPC_ADVERTISE_ADDR or SANDBOX_RUNNER_HTTP_BASE_URL must resolve a control gRPC host:port" in
  let t := mkTLS cert key ca in
  do! required (bool_decide (set_count t = 3)) "SANDBOX_RUNNER_CONTROL_GRPC_TLS_CERT_FILE, SANDBOX_RUNNER_CONTROL_GRPC_TLS_KEY_FILE, and SANDBOX_RUNNER_CONTROL_GRPC_TLS_CLIENT_CA_FILE are required for control-plane mTLS" in
  ret (listen, advertise, t).

Definition Load (hostname : string) : loader Config :=
  let! v := Getenv "SANDBOX_RUNNER_LOG_LEVEL" in
  let! level := optional v ParseLevel 0 "SANDBOX_RUNNER_LOG_LEVEL" in
  let! keys := load_keys in
  let! k := load_knobs in
  let! api := GetTrimmed "SANDBOX_RUNNER_API_GRPC_ADDR" in
  let! token := GetTrimmed "SANDBOX_RUNNER_REGISTRATION_TOKEN" in
  let! base := GetTrimmed "SANDBOX_RUNNER_HTTP_BASE_URL" in
  let! id := load_id hostname in
  let! capacity := load_capacity in
  let! '(tls, name) := load_runner_tls in
  do! required (bool_decide (api <> "")) "SANDBOX_RUNNER_API_GRPC_ADDR must be set" in
  do! required (bool_decide (token <> "")) "SANDBOX_RUNNER_REGISTRATION_TOKEN must be set" in
  do! required (bool_decide (base <> "")) "SANDBOX_RUNNER_HTTP_BASE_URL must be set" in
  let! base := check_base_url base in
  let! '(listen, advertise, ctl) := load_control base in
  ret (mkConfig keys (k_bytes k) (k_dir k) (k_listen k) api token id base capacity tls name level
         listen advertise ctl (k_metrics k) (k_inflight k) (k_timeout k)).

(** What the runner tells the API about itself ([register.go]). *)
Definition identity_of (c : Config) : Registration.identity :=
  Registration.mkRunnerIdentity (RunnerID c) (RunnerHTTPBaseURL c)
    (ResolvedControlGRPCAdvertiseAddr (ControlGRPCListenAddr c) (ControlGRPCAdvertiseAddr c) (RunnerHTTPBaseURL c)) (CapacityTotal c).

(** ** Trimming keeps what is not a space *)

Lemma trim_front_keeps c n seps l : c ∉ mjoin seps -> c ∈ l -> c ∈ trim_front n seps l.
Proof.
  intros Hc. revert l. induction n as [|n IH]; intros l Hl; cbn [trim_front]; [done|].
  destruct (strip_any seps l) as [r|] eqn:E; [|done]. apply IH. clear IH.
  induction seps as [|s seps IHs]; [done|]. cbn [strip_any] in E. change (mjoin (s :: seps)) with (s ++ mjoin seps) in Hc; rewrite not_elem_of_app in Hc. destruct Hc as [Hs Hr].
  destruct (strip_prefix s l) as [r'|] eqn:Ep; [|by apply IHs]. injection E as <-. apply strip_prefix_Some in Ep. rewrite Ep, elem_of_app in Hl. by destruct Hl.
Qed.

Lemma TrimSpace_keeps c s : bool_decide (c ∈ mjoin (spaces ++ wide_spaces)) = false -> c ∈ chars s -> c ∈ chars (TrimSpace s).
Proof.
  intros Hc Hs. apply bool_decide_eq_false in Hc. unfold TrimSpace. rewrite chars_of_chars. apply elem_of_reverse. apply trim_front_keeps.
  - intros (l & Hl & Hin)%list_elem_of_join. apply list_elem_of_fmap in Hin as (x & -> & Hx). apply Hc, list_elem_of_join. exists x. by rewrite elem_of_reverse in Hl.
  - apply elem_of_reverse. by apply trim_front_keeps.
Qed.

(** ** Joining and splitting an address *)

Lemma index_elem c l i : index c l = Some i -> c ∈ l.
Proof.
  revert i. induction l as [|x l IH]; intros i; cbn [index]; [done|]. destruct (decide (x = c)) as [->|]; [by left|].
  destruct (index c l); [|done]. intros _. right. by eapply IH.
Qed.

Lemma index_app c l r : c ∉ l -> index c (l ++ c :: r) = Some (length l).
Proof.
  induction l as [|x l IH]; cbn [app index]; intros Hc; [by destruct (decide (c = c))|]. apply not_elem_of_cons in Hc as [Hx Hl].
  destruct (decide (x = c)); [congruence|]. by rewrite IH.
Qed.

Lemma last_index_app c l r : c ∉ r -> last_index c (l ++ c :: r) = Some (length l).
Proof.
  intros Hc. unfold last_index. rewrite reverse_app, reverse_cons, <- app_assoc. simpl.
  rewrite index_app by (by rewrite elem_of_reverse). simpl. f_equal. rewrite length_app, length_reverse. simpl. lia.
Qed.

Lemma SplitHostPort_colon s x : SplitHostPort s = Some x -> colon ∈ chars s.
Proof.
  unfold SplitHostPort, last_index. destruct (index colon (reverse (chars s))) as [i|] eqn:E; [|done]. intros _. apply index_elem in E. by rewrite elem_of_reverse in E.
Qed.

Lemma JoinHostPort_colon h p : colon ∈ chars (JoinHostPort h p).
Proof. unfold JoinHostPort. case_decide; rewrite !chars_app, !elem_of_app; [do 2 right; left; right; left|right; left; left]. Qed.

Lemma SplitHostPort_Join h p : lbracket ∉ chars h -> rbracket ∉ chars h -> colon ∉ chars p -> lbracket ∉ chars p -> rbracket ∉ chars p ->
  SplitHostPort (JoinHostPort h p) = Some (h, p).
Proof.
  intros Hl Hr Hc Hpl Hpr. assert (N1 : lbracket <> rbracket) by discriminate. assert (N2 : lbracket <> colon) by discriminate.
  assert (N3 : rbracket <> colon) by discriminate. unfold JoinHostPort. destruct (decide (colon ∈ chars h)) as [Hin|Hin].
  - assert (E : chars ("[" +:+ h +:+ "]:" +:+ p) = lbracket :: chars h ++ rbracket :: colon :: chars p) by (rewrite !chars_app; reflexivity).
    assert (E2 : chars ("[" +:+ h +:+ "]:" +:+ p) = (lbracket :: chars h ++ [rbracket]) ++ colon :: chars p) by (rewrite E; simpl; by rewrite <- app_assoc).
    unfold SplitHostPort. rewrite E2 at 1. rewrite last_index_app by done. rewrite E. cbn [head]. rewrite decide_True by done.
    cbn [index]. destruct (decide (lbracket = rbracket)); [done|]. rewrite index_app by done. cbn [fmap option_fmap option_map].
    cbn [length]. rewrite length_app. cbn [length]. rewrite decide_True by lia. cbn [drop].
    assert (Ed : forall k, drop (k + length (chars h)) (chars h ++ rbracket :: colon :: chars p) = drop k (rbracket :: colon :: chars p))
      by (intros k; rewrite Nat.add_comm; apply drop_app_add).
    rewrite (Ed 1%nat : drop (S (length (chars h))) _ = _). replace (S (length (chars h) + 1)) with (2 + length (chars h))%nat by lia. rewrite Ed.
    replace (S (length (chars h)) - 1)%nat with (length (chars h)) by lia. rewrite drop_0, take_app_length. cbn [drop].
    rewrite decide_False; [by rewrite drop_0, !of_chars_chars|]. rewrite elem_of_app, !elem_of_cons. tauto.
  - assert (E : chars (h +:+ ":" +:+ p) = chars h ++ colon :: chars p) by (rewrite !chars_app; reflexivity).
    unfold SplitHostPort. rewrite E, last_index_app by done. rewrite decide_False.
    + rewrite take_app_length, decide_False by done. rewrite drop_0.
      rewrite decide_False by (rewrite !elem_of_app, !elem_of_cons; tauto).
      replace (S (length (chars h))) with (length (chars h) + 1)%nat by lia. rewrite drop_app_add. cbn [drop]. by rewrite drop_0, !of_chars_chars.
    + destruct (chars h) as [|c l]; [by intros [= ?]|]. intros [= ->]. apply Hl. by left.
Qed.

(** ** A runner that starts can register *)

Lemma check_base_url_sound base e r : loads (check_base_url base) e r ->
  exists scheme host, Registration.url_parse r = Some (scheme, host) /\ Registration.ToLower scheme = "https" /\ Hostname host <> "".
Proof.
  unfold check_base_url. destruct (Registration.url_parse base) as [[scheme host]|] eqn:E; [|by intros ?%loads_exit].
  intros H. apply loads_bind in H as (u & Hreq & H); [|by reads]. apply loads_required, andb_true_iff in Hreq as [Hs Hh]. apply loads_ret in H. subst r.
  apply bool_decide_eq_true_1 in Hs, Hh. destruct (bool_decide (host <> "") && _) eqn:Eu; [|by exists scheme, host].
  apply andb_true_iff in Eu as [Eh _]. apply bool_decide_eq_true_1 in Eh. exists "https", host. split; [by eapply url_https|]. by split.
Qed.

Lemma base_url_valid s scheme host : Registration.url_parse s = Some (scheme, host) -> Registration.ToLower scheme = "https" -> Hostname host <> "" ->
  TrimRight s (byte 47) <> "" /\ Registration.IsValidRunnerHTTPBaseURL (TrimRight s (byte 47)) = true.
Proof.
  intros Hp Hs Hh. assert (Hne : host <> "") by (intros ->; by apply Hh). pose proof (url_trim _ _ _ Hp Hne) as Ht. pose proof (url_text _ _ _ Ht Hne) as Hx.
  split; [|unfold Registration.IsValidRunnerHTTPBaseURL; by rewrite Ht, bool_decide_eq_true_2, bool_decide_eq_true_2, Hx].
  intros E. rewrite E, Hs in Hx. discriminate Hx.
Qed.

Lemma resolved_has_colon listen advertise base : (advertise = "" \/ validateHostPort advertise = true) ->
  ResolvedControlGRPCAdvertiseAddr listen advertise base <> "" ->
  colon ∈ chars (ResolvedControlGRPCAdvertiseAddr listen advertise base).
Proof.
  intros Hv. unfold ResolvedControlGRPCAdvertiseAddr. destruct (decide (TrimSpace listen = "")); [done|]. destruct (decide (TrimSpace advertise <> "")) as [Ha|Ha].
  - intros _. destruct Hv as [->|Hv]; [by destruct Ha|]. unfold validateHostPort in Hv. destruct (SplitHostPort (TrimSpace advertise)) as [x|] eqn:E; [|done]. by eapply SplitHostPort_colon.
  - destruct (Registration.url_parse base) as [[scheme host]|]; [|done]. destruct (decide (Hostname host = "")); [done|]. intros _. apply JoinHostPort_colon.
Qed.

Lemma load_control_sound base e l a t : loads (load_control base) e (l, a, t) ->
  validateListenAddr l = true /\ (a = "" \/ validateHostPort a = true) /\ ResolvedControlGRPCAdvertiseAddr l a base <> "" /\
  CertFile t <> "" /\ KeyFile t <> "" /\ CAFile t <> "".
Proof.
  unfold load_control. intros H. unload. simplify_eq. repeat match goal with H : bool_decide _ = true |- _ => apply bool_decide_eq_true_1 in H end.
  match goal with H : _ || _ = true |- _ => apply orb_true_iff in H; rewrite bool_decide_eq_true in H end. split; [done|]. split; [done|]. split; [done|]. by apply set_count_all.
Qed.

Lemma exec_timeout_sound v d : exec_timeout v = Some d -> d = 0 \/ DefaultExecTimeout <= d <= int64_max.
Proof.
  unfold exec_timeout. destruct (ParseDuration fraction v) as [x|] eqn:E; [|done]. apply ParseDuration_range in E. unfold in_int64 in E.
  destruct (bool_decide (x < 0) || _ || _) eqn:B; [done|]. intros [= <-]. apply orb_false_iff in B as [B B3]. apply orb_false_iff in B as [B1 _].
  apply bool_decide_eq_false in B1, B3. lia.
Qed.

Lemma load_knobs_sound e k : loads load_knobs e k -> k_timeout k = 0 \/ DefaultExecTimeout <= k_timeout k <= int64_max.
Proof.
  unfold load_knobs. intros H. assert (Hflag : forall n d, reads_env (load_flag n d)) by (intros; unfold load_flag; reads).
  assert (Hlim : forall n d, reads_env (parseLimit n d)) by (intros; unfold parseLimit; reads). unload.
  simpl. match goal with H : _ = 15 * Minute \/ _ |- _ => idtac | H : (_ /\ _ = 15 * Minute) \/ _ |- _ => destruct H as [[_ ->]|[_ H]] end.
  - right. unfold DefaultExecTimeout, Minute, Second, Millisecond, int64_max. lia.
  - by eapply exec_timeout_sound.
Qed.

Lemma Load_reads_segments : reads_env load_keys /\ reads_env load_knobs /\ (forall h, reads_env (load_id h)) /\ reads_env load_capacity /\
  reads_env load_runner_tls /\ (forall b, reads_env (check_base_url b)) /\ (forall b, reads_env (load_control b)).
Proof.
  assert (Hflag : forall n d, reads_env (load_flag n d)) by (intros; unfold load_flag; reads).
  assert (Hlim : forall n d, reads_env (parseLimit n d)) by (intros; unfold parseLimit; reads).
  split_and!; intros; unfold load_keys, load_knobs, load_id, load_capacity, load_runner_tls, check_base_url, load_control; reads; auto.
Qed.

Lemma Load_reads h : reads_env (Load h).
Proof. destruct Load_reads_segments as (?&?&?&?&?&?&?). unfold Load. reads; auto. Qed.

(** What a start of the runner establishes. *)
Lemma Load_sound h e c : loads (Load h) e c ->
  (MaxExecTimeout c = 0 \/ DefaultExecTimeout <= MaxExecTimeout c <= int64_max) /\
  (exists scheme host, Registration.url_parse (RunnerHTTPBaseURL c) = Some (scheme, host) /\ Registration.ToLower scheme = "https" /\ Hostname host <> "") /\
  colon ∈ chars (Registration.i_addr (identity_of c)).
Proof.
  unfold Load. intros H. destruct Load_reads_segments as (?&?&?&?&?&?&?).
  repeat (apply loads_bind in H as (? & ? & H); [|by auto with loaders]; try match type of H with loads (let '(_, _) := ?x in _) _ _ => destruct x as [[??]?] || destruct x end).
  apply loads_ret in H. subst c. simpl.
  repeat match goal with
  | H : loads load_knobs _ _ |- _ => apply load_knobs_sound in H
  | H : loads (check_base_url _) _ _ |- _ => apply check_base_url_sound in H
  | H : loads (load_control _) _ _ |- _ => apply load_control_sound in H as (_ & ? & ? & _)
  end. split; [done|]. split; [done|]. by apply resolved_has_colon.
Qed.

(** A runner whose configuration loads, and which has an id, is registered by its first
    heartbeat: the API accepts the URL and the control address it was configured with, records
    them and puts the runner into the registry.  Without an id, which the loader does not refuse,
    the API ignores the heartbeat and keeps the stream.  And the largest timeout an exec request
    may ask for is never below the one a request without a timeout gets. *)
Theorem loaded_runner_registers h e c cap ready cordoned now r : loads (Load h) e c ->
  let hb := Registration.make_heartbeat (identity_of c) cap ready cordoned in
  let id := TrimSpace (RunnerID c) in
  (id <> "" -> exists base addr,
     Registration.on_heartbeat hb now Registration.new_stream r =
       (id, inr (Registration.mkStream id base addr),
        Registry.Upsert (Registry.mkHeartbeat id base addr ready cordoned (Registry.h_total hb) (Registry.h_used hb) (Registry.h_stopped hb)) now r) /\
     Registration.IsValidRunnerHTTPBaseURL base = true /\ addr <> "") /\
  (id = "" -> Registration.on_heartbeat hb now Registration.new_stream r = ("", inr Registration.new_stream, r)) /\
  (MaxExecTimeout c = 0 \/ DefaultExecTimeout <= MaxExecTimeout c <= int64_max).
Proof.
  intros H hb id. apply Load_sound in H as (Ht & (scheme & host & Hp & Hs & Hh) & Hc). split; [|split; [|done]].
  - intros Hid. destruct (base_url_valid _ _ _ Hp Hs Hh) as [Hne Hv].
    assert (Ha : TrimSpace (Registration.i_addr (identity_of c)) <> "").
    { apply (TrimSpace_keeps colon) in Hc; [|vm_compute; reflexivity]. intros E. rewrite E in Hc. by apply elem_of_nil in Hc. }
    exists (TrimRight (RunnerHTTPBaseURL c) (byte 47)), (TrimSpace (Registration.i_addr (identity_of c))). split; [|done].
    unfold Registration.on_heartbeat. cbn [Registration.committedRunnerID Registration.new_stream Registration.committedHTTPBase Registration.committedControlGRPC].
    change (TrimSpace (Registry.h_id hb)) with id. change (Registry.h_base hb) with (RunnerHTTPBaseURL c). change (Registry.h_addr hb) with (Registration.i_addr (identity_of c)).
    rewrite !(decide_False (P := _ /\ _)) by tauto. destruct (decide ("" = "")) as [_|]; [|done].
    destruct (decide (TrimRight (RunnerHTTPBaseURL c) (byte 47) = "")); [done|]. rewrite bool_decide_eq_false_2, Hv by done. simpl.
    destruct (decide (TrimSpace _ = "")); [done|]. by rewrite decide_False.
  - intros Hid. unfold Registration.on_heartbeat. change (TrimSpace (Registry.h_id hb)) with id. by rewrite decide_True.
Qed.
End load.

(** ** A runner with two spellings of one URL *)

Definition toy_parse (s : string) : option (string * string) :=
  if decide (s = "https://runner:8080" \/ s = "https://runner:8080/") then Some ("https", "runner:8080")
  else if decide (s = "http://runner:8080" \/ s = "http://runner:8080/") then Some ("http", "runner:8080")
  else None.

Lemma toy_parse_inv s scheme host : toy_parse s = Some (scheme, host) ->
  host = "runner:8080" /\ ((scheme = "https" /\ s ∈ ["https://runner:8080"; "https://runner:8080/"]) \/ (scheme = "http" /\ s ∈ ["http://runner:8080"; "http://runner:8080/"])).
Proof.
  unfold toy_parse. repeat case_decide; intros [= <- <-]; (split; [done|]); [left|right]; rewrite !elem_of_cons; tauto.
Qed.

Ltac toy_url := let H := fresh in intros H; apply toy_parse_inv in H as (-> & [[-> H]|[-> H]]);
  rewrite !elem_of_cons in H; destruct H as [->|[->|H]]; first [by apply elem_of_nil in H|intros _; vm_compute; reflexivity].

Definition toy : RunnerURLs.
Proof.
  refine (Build_RunnerURLs {| Registration.url_parse := toy_parse |} (fun _ => "https://runner:8080") _ _ _); simpl.
  - intros s scheme host. toy_url.
  - intros s scheme host. toy_url.
  - intros s scheme host. toy_url.
Defined.

Definition runner_env : list (string * string) :=
  [("SANDBOX_RUNNER_API_KEYS", "k"); ("SANDBOX_RUNNER_REGISTRATION_GRPC_CA_FILE", "a"); ("SANDBOX_RUNNER_REGISTRATION_GRPC_CERT_FILE", "c");
   ("SANDBOX_RUNNER_REGISTRATION_GRPC_KEY_FILE", "k"); ("SANDBOX_RUNNER_API_GRPC_ADDR", "api:9090"); ("SANDBOX_RUNNER_REGISTRATION_TOKEN", "t");
   ("SANDBOX_RUNNER_HTTP_BASE_URL", " http://runner:8080/ "); ("SANDBOX_RUNNER_CONTROL_GRPC_LISTEN_ADDR", "0.0.0.0:09100");
   ("SANDBOX_RUNNER_CONTROL_GRPC_TLS_CERT_FILE", "c"); ("SANDBOX_RUNNER_CONTROL_GRPC_TLS_KEY_FILE", "k"); ("SANDBOX_RUNNER_CONTROL_GRPC_TLS_CLIENT_CA_FILE", "a");
   ("SANDBOX_RUNNER_MAX_EXEC_TIMEOUT", "5m")].

(** The URL is upgraded, and the control address is made of its host and the listener's port. *)
Definition runner_config : Config :=
  mkConfig {["k"]} 10485760 "/var/sandboxes" ":8080" "api:9090" "t" "host-1" "https://runner:8080" 1000 (mkTLS "c" "k" "a") "" 0
    "0.0.0.0:09100" "" (mkTLS "c" "k" "a") false 256 (5 * Minute).

Example loads_runner : fst (Load (U := toy) exact_fraction "host-1" (set runner_env)) = inr runner_config.
Proof. vm_compute. reflexivity. Qed.

Example refuses_short_timeout : fst (Load (U := toy) exact_fraction "host-1" (set (("SANDBOX_RUNNER_MAX_EXEC_TIMEOUT", "0.5ns") :: runner_env))) =
  inl "SANDBOX_RUNNER_MAX_EXEC_TIMEOUT must be 0 or a duration of at least 5m0s (the default exec timeout)".
Proof. vm_compute. reflexivity. Qed.

Lemma loaded_runner_registers_witness :
  exists base addr r, Registration.on_heartbeat (U := urls (RunnerURLs := toy)) (Registration.make_heartbeat (identity_of (U := toy) runner_config) None true false) 0 Registration.new_stream (Registry.NewMemory 0) =
    ("host-1", inr (Registration.mkStream "host-1" base addr), r).
Proof.
  assert (H : loads (Load (U := toy) exact_fraction "host-1") (set runner_env) runner_config) by (apply loads_answer; [apply Load_reads|exact loads_runner]).
  destruct (loaded_runner_registers (U := toy) exact_fraction "host-1" (set runner_env) runner_config None true false 0 (Registry.NewMemory 0) H) as (Hr & _ & _).
  destruct Hr as (base & addr & E & _); [vm_compute; discriminate|]. exists base, addr. eexists. exact E.
Defined.
End LoadRunner.
