(* ===== verification/LoadDocker.v ===== *)
(** * The Docker runtime's configuration ([internal/runner/runtime/docker/config.go])

    What the loader accepts; a resolver configured for the sandboxes is one the egress rules let
    them reach. *)

From S2P Require Import Prelude.
From S2P Require Import GoStrings.
From S2P Require Import Wire.
From S2P Require Import Netfilter.
From S2P Require Import Netrules.
From S2P Require Import NetrulesPolicy.
From S2P Require Import EnvParse.
From S2P Require Import LoadAPI.
From S2P Require Import NetAddr.

Module LoadDocker.
Import GoStrings EnvParse LoadAPI NetAddr.

Record Config := mkConfig {
  Host : string; SandboxImage : string; DefaultMemoryMB : Z; DefaultCPUPercent : Z; DefaultPidsMax : Z;
  DefaultDiskQuotaMB : Z; DiskQuotaActive : bool; EnableCgroups : bool; DNSServers : list string; AckBridgeNetfilterLoaded : bool;
}.

(** One server: its address as it is given to Docker. *)
Definition parseDNSServer (s : string) : option string :=
  match ParseIP s with
  | None => None
  | Some ip =>
      match To4 ip with
      | None => None
      | Some ip4 =>
          if IsUnspecified ip then None
          else if existsb (fun cidr => match ParseCIDR cidr with Some blocked => Contains blocked ip | None => false end) Netrules.PrivateRangesV4 then None
          else Some (IPv4String ip4)
      end
  end.

Definition parseDNSServers (v : string) : option (list string) := mapM (fun s => parseDNSServer (TrimSpace s)) (SplitComma v).

Definition load_sizes : loader (Z * Z * Z * Z) :=
  let! v := Getenv "SANDBOX_RUNNER_DEFAULT_MEMORY_MB" in
  let! mem := optional v (where_ (ParseInt 64) positive) 512 "SANDBOX_RUNNER_DEFAULT_MEMORY_MB must be a positive integer" in
  let! v := Getenv "SANDBOX_RUNNER_DEFAULT_CPU_PERCENT" in
  let! cpu := optional v (where_ Atoi positive) 100 "SANDBOX_RUNNER_DEFAULT_CPU_PERCENT must be a positive integer" in
  let! v := Getenv "SANDBOX_RUNNER_DEFAULT_PIDS_MAX" in
  let! pids := optional v (where_ Atoi positive) 256 "SANDBOX_RUNNER_DEFAULT_PIDS_MAX must be a positive integer" in
  let! v := Getenv "SANDBOX_RUNNER_DEFAULT_DISK_QUOTA_MB" in
  let! disk := optional v (where_ (ParseInt 64) nonnegative) 0 "SANDBOX_RUNNER_DEFAULT_DISK_QUOTA_MB must be a non-negative integer" in
  ret (mem, cpu, pids, disk).

Definition load_dns : loader (list string) :=
  let! v := Getenv "SANDBOX_RUNNER_DOCKER_DNS_SERVERS" in
  optional v parseDNSServers [] "SANDBOX_RUNNER_DOCKER_DNS_SERVERS".

Definition LoadConfig : loader Config :=
  let! host := Getenv "SANDBOX_RUNNER_DOCKER_HOST" in
  let! image := Getenv "SANDBOX_RUNNER_DOCKER_SANDBOX_IMAGE" in
  do! required (bool_decide (image <> "")) "SANDBOX_RUNNER_DOCKER_SANDBOX_IMAGE must be set" in
  let! '(mem, cpu, pids, disk) := load_sizes in
  let! active := load_flag "SANDBOX_RUNNER_DISK_QUOTA_ACTIVE" false in
  let! cgroups := load_flag "SANDBOX_RUNNER_ENABLE_CGROUPS" true in
  let! dns := load_dns in
  let! ack := load_flag "SANDBOX_RUNNER_DOCKER_ACK_BR_NETFILTER_IS_LOADED" false in
  ret (mkConfig (or_default host "unix:///var/run/docker.sock") image mem cpu pids disk active cgroups dns ack).

(** ** Resolvers are reachable *)

(** [net.ParseCIDR] and iptables read the ranges alike. *)
Lemma ranges_agree : Forall (fun cidr => exists base n, ParseCIDR cidr = Some (V4 base, n) /\ Netfilter.parse_cidr cidr = (number_of base, n)) Netrules.PrivateRangesV4.
Proof. unfold Netrules.PrivateRangesV4. repeat (constructor; [eexists _, _; split; vm_compute; reflexivity|]). constructor. Qed.

Lemma blocked_private ip l : To4 ip = Some l ->
  existsb (fun cidr => match ParseCIDR cidr with Some blocked => Contains blocked ip | None => false end) Netrules.PrivateRangesV4 = NetrulesPolicy.private (number_of l).
Proof.
  intros Hl. unfold NetrulesPolicy.private. induction ranges_agree as [|cidr rs (base & n & Hp & Hc) _ IH]; [done|]. cbn [existsb]. rewrite IH. f_equal.
  unfold Netfilter.in_cidr. rewrite Hp, Hc. unfold Contains. simpl. rewrite Hl. apply bool_decide_ext. split; congruence.
Qed.

Lemma parseDNSServer_sound s t : parseDNSServer s = Some t ->
  exists l, ParseIP t = Some (v4_prefix ++ l) /\ NetrulesPolicy.private (number_of l) = false /\ l <> [0; 0; 0; 0].
Proof.
  unfold parseDNSServer. destruct (ParseIP s) as [ip|] eqn:Ep; [|done]. destruct (To4 ip) as [l|] eqn:E4; [|done].
  destruct (IsUnspecified ip) eqn:Eu; [done|]. rewrite (blocked_private ip l E4). destruct (NetrulesPolicy.private (number_of l)) eqn:Epr; [done|]. intros [= <-].
  exists l. destruct (ParseIP_To4 s ip l Ep E4) as (a & b & c & d & -> & Ha & Hb & Hc & Hd). split; [by apply ParseIP_print|]. split; [done|].
  intros Hz. apply bool_decide_eq_false in Eu. apply Eu. left. unfold To4 in E4. case_decide as Ht; [|done]. injection E4 as E4. rewrite <- (take_drop 12 ip), Ht, E4. by rewrite Hz.
Qed.

Lemma parseDNSServers_sound v l t : parseDNSServers v = Some l -> t ∈ l -> exists s, parseDNSServer s = Some t.
Proof. unfold parseDNSServers. intros H%mapM_Some. intros Ht. apply list_elem_of_lookup in Ht as [i Hi]. eapply Forall2_lookup_r in H as (x & _ & Hx); [|done]. eauto. Qed.

Lemma LoadConfig_reads : reads_env load_sizes /\ reads_env load_dns /\ (forall n d, reads_env (load_flag n d)).
Proof. split_and!; intros; unfold load_sizes, load_dns, load_flag; reads. Qed.

(** A resolver the Docker runtime is configured with is one its sandboxes can reach: the
    text handed to Docker is an IPv4 address, not the unspecified one, and the egress rules accept a
    packet to it from the public network that does not go back out by the same bridge. *)
Theorem docker_resolvers_reachable e c t : loads LoadConfig e c -> t ∈ DNSServers c ->
  exists l, ParseIP t = Some (v4_prefix ++ l) /\ l <> [0; 0; 0; 0] /\
    forall pub p, Netfilter.pk_dst p = number_of l -> Netfilter.pk_out p <> pub -> NetrulesPolicy.egress_verdict pub p = Netfilter.Accept.
Proof.
  intros H Ht. destruct LoadConfig_reads as (?&?&?). unfold LoadConfig in H.
  repeat (apply loads_bind in H as (? & ? & H); [|by auto with loaders]; try match type of H with loads (let '(_, _) := ?x in _) _ _ => destruct x as [[[??]?]?] end).
  apply loads_ret in H. subst c. simpl in Ht. match goal with H : loads load_dns _ _ |- _ => unfold load_dns in H; unload; destruct H as [[_ ->]|[_ H]]; [by apply elem_of_nil in Ht|] end.
  destruct (parseDNSServers_sound _ _ _ ltac:(eassumption) Ht) as [s Hs]. apply parseDNSServer_sound in Hs as (l & Hl & Hp & Hz). exists l. split; [done|]. split; [done|].
  intros pub p Hd Ho. unfold NetrulesPolicy.egress_verdict. rewrite decide_False by done. rewrite Hd, Hp. by destruct (Netfilter.pk_established p).
Qed.

Definition docker_env : list (string * string) :=
  [("SANDBOX_RUNNER_DOCKER_SANDBOX_IMAGE", "img"); ("SANDBOX_RUNNER_DOCKER_DNS_SERVERS", " 8.8.8.8,::ffff:1.1.1.1 ")].

Definition docker_config : Config := mkConfig "unix:///var/run/docker.sock" "img" 512 100 256 0 false true ["8.8.8.8"; "1.1.1.1"] false.

Example loads_docker : fst (LoadConfig (set docker_env)) = inr docker_config.
Proof. vm_compute. reflexivity. Qed.

Example refuses_metadata_resolver : fst (LoadConfig (set (("SANDBOX_RUNNER_DOCKER_DNS_SERVERS", "8.8.8.8,169.254.169.254") :: docker_env))) = inl "SANDBOX_RUNNER_DOCKER_DNS_SERVERS".
Proof. vm_compute. reflexivity. Qed.

Lemma docker_resolvers_reachable_witness : exists l, ParseIP "1.1.1.1" = Some (v4_prefix ++ l) /\ l <> [0; 0; 0; 0].
Proof.
  assert (H : loads LoadConfig (set docker_env) docker_config).
  { apply loads_answer; [|exact loads_docker]. destruct LoadConfig_reads as (?&?&?). unfold LoadConfig. reads; auto. }
  destruct (docker_resolvers_reachable (set docker_env) docker_config "1.1.1.1" H ltac:(right; left)) as (l & Hl & Hz & _). by exists l.
Defined.
End LoadDocker.
