(* ===== verification/LoadFirecracker.v ===== *)
(** * The Firecracker runtime's configuration ([internal/runner/runtime/firecracker.ee/config.go])

    What the loader accepts; every slot the runner has room for gets a network and a proxy port
    of its own. *)

From S2P Require Import Prelude.
From S2P Require Import GoStrings.
From S2P Require Import Wire.
From S2P Require Import FirecrackerNet.
From S2P Require Import Paths.
From S2P Require Import EnvParse.
From S2P Require Import LoadAPI.
From S2P Require Import NetAddr.

Module LoadFirecracker.
Import GoStrings EnvParse LoadAPI NetAddr.

Record Config := mkConfig {
  JailerBin : string; FirecrackerBin : string; JailerBaseDir : string; TemplateDir : string; SnapshotMemPath : string; SnapshotStatePath : string;
  GuestIP : string; HostTapDeviceName : string; HostTapIPCIDR : string; DaemonPort : Z; ProxyListenIP : string; ProxyPortStart : Z;
  SocketWaitAttempts : Z; SocketWaitInterval : Z; DaemonWaitTimeout : Z; ManifestPath : string; ExpectedGitSHA : string;
  CreateSnapshotScript : string; DaemonBin : string;
}.

Section load.
Context (fraction : Z -> Z -> Z -> Z).

Definition parsePositiveIntEnv (name : string) (default : Z) : loader Z :=
  let! raw := GetTrimmed name in
  optional raw (where_ Atoi positive) default (name +:+ " must be a positive integer").

Definition parseDurationEnv (name : string) (default : Z) : loader Z :=
  let! raw := GetTrimmed name in
  optional raw (where_ (ParseDuration fraction) positive) default (name +:+ " must be a positive duration").

(** The product is a [time.Duration]: it wraps. *)
Definition parseMillisecondsEnv (name : string) (default : Z) : loader Z :=
  let! raw := GetTrimmed name in
  optional raw (fun v => (fun n => wrap64 (n * Millisecond)) <$> where_ Atoi positive v) default (name +:+ " must be a positive integer number of milliseconds").

Definition absolute (p : string) : bool := HasPrefix p "/".

Definition snapshotDirsMatch (memPath statePath : string) : bool :=
  bool_decide (Paths.Clean (Paths.Dir memPath) = Paths.Clean (Paths.Dir statePath)).

(** The paths are checked in the order of a map. *)
Definition validateConfig (cfg : Config) (capacityTotal : Z) : loader unit :=
  do! required (forallb absolute [JailerBin cfg; FirecrackerBin cfg; JailerBaseDir cfg; TemplateDir cfg; SnapshotMemPath cfg; SnapshotStatePath cfg])
        "must be an absolute path" in
  do! required (bool_decide (ParseIP (GuestIP cfg) <> None)) "SANDBOX_RUNNER_FIRECRACKER_GUEST_IP must be an IP address" in
  do! required (bool_decide (is_Some (ParseCIDR (HostTapIPCIDR cfg)))) "SANDBOX_RUNNER_FIRECRACKER_HOST_TAP_IP_CIDR must be CIDR notation" in
  do! required (bool_decide (ParseIP (ProxyListenIP cfg) <> None)) "SANDBOX_RUNNER_FIRECRACKER_PROXY_LISTEN_IP must be an IP address" in
  do! required (valid_port (DaemonPort cfg)) "SANDBOX_RUNNER_FIRECRACKER_DAEMON_PORT must be between 1 and 65535" in
  do! required (valid_port (ProxyPortStart cfg)) "SANDBOX_RUNNER_FIRECRACKER_PROXY_PORT_START must be between 1 and 65535" in
  do! required (bool_decide (0 < capacityTotal)) "SANDBOX_RUNNER_CAPACITY_TOTAL must be positive for firecracker backend" in
  do! required (bool_decide (wrap64 (wrap64 (ProxyPortStart cfg + capacityTotal) - 1) <= 65535)) "firecracker proxy port range exceeds 65535 for capacity" in
  do! required (bool_decide (capacityTotal <= FirecrackerNet.MaxSlots)) "SANDBOX_RUNNER_CAPACITY_TOTAL exceeds the slots the firecracker uplink addressing covers" in
  do! required (bool_decide (ManifestPath cfg = "") || absolute (ManifestPath cfg)) "SANDBOX_RUNNER_FIRECRACKER_MANIFEST_PATH must be an absolute path" in
  do! required (bool_decide (CreateSnapshotScript cfg = "") || absolute (CreateSnapshotScript cfg)) "SANDBOX_RUNNER_FIRECRACKER_CREATE_SNAPSHOT_SCRIPT must be an absolute path" in
  do! required (bool_decide (CreateSnapshotScript cfg = "") || snapshotDirsMatch (SnapshotMemPath cfg) (SnapshotStatePath cfg))
        "SANDBOX_RUNNER_FIRECRACKER_SNAPSHOT_MEM_PATH and SANDBOX_RUNNER_FIRECRACKER_SNAPSHOT_STATE_PATH must be in the same directory" in
  required (bool_decide (DaemonBin cfg = "") || absolute (DaemonBin cfg)) "SANDBOX_RUNNER_FIRECRACKER_DAEMON_BIN must be an absolute path".

Definition load_text (name default : string) : loader string :=
  let! v := GetTrimmed name in
  ret (or_default v default).

Definition LoadConfig (capacityTotal : Z) : loader Config :=
  let! jailer := load_text "SANDBOX_RUNNER_FIRECRACKER_JAILER_BIN" "/opt/firecracker/bin/jailer" in
  let! bin := load_text "SANDBOX_RUNNER_FIRECRACKER_BIN" "/opt/firecracker/bin/firecracker" in
  let! base := load_text "SANDBOX_RUNNER_FIRECRACKER_JAILER_BASE_DIR" "/srv/jailer" in
  let! template := load_text "SANDBOX_RUNNER_FIRECRACKER_TEMPLATE_DIR" "/srv/firecracker/template" in
  let! mem := load_text "SANDBOX_RUNNER_FIRECRACKER_SNAPSHOT_MEM_PATH" "/srv/firecracker/snapshots/mem" in
  let! state := load_text "SANDBOX_RUNNER_FIRECRACKER_SNAPSHOT_STATE_PATH" "/srv/firecracker/snapshots/state" in
  let! guest := load_text "SANDBOX_RUNNER_FIRECRACKER_GUEST_IP" "172.16.0.10" in
  let! tap := load_text "SANDBOX_RUNNER_FIRECRACKER_HOST_TAP_DEVICE_NAME" "fc-tap-0" in
  let! cidr := load_text "SANDBOX_RUNNER_FIRECRACKER_HOST_TAP_IP_CIDR" "172.16.0.1/24" in
  let! daemon := parsePositiveIntEnv "SANDBOX_RUNNER_FIRECRACKER_DAEMON_PORT" 8081 in
  let! listen := load_text "SANDBOX_RUNNER_FIRECRACKER_PROXY_LISTEN_IP" "127.0.0.1" in
  let! proxy := parsePositiveIntEnv "SANDBOX_RUNNER_FIRECRACKER_PROXY_PORT_START" 18081 in
  let! attempts := parsePositiveIntEnv "SANDBOX_RUNNER_FIRECRACKER_SOCKET_WAIT_ATTEMPTS" 120 in
  let! interval := parseMillisecondsEnv "SANDBOX_RUNNER_FIRECRACKER_SOCKET_WAIT_INTERVAL_MS" (20 * Millisecond) in
  let! timeout := parseDurationEnv "SANDBOX_RUNNER_FIRECRACKER_DAEMON_WAIT_TIMEOUT" Minute in
  let! manifest := load_text "SANDBOX_RUNNER_FIRECRACKER_MANIFEST_PATH" "" in
  let! sha := load_text "SANDBOX_RUNNER_FIRECRACKER_EXPECTED_GIT_SHA" "" in
  let! script := load_text "SANDBOX_RUNNER_FIRECRACKER_CREATE_SNAPSHOT_SCRIPT" "" in
  let! daemonBin := load_text "SANDBOX_RUNNER_FIRECRACKER_DAEMON_BIN" "/srv/firecracker/bin/sandbox-daemon" in
  let cfg := mkConfig jailer bin base template mem state guest tap cidr daemon listen proxy attempts interval timeout manifest sha script daemonBin in
  do! validateConfig cfg capacityTotal in
  ret cfg.

Lemma validateConfig_sound cfg cap e u : - 2 ^ 31 <= cap < 2 ^ 31 -> loads (validateConfig cfg cap) e u ->
  0 < cap <= FirecrackerNet.MaxSlots /\ 1 <= DaemonPort cfg <= 65535 /\ 1 <= ProxyPortStart cfg /\ ProxyPortStart cfg + cap - 1 <= 65535 /\
  Forall (fun p => absolute p = true) [JailerBin cfg; FirecrackerBin cfg; JailerBaseDir cfg; TemplateDir cfg; SnapshotMemPath cfg; SnapshotStatePath cfg] /\
  ParseIP (GuestIP cfg) <> None /\ (exists a n, ParseCIDR (HostTapIPCIDR cfg) = Some (a, n)) /\ ParseIP (ProxyListenIP cfg) <> None /\
  (CreateSnapshotScript cfg <> "" -> snapshotDirsMatch (SnapshotMemPath cfg) (SnapshotStatePath cfg) = true).
Proof.
  intros Hcap. unfold validateConfig, valid_port. intros H. unload.
  repeat match goal with H : bool_decide _ = true |- _ => apply bool_decide_eq_true_1 in H | H : bool_decide _ || _ = true |- _ => apply orb_true_iff in H; rewrite bool_decide_eq_true in H end.
  match goal with H : wrap64 _ <= _ |- _ => rewrite (wrap64_small (_ + _)), wrap64_small in H by (unfold in_int64, int64_min, int64_max; lia) end.
  match goal with H : forallb _ _ = true |- _ => rewrite forallb_forall in H; apply List.Forall_forall in H end.
  split_and!; try done; try lia; [|tauto].
  match goal with H : is_Some _ |- _ => destruct H as [[a n] ->]; eauto end.
Qed.

Lemma LoadFirecracker_reads cap : reads_env (LoadConfig cap).
Proof.
  assert (Htext : forall n d, reads_env (load_text n d)) by (intros; unfold load_text; reads).
  assert (Hint : forall n d, reads_env (parsePositiveIntEnv n d)) by (intros; unfold parsePositiveIntEnv; reads).
  assert (Hdur : forall n d, reads_env (parseDurationEnv n d)) by (intros; unfold parseDurationEnv; reads).
  assert (Hms : forall n d, reads_env (parseMillisecondsEnv n d)) by (intros; unfold parseMillisecondsEnv; reads).
  assert (Hval : forall c n, reads_env (validateConfig c n)) by (intros; unfold validateConfig; reads).
  unfold LoadConfig. repeat (apply reads_bind; [auto|intro]); apply reads_ret.
Qed.

(** With the capacity of a runner whose Firecracker configuration loads, every slot has its
    own namespace, veth pair and proxy port: no two slots share one, the port is a TCP port and
    the veth's name fits an interface name.  The snapshot's files and the binaries are named by
    absolute paths. *)
Theorem firecracker_slots_fit cap e c : - 2 ^ 31 <= cap < 2 ^ 31 -> loads (LoadConfig cap) e c ->
  0 < cap /\
  Forall (fun p => HasPrefix p "/" = true) [JailerBin c; FirecrackerBin c; JailerBaseDir c; TemplateDir c; SnapshotMemPath c; SnapshotStatePath c] /\
  forall i j, 0 <= i < cap -> 0 <= j < cap -> i <> j ->
    1 <= ProxyPortStart c + i <= 65535 /\ ProxyPortStart c + i <> ProxyPortStart c + j /\
    FirecrackerNet.NetnsName i <> FirecrackerNet.NetnsName j /\ FirecrackerNet.HostVethName i <> FirecrackerNet.HostVethName j /\
    (length (chars (FirecrackerNet.HostVethName i)) <= 15)%nat.
Proof.
  intros Hcap H. unfold LoadConfig in H.
  do 19 (apply loads_bind in H as (? & _ & H); [|by unfold load_text, parsePositiveIntEnv, parseDurationEnv, parseMillisecondsEnv; reads]).
  cbv zeta in H. apply loads_bind in H as (u & Hv & H); [|by unfold validateConfig; reads]. apply loads_ret in H. rewrite H in Hv. clear H.
  apply validateConfig_sound in Hv as (Hc & _ & Hp & Hm & Ha & _); [|done]. split; [lia|]. split; [done|]. intros i j Hi Hj Hne.
  destruct (FirecrackerNet.slot_networks_distinct i j ltac:(lia) ltac:(lia) Hne) as (? & ? & ? & _). split_and!; (done || lia).
Qed.
End load.

Definition firecracker_config : Config :=
  mkConfig "/opt/firecracker/bin/jailer" "/opt/firecracker/bin/firecracker" "/srv/jailer" "/srv/firecracker/template" "/srv/firecracker/snapshots/mem"
    "/srv/firecracker/snapshots/state" "172.16.0.10" "fc-tap-0" "172.16.0.1/24" 8081 "127.0.0.1" 18081 120 (20 * Millisecond) Minute "" "" "" "/srv/firecracker/bin/sandbox-daemon".

Example loads_firecracker : fst (LoadConfig exact_fraction 1000 (set [])) = inr firecracker_config.
Proof. vm_compute. reflexivity. Qed.

(** A positive number of milliseconds can wrap to a negative interval: the loader accepts it. *)
Example interval_wraps : fst (parseMillisecondsEnv "SANDBOX_RUNNER_FIRECRACKER_SOCKET_WAIT_INTERVAL_MS" 0
    (set [("SANDBOX_RUNNER_FIRECRACKER_SOCKET_WAIT_INTERVAL_MS", "9223372036855")])) = inr (-9223372036854551616).
Proof. vm_compute. reflexivity. Qed.

Lemma firecracker_slots_fit_witness : 18081 + 0 <> 18081 + 999.
Proof.
  assert (H : loads (LoadConfig exact_fraction 1000) (set []) firecracker_config) by (apply loads_answer; [apply LoadFirecracker_reads|exact loads_firecracker]).
  destruct (firecracker_slots_fit exact_fraction 1000 (set []) firecracker_config ltac:(lia) H) as (_ & _ & Hs).
  destruct (Hs 0 999 ltac:(lia) ltac:(lia) ltac:(lia)) as (_ & Hd & _). exact Hd.
Defined.
End LoadFirecracker.
