(* ===== verification/FirecrackerJail.v ===== *)
(** * Boot parameters and jails of Firecracker sandboxes
    ([internal/runner/runtime/firecracker.ee]: bootparams.go, boot.go, kernelpin.go, disk.go
    and the host scripts of runtime.go)

    What the runner accepts of a golden snapshot's sidecar, the requests of a cold boot, the
    disk and kernel checks, and the two scripts that build and clear a sandbox's jail, read
    as the commands the shell runs on a table of mounts. *)

From S2P Require Import Prelude.
From S2P Require Import GoStrings.
From S2P Require Import Wire.
From S2P Require Import ShellQuote.
From S2P Require Import FirecrackerNet.
From S2P Require Import Paths.
From S2P Require Import EnvParse.
From S2P Require Import LoadAPI.
From S2P Require Import NetAddr.
From S2P Require Import LoadFirecracker.

Module FirecrackerJail.
Import GoStrings EnvParse NetAddr ShellQuote.
Import FirecrackerNet.

(** ** The sidecar *)

Record bootParams := mkBootParams {
  SchemaVersion : Z; VCPUCount : Z; MemSizeMiB : Z; KernelImagePath : string; BootArgs : string; RootfsDrivePath : string;
  GuestMAC : string; GuestIP : string; HostTapDeviceName : string; DaemonPort : Z;
}.

Definition bootParamsSchemaVersion : Z := 1.
Definition bootParamsPath (cfg : LoadFirecracker.Config) : string := Paths.Join (Paths.Dir (LoadFirecracker.SnapshotMemPath cfg)) "boot.json".

(** [strings.Fields]: [cur] is the field so far, backwards.  Every round takes a character. *)
Fixpoint fields_from (fuel : nat) (cur : list ascii) (l : list ascii) : list string :=
  let done := match cur with [] => [] | _ => [of_chars (reverse cur)] end in
  match fuel with
  | O => done
  | S k =>
      match l with
      | [] => done
      | c :: l' => match strip_any (spaces ++ wide_spaces) l with
                   | Some r => done ++ fields_from k [] r
                   | None => fields_from k (c :: cur) l'
                   end
      end
  end.
Definition Fields (s : string) : list string := fields_from (S (String.length s)) [] (chars s).

(** The gateway of the first [ip=] argument. *)
Fixpoint gateway_of (args : list string) : string + list Z :=
  match args with
  | [] => inl "boot_args must configure the guest network with an ip= parameter"
  | arg :: args' =>
      match strip_prefix (chars "ip=") (chars arg) with
      | None => gateway_of args'
      | Some spec =>
          match split_on colon spec with
          | _ :: _ :: g :: _ => match ParseIP (of_chars g) with Some ip => inr ip | None => inl "boot_args gateway must be an IP address" end
          | _ => inl "boot_args has no gateway field"
          end
      end
  end.
Definition guestGateway (p : bootParams) : string + list Z := gateway_of (Fields (BootArgs p)).

Definition validateJailPath (path : string) : bool := HasPrefix path "/" && bool_decide (Paths.Clean path = path).

(** The first check that fails. *)
Fixpoint first_failure (l : list (bool * string)) : option string :=
  match l with
  | [] => None
  | (ok, text) :: l' => if ok : bool then first_failure l' else Some text
  end.

Definition is_right {A B} (x : A + B) : bool := match x with inr _ => true | inl _ => false end.

Definition validate (p : bootParams) : option string :=
  first_failure
    [ (bool_decide (SchemaVersion p = bootParamsSchemaVersion), "unsupported schema_version");
      (bool_decide (0 < VCPUCount p), "vcpu_count must be positive");
      (bool_decide (0 < MemSizeMiB p), "mem_size_mib must be positive");
      (validateJailPath (KernelImagePath p), "kernel_image_path");
      (validateJailPath (RootfsDrivePath p), "rootfs_drive_path");
      (bool_decide (TrimSpace (BootArgs p) <> ""), "boot_args must not be empty");
      (is_right (guestGateway p), "boot_args gateway");
      (bool_decide (ParseIP (GuestIP p) <> None), "guest_ip must be an IP address");
      (ParseMAC (GuestMAC p), "guest_mac must be a MAC address");
      (bool_decide (TrimSpace (HostTapDeviceName p) <> ""), "host_tap_device_name must not be empty");
      (LoadAPI.valid_port (DaemonPort p), "daemon_port must be between 1 and 65535") ].

(** The settings in which the snapshot and the runner differ. *)
Definition mismatches (p : bootParams) (cfg : LoadFirecracker.Config) (gateway hostTapIP : list Z) : list string :=
  (if decide (GuestIP p <> LoadFirecracker.GuestIP cfg) then ["guest_ip"] else []) ++
  (if decide (gateway <> hostTapIP) then ["boot_args gateway"] else []) ++
  (if decide (HostTapDeviceName p <> LoadFirecracker.HostTapDeviceName cfg) then ["host_tap_device_name"] else []) ++
  (if decide (DaemonPort p <> LoadFirecracker.DaemonPort cfg) then ["daemon_port"] else []).

Definition matchesConfig (p : bootParams) (cfg : LoadFirecracker.Config) : option string :=
  match guestGateway p with
  | inl text => Some text
  | inr gateway =>
      match ParseCIDR (LoadFirecracker.HostTapIPCIDR cfg) with
      | None => Some "SANDBOX_RUNNER_FIRECRACKER_HOST_TAP_IP_CIDR must be CIDR notation"
      | Some (hostTapIP, _) =>
          match mismatches p cfg gateway (As16 hostTapIP) with
          | [] => None
          | l => Some ("golden snapshot was built with settings the runner contradicts: " +:+ String.concat "; " l)
          end
      end
  end.

(** [read]: [os.ReadFile]; [decode]: [json.Unmarshal] into a [bootParams]. *)
Definition loadBootParams (read : string -> option string) (decode : string -> option bootParams) (path : string) : string + bootParams :=
  match read path with
  | None => inl "read golden snapshot boot parameters"
  | Some raw => match decode raw with
                | None => inl "parse golden snapshot boot parameters"
                | Some p => match validate p with Some text => inl text | None => inr p end
                end
  end.

(** ** Cold boot *)

Inductive boot_request :=
| PutMachineConfig (vcpus mem : Z) (smt : bool)
| PutBootSource (kernel args : string)
| PutDrive (id path : string) (root readonly : bool)
| PutNetworkInterface (id mac dev : string)
| PutAction (kind : string).

Definition boot_requests (p : bootParams) : list boot_request :=
  [ PutMachineConfig (VCPUCount p) (MemSizeMiB p) false;
    PutBootSource (KernelImagePath p) (BootArgs p);
    PutDrive "rootfs" (RootfsDrivePath p) true false;
    PutNetworkInterface "eth0" (GuestMAC p) (HostTapDeviceName p);
    PutAction "InstanceStart" ].

(** [answers]: whether the VMM accepts each request in turn; the requests sent, and success. *)
Fixpoint send_all (l : list boot_request) (answers : list bool) : list boot_request * bool :=
  match l with
  | [] => ([], true)
  | r :: l' =>
      match answers with
      | true :: a => let '(sent, ok) := send_all l' a in (r :: sent, ok)
      | _ => ([r], false)
      end
  end.

Definition coldBoot (params : option bootParams) (answers : list bool) : list boot_request * bool :=
  match params with None => ([], false) | Some p => send_all (boot_requests p) answers end.

(** ** The template's kernel and the disk *)

Record kernelPin := mkPin { k_size : Z; k_modTime : Z }.

Definition templateKernelPath (cfg : LoadFirecracker.Config) : string := Paths.Join (LoadFirecracker.TemplateDir cfg) "vmlinux".

(** [stat]: size and modification time. *)
Definition verifyKernelPin (stat : string -> option kernelPin) (cfg : LoadFirecracker.Config) (pinned : kernelPin) : option string :=
  match stat (templateKernelPath cfg) with
  | None => Some "stat template kernel"
  | Some current => if decide (k_size pinned <> k_size current \/ k_modTime pinned <> k_modTime current)
                    then Some "template kernel was replaced after this sandbox was created" else None
  end.

Record volumeSpace := mkSpace { free : Z; total : Z }.
Definition stoppedSnapshotHeadroomBytes : Z := 64 * 2 ^ 20.
Definition createFloorPercent : Z := 5.

Inductive disk_error := ErrVolume | ErrCapacityExhausted | ErrSnapshotSize | ErrNoRoom.

(** Go's division truncates. *)
Definition checkCreateDiskSpace (space : option volumeSpace) : option disk_error :=
  match space with
  | None => Some ErrVolume
  | Some s => if decide (free s < Z.quot (wrap64 (total s * createFloorPercent)) 100) then Some ErrCapacityExhausted else None
  end.

(** [size]: what [os.Stat] says of the snapshot's memory file. *)
Definition ensureDiskSpaceForSnapshot (size : option Z) (space : option volumeSpace) : option disk_error :=
  match size with
  | None => Some ErrSnapshotSize
  | Some n => match space with
              | None => Some ErrVolume
              | Some s => if decide (free s < wrap64 (n + stoppedSnapshotHeadroomBytes)) then Some ErrNoRoom else None
              end
  end.

(** ** The jail *)

(** What the scripts use of a sandbox's state. *)
Record jailed := mkJailed { vmID : string; snapshotMemPath : string; snapshotStatePath : string; rootfsPath : string; boot : bootParams }.

Definition TrimSlash (s : string) : string := match strip_prefix (chars "/") (chars s) with Some r => of_chars r | None => s end.

Section jail.
Context (cfg : LoadFirecracker.Config) (st : jailed).

Definition jailDir : string := Paths.Join (Paths.Join (LoadFirecracker.JailerBaseDir cfg) "firecracker") (vmID st).
Definition jailRoot : string := Paths.Join jailDir "root".
Definition rootfsTarget : string := Paths.Join jailRoot (TrimSlash (RootfsDrivePath (boot st))).
Definition kernelTarget : string := Paths.Join jailRoot (TrimSlash (KernelImagePath (boot st))).
Definition socketPath : string := Paths.Join jailRoot "firecracker.socket".

Definition prepare_lines : list (list piece) :=
  [ [];
    [Lit "set -eu"];
    [Lit "mkdir -p "; Arg jailRoot];
    [Lit "mkdir -p "; Arg (Paths.Dir rootfsTarget)];
    [Lit "mkdir -p "; Arg (Paths.Dir kernelTarget)];
    [Lit "touch "; Arg jailRoot; Lit "/snapshot_mem "; Arg jailRoot; Lit "/snapshot_state "; Arg rootfsTarget; Lit " "; Arg kernelTarget];
    [Lit "mount --bind "; Arg (snapshotMemPath st); Lit " "; Arg jailRoot; Lit "/snapshot_mem"];
    [Lit "mount --bind "; Arg (snapshotStatePath st); Lit " "; Arg jailRoot; Lit "/snapshot_state"];
    [Lit "mount --bind "; Arg (rootfsPath st); Lit " "; Arg rootfsTarget];
    [Lit "mount --bind "; Arg (templateKernelPath cfg); Lit " "; Arg kernelTarget];
    [Lit "chown 1000:1000 "; Arg jailRoot; Lit "/snapshot_mem "; Arg jailRoot; Lit "/snapshot_state "; Arg rootfsTarget];
    [Lit "chmod 0664 "; Arg jailRoot; Lit "/snapshot_mem "; Arg jailRoot; Lit "/snapshot_state "; Arg rootfsTarget] ].

Definition prepareJail : string := render (prepare_lines ≫= line).

Definition cleanup_lines : list (list piece) :=
  [ [];
    [Lit "set -eu"];
    [Lit "umount -l "; Arg jailDir; Lit "/root/snapshot_mem 2>/dev/null || true"];
    [Lit "umount -l "; Arg jailDir; Lit "/root/snapshot_state 2>/dev/null || true"];
    [Lit "umount -l "; Arg rootfsTarget; Lit " 2>/dev/null || true"];
    [Lit "umount -l "; Arg kernelTarget; Lit " 2>/dev/null || true"];
    [Lit "rm -rf "; Arg jailDir] ].

Definition cleanupHost : string := render (cleanup_lines ≫= line).

Definition startJailer (netnsName : string) : list string :=
  ["sudo"; LoadFirecracker.JailerBin cfg; "--id"; vmID st; "--exec-file"; LoadFirecracker.FirecrackerBin cfg; "--uid"; "1000"; "--gid"; "1000";
   "--chroot-base-dir"; LoadFirecracker.JailerBaseDir cfg; "--netns"; Paths.Join "/run/netns" netnsName; "--"; "--api-sock"; "/firecracker.socket"].
End jail.

(** ** What the commands do *)

(** [Change]: paths created, or whose owner or mode changes. *)
Inductive host_cmd := Nothing | Change (paths : list string) | Bind (src dst : string) | Umount (path : string) | RmRf (path : string).

Definition command_of (cmd : list token) : option host_cmd :=
  match cmd with
  | [] | [Word "set"; Word "-eu"] => Some Nothing
  | [Word "mkdir"; Word "-p"; p] => Some (Change [text p])
  | Word "touch" :: ps => Some (Change (text <$> ps))
  | [Word "mount"; Word "--bind"; s; d] => Some (Bind (text s) (text d))
  | Word "chown" :: Word "1000:1000" :: ps => Some (Change (text <$> ps))
  | Word "chmod" :: Word "0664" :: ps => Some (Change (text <$> ps))
  | [Word "umount"; Word "-l"; p; Word "2>/dev/null"; Word "||"; Word "true"] => Some (Umount (text p))
  | [Word "rm"; Word "-rf"; p] => Some (RmRf (text p))
  | _ => None
  end.

Definition host_commands (script : string) : option (list host_cmd) := mapM command_of (commands script).

(** The paths a command writes at. *)
Definition writes (c : host_cmd) : list string :=
  match c with Nothing => [] | Change ps => ps | Bind _ d => [d] | Umount p => [p] | RmRf p => [p] end.

(** The mounts of the host, the latest first: target and source. *)
Definition mounts : Type := list (string * string).

Fixpoint drop_mount (t : string) (m : mounts) : mounts :=
  match m with [] => [] | (d, s) :: m' => if decide (d = t) then m' else (d, s) :: drop_mount t m' end.

(** [None]: the command fails.  A tree with a mount in it cannot be removed; a lazy unmount of
    nothing is not an error, because of [|| true]. *)
Definition run_cmd (m : mounts) (c : host_cmd) : option mounts :=
  match c with
  | Nothing | Change _ => Some m
  | Bind s d => Some ((d, s) :: m)
  | Umount t => Some (drop_mount t m)
  | RmRf p => if existsb (fun x => Paths.isSameOrSubpath p x.1) m then None else Some m
  end.

Fixpoint run_cmds (m : mounts) (l : list host_cmd) : option mounts :=
  match l with [] => Some m | c :: l' => match run_cmd m c with Some m' => run_cmds m' l' | None => None end end.

(** ** The scripts as commands *)

Definition ordinary (c : ascii) : bool := negb (bool_decide (c ∈ [byte 32; byte 10; squote; dquote; byte 92])).

Lemma lex_ordinary s w q out : forallb ordinary (chars s) = true ->
  lex_from (mkLexer Plain w true q out) s = mkLexer Plain (reverse (chars s) ++ w) true q out.
Proof.
  unfold lex_from. generalize (chars s). intros l. revert w. induction l as [|c l IH]; intros w; cbn [foldl forallb]; [done|].
  intros [Hc Hl]%andb_true_iff. apply negb_true_iff, bool_decide_eq_false in Hc. rewrite !not_elem_of_cons in Hc. destruct Hc as (? & ? & ? & ? & ? & _).
  unfold lex_char at 2. cbn [l_mode]. rewrite !decide_False by done. unfold add. cbn [l_word l_any l_quoted l_out]. rewrite orb_false_r, IH by done.
  rewrite reverse_cons, <- app_assoc. done.
Qed.

Lemma word_of x suf : of_chars (reverse (reverse (chars suf) ++ reverse (chars x) ++ [])) = x +:+ suf.
Proof. rewrite app_nil_r, reverse_app, !reverse_involutive. rewrite <- (of_chars_chars (x +:+ suf)). by rewrite chars_app. Qed.

(** An argument with ordinary text right after it is one word. *)
Lemma suffix_tokens b toks x suf c rest : lex_from lex_start b = fresh toks -> forallb ordinary (chars suf) = true ->
  line_tokens (Lit b :: Arg x :: Lit (suf +:+ space +:+ c) :: rest) = toks ++ [Quoted (x +:+ suf)] ++ line_tokens (Lit c :: rest).
Proof.
  intros Hb Hs. unfold line_tokens at 1. cbn [foldl lex_piece]. rewrite Hb, !lex_from_app. cbn [fresh l_word l_out].
  rewrite lex_ordinary by done.
  replace (lex_from (mkLexer Plain (reverse (chars suf) ++ reverse (chars x) ++ []) true true toks) space) with (fresh (toks ++ [Quoted (x +:+ suf)])).
  - change (foldl lex_piece (lex_from (fresh (toks ++ [Quoted (x +:+ suf)])) c) rest) with (foldl lex_piece (fresh (toks ++ [Quoted (x +:+ suf)])) (Lit c :: rest)).
    rewrite tokens_from. by rewrite <- app_assoc.
  - unfold lex_from, space. rewrite chars_of_chars. cbn [foldl]. unfold lex_char, end_word. cbn -[reverse chars of_chars word_of]. by rewrite word_of.
Qed.

Lemma last_tokens b toks x suf : lex_from lex_start b = fresh toks -> forallb ordinary (chars suf) = true ->
  line_tokens [Lit b; Arg x; Lit suf] = toks ++ [Quoted (x +:+ suf)].
Proof.
  intros Hb Hs. unfold line_tokens. cbn [foldl lex_piece]. rewrite Hb. cbn [fresh l_word l_out]. rewrite lex_ordinary by done.
  unfold end_word. cbn [l_any l_word l_quoted l_out]. by rewrite word_of.
Qed.

Lemma arg_tokens b toks x : lex_from lex_start b = fresh toks -> line_tokens [Lit b; Arg x] = toks ++ [Quoted x].
Proof.
  intros Hb. unfold line_tokens. cbn [foldl lex_piece]. rewrite Hb. unfold end_word. cbn [fresh l_any l_word l_quoted l_out].
  by rewrite app_nil_r, reverse_involutive, of_chars_chars.
Qed.

Lemma append_nil s : s +:+ "" = s.
Proof. apply chars_inj. by rewrite chars_app, app_nil_r. Qed.

Section scripts.
Context (cfg : LoadFirecracker.Config) (st : jailed).
Let root := jailRoot cfg st.
Let mem := root +:+ "/snapshot_mem".
Let state := root +:+ "/snapshot_state".
Let rootfs := rootfsTarget cfg st.
Let kernel := kernelTarget cfg st.

Definition prepare_cmds : list host_cmd :=
  [ Nothing; Nothing; Change [root]; Change [Paths.Dir rootfs]; Change [Paths.Dir kernel];
    Change [mem; state; rootfs; kernel];
    Bind (snapshotMemPath st) mem; Bind (snapshotStatePath st) state; Bind (rootfsPath st) rootfs; Bind (templateKernelPath cfg) kernel;
    Change [mem; state; rootfs]; Change [mem; state; rootfs] ].

Definition cleanup_cmds : list host_cmd :=
  [ Nothing; Nothing; Umount (jailDir cfg st +:+ "/root/snapshot_mem"); Umount (jailDir cfg st +:+ "/root/snapshot_state"); Umount rootfs; Umount kernel; RmRf (jailDir cfg st) ].

Lemma tokens_two b toks x1 s1 x2 s2 rest : lex_from lex_start b = fresh toks -> forallb ordinary (chars s1) = true -> forallb ordinary (chars s2) = true ->
  line_tokens (Lit b :: Arg x1 :: Lit (s1 +:+ space) :: Arg x2 :: Lit (s2 +:+ space) :: rest) = toks ++ [Quoted (x1 +:+ s1); Quoted (x2 +:+ s2)] ++ line_tokens (Lit "" :: rest).
Proof.
  intros Hb H1 H2. change (s1 +:+ space) with (s1 +:+ space +:+ ""). change (s2 +:+ space) with (s2 +:+ space +:+ "").
  rewrite (suffix_tokens b toks x1 s1 "" _ Hb H1). by rewrite (suffix_tokens "" [] x2 s2 "" rest eq_refl H2).
Qed.

Lemma script_commands ls : Forall (Forall tidy) ls -> host_commands (render (ls ≫= line)) = mapM (fun l => command_of (line_tokens l)) ls.
Proof.
  intros Ht. unfold host_commands. rewrite commands_lines.
  - clear Ht. induction ls as [|l ls IH]; [done|]. cbn [fmap list_fmap mapM]. by rewrite IH.
  - eapply Forall_impl; [exact Ht|]. apply tidy_closed.
  - eapply Forall_impl; [exact Ht|]. apply tidy_no_newline.
Qed.

Lemma bind_command s d : command_of (line_tokens [Lit "mount --bind "; Arg s; Lit " "; Arg d]) = Some (Bind s d).
Proof.
  change (Lit " ") with (Lit (space +:+ "")). rewrite (lit_arg_tokens "mount --bind " [Word "mount"; Word "--bind"] s "" [Arg d] eq_refl).
  by rewrite (arg_tokens "" [] d eq_refl).
Qed.

Lemma bind_suffix_command s d suf : forallb ordinary (chars suf) = true ->
  command_of (line_tokens [Lit "mount --bind "; Arg s; Lit " "; Arg d; Lit suf]) = Some (Bind s (d +:+ suf)).
Proof.
  intros Hs. change (Lit " ") with (Lit (space +:+ "")). rewrite (lit_arg_tokens "mount --bind " [Word "mount"; Word "--bind"] s "" [Arg d; Lit suf] eq_refl).
  by rewrite (last_tokens "" [] d suf eq_refl Hs).
Qed.

Lemma umount_command d suf : forallb ordinary (chars suf) = true ->
  command_of (line_tokens [Lit "umount -l "; Arg d; Lit (suf +:+ " 2>/dev/null || true")]) = Some (Umount (d +:+ suf)).
Proof.
  intros Hs. change (" 2>/dev/null || true") with (space +:+ "2>/dev/null || true").
  by rewrite (suffix_tokens "umount -l " [Word "umount"; Word "-l"] d suf "2>/dev/null || true" [] eq_refl Hs).
Qed.

Lemma prepare_commands : host_commands (prepareJail cfg st) = Some prepare_cmds.
Proof.
  unfold prepareJail. rewrite script_commands by (unfold prepare_lines; tidy_lines). unfold prepare_lines.
  change (Lit "/snapshot_mem ") with (Lit ("/snapshot_mem" +:+ space)). change (Lit "/snapshot_state ") with (Lit ("/snapshot_state" +:+ space)).
  cbn [mapM]. rewrite !bind_command, !bind_suffix_command by reflexivity.
  rewrite !(arg_tokens "mkdir -p " [Word "mkdir"; Word "-p"] _ eq_refl).
  rewrite (tokens_two "chown 1000:1000 " [Word "chown"; Word "1000:1000"]), (tokens_two "chmod 0664 " [Word "chmod"; Word "0664"]), (tokens_two "touch " [Word "touch"]) by reflexivity.
  change (Lit " ") with (Lit (space +:+ "")). rewrite (lit_arg_tokens "" [] _ "" [Arg (kernelTarget cfg st)] eq_refl), !(arg_tokens "" [] _ eq_refl). reflexivity.
Qed.

Lemma cleanup_commands : host_commands (cleanupHost cfg st) = Some cleanup_cmds.
Proof.
  unfold cleanupHost. rewrite script_commands by (unfold cleanup_lines; tidy_lines). unfold cleanup_lines.
  change (Lit "/root/snapshot_mem 2>/dev/null || true") with (Lit ("/root/snapshot_mem" +:+ " 2>/dev/null || true")).
  change (Lit "/root/snapshot_state 2>/dev/null || true") with (Lit ("/root/snapshot_state" +:+ " 2>/dev/null || true")).
  cbn [mapM]. rewrite !umount_command by reflexivity. rewrite (arg_tokens "rm -rf " [Word "rm"; Word "-rf"] _ eq_refl).
  pose proof (fun d => umount_command d "" eq_refl) as Hu. change ("" +:+ " 2>/dev/null || true") with (" 2>/dev/null || true") in Hu. rewrite !Hu. rewrite !append_nil. reflexivity.
Qed.
End scripts.

(** ** Where the paths lead *)

Import Paths.

Lemma split_app a b : split (a ++ slash :: b) = split a ++ split b.
Proof.
  induction a as [|x a IH]; cbn [app split]; [by destruct (decide (slash = slash))|]. destruct (decide (x = slash)); [by rewrite IH|].
  rewrite IH. destruct (split a) as [|w ws] eqn:E; [|done]. destruct a; cbn [split] in E; [done|]. destruct (decide (a = slash)); [done|]. by destruct (split a0).
Qed.

Lemma Split_join_two s t : Split (s +:+ "/" +:+ t) = Split s ++ Split t.
Proof. unfold Split. rewrite !chars_app. change (chars "/" ++ chars t) with (slash :: chars t). by rewrite split_app, fmap_app. Qed.

Lemma clean_elems_app st a b : clean_elems true st (a ++ b) = clean_elems true (reverse (clean_elems true st a)) b.
Proof.
  revert st. induction a as [|e a IH]; intros st; cbn [app clean_elems]; [by rewrite reverse_involutive|].
  destruct (decide (e = "" \/ e = ".")); [apply IH|]. destruct (decide (e = "..")); [|apply IH]. destruct st; apply IH.
Qed.

Lemma Join_resolved a b : IsAbs a = true -> Join a b = abs (clean_elems true (reverse (resolved a)) (Split b)).
Proof.
  intros [r ->]%HasPrefix_app. unfold Join. rewrite decide_False by apply abs_not_empty.
  change (("/" +:+ r) +:+ "/" +:+ b) with ("/" +:+ (r +:+ "/" +:+ b)). rewrite Clean_rooted, Split_join_two, clean_elems_app.
  unfold resolved. by rewrite Split_abs.
Qed.

Lemma resolved_abs l : plain l -> resolved (abs l) = l.
Proof. intros Hl. unfold resolved. rewrite Split_plain by done. change (clean_elems true [] ("" :: ?x)) with (clean_elems true [] x). destruct l; [done|]. by apply clean_plain. Qed.

Lemma clean_joined st q : plain q -> clean_elems true st (Split (join q)) = reverse st ++ q.
Proof.
  intros Hq. destruct q as [|e q]; [by rewrite app_nil_r|]. rewrite Split_join by (done || by apply plain_no_slash). by apply clean_plain.
Qed.

Lemma Join_elem a e : IsAbs a = true -> plain_elem e -> Join a e = abs (resolved a ++ [e]).
Proof. intros Ha He. rewrite Join_resolved by done. rewrite (clean_joined _ [e]) by (by constructor). by rewrite reverse_involutive. Qed.

Lemma Join_path l q : plain l -> plain q -> Join (abs l) (join q) = abs (l ++ q).
Proof. intros Hl Hq. rewrite Join_resolved by apply IsAbs_cons. by rewrite resolved_abs, clean_joined, reverse_involutive. Qed.

(** A jail path that is accepted has no way out. *)
Lemma jail_path_plain path : validateJailPath path = true -> exists q, plain q /\ path = abs q /\ TrimSlash path = join q.
Proof.
  unfold validateJailPath. intros [Ha Hc]%andb_true_iff. apply bool_decide_eq_true_1 in Hc. destruct (HasPrefix_app _ _ Ha) as [r ->]. rewrite Clean_rooted in Hc.
  exists (resolved r). split; [apply resolved_plain|]. split; [done|]. unfold TrimSlash. rewrite chars_app, Wire.strip_prefix_app.
  rewrite of_chars_chars. unfold abs in Hc. apply (f_equal chars) in Hc. rewrite !chars_app in Hc. by apply app_inv_head, chars_inj in Hc.
Qed.

(** ** Building and clearing a jail *)

Lemma abs_snoc l e : l <> [] -> abs l +:+ "/" +:+ e = abs (l ++ [e]).
Proof.
  intros Hl. apply chars_inj. unfold abs. rewrite !chars_app, <- app_assoc. f_equal. induction l as [|x l IH]; [done|]. destruct l as [|y l]; [by cbn [join app]; rewrite !chars_app|].
  change (join (x :: y :: l)) with (x +:+ "/" +:+ join (y :: l)). change (join ((x :: y :: l) ++ [e])) with (x +:+ "/" +:+ join ((y :: l) ++ [e])).
  rewrite !chars_app, <- !app_assoc. do 2 f_equal. by apply IH.
Qed.

Fixpoint bound (l : list host_cmd) : mounts :=
  match l with [] => [] | Bind s d :: l' => bound l' ++ [(d, s)] | _ :: l' => bound l' end.

Definition builds (c : host_cmd) : bool := match c with Umount _ | RmRf _ => false | _ => true end.

Lemma run_builds l m : forallb builds l = true -> run_cmds m l = Some (bound l ++ m).
Proof.
  revert m. induction l as [|c l IH]; intros m; cbn [forallb run_cmds]; [done|]. intros [Hc Hl]%andb_true_iff.
  destruct c; try done; cbn [run_cmd bound]; rewrite IH by done; by rewrite <- ?app_assoc.
Qed.

Lemma drop_mount_absent t m : t ∉ m.*1 -> drop_mount t m = m.
Proof. induction m as [|[d s] m IH]; [done|]. cbn. intros Ht. rewrite not_elem_of_cons in Ht. destruct Ht as [Hd Ht]. destruct (decide (d = t)); [by subst|]. by rewrite IH. Qed.

Lemma drop_mount_present t m m0 : t ∈ m.*1 -> exists m', drop_mount t (m ++ m0) = m' ++ m0 /\ m.*1 ≡ₚ t :: m'.*1.
Proof.
  induction m as [|[d s] m IH]; cbn; [by intros ?%elem_of_nil|]. intros Ht. destruct (decide (d = t)) as [->|Hne]; [by exists m|].
  rewrite elem_of_cons in Ht. destruct Ht as [->|Ht]; [done|]. destruct (IH Ht) as (m' & -> & Hp). exists ((d, s) :: m'). split; [done|]. cbn. rewrite Hp. apply Permutation_swap.
Qed.

(** As many unmounts as mounts clear them, and no more. *)
Lemma unmounts_clear us m m0 : m.*1 ⊆+ us -> (forall u, u ∈ us -> u ∉ m0.*1) -> run_cmds (m ++ m0) (Umount <$> us) = Some m0.
Proof.
  revert m. induction us as [|u us IH]; intros m Hsub Hno; cbn.
  - apply submseteq_nil_r in Hsub. by destruct m.
  - assert (Hno' : forall x, x ∈ us -> x ∉ m0.*1) by (intros x Hx; apply Hno; by right). destruct (decide (u ∈ m.*1)) as [Hin|Hin].
    + destruct (drop_mount_present u m m0 Hin) as (m' & -> & Hp). apply IH; [|done]. rewrite Hp in Hsub. by apply (submseteq_app_inv_l _ _ [u]) in Hsub.
    + rewrite drop_mount_absent by (rewrite fmap_app, not_elem_of_app; split; [done|apply Hno; by left]). apply IH; [|done].
      apply submseteq_cons_r in Hsub as [?|(k & Hk & _)]; [done|]. exfalso. apply Hin. rewrite Hk. by left.
Qed.

Lemma run_cmds_app m a b : run_cmds m (a ++ b) = match run_cmds m a with Some m' => run_cmds m' b | None => None end.
Proof. revert m. induction a as [|c a IH]; intros m; cbn [app run_cmds]; [done|]. by destruct (run_cmd m c). Qed.

Section placed.
Context (cfg : LoadFirecracker.Config) (st : jailed).
Context (Hbase : IsAbs (LoadFirecracker.JailerBaseDir cfg) = true) (Hvm : plain_elem (vmID st)).
Context (Hr : validateJailPath (RootfsDrivePath (boot st)) = true) (Hk : validateJailPath (KernelImagePath (boot st)) = true).

Let D := resolved (LoadFirecracker.JailerBaseDir cfg) ++ ["firecracker"; vmID st].

Ltac plain_word := unfold plain_elem; split_and!; [done|done|done|apply (bool_decide_unpack _); vm_compute; exact I].

Lemma D_plain : plain D.
Proof. unfold D. apply Forall_app. split; [apply resolved_plain|]. constructor; [plain_word|constructor; [exact Hvm|constructor]]. Qed.

Lemma D_root : plain (D ++ ["root"]).
Proof. apply Forall_app. split; [apply D_plain|]. constructor; [plain_word|constructor]. Qed.

Lemma jailDir_abs : jailDir cfg st = abs D.
Proof.
  unfold jailDir. rewrite (Join_elem _ "firecracker") by (done || plain_word). rewrite Join_abs; [by rewrite <- app_assoc|].
  rewrite <- app_assoc. apply D_plain.
Qed.

Lemma jailRoot_abs : jailRoot cfg st = abs (D ++ ["root"]).
Proof. unfold jailRoot. rewrite jailDir_abs. apply Join_abs, D_root. Qed.

(** The targets, as their elements below the root. *)
Lemma target_abs path : validateJailPath path = true -> exists q, plain q /\ Join (jailRoot cfg st) (TrimSlash path) = abs (D ++ ["root"] ++ q).
Proof.
  intros (q & Hq & _ & Ht)%jail_path_plain. exists q. split; [done|]. rewrite Ht, jailRoot_abs, Join_path by (done || apply D_root). by rewrite <- app_assoc.
Qed.

Lemma below_jail q : plain q -> isSameOrSubpath (jailDir cfg st) (abs (D ++ q)) = true.
Proof.
  intros Hq. rewrite jailDir_abs, subpath_abs; [|apply D_plain|apply Forall_app; split; [apply D_plain|done]]. apply bool_decide_eq_true_2. by apply prefix_app_r.
Qed.

Lemma below_dir q : plain q -> isSameOrSubpath (jailDir cfg st) (Dir (abs (D ++ ["root"] ++ q))) = true.
Proof.
  intros Hq. assert (Hp : plain (["root"] ++ q)) by (apply Forall_app; split; [constructor; [plain_word|constructor]|done]).
  destruct (exists_last (l := ["root"] ++ q)) as (q' & e & E); [done|]. rewrite E in *. rewrite app_assoc, Dir_abs by (rewrite <- app_assoc; apply Forall_app; split; [apply D_plain|done]).
  apply below_jail. by apply Forall_app in Hp as [? _].
Qed.

Lemma snapshot_file e : plain_elem e -> jailRoot cfg st +:+ "/" +:+ e = abs (D ++ ["root"; e]).
Proof. intros He. rewrite jailRoot_abs, abs_snoc by (by destruct D). by rewrite <- app_assoc. Qed.

Lemma snapshot_file_dir e : jailDir cfg st +:+ "/root/" +:+ e = jailRoot cfg st +:+ "/" +:+ e.
Proof.
  rewrite jailRoot_abs, jailDir_abs, <- abs_snoc by (unfold D; by destruct (resolved _)). apply chars_inj. rewrite !chars_app, <- !app_assoc. reflexivity.
Qed.

(** The four places the script mounts at are the four it unmounts. *)
Definition targets : list string := [abs (D ++ ["root"; "snapshot_mem"]); abs (D ++ ["root"; "snapshot_state"]); rootfsTarget cfg st; kernelTarget cfg st].

Lemma prepare_targets : prepare_cmds cfg st =
  [ Nothing; Nothing; Change [abs (D ++ ["root"])]; Change [Dir (rootfsTarget cfg st)]; Change [Dir (kernelTarget cfg st)]; Change targets;
    Bind (snapshotMemPath st) (abs (D ++ ["root"; "snapshot_mem"])); Bind (snapshotStatePath st) (abs (D ++ ["root"; "snapshot_state"]));
    Bind (rootfsPath st) (rootfsTarget cfg st); Bind (templateKernelPath cfg) (kernelTarget cfg st); Change (take 3 targets); Change (take 3 targets) ].
Proof.
  unfold prepare_cmds, targets. rewrite <- (snapshot_file "snapshot_mem"), <- (snapshot_file "snapshot_state"), jailRoot_abs by plain_word. reflexivity.
Qed.

Lemma cleanup_targets : cleanup_cmds cfg st = [Nothing; Nothing] ++ (Umount <$> targets) ++ [RmRf (jailDir cfg st)].
Proof.
  unfold cleanup_cmds, targets. rewrite <- (snapshot_file "snapshot_mem"), <- (snapshot_file "snapshot_state"), <- !snapshot_file_dir by plain_word. reflexivity.
Qed.

Lemma targets_below : Forall (fun p => isSameOrSubpath (jailDir cfg st) p = true) targets.
Proof.
  destruct (target_abs _ Hr) as (qr & Hqr & Er). destruct (target_abs _ Hk) as (qk & Hqk & Ek). unfold targets, rootfsTarget, kernelTarget. rewrite Er, Ek.
  assert (Hroot : plain ["root"]) by (constructor; [plain_word|constructor]).
  repeat constructor; apply below_jail; try (apply Forall_app; done); (constructor; [plain_word|constructor; [plain_word|constructor]]).
Qed.

Lemma dirs_below : isSameOrSubpath (jailDir cfg st) (Dir (rootfsTarget cfg st)) = true /\ isSameOrSubpath (jailDir cfg st) (Dir (kernelTarget cfg st)) = true.
Proof.
  destruct (target_abs _ Hr) as (qr & Hqr & Er). destruct (target_abs _ Hk) as (qk & Hqk & Ek). unfold rootfsTarget, kernelTarget. rewrite Er, Ek.
  split; by apply below_dir.
Qed.

Lemma prefix_mounts n : (bound (take n (prepare_cmds cfg st))).*1 ⊆+ targets.
Proof.
  rewrite prepare_targets. unfold targets. generalize (abs (D ++ ["root"; "snapshot_mem"])), (abs (D ++ ["root"; "snapshot_state"])), (rootfsTarget cfg st), (kernelTarget cfg st).
  intros a b c d. do 10 (destruct n as [|n]; [cbn; solve_submseteq|]). cbn. destruct n as [|[|[|n]]]; cbn; solve_submseteq.
Qed.

Lemma jail_scripts :
  exists build clear, host_commands (prepareJail cfg st) = Some build /\ host_commands (cleanupHost cfg st) = Some clear /\
    Forall (fun c => Forall (fun p => isSameOrSubpath (jailDir cfg st) p = true) (writes c)) (build ++ clear) /\
    forall n m0, Forall (fun x => isSameOrSubpath (jailDir cfg st) x.1 = false) m0 ->
      exists m, run_cmds m0 (take n build) = Some m /\ run_cmds m clear = Some m0.
Proof.
  exists (prepare_cmds cfg st), (cleanup_cmds cfg st). split; [apply prepare_commands|]. split; [apply cleanup_commands|].
  pose proof targets_below as Ht. destruct dirs_below as [Hd1 Hd2]. split.
  - assert (Hroot : isSameOrSubpath (jailDir cfg st) (abs (D ++ ["root"])) = true) by (apply below_jail; constructor; [plain_word|constructor]).
    assert (Hself : isSameOrSubpath (jailDir cfg st) (jailDir cfg st) = true) by (rewrite jailDir_abs at 2; rewrite <- (app_nil_r D); apply below_jail; constructor).
    rewrite prepare_targets, cleanup_targets. pose proof (Forall_take _ 3 _ Ht) as Ht3. unfold targets in *. rewrite !Forall_cons in Ht. destruct Ht as (? & ? & ? & ? & _).
    repeat (apply Forall_cons_2; [cbn [writes]; repeat (apply Forall_cons_2; [done|]); try apply Forall_nil_2; done|]). apply Forall_nil_2.
  - intros n m0 Hm. eexists. split.
    + apply run_builds. apply forallb_forall. intros c Hc. assert (Hall : forallb builds (prepare_cmds cfg st) = true) by reflexivity.
      rewrite forallb_forall in Hall. apply Hall. rewrite <- (take_drop n (prepare_cmds cfg st)). apply in_or_app. by left.
    + rewrite cleanup_targets. cbn [app run_cmds run_cmd]. rewrite run_cmds_app, unmounts_clear; [|apply prefix_mounts|].
      * cbn [run_cmds run_cmd]. replace (existsb _ m0) with false; [done|]. symmetry. clear -Hm. induction Hm as [|x m Hx _ IH]; [done|]. cbn [existsb]. by rewrite Hx, IH.
      * intros u Hu Hin. rewrite Forall_forall in Ht. specialize (Ht u Hu). apply list_elem_of_fmap in Hin as (x & -> & Hx). rewrite Forall_forall in Hm. specialize (Hm x Hx). congruence.
Qed.
End placed.

Lemma first_failure_None l : first_failure l = None -> Forall (fun x => x.1 = true) l.
Proof. induction l as [|[ok t] l IH]; cbn [first_failure]; [constructor|]. destruct ok; [|done]. intros H. constructor; [done|by apply IH]. Qed.

Lemma validate_paths p : validate p = None -> validateJailPath (RootfsDrivePath p) = true /\ validateJailPath (KernelImagePath p) = true.
Proof. intros H%first_failure_None. rewrite !Forall_cons in H. destruct H as (_ & _ & _ & Hk & Hr & _). done. Qed.

(** C25: the jail of a sandbox, for any boot parameters the runner accepts.  Everything the
    script that builds it creates, mounts at or changes, and everything the script that clears it
    unmounts or removes, is below the sandbox's own jail directory ([mkdir -p] also makes that
    directory's missing parents).  And wherever the first script
    stopped, the second unmounts exactly what it had mounted, so that the directory can be removed,
    and leaves every other mount of the host alone. *)
Theorem jail_confined_and_cleared cfg st :
  HasPrefix (LoadFirecracker.JailerBaseDir cfg) "/" = true -> plain_elem (vmID st) -> validate (boot st) = None ->
  exists build clear, host_commands (prepareJail cfg st) = Some build /\ host_commands (cleanupHost cfg st) = Some clear /\
    Forall (fun c => Forall (fun p => isSameOrSubpath (jailDir cfg st) p = true) (writes c)) (build ++ clear) /\
    forall n m0, Forall (fun x => isSameOrSubpath (jailDir cfg st) x.1 = false) m0 ->
      exists m, run_cmds m0 (take n build) = Some m /\ run_cmds m clear = Some m0.
Proof. intros Hb Hv (Hr & Hk)%validate_paths. by apply jail_scripts. Qed.

(** A cold boot sends the requests in order and stops at the first that is refused: the guest
    starts only once the VMM took every setting of the sidecar. *)
Lemma cold_boot_in_order p answers sent ok : coldBoot (Some p) answers = (sent, ok) ->
  sent `prefix_of` boot_requests p /\ (ok = true -> sent = boot_requests p) /\
  (PutAction "InstanceStart" ∈ sent -> take 4 answers = [true; true; true; true]).
Proof.
  unfold coldBoot, boot_requests. destruct answers as [|[] [|[] [|[] [|[] [|[] ?]]]]]; cbn [send_all]; intros [= <- <-];
    (split; [eexists; reflexivity|]); (split; [done|]); rewrite ?elem_of_cons, ?elem_of_nil; intros H; repeat destruct H as [H|H]; done.
Qed.

(** ** A sandbox *)

Definition toy_params : bootParams :=
  mkBootParams 1 2 512 "/kernel/vmlinux" "console=ttyS0 ip=172.16.0.10::172.16.0.1:255.255.255.0::eth0:off" "/rootfs.ext4" "06:00:AC:10:00:0a" "172.16.0.10" "fc-tap-0" 8081.
Definition toy_jail : jailed := mkJailed "sandbox-0123456789ab" "/var/sandboxes/x/snapshot_mem" "/var/sandboxes/x/snapshot_state" "/var/sandboxes/x/rootfs.ext4" toy_params.

Example toy_targets : rootfsTarget LoadFirecracker.firecracker_config toy_jail = "/srv/jailer/firecracker/sandbox-0123456789ab/root/rootfs.ext4" /\
  kernelTarget LoadFirecracker.firecracker_config toy_jail = "/srv/jailer/firecracker/sandbox-0123456789ab/root/kernel/vmlinux".
Proof. vm_compute. done. Qed.

Example refuses_climbing_path : validate (mkBootParams 1 2 512 "/../../../etc/x" (BootArgs toy_params) "/rootfs.ext4" "06:00:AC:10:00:0a" "172.16.0.10" "fc-tap-0" 8081) = Some "kernel_image_path".
Proof. vm_compute. reflexivity. Qed.

Lemma jail_confined_and_cleared_witness :
  exists build clear m, host_commands (prepareJail LoadFirecracker.firecracker_config toy_jail) = Some build /\
    run_cmds [("/proc", "proc")] (take 8 build) = Some m /\ host_commands (cleanupHost LoadFirecracker.firecracker_config toy_jail) = Some clear /\ run_cmds m clear = Some [("/proc", "proc")].
Proof.
  destruct (jail_confined_and_cleared LoadFirecracker.firecracker_config toy_jail) as (build & clear & Hb & Hc & _ & Hrun).
  - reflexivity.
  - unfold plain_elem. split_and!; [done|done|done|apply (bool_decide_unpack _); vm_compute; exact I].
  - vm_compute. reflexivity.
  - destruct (Hrun 8%nat [("/proc", "proc")]) as (m & Hm & Hcl); [constructor; [vm_compute; reflexivity|constructor]|]. exists build, clear, m. repeat split; assumption.
Defined.
End FirecrackerJail.
