(* ===== verification/FirecrackerAdmit.v ===== *)
(** * Admission of a Firecracker runner ([internal/runner/runtime/firecracker.ee/admission.go])

    Before it calls itself healthy, the runner checks its assets against the release's manifest,
    makes or verifies the golden snapshot, compares the snapshot's boot parameters with its own
    settings, and puts a canary sandbox through a create, an execution, a file round trip and a
    delete.  Failures are retried with a backoff. *)

From S2P Require Import Prelude.
From S2P Require Import GoStrings.
From S2P Require Import ShellQuote.
From S2P Require Import FirecrackerNet.
From S2P Require Import Registration.
From S2P Require Import Paths.
From S2P Require Import EnvParse.
From S2P Require Import LoadAPI.
From S2P Require Import NetAddr.
From S2P Require Import LoadFirecracker.
From S2P Require Import FirecrackerJail.

Module FirecrackerAdmit.
Import GoStrings ShellQuote FirecrackerNet.
Import FirecrackerJail.
Open Scope act_scope.

Abbreviation Config := LoadFirecracker.Config.

(** The fields of [MANIFEST.json] that are read. *)
Record releaseManifest := mkManifest { GitSHA : string; DaemonSHA256 : string }.

(** ** The host and the runtime

    What admission asks of the host, and of the runtime it belongs to. *)

Inductive symlink_result := Made | Exists | SymlinkFailed.
Inductive delete_result := Deleted | NotFound | DeleteFailed.

Class Machine (W : Type) := {
  (** [os.Stat], [filepath.EvalSymlinks], [os.ReadFile], [fileSHA256] *)
  pathExists : W -> string -> bool;
  EvalSymlinks : W -> string -> option string;
  ReadFile : W -> string -> option string;
  fileSHA256 : W -> string -> option string;
  (** [json.Unmarshal] *)
  decodeParams : string -> option bootParams;
  decodeManifest : string -> option releaseManifest;
  Symlink : string -> string -> W -> symlink_result * W;
  (** [sudo /bin/sh -c]; the host's NAT; [client.Do], with the body unless reading it fails *)
  run : string -> W -> bool * W;
  ensureHostNATReady : W -> bool * W;
  Do : string -> string -> string -> W -> option (Z * option string) * W;
  (** [shortID] of the time *)
  shortID : W -> string * W;
  (** The sandboxes of the runtime, and whether each is being deleted. *)
  tracked : W -> gmap string bool;
  CreateSandbox : string -> W -> bool * W;
  DeleteSandbox : string -> W -> delete_result * W;
  DaemonURL : W -> string -> option string;
}.

(** What the runtime promises ([runtime_laws] proves it of the one below): a delete that succeeds
    forgets the sandbox, one that does not find it was asked for a sandbox that is not there or is
    being deleted already, and no call touches another one.  Nothing is placed on a runner that is
    not healthy yet. *)
Class MachineLaws (W : Type) `{!Machine W} := {
  symlink_tracked a b w : tracked (Symlink a b w).2 = tracked w;
  run_tracked s w : tracked (run s w).2 = tracked w;
  nat_tracked w : tracked (ensureHostNATReady w).2 = tracked w;
  do_tracked m u b w : tracked (Do m u b w).2 = tracked w;
  short_tracked w : tracked (shortID w).2 = tracked w;
  create_tracked id j w : j <> id -> tracked (CreateSandbox id w).2 !! j = tracked w !! j;
  delete_others id j w : j <> id -> tracked (DeleteSandbox id w).2 !! j = tracked w !! j;
  delete_forgets id w : (DeleteSandbox id w).1 = Deleted -> tracked (DeleteSandbox id w).2 !! id = None;
  delete_not_found id w : (DeleteSandbox id w).1 = NotFound -> tracked (DeleteSandbox id w).2 !! id <> Some false;
}.

(** *** The runtime itself

    What it keeps of its sandboxes, over a host that does the rest. *)

Class Host (V : Type) := {
  h_pathExists : V -> string -> bool;
  h_EvalSymlinks : V -> string -> option string;
  h_ReadFile : V -> string -> option string;
  h_fileSHA256 : V -> string -> option string;
  h_decodeParams : string -> option bootParams;
  h_decodeManifest : string -> option releaseManifest;
  h_Symlink : string -> string -> V -> symlink_result * V;
  h_run : string -> V -> bool * V;
  h_ensureHostNATReady : V -> bool * V;
  h_Do : string -> string -> string -> V -> option (Z * option string) * V;
  h_shortID : V -> string * V;
  (** the files, the disk space and the slot of a new sandbox; its clones and its microVM; what
      [deleteSandbox] tears down; whether a transition is free in time; the URL of a sandbox that
      runs *)
  reserve_ok : string -> V -> bool * V;
  launch : string -> V -> bool * V;
  teardown : string -> V -> bool * V;
  claim : string -> V -> bool * V;
  running_url : V -> string -> option string;
}.

(** [sandboxes]: whether each sandbox is being deleted. *)
Record runtime (V : Type) := mkRuntime { host : V; sandboxes : gmap string bool }.
#[global] Arguments mkRuntime {V}.
#[global] Arguments host {V}.
#[global] Arguments sandboxes {V}.

Section runtime.
Context {V : Type} `{!Host V}.

Definition on_host {A} (f : V -> A * V) (s : runtime V) : A * runtime V := let '(a, v) := f (host s) in (a, mkRuntime v (sandboxes s)).

Definition reserveSandbox (id : string) (s : runtime V) : bool * runtime V :=
  let '(ok, s) := on_host (reserve_ok id) s in
  match sandboxes s !! id with
  | Some _ => (false, s)
  | None => if ok then (true, mkRuntime (host s) (<[id := false]> (sandboxes s))) else (false, s)
  end.

Definition runtime_untrack (id : string) (s : runtime V) : runtime V := mkRuntime (host s) (delete id (sandboxes s)).

(** A failed create is torn down and forgotten, whether the teardown works or not. *)
Definition runtime_CreateSandbox (id : string) (s : runtime V) : bool * runtime V :=
  if decide (String.length id < 12)%nat then (false, s)
  else match reserveSandbox id s with
       | (false, s) => (false, s)
       | (true, s) =>
           match on_host (launch id) s with
           | (true, s) => (true, s)
           | (false, s) => (false, runtime_untrack id (on_host (teardown id) s).2)
           end
       end.

(** [beginTransition] and [deleteSandbox]: a sandbox that is being deleted is not found; one whose
    teardown fails stays, free for another delete. *)
Definition runtime_DeleteSandbox (id : string) (s : runtime V) : delete_result * runtime V :=
  match sandboxes s !! id with
  | None | Some true => (NotFound, s)
  | Some false =>
      match on_host (claim id) s with
      | (false, s) => (DeleteFailed, s)
      | (true, s) =>
          match on_host (teardown id) s with
          | (true, s) => (Deleted, runtime_untrack id s)
          | (false, s) => (DeleteFailed, s)
          end
      end
  end.

Definition runtime_DaemonURL (s : runtime V) (id : string) : option string :=
  match sandboxes s !! id with None | Some true => None | Some false => running_url (host s) id end.

#[global] Instance runtime_machine : Machine (runtime V) := {|
  pathExists s := h_pathExists (host s); EvalSymlinks s := h_EvalSymlinks (host s);
  ReadFile s := h_ReadFile (host s); fileSHA256 s := h_fileSHA256 (host s);
  decodeParams := h_decodeParams; decodeManifest := h_decodeManifest;
  Symlink a b := on_host (h_Symlink a b); run c := on_host (h_run c);
  ensureHostNATReady := on_host h_ensureHostNATReady; Do m u b := on_host (h_Do m u b);
  shortID := on_host h_shortID; tracked := sandboxes;
  CreateSandbox := runtime_CreateSandbox; DeleteSandbox := runtime_DeleteSandbox; DaemonURL := runtime_DaemonURL |}.

Lemma on_host_sandboxes {A} (f : V -> A * V) s : sandboxes (on_host f s).2 = sandboxes s.
Proof. unfold on_host. by destruct (f (host s)). Qed.

#[global] Instance runtime_laws : MachineLaws (runtime V).
Proof.
  split; simpl; try (intros; apply on_host_sandboxes).
  - intros id j s Hne. unfold runtime_CreateSandbox, reserveSandbox. case_decide; [done|].
    pose proof (on_host_sandboxes (reserve_ok id) s) as H1. destruct (on_host (reserve_ok id) s) as [ok s1]. simpl in H1. rewrite <- H1.
    destruct (sandboxes s1 !! id); [done|]. destruct ok; [|done]. set (s2 := mkRuntime _ _).
    pose proof (on_host_sandboxes (launch id) s2) as H2. destruct (on_host (launch id) s2) as [[] s3]; simpl in *; rewrite ?on_host_sandboxes, H2;
      by rewrite ?lookup_delete_ne, lookup_insert_ne by done.
  - intros id j s Hne. unfold runtime_DeleteSandbox. destruct (sandboxes s !! id) as [[]|]; [done| |done].
    pose proof (on_host_sandboxes (claim id) s) as H1. destruct (on_host (claim id) s) as [[] s1]; simpl in *; [|by rewrite H1].
    pose proof (on_host_sandboxes (teardown id) s1) as H2. destruct (on_host (teardown id) s1) as [[] s2]; simpl in *; [rewrite lookup_delete_ne by done|]; by rewrite H2, H1.
  - intros id s. unfold runtime_DeleteSandbox. repeat case_match; try done. intros _. simpl. apply lookup_delete_eq.
  - intros id s. unfold runtime_DeleteSandbox. destruct (sandboxes s !! id) as [[]|] eqn:E; simpl; [by rewrite E| |by rewrite E].
    repeat case_match; done.
Qed.
End runtime.

Section admission.
Context {W : Type} `{!Machine W} (cfg : Config).
Abbreviation check_act A := (act W string A).

Definition require (b : bool) (text : string) : check_act unit := if b then ret tt else exit text.

(** A call that answers with success or not. *)
Definition call {A} (f : W -> A * W) : check_act A := fun w => let '(a, w') := f w in (inr a, w').

(** ** Assets *)

Definition verifyManifestPin : check_act unit :=
  let! w := get in
  let path := LoadFirecracker.ManifestPath cfg in
  let sha := LoadFirecracker.ExpectedGitSHA cfg in
  if decide (path = "" /\ sha = "") then ret tt
  else if decide (path = "") then exit "SANDBOX_RUNNER_FIRECRACKER_EXPECTED_GIT_SHA set but MANIFEST_PATH is empty"
  else
    do! require (pathExists w path) "manifest path does not exist" in
    match ReadFile w path with
    | None => exit "read manifest"
    | Some raw =>
        match decodeManifest raw with
        | None => exit "parse manifest"
        | Some manifest =>
            do! require (negb (bool_decide (sha <> "") && bool_decide (GitSHA manifest <> sha))) "manifest git_sha does not match expected" in
            let want := TrimSpace (DaemonSHA256 manifest) in
            if decide (want = "") then ret tt
            else
              do! require (pathExists w (LoadFirecracker.DaemonBin cfg)) "daemon binary path does not exist for checksum" in
              match fileSHA256 w (LoadFirecracker.DaemonBin cfg) with
              | None => exit "hash daemon binary"
              | Some got => require (bool_decide (Registration.ToLower got = Registration.ToLower want)) "daemon sha256 does not match manifest"
              end
        end
    end.

(** The paths are looked at in the order of a map. *)
Definition pinBaseAssets : check_act unit :=
  let! w := get in
  do! require (forallb (pathExists w)
        [LoadFirecracker.JailerBin cfg; LoadFirecracker.FirecrackerBin cfg; Paths.Join (LoadFirecracker.TemplateDir cfg) "rootfs.ext4"; templateKernelPath cfg])
        "firecracker path does not exist" in
  verifyManifestPin.

Definition pinSnapshotAssets : check_act unit :=
  let! w := get in
  do! require (forallb (pathExists w) [LoadFirecracker.SnapshotMemPath cfg; LoadFirecracker.SnapshotStatePath cfg]) "firecracker path does not exist" in
  match loadBootParams (ReadFile w) decodeParams (bootParamsPath cfg) with
  | inl text => exit text
  | inr params => match matchesConfig params cfg with Some text => exit text | None => ret tt end
  end.

(** ** The golden snapshot *)

Definition outDir : string := Paths.Dir (LoadFirecracker.SnapshotMemPath cfg).
Definition generatedMem : string := Paths.Join outDir "snapshot_mem".
Definition generatedState : string := Paths.Join outDir "snapshot_state".

Definition resolves_to (w : W) (configured generated : string) : string + unit :=
  match EvalSymlinks w configured with
  | None => inl "resolve snapshot path"
  | Some c => match EvalSymlinks w generated with
              | None => inl "resolve generated snapshot"
              | Some g => if decide (c = g) then inr tt else inl "snapshot path resolves elsewhere"
              end
  end.

Definition verifySnapshotPathsResolveToOutputs : check_act unit :=
  let! w := get in
  match resolves_to w (LoadFirecracker.SnapshotMemPath cfg) generatedMem with
  | inl text => exit text
  | inr _ => match resolves_to w (LoadFirecracker.SnapshotStatePath cfg) generatedState with inl text => exit text | inr _ => ret tt end
  end.

Definition verifyGoldenSnapshotSet : check_act unit :=
  let! w := get in
  if decide (TrimSpace (LoadFirecracker.CreateSnapshotScript cfg) = "") then ret tt
  else if negb (pathExists w generatedMem && pathExists w generatedState) then ret tt
  else verifySnapshotPathsResolveToOutputs.

Definition link (w : W) (configured generated name : string) : check_act unit :=
  if negb (pathExists w configured) && pathExists w generated then
    let! r := call (Symlink name configured) in
    match r with SymlinkFailed => exit "symlink snapshot" | _ => ret tt end
  else ret tt.

Definition ensureSnapshotSymlinks : check_act unit :=
  let! w := get in
  do! link w (LoadFirecracker.SnapshotMemPath cfg) generatedMem "snapshot_mem" in
  let! w := get in
  link w (LoadFirecracker.SnapshotStatePath cfg) generatedState "snapshot_state".

Definition continuation : string := of_chars [byte 32; byte 92; byte 10].

Definition snapshot_command_pieces (kernel ext4 : string) : list (list piece) :=
  [ [Lit "set -eu"];
    [Lit "GUEST_IP="; Arg (LoadFirecracker.GuestIP cfg); Lit continuation;
     Lit "HOST_TAP_IP_CIDR="; Arg (LoadFirecracker.HostTapIPCIDR cfg); Lit continuation;
     Lit "HOST_TAP_DEVICE_NAME="; Arg (LoadFirecracker.HostTapDeviceName cfg); Lit continuation;
     Lit "DAEMON_PORT="; Arg (LoadAPI.Itoa (LoadFirecracker.DaemonPort cfg)); Lit continuation;
     Arg (LoadFirecracker.CreateSnapshotScript cfg); Lit " --kernel "; Arg kernel; Lit " --ext4 "; Arg ext4;
     Lit " --daemon-bin "; Arg (LoadFirecracker.DaemonBin cfg); Lit " --out "; Arg outDir] ].

Definition createSnapshotCommand (kernel ext4 : string) : string := render (snapshot_command_pieces kernel ext4 ≫= line).

Definition complete (w : W) : bool :=
  pathExists w (LoadFirecracker.SnapshotMemPath cfg) && pathExists w (LoadFirecracker.SnapshotStatePath cfg) && pathExists w (bootParamsPath cfg).

Definition ensureGoldenSnapshot : check_act unit :=
  let! w := get in
  if complete w then verifyGoldenSnapshotSet
  else
    do! require (bool_decide (TrimSpace (LoadFirecracker.CreateSnapshotScript cfg) <> "")) "golden snapshot incomplete and create script is not configured" in
    do! require (pathExists w (LoadFirecracker.CreateSnapshotScript cfg)) "create snapshot script does not exist" in
    do! require (pathExists w (LoadFirecracker.DaemonBin cfg)) "daemon binary for snapshot create does not exist" in
    do! require (LoadFirecracker.snapshotDirsMatch (LoadFirecracker.SnapshotMemPath cfg) (LoadFirecracker.SnapshotStatePath cfg)) "golden snapshot create requires SnapshotMemPath and SnapshotStatePath in the same directory" in
    let! ok := call (run (createSnapshotCommand (templateKernelPath cfg) (Paths.Join (LoadFirecracker.TemplateDir cfg) "rootfs.ext4"))) in
    do! require ok "create golden snapshot" in
    do! ensureSnapshotSymlinks in
    let! w := get in
    do! require (complete w) "golden snapshot still missing after create" in
    verifySnapshotPathsResolveToOutputs.

(** ** The canary *)

Definition admissionCanaryIDPrefix : string := "admission-canary-".
Definition admissionCanaryFilePath : string := "/tmp/admission-canary.txt".
Definition admissionCanaryPayload : string := "admission-canary-ok".

(** [bytes.Contains] *)
Fixpoint contains (l p : list ascii) : bool :=
  match strip_prefix p l with
  | Some _ => true
  | None => match l with [] => false | _ :: l' => contains l' p end
  end.

Definition quoted (s : string) : list ascii := dquote :: chars s ++ [dquote].

Definition isSuccessfulExit (body : string) : bool :=
  contains (chars body) (quoted "type" ++ chars ":" ++ quoted "exit") && contains (chars body) (quoted "exit_code" ++ chars ":0").

Definition canary_command : string :=
  of_chars (chars "{" ++ quoted "command" ++ chars ":" ++ quoted "true" ++ chars "," ++ quoted "timeout_ms" ++ chars ":2000}").

(** A request that must be answered with 200, and its body, which not every caller needs. *)
Definition expect_ok (name method url body : string) (need_body : bool) : check_act string :=
  let! r := call (Do method url body) in
  match r with
  | None => exit name
  | Some (status, None) => if need_body then exit (name +:+ " read body") else do! require (bool_decide (status = 200)) (name +:+ " status") in ret ""
  | Some (status, Some b) => do! require (bool_decide (status = 200)) (name +:+ " status") in ret b
  end.

Definition probeAdmissionDaemon (baseURL : string) : check_act unit :=
  do! expect_ok "healthz" "GET" (baseURL +:+ "/healthz") "" false in
  let! execBody := expect_ok "executions" "POST" (baseURL +:+ "/executions") canary_command true in
  do! require (isSuccessfulExit execBody) "executions did not report successful exit" in
  do! expect_ok "files put" "PUT" (baseURL +:+ "/files?path=" +:+ admissionCanaryFilePath +:+ "&overwrite=true") admissionCanaryPayload false in
  let! got := expect_ok "files get" "GET" (baseURL +:+ "/files/content?path=" +:+ admissionCanaryFilePath) "" true in
  require (bool_decide (got = admissionCanaryPayload)) "files content mismatch".

(** Canaries that are not being deleted, in the order of the map. *)
Definition leftover (w : W) : list string :=
  (filter (fun x : string * bool => x.2 = false /\ HasPrefix x.1 admissionCanaryIDPrefix = true) (map_to_list (tracked w))).*1.

Fixpoint delete_all (ids : list string) : check_act unit :=
  match ids with
  | [] => ret tt
  | id :: ids' =>
      let! r := call (DeleteSandbox id) in
      match r with
      | DeleteFailed => exit ("cleanup leftover admission canary " +:+ id)
      | _ => delete_all ids'
      end
  end.

Definition cleanupLeftoverAdmissionCanaries : check_act unit :=
  let! w := get in
  delete_all (leftover w).

(** What runs between the create and the deferred delete. *)
Definition use_canary (sandboxID : string) : check_act unit :=
  let! w := get in
  match DaemonURL w sandboxID with
  | None => exit "admission canary daemon url"
  | Some url => probeAdmissionDaemon url
  end.

Definition runAdmissionCanary : check_act unit :=
  do! cleanupLeftoverAdmissionCanaries in
  let! short := call shortID in
  let sandboxID := admissionCanaryIDPrefix +:+ short in
  let! ok := call (CreateSandbox sandboxID) in
  do! require ok "admission canary create" in
  let! err := try (use_canary sandboxID) in
  let! del := call (DeleteSandbox sandboxID) in
  match err, del with
  | inr _, Deleted => ret tt
  | inl text, Deleted => exit text
  | inr _, _ => exit "admission canary cleanup"
  | inl text, _ => exit (text +:+ "; admission canary cleanup")
  end.

Definition admitOnce : check_act unit :=
  let! nat := call ensureHostNATReady in
  do! require nat "host NAT not configured" in
  do! pinBaseAssets in
  do! ensureGoldenSnapshot in
  do! pinSnapshotAssets in
  runAdmissionCanary.

(** ** The loop *)

Definition admissionRetryInitial : Z := EnvParse.Second.
Definition admissionRetryMax : Z := 30 * EnvParse.Second.
Definition next_wait (backoff : Z) : Z := if decide (backoff * 2 > admissionRetryMax) then admissionRetryMax else backoff * 2.

Inductive admission := Ready | Cancelled | Trying.

(** [sleep]: whether the context outlives the wait.  [Trying]: after [fuel] attempts.  The waits
    come with the result. *)
Fixpoint runAdmissionLoop (sleep : Z -> W -> bool * W) (fuel : nat) (backoff : Z) (w : W) : admission * list Z * W :=
  match fuel with
  | O => (Trying, [], w)
  | S k =>
      match admitOnce w with
      | (inr _, w) => (Ready, [], w)
      | (inl _, w) =>
          match sleep backoff w with
          | (false, w) => (Cancelled, [backoff], w)
          | (true, w) => let '(r, waits, w) := runAdmissionLoop sleep k (next_wait backoff) w in (r, backoff :: waits, w)
          end
      end
  end.
End admission.

(** ** What admission establishes *)

Section laws.
Context {W : Type} `{!Machine W} `{!MachineLaws W} (cfg : Config).

Lemma elem_leftover id w : id ∈ leftover w <-> tracked w !! id = Some false /\ HasPrefix id admissionCanaryIDPrefix = true.
Proof.
  unfold leftover. rewrite list_elem_of_fmap. split.
  - intros ([j b] & -> & [[Hb Hp] Hj%elem_of_map_to_list]%list_elem_of_filter). simpl in *. by subst b.
  - intros [Ht Hp]. exists (id, false). split; [done|]. apply list_elem_of_filter. split; [done|]. by apply elem_of_map_to_list.
Qed.

Lemma leftover_same w w' : tracked w' = tracked w -> leftover w' = leftover w.
Proof. unfold leftover. by intros ->. Qed.

(** A step that leaves the runtime's sandboxes alone. *)
Definition untouched {A} (m : act W string A) : Prop := forall w, tracked (m w).2 = tracked w.

Lemma untouched_bind {A B} (m : act W string A) (k : A -> act W string B) : untouched m -> (forall a, untouched (k a)) -> untouched (bind m k).
Proof. intros Hm Hk w. unfold bind. specialize (Hm w). destruct (m w) as [[t|a] w1]; simpl in *; [done|]. by rewrite Hk. Qed.

Lemma untouched_call {A} (f : W -> A * W) : (forall w, tracked (f w).2 = tracked w) -> untouched (call f).
Proof. intros Hf w. unfold call. specialize (Hf w). by destruct (f w). Qed.

Lemma untouched_require b text : untouched (require b text).
Proof. by destruct b. Qed.

Lemma untouched_pure {A} (a : A) text : untouched (ret a) /\ untouched (exit (A := A) text) /\ untouched get.
Proof. done. Qed.

Ltac calm := repeat first
  [ apply untouched_bind; [|intro] | apply untouched_require
  | apply untouched_call; intro; first [apply run_tracked|apply nat_tracked|apply symlink_tracked|apply do_tracked|apply short_tracked]
  | (let x := fresh in intro x; done)
  | match goal with
    | |- untouched (if ?b then _ else _) => destruct b
    | |- untouched (match ?o with _ => _ end) => destruct o
    end ].

Lemma pinBaseAssets_calm : untouched (pinBaseAssets cfg).
Proof. unfold pinBaseAssets, verifyManifestPin. calm. Qed.

Lemma verify_calm : untouched (verifySnapshotPathsResolveToOutputs cfg).
Proof. unfold verifySnapshotPathsResolveToOutputs. calm. Qed.

Lemma ensureGoldenSnapshot_calm : untouched (ensureGoldenSnapshot cfg).
Proof.
  assert (Hl : forall w a b c, untouched (link w a b c)) by (intros; unfold link; calm).
  unfold ensureGoldenSnapshot, verifyGoldenSnapshotSet, ensureSnapshotSymlinks. calm; try apply verify_calm; apply Hl.
Qed.

Lemma pinSnapshotAssets_calm : untouched (pinSnapshotAssets cfg).
Proof. unfold pinSnapshotAssets. calm. Qed.

Lemma use_canary_calm id : untouched (use_canary id).
Proof. unfold use_canary, probeAdmissionDaemon, expect_ok. calm. Qed.

Lemma deleted_gone id w : (DeleteSandbox id w).1 <> DeleteFailed -> tracked (DeleteSandbox id w).2 !! id <> Some false.
Proof.
  pose proof (delete_forgets id w) as H1. pose proof (delete_not_found id w) as H2. destruct (DeleteSandbox id w) as [[] w']; simpl in *; intros Hne; [by rewrite H1|auto|done].
Qed.

(** The sandboxes after deleting [ids]: only those changed, and on success none of them is there
    but being deleted. *)
Lemma delete_all_tracked ids w o w' : delete_all ids w = (o, w') ->
  (forall j, j ∉ ids -> tracked w' !! j = tracked w !! j) /\ (o = inr tt -> forall j, j ∈ ids -> tracked w' !! j <> Some false).
Proof.
  revert w. induction ids as [|id ids IH]; intros w; cbn [delete_all].
  - intros [= <- <-]. split; [done|]. by intros _ j ?%elem_of_nil.
  - unfold bind, call. pose proof (deleted_gone id w) as Hf. pose proof (fun j => delete_others id j w) as Ho.
    destruct (DeleteSandbox id w) as [r w1]. simpl in *.
    assert (Hrest : r <> DeleteFailed -> delete_all ids w1 = (o, w') ->
      (forall j, j ∉ id :: ids -> tracked w' !! j = tracked w !! j) /\ (o = inr tt -> forall j, j ∈ id :: ids -> tracked w' !! j <> Some false)).
    { intros Hr H2. destruct (IH w1 H2) as [H3 H4]. split.
      - intros j [Hj1 Hj2]%not_elem_of_cons. rewrite H3 by done. by apply Ho.
      - intros E j [->|Hj]%elem_of_cons; [|by apply H4]. destruct (decide (id ∈ ids)); [by apply H4|]. rewrite H3 by done. by apply Hf. }
    destruct r; intros H; [by apply Hrest|by apply Hrest|]. injection H as <- <-. split; [|done]. intros j [Hj _]%not_elem_of_cons. by apply Ho.
Qed.

Lemma cleanup_tracked w o w' : cleanupLeftoverAdmissionCanaries w = (o, w') ->
  (forall j, j ∈ leftover w' -> j ∈ leftover w) /\ (o = inr tt -> leftover w' = []).
Proof.
  unfold cleanupLeftoverAdmissionCanaries, bind, get. intros H. destruct (delete_all_tracked _ _ _ _ H) as [Hs Hg]. split.
  - intros j Hj. destruct (decide (j ∈ leftover w)) as [|Hn]; [done|]. rewrite elem_leftover in Hj |- *. by rewrite <- (Hs j Hn).
  - intros E. specialize (Hg E). destruct (leftover w') as [|j l] eqn:El; [done|]. exfalso. assert (Hj : j ∈ leftover w') by (rewrite El; by left).
    destruct (decide (j ∈ leftover w)) as [Hin|Hn].
    + apply elem_leftover in Hj as [Hj _]. by destruct (Hg j Hin).
    + apply Hn. rewrite elem_leftover in Hj |- *. by rewrite <- (Hs j Hn).
Qed.

(** What a bound run that succeeds, or fails, went through. *)
Lemma bind_passed {A B} (m : act W string A) (k : A -> act W string B) w b w' : bind m k w = (inr b, w') -> exists a w1, m w = (inr a, w1) /\ k a w1 = (inr b, w').
Proof. unfold bind. destruct (m w) as [[t|a] w1] eqn:E; [done|]. eauto. Qed.

Lemma require_passed b text (w : W) u w' : require b text w = (inr u, w') -> b = true /\ w' = w.
Proof. unfold require. destruct b; [|done]. by intros [= <- <-]. Qed.

Definition at_most_one (l : list string) : Prop := forall a b, a ∈ l -> b ∈ l -> a = b.

Lemma at_most_one_sub l l' : (forall j, j ∈ l' -> j ∈ l) -> at_most_one l -> at_most_one l'.
Proof. intros Hs Ho a b Ha Hb. apply Ho; by apply Hs. Qed.

(** The canary's own part: what is left over is only ever the canary itself. *)
Lemma canary_leftover w o w' : runAdmissionCanary w = (o, w') ->
  (forall j, j ∈ leftover w' -> j ∈ leftover w) \/ (exists id, forall j, j ∈ leftover w' -> j = id).
Proof.
  unfold runAdmissionCanary, bind, call, require, try. intros H. destruct (cleanupLeftoverAdmissionCanaries w) as [[t|u] w1] eqn:Ec.
  - injection H as <- <-. left. by apply cleanup_tracked in Ec as [? _].
  - right. apply cleanup_tracked in Ec as [_ Hnone]. destruct u. specialize (Hnone eq_refl).
    pose proof (short_tracked w1) as Hst. destruct (shortID w1) as [short w2]. simpl in Hst.
    set (id := admissionCanaryIDPrefix +:+ short) in *. exists id.
    pose proof (fun j => create_tracked id j w2) as Hcr. destruct (CreateSandbox id w2) as [ok w3]. simpl in Hcr.
    assert (Hgen : forall w4, (forall j, j <> id -> tracked w4 !! j = tracked w3 !! j) -> forall j, j ∈ leftover w4 -> j = id).
    { intros w4 H4 j Hj. destruct (decide (j = id)) as [|Hne]; [done|]. exfalso. apply (not_elem_of_nil (A := string) j). rewrite <- Hnone. rewrite elem_leftover in Hj |- *.
      by rewrite H4, Hcr, Hst in Hj. }
    destruct ok; [|injection H as _ <-; by apply Hgen]. cbn [ret] in H. pose proof (use_canary_calm id w3) as Hu. destruct (use_canary id w3) as [err w5]. simpl in Hu.
    pose proof (fun j => delete_others id j w5) as Hd. destruct (DeleteSandbox id w5) as [del w6]. simpl in Hd.
    assert (w' = w6) as -> by (destruct err, del; by injection H). apply Hgen. intros j Hj. by rewrite Hd, Hu.
Qed.

(** The snapshot on disk is one this runner's settings fit. *)
Definition snapshot_fits (w : W) : Prop :=
  pathExists w (LoadFirecracker.SnapshotMemPath cfg) = true /\ pathExists w (LoadFirecracker.SnapshotStatePath cfg) = true /\
  (TrimSpace (LoadFirecracker.CreateSnapshotScript cfg) <> "" -> pathExists w (generatedMem cfg) && pathExists w (generatedState cfg) = true ->
     (exists r, EvalSymlinks w (LoadFirecracker.SnapshotMemPath cfg) = Some r /\ EvalSymlinks w (generatedMem cfg) = Some r) /\
     (exists r, EvalSymlinks w (LoadFirecracker.SnapshotStatePath cfg) = Some r /\ EvalSymlinks w (generatedState cfg) = Some r)) /\
  exists p a n, loadBootParams (ReadFile w) decodeParams (bootParamsPath cfg) = inr p /\
    GuestIP p = LoadFirecracker.GuestIP cfg /\ HostTapDeviceName p = LoadFirecracker.HostTapDeviceName cfg /\ DaemonPort p = LoadFirecracker.DaemonPort cfg /\
    NetAddr.ParseCIDR (LoadFirecracker.HostTapIPCIDR cfg) = Some (a, n) /\ guestGateway p = inr (NetAddr.As16 a).

(** From [w] to [w'], with a fresh canary id: the sandbox was created and has a daemon, which
    answered its health check, ran a command that exited with 0, took a file and gave back the
    same bytes; then the sandbox was deleted. *)
Definition canary_passed (w w' : W) : Prop :=
  exists w0 short w1 w2 url a b c d body,
    let id := admissionCanaryIDPrefix +:+ short in
    cleanupLeftoverAdmissionCanaries w = (inr tt, w0) /\ shortID w0 = (short, w1) /\ CreateSandbox id w1 = (true, w2) /\ DaemonURL w2 id = Some url /\
    (exists r, Do "GET" (url +:+ "/healthz") "" w2 = (Some (200, r), a)) /\
    Do "POST" (url +:+ "/executions") canary_command a = (Some (200, Some body), b) /\ isSuccessfulExit body = true /\
    (exists r, Do "PUT" (url +:+ "/files?path=" +:+ admissionCanaryFilePath +:+ "&overwrite=true") admissionCanaryPayload b = (Some (200, r), c)) /\
    Do "GET" (url +:+ "/files/content?path=" +:+ admissionCanaryFilePath) "" c = (Some (200, Some admissionCanaryPayload), d) /\
    DeleteSandbox id d = (Deleted, w').

(** The binaries and the template are there; the release is the one expected, and the daemon is
    the one of its manifest, where those are given. *)
Definition release_pinned (w : W) : Prop :=
  Forall (fun p => pathExists w p = true)
    [LoadFirecracker.JailerBin cfg; LoadFirecracker.FirecrackerBin cfg; Paths.Join (LoadFirecracker.TemplateDir cfg) "rootfs.ext4"; templateKernelPath cfg] /\
  ((LoadFirecracker.ManifestPath cfg = "" /\ LoadFirecracker.ExpectedGitSHA cfg = "") \/
   exists raw m, ReadFile w (LoadFirecracker.ManifestPath cfg) = Some raw /\ decodeManifest raw = Some m /\
     (LoadFirecracker.ExpectedGitSHA cfg <> "" -> GitSHA m = LoadFirecracker.ExpectedGitSHA cfg) /\
     (TrimSpace (DaemonSHA256 m) <> "" -> exists got, fileSHA256 w (LoadFirecracker.DaemonBin cfg) = Some got /\
        Registration.ToLower got = Registration.ToLower (TrimSpace (DaemonSHA256 m)))).

(** The attempts before the last: each failed, and was slept off. *)
Inductive retries (sleep : Z -> W -> bool * W) : W -> Z -> W -> Prop :=
| retries_none b w : retries sleep w b w
| retries_one b w text w1 w2 w' : admitOnce cfg w = (inl text, w1) -> sleep b w1 = (true, w2) -> retries sleep w2 (next_wait b) w' -> retries sleep w b w'.

Lemma matchesConfig_None p : matchesConfig p cfg = None ->
  GuestIP p = LoadFirecracker.GuestIP cfg /\ HostTapDeviceName p = LoadFirecracker.HostTapDeviceName cfg /\ DaemonPort p = LoadFirecracker.DaemonPort cfg /\
  exists a n, NetAddr.ParseCIDR (LoadFirecracker.HostTapIPCIDR cfg) = Some (a, n) /\ guestGateway p = inr (NetAddr.As16 a).
Proof.
  unfold matchesConfig, mismatches. destruct (guestGateway p) as [t|g]; [done|]. destruct (NetAddr.ParseCIDR _) as [[a n]|] eqn:E; [|done].
  repeat case_decide; cbn [app]; try done. intros _. subst g. split_and!; [done..|]. by exists a, n.
Qed.

Lemma resolves_inr w c g : resolves_to w c g = inr tt -> exists r, EvalSymlinks w c = Some r /\ EvalSymlinks w g = Some r.
Proof. unfold resolves_to. destruct (EvalSymlinks w c) as [x|]; [|done]. destruct (EvalSymlinks w g) as [y|]; [|done]. case_decide; [|done]. subst. by exists y. Qed.

Lemma verify_inr w w' : verifySnapshotPathsResolveToOutputs cfg w = (inr tt, w') -> w' = w /\
  (exists r, EvalSymlinks w (LoadFirecracker.SnapshotMemPath cfg) = Some r /\ EvalSymlinks w (generatedMem cfg) = Some r) /\
  (exists r, EvalSymlinks w (LoadFirecracker.SnapshotStatePath cfg) = Some r /\ EvalSymlinks w (generatedState cfg) = Some r).
Proof.
  unfold verifySnapshotPathsResolveToOutputs, bind, get. destruct (resolves_to w (LoadFirecracker.SnapshotMemPath cfg) _) as [|[]] eqn:E1; [done|].
  destruct (resolves_to w (LoadFirecracker.SnapshotStatePath cfg) _) as [|[]] eqn:E2; [done|]. intros [= <-]. split; [done|]. split; by apply resolves_inr.
Qed.

Lemma golden_inr w w' : ensureGoldenSnapshot cfg w = (inr tt, w') ->
  TrimSpace (LoadFirecracker.CreateSnapshotScript cfg) <> "" -> pathExists w' (generatedMem cfg) && pathExists w' (generatedState cfg) = true ->
  (exists r, EvalSymlinks w' (LoadFirecracker.SnapshotMemPath cfg) = Some r /\ EvalSymlinks w' (generatedMem cfg) = Some r) /\
  (exists r, EvalSymlinks w' (LoadFirecracker.SnapshotStatePath cfg) = Some r /\ EvalSymlinks w' (generatedState cfg) = Some r).
Proof.
  intros H Hs Hp. unfold ensureGoldenSnapshot in H. apply bind_passed in H as (x & w1 & [= <- <-] & H). destruct (complete cfg w).
  - unfold verifyGoldenSnapshotSet in H. apply bind_passed in H as (y & w1 & [= <- <-] & H). rewrite decide_False in H by done.
    destruct (negb _) eqn:E; [injection H as <-; by rewrite Hp in E|]. by apply verify_inr in H as (-> & ?).
  - do 9 (apply bind_passed in H as (? & ? & _ & H)). by apply verify_inr in H as (-> & ?).
Qed.

Lemma pin_inr w w' : pinSnapshotAssets cfg w = (inr tt, w') -> w' = w /\
  pathExists w (LoadFirecracker.SnapshotMemPath cfg) = true /\ pathExists w (LoadFirecracker.SnapshotStatePath cfg) = true /\
  exists p, loadBootParams (ReadFile w) decodeParams (bootParamsPath cfg) = inr p /\ matchesConfig p cfg = None.
Proof.
  intros H. unfold pinSnapshotAssets in H. apply bind_passed in H as (x & w1 & [= <- <-] & H). apply bind_passed in H as (u & w1 & [Hp ->]%require_passed & H).
  cbn [forallb] in Hp. rewrite !andb_true_iff in Hp. destruct (loadBootParams _ _ _) as [|p] eqn:E; [done|]. destruct (matchesConfig p cfg) eqn:Em; [done|].
  injection H as <-. destruct Hp as (? & ? & _). split_and!; try done. by exists p.
Qed.

Lemma manifest_inr w w' : pinBaseAssets cfg w = (inr tt, w') -> w' = w /\ release_pinned w.
Proof.
  intros H. unfold pinBaseAssets in H. apply bind_passed in H as (x & w1 & [= <- <-] & H). apply bind_passed in H as (u & w1 & [Hp ->]%require_passed & H).
  assert (Hfour : Forall (fun p => pathExists w p = true)
    [LoadFirecracker.JailerBin cfg; LoadFirecracker.FirecrackerBin cfg; Paths.Join (LoadFirecracker.TemplateDir cfg) "rootfs.ext4"; templateKernelPath cfg]).
  { cbn [forallb] in Hp. rewrite !andb_true_iff in Hp. destruct Hp as (? & ? & ? & ? & _). repeat (apply Forall_cons_2; [done|]). apply Forall_nil_2. }
  unfold verifyManifestPin in H. apply bind_passed in H as (x & w1 & [= <- <-] & H). unfold release_pinned.
  destruct (decide (_ /\ _)) as [Hnone|]; [injection H as <-; split; [done|]; split; [done|by left]|]. destruct (decide (_ = "")); [done|].
  apply bind_passed in H as (v & w1 & [_ ->]%require_passed & H). destruct (ReadFile w _) as [raw|] eqn:Er; [|done]. destruct (decodeManifest raw) as [m|] eqn:Em; [|done].
  apply bind_passed in H as (y & w1 & [Hg ->]%require_passed & H).
  assert (Hsha : LoadFirecracker.ExpectedGitSHA cfg <> "" -> GitSHA m = LoadFirecracker.ExpectedGitSHA cfg).
  { intros Hne. rewrite bool_decide_eq_true_2 in Hg by done. apply negb_true_iff, bool_decide_eq_false in Hg. by apply dec_stable. }
  destruct (decide (TrimSpace (DaemonSHA256 m) = "")) as [Hd|Hd].
  - injection H as <-. split; [done|]. split; [done|]. right. by exists raw, m.
  - apply bind_passed in H as (z & w1 & [_ ->]%require_passed & H). destruct (fileSHA256 w _) as [got|] eqn:Ef; [|done]. apply require_passed in H as [Hh ->].
    apply bool_decide_eq_true in Hh. split; [done|]. split; [done|]. right. exists raw, m. split_and!; try done. intros _. by exists got.
Qed.

Lemma expect_ok_inr name m u b need w r w' : expect_ok name m u b need w = (inr r, w') ->
  exists o, Do m u b w = (Some (200, o), w') /\ (need = true -> o = Some r).
Proof.
  unfold expect_ok, bind, call, require. destruct (Do m u b w) as [[[status [body|]]|] w1]; [..|done].
  - case_bool_decide; [|done]. intros [= <- <-]. subst. by exists (Some body).
  - destruct need; [done|]. simpl. case_bool_decide; [|done]. intros [= <- <-]. subst. by exists None.
Qed.

Lemma canary_inr w w' : runAdmissionCanary w = (inr tt, w') -> canary_passed w w' /\ leftover w' = [].
Proof.
  intros H. pose proof (canary_leftover _ _ _ H) as Hl. unfold runAdmissionCanary in H. apply bind_passed in H as ([] & w1 & Hc & H). pose proof Hc as [_ Hnone]%cleanup_tracked. specialize (Hnone eq_refl).
  apply bind_passed in H as (short & w2 & Hs & H). apply bind_passed in H as (ok & w3 & Hcr & H). apply bind_passed in H as (u & w4 & [-> ->]%require_passed & H).
  apply bind_passed in H as (err & w5 & Hu & H). apply bind_passed in H as (del & w6 & Hd & H). destruct err as [t|u2]; [by destruct del|]. destruct del; try done. injection H as <-.
  unfold call in Hs, Hcr, Hd. unfold try in Hu. pose proof (short_tracked w1) as Hst. destruct (shortID w1) as [s0 w2'] eqn:Es. injection Hs as -> ->. simpl in Hst.
  set (id := admissionCanaryIDPrefix +:+ short) in *. pose proof (fun j => create_tracked id j w2) as Hct. destruct (CreateSandbox id w2) as [b w3'] eqn:Ec. injection Hcr as -> ->. simpl in Hct.
  pose proof (use_canary_calm id w3) as Hut. destruct (use_canary id w3) as [o w5'] eqn:Eu. injection Hu as -> ->. simpl in Hut.
  pose proof (delete_forgets id w5) as Hf. pose proof (fun j => delete_others id j w5) as Ho. destruct (DeleteSandbox id w5) as [r w6'] eqn:Ed. injection Hd as -> ->. simpl in Hf, Ho.
  split.
  - unfold use_canary, bind, get in Eu. destruct (DaemonURL w3 id) as [url|] eqn:Eurl; [|done]. destruct u2. unfold probeAdmissionDaemon in Eu.
    apply bind_passed in Eu as (? & a & Ha & Eu). apply expect_ok_inr in Ha as (ra & Ha & _).
    apply bind_passed in Eu as (body & b & Hb & Eu). apply expect_ok_inr in Hb as (rb & Hb & Eb). rewrite (Eb eq_refl) in Hb.
    apply bind_passed in Eu as (? & ? & [Hexit ->]%require_passed & Eu).
    apply bind_passed in Eu as (? & c & Hc' & Eu). apply expect_ok_inr in Hc' as (rc & Hc' & _).
    apply bind_passed in Eu as (got & d & Hd' & Eu). apply expect_ok_inr in Hd' as (rd & Hd' & Erd). rewrite (Erd eq_refl) in Hd'.
    apply require_passed in Eu as [Hgot%bool_decide_eq_true ->]. subst got.
    exists w1, short, w2, w3, url, a, b, c, d, body. split_and!; try done; by eexists.
  - destruct (leftover w6) as [|j l] eqn:El; [done|]. exfalso. assert (Hj : j ∈ leftover w6) by (rewrite El; by left). apply elem_leftover in Hj as [Hj Hp].
    destruct (decide (j = id)) as [->|Hne]; [by rewrite Hf in Hj|]. apply (not_elem_of_nil (A := string) j). rewrite <- Hnone. apply elem_leftover. by rewrite Ho, Hut, Hct, Hst in Hj.
Qed.

(** The waits of [n] failed attempts, from [b] on. *)
Fixpoint waits_from (b : Z) (n : nat) : list Z := match n with O => [] | S k => b :: waits_from (next_wait b) k end.

Lemma waits_capped b n : admissionRetryInitial <= b <= admissionRetryMax -> Forall (fun x => admissionRetryInitial <= x <= admissionRetryMax) (waits_from b n).
Proof.
  revert b. induction n as [|n IH]; intros b Hb; cbn [waits_from]; constructor; [done|]. apply IH. unfold next_wait. case_decide; unfold admissionRetryInitial, admissionRetryMax in *; lia.
Qed.

(** One attempt that passed, state by state. *)
Definition attempt_passed (w w' : W) : Prop :=
  exists w1 w2, ensureHostNATReady w = (true, w1) /\ release_pinned w1 /\ ensureGoldenSnapshot cfg w1 = (inr tt, w2) /\ snapshot_fits w2 /\ canary_passed w2 w'.

Lemma admitOnce_inr w w' : admitOnce cfg w = (inr tt, w') -> leftover w' = [] /\ attempt_passed w w'.
Proof.
  unfold admitOnce. intros H. apply bind_passed in H as (nat & w0 & Hn & H). apply bind_passed in H as (u & w1 & [-> ->]%require_passed & H).
  unfold call in Hn. destruct (ensureHostNATReady w) as [n w0'] eqn:En. injection Hn as -> ->.
  apply bind_passed in H as ([] & w2 & Hb & H). apply manifest_inr in Hb as [-> Hb]. apply bind_passed in H as ([] & w3 & Hg & H). apply bind_passed in H as ([] & w4 & Hp & H).
  apply pin_inr in Hp as (-> & Hm & Hs & p & Hl & Hc). apply canary_inr in H as [Hcp Hlo]. split; [done|]. exists w0, w3. split_and!; [done..| |done].
  apply matchesConfig_None in Hc as (H1 & H2 & H3 & a & k & Ha & Hgw). split; [done|]. split; [done|]. split; [by intros; eapply golden_inr|]. exists p, a, k. done.
Qed.

(** A calm step before the rest keeps the canaries. *)
Lemma after_calm {A} (m : act W string A) (k : A -> act W string unit) w o w' : untouched m -> bind m k w = (o, w') -> at_most_one (leftover w) ->
  (forall a w1, at_most_one (leftover w1) -> k a w1 = (o, w') -> at_most_one (leftover w')) -> at_most_one (leftover w').
Proof.
  intros Hm H Ho Hk. unfold bind in H. specialize (Hm w). destruct (m w) as [[t|a] w1]; simpl in Hm.
  - injection H as _ <-. by rewrite (leftover_same w w1).
  - eapply Hk; [|exact H]. by rewrite (leftover_same w w1).
Qed.

Lemma admitOnce_leftover w o w' : admitOnce cfg w = (o, w') -> at_most_one (leftover w) -> at_most_one (leftover w').
Proof.
  unfold admitOnce. intros H Ho.
  apply (after_calm _ _ _ _ _ ltac:(apply untouched_call, nat_tracked) H Ho). clear H Ho w. intros nat w Ho H.
  apply (after_calm _ _ _ _ _ (untouched_require _ _) H Ho). clear H Ho w. intros _ w Ho H.
  apply (after_calm _ _ _ _ _ pinBaseAssets_calm H Ho). clear H Ho w. intros _ w Ho H.
  apply (after_calm _ _ _ _ _ ensureGoldenSnapshot_calm H Ho). clear H Ho w. intros _ w Ho H.
  apply (after_calm _ _ _ _ _ pinSnapshotAssets_calm H Ho). clear H Ho w. intros _ w Ho H.
  destruct (canary_leftover _ _ _ H) as [Hs|[id Hid]]; [by eapply at_most_one_sub|]. intros a b Ha Hb. by rewrite (Hid a Ha), (Hid b Hb).
Qed.

Lemma loop_waits sleep fuel b w r waits w' : runAdmissionLoop cfg sleep fuel b w = (r, waits, w') ->
  waits = waits_from b (length waits) /\ (r = Trying -> length waits = fuel).
Proof.
  revert b w waits. induction fuel as [|fuel IH]; intros b w waits; cbn [runAdmissionLoop]; [by intros [= <- <- <-]|].
  destruct (admitOnce cfg w) as [[t|u] w1]; [|by intros [= <- <- <-]]. destruct (sleep b w1) as [[] w2]; [|by intros [= <- <- <-]].
  destruct (runAdmissionLoop cfg sleep fuel (next_wait b) w2) as [[r2 waits2] w3] eqn:E. intros [= <- <- <-]. destruct (IH _ _ _ E) as [Hw Ht].
  cbn [length waits_from]. rewrite <- Hw. split; [done|]. intros Hr. by rewrite (Ht Hr).
Qed.

Lemma loop_runs sleep fuel b w r waits w' : (forall d x, tracked (sleep d x).2 = tracked x) -> runAdmissionLoop cfg sleep fuel b w = (r, waits, w') ->
  (r = Ready -> exists w0, retries sleep w b w0 /\ admitOnce cfg w0 = (inr tt, w')) /\ (at_most_one (leftover w) -> at_most_one (leftover w')).
Proof.
  intros Hsl. revert b w waits. induction fuel as [|fuel IH]; intros b w waits; cbn [runAdmissionLoop]; [by intros [= <- <- <-]|].
  destruct (admitOnce cfg w) as [[t|[]] w1] eqn:Ea; pose proof (admitOnce_leftover _ _ _ Ea) as Hl.
  - specialize (Hsl b w1) as Hs. destruct (sleep b w1) as [[] w2] eqn:Esl; simpl in Hs; apply leftover_same in Hs.
    + destruct (runAdmissionLoop cfg sleep fuel (next_wait b) w2) as [[r2 waits2] w3] eqn:E. intros [= <- <- <-]. destruct (IH _ _ _ E) as [Hr Ho].
      split; [|intros H1; apply Ho; rewrite Hs; by apply Hl]. intros E2. destruct (Hr E2) as (w0 & Hw0 & Ha). exists w0. split; [|done].
      eapply retries_one; [exact Ea|exact Esl|exact Hw0].
    + intros [= <- <- <-]. split; [done|]. rewrite Hs. exact Hl.
  - intros [= <- <- <-]. split; [|exact Hl]. intros _. exists w. split; [constructor|done].
Qed.

Lemma loop_certifies sleep fuel w r waits w' :
  (forall d x, tracked (sleep d x).2 = tracked x) -> runAdmissionLoop cfg sleep fuel admissionRetryInitial w = (r, waits, w') ->
  (r = Ready -> leftover w' = [] /\ exists w0, retries sleep w admissionRetryInitial w0 /\ attempt_passed w0 w') /\
  (at_most_one (leftover w) -> at_most_one (leftover w')) /\
  (r = Trying -> length waits = fuel) /\ Forall (fun x => admissionRetryInitial <= x <= admissionRetryMax) waits.
Proof.
  intros Hs H. destruct (loop_waits _ _ _ _ _ _ _ H) as [Hw Ht]. destruct (loop_runs _ _ _ _ _ _ _ Hs H) as [Hr Ho]. split_and!; [|exact Ho|exact Ht|].
  - intros E. destruct (Hr E) as (w0 & Hw0 & Ha). apply admitOnce_inr in Ha as [Hl Hp]. split; [done|]. by exists w0.
  - rewrite Hw. apply waits_capped. unfold admissionRetryInitial, admissionRetryMax, EnvParse.Second, EnvParse.Millisecond. lia.
Qed.

End laws.

(** C36: a Firecracker runner calls itself healthy only at the end of an attempt that passed as a
    whole, the one that followed its failed ones.  In that attempt the host's NAT was ready; then
    the binaries and the template were there and the release and the daemon were those expected;
    then, once the golden snapshot was made or verified, the snapshot on disk was complete, the one
    the script wrote if it did, and built for this runner's guest address, gateway, tap device and
    daemon port; then a canary sandbox was created whose daemon answered its health check, ran a
    command that exited with 0 and gave back the file it was sent, and it was deleted, so that the
    runtime tracks no canary but such as are being deleted.  Until then the runner keeps trying
    unless it is told to stop, one to thirty seconds apart, and however the attempts fail at most
    one canary is ever left behind.  Nobody else places sandboxes on a runner that sleeps between
    attempts. *)
Theorem admission_certifies {V} `{!Host V} cfg (sleep : Z -> runtime V -> bool * runtime V) fuel w r waits w' :
  (forall d x, sandboxes (sleep d x).2 = sandboxes x) -> runAdmissionLoop cfg sleep fuel admissionRetryInitial w = (r, waits, w') ->
  (r = Ready -> leftover w' = [] /\ exists w0, retries cfg sleep w admissionRetryInitial w0 /\ attempt_passed cfg w0 w') /\
  (at_most_one (leftover w) -> at_most_one (leftover w')) /\
  (r = Trying -> length waits = fuel) /\ Forall (fun x => admissionRetryInitial <= x <= admissionRetryMax) waits.
Proof. exact (loop_certifies cfg sleep fuel w r waits w'). Qed.

(** ** The command that makes a snapshot *)

(** A setting in front of a command, and the continued line. *)
Lemma setting_tokens pre v rest : lex_from lex_start pre = mkLexer Plain (reverse (chars pre)) true false [] ->
  line_tokens (Lit pre :: Arg v :: Lit continuation :: rest) = Quoted (pre +:+ v) :: line_tokens rest.
Proof.
  intros Hp. unfold line_tokens at 1. cbn [foldl lex_piece]. rewrite Hp. cbn [l_word l_out].
  replace (lex_from (mkLexer Plain (reverse (chars v) ++ reverse (chars pre)) true true []) continuation) with (fresh [Quoted (pre +:+ v)]).
  - rewrite tokens_from. reflexivity.
  - unfold lex_from, continuation. rewrite chars_of_chars. cbn [foldl]. unfold lex_char, end_word. cbn -[reverse chars of_chars].
    rewrite reverse_app, !reverse_involutive, <- chars_app, of_chars_chars. reflexivity.
Qed.

Lemma lit_empty r : line_tokens (Lit "" :: r) = line_tokens r.
Proof. reflexivity. Qed.

Definition snapshot_words (cfg : Config) (kernel ext4 : string) : list token :=
  [Quoted ("GUEST_IP=" +:+ LoadFirecracker.GuestIP cfg); Quoted ("HOST_TAP_IP_CIDR=" +:+ LoadFirecracker.HostTapIPCIDR cfg);
   Quoted ("HOST_TAP_DEVICE_NAME=" +:+ LoadFirecracker.HostTapDeviceName cfg); Quoted ("DAEMON_PORT=" +:+ LoadAPI.Itoa (LoadFirecracker.DaemonPort cfg));
   Quoted (LoadFirecracker.CreateSnapshotScript cfg); Word "--kernel"; Quoted kernel; Word "--ext4"; Quoted ext4;
   Word "--daemon-bin"; Quoted (LoadFirecracker.DaemonBin cfg); Word "--out"; Quoted (outDir cfg)].

(** The privileged shell runs the configured script with exactly these settings and paths,
    whatever characters they hold. *)
Lemma snapshot_command_words cfg kernel ext4 :
  commands (createSnapshotCommand cfg kernel ext4) = [[Word "set"; Word "-eu"]; snapshot_words cfg kernel ext4].
Proof.
  assert (E : Forall2 (fun l t => line_tokens l = t) (snapshot_command_pieces cfg kernel ext4) [[Word "set"; Word "-eu"]; snapshot_words cfg kernel ext4]).
  { unfold snapshot_command_pieces, snapshot_words. repeat constructor. rewrite !setting_tokens by reflexivity. do 4 f_equal.
    rewrite <- lit_empty.
    change (Lit " --kernel ") with (Lit (space +:+ "--kernel ")). change (Lit " --ext4 ") with (Lit (space +:+ "--ext4 ")).
    change (Lit " --daemon-bin ") with (Lit (space +:+ "--daemon-bin ")). change (Lit " --out ") with (Lit (space +:+ "--out ")).
    rewrite (lit_arg_tokens "" [] _ _ _ eq_refl), (lit_arg_tokens "--kernel " [Word "--kernel"] _ _ _ eq_refl), (lit_arg_tokens "--ext4 " [Word "--ext4"] _ _ _ eq_refl),
      (lit_arg_tokens "--daemon-bin " [Word "--daemon-bin"] _ _ _ eq_refl), (arg_tokens "--out " [Word "--out"] _ eq_refl). reflexivity. }
  unfold createSnapshotCommand. rewrite commands_lines.
  - clear -E. induction E as [|l t ls ts <- _ IH]; [done|]. cbn [fmap list_fmap]. by rewrite IH.
  - unfold snapshot_command_pieces. repeat apply Forall_cons_2; try apply Forall_nil_2; unfold closed_line; repeat apply Forall_cons_2; try apply Forall_nil_2; try exact I; vm_compute; reflexivity.
  - assert (Hn : Forall (fun t => NL ∉ t) [[Word "set"; Word "-eu"]; snapshot_words cfg kernel ext4]).
    { unfold snapshot_words. repeat constructor; rewrite !not_elem_of_cons; repeat split; try discriminate; apply not_elem_of_nil. }
    clear -E Hn. induction E as [|l t ls ts <- _ IH]; [constructor|]. inversion_clear Hn. constructor; auto.
Qed.

(** ** A host whose NAT is up at the second attempt *)

Definition exit_event : string :=
  of_chars (chars "{" ++ quoted "type" ++ chars ":" ++ quoted "exit" ++ chars "," ++ quoted "exit_code" ++ chars ":0}").

(** The state is the number of times the NAT was asked for. *)
Definition toy_host : Host nat := {|
  h_pathExists _ _ := true; h_EvalSymlinks _ s := Some s; h_ReadFile _ _ := Some "raw"; h_fileSHA256 _ _ := None;
  h_decodeParams _ := Some toy_params; h_decodeManifest _ := None;
  h_Symlink _ _ v := (Made, v); h_run _ v := (true, v);
  h_ensureHostNATReady v := (bool_decide (0 < v)%nat, S v);
  h_Do _ url _ v := (Some (200, Some (if contains (chars url) (chars "/executions") then exit_event else admissionCanaryPayload)), v);
  h_shortID v := ("0123456789ab", v);
  reserve_ok _ v := (true, v); launch _ v := (true, v); teardown _ v := (true, v); claim _ v := (true, v);
  running_url _ _ := Some "http://127.0.0.1:18081";
|}.

Example toy_admitted : runAdmissionLoop (Machine0 := runtime_machine (Host0 := toy_host)) LoadFirecracker.firecracker_config (fun _ w => (true, w)) 5 admissionRetryInitial
    (mkRuntime 0%nat {["admission-canary-old" := false]}) = (Ready, [1000000000], mkRuntime 2%nat ∅).
Proof. vm_compute. reflexivity. Qed.

Lemma admission_certifies_witness : exists w0,
  attempt_passed (Machine0 := runtime_machine (Host0 := toy_host)) LoadFirecracker.firecracker_config w0 (mkRuntime 2%nat ∅).
Proof.
  destruct (admission_certifies (Host0 := toy_host) LoadFirecracker.firecracker_config (fun _ w => (true, w)) 5
    (mkRuntime 0%nat {["admission-canary-old" := false]}) Ready [1000000000] (mkRuntime 2%nat ∅) ltac:(done) toy_admitted) as (Hr & _).
  destruct (Hr eq_refl) as (_ & w0 & _ & Hp). exists w0. exact Hp.
Defined.
End FirecrackerAdmit.
