(* ===== verification/Trace.v ===== *)
(** * Trace context ([internal/obs]; its use in both logging middlewares, the
    control client, the control service and the proxy to the runner)

    A request carries a W3C traceparent from the API to the runner, so that the
    log events of both processes can be joined.  The header is the caller's: what
    is adopted is rebuilt from its fields, and anything else is replaced by random
    ids. *)

From S2P Require Import Prelude GoStrings Ids.

Module Trace.
Import GoStrings Ids.

Definition HeaderTraceparent : string := "traceparent".

Definition dash : ascii := byte 45.
Definition zero : ascii := byte 48.

Definition zeroTraceID : list ascii := replicate 32 zero.
Definition zeroSpanID : list ascii := replicate 16 zero.

(** ** Parsing *)

(** The text before and after the first dash. *)
Fixpoint cut (l : list ascii) : option (list ascii * list ascii) :=
  match l with
  | [] => None
  | c :: l' => if decide (c = dash) then Some ([], l')
               else match cut l' with Some (a, r) => Some (c :: a, r) | None => None end
  end.

(** [strings.SplitN(tp, "-", n)] *)
Fixpoint SplitN (l : list ascii) (n : nat) : list (list ascii) :=
  match n with
  | O => []
  | S O => [l]
  | S n' => match cut l with Some (a, r) => a :: SplitN r n' | None => [l] end
  end.

Definition isHex (s : list ascii) (n : nat) : bool := bool_decide (length s = n) && forallb lower_hex s.

Record ids := mkIds { traceID : list ascii; spanID : list ascii; flags : list ascii }.

Definition parseTraceparent (tp : list ascii) : option ids :=
  let parts := SplitN tp 5 in
  match parts with
  | version :: t :: s :: f :: more =>
      if negb (isHex version 2) || bool_decide (version = chars "ff") then None
      else if bool_decide (version = chars "00") && negb (bool_decide (length parts = 4%nat)) then None
      else if negb (isHex t 32) || bool_decide (t = zeroTraceID) then None
      else if negb (isHex s 16) || bool_decide (s = zeroSpanID) then None
      else if negb (isHex f 2) then None
      else Some (mkIds t s f)
  | _ => None
  end.

(** ["00-" + traceID + "-" + spanID + "-" + flags] *)
Definition render (i : ids) : list ascii := chars "00-" ++ traceID i ++ dash :: spanID i ++ dash :: flags i.

(** The system's random source: the bytes of the nth read. *)
Class Rand := { rand_byte : nat -> nat -> ascii }.

Section random.
Context {RD : Rand}.

(** Functions that read it take and return how many reads there were. *)
Definition randomHex (n : nat) (k : nat) : list ascii * nat := (hex_encode (rand_byte k <$> seq 0 n), S k).

Definition NewTraceparent (k : nat) : list ascii * nat :=
  let '(t, k1) := randomHex 16 k in
  let '(s, k2) := randomHex 8 k1 in
  (chars "00-" ++ t ++ dash :: s ++ chars "-01", k2).

Definition EnsureTraceparent (header : list ascii) (k : nat) : list ascii * nat :=
  match parseTraceparent header with
  | None => NewTraceparent k
  | Some i => (render i, k)
  end.

Definition TraceIDOf (tp : list ascii) : list ascii :=
  match parseTraceparent tp with Some i => traceID i | None => [] end.

(** ** Contexts and log events *)

(** The value a context carries under [traceparentKey]. *)
Record context := mkContext { ctx_traceparent : option (list ascii); ctx_fields : option (list (string * string)) }.
Definition background : context := mkContext None None.
Definition WithTraceparent (c : context) (tp : list ascii) : context := mkContext (Some tp) (ctx_fields c).
Definition Traceparent (c : context) : list ascii := default [] (ctx_traceparent c).
Definition TraceID (c : context) : list ascii := TraceIDOf (Traceparent c).

(** [Fields]: the pairs behind the pointer; adding to a nil pointer does nothing. *)
Definition WithFields (c : context) : context := mkContext (ctx_traceparent c) (Some []).
Definition Add (more : list (string * string)) (c : context) : context :=
  mkContext (ctx_traceparent c) ((fun kv => kv ++ more) <$> ctx_fields c).
Definition Attrs (c : context) : list (string * string) := default [] (ctx_fields c).

(** [traceHandler.Handle]: what the wrapped handler is given. *)
Definition Handle (c : context) (rec : list (string * string)) : list (string * string) :=
  let traceID := TraceID c in
  if decide (traceID <> []) then rec ++ [("trace_id", of_chars traceID)] else rec.

(** ** The way from the API to the runner *)

(** What [LoggingMiddleware] of either process puts on the context of a request
    that is not a probe ([header] is [Header.Get]), and the trace id it logs. *)
Definition api_context (header : list ascii) (k : nat) : context * list ascii * nat :=
  let '(tp, k') := EnsureTraceparent header k in
  (WithFields (WithTraceparent background tp), TraceIDOf tp, k').

Definition runner_context (header : list ascii) (k : nat) : context * list ascii * nat :=
  let '(tp, k') := EnsureTraceparent header k in
  (WithTraceparent background tp, TraceIDOf tp, k').

(** The header of the proxied request: set, or deleted. *)
Definition proxied_header (c : context) : option (list ascii) :=
  let tp := Traceparent c in if decide (tp <> []) then Some tp else None.

(** [withCallMetadata]: the pairs appended to the call's metadata. *)
Definition withCallMetadata (c : context) (apiKey : string) : list (string * list ascii) :=
  let apiKey := TrimSpace apiKey in
  (if decide (apiKey <> "") then [("x-api-key", chars apiKey)] else []) ++
  (let tp := Traceparent c in if decide (tp <> []) then [(HeaderTraceparent, tp)] else []).

(** [withTrace] of the control service, [md.Get] taking the values of a key in order. *)
Definition withTrace (md : list (string * list ascii)) (k : nat) : context * nat :=
  let header := match filter (fun p => p.1 = HeaderTraceparent) md with p :: _ => p.2 | [] => [] end in
  let '(tp, k') := EnsureTraceparent header k in
  (WithTraceparent background tp, k').
End random.

(** ** The grammar of a header that is adopted

    As the W3C recommendation has it: two hex digits of version other than ff, the
    ids, not all zero, the flags, and, only after a version other than 00, more
    fields behind a dash. *)

Definition hex_field (n : nat) (s : list ascii) : Prop := length s = n /\ Forall (fun c => lower_hex c = true) s.

Record well_formed (i : ids) : Prop := {
  wf_trace : hex_field 32 (traceID i) /\ traceID i <> zeroTraceID;
  wf_span : hex_field 16 (spanID i) /\ spanID i <> zeroSpanID;
  wf_flags : hex_field 2 (flags i);
}.

Inductive traceparent_header (i : ids) : list ascii -> Prop :=
| header_fields version :
    hex_field 2 version -> version <> chars "ff" -> well_formed i ->
    traceparent_header i (version ++ dash :: traceID i ++ dash :: spanID i ++ dash :: flags i)
| header_more version more :
    hex_field 2 version -> version <> chars "ff" -> version <> chars "00" -> well_formed i ->
    traceparent_header i (version ++ dash :: traceID i ++ dash :: spanID i ++ dash :: flags i ++ dash :: more).

Lemma isHex_spec s n : isHex s n = true <-> hex_field n s.
Proof.
  unfold isHex, hex_field. rewrite andb_true_iff, bool_decide_eq_true, forallb_forall, Forall_forall.
  setoid_rewrite list_elem_of_In. done.
Qed.

Lemma hex_no_dash n s : hex_field n s -> dash ∉ s.
Proof. intros [_ H] Hd. rewrite Forall_forall in H. by specialize (H _ Hd). Qed.

Lemma cut_Some a r : dash ∉ a -> cut (a ++ dash :: r) = Some (a, r).
Proof.
  induction a as [|c a IH]; intros H; simpl.
  - done.
  - rewrite not_elem_of_cons in H. destruct H as [Hc Ha]. rewrite decide_False by congruence. by rewrite IH.
Qed.

Lemma cut_None l : dash ∉ l -> cut l = None.
Proof.
  induction l as [|c l IH]; intros H; simpl; [done|].
  rewrite not_elem_of_cons in H. destruct H as [Hc Ha]. rewrite decide_False by congruence. by rewrite IH.
Qed.

Lemma cut_inv l a r : cut l = Some (a, r) -> l = a ++ dash :: r.
Proof.
  revert a. induction l as [|c l IH]; intros a; simpl; [done|]. case_decide as Hc; [intros [= <- <-]; by subst|].
  destruct (cut l) as [[a' r']|]; [|done]. intros [= <- <-]. simpl. f_equal. by apply IH.
Qed.

Lemma parse_sound tp i : parseTraceparent tp = Some i -> traceparent_header i tp.
Proof.
  unfold parseTraceparent. cbv zeta. destruct (SplitN tp 5) as [|v [|t [|s [|f more] ] ] ] eqn:E; try done.
  destruct (negb (isHex v 2) || _) eqn:E1; [done|]. destruct (_ && negb _) eqn:E2; [done|].
  destruct (negb (isHex t 32) || _) eqn:E3; [done|]. destruct (negb (isHex s 16) || _) eqn:E4; [done|].
  destruct (negb (isHex f 2)) eqn:E5; [done|]. intros [= <-].
  apply orb_false_iff in E1 as [V1%negb_false_iff%isHex_spec V2%bool_decide_eq_false].
  apply orb_false_iff in E3 as [T1%negb_false_iff%isHex_spec T2%bool_decide_eq_false].
  apply orb_false_iff in E4 as [S1%negb_false_iff%isHex_spec S2%bool_decide_eq_false].
  apply negb_false_iff, isHex_spec in E5.
  assert (W : well_formed (mkIds t s f)) by (constructor; repeat split; simpl; first [apply T1|apply S1|apply E5|done]).
  revert E. cbn [SplitN].
  destruct (cut tp) as [[v' r1]|] eqn:C1; [|done]. destruct (cut r1) as [[t' r2]|] eqn:C2; [|done].
  destruct (cut r2) as [[s' r3]|] eqn:C3; [|done].
  apply cut_inv in C1 as ->. apply cut_inv in C2 as ->. apply cut_inv in C3 as ->.
  destruct (cut r3) as [[f' r4]|] eqn:C4; intros [= -> -> -> -> <-].
  - apply cut_inv in C4 as ->. apply (header_more (mkIds t s f)); try done.
    intros ->. apply andb_false_iff in E2 as [E2%bool_decide_eq_false|E2]; [done|].
    apply negb_false_iff, bool_decide_eq_true in E2. simpl in E2. lia.
  - by apply (header_fields (mkIds t s f)).
Qed.

Lemma parse_complete tp i : traceparent_header i tp -> parseTraceparent tp = Some i.
Proof.
  assert (H : forall v rest parts, hex_field 2 v -> v <> chars "ff" -> well_formed i ->
    cut (flags i ++ rest) = match parts with [] => None | r :: _ => Some (flags i, r) end ->
    (parts = [] -> rest = []) -> (length parts <= 1)%nat -> (v = chars "00" -> parts = []) ->
    parseTraceparent (v ++ dash :: traceID i ++ dash :: spanID i ++ dash :: flags i ++ rest) = Some i).
  { intros v rest parts V1 V2 [ [T1 T2] [S1 S2] F] C Hr Hp H0. unfold parseTraceparent. cbn [SplitN].
    rewrite !cut_Some by eauto using hex_no_dash. cbn [SplitN].
    assert (E : match cut (flags i ++ rest) with Some (a, r) => [a; r] | None => [flags i ++ rest] end = flags i :: parts).
    { rewrite C. destruct parts as [|r [|] ]; [|done|simpl in Hp; lia]. by rewrite Hr, app_nil_r. }
    rewrite E. apply isHex_spec in V1 as ->, T1 as ->, S1 as ->, F as ->. simpl negb. cbn [orb].
    rewrite (bool_decide_eq_false_2 (traceID i = _)), (bool_decide_eq_false_2 (spanID i = _)), (bool_decide_eq_false_2 (v = chars "ff")) by done.
    destruct (decide (v = chars "00")) as [Hv|Hv].
    - rewrite (H0 Hv). simpl length. rewrite (bool_decide_eq_true_2 (4 = 4)%nat) by done. rewrite andb_false_r. by destruct i.
    - rewrite (bool_decide_eq_false_2 (v = _)) by done. by destruct i. }
  intros [v V1 V2 W|v more V1 V2 V3 W].
  - rewrite <- (app_nil_r (flags i)) at 1. apply (H v [] []); try done; [|simpl; lia].
    rewrite app_nil_r. apply cut_None. eapply hex_no_dash, W.
  - apply (H v (dash :: more) [more]); try done. apply cut_Some. eapply hex_no_dash, W.
Qed.

(** A canonical traceparent is adopted as it is. *)
Lemma parse_render i : well_formed i -> parseTraceparent (render i) = Some i.
Proof. intros W. apply parse_complete, (header_fields i (chars "00")); [|done|done]. split; [done|]. repeat constructor. Qed.

Lemma parse_wf tp i : parseTraceparent tp = Some i -> well_formed i.
Proof. by intros [|]%parse_sound. Qed.

(** The ids of the nth and following read. *)
Definition minted {RD : Rand} (k : nat) : ids := mkIds (randomHex 16 k).1 (randomHex 8 (S k)).1 (chars "01").

(** Neither of the ids read at [k] is all zero. *)
Definition usable_random {RD : Rand} (k : nat) : Prop := traceID (minted k) <> zeroTraceID /\ spanID (minted k) <> zeroSpanID.

Section relay.
Context {RD : Rand}.

Lemma minted_wf k : usable_random k -> well_formed (minted k).
Proof.
  intros [Ht Hs]. assert (H : forall n j, hex_field (2 * n) (randomHex n j).1).
  { intros n j. split; [|apply hex_encode_lower]. simpl. rewrite length_hex_encode, length_fmap, length_seq. lia. }
  constructor; [split; [apply (H 16%nat)|done]|split; [apply (H 8%nat)|done]|]. split; [done|]. repeat constructor.
Qed.

Lemma Ensure_render header k :
  EnsureTraceparent header k =
    match parseTraceparent header with Some i => (render i, k) | None => (render (minted k), S (S k)) end.
Proof. unfold EnsureTraceparent. by destruct (parseTraceparent header). Qed.

(** What is relayed is canonical. *)
Lemma Ensure_canonical header k : usable_random k ->
  exists i, well_formed i /\ (EnsureTraceparent header k).1 = render i.
Proof.
  intros U. rewrite Ensure_render. destruct (parseTraceparent header) as [i|] eqn:E.
  - exists i. split; [by eapply parse_wf|done].
  - exists (minted k). split; [by apply minted_wf|done].
Qed.

Lemma Ensure_fixed i k : well_formed i -> EnsureTraceparent (render i) k = (render i, k).
Proof. intros W. by rewrite Ensure_render, (parse_render i W). Qed.

(** What the rest of the system sees of ids [i]: the API logs them, sends them on
    to the runner both ways in canonical form, and the runner adopts them as they
    are, whatever it has read of its random source. *)
Definition relayed (i : ids) (c : context) (logged : list ascii) : Prop :=
  Traceparent c = render i /\ logged = traceID i /\
  proxied_header c = Some (render i) /\
  (forall j, runner_context (render i) j = (WithTraceparent background (render i), traceID i, j)) /\
  (forall apiKey j, withTrace (withCallMetadata c apiKey) j = (WithTraceparent background (render i), j)) /\
  (forall rec, Handle c rec = rec ++ [("trace_id", of_chars (traceID i))]).

Lemma length_render i : well_formed i -> length (render i) = 55%nat.
Proof.
  intros [ [ [HT _] _] [ [HS _] _] [HF _] ]. unfold render.
  repeat (rewrite length_app || rewrite length_cons). rewrite HT, HS, HF. done.
Qed.

Lemma render_relayed i c : well_formed i -> Traceparent c = render i -> relayed i c (TraceIDOf (render i)).
Proof.
  intros W E. assert (Hne : render i <> []) by done. assert (Hid : TraceIDOf (render i) = traceID i) by (unfold TraceIDOf; by rewrite parse_render).
  repeat split; [done|done| | | |].
  - unfold proxied_header. rewrite E. by rewrite decide_True.
  - intros j. unfold runner_context. by rewrite Ensure_fixed, Hid.
  - intros apiKey j. unfold withTrace, withCallMetadata. cbv zeta. rewrite E, (decide_True (P := render i <> [])) by done.
    assert (F : filter (fun p : string * list ascii => p.1 = HeaderTraceparent)
      ((if decide (TrimSpace apiKey <> "") then [("x-api-key", chars (TrimSpace apiKey))] else []) ++ [(HeaderTraceparent, render i)]) =
      [(HeaderTraceparent, render i)]).
    { case_decide; [|done]. rewrite filter_app. done. }
    rewrite F. simpl snd. by rewrite Ensure_fixed.
  - intros rec. unfold Handle, TraceID. rewrite E, Hid. rewrite decide_True; [done|].
    destruct W as [ [ [HT _] _] _ _]. by destruct (traceID i).
Qed.

(** C19: One trace per request, whatever its caller sends: the API puts on the
    request's context, logs and sends to the runner, over HTTP and over gRPC, the
    same 55 characters, built from ids that are lower-case hex and not all zero;
    the runner adopts them as they are, so the events of both processes carry one
    trace id.  The ids are the caller's exactly when its header is a traceparent by
    the W3C grammar; otherwise they are random and nothing of the header is
    relayed. *)
Theorem trace_joined (header : list ascii) (k : nat) (U : usable_random k) :
  exists i c logged k', api_context header k = (c, logged, k') /\
    well_formed i /\ length (render i) = 55%nat /\ relayed i c logged /\
    (forall i', traceparent_header i' header -> i = i' /\ k' = k) /\
    ((forall i', ~ traceparent_header i' header) -> i = minted k).
Proof.
  unfold api_context. rewrite Ensure_render. destruct (parseTraceparent header) as [i|] eqn:E.
  - assert (W : well_formed i) by (by eapply parse_wf).
    eexists i, _, _, _. split; [reflexivity|]. split; [done|]. split; [by apply length_render|].
    split; [by apply render_relayed|]. split.
    + intros i' H%parse_complete. split; [congruence|done].
    + intros H. destruct (H i). by apply parse_sound.
  - assert (W : well_formed (minted k)) by (by apply minted_wf).
    eexists (minted k), _, _, _. split; [reflexivity|]. split; [done|]. split; [by apply length_render|].
    split; [by apply render_relayed|]. split; [|done].
    intros i' H%parse_complete. congruence.
Qed.
End relay.

(** A random source that counts. *)
Definition counting : Rand := {| rand_byte n i := byte (N.of_nat (n * 16 + i)) |}.

Definition caller_header : list ascii := chars "cc-4bf92f3577b34da6a3ce929d0e0e4736-00f067aa0ba902b7-01-extra field".

Example adopts_fields :
  (@EnsureTraceparent counting caller_header 0).1 = chars "00-4bf92f3577b34da6a3ce929d0e0e4736-00f067aa0ba902b7-01" /\
  (@EnsureTraceparent counting (chars "00-4bf92f3577b34da6a3ce929d0e0e4736-00f067aa0ba902b7-01-x") 0).1 =
    chars "00-000102030405060708090a0b0c0d0e0f-1011121314151617-01".
Proof. by vm_compute. Qed.

Lemma trace_joined_witness :
  exists i c logged k', @api_context counting caller_header 0 = (c, logged, k') /\
    logged = chars "4bf92f3577b34da6a3ce929d0e0e4736" /\ @relayed counting i c logged.
Proof.
  assert (U : @usable_random counting 0) by (split; vm_compute; discriminate).
  destruct (trace_joined (RD := counting) caller_header 0 U) as (i & c & logged & k' & E & _ & _ & R & _).
  exists i, c, logged, k'. split; [exact E|]. split; [|exact R]. vm_compute in E. injection E as <- <- <-. vm_compute. reflexivity.
Defined.
End Trace.
