(* ===== verification/Certs.v ===== *)
(** * Certificates of the mTLS listeners and clients ([internal/grpctls])

    The API and the runner present certificates that are renewed on disk while they
    run.  A reloader serves the pair it loaded last and loads again when a file's
    modification time has changed; one reloader per pair of files is shared by all
    listeners and calls of the process. *)

From S2P Require Import Prelude GoStrings.

Module Certs.
Import GoStrings.

Record leaf := mkLeaf { Raw : string; Subject : string; Issuer : string; NotAfter : Z }.
Record certificate := mkCert { chain : string; Leaf : leaf }.

(** The zero [time.Time] is 0. *)
Record fileStamp := mkStamp { st_cert : Z; st_key : Z }.
#[global] Instance fileStamp_eq_dec : EqDecision fileStamp.
Proof. solve_decision. Defined.
Definition zero_stamp : fileStamp := mkStamp 0 0.
Definition stamp_equal (a b : fileStamp) : bool := bool_decide (st_cert a = st_cert b) && bool_decide (st_key a = st_key b).

Record KeyPairReloader := mkReloader {
  CertPath : string;
  KeyPath : string;
  cert : option certificate;
  loaded : fileStamp;
  failed : fileStamp;
  lastTry : Z;
  lastWarn : Z;
}.

(** ** The world

    [file n p] is what is at [p] when the process does its nth interaction with the
    outside: nothing, or a file with its modification time and contents. *)

Class Disk := { file : nat -> string -> option (Z * string); clock : nat -> Z }.

Class Crypto := {
  (** the chain, and the leaf unless it was left to the caller *)
  X509KeyPair : string -> string -> option (string * option leaf);
  ParseCertificate : string -> option leaf;
  AppendCertsFromPEM : string -> option string;
  sum256 : string -> string;
}.

Inductive event := EvRead (path : string) | EvLoaded (path fp : string) | EvWarned (path : string) | EvPeer (subject : string).

Record process := mkProcess {
  io : nat;
  heap : gmap nat KeyPairReloader;
  byFiles : gmap (string * string) nat;   (* reloaders *)
  byPath : gmap string string;            (* loadedCerts *)
  seenPeers : gmap string string;
  events : list event;
}.

Definition set_io (n : nat) (w : process) : process := mkProcess n (heap w) (byFiles w) (byPath w) (seenPeers w) (events w).
Definition emit (e : event) (w : process) : process := mkProcess (io w) (heap w) (byFiles w) (byPath w) (seenPeers w) (events w ++ [e]).
Definition store_reloader (l : nat) (k : KeyPairReloader) (w : process) : process :=
  mkProcess (io w) (<[l := k]> (heap w)) (byFiles w) (byPath w) (seenPeers w) (events w).
Definition publish (f : string * string) (l : nat) (w : process) : process :=
  mkProcess (io w) (heap w) (<[f := l]> (byFiles w)) (byPath w) (seenPeers w) (events w).
Definition remember_loaded (path fp : string) (w : process) : process :=
  mkProcess (io w) (heap w) (byFiles w) (<[path := fp]> (byPath w)) (seenPeers w) (events w).
Definition set_peers (m : gmap string string) (w : process) : process :=
  mkProcess (io w) (heap w) (byFiles w) (byPath w) m (events w).

Definition second : Z := 1000000000.
Definition reloadRetryInterval : Z := second.
Definition reloadWarnInterval : Z := 60 * second.

Inductive load_error := EStat | ERead | EPair | ECA (path : string).

Section reloader.
Context {D : Disk} {C : Crypto}.
#[local] Open Scope act_scope.

Definition tick {R} : act process R nat := fun w => (inr (io w), set_io (S (io w)) w).
Definition Stat {R} (p : string) : act process R (option Z) := let! n := tick in ret (fst <$> file n p).
Definition ReadFile {R} (p : string) : act process R (option string) :=
  let! n := tick in do! modify (emit (EvRead p)) in ret (snd <$> file n p).
Definition Now {R} : act process R Z := let! n := tick in ret (clock n).

Definition fingerprint (c : leaf) : string := sum256 (Raw c).

Definition stamp (k : KeyPairReloader) : act process load_error fileStamp :=
  let! stC := Stat (CertPath k) in
  match stC with
  | None => exit EStat
  | Some c =>
      let! stK := Stat (KeyPath k) in
      match stK with None => exit EStat | Some y => ret (mkStamp c y) end
  end.

(** What two files make together: [tls.X509KeyPair], and the leaf parsed when it is
    not there. *)
Definition pair_of (x y : string) : option certificate :=
  match X509KeyPair x y with
  | Some (ch, Some l) => Some (mkCert ch l)
  | Some (ch, None) => mkCert ch <$> ParseCertificate ch
  | None => None
  end.

Definition load (k : KeyPairReloader) : act process (load_error * fileStamp) (certificate * fileStamp) :=
  let! o := try (stamp k) in
  match o with
  | inl e => exit (e, zero_stamp)
  | inr s =>
      let! x := ReadFile (CertPath k) in
      match x with
      | None => exit (ERead, s)
      | Some x =>
          let! y := ReadFile (KeyPath k) in
          match y with
          | None => exit (ERead, s)
          | Some y => match pair_of x y with None => exit (EPair, s) | Some c => ret (c, s) end
          end
      end
  end.

(** [true] when it logged. *)
Definition logLoaded {R} (path : string) (l : leaf) : act process R bool :=
  let fp := fingerprint l in
  let! w := get in
  if decide (byPath w !! path = Some fp) then ret false
  else
    do! modify (remember_loaded path fp) in
    do! modify (emit (EvLoaded path fp)) in
    ret true.

Definition set_loaded (c : certificate) (s : fileStamp) (k : KeyPairReloader) : KeyPairReloader :=
  mkReloader (CertPath k) (KeyPath k) (Some c) s zero_stamp (lastTry k) (lastWarn k).
Definition set_lastTry (t : Z) (k : KeyPairReloader) : KeyPairReloader :=
  mkReloader (CertPath k) (KeyPath k) (cert k) (loaded k) (failed k) t (lastWarn k).
Definition set_failed (s : fileStamp) (t : Z) (k : KeyPairReloader) : KeyPairReloader :=
  mkReloader (CertPath k) (KeyPath k) (cert k) (loaded k) s (lastTry k) t.

(** What [current] returns, and the reloader after it; its mutex is held throughout. *)
Definition answer : Type := (load_error + certificate) * KeyPairReloader.

Definition keep_previous (k : KeyPairReloader) (err : load_error) (s : fileStamp) : act process answer answer :=
  match cert k with
  | None => exit (inl err, k)
  | Some c =>
      let! warn := (if negb (stamp_equal s (failed k)) then ret true
                    else let! now := Now in ret (bool_decide (now - lastWarn k >= reloadWarnInterval))) in
      if negb warn then exit (inr c, k)
      else
        let! now := Now in
        do! modify (emit (EvWarned (CertPath k))) in
        exit (inr c, set_failed s now k)
  end.

Definition reload (k : KeyPairReloader) : act process answer answer :=
  let! now := Now in
  let k := set_lastTry now k in
  let! o := try (load k) in
  match o with
  | inr (c, s) =>
      do! logLoaded (CertPath k) (Leaf c) in
      exit (inr c, set_loaded c s k)
  | inl (e, s) => keep_previous k e s
  end.

Definition current_body (k : KeyPairReloader) : act process answer answer :=
  let! o := try (stamp k) in
  match o with
  | inl e => keep_previous k e zero_stamp
  | inr s =>
      match cert k with
      | None => reload k
      | Some c =>
          if stamp_equal s (loaded k) then exit (inr c, k)
          else
            let! recent := (if stamp_equal s (failed k)
                            then let! now := Now in ret (bool_decide (now - lastTry k < reloadRetryInterval))
                            else ret false) in
            if recent then exit (inr c, k) else reload k
      end
  end.

(** [GetCertificate] and [GetClientCertificate] are this. *)
Definition current (l : nat) : process -> option (load_error + certificate) * process := fun w =>
  match heap w !! l with
  | None => (None, w)
  | Some k => let '((r, k'), w') := body (current_body k) w in (Some r, store_reloader l k' w')
  end.

Definition prime (k : KeyPairReloader) : act process load_error KeyPairReloader :=
  let! o := try (load k) in
  match o with
  | inl (e, _) => exit e
  | inr (c, s) =>
      do! logLoaded (CertPath k) (Leaf c) in
      ret (set_loaded c s k)
  end.

(** [Prime] of a reloader its caller holds. *)
Definition Prime (l : nat) : act process load_error unit :=
  let! w := get in
  match heap w !! l with
  | None => ret tt
  | Some k =>
      let! k' := prime k in
      do! modify (store_reloader l k') in
      modify (publish (CertPath k, KeyPath k) l)
  end.

Definition new_reloader (certPath keyPath : string) : KeyPairReloader := mkReloader certPath keyPath None zero_stamp zero_stamp 0 0.

Definition reloaderFor (certPath keyPath : string) : act process load_error nat :=
  let! w := get in
  match byFiles w !! (certPath, keyPath) with
  | Some l => ret l
  | None =>
      let! k := prime (new_reloader certPath keyPath) in
      let! w := get in
      let l := fresh (dom (heap w)) in
      do! modify (store_reloader l k) in
      do! modify (publish (certPath, keyPath) l) in
      ret l
  end.

(** ** TLS configurations ([server.go], [client.go]) *)

Inductive ClientAuthType := RequireAndVerifyClientCert | VerifyClientCertIfGiven.
Record server_config := mkServerConfig { sc_auth : ClientAuthType; sc_clientCAs : string; sc_reloader : nat; sc_min : Z }.
Record client_config := mkClientConfig { cc_rootCAs : string; cc_serverName : string; cc_reloader : nat; cc_min : Z }.
Definition VersionTLS12 : Z := 771.

Definition read_pool (path : string) : act process load_error string :=
  let! b := ReadFile path in
  match b with
  | None => exit ERead
  | Some pem => match AppendCertsFromPEM pem with None => exit (ECA path) | Some pool => ret pool end
  end.

Definition NewServerTLSConfig (certFile keyFile clientCAFile : string) (auth : ClientAuthType) : act process load_error server_config :=
  let! pool := read_pool clientCAFile in
  let! l := reloaderFor certFile keyFile in
  ret (mkServerConfig auth pool l VersionTLS12).

Definition NewServerTransportCredentials (certFile keyFile clientCAFile : string) : act process load_error server_config :=
  NewServerTLSConfig certFile keyFile clientCAFile RequireAndVerifyClientCert.

Definition NewClientTLSConfig (serverCAFile certFile keyFile serverName : string) : act process load_error client_config :=
  let! pool := read_pool serverCAFile in
  let! l := reloaderFor certFile keyFile in
  ret (mkClientConfig pool serverName l VersionTLS12).

(** [CertificateExpiryByCertPath], the reloaders in the order the map gives them. *)
Fixpoint expiries (order : list nat) (out : gmap string Z) (w : process) : gmap string Z * process :=
  match order with
  | [] => (out, w)
  | l :: order' =>
      match current l w with
      | (Some (inr c), w') =>
          expiries order' (match heap w !! l with Some k => <[CertPath k := NotAfter (Leaf c)]> out | None => out end) w'
      | (_, w') => expiries order' out w'
      end
  end.

(** ** Peers ([certinfo.go]) *)

Definition maxSeenPeers : nat := 4096.

Definition NotePeer (c : option leaf) (w : process) : bool * process :=
  match c with
  | None => (false, w)
  | Some l =>
      let id := Subject l +:+ String (byte 0) EmptyString +:+ Issuer l in
      let fp := fingerprint l in
      if decide (default "" (seenPeers w !! id) = fp) then (false, w)
      else
        let m := if decide (maxSeenPeers <= size (seenPeers w))%nat then ∅ else seenPeers w in
        (true, emit (EvPeer (Subject l)) (set_peers (<[id := fp]> m) w))
  end.
End reloader.

(** ** What is on disk *)

(** Nothing is assumed of modification times: a file may be changed and carry the
    time it had before.  [masked p m]: the file at [p] has a time at [m] that it also
    had earlier, and was something else in between. *)
Section laws.
Context {D : Disk} {C : Crypto}.

Definition masked (p : string) (m : nat) : Prop :=
  exists n j t b b', (n <= j <= m)%nat /\ file n p = Some (t, b) /\ file m p = Some (t, b') /\ file j p <> Some (t, b').

(** The file does not change from interaction [lo] to before [hi]. *)
Definition quiet (lo hi : nat) (p : string) (t : Z) (b : string) : Prop :=
  forall n, (lo <= n < hi)%nat -> file n p = Some (t, b).

(** What reading the certificate at [a] and the key at [b] makes. *)
Definition load_at (cp kp : string) (a b : nat) : option certificate :=
  match file a cp, file b kp with
  | Some (_, x), Some (_, y) => pair_of x y
  | _, _ => None
  end.

(** Some load before [n] took stamp [s], then read the files, with result [r]. *)
Definition stamped (cp kp : string) (n : nat) (s : fileStamp) (r : option certificate) : Prop :=
  exists a b a' b', (a <= a' < n)%nat /\ (b <= b' < n)%nat /\
    fst <$> file a cp = Some (st_cert s) /\ fst <$> file b kp = Some (st_key s) /\ load_at cp kp a' b' = r.

Lemma stamped_mono cp kp n m s r : (n <= m)%nat -> stamped cp kp n s r -> stamped cp kp m s r.
Proof. intros H (a & b & a' & b' & ? & ? & ? & ? & ?). exists a, b, a', b'. repeat split; try done; lia. Qed.

Lemma masked_or_same p n j m t b b' : (n <= j <= m)%nat -> file n p = Some (t, b) -> file m p = Some (t, b') ->
  file j p = Some (t, b') \/ masked p m.
Proof. intros H1 H2 H3. destruct (decide (file j p = Some (t, b'))); [by left|right]. by exists n, j, t, b, b'. Qed.

(** Taking the stamp before the files are read is what makes it tell about what was
    read: when the files have that stamp now, they are what was read then, unless a
    change is masked. *)
Lemma stamped_now cp kp n m s r x y : stamped cp kp n s r -> (n <= m)%nat ->
  file m cp = Some (st_cert s, x) -> file m kp = Some (st_key s, y) -> r = pair_of x y \/ masked cp m \/ masked kp m.
Proof.
  intros (a & b & a' & b' & Ha & Hb & Ea & Eb & <-) Hm Ex Ey.
  destruct (file a cp) as [ [t0 x0]|] eqn:Fa; [|done]. destruct (file b kp) as [ [t1 y1]|] eqn:Fb; [|done].
  simpl in Ea, Eb. injection Ea as ->. injection Eb as ->. unfold load_at.
  destruct (masked_or_same cp a a' m _ _ _ ltac:(lia) Fa Ex) as [->|]; [|tauto].
  destruct (masked_or_same kp b b' m _ _ _ ltac:(lia) Fb Ey) as [->|]; [|tauto]. by left.
Qed.

(** The invariant of a reloader: what it serves was loaded under the stamp it
    recorded, and what it gave up on did not load under the stamp it recorded. *)
Record reloader_inv (n : nat) (k : KeyPairReloader) : Prop := {
  ri_loaded c : cert k = Some c -> stamped (CertPath k) (KeyPath k) n (loaded k) (Some c);
  ri_failed : failed k = zero_stamp \/ stamped (CertPath k) (KeyPath k) n (failed k) None;
}.

Lemma reloader_inv_mono n m k : (n <= m)%nat -> reloader_inv n k -> reloader_inv m k.
Proof.
  intros H [H1 H2]. split; [intros c Hc; eapply stamped_mono; [done|auto]|].
  destruct H2 as [|H2]; [by left|right]. by eapply stamped_mono.
Qed.

(** ** What the parts of [current] do *)

(** Only the count of interactions, the log and its memory changed. *)
Record only_io (w w' : process) : Prop := {
  oi_io : (io w <= io w')%nat;
  oi_heap : heap w' = heap w;
  oi_byFiles : byFiles w' = byFiles w;
  oi_peers : seenPeers w' = seenPeers w;
}.
#[local] Instance only_io_refl : Reflexive only_io.
Proof. intros w. by split. Qed.
#[local] Instance only_io_trans : Transitive only_io.
Proof. intros a b c [] []. split; try congruence; lia. Qed.

(** Both files are quiet from [w] to [w'], with stamp [s] and contents [x] and [y]. *)
Definition settled (k : KeyPairReloader) (w w' : process) (s : fileStamp) (x y : string) : Prop :=
  quiet (io w) (io w') (CertPath k) (st_cert s) x /\ quiet (io w) (io w') (KeyPath k) (st_key s) y.

Lemma settled_sub k w w1 w2 w' s x y : (io w <= io w1)%nat -> (io w2 <= io w')%nat -> settled k w w' s x y -> settled k w1 w2 s x y.
Proof. intros H1 H2 [Hx Hy]. split; intros n Hn; [apply Hx|apply Hy]; lia. Qed.

Lemma wp_interaction {R} (Q : R + nat -> process -> Prop) w : Q (inr (io w)) (set_io (S (io w)) w) -> wp tick Q w.
Proof. done. Qed.

Lemma only_io_tick w : only_io w (set_io (S (io w)) w).
Proof. split; simpl; try done; lia. Qed.

Lemma stamp_wp k w :
  wp (stamp k) (fun o w' => only_io w w' /\ events w' = events w /\
    (forall s x y, settled k w w' s x y -> o = inr s) /\
    match o with
    | inl _ => True
    | inr s => exists a b, (io w <= a < io w')%nat /\ (io w <= b < io w')%nat /\
        fst <$> file a (CertPath k) = Some (st_cert s) /\ fst <$> file b (KeyPath k) = Some (st_key s)
    end) w.
Proof.
  unfold stamp, Stat, tick, wp, bind, ret. simpl.
  destruct (file (io w) (CertPath k)) as [ [t x]|] eqn:Fx; simpl.
  - destruct (file (S (io w)) (KeyPath k)) as [ [t' y]|] eqn:Fy; simpl.
    + split; [split; simpl; try done; lia|]. split; [done|]. split.
      * intros s x0 y0 [Hx Hy]. rewrite Hx in Fx by (simpl; lia). rewrite Hy in Fy by (simpl; lia).
        destruct s as [s1 s2]. simpl in *. congruence.
      * exists (io w), (S (io w)). rewrite Fx, Fy. repeat split; simpl; try done; lia.
    + split; [split; simpl; try done; lia|]. split; [done|]. split; [|done].
      intros s x0 y0 [_ Hy]. rewrite Hy in Fy by (simpl; lia). done.
  - split; [split; simpl; try done; lia|]. split; [done|]. split; [|done].
    intros s x0 y0 [Hx _]. rewrite Hx in Fx by (simpl; lia). done.
Qed.

Lemma load_wp k w :
  wp (load k) (fun o w' => only_io w w' /\
    (forall s x y, settled k w w' s x y ->
       match o with inr (c, s') => pair_of x y = Some c /\ s' = s | inl (_, s') => pair_of x y = None /\ s' = s end) /\
    match o with
    | inr (c, s) => stamped (CertPath k) (KeyPath k) (io w') s (Some c)
    | inl (_, s) => s = zero_stamp \/ stamped (CertPath k) (KeyPath k) (io w') s None
    end) w.
Proof.
  unfold load. apply wp_bind, wp_try. eapply wp_mono; [apply stamp_wp|].
  intros [e|s] w1 (O1 & _ & Hq & Hs).
  { apply wp_exit. split; [done|]. split; [|by left]. intros s x y Hset. by specialize (Hq s x y Hset). }
  destruct Hs as (a & b & Ha & Hb & Ea & Eb).
  unfold ReadFile, tick, wp, bind, ret, modify, exit. simpl.
  assert (Hst : forall n r, load_at (CertPath k) (KeyPath k) (io w1) (S (io w1)) = r -> (S (S (io w1)) <= n)%nat ->
     stamped (CertPath k) (KeyPath k) n s r).
  { intros n r E Hn. exists a, b, (io w1), (S (io w1)). repeat split; try done; lia. }
  assert (Hw1 : (io w <= io w1)%nat) by apply O1.
  assert (Hstamp : forall w2 s' x y, (io w1 <= io w2)%nat -> settled k w w2 s' x y -> s = s').
  { intros w2 s' x y Hle Hset. specialize (Hq s' x y). enough (@inr load_error _ s = inr s') by congruence.
    apply Hq. eapply settled_sub; [reflexivity| |exact Hset]. done. }
  unfold load_at in Hst.
  destruct (file (io w1) (CertPath k)) as [ [t x]|] eqn:Fx; simpl.
  2: { split; [etrans; [exact O1|split; simpl; try done; lia]|]. split.
    - intros s' x y Hset. destruct Hset as [Hx _]. rewrite Hx in Fx by (simpl; lia). done.
    - right. exists a, b, (io w1), (io w1). unfold load_at. rewrite Fx. repeat split; simpl; try done; lia. }
  destruct (file (S (io w1)) (KeyPath k)) as [ [t' y]|] eqn:Fy; simpl.
  2: { split; [etrans; [exact O1|split; simpl; try done; lia]|]. split.
    - intros s' x0 y0 Hset. destruct Hset as [_ Hy]. rewrite Hy in Fy by (simpl; lia). done.
    - right. by apply Hst. }
  assert (Hset : forall s' x0 y0, settled k w (set_io (S (S (io w1))) w1) s' x0 y0 -> x = x0 /\ y = y0 /\ s = s').
  { intros s' x0 y0 HS. assert (s = s') as <- by (eapply Hstamp; [|exact HS]; simpl; lia).
    destruct HS as [Hx Hy]. rewrite Hx in Fx by (simpl; lia). rewrite Hy in Fy by (simpl; lia).
    injection Fx as _ ->. injection Fy as _ ->. done. }
  destruct (pair_of x y) as [c|] eqn:P; simpl.
  - split; [etrans; [exact O1|split; simpl; try done; lia]|]. split; [|by apply Hst].
    intros s' x0 y0 HS. destruct (Hset s' x0 y0 HS) as (-> & -> & ->). done.
  - split; [etrans; [exact O1|split; simpl; try done; lia]|]. split; [|right; by apply Hst].
    intros s' x0 y0 HS. destruct (Hset s' x0 y0 HS) as (-> & -> & ->). done.
Qed.

Lemma logLoaded_wp {R} path l w : wp (@logLoaded C R path l) (fun o w' => only_io w w' /\ io w' = io w /\ exists b, o = inr b) w.
Proof. unfold logLoaded. wp_auto; (split; [done|]; split; [done|eauto]). Qed.

(** ** What [current] answers *)

Definition loaded_once (k : KeyPairReloader) (n : nat) (c : certificate) : Prop :=
  exists a b, (a < n)%nat /\ (b < n)%nat /\ load_at (CertPath k) (KeyPath k) a b = Some c.

(** Why the pair on disk is not presented although it loads: a change of it is masked,
    and the stamp is that of the load that is served, or of one that failed less than
    the retry interval ago. *)
Definition stale (k : KeyPairReloader) (w w' : process) (s : fileStamp) : Prop :=
  (s = loaded k /\ (masked (CertPath k) (io w) \/ masked (KeyPath k) (io w))) \/
  (s = failed k /\ (masked (CertPath k) (io w) \/ masked (KeyPath k) (io w) \/ s = zero_stamp) /\
   exists n, (io w <= n < io w')%nat /\ clock n - lastTry k < reloadRetryInterval).

Record answers (k : KeyPairReloader) (w w' : process) (r : load_error + certificate) (k' : KeyPairReloader) : Prop := {
  an_io : only_io w w';
  an_paths : CertPath k' = CertPath k /\ KeyPath k' = KeyPath k;
  an_inv : reloader_inv (io w') k';
  an_served c : r = inr c -> cert k' = Some c /\ loaded_once k (io w') c;
  an_keeps c : cert k = Some c -> exists c', r = inr c';
  an_fresh s x y c : settled k w w' s x y -> pair_of x y = Some c ->
    r = inr c \/ exists c0, cert k = Some c0 /\ r = inr c0 /\ stale k w w' s;
  an_previous s x y c : settled k w w' s x y -> pair_of x y = None -> cert k = Some c -> r = inr c;
}.

Lemma stamped_once k n s c : stamped (CertPath k) (KeyPath k) n s (Some c) -> loaded_once k n c.
Proof. intros (a & b & a' & b' & ? & ? & _ & _ & E). exists a', b'. repeat split; try done; lia. Qed.

(** After a load that failed, or no load at all. *)
Lemma keep_previous_wp k0 w0 k e s w :
  only_io w0 w -> reloader_inv (io w) k -> CertPath k = CertPath k0 -> KeyPath k = KeyPath k0 -> cert k = cert k0 ->
  (s = zero_stamp \/ stamped (CertPath k) (KeyPath k) (io w) s None) ->
  (forall s' x y c, settled k0 w0 w s' x y -> pair_of x y <> Some c) ->
  wp (keep_previous k e s) (fun o w' => exists r k', o = inl (r, k') /\ answers k0 w0 w' r k') w.
Proof.
  intros O I Ec Ek Ecert Hs Hno. unfold keep_previous.
  assert (Hans : forall w' r k', (io w <= io w')%nat -> only_io w0 w' -> reloader_inv (io w') k' ->
    CertPath k' = CertPath k0 -> KeyPath k' = KeyPath k0 -> cert k' = cert k ->
    match cert k with None => exists e, r = inl e | Some c => r = inr c end -> answers k0 w0 w' r k').
  { intros w' r k' Hle O' I' Pc Pk Hc Hr. split; try done.
    - intros c ->. destruct (cert k) as [c'|] eqn:E; [|by destruct Hr]. injection Hr as ->. split; [done|].
      apply (stamped_once k0 _ (loaded k)). rewrite <- Ec, <- Ek. eapply stamped_mono; [exact Hle|]. by apply I.
    - intros c Hc0. rewrite <- Ecert in Hc0. rewrite Hc0 in Hr. eauto.
    - intros s' x y c HS HP. exfalso. eapply Hno; [|exact HP]. eapply settled_sub; [reflexivity|exact Hle|exact HS].
    - intros s' x y c _ _ Hc0. rewrite <- Ecert in Hc0. by rewrite Hc0 in Hr. }
  destruct (cert k) as [c|] eqn:E.
  2: { apply wp_exit. eexists _, _. split; [reflexivity|]. apply Hans; eauto. }
  assert (Hwarn : forall w1 now, only_io w w1 -> answers k0 w0 (emit (EvWarned (CertPath k)) w1) (inr c) (set_failed s now k)).
  { intros w1 now O1. apply Hans; simpl; try done; [apply O1|etrans; [exact O|]; etrans; [exact O1|done]|].
    split; simpl.
    - intros c' Hc'. eapply stamped_mono; [apply O1|]. by apply I.
    - destruct Hs as [|Hs]; [by left|right]. eapply stamped_mono; [apply O1|done]. }
  assert (Hstay : forall w1, only_io w w1 -> answers k0 w0 w1 (inr c) k).
  { intros w1 O1. apply Hans; try done; [apply O1|etrans; [exact O|exact O1]|].
    eapply reloader_inv_mono; [apply O1|done]. }
  destruct (negb (stamp_equal s (failed k))); unfold Now, tick, wp, bind, ret, modify, exit; simpl.
  - eexists _, _. split; [reflexivity|]. apply Hwarn. split; simpl; try done; lia.
  - case_bool_decide; simpl; (eexists _, _; split; [reflexivity|]).
    + apply Hwarn. split; simpl; try done; lia.
    + apply Hstay. split; simpl; try done; lia.
Qed.

Lemma reload_wp k w0 w : only_io w0 w -> reloader_inv (io w) k ->
  wp (reload k) (fun o w' => exists r k', o = inl (r, k') /\ answers k w0 w' r k') w.
Proof.
  intros O I. unfold reload, Now. wp_auto. apply wp_interaction. wp_auto.
  set (k1 := set_lastTry (clock (io w)) k). set (w1 := set_io (S (io w)) w).
  assert (O1 : only_io w0 w1) by (etrans; [exact O|split; simpl; try done; lia]).
  assert (I1 : reloader_inv (io w1) k) by (eapply reloader_inv_mono; [|exact I]; simpl; lia).
  eapply wp_mono; [apply load_wp|]. intros [ [e s]|[c s] ] w2 (O2 & Hq & Hs).
  - apply keep_previous_wp; try done; [by etrans| |].
    + eapply (reloader_inv_mono (io w1)); [apply O2|]. destruct I1. by split.
    + intros s' x y c HS. destruct (Hq s' x y) as [Hn _]; [|congruence].
      eapply (settled_sub k w0); [apply O1|reflexivity|exact HS].
  - apply wp_bind. eapply wp_mono; [apply logLoaded_wp|]. intros o w3 (O3 & Eio & b & ->). apply wp_exit.
    eexists _, _. split; [reflexivity|].
    assert (HQ : forall s' x y, settled k w0 w3 s' x y -> pair_of x y = Some c).
    { intros s' x y HS. apply (Hq s' x y). eapply (settled_sub k w0); [apply O1|apply O3|exact HS]. }
    split; simpl; try done.
    + by etrans; [|etrans].
    + split; simpl; [|by left]. intros c' [= ->]. rewrite Eio. done.
    + intros c' [= ->]. split; [done|]. rewrite Eio. by eapply stamped_once.
    + eauto.
    + intros s' x y c' HS HP. left. rewrite (HQ _ _ _ HS) in HP. congruence.
    + intros s' x y c' HS HP. rewrite (HQ _ _ _ HS) in HP. congruence.
Qed.

Lemma stamp_equal_eq a b : stamp_equal a b = true -> a = b.
Proof.
  unfold stamp_equal. intros [H1%bool_decide_eq_true H2%bool_decide_eq_true]%andb_true_iff. destruct a, b. simpl in *. congruence.
Qed.

(** The files have had stamp [s], and were then read with result [r]: as long as they
    are quiet they make [r], or a change is masked. *)
Lemma settled_stamped k w w' s r x y :
  stamped (CertPath k) (KeyPath k) (io w) s r -> settled k w w' s x y -> (io w < io w')%nat ->
  r = pair_of x y \/ masked (CertPath k) (io w) \/ masked (KeyPath k) (io w).
Proof. intros Hst [Hx Hy] Hlt. eapply stamped_now; [exact Hst|reflexivity|apply Hx; lia|apply Hy; lia]. Qed.

Lemma current_wp k w : reloader_inv (io w) k ->
  wp (current_body k) (fun o w' => exists r k', o = inl (r, k') /\ answers k w w' r k') w.
Proof.
  intros I. unfold current_body. apply wp_bind, wp_try. eapply wp_mono; [apply stamp_wp|].
  intros [e|s] w1 (O1 & _ & Hq & Hs).
  { apply keep_previous_wp; try done; [eapply reloader_inv_mono; [apply O1|done]|by left|].
    intros s' x y c HS. by specialize (Hq _ _ _ HS). }
  destruct Hs as (a & b & Ha & Hb & _). assert (Hlt : (io w < io w1)%nat) by lia.
  assert (I1 : reloader_inv (io w1) k) by (eapply reloader_inv_mono; [apply O1|done]).
  destruct (cert k) as [c|] eqn:Ec; [|by apply reload_wp].
  assert (Hserve : forall w2 (H : only_io w1 w2),
    (forall s' x y, settled k w w2 s' x y -> pair_of x y = Some c \/ pair_of x y = None \/ stale k w w2 s') ->
    answers k w w2 (inr c) k).
  { intros w2 O2 HP. assert (I2 : reloader_inv (io w2) k) by (eapply reloader_inv_mono; [apply O2|done]).
    split; try done; [by etrans| |eauto| |].
    - intros c' [= <-]. split; [done|]. eapply stamped_once. by apply I2.
    - intros s' x y c' HS HE. destruct (HP _ _ _ HS) as [?|[?|?]]; [left; congruence|congruence|right; by exists c].
    - intros s' x y c' _ _ Hc. congruence. }
  destruct (stamp_equal s (loaded k)) eqn:El.
  { apply wp_exit. eexists _, _. split; [reflexivity|]. apply Hserve; [done|]. intros s' x y HS.
    apply stamp_equal_eq in El. assert (s' = loaded k) as -> by (specialize (Hq _ _ _ HS); congruence).
    destruct (settled_stamped _ _ _ _ _ _ _ (ri_loaded _ _ I c Ec) HS Hlt) as [Hr|Hm]; [by left|right; right]. left. done. }
  destruct (stamp_equal s (failed k)) eqn:Ef; unfold Now; wp_auto.
  2: by apply reload_wp.
  apply wp_interaction. wp_auto; pose proof (only_io_tick w1) as O2; set (w2 := set_io (S (io w1)) w1) in *.
  - eexists _, _. split; [reflexivity|]. apply Hserve; [done|]. intros s' x y HS. right.
    assert (HS1 : settled k w w1 s' x y) by (eapply settled_sub; [reflexivity|apply O2|exact HS]).
    apply stamp_equal_eq in Ef. assert (s' = failed k) as -> by (specialize (Hq _ _ _ HS1); congruence).
    assert (Hrec : exists n, (io w <= n < io w2)%nat /\ clock n - lastTry k < reloadRetryInterval)
      by (exists (io w1); split; [unfold w2; simpl; lia|by eapply bool_decide_eq_true]).
    destruct (ri_failed _ _ I) as [Hz|Hst]; [right; right; split; [done|]; split; [by right; right|done]|].
    destruct (settled_stamped _ _ _ _ _ _ _ Hst HS1 Hlt) as [Hr|Hm]; [by left|right]. right. split; [done|]. split; [|done].
    destruct Hm; auto.
  - apply reload_wp; [by etrans|]. eapply reloader_inv_mono; [apply O2|done].
Qed.

(** ** The process over time *)

(** Anything the process does with its reloaders, in any order, while time passes and
    files change. *)
Inductive step : process -> process -> Prop :=
| step_time d w : step w (set_io (d + io w) w)
| step_new certPath keyPath l w : heap w !! l = None -> step w (store_reloader l (new_reloader certPath keyPath) w)
| step_current l w : step w (current l w).2
| step_Prime l w : step w (Prime l w).2
| step_server certFile keyFile caFile auth w : step w (NewServerTLSConfig certFile keyFile caFile auth w).2
| step_client caFile certFile keyFile name w : step w (NewClientTLSConfig caFile certFile keyFile name w).2
| step_peer c w : step w (NotePeer c w).2.

Definition start : process := mkProcess 0 ∅ ∅ ∅ ∅ [].
Definition reachable (w : process) : Prop := rtc step start w.

Record process_inv (w : process) : Prop := {
  pi_reloaders l k : heap w !! l = Some k -> reloader_inv (io w) k;
  pi_registered f l : byFiles w !! f = Some l -> exists k, heap w !! l = Some k /\ f = (CertPath k, KeyPath k) /\ is_Some (cert k);
  pi_peers : (size (seenPeers w) <= maxSeenPeers)%nat;
}.

Lemma only_io_inv w w' : only_io w w' -> process_inv w -> process_inv w'.
Proof.
  intros [Hio Hh Hf Hp] [I1 I2 I3]. split; rewrite ?Hh, ?Hf, ?Hp; [|done|done].
  intros l k Hk. eapply reloader_inv_mono; [exact Hio|eauto].
Qed.

(** A reloader changes in place, keeping its files and, if it had one, a certificate. *)
Lemma store_inv l k' w : process_inv w -> reloader_inv (io w) k' ->
  (forall k, heap w !! l = Some k -> CertPath k' = CertPath k /\ KeyPath k' = KeyPath k /\ (is_Some (cert k) -> is_Some (cert k'))) ->
  process_inv (store_reloader l k' w).
Proof.
  intros [I1 I2 I3] Hk' Hold. split; simpl; [|intros f l' Hf|done].
  - intros j k [ [_ <-]|[_ Hj] ]%lookup_insert_Some; [done|eauto].
  - destruct (I2 f l' Hf) as (k & Hk & -> & Hc). destruct (decide (l = l')) as [<-|Hne].
    + exists k'. rewrite lookup_insert_eq. destruct (Hold k Hk) as (-> & -> & Hs). auto.
    + exists k. by rewrite lookup_insert_ne.
Qed.

Lemma publish_inv l k w : process_inv w -> heap w !! l = Some k -> is_Some (cert k) -> process_inv (publish (CertPath k, KeyPath k) l w).
Proof.
  intros [I1 I2 I3] Hk Hc. split; simpl; [done| |done].
  intros f j [ [<- <-]|[_ Hf] ]%lookup_insert_Some; [|eauto]. by exists k.
Qed.

Lemma prime_wp k w :
  wp (prime k) (fun o w' => only_io w w' /\ match o with
    | inl _ => True
    | inr k' => reloader_inv (io w') k' /\ CertPath k' = CertPath k /\ KeyPath k' = KeyPath k /\ is_Some (cert k')
    end) w.
Proof.
  unfold prime. apply wp_bind, wp_try. eapply wp_mono; [apply load_wp|]. intros [ [e s]|[c s] ] w1 (O1 & _ & Hs); [by apply wp_exit|].
  apply wp_bind. eapply wp_mono; [apply logLoaded_wp|]. intros o w2 (O2 & Eio & b & ->). apply wp_ret.
  split; [by etrans|]. split; [|done]. split; simpl; [|by left]. intros c' [= <-]. by rewrite Eio.
Qed.

Lemma reloaderFor_wp certPath keyPath w : process_inv w ->
  wp (reloaderFor certPath keyPath) (fun o w' => process_inv w' /\
    match o with inl _ => True | inr l => byFiles w' !! (certPath, keyPath) = Some l end) w.
Proof.
  intros I. unfold reloaderFor. wp_auto; [done|]. eapply wp_mono; [apply prime_wp|].
  intros [e|k] w1 (O1 & Hk); [split; [by eapply only_io_inv|done]|]. destruct Hk as (I1 & Hc & Hp & Hs). wp_auto.
  set (l := fresh (dom (heap w1))).
  assert (Hl : heap w1 !! l = None) by (apply not_elem_of_dom, is_fresh).
  split; [|simpl; by rewrite lookup_insert_eq].
  change (certPath, keyPath) with (CertPath (new_reloader certPath keyPath), KeyPath (new_reloader certPath keyPath)).
  rewrite <- Hc, <- Hp. apply publish_inv; [|simpl; by rewrite lookup_insert_eq|done].
  apply store_inv; [by eapply only_io_inv|done|]. intros k0 Hk0. congruence.
Qed.

Lemma read_pool_wp path w : wp (read_pool path) (fun _ w' => only_io w w') w.
Proof.
  unfold read_pool, ReadFile. wp_auto. apply wp_interaction. wp_auto; split; simpl; try done; lia.
Qed.

Lemma config_wp {A} path certFile keyFile (f : string -> nat -> A) w : process_inv w ->
  wp (let! pool := read_pool path in let! l := reloaderFor certFile keyFile in ret (f pool l))%act
     (fun o w' => process_inv w' /\ match o with
       | inl _ => True
       | inr a => exists pool l, a = f pool l /\ byFiles w' !! (certFile, keyFile) = Some l
       end) w.
Proof.
  intros I. apply wp_bind. eapply wp_mono; [apply read_pool_wp|]. intros [e|pool] w1 O1; [split; [by eapply only_io_inv|done]|].
  apply wp_bind. eapply wp_mono; [apply reloaderFor_wp; by eapply only_io_inv|].
  intros [e|l] w2 [I2 Hl]; [done|]. apply wp_ret. eauto.
Qed.

Lemma current_answers l k w : process_inv w -> heap w !! l = Some k ->
  exists r k' w', current l w = (Some r, store_reloader l k' w') /\ answers k w w' r k'.
Proof.
  intros I Hk. pose proof (current_wp k w (pi_reloaders _ I _ _ Hk)) as H. unfold current. rewrite Hk.
  unfold wp in H. unfold body. destruct (current_body k w) as [o w'] eqn:E. destruct H as (r & k' & -> & A). eauto.
Qed.

Lemma step_inv w w' : step w w' -> process_inv w -> process_inv w'.
Proof.
  intros H I. destruct H as [d w|cp kp l w Hl|l w|l w|cf kf caf auth w|caf cf kf name w|[c|] w].
  - eapply only_io_inv; [|exact I]. split; simpl; try done; lia.
  - apply store_inv; [done| |intros k; congruence]. split; simpl; [done|by left].
  - destruct (heap w !! l) as [k|] eqn:Hk.
    + destruct (current_answers l k w I Hk) as (r & k' & w' & -> & [O [P1 P2] HI Hs Hk' _ _]). simpl.
      apply store_inv; [by eapply only_io_inv|done|]. rewrite (oi_heap _ _ O), Hk. intros k0 [= <-].
      split; [done|]. split; [done|]. intros [c Hc]. destruct (Hk' c Hc) as [c' ->]. destruct (Hs c' eq_refl) as [-> _]. eauto.
    + unfold current. by rewrite Hk.
  - assert (Hw : wp (Prime l) (fun _ w' => process_inv w') w).
    { unfold Prime. wp_auto; [|done]. rename k into k0. eapply wp_mono; [apply prime_wp|].
      intros [e|k'] w1 (O1 & Hk'); [by eapply only_io_inv|]. destruct Hk' as (I1 & Hc & Hp & Hs). wp_auto.
      rewrite <- Hc, <- Hp. apply publish_inv; [|simpl; by rewrite lookup_insert_eq|done].
      apply store_inv; [by eapply only_io_inv|done|]. rewrite (oi_heap _ _ O1). intros k1 Hk1. replace k1 with k0 by congruence. done. }
    unfold wp in Hw. by destruct (Prime l w).
  - pose proof (config_wp caf cf kf (fun pool l => mkServerConfig auth pool l VersionTLS12) w I) as H. unfold wp in H.
    unfold NewServerTLSConfig. by destruct (bind _ _ w) as [o w'], H.
  - pose proof (config_wp caf cf kf (fun pool l => mkClientConfig pool name l VersionTLS12) w I) as H. unfold wp in H.
    unfold NewClientTLSConfig. by destruct (bind _ _ w) as [o w'], H.
  - unfold NotePeer. cbv zeta. case_decide; [done|]. destruct I as [I1 I2 I3]. split; simpl; [done|done|].
    case_decide as Hm.
    + rewrite insert_empty, map_size_singleton. unfold maxSeenPeers. lia.
    + rewrite map_size_insert. destruct (seenPeers w !! _); simpl; lia.
  - done.
Qed.

Lemma process_reachable w : reachable w -> process_inv w.
Proof.
  unfold reachable. intros H. enough (process_inv start -> process_inv w) as HH.
  { apply HH. split; simpl; [done|done|]. rewrite map_size_empty. lia. }
  induction H; eauto using step_inv.
Qed.

(** C20: Certificates stay in service and follow the disk.  Whatever the process did
    before, however files change while it reads them: a certificate that is presented
    was loaded from the two files of its reloader and made a pair; a reloader
    listeners and clients were given always has one to present, also when the files
    are missing or broken; and a handshake during which the files do not change
    presents the pair that is on disk if that loads, the previous one otherwise.  The
    one exception is a pair whose change the modification times do not show ([masked]):
    the previous pair is presented then, while the times are those of the load it came
    from, or those of a load that failed less than the retry interval ago. *)
Theorem renewed_pair_served w l k (HR : reachable w) (Hk : heap w !! l = Some k) :
  exists r w', current l w = (Some r, w') /\
    (forall c, r = inr c -> loaded_once k (io w') c) /\
    (forall f, byFiles w !! f = Some l -> f = (CertPath k, KeyPath k) /\ exists c, r = inr c) /\
    (forall s x y, settled k w w' s x y ->
       match pair_of x y, cert k with
       | Some c, None | None, Some c => r = inr c
       | Some c, Some c0 => r = inr c \/ (r = inr c0 /\ stale k w w' s)
       | None, None => True
       end).
Proof.
  pose proof (process_reachable w HR) as I. destruct (current_answers l k w I Hk) as (r & k' & w' & E & [O P HI Hs Hkeep Hf Hp]).
  exists r, (store_reloader l k' w'). split; [exact E|]. split; [intros c Hc; apply (Hs c Hc)|]. split.
  - intros f Hreg. destruct (pi_registered _ I f l Hreg) as (k0 & Hk0 & -> & [c Hc]).
    replace k0 with k in * by congruence. split; [done|]. eauto.
  - intros s x y HS. destruct (pair_of x y) as [c|] eqn:EP.
    + destruct (Hf s x y c HS EP) as [Hr|(c0 & Hc0 & Hr)]; [destruct (cert k); [by left|done]|]. rewrite Hc0. by right.
    + destruct (cert k) as [c|] eqn:Ec; [by eapply Hp|done].
Qed.

(** The credentials of gRPC servers refuse peers without a verified certificate, and
    present the certificate of the process's one reloader for their files. *)
Lemma server_credentials certFile keyFile caFile w : reachable w ->
  wp (NewServerTransportCredentials certFile keyFile caFile) (fun o w' => match o with
    | inl _ => True
    | inr c => sc_auth c = RequireAndVerifyClientCert /\ sc_min c = VersionTLS12 /\
        byFiles w' !! (certFile, keyFile) = Some (sc_reloader c)
    end) w.
Proof.
  intros HR. eapply wp_mono; [apply (config_wp caFile certFile keyFile
    (fun pool l => mkServerConfig RequireAndVerifyClientCert pool l VersionTLS12)), process_reachable, HR|].
  intros [e|c] w' [_ H]; [done|]. destruct H as (pool & l & -> & Hl). done.
Qed.
End laws.

(** ** A renewal, run

    The certificate is replaced before interaction 20, its key before 30. *)

Definition renewal : Disk := {|
  file n p :=
    if decide (p = "cert") then Some (if (n <? 20)%nat then (1, "old") else (2, "new"))
    else if decide (p = "key") then Some (if (n <? 30)%nat then (1, "old") else (3, "new"))
    else if decide (p = "ca") then Some (1, "ca") else None;
  clock n := 1000 * Z.of_nat n |}.

Definition toy_crypto : Crypto := {|
  X509KeyPair x y := if decide (x = y) then Some (x, None) else None;
  ParseCertificate ch := Some (mkLeaf ch "sandbox" "ca" 0);
  AppendCertsFromPEM b := Some b;
  sum256 s := s |}.

Definition listening : process := (@NewServerTLSConfig renewal toy_crypto "cert" "key" "ca" RequireAndVerifyClientCert start).2.
Definition served (n : nat) : option (load_error + certificate) := (@current renewal toy_crypto 0 (set_io n listening)).1.

Example served_over_time :
  (fun n => match served n with Some (inr c) => chain c | _ => "" end) <$> [10; 18; 19; 22; 30]%nat = ["old"; "old"; "old"; "old"; "new"].
Proof. by vm_compute. Qed.

Lemma renewed_pair_served_witness :
  exists r w', @current renewal toy_crypto 0 (set_io (25 + io listening) listening) = (Some r, w') /\ exists c, r = inr c /\ chain c = "new".
Proof.
  assert (HR : @reachable renewal toy_crypto (set_io (25 + io listening) listening)).
  { eapply rtc_l; [apply (step_server (D := renewal) (C := toy_crypto) "cert" "key" "ca" RequireAndVerifyClientCert)|].
    eapply rtc_l; [apply (step_time 25)|]. reflexivity. }
  assert (Hk : heap (set_io (25 + io listening) listening) !! 0%nat =
    Some (mkReloader "cert" "key" (Some (mkCert "old" (mkLeaf "old" "sandbox" "ca" 0))) (mkStamp 1 1) zero_stamp 0 0)) by (vm_compute; reflexivity).
  destruct (renewed_pair_served (D := renewal) (C := toy_crypto) _ _ _ HR Hk) as (r & w' & E & _ & _ & HS).
  exists r, w'. split; [exact E|]. exists (mkCert "new" (mkLeaf "new" "sandbox" "ca" 0)). split; [|reflexivity].
  destruct (HS (mkStamp 2 3) "new" "new") as [H|[_ [ [H _]|[H _] ] ] ]; [|exact H|discriminate H|discriminate H].
  split; intros n [Hn _]; change (30 <= n)%nat in Hn; simpl; rewrite (proj2 (Nat.ltb_ge _ _)) by lia; reflexivity.
Defined.

(** The exception runs: the certificate is replaced before interaction 20 and its key
    before 30, both within the tick of the clock the files are stamped with; a
    handshake in between fails to load, and the pair that is complete then is presented
    only once the retry interval has passed (interactions are a tenth of a second apart). *)
Definition one_tick : Disk := {|
  file n p :=
    if decide (p = "cert") then Some (if (n <? 20)%nat then (1, "old") else (2, "new"))
    else if decide (p = "key") then Some (if (n <? 20)%nat then (1, "old") else if (n <? 30)%nat then (2, "old") else (2, "new"))
    else if decide (p = "ca") then Some (1, "ca") else None;
  clock n := (second / 10) * Z.of_nat n |}.

Definition half_renewed : process :=
  (@current one_tick toy_crypto 0 (set_io 22 (@NewServerTLSConfig one_tick toy_crypto "cert" "key" "ca" RequireAndVerifyClientCert start).2)).2.

Example masked_renewal_waits :
  (fun n => match (@current one_tick toy_crypto 0 (set_io n half_renewed)).1 with Some (inr c) => chain c | _ => "" end) <$> [31; 50]%nat = ["old"; "new"].
Proof. by vm_compute. Qed.
End Certs.
