(* ===== verification/Metrics.v ===== *)
(** * Metrics ([internal/metrics])

    The two recorders as the values their instruments hold, every observation, and the
    HTTP middleware with its requests in any interleaving: the gauge counts the requests
    in progress, and no request can add a series that is not already allowed for. *)

From S2P Require Import Prelude GoStrings Wire.

Module Metrics.
Import GoStrings.

(** ** Instruments *)

(** Label values to counts, and to durations in nanoseconds. *)
Abbreviation CounterVec := (gmap (list string) Z).
Abbreviation HistogramVec := (gmap (list string) (list Z)).

Definition inc (l : list string) (v : CounterVec) : CounterVec := <[l := default 0 (v !! l) + 1]> v.
Definition observe (l : list string) (d : Z) (v : HistogramVec) : HistogramVec := <[l := default [] (v !! l) ++ [d]]> v.

Definition itoa (n : Z) : string := of_chars (Wire.format_int n).
Definition resultLabel (success : bool) : string := if success then "success" else "error".

(** *** The API's recorder *)

(** [reg]: whether there is a registry. *)
Record APIRecorder := mkAPI {
  reg : bool; httpRequests : CounterVec; httpDuration : HistogramVec; httpInflight : Z; httpLimited : CounterVec; sandboxOps : CounterVec; placements : CounterVec;
}.

Definition NewAPIRecorder (enabled : bool) : APIRecorder := mkAPI enabled ∅ ∅ 0 ∅ ∅ ∅.

Definition api_ObserveHTTP (route method : string) (status dur : Z) (r : APIRecorder) : APIRecorder :=
  if negb (reg r) then r
  else mkAPI (reg r) (inc [route; method; itoa status] (httpRequests r)) (observe [route; method] dur (httpDuration r)) (httpInflight r) (httpLimited r) (sandboxOps r) (placements r).

Definition api_AddHTTPInFlight (delta : Z) (r : APIRecorder) : APIRecorder :=
  if negb (reg r) then r
  else mkAPI (reg r) (httpRequests r) (httpDuration r) (httpInflight r + delta) (httpLimited r) (sandboxOps r) (placements r).

Definition ObserveSandboxOp (operation : string) (success : bool) (r : APIRecorder) : APIRecorder :=
  if negb (reg r) then r
  else mkAPI (reg r) (httpRequests r) (httpDuration r) (httpInflight r) (httpLimited r) (inc [operation; resultLabel success] (sandboxOps r)) (placements r).

Definition ObservePlacement (result : string) (r : APIRecorder) : APIRecorder :=
  if negb (reg r) then r
  else mkAPI (reg r) (httpRequests r) (httpDuration r) (httpInflight r) (httpLimited r) (sandboxOps r) (inc [result] (placements r)).

Definition api_ObserveRequestLimited (limit : string) (r : APIRecorder) : APIRecorder :=
  if negb (reg r) then r
  else mkAPI (reg r) (httpRequests r) (httpDuration r) (httpInflight r) (inc [limit] (httpLimited r)) (sandboxOps r) (placements r).

(** *** The runner's recorder *)

Record RunnerRecorder := mkRunner {
  r_reg : bool; r_httpRequests : CounterVec; r_httpDuration : HistogramVec; r_httpInflight : Z; r_httpLimited : CounterVec;
  containerOps : CounterVec; containerOpDuration : HistogramVec; lifecycleSteps : HistogramVec; guestDeaths : Z; recoveries : CounterVec;
}.

Definition NewRunnerRecorder (enabled : bool) : RunnerRecorder := mkRunner enabled ∅ ∅ 0 ∅ ∅ ∅ ∅ 0 ∅.

(** What an enabled recorder does; a disabled one does nothing. *)
Definition when_on (f : RunnerRecorder -> RunnerRecorder) (r : RunnerRecorder) : RunnerRecorder := if r_reg r then f r else r.

(** The methods that a runtime without a recorder may call too. *)
Definition when_set (f : RunnerRecorder -> RunnerRecorder) (r : option RunnerRecorder) : option RunnerRecorder := when_on f <$> r.

Definition runner_ObserveHTTP (route method : string) (status dur : Z) : RunnerRecorder -> RunnerRecorder :=
  when_on (fun r => mkRunner (r_reg r) (inc [route; method; itoa status] (r_httpRequests r)) (observe [route; method] dur (r_httpDuration r)) (r_httpInflight r) (r_httpLimited r)
                      (containerOps r) (containerOpDuration r) (lifecycleSteps r) (guestDeaths r) (recoveries r)).

Definition runner_AddHTTPInFlight (delta : Z) : RunnerRecorder -> RunnerRecorder :=
  when_on (fun r => mkRunner (r_reg r) (r_httpRequests r) (r_httpDuration r) (r_httpInflight r + delta) (r_httpLimited r)
                      (containerOps r) (containerOpDuration r) (lifecycleSteps r) (guestDeaths r) (recoveries r)).

Definition runner_ObserveRequestLimited (limit : string) : option RunnerRecorder -> option RunnerRecorder :=
  when_set (fun r => mkRunner (r_reg r) (r_httpRequests r) (r_httpDuration r) (r_httpInflight r) (inc [limit] (r_httpLimited r))
                      (containerOps r) (containerOpDuration r) (lifecycleSteps r) (guestDeaths r) (recoveries r)).

Definition ObserveContainerOp (operation : string) (success : bool) (dur : Z) : RunnerRecorder -> RunnerRecorder :=
  when_on (fun r => mkRunner (r_reg r) (r_httpRequests r) (r_httpDuration r) (r_httpInflight r) (r_httpLimited r)
                      (inc [operation; resultLabel success] (containerOps r)) (observe [operation] dur (containerOpDuration r)) (lifecycleSteps r) (guestDeaths r) (recoveries r)).

Definition ObserveLifecycleStep (operation step : string) (dur : Z) : option RunnerRecorder -> option RunnerRecorder :=
  when_set (fun r => mkRunner (r_reg r) (r_httpRequests r) (r_httpDuration r) (r_httpInflight r) (r_httpLimited r)
                      (containerOps r) (containerOpDuration r) (observe [operation; step] dur (lifecycleSteps r)) (guestDeaths r) (recoveries r)).

Definition ObserveGuestDeath : option RunnerRecorder -> option RunnerRecorder :=
  when_set (fun r => mkRunner (r_reg r) (r_httpRequests r) (r_httpDuration r) (r_httpInflight r) (r_httpLimited r)
                      (containerOps r) (containerOpDuration r) (lifecycleSteps r) (guestDeaths r + 1) (recoveries r)).

Definition ObserveRecovery (success : bool) : option RunnerRecorder -> option RunnerRecorder :=
  when_set (fun r => mkRunner (r_reg r) (r_httpRequests r) (r_httpDuration r) (r_httpInflight r) (r_httpLimited r)
                      (containerOps r) (containerOpDuration r) (lifecycleSteps r) (guestDeaths r) (inc [resultLabel success] (recoveries r))).

(** ** The middleware *)

Definition known_methods : list string := ["GET"; "HEAD"; "POST"; "PUT"; "PATCH"; "DELETE"; "CONNECT"; "OPTIONS"; "TRACE"].

Definition methodLabel (method : string) : string := if decide (method ∈ known_methods) then method else "other".

(** What follows the first space, if one comes after the first character. *)
Fixpoint after_space (l : list ascii) : option (list ascii) :=
  match l with
  | [] => None
  | c :: l' => if decide (c = byte 32) then Some l' else after_space l'
  end.

Definition routeFromPattern (pattern : string) : string :=
  match chars pattern with
  | [] => "unmatched"
  | c :: l => if decide (c = byte 32) then pattern else match after_space l with Some r => of_chars r | None => pattern end
  end.

(** The [statusRecorder] of a handler that wrote these headers. *)
Definition statusRecorder (codes : list Z) : Z := match codes with [] => 200 | c :: _ => c end.

(** [HTTPObserver] *)
Class HTTPObserver (R : Type) := {
  ObserveHTTP : string -> string -> Z -> Z -> R -> R;
  AddHTTPInFlight : Z -> R -> R;
  (** what it holds *)
  in_flight : R -> Z;
  requests : R -> CounterVec;
  durations : R -> HistogramVec;
}.

#[global] Instance api_observer : HTTPObserver APIRecorder :=
  {| ObserveHTTP := api_ObserveHTTP; AddHTTPInFlight := api_AddHTTPInFlight; in_flight := httpInflight; requests := httpRequests; durations := httpDuration |}.

#[global] Instance runner_observer : HTTPObserver RunnerRecorder :=
  {| ObserveHTTP := runner_ObserveHTTP; AddHTTPInFlight := runner_AddHTTPInFlight; in_flight := r_httpInflight; requests := r_httpRequests; durations := r_httpDuration |}.

(** A server with its requests in progress: [HTTPMiddleware] before and after
    [next.ServeHTTP], which may set the request's pattern, write headers and panic. *)
Record server (R : Type) := mkServer { obs : R; progressing : list string }.
#[global] Arguments mkServer {R}.
#[global] Arguments obs {R}.
#[global] Arguments progressing {R}.

Definition arrive `{HTTPObserver R} (method : string) (s : server R) : server R := mkServer (AddHTTPInFlight 1 (obs s)) (progressing s ++ [method]).

Definition leave `{HTTPObserver R} (k : nat) (pattern : string) (codes : list Z) (dur : Z) (s : server R) : option (server R) :=
  match progressing s !! k with
  | Some method =>
      Some (mkServer (ObserveHTTP (routeFromPattern pattern) (methodLabel method) (statusRecorder codes) dur (AddHTTPInFlight (-1) (obs s)))
              (take k (progressing s) ++ drop (S k) (progressing s)))
  | None => None
  end.

(** [patterns]: those of the mux, of which a request gets one or none. *)
Inductive serving `{HTTPObserver R} (patterns : list string) : server R -> server R -> Prop :=
| request_arrives method s : serving patterns s (arrive method s)
| request_leaves k pattern codes dur s s' : pattern = "" \/ pattern ∈ patterns -> leave k pattern codes dur s = Some s' -> serving patterns s s'.

(** ** What may appear *)

Definition route_labels (patterns : list string) : list string := "unmatched" :: (routeFromPattern <$> patterns).
Definition method_labels : list string := "other" :: known_methods.

Definition allowed (patterns : list string) (l : list string) : Prop :=
  exists route method status, l = [route; method; itoa status] /\ route ∈ route_labels patterns /\ method ∈ method_labels.

Definition allowed_pair (patterns : list string) (l : list string) : Prop :=
  exists route method, l = [route; method] /\ route ∈ route_labels patterns /\ method ∈ method_labels.

Lemma methodLabel_known m : methodLabel m ∈ method_labels.
Proof. unfold methodLabel, method_labels. case_decide; [by right|left]. Qed.

Lemma route_known patterns p : p = "" \/ p ∈ patterns -> routeFromPattern p ∈ route_labels patterns.
Proof. intros [->|Hp]; [left|right]. by apply list_elem_of_fmap_2. Qed.

Lemma inc_keys (P : list string -> Prop) l v : P l -> (forall k, is_Some (v !! k) -> P k) -> forall k, is_Some (inc l v !! k) -> P k.
Proof. intros Hl Hv k. unfold inc. destruct (decide (k = l)) as [->|]; [done|]. rewrite lookup_insert_ne by done. apply Hv. Qed.

Lemma observe_keys (P : list string -> Prop) l d v : P l -> (forall k, is_Some (v !! k) -> P k) -> forall k, is_Some (observe l d v !! k) -> P k.
Proof. intros Hl Hv k. unfold observe. destruct (decide (k = l)) as [->|]; [done|]. rewrite lookup_insert_ne by done. apply Hv. Qed.

(** What the middleware relies on: an observer that is on moves its gauge and adds at most
    the series it is told. *)
Class ObserverLaws (R : Type) `{HTTPObserver R} (on : R -> Prop) := {
  add_in_flight d r : on r -> in_flight (AddHTTPInFlight d r) = in_flight r + d;
  add_requests d r : requests (AddHTTPInFlight d r) = requests r;
  add_durations d r : durations (AddHTTPInFlight d r) = durations r;
  add_on d r : on r -> on (AddHTTPInFlight d r);
  observe_in_flight route method st d r : in_flight (ObserveHTTP route method st d r) = in_flight r;
  observe_requests route method st d r : on r -> requests (ObserveHTTP route method st d r) = inc [route; method; itoa st] (requests r);
  observe_durations route method st d r : on r -> durations (ObserveHTTP route method st d r) = observe [route; method] d (durations r);
  observe_on route method st d r : on r -> on (ObserveHTTP route method st d r);
}.

#[global] Instance api_laws : ObserverLaws APIRecorder (fun r => reg r = true).
Proof.
  split; simpl; unfold api_AddHTTPInFlight, api_ObserveHTTP; intros;
    try match goal with H : reg _ = true |- _ => rewrite H end; try done; by destruct (reg r).
Qed.

#[global] Instance runner_laws : ObserverLaws RunnerRecorder (fun r => r_reg r = true).
Proof.
  split; simpl; unfold runner_AddHTTPInFlight, runner_ObserveHTTP, when_on; intros;
    try match goal with H : r_reg _ = true |- _ => rewrite H end; try done; by destruct (r_reg r).
Qed.

(** The sum of a counter's series. *)
Definition total (v : CounterVec) : Z := map_fold (fun _ n acc => n + acc) 0 v.

Lemma total_insert l n v : v !! l = None -> total (<[l := n]> v) = n + total v.
Proof. intros H. unfold total. apply map_fold_insert_L; [lia|done]. Qed.

Lemma total_inc l v : total (inc l v) = total v + 1.
Proof.
  unfold inc. rewrite <- insert_delete_eq. rewrite total_insert by apply lookup_delete_eq.
  destruct (v !! l) as [n|] eqn:E; simpl.
  - assert (H : total v = n + total (delete l v)); [|lia]. rewrite <- (insert_delete_id v l n E) at 1. by rewrite total_insert by apply lookup_delete_eq.
  - rewrite delete_id by done. lia.
Qed.

Section server.
Context {R : Type} `{HTTPObserver R} {on : R -> Prop} `{!ObserverLaws R on} (patterns : list string).

Record server_ok (s : server R) : Prop := {
  so_on : on (obs s);
  so_gauge : in_flight (obs s) = Z.of_nat (length (progressing s));
  so_series : forall l, is_Some (requests (obs s) !! l) -> allowed patterns l;
  so_pairs : forall l, is_Some (durations (obs s) !! l) -> allowed_pair patterns l;
}.

Lemma serving_ok s s' : serving patterns s s' -> server_ok s -> server_ok s'.
Proof.
  intros [method q|k pattern codes dur q q' Hp Hl] [Hon Hg Hs Hd].
  - split; simpl.
    + by apply add_on.
    + rewrite add_in_flight by done. rewrite length_app. simpl. lia.
    + by rewrite add_requests.
    + by rewrite add_durations.
  - unfold leave in Hl. destruct (progressing q !! k) as [method|] eqn:E; [|done]. injection Hl as <-.
    pose proof (take_drop_middle _ _ _ E) as Hm. apply (f_equal length) in Hm. rewrite length_app in Hm. simpl in Hm.
    split; simpl.
    + by apply observe_on, add_on.
    + rewrite observe_in_flight, add_in_flight by done. rewrite length_app. lia.
    + rewrite observe_requests by (by apply add_on). rewrite add_requests. apply inc_keys; [|done].
      eexists _, _, _. split; [reflexivity|]. split; [by apply route_known|apply methodLabel_known].
    + rewrite observe_durations by (by apply add_on). rewrite add_durations. apply observe_keys; [|done].
      eexists _, _. split; [reflexivity|]. split; [by apply route_known|apply methodLabel_known].
Qed.

(** The gauge is the number of requests in progress, and the label values of every series
    come from the routes of the mux and the standard methods, whatever callers send. *)
Lemma metrics_bounded r s : on r -> in_flight r = 0 -> requests r = ∅ -> durations r = ∅ -> rtc (serving patterns) (mkServer r []) s ->
  in_flight (obs s) = Z.of_nat (length (progressing s)) /\ (forall l, is_Some (requests (obs s) !! l) -> allowed patterns l) /\
  (forall l, is_Some (durations (obs s) !! l) -> allowed_pair patterns l).
Proof.
  intros Hon Hz Hr Hd Hs.
  assert (Hok : server_ok s).
  { apply (rtc_ind_r (R := serving patterns) server_ok (mkServer r [])); [| |exact Hs].
    - split; simpl; [done|done| |]; intros l; rewrite ?Hr, ?Hd, lookup_empty; by intros [].
    - intros q q' _. apply serving_ok. }
  by destruct Hok.
Qed.

(** Every request that left was counted once. *)
Lemma leave_counted k pattern codes dur s s' : on (obs s) -> leave k pattern codes dur s = Some s' -> total (requests (obs s')) = total (requests (obs s)) + 1.
Proof.
  unfold leave. intros Hon. destruct (progressing s !! k); [|done]. intros [= <-]. simpl. rewrite observe_requests by (by apply add_on). by rewrite total_inc, add_requests.
Qed.
End server.

(** A recorder that is off holds nothing, whatever is observed. *)
Lemma api_off route method st d delta r : reg r = false -> api_ObserveHTTP route method st d (api_AddHTTPInFlight delta r) = r.
Proof. intros E. unfold api_AddHTTPInFlight. rewrite E. simpl. unfold api_ObserveHTTP. by rewrite E. Qed.

(** ** Runs *)

Example labels :
  routeFromPattern "GET /sandboxes/{id}" = "/sandboxes/{id}" /\ routeFromPattern "/healthz" = "/healthz" /\ routeFromPattern "" = "unmatched" /\
  methodLabel "GET" = "GET" /\ methodLabel "BREW" = "other".
Proof. by vm_compute. Qed.

(** A response announced with an informational status is counted under that status. *)
Example informational_counted : statusRecorder [103; 404] = 103.
Proof. done. Qed.
End Metrics.
