(* ===== verification/Gateway.v ===== *)
(** * The API's request chain ([internal/api]: gateway.go, middleware_recovery.go,
    middleware_cors.go, middleware_logging.go, middleware_limits.go)

    Every request to the API passes these layers before its handler runs, and its
    answer passes them on the way back.  The handlers are a parameter
    ([Endpoints]): each may read and change the world, write what it likes to its
    response writer, and panic. *)

From S2P Require Import Prelude GoStrings Ids Limits World Store StoreInv Auth Paths ServeMux Metrics Trace.

Module Gateway.
Import GoStrings Limits Store ServeMux.
Import Auth(authIdentity, Role, TenantID, roleAdmin, roleProvisioner, roleScaler, roleTenant, KeyEnv).

(** ** Requests and response writers *)

(** [q_raw] is [URL.EscapedPath()], [q_path] the decoded [URL.Path]. *)
Record request := mkRequest {
  q_method : string;
  q_raw : string;
  q_path : string;
  q_key : string;
  q_traceparent : list ascii;
  q_ctx : Trace.context;
}.

(** The calls made on an [http.ResponseWriter], in order. *)
Inductive wop := WHeader (code : Z) | WData | WFlush.

(** How a handler ended; [http.ErrAbortHandler] is told apart from other panics. *)
Inductive ending := Returned | PanicAbort | PanicOther.
#[global] Instance ending_eq_dec : EqDecision ending.
Proof. solve_decision. Defined.

Record served := mkServed { ops : list wop; fate : ending }.

Definition informational (code : Z) : bool := bool_decide (100 <= code <= 199) && bool_decide (code <> 101).

(** The status [net/http] sends: the first that is not informational, or 200 once
    something is written or the handler is done. *)
Fixpoint status_sent (l : list wop) : Z :=
  match l with
  | WHeader c :: l' => if informational c then status_sent l' else c
  | _ => 200
  end.

(** ** [recoveryResponseWriter]: what reaches the wrapped writer, and [wroteHeader] *)

Fixpoint recovery_writer (wroteHeader : bool) (l : list wop) : list wop * bool :=
  match l with
  | [] => ([], wroteHeader)
  | WHeader c :: l' =>
      if wroteHeader then recovery_writer true l'
      else let '(out, b) := recovery_writer true l' in (WHeader c :: out, b)
  | op :: l' => let '(out, b) := recovery_writer true l' in (op :: out, b)
  end.

(** [writeError]: a status and a body. *)
Definition write_status (code : Z) : list wop := [WHeader code; WData].
Definition answer (code : Z) : served := mkServed (write_status code) Returned.

Definition recovered (r : served) : served :=
  let '(out, wroteHeader) := recovery_writer false (ops r) in
  match fate r with
  | Returned => mkServed out Returned
  | PanicAbort => mkServed out PanicAbort
  | PanicOther =>
      if wroteHeader then mkServed out PanicAbort
      else mkServed (out ++ (recovery_writer wroteHeader (write_status 500)).1) Returned
  end.

(** [statusWriter]: the status it remembers. *)
Fixpoint status_logged (status : Z) (l : list wop) : Z :=
  match l with
  | [] => status
  | WHeader c :: l' => status_logged c l'
  | _ :: l' => status_logged status l'
  end.

(** ** The routes *)

Inductive endpoint :=
| EHealthz | EMetrics
| EListSandboxes | ECreateSandbox | EGetSandbox | EDeleteSandbox
| EListTenants | ECreateTenant | EGetTenant | EUpdateTenant | EDeleteTenant
| EListTenantKeys | ECreateTenantKey | ERevokeTenantKey
| EGetScaler | EListRunners | ESetRunnerCordon (cordoned : bool)
| ESandboxProxy (upload : bool).
#[global] Instance endpoint_eq_dec : EqDecision endpoint.
Proof. solve_decision. Defined.

(** Which limiter a route is wrapped in. *)
Inductive cap := NoCap | CapTenant | CapDeletes.
#[global] Instance cap_eq_dec : EqDecision cap.
Proof. solve_decision. Defined.

Record entry := mkEntry { e_method : string; e_pattern : string; e_endpoint : endpoint; e_cap : cap }.

Definition routes (metrics : bool) : list entry :=
  [mkEntry "GET" "/healthz" EHealthz NoCap] ++
  (if metrics then [mkEntry "GET" "/metrics" EMetrics NoCap] else []) ++
  [ mkEntry "GET" "/sandboxes" EListSandboxes NoCap;
    mkEntry "POST" "/sandboxes" ECreateSandbox CapTenant;
    mkEntry "GET" "/sandboxes/{id}" EGetSandbox NoCap;
    mkEntry "DELETE" "/sandboxes/{id}" EDeleteSandbox NoCap;
    mkEntry "GET" "/admin/tenants" EListTenants NoCap;
    mkEntry "POST" "/admin/tenants" ECreateTenant NoCap;
    mkEntry "GET" "/admin/tenants/{id}" EGetTenant NoCap;
    mkEntry "PATCH" "/admin/tenants/{id}" EUpdateTenant NoCap;
    mkEntry "DELETE" "/admin/tenants/{id}" EDeleteTenant NoCap;
    mkEntry "GET" "/admin/tenants/{id}/keys" EListTenantKeys NoCap;
    mkEntry "POST" "/admin/tenants/{id}/keys" ECreateTenantKey NoCap;
    mkEntry "DELETE" "/admin/tenants/{id}/keys/{keyId}" ERevokeTenantKey NoCap;
    mkEntry "GET" "/admin/scaler" EGetScaler NoCap;
    mkEntry "GET" "/admin/runners" EListRunners NoCap;
    mkEntry "PUT" "/admin/runners/{id}/cordon" (ESetRunnerCordon true) NoCap;
    mkEntry "DELETE" "/admin/runners/{id}/cordon" (ESetRunnerCordon false) NoCap;
    mkEntry "POST" "/sandboxes/{id}/executions" (ESandboxProxy false) CapTenant;
    mkEntry "GET" "/sandboxes/{id}/executions/{exec_id}" (ESandboxProxy false) CapTenant;
    mkEntry "DELETE" "/sandboxes/{id}/executions/{exec_id}" (ESandboxProxy false) CapDeletes;
    mkEntry "POST" "/sandboxes/{id}/files/copy" (ESandboxProxy false) CapTenant;
    mkEntry "POST" "/sandboxes/{id}/files/move" (ESandboxProxy false) CapTenant;
    mkEntry "GET" "/sandboxes/{id}/files" (ESandboxProxy false) CapTenant;
    mkEntry "GET" "/sandboxes/{id}/files/content" (ESandboxProxy false) CapTenant;
    mkEntry "PUT" "/sandboxes/{id}/files" (ESandboxProxy true) CapTenant;
    mkEntry "POST" "/sandboxes/{id}/files" (ESandboxProxy true) CapTenant;
    mkEntry "POST" "/sandboxes/{id}/files/archive" (ESandboxProxy true) CapTenant;
    mkEntry "DELETE" "/sandboxes/{id}/files" (ESandboxProxy false) CapTenant;
    mkEntry "POST" "/sandboxes/{id}/mkdir" (ESandboxProxy false) CapTenant;
    mkEntry "GET" "/sandboxes/{id}/stat" (ESandboxProxy false) CapTenant ].

(** ** [http.ServeMux] *)

Definition match_path (e : entry) (raw : string) : bool := match_pattern (e_pattern e) raw.

Definition find_route (metrics : bool) (method raw : string) : option entry :=
  find (fun e => match_method (e_method e) method && match_path e raw) (routes metrics).

(** ** The process *)

(** A handler that was called: with whom, and how many slots its tenant held. *)
Record call := mkCall { c_endpoint : endpoint; c_identity : option authIdentity; c_cap : cap; c_held : Z }.

Record event := mkEvent { ev_trace : list ascii; ev_method : string; ev_path : string; ev_status : Z }.

(** [g_rec]: the recorder, as far as this chain writes to it. *)
Record gateway := mkGateway {
  g_world : world;
  g_limit : KeyedLimiter;
  g_deletes : KeyedLimiter;
  g_rand : nat;
  g_log : list event;
  g_calls : list call;
  g_rec : Metrics.APIRecorder;
}.

Definition set_world (w : world) (g : gateway) : gateway := mkGateway w (g_limit g) (g_deletes g) (g_rand g) (g_log g) (g_calls g) (g_rec g).
Definition set_rand (k : nat) (g : gateway) : gateway := mkGateway (g_world g) (g_limit g) (g_deletes g) k (g_log g) (g_calls g) (g_rec g).
Definition log_event (e : event) (g : gateway) : gateway := mkGateway (g_world g) (g_limit g) (g_deletes g) (g_rand g) (g_log g ++ [e]) (g_calls g) (g_rec g).
Definition log_call (c : call) (g : gateway) : gateway := mkGateway (g_world g) (g_limit g) (g_deletes g) (g_rand g) (g_log g) (g_calls g ++ [c]) (g_rec g).
Definition record (f : Metrics.APIRecorder -> Metrics.APIRecorder) (g : gateway) : gateway :=
  mkGateway (g_world g) (g_limit g) (g_deletes g) (g_rand g) (g_log g) (g_calls g) (f (g_rec g)).
Definition limiter (c : cap) (g : gateway) : KeyedLimiter := match c with CapDeletes => g_deletes g | _ => g_limit g end.
Definition set_limiter (c : cap) (l : KeyedLimiter) (g : gateway) : gateway :=
  match c with
  | CapDeletes => mkGateway (g_world g) (g_limit g) l (g_rand g) (g_log g) (g_calls g) (g_rec g)
  | _ => mkGateway (g_world g) l (g_deletes g) (g_rand g) (g_log g) (g_calls g) (g_rec g)
  end.

(** [took]: how long a request took that left this world. *)
Class Endpoints := { serve : endpoint -> option authIdentity -> request -> world -> served * world; took : request -> world -> Z }.

Record config := mkConfig {
  APIKeys : gset string;
  ProvisionerKeys : gset string;
  ScalerKeys : gset string;
  MaxInflightPerTenant : Z;
  EnableCORS : bool;
  metrics_here : bool;   (* rec.Enabled() && cfg.MetricsOnMainListener() *)
}.

Definition maxExecutionDeletesPerTenant : Z := 16.

Definition handler : Type := request -> gateway -> served * gateway.

Section gateway.
Context {St : SandboxStore} {KE : KeyEnv} {RD : Trace.Rand} {EP : Endpoints} (cfg : config).

Definition init (metrics : bool) (w : world) : gateway :=
  mkGateway w (NewKeyedLimiter (MaxInflightPerTenant cfg))
    (NewKeyedLimiter (if decide (MaxInflightPerTenant cfg > 0) then maxExecutionDeletesPerTenant else 0)) 0 [] [] (Metrics.NewAPIRecorder metrics).

Definition run_endpoint (e : endpoint) (c : cap) (id : option authIdentity) : handler := fun q g =>
  let held := match id with Some i => count_of (limiter c g) (TenantID i) | None => 0 end in
  let '(r, w) := serve e id q (g_world g) in
  (r, set_world w (log_call (mkCall e id c held) g)).

(** [defer l.Release(id.TenantID)] runs however [next] ends. *)
Definition tenantLimit (c : cap) (id : option authIdentity) (next : handler) : handler := fun q g =>
  match id with
  | Some i =>
      if decide (Role i <> roleTenant) then next q g
      else
        let '(ok, l) := TryAcquire (limiter c g) (TenantID i) in
        let g := set_limiter c l g in
        if negb ok then (answer 429, record (Metrics.api_ObserveRequestLimited "tenant") g)
        else
          let '(r, g') := next q g in
          (r, set_limiter c (Release (limiter c g') (TenantID i)) g')
  | None => next q g
  end.

Definition with_cap (c : cap) (id : option authIdentity) (next : handler) : handler :=
  match c with NoCap => next | _ => tenantLimit c id next end.

Definition mux (id : option authIdentity) : handler := fun q g =>
  if decide (redirected (q_method q) (q_raw q)) then (answer 301, g)
  else
    match find_route (metrics_here cfg) (q_method q) (q_raw q) with
    | Some e => with_cap (e_cap e) id (run_endpoint (e_endpoint e) (e_cap e) id) q g
    | None => (answer (if existsb (fun e => match_path e (q_raw q)) (routes (metrics_here cfg)) then 405 else 404), g)
    end.

(** [Request.Pattern], which [ServeMux] sets: of the clean path, also when it redirects. *)
Definition pattern_of (q : request) : string :=
  let path := if decide (q_method q = "CONNECT") then q_raw q else cleanPath (q_raw q) in
  match find_route (metrics_here cfg) (q_method q) path with Some e => e_method e +:+ " " +:+ e_pattern e | None => "" end.

Definition headers_of (l : list wop) : list Z := omap (fun op => match op with WHeader c => Some c | _ => None end) l.

(** [metrics.HTTPMiddleware], in the chain if the recorder is enabled; what it records is
    deferred. *)
Definition HTTPMiddleware (next : handler) : handler := fun q g =>
  if negb (Metrics.reg (g_rec g)) then next q g
  else
    let '(r, g') := next q (record (Metrics.api_AddHTTPInFlight 1) g) in
    (r, record (fun rec => Metrics.api_ObserveHTTP (Metrics.routeFromPattern (pattern_of q)) (Metrics.methodLabel (q_method q))
                             (Metrics.statusRecorder (headers_of (ops r))) (took q (g_world g')) (Metrics.api_AddHTTPInFlight (-1) rec)) g').

Definition status_of (r : Auth.response) : Z :=
  match r with
  | Auth.RError code _ _ _ | Auth.RSandbox code _ | Auth.RTenant code _ _ | Auth.RProxied code => code
  | Auth.RNoContent => 204
  | _ => 200
  end.

Definition AuthMiddleware (next : option authIdentity -> handler) : handler := fun q g =>
  match Auth.AuthMiddleware (APIKeys cfg) (ProvisionerKeys cfg) (ScalerKeys cfg) (Auth.mkRequest (q_method q) (q_path q) (q_key q)) (g_world g) with
  | (inl resp, w) => (answer (status_of resp), set_world w g)
  | (inr id, w) => next id q (set_world w g)
  end.

Definition isGetOrHead (method : string) : bool := bool_decide (method = "GET") || bool_decide (method = "HEAD").
Definition publicPaths : list string := ["/healthz"; "/metrics"].

Definition RejectOtherMethods (next : handler) : handler := fun q g =>
  if bool_decide (q_path q ∈ publicPaths) && negb (isGetOrHead (q_method q)) then (answer 405, g) else next q g.

(** The event is logged after [next] returned, not deferred. *)
Definition LoggingMiddleware (next : handler) : handler := fun q g =>
  if Auth.Public (q_method q) (q_path q) then next q g
  else
    let '(ctx, trace, k) := Trace.api_context (q_traceparent q) (g_rand g) in
    let q := mkRequest (q_method q) (q_raw q) (q_path q) (q_key q) (q_traceparent q) ctx in
    let '(r, g') := next q (set_rand k g) in
    (r, match fate r with
        | Returned => log_event (mkEvent trace (q_method q) (q_path q) (status_logged 200 (ops r))) g'
        | _ => g'
        end).

Definition CORSMiddleware (next : handler) : handler := fun q g =>
  if decide (q_method q = "OPTIONS") then (mkServed [WHeader 204] Returned, g) else next q g.

Definition RecoveryMiddleware (next : handler) : handler := fun q g =>
  let '(r, g') := next q g in (recovered r, g').

Definition NewGatewayRouter : handler :=
  let handler := LoggingMiddleware (RejectOtherMethods (AuthMiddleware (fun id => HTTPMiddleware (mux id)))) in
  RecoveryMiddleware (if EnableCORS cfg then CORSMiddleware handler else handler).
End gateway.

(** ** What the client sees of a handler that ends badly *)

Lemma recovery_writer_wrote l b out : recovery_writer b l = (out, false) -> b = false /\ l = [] /\ out = [].
Proof.
  revert b out. induction l as [|op l IH]; intros b out; simpl; [by intros [= <- <-]|].
  assert (H : forall out', recovery_writer true l <> (out', false)) by (intros out' [? _]%IH; done).
  destruct op; [destruct b; [by intros ?%H|]| |]; destruct (recovery_writer true l) as [o c] eqn:E; intros [= _ ->]; by destruct (H o).
Qed.

(** A panic becomes a plain 500 when nothing was written, and breaks the connection
    otherwise; a handler that aborts on purpose still does. *)
Lemma recovered_spec r :
  fate (recovered r) <> PanicOther /\
  (fate r = PanicOther -> ops r = [] -> recovered r = answer 500) /\
  (fate r = PanicOther -> ops r <> [] -> fate (recovered r) = PanicAbort) /\
  (fate r <> PanicOther -> fate (recovered r) = fate r).
Proof.
  unfold recovered. destruct (recovery_writer false (ops r)) as [out b] eqn:E. destruct (fate r); simpl; try done.
  destruct b; simpl.
  - repeat split; try done. intros _ H0. by rewrite H0 in E.
  - apply recovery_writer_wrote in E as (_ & -> & ->). done.
Qed.

(** Calls after the first header keep the body and drop further headers. *)
Lemma recovery_writer_true l : status_sent (recovery_writer true l).1 = 200.
Proof.
  induction l as [|op l IH]; [done|]. destruct op; simpl; [done| |]; by destruct (recovery_writer true l).
Qed.

Lemma recovered_status r : fate r = Returned -> Forall (fun op => match op with WHeader c => informational c = false | _ => True end) (ops r) ->
  status_sent (ops (recovered r)) = status_sent (ops r).
Proof.
  intros Hf H. unfold recovered. rewrite Hf. destruct (ops r) as [|op l]; [done|]. apply Forall_cons in H as [Hop _].
  destruct op; simpl; destruct (recovery_writer true l) as [out b]; simpl; [by rewrite Hop|done|done].
Qed.

(** An informational header counts as the header: the status that follows is dropped
    and the client gets a 200.  [ReverseProxy] forwards such headers, also the 100 that
    answers [Expect: 100-continue]. *)
Example informational_hides_status :
  status_sent [WHeader 100; WHeader 409; WData] = 409 /\
  status_sent (ops (recovered (mkServed [WHeader 100; WHeader 409; WData] Returned))) = 200 /\
  status_logged 200 [WHeader 100; WHeader 409; WData] = 409.
Proof. done. Qed.

(** ** Which routes a path can lead to *)

Definition tenant_admin (e : endpoint) : bool :=
  match e with
  | EListTenants | ECreateTenant | EGetTenant | EUpdateTenant | EDeleteTenant | EListTenantKeys | ECreateTenantKey | ERevokeTenantKey => true
  | _ => false
  end.
Definition runner_admin (e : endpoint) : bool := match e with EListRunners | ESetRunnerCordon _ => true | _ => false end.
Definition probe (e : endpoint) : bool := match e with EHealthz | EMetrics => true | _ => false end.

Definition may (role : endpoint -> bool) (ok : list ascii -> bool) (es : list entry) : Prop :=
  Forall (fun e => role (e_endpoint e) = true \/ excluded ok (Paths.split (chars (e_pattern e)))) es.

Lemma may_route role ok es e raw path : may role ok es -> In e es -> match_path e raw = true ->
  unescape (chars raw) = Some (chars path) -> ok (chars path) = true -> role (e_endpoint e) = true.
Proof.
  intros HM Hin%list_elem_of_In Hp Hu Hok. unfold may in HM. rewrite Forall_forall in HM.
  destruct (HM e Hin) as [|Hx]; [done|]. by rewrite (excluded_path _ _ _ _ Hx Hp Hu) in Hok.
Qed.

Definition provisioner_path (l : list ascii) : bool := HasPrefix (of_chars l) Auth.provisionerPathPrefix.
Definition scaler_path (l : list ascii) : bool := Auth.scalerMayCall (of_chars l).
Definition public_path (l : list ascii) : bool := bool_decide (l ∈ chars <$> publicPaths).

Ltac routes_tac :=
  match goal with m : bool |- may _ _ (routes ?m) => unfold may, routes; destruct m; simpl end;
  repeat apply Forall_cons_2; try (left; reflexivity); try apply Forall_nil_2; right; exclude.

Lemma provisioner_routes m : may tenant_admin provisioner_path (routes m).
Proof. routes_tac. Qed.

Lemma scaler_routes m : may runner_admin scaler_path (routes m).
Proof. routes_tac. Qed.

Lemma public_routes m : may probe public_path (routes m).
Proof. routes_tac; apply bool_decide_eq_false_2; simpl; rewrite !elem_of_cons, elem_of_nil; intros [H|[H|H] ]; by try injection H. Qed.

(** No two patterns take the same request, so their order does not matter. *)
Fixpoint conflicts (es : list entry) : bool :=
  match es with
  | [] => false
  | e :: es' => existsb (fun f => bool_decide (e_method e = e_method f) && overlap (Paths.split (chars (e_pattern e))) (Paths.split (chars (e_pattern f)))) es' || conflicts es'
  end.

Example patterns_disjoint : conflicts (routes true) = false.
Proof. by vm_compute. Qed.

(** ** The chain *)

Section guards.
Context {St : SandboxStore} {HL : StoreLaws St} {KE : KeyEnv} {RD : Trace.Rand} {EP : Endpoints} (cfg : config).

(** What a handler may be called with: a probe with nobody; otherwise an identity the
    caller's key proves, on the routes of its role, and, where the route is capped,
    with the caller's own slot among at most the maximum. *)
Definition allowed (q : request) (d : db) (c : call) : Prop :=
  match c_identity c with
  | None => probe (c_endpoint c) = true
  | Some i =>
      Auth.auth_ok (APIKeys cfg) (ProvisionerKeys cfg) (ScalerKeys cfg) (Auth.mkRequest (q_method q) (q_path q) (q_key q)) d (inr (Some i)) /\
      match Role i with
      | roleAdmin => True
      | roleProvisioner => tenant_admin (c_endpoint c) = true
      | roleScaler => runner_admin (c_endpoint c) = true
      | roleTenant => c_cap c <> NoCap -> 0 < MaxInflightPerTenant cfg ->
          1 <= c_held c <= match c_cap c with CapDeletes => maxExecutionDeletesPerTenant | _ => MaxInflightPerTenant cfg end
      end
  end.

(** The limiters of a running process. *)
Record limits_ok (g : gateway) : Prop := {
  lo_max : lim_max (g_limit g) = MaxInflightPerTenant cfg;
  lo_deletes : 0 < MaxInflightPerTenant cfg -> lim_max (g_deletes g) = maxExecutionDeletesPerTenant;
  lo_counts c key : 0 <= count_of (limiter c g) key;
}.

(** From [g] to [g']: every slot is back, and at most one handler was called. *)
Record passes (P : call -> Prop) (g g' : gateway) : Prop := {
  pa_limit : same_counts (g_limit g) (g_limit g');
  pa_deletes : same_counts (g_deletes g) (g_deletes g');
  pa_gauge : Metrics.reg (g_rec g') = Metrics.reg (g_rec g) /\ Metrics.httpInflight (g_rec g') = Metrics.httpInflight (g_rec g);
  pa_calls : (g_calls g' = g_calls g /\ w_db (g_world g') = w_db (g_world g)) \/ exists c, g_calls g' = g_calls g ++ [c] /\ P c;
}.

Lemma same_counts_refl l : same_counts l l.
Proof. by split. Qed.

Lemma passes_refl P g : passes P g g.
Proof. split; auto using same_counts_refl. Qed.

(** Layers that change the world without touching the tables, the random source or
    the log. *)
Lemma passes_around P g g1 g' g2 :
  g_limit g1 = g_limit g -> g_deletes g1 = g_deletes g -> g_calls g1 = g_calls g -> w_db (g_world g1) = w_db (g_world g) -> g_rec g1 = g_rec g ->
  g_limit g2 = g_limit g' -> g_deletes g2 = g_deletes g' -> g_calls g2 = g_calls g' -> g_world g2 = g_world g' -> g_rec g2 = g_rec g' ->
  passes P g1 g' -> passes P g g2.
Proof. intros E1 E2 E3 E4 E5 F1 F2 F3 F4 F5 [H1 H2 H3 H4]. split; rewrite ?F1, ?F2, ?F3, ?F4, ?F5, <- ?E1, <- ?E2, <- ?E3, <- ?E4, <- ?E5; done. Qed.

(** A request is counted while it is in progress. *)
Lemma measured_passes P next q g : (forall g0, g_limit g0 = g_limit g -> g_deletes g0 = g_deletes g -> passes P g0 (next q g0).2) ->
  passes P g (HTTPMiddleware cfg next q g).2.
Proof.
  intros Hn. unfold HTTPMiddleware. destruct (Metrics.reg (g_rec g)) eqn:Hr; simpl; [|by apply Hn].
  pose proof (Hn (record (Metrics.api_AddHTTPInFlight 1) g) eq_refl eq_refl) as H. destruct (next q _) as [r g']. simpl in H |- *.
  destruct H as [H1 H2 [H3 H4] H5]. simpl in H3, H4. unfold Metrics.api_AddHTTPInFlight in H3, H4. rewrite Hr in H3, H4. simpl in H3, H4.
  split; simpl; [done|done| |exact H5]. unfold Metrics.api_ObserveHTTP, Metrics.api_AddHTTPInFlight. repeat (rewrite H3; simpl). split; [congruence|lia].
Qed.

Lemma run_endpoint_passes (P : call -> Prop) e c id q g :
  P (mkCall e id c (match id with Some i => count_of (limiter c g) (TenantID i) | None => 0 end)) ->
  passes P g (run_endpoint e c id q g).2.
Proof.
  intros HP. unfold run_endpoint. destruct (serve e id q (g_world g)) as [r w]. simpl.
  split; simpl; [apply same_counts_refl..|done|]. eauto.
Qed.

Lemma capped_passes (P : call -> Prop) e c id q g : limits_ok g ->
  (forall held, (forall i, id = Some i -> Role i = roleTenant -> c <> NoCap -> 0 < lim_max (limiter c g) -> 1 <= held <= lim_max (limiter c g)) ->
     P (mkCall e id c held)) ->
  passes P g (with_cap c id (run_endpoint e c id) q g).2.
Proof.
  intros L HP. unfold with_cap.
  assert (Hrun : (forall i, id = Some i -> Role i = roleTenant -> c = NoCap) -> passes P g (run_endpoint e c id q g).2).
  { intros Hx. apply run_endpoint_passes, HP. intros i Hi Hr Hc. by destruct (Hc (Hx i Hi Hr)). }
  destruct (decide (c = NoCap)) as [->|Hc]; [apply Hrun; done|].
  enough (passes P g (tenantLimit c id (run_endpoint e c id) q g).2) by (by destruct c).
  unfold tenantLimit. destruct id as [i|]; [|apply Hrun; done]. case_decide as Hr; [apply Hrun; intros j [= <-] ?; done|].
  destruct (TryAcquire (limiter c g) (TenantID i)) as [ok l] eqn:Ea. destruct ok; simpl.
  - unfold run_endpoint. destruct (serve _ _ _ _) as [r w]. simpl.
    assert (Hl : same_counts (limiter c g) (Release l (TenantID i))) by (eapply acquire_release; [done|apply L]).
    assert (Hcall : P (mkCall e (Some i) c (count_of l (TenantID i)))).
    { apply HP. intros j [= <-] _ _ Hmax. by eapply acquired; [done|apply L|]. }
    destruct c; [done| |]; (split; simpl; [try done; apply same_counts_refl| try done; apply same_counts_refl|done|]); right; eauto.
  - assert (l = limiter c g) as ->.
    { revert Ea. unfold TryAcquire. repeat case_decide; congruence. }
    assert (Hrec : forall l (r : Metrics.APIRecorder), Metrics.reg (Metrics.api_ObserveRequestLimited l r) = Metrics.reg r /\ Metrics.httpInflight (Metrics.api_ObserveRequestLimited l r) = Metrics.httpInflight r).
    { intros l r. unfold Metrics.api_ObserveRequestLimited. by destruct (Metrics.reg r) eqn:E. }
    destruct c; [done| |]; (split; simpl; [apply same_counts_refl..|apply Hrec|auto]).
Qed.

Lemma limits_ok_same g g0 : limits_ok g -> g_limit g0 = g_limit g -> g_deletes g0 = g_deletes g -> limits_ok g0.
Proof. intros [L1 L2 L3] El Ed. split; rewrite ?El, ?Ed; [done..|]. intros c. specialize (L3 c). unfold limiter in *. by rewrite El, Ed. Qed.

(** The route of an authenticated caller suits its role. *)
Lemma mux_passes q d id g : limits_ok g -> unescape (chars (q_raw q)) = Some (chars (q_path q)) ->
  Auth.auth_ok (APIKeys cfg) (ProvisionerKeys cfg) (ScalerKeys cfg) (Auth.mkRequest (q_method q) (q_path q) (q_key q)) d (inr id) ->
  forall q', q_method q' = q_method q -> q_raw q' = q_raw q -> passes (allowed q d) g (HTTPMiddleware cfg (mux cfg id) q' g).2.
Proof.
  intros L0 Hu HA q' Em Er. apply measured_passes. intros g0 El Ed. assert (L : limits_ok g0) by (eapply limits_ok_same; eauto). clear L0 El Ed. unfold mux. rewrite Em, Er. case_decide; [apply passes_refl|].
  destruct (find_route _ _ _) as [e|] eqn:Ef; [|apply passes_refl].
  apply find_some in Ef as [Hin [_ Hp]%andb_true_iff].
  apply capped_passes; [done|]. intros held Hheld. unfold allowed. simpl. destruct id as [i|].
  - split; [done|]. destruct HA as [_ HA]. destruct (Role i) eqn:Hr.
    + done.
    + destruct HA as (_ & _ & HA). eapply (may_route _ provisioner_path); [apply provisioner_routes|done..|].
      unfold provisioner_path. by rewrite of_chars_chars.
    + destruct HA as (_ & _ & _ & HA). eapply (may_route _ scaler_path); [apply scaler_routes|done..|].
      unfold scaler_path. by rewrite of_chars_chars.
    + intros Hc Hmax. specialize (Hheld i eq_refl Hr Hc). destruct L as [L1 L2 _].
      destruct (e_cap e); simpl in Hheld; [done| |]; [rewrite L1 in Hheld|rewrite L2 in Hheld by done]; by apply Hheld.
  - eapply (may_route _ public_path); [apply public_routes|done..|]. apply bool_decide_eq_true_2.
    apply list_elem_of_fmap. eauto.
Qed.

Lemma chain_passes q g : limits_ok g -> unescape (chars (q_raw q)) = Some (chars (q_path q)) ->
  forall q' g0, q_method q' = q_method q -> q_raw q' = q_raw q -> q_path q' = q_path q -> q_key q' = q_key q ->
    g_limit g0 = g_limit g -> g_deletes g0 = g_deletes g -> g_calls g0 = g_calls g -> g_world g0 = g_world g -> g_rec g0 = g_rec g ->
  passes (allowed q (w_db (g_world g))) g (RejectOtherMethods (AuthMiddleware cfg (fun id => HTTPMiddleware cfg (mux cfg id))) q' g0).2.
Proof.
  intros L Hu q' g0 Em Er Ep Ek G1 G2 G3 G4 G5.
  assert (L0 : forall w, limits_ok (set_world w g0)).
  { intros w. by apply (limits_ok_same g). }
  assert (Hstay : forall w, w_db w = w_db (g_world g) -> passes (allowed q (w_db (g_world g))) g (set_world w g0)).
  { intros w Hw. split; simpl; rewrite ?G1, ?G2, ?G3, ?G5; auto using same_counts_refl. }
  unfold RejectOtherMethods. destruct (_ && _).
  { simpl. specialize (Hstay (g_world g0)). destruct g0. apply Hstay. simpl in G4. by rewrite G4. }
  unfold AuthMiddleware. rewrite Em, Ep, Ek, G4.
  pose proof (Auth.auth_middleware_sound (APIKeys cfg) (ProvisionerKeys cfg) (ScalerKeys cfg)
    (Auth.mkRequest (q_method q) (q_path q) (q_key q)) (g_world g)) as HA. unfold wp in HA.
  destruct (Auth.AuthMiddleware _ _ _ _ _) as [ [resp|id] w]; destruct HA as (Hdb & _ & HA); [by apply Hstay|].
  eapply (passes_around _ g (set_world w g0) _ _ G1 G2 G3 Hdb G5); try reflexivity. by apply mux_passes.
Qed.

(** C11: The API's request chain guards every handler.  Whatever handlers do, panics
    included, and however paths are escaped: a request calls at most one handler; a
    caller without identity only reaches the probes; any other has an identity its key
    proves, a provisioner on the tenant routes only, a scaler on the runner routes
    only, a tenant on a capped route while it holds one of at most the maximum of
    slots; a request that calls no handler leaves the tables as they were; every slot
    is given back, the gauge of requests in progress is back where it was; and no panic
    but the abort of a connection leaves the chain.  For a tenant the theorem bounds the
    capped routes; the administrative handlers it also reaches refuse it themselves. *)
Theorem gateway_guards (q : request) (g : gateway) (L : limits_ok g) (Hu : unescape (chars (q_raw q)) = Some (chars (q_path q))) :
  let '(r, g') := NewGatewayRouter cfg q g in
  passes (allowed q (w_db (g_world g))) g g' /\ fate r <> PanicOther.
Proof.
  assert (HC : passes (allowed q (w_db (g_world g))) g (LoggingMiddleware (RejectOtherMethods (AuthMiddleware cfg (fun id => HTTPMiddleware cfg (mux cfg id)))) q g).2).
  { unfold LoggingMiddleware. destruct (Auth.Public _ _); [by apply chain_passes|].
    destruct (Trace.api_context _ _) as [ [ctx trace] k].
    match goal with |- context [RejectOtherMethods _ ?q1 ?g1] => pose proof (chain_passes q g L Hu q1 g1 eq_refl eq_refl eq_refl eq_refl eq_refl eq_refl eq_refl eq_refl eq_refl) as H end.
    destruct (RejectOtherMethods _ _ _) as [r g1]. simpl in *. destruct (fate r); [|done|done]. apply (passes_around _ g g g1); done. }
  unfold NewGatewayRouter, RecoveryMiddleware. destruct (EnableCORS cfg); [unfold CORSMiddleware; case_decide|].
  - split; [apply passes_refl|apply recovered_spec].
  - destruct (LoggingMiddleware _ q g) as [r g']. split; [exact HC|apply recovered_spec].
  - destruct (LoggingMiddleware _ q g) as [r g']. split; [exact HC|apply recovered_spec].
Qed.
End guards.

(** ** A panic, run *)

(** Every handler panics, the exec proxy after it began to answer. *)
Definition panicking : Endpoints := {| took _ _ := 1;
  serve e _ _ w := (match e with ESandboxProxy _ => mkServed [WHeader 200; WData] PanicOther | _ => mkServed [] PanicOther end, w) |}.

Definition toy_config : config := mkConfig {["root"]} {["prov"]} {["scale"]} 2 false false.

Definition ask (method raw key : string) : request := mkRequest method raw (of_chars (default [] (unescape (chars raw)))) key [] Trace.background.

Definition run (q : request) : served * gateway :=
  NewGatewayRouter (St := SQLiteStore (H := StoreInv.StoreInv.quiet_env)) (KE := Auth.plain_keys) (RD := Trace.counting) (EP := panicking)
    toy_config q (init toy_config true Auth.keyed_world).

Example panic_before_writing :
  (run (ask "GET" "/sandboxes/%78" "sbk_0123abcd_x")).1 = answer 500 /\
  (run (ask "POST" "/sandboxes/x/executions" "sbk_0123abcd_x")).1 = mkServed [WHeader 200; WData] PanicAbort.
Proof. by vm_compute. Qed.

(** It is still measured, under the status and the route known by then. *)
Example panic_measured :
  let rec := g_rec (run (ask "GET" "/sandboxes/x" "sbk_0123abcd_x")).2 in
  Metrics.httpInflight rec = 0 /\ Metrics.httpRequests rec !! ["/sandboxes/{id}"; "GET"; "200"] = Some 1.
Proof. by vm_compute. Qed.

(** A request whose handler panics leaves no event in the log. *)
Example panic_not_logged :
  g_log (run (ask "GET" "/sandboxes/x" "sbk_0123abcd_x")).2 = [] /\
  ev_status <$> g_log (run (ask "GET" "/admin/tenants" "scale")).2 = [403].
Proof. by vm_compute. Qed.

Lemma gateway_guards_witness :
  let q := ask "POST" "/sandboxes/x/executions" "sbk_0123abcd_x" in
  g_calls (run q).2 = [mkCall (ESandboxProxy false) (Some (Auth.mkIdentity roleTenant "t1")) CapTenant 1] /\
  passes (allowed (KE := Auth.plain_keys) toy_config q (w_db Auth.keyed_world)) (init toy_config true Auth.keyed_world) (run q).2.
Proof.
  intros q. split; [vm_compute; reflexivity|].
  assert (L : limits_ok toy_config (init toy_config true Auth.keyed_world)) by (split; [reflexivity|reflexivity|intros [] key; vm_compute; discriminate]).
  assert (Hu : unescape (chars (q_raw q)) = Some (chars (q_path q))) by (vm_compute; reflexivity).
  pose proof (gateway_guards (St := SQLiteStore (H := StoreInv.StoreInv.quiet_env)) (KE := Auth.plain_keys) (RD := Trace.counting)
    (EP := panicking) toy_config q (init toy_config true Auth.keyed_world) L Hu) as H.
  unfold run. destruct (NewGatewayRouter _ _ _) as [r g']. exact (proj1 H).
Defined.
End Gateway.
