(* ===== verification/DaemonProxy.v ===== *)
(** * The proxy into a sandbox's network namespace
    ([internal/runner/runtime/firecracker.ee/daemon_proxy.go])

    One listener on the host per sandbox; each connection it accepts is bridged to the
    guest by goroutines of its own.  [Stop] has to wait for all of them, and must
    neither miss one nor wait for the guest.  The goroutines are interleaved by
    labels, each one call or blocking operation. *)

From S2P Require Import Prelude.

Module DaemonProxy.

(** Where [serve] is: before [wg.Add(1)], in [Accept], after it failed, after
    [wg.Done()], returned with [done] closed. *)
Inductive serve_pc := VAdd | VAccept | VFailed | VReturn | VExited.
#[global] Instance serve_pc_eq_dec : EqDecision serve_pc.
Proof. solve_decision. Defined.

(** Where [handle] is: dialling the guest, waiting for the first copy, about to close
    both connections, waiting for the second copy, running its deferred calls, gone. *)
Inductive handle_pc := HDial | HFirst | HClose | HSecond | HDefer | HGone.
#[global] Instance handle_pc_eq_dec : EqDecision handle_pc.
Proof. solve_decision. Defined.

(** Where [Stop] is: not called, about to close the listener, in [<-p.done], in
    [wg.Wait()], returned. *)
Inductive stop_pc := SIdle | SListener | SDone | SWait | SReturned.
#[global] Instance stop_pc_eq_dec : EqDecision stop_pc.
Proof. solve_decision. Defined.

(** One accepted connection: its handler, the two connections, the two copying
    goroutines and the one that waits for [p.ctx]. *)
Record bridge := mkBridge { b_pc : handle_pc; client_open : bool; guest_open : bool; up : bool; down : bool; watch : bool }.

Record tcpDaemonProxy := mkProxy {
  listening : bool;
  cancelled : bool;
  done_closed : bool;
  wg : nat;
  serving : serve_pc;
  bridges : list bridge;
  stopping : stop_pc;
}.

Definition startDaemonProxy : tcpDaemonProxy := mkProxy true false false 0 VAdd [] SIdle.

Inductive label :=
| LAdd | LAccept | LAcceptFails | LServeDone | LServeReturns
| LDialOk (k : nat) | LDialFails (k : nat)
| LUpEnds (k : nat) | LDownEnds (k : nat)
| LCancelSeen (k : nat) | LDoneSeen (k : nat)
| LFirst (k : nat) | LCloseBoth (k : nat) | LSecond (k : nat) | LDeferred (k : nat)
| LCancel | LCloseListener | LDoneReceived | LWaited.

(** [serve] *)
Definition set_serving (p : serve_pc) (n : nat) (s : tcpDaemonProxy) : tcpDaemonProxy :=
  mkProxy (listening s) (cancelled s) (done_closed s) n p (bridges s) (stopping s).

Definition serve (l : label) (s : tcpDaemonProxy) : option tcpDaemonProxy :=
  match l, serving s with
  | LAdd, VAdd => Some (set_serving VAccept (S (wg s)) s)
  | LAccept, VAccept =>
      if listening s
      then Some (mkProxy true (cancelled s) (done_closed s) (wg s) VAdd (bridges s ++ [mkBridge HDial true false false false false]) (stopping s))
      else None
  | LAcceptFails, VAccept => Some (set_serving VFailed (wg s) s)
  | LServeDone, VFailed => Some (set_serving VReturn (pred (wg s)) s)
  | LServeReturns, VReturn => Some (mkProxy (listening s) (cancelled s) true (wg s) VExited (bridges s) (stopping s))
  | _, _ => None
  end.

(** [handle] and its goroutines; the new bridge, and whether [wg.Done()] ran.  A copy
    ends when a connection does or fails, and at the latest when both are closed. *)
Definition handle (ctx_done : bool) (l : label) (b : bridge) : option (bridge * bool) :=
  match l, b_pc b with
  | LDialOk _, HDial => Some (mkBridge HFirst true true true true true, false)
  | LDialFails _, HDial => Some (mkBridge HGone false false false false false, true)
  | LUpEnds _, _ => if up b then Some (mkBridge (b_pc b) (client_open b) (guest_open b) false (down b) (watch b), false) else None
  | LDownEnds _, _ => if down b then Some (mkBridge (b_pc b) (client_open b) (guest_open b) (up b) false (watch b), false) else None
  | LCancelSeen _, _ => if watch b && ctx_done then Some (mkBridge (b_pc b) false false (up b) (down b) false, false) else None
  | LDoneSeen _, HGone => if watch b then Some (mkBridge HGone (client_open b) (guest_open b) (up b) (down b) false, false) else None
  | LFirst _, HFirst => if negb (up b) || negb (down b) then Some (mkBridge HClose (client_open b) (guest_open b) (up b) (down b) (watch b), false) else None
  | LCloseBoth _, HClose => Some (mkBridge HSecond false false (up b) (down b) (watch b), false)
  | LSecond _, HSecond => if negb (up b) && negb (down b) then Some (mkBridge HDefer (client_open b) (guest_open b) false false (watch b), false) else None
  | LDeferred _, HDefer => Some (mkBridge HGone false false (up b) (down b) (watch b), true)
  | _, _ => None
  end.

(** [Stop] *)
Definition set_stopping (p : stop_pc) (s : tcpDaemonProxy) : tcpDaemonProxy :=
  mkProxy (listening s) (cancelled s) (done_closed s) (wg s) (serving s) (bridges s) p.

Definition Stop (l : label) (s : tcpDaemonProxy) : option tcpDaemonProxy :=
  match l, stopping s with
  | LCancel, SIdle => Some (mkProxy (listening s) true (done_closed s) (wg s) (serving s) (bridges s) SListener)
  | LCloseListener, SListener => Some (mkProxy false (cancelled s) (done_closed s) (wg s) (serving s) (bridges s) SDone)
  | LDoneReceived, SDone => if done_closed s then Some (set_stopping SWait s) else None
  | LWaited, SWait => if decide (wg s = 0%nat) then Some (set_stopping SReturned s) else None
  | _, _ => None
  end.

(** Which bridge a label is about. *)
Definition of_bridge (l : label) : option nat :=
  match l with
  | LDialOk k | LDialFails k | LUpEnds k | LDownEnds k | LCancelSeen k | LDoneSeen k | LFirst k | LCloseBoth k | LSecond k | LDeferred k => Some k
  | _ => None
  end.

Definition exec (l : label) (s : tcpDaemonProxy) : option tcpDaemonProxy :=
  match of_bridge l with
  | Some k =>
      match bridges s !! k with
      | Some b =>
          match handle (cancelled s) l b with
          | Some (b', d) => Some (mkProxy (listening s) (cancelled s) (done_closed s) (if d then pred (wg s) else wg s)
                                    (serving s) (<[k := b']> (bridges s)) (stopping s))
          | None => None
          end
      | None => None
      end
  | None => match serve l s with Some s' => Some s' | None => Stop l s end
  end.

Definition step (s s' : tcpDaemonProxy) : Prop := exists l, exec l s = Some s'.
Definition reachable (s : tcpDaemonProxy) : Prop := rtc step startDaemonProxy s.

(** What happens without the client, the guest or the network doing anything: not a
    connection coming in, a dial going through, or a copy ending while a connection is
    open.  [Accept] fails once the listener is closed, a dial once its context is. *)
Definition own (l : label) (s : tcpDaemonProxy) : bool :=
  match l with
  | LAccept | LDialOk _ => false
  | LAcceptFails => negb (listening s)
  | LDialFails _ => cancelled s
  | LUpEnds k | LDownEnds k => match bridges s !! k with Some b => negb (client_open b) && negb (guest_open b) | None => false end
  | _ => true
  end.

(** ** The invariant *)

Definition busy (b : bridge) : nat := if decide (b_pc b = HGone) then 0 else 1.

(** A handler is only past closing its connections when they are closed, and only gone
    when its copies are done. *)
Definition bridge_ok (b : bridge) : bool :=
  match b_pc b with
  | HDial => negb (up b) && negb (down b) && negb (watch b)
  | HFirst => watch b || negb (client_open b) && negb (guest_open b)
  | HClose => negb (up b) || negb (down b)
  | HSecond => negb (client_open b) && negb (guest_open b)
  | HDefer | HGone => negb (client_open b) && negb (guest_open b) && negb (up b) && negb (down b)
  end.

Definition accepting (p : serve_pc) : nat := match p with VAccept | VFailed => 1 | _ => 0 end.

(** How far [Stop] is says what has happened. *)
Definition phase_ok (s : tcpDaemonProxy) : bool :=
  Bool.eqb (done_closed s) (bool_decide (serving s = VExited)) &&
  match stopping s with
  | SIdle => true
  | SListener => cancelled s
  | SDone => cancelled s && negb (listening s)
  | SWait | SReturned => cancelled s && negb (listening s) && bool_decide (serving s = VExited)
  end.

Record proxy_inv (s : tcpDaemonProxy) : Prop := {
  in_bridges : Forall (fun b => bridge_ok b = true) (bridges s);
  in_wg : wg s = (accepting (serving s) + sum_list_with busy (bridges s))%nat;
  in_phase : phase_ok s = true;
  in_returned : stopping s = SReturned -> wg s = 0%nat;
}.

Lemma proxy_start_inv : proxy_inv startDaemonProxy.
Proof. by split. Qed.

Ltac bridge_cases b H :=
  let pc := fresh "pc" in
  destruct b as [pc [] [] [] [] []]; destruct pc; simpl in H; try discriminate H.

Lemma handle_ok c l b b' d : bridge_ok b = true -> handle c l b = Some (b', d) ->
  bridge_ok b' = true /\ busy b = (busy b' + (if d then 1 else 0))%nat.
Proof.
  intros Hb. bridge_cases b Hb; destruct l; simpl; try discriminate; destruct c; simpl; try discriminate;
    intros [= <- <-]; split; reflexivity.
Qed.

(** A label of [serve] or [Stop]: what it leaves of the rest of the state. *)
Lemma main_step l s s' : of_bridge l = None -> exec l s = Some s' ->
  exists li ca dc n sv bs st, s' = mkProxy li ca dc n sv bs st /\
    (bs = bridges s \/ bs = bridges s ++ [mkBridge HDial true false false false false]).
Proof.
  intros El H. unfold exec in H. rewrite El in H. destruct s as [li ca dc n sv bs st].
  destruct l; try discriminate El; destruct sv; simpl in H; destruct st; simpl in H; repeat case_match; simplify_eq; eauto 10.
Qed.

Lemma main_inv l s s' : of_bridge l = None -> exec l s = Some s' -> phase_ok s = true ->
  wg s = (accepting (serving s) + sum_list_with busy (bridges s))%nat -> (stopping s = SReturned -> wg s = 0%nat) ->
  wg s' = (accepting (serving s') + sum_list_with busy (bridges s'))%nat /\ phase_ok s' = true /\ (stopping s' = SReturned -> wg s' = 0%nat).
Proof.
  intros El H HP Hwg Hr. unfold exec in H. rewrite El in H. destruct s as [li ca dc n sv bs st].
  destruct l; try discriminate El; clear El; destruct sv; simpl in *; try discriminate H; destruct st; simpl in *; try discriminate H;
    destruct li, ca, dc; try discriminate H; try discriminate HP; simpl in *; repeat case_decide; simplify_eq/=;
    rewrite ?sum_snoc; unfold busy in *; simpl; repeat split; try done; try lia.
Qed.

Lemma proxy_step_inv s s' : step s s' -> proxy_inv s -> proxy_inv s'.
Proof.
  intros [l H] [I1 I2 I3 I4]. destruct (of_bridge l) as [k|] eqn:El.
  - unfold exec in H. rewrite El in H.
    destruct (bridges s !! k) as [b|] eqn:Eb; [|done]. destruct (handle (cancelled s) l b) as [ [b' d]|] eqn:Eh; [|done].
    injection H as <-.
    assert (Hb : bridge_ok b = true) by (by eapply (Forall_lookup_1 _ _ _ _ I1)).
    destruct (handle_ok _ _ _ _ _ Hb Eh) as [Hb' Hbusy]. pose proof (sum_insert busy _ _ _ b' Eb) as HS.
    split; simpl; [by apply Forall_insert|destruct d; lia|done|]. intros Hr. specialize (I4 Hr). destruct d; lia.
  - destruct (main_inv l s s' El H I3 I2 I4) as (J2 & J3 & J4). split; try done.
    destruct (main_step l s s' El H) as (li & ca & dc & n & sv & bs & st & -> & [-> | ->]); simpl; [done|].
    apply Forall_app. split; [done|]. by repeat constructor.
Qed.

Lemma reachable_proxy_inv s : reachable s -> proxy_inv s.
Proof. unfold reachable. intros H. pose proof proxy_start_inv as I. induction H; eauto using proxy_step_inv. Qed.

(** ** What [Stop] waits for *)

(** How many steps are left once the listener is closed. *)
Definition serve_work (p : serve_pc) : nat := match p with VAdd => 4 | VAccept => 3 | VFailed => 2 | VReturn => 1 | VExited => 0 end.
Definition handle_work (p : handle_pc) : nat := match p with HDial => 8 | HFirst => 4 | HClose => 3 | HSecond => 2 | HDefer => 1 | HGone => 0 end.
Definition stop_work (p : stop_pc) : nat := match p with SIdle => 4 | SListener => 3 | SDone => 2 | SWait => 1 | SReturned => 0 end.
Definition bridge_work (b : bridge) : nat := handle_work (b_pc b) + Nat.b2n (up b) + Nat.b2n (down b) + Nat.b2n (watch b).
Definition work (s : tcpDaemonProxy) : nat := serve_work (serving s) + sum_list_with bridge_work (bridges s) + stop_work (stopping s).

Lemma handle_works c l b b' d : handle c l b = Some (b', d) -> (bridge_work b' < bridge_work b)%nat.
Proof.
  unfold bridge_work. destruct b as [pc co go u w wa]. destruct l; simpl; try discriminate; destruct pc; simpl; try discriminate;
    destruct u, w, wa, c; simpl; try discriminate; intros [= <- <-]; simpl; lia.
Qed.

Lemma step_works s s' : listening s = false -> step s s' -> (work s' < work s)%nat.
Proof.
  intros Hl [l H]. unfold exec in H. destruct (of_bridge l) as [k|] eqn:El.
  - destruct (bridges s !! k) as [b|] eqn:Eb; [|done]. destruct (handle (cancelled s) l b) as [ [b' d]|] eqn:Eh; [|done].
    injection H as <-. unfold work. simpl. pose proof (sum_insert bridge_work _ _ _ b' Eb). apply handle_works in Eh. lia.
  - destruct s as [li ca dc n sv bs st]. simpl in Hl. subst li. unfold work.
    destruct l; try discriminate El; destruct sv; simpl in H; destruct st; simpl in H; repeat case_match; simplify_eq/=; lia.
Qed.

(** Once the context is done, a handler has something to do that depends on nobody. *)
Lemma handle_progress s k b : bridges s !! k = Some b -> bridge_ok b = true -> b_pc b <> HGone -> cancelled s = true ->
  exists l s', own l s = true /\ exec l s = Some s'.
Proof.
  intros Hk Hb Hpc Hc.
  assert (Hex : forall l, of_bridge l = Some k -> own l s = true -> is_Some (handle true l b) -> exists l s', own l s = true /\ exec l s = Some s').
  { intros l El Ho [ [b' d] Hh]. exists l. eexists. split; [done|]. unfold exec. by rewrite El, Hk, Hc, Hh. }
  assert (Hown : client_open b = false -> guest_open b = false -> own (LUpEnds k) s = true /\ own (LDownEnds k) s = true).
  { intros E1 E2. simpl. rewrite Hk, E1, E2. done. }
  destruct b as [pc co go u w wa]. destruct pc; simpl in *; [..|done].
  - apply (Hex (LDialFails k)); eauto.
  - destruct wa; [apply (Hex (LCancelSeen k)); eauto|]. destruct co, go; try discriminate Hb. destruct Hown as [Hu Hd]; [done..|].
    destruct u; [apply (Hex (LUpEnds k)); eauto|]. apply (Hex (LFirst k)); eauto.
  - apply (Hex (LCloseBoth k)); eauto.
  - destruct co, go; try discriminate Hb. destruct Hown as [Hu Hd]; [done..|].
    destruct u; [apply (Hex (LUpEnds k)); eauto|]. destruct w; [apply (Hex (LDownEnds k)); eauto|]. apply (Hex (LSecond k)); eauto.
  - apply (Hex (LDeferred k)); eauto.
Qed.

Lemma stop_progress s : proxy_inv s -> stopping s <> SIdle -> stopping s <> SReturned -> exists l s', own l s = true /\ exec l s = Some s'.
Proof.
  intros [I1 I2 I3 I4] Hi Hr. unfold phase_ok in I3. apply andb_true_iff in I3 as [Hd Hp]. apply Bool.eqb_prop in Hd.
  destruct (stopping s) eqn:Est; try done.
  - exists LCloseListener. eexists. split; [done|]. unfold exec. simpl. by rewrite Est.
  - apply andb_true_iff in Hp as [_ Hl%negb_true_iff]. destruct (serving s) eqn:Es.
    + exists LAdd. eexists. split; [done|]. unfold exec. simpl. by rewrite Es.
    + exists LAcceptFails. eexists. split; [by simpl; rewrite Hl|]. unfold exec. simpl. by rewrite Es.
    + exists LServeDone. eexists. split; [done|]. unfold exec. simpl. by rewrite Es.
    + exists LServeReturns. eexists. split; [done|]. unfold exec. simpl. by rewrite Es.
    + exists LDoneReceived. eexists. split; [done|]. unfold exec. simpl. rewrite Est, Hd. done.
  - apply andb_true_iff in Hp as [ [Hc _]%andb_true_iff Hs%bool_decide_eq_true].
    destruct (decide (wg s = 0%nat)) as [Hw|Hw].
    + exists LWaited. eexists. split; [done|]. unfold exec. simpl. rewrite Est. by rewrite decide_True.
    + rewrite Hs in I2. simpl in I2.
      assert (HE : Exists (fun b => busy b <> 0%nat) (bridges s)).
      { apply not_Forall_Exists; [apply _|]. intros HF. apply Hw. rewrite I2. clear -HF. induction HF as [|b l Hb _ IH]; simpl; [done|]. lia. }
      apply Exists_exists in HE as (b & [k Hk]%list_elem_of_lookup & Hb). eapply handle_progress; [exact Hk| | |done].
      * by eapply (Forall_lookup_1 _ _ _ _ I1).
      * intros E. apply Hb. unfold busy. by rewrite decide_True.
Qed.

(** Nothing but the watcher of a connection is left of a bridge that is done. *)
Definition drained (b : bridge) : Prop := b_pc b = HGone /\ client_open b = false /\ guest_open b = false /\ up b = false /\ down b = false.

Definition gone_bridge : bridge := mkBridge HGone false false false false false.

Definition set_bridges (bs : list bridge) (s : tcpDaemonProxy) : tcpDaemonProxy :=
  mkProxy (listening s) (cancelled s) (done_closed s) (wg s) (serving s) bs (stopping s).

Lemma returned_drained s : proxy_inv s -> stopping s = SReturned -> serving s = VExited /\ Forall drained (bridges s).
Proof.
  intros [I1 I2 I3 I4] Hr. specialize (I4 Hr). rewrite I4 in I2. unfold phase_ok in I3. rewrite Hr in I3.
  apply andb_true_iff in I3 as [_ [_ Hs%bool_decide_eq_true]%andb_true_iff]. split; [done|].
  assert (Hz : Forall (fun b => busy b = 0%nat) (bridges s)) by (apply sum_zero; lia).
  apply Forall_forall. intros b Hb. rewrite Forall_forall in I1, Hz. specialize (I1 b Hb). specialize (Hz b Hb).
  unfold busy in Hz. case_decide as Hg; [|done]. unfold bridge_ok in I1. rewrite Hg in I1.
  rewrite !andb_true_iff, !negb_true_iff in I1. unfold drained. naive_solver.
Qed.

(** After [Stop] the only steps left are those of watchers, and each is its last. *)
Lemma returned_steps s l s' : serving s = VExited -> stopping s = SReturned -> Forall drained (bridges s) -> exec l s = Some s' ->
  exists k b, bridges s !! k = Some b /\ watch b = true /\ s' = set_bridges (<[k := gone_bridge]> (bridges s)) s.
Proof.
  intros Hs Hr Hd H. unfold exec in H. destruct (of_bridge l) as [k|] eqn:El.
  - destruct (bridges s !! k) as [b|] eqn:Eb; [|done]. pose proof (Forall_lookup_1 _ _ _ _ Hd Eb) as (E1 & E2 & E3 & E4 & E5).
    exists k, b. split; [done|]. destruct b as [pc co go u w wa]. simpl in *. subst.
    unfold set_bridges, gone_bridge. destruct l; simpl in H; try discriminate H; destruct wa; simpl in H; try discriminate H;
      destruct (cancelled s); simpl in H; try discriminate H; injection H as <-; by split.
  - destruct l; simpl in H; rewrite ?Hs, ?Hr in H; try discriminate H; try discriminate El; unfold serve, Stop in H; rewrite Hs, Hr in H; discriminate H.
Qed.

(** C21: [Stop] of a sandbox's proxy misses nothing and depends on nobody.  When it has
    returned, the accepting goroutine has ended, every connection that was ever accepted
    is closed on both sides, and its handler and its copies are done, whatever was
    accepted while it ran.  The goroutine that watches the context of a connection is
    not waited for: those still there can end at once, and that is the only thing
    anything of the proxy can still do.  Until [Stop] returns some goroutine can move on
    whatever the clients, the guest and the network do, and once the listener is closed
    every step of any goroutine brings it nearer to the end. *)
Theorem stop_drains (s : tcpDaemonProxy) (HR : reachable s) :
  (stopping s = SReturned -> serving s = VExited /\ Forall drained (bridges s) /\
     (forall k b, bridges s !! k = Some b -> watch b = true -> is_Some (exec (LDoneSeen k) s)) /\
     (forall s', step s s' -> exists k b, bridges s !! k = Some b /\ watch b = true /\ s' = set_bridges (<[k := gone_bridge]> (bridges s)) s)) /\
  (stopping s <> SIdle -> stopping s <> SReturned -> exists l s', own l s = true /\ exec l s = Some s') /\
  (listening s = false -> forall s', step s s' -> (work s' < work s)%nat).
Proof.
  pose proof (reachable_proxy_inv s HR) as I. split; [|split; [by apply stop_progress|intros; by apply step_works]].
  intros Hr. destruct (returned_drained s I Hr) as [Hs Hd]. split; [done|]. split; [done|]. split.
  - intros k b Hk Hw. destruct (Forall_lookup_1 _ _ _ _ Hd Hk) as (E1 & _). unfold exec. simpl. rewrite Hk. simpl. rewrite E1, Hw. by eexists.
  - intros s' [l Hl]. by apply (returned_steps s l).
Qed.

(** ** Runs *)

Fixpoint run (ls : list label) (s : tcpDaemonProxy) : option tcpDaemonProxy :=
  match ls with [] => Some s | l :: ls' => match exec l s with Some s' => run ls' s' | None => None end end.

Lemma run_reachable ls s s' : reachable s -> run ls s = Some s' -> reachable s'.
Proof.
  revert s. induction ls as [|l ls IH]; intros s HR; simpl; [by intros [= <-]|]. destruct (exec l s) as [s1|] eqn:E; [|done].
  apply IH. eapply rtc_r; [exact HR|]. by exists l.
Qed.

(** A connection is accepted while [Stop] is on its way, and its dial goes through. *)
Definition late_connection : list label :=
  [LAdd; LCancel; LAccept; LAdd; LCloseListener; LDialOk 0; LAcceptFails; LServeDone; LServeReturns; LDoneReceived;
   LCancelSeen 0; LUpEnds 0; LFirst 0; LCloseBoth 0; LDownEnds 0; LSecond 0; LDeferred 0; LWaited].

Lemma stop_drains_witness : exists s, run late_connection startDaemonProxy = Some s /\ stopping s = SReturned /\
  serving s = VExited /\ Forall drained (bridges s).
Proof.
  eexists. split; [vm_compute; reflexivity|]. split; [reflexivity|].
  match goal with |- serving ?s = _ /\ _ => destruct (stop_drains s) as [H _]; [|destruct (H eq_refl) as (H1 & H2 & _); by split] end.
  apply (run_reachable late_connection startDaemonProxy); [apply rtc_refl|vm_compute; reflexivity].
Defined.

(** A watcher may be left when [Stop] has returned: it saw neither the cancelled context
    nor the end of its handler yet. *)
Example watcher_outlives_stop : exists s, run [LAdd; LAccept; LAdd; LDialOk 0; LUpEnds 0; LFirst 0; LCloseBoth 0; LDownEnds 0; LSecond 0; LDeferred 0;
    LCancel; LCloseListener; LAcceptFails; LServeDone; LServeReturns; LDoneReceived; LWaited] startDaemonProxy = Some s /\
  stopping s = SReturned /\ watch <$> bridges s = [true].
Proof. eexists. split; [vm_compute; reflexivity|]. done. Qed.

(** Any error of [Accept] ends [serve], also one of a listener that is open: no
    connection is accepted again although nobody called [Stop]. *)
Lemma accept_error_is_final s s' : serving s = VFailed \/ serving s = VReturn \/ serving s = VExited -> rtc step s s' ->
  length (bridges s') = length (bridges s).
Proof.
  intros H HR. revert H. induction HR as [s|s s1 s2 [l Hl] _ IH]; intros H; [done|].
  assert (HS : (serving s1 = VFailed \/ serving s1 = VReturn \/ serving s1 = VExited) /\ length (bridges s1) = length (bridges s)).
  { unfold exec in Hl. destruct (of_bridge l) as [k|].
    - destruct (bridges s !! k) as [b|]; [|done]. destruct (handle _ _ _) as [ [b' d]|]; [|done]. injection Hl as <-. simpl. by rewrite length_insert.
    - destruct s as [li ca dc n sv bs st]. simpl in H. destruct H as [-> | [-> | ->] ]; destruct l; simpl in Hl; try discriminate Hl;
        destruct st; simpl in Hl; try discriminate Hl; repeat case_match; simplify_eq/=; auto. }
  destruct HS as [HS <-]. by apply IH.
Qed.

Example accept_error_leaves_deaf_listener : exists s, run [LAdd; LAcceptFails; LServeDone; LServeReturns] startDaemonProxy = Some s /\
  listening s = true /\ stopping s = SIdle /\ exec LAccept s = None.
Proof. eexists. split; [vm_compute; reflexivity|]. done. Qed.
End DaemonProxy.
