(* ===== verification/CommandRun.v ===== *)
(** * Running a command ([internal/daemon]: HandleExec of exec.go, the goroutine of
    GetOrCreate that calls it, and user.go)

    The shell runs in a process group of its own; goroutines read its two pipes and
    kill the group when the execution's context ends, while the caller waits for the
    shell, drains the pipes and reports.  Each label is one call or blocking operation
    of a goroutine, or something the command does. *)

From S2P Require Import Prelude GoStrings Ids Wire Exec.

Module CommandRun.
Import GoStrings Wire Exec.

(** The execution's context: live, past its deadline, or cancelled by a delete. *)
Inductive ctx_state := CLive | CDeadline | CCancelled.
#[global] Instance ctx_state_eq_dec : EqDecision ctx_state.
Proof. solve_decision. Defined.

(** The shell; [ExitCode] is -1 for one that was killed by a signal. *)
Inductive proc_state := PNone | PRunning | PExited (code : Z) (signaled : bool).

(** One of the goroutines that run [streamLines]: what it has read and not emitted yet,
    whether its pipe is open, and whether it has returned. *)
Record stream := mkStream { s_pending : list (list ascii); s_open : bool; s_done : bool }.

(** Where [HandleExec] is: before [cmd.Start], in [Process.Wait], in each
    [drainReaders] before and after it closed the pipe, before [finalizeCmdWait],
    before the report, returned. *)
Inductive main_pc := MStart | MWait | MDrainOut | MOutClosed | MDrainErr | MErrClosed | MFinal | MReport | MReturned.
#[global] Instance main_pc_eq_dec : EqDecision main_pc.
Proof. solve_decision. Defined.

Record run := mkRun {
  r_pc : main_pc;
  r_ctx : ctx_state;
  r_proc : proc_state;
  r_killer : bool;        (* the goroutine that kills the group is waiting *)
  r_killed : bool;        (* SIGKILL was sent to the group *)
  r_waitErr : bool;
  r_out : stream;
  r_err : stream;
  r_start : Z;
  r_ex : Execution;
  r_log : list Response;  (* everything that was appended *)
}.

Inductive label :=
| LStart (now : Z) | LStartFails (msg : list ascii) (now : Z)
| LCtx (c : ctx_state)
| LKill | LKillerDone
| LExit (code : Z) (signaled : bool)
| LReap | LWaitFails
| LRead (stdout : bool) (chunks : list (list ascii)) | LEmit (stdout : bool) (now : Z) | LEnd (stdout : bool)
| LGrace | LDrained | LFinal | LReport (now : Z).

Definition set_pc (p : main_pc) (s : run) : run :=
  mkRun p (r_ctx s) (r_proc s) (r_killer s) (r_killed s) (r_waitErr s) (r_out s) (r_err s) (r_start s) (r_ex s) (r_log s).
Definition get_stream (stdout : bool) (s : run) : stream := if stdout then r_out s else r_err s.
Definition set_stream (stdout : bool) (x : stream) (s : run) : run :=
  mkRun (r_pc s) (r_ctx s) (r_proc s) (r_killer s) (r_killed s) (r_waitErr s)
    (if stdout then x else r_out s) (if stdout then r_err s else x) (r_start s) (r_ex s) (r_log s).
(** [callback], which is [ex.append] *)
Definition callback (r : Response) (now : Z) (s : run) : run :=
  mkRun (r_pc s) (r_ctx s) (r_proc s) (r_killer s) (r_killed s) (r_waitErr s) (r_out s) (r_err s) (r_start s)
    (append r now (r_ex s)) (r_log s ++ [r]).

(** ** What is reported *)

Definition output (stdout : bool) (d : list ascii) : Response :=
  mkResponse None (if stdout then Stdout else Stderr) [] d 0 None 0 None None [].

Definition exit_response (s : run) (now : Z) : Response :=
  let '(exitCode, signaled) := match r_proc s with PExited c sg => if r_waitErr s then (0, false) else (c, sg) | _ => (0, false) end in
  let exitCode := if r_waitErr s then -1 else exitCode in
  let timedOut := bool_decide (r_ctx s = CDeadline) in
  mkResponse None Exit [] [] exitCode (Some (bool_decide (exitCode = 0))) (now - r_start s) (Some timedOut)
    (Some (signaled || r_waitErr s || timedOut)) [].

(** ** The goroutines *)

Definition exec (l : label) (s : run) : option run :=
  match l, r_pc s with
  | LStart now, MStart =>
      Some (mkRun MWait (r_ctx s) PRunning true false false (mkStream [] true false) (mkStream [] true false) now (r_ex s) (r_log s))
  | LStartFails msg now, MStart => Some (set_pc MReturned (callback (newErrorResponse msg) now s))
  | LCtx c, _ =>
      if decide (r_ctx s = CLive)
      then Some (mkRun (r_pc s) c (r_proc s) (r_killer s) (r_killed s) (r_waitErr s) (r_out s) (r_err s) (r_start s) (r_ex s) (r_log s))
      else None
  | LKill, _ =>
      if r_killer s && bool_decide (r_ctx s <> CLive)
      then Some (mkRun (r_pc s) (r_ctx s) (r_proc s) false true (r_waitErr s) (r_out s) (r_err s) (r_start s) (r_ex s) (r_log s))
      else None
  | LKillerDone, p =>
      if r_killer s && negb (bool_decide (p = MStart)) && negb (bool_decide (p = MWait))
      then Some (mkRun p (r_ctx s) (r_proc s) false (r_killed s) (r_waitErr s) (r_out s) (r_err s) (r_start s) (r_ex s) (r_log s))
      else None
  | LExit code signaled, p =>
      match r_proc s with
      | PRunning => Some (mkRun p (r_ctx s) (PExited code signaled) (r_killer s) (r_killed s) (r_waitErr s) (r_out s) (r_err s) (r_start s) (r_ex s) (r_log s))
      | _ => None
      end
  | LReap, MWait => match r_proc s with PExited _ _ => Some (set_pc MDrainOut s) | _ => None end
  | LWaitFails, MWait =>
      Some (mkRun MDrainOut (r_ctx s) (r_proc s) (r_killer s) (r_killed s) true (r_out s) (r_err s) (r_start s) (r_ex s) (r_log s))
  | LRead stdout chunks, _ =>
      let x := get_stream stdout s in
      if s_open x && negb (s_done x) then Some (set_stream stdout (mkStream (s_pending x ++ chunks) true false) s) else None
  | LEmit stdout now, _ =>
      let x := get_stream stdout s in
      match s_pending x with
      | d :: rest => Some (set_stream stdout (mkStream rest (s_open x) (s_done x)) (callback (output stdout d) now s))
      | [] => None
      end
  | LEnd stdout, _ =>
      let x := get_stream stdout s in
      match s_pending x with
      | [] => if s_done x then None else Some (set_stream stdout (mkStream [] (s_open x) true) s)
      | _ => None
      end
  | LGrace, MDrainOut => Some (set_pc MOutClosed (set_stream true (mkStream (s_pending (r_out s)) false (s_done (r_out s))) s))
  | LGrace, MDrainErr => Some (set_pc MErrClosed (set_stream false (mkStream (s_pending (r_err s)) false (s_done (r_err s))) s))
  | LDrained, MDrainOut | LDrained, MOutClosed => if s_done (r_out s) then Some (set_pc MDrainErr s) else None
  | LDrained, MDrainErr | LDrained, MErrClosed => if s_done (r_err s) then Some (set_pc MFinal s) else None
  | LFinal, MFinal => Some (set_pc MReport s)
  | LReport now, MReport => Some (set_pc MReturned (callback (exit_response s now) now s))
  | _, _ => None
  end.

(** [GetOrCreate]: the execution with its started event, and the goroutine. *)
Definition idle : stream := mkStream [] false true.
Definition launch (max : Z) (execID : list ascii) (now : Z) : run :=
  callback (newStartedResponse execID) now (mkRun MStart CLive PNone false false false idle idle 0 (new_execution max) []).

Definition step (s s' : run) : Prop := exists l, exec l s = Some s'.
Definition reachable (max : Z) (execID : list ascii) (now : Z) (s : run) : Prop := rtc step (launch max execID now) s.

(** What happens without the command doing anything: a killed group ends, a pipe that
    was closed reads no more, the grace period passes. *)
Definition own (l : label) (s : run) : bool :=
  match l with
  | LStartFails _ _ | LCtx _ | LWaitFails | LRead _ _ => false
  | LExit code signaled => r_killed s && signaled && bool_decide (code = -1)
  | LEnd stdout => negb (s_open (get_stream stdout s))
  | _ => true
  end.

(** ** The invariant *)

Definition is_output (r : Response) : Prop := Type_ r = Stdout \/ Type_ r = Stderr.

(** The started event, output, and once [HandleExec] has returned one terminal event. *)
Definition log_ok (id : list ascii) (pc : main_pc) (l : list Response) : Prop :=
  exists body, Forall is_output body /\
    if decide (pc = MReturned) then exists r, l = newStartedResponse id :: body ++ [r] /\ isTerminal r = true
    else l = newStartedResponse id :: body.

(** A reader that has returned has nothing left to emit. *)
Definition stream_ok (x : stream) : Prop := s_done x = true -> s_pending x = [].

(** How far [HandleExec] is says which readers have returned and who will end the shell. *)
Definition phase_ok (s : run) : Prop :=
  match r_pc s with
  | MStart => s_done (r_out s) = true /\ s_done (r_err s) = true
  | MWait => r_killer s = true \/ r_killed s = true
  | MDrainOut | MOutClosed => True
  | MDrainErr | MErrClosed => s_done (r_out s) = true
  | MFinal | MReport | MReturned => s_done (r_out s) = true /\ s_done (r_err s) = true
  end.

Record run_inv (id : list ascii) (s : run) : Prop := {
  ri_out : stream_ok (r_out s);
  ri_err : stream_ok (r_err s);
  ri_phase : phase_ok s;
  ri_proc : r_pc s = MWait -> r_proc s <> PNone;
  ri_log : log_ok id (r_pc s) (r_log s);
}.

Lemma launch_inv max id now : run_inv id (launch max id now).
Proof. split; simpl; try done. by exists []. Qed.

Lemma log_output id pc l r : pc <> MReturned -> log_ok id pc l -> is_output r -> log_ok id pc (l ++ [r]).
Proof.
  intros Hpc (body & Hb & H) Hr. rewrite decide_False in H by done. subst l. exists (body ++ [r]).
  split; [apply Forall_app; split; [done|by apply Forall_singleton]|]. by rewrite decide_False.
Qed.

Lemma log_terminal id pc l r : pc <> MReturned -> log_ok id pc l -> isTerminal r = true -> log_ok id MReturned (l ++ [r]).
Proof. intros Hpc (body & Hb & H) Hr. rewrite decide_False in H by done. subst l. exists body. split; [done|]. rewrite decide_True by done. eauto. Qed.

Lemma log_running id pc pc' l : pc <> MReturned -> pc' <> MReturned -> log_ok id pc l -> log_ok id pc' l.
Proof. intros H1 H2 (body & Hb & H). exists body. split; [done|]. rewrite decide_False in H by done. by rewrite decide_False. Qed.
#[local] Hint Resolve log_output log_terminal log_running : core.

(** Output is only emitted while nothing terminal was. *)
Lemma pending_running id s stdout d rest : run_inv id s -> s_pending (get_stream stdout s) = d :: rest -> r_pc s <> MReturned.
Proof.
  intros [Ho He Hp _ _] Hd E. unfold phase_ok in Hp. rewrite E in Hp. destruct Hp as [D1 D2].
  unfold stream_ok in Ho, He. destruct stdout; simpl in Hd; [rewrite Ho in Hd by done|rewrite He in Hd by done]; done.
Qed.

(** The report and the labels of the pipes one by one; every other label moves one
    field. *)
Lemma emit_inv id s stdout now s' : run_inv id s -> exec (LEmit stdout now) s = Some s' -> run_inv id s'.
Proof.
  intros I H. cbn [exec] in H. destruct (s_pending (get_stream stdout s)) as [|d rest] eqn:Ed; [done|]. injection H as <-.
  pose proof (pending_running id s stdout d rest I Ed) as Hpc. destruct I as [Ho He Hp Hr Hl].
  assert (Hnd : s_done (get_stream stdout s) = false).
  { destruct (s_done (get_stream stdout s)) eqn:E; [|done]. destruct stdout; simpl in *; [rewrite Ho in Ed by done|rewrite He in Ed by done]; done. }
  split; simpl; try done.
  - destruct stdout; simpl in *; [unfold stream_ok; simpl; congruence|done].
  - destruct stdout; simpl in *; [done|unfold stream_ok; simpl; congruence].
  - unfold phase_ok in *. destruct stdout; simpl in *; destruct (r_pc s); simpl in *; congruence || (destruct Hp; congruence) || done.
  - apply log_output; [done|done|]. unfold is_output. destruct stdout; simpl; auto.
Qed.

Lemma end_inv id s stdout s' : run_inv id s -> exec (LEnd stdout) s = Some s' -> run_inv id s'.
Proof.
  intros [Ho He Hp Hr Hl] H. cbn [exec] in H. destruct (s_pending (get_stream stdout s)) eqn:Ed; [|done].
  destruct (s_done (get_stream stdout s)); [done|]. injection H as <-. split; simpl; try done.
  - by destruct stdout.
  - by destruct stdout.
  - unfold phase_ok in *. destruct stdout; simpl; destruct (r_pc s); simpl in *; tauto.
Qed.

Lemma read_inv id s stdout chunks s' : run_inv id s -> exec (LRead stdout chunks) s = Some s' -> run_inv id s'.
Proof.
  intros [Ho He Hp Hr Hl] H. cbn [exec] in H. destruct (s_open _ && _) eqn:E; [|done]. injection H as <-.
  apply andb_true_iff in E as [_ E%negb_true_iff]. split; simpl; try done.
  - destruct stdout; simpl in *; [unfold stream_ok; simpl; congruence|done].
  - destruct stdout; simpl in *; [done|unfold stream_ok; simpl; congruence].
  - unfold phase_ok in *. destruct stdout; simpl in *; destruct (r_pc s); simpl in *; congruence || (destruct Hp; congruence) || done.
Qed.

Lemma killer_done_inv id s s' : run_inv id s -> exec LKillerDone s = Some s' -> run_inv id s'.
Proof.
  intros [Ho He Hp Hr Hl] H. cbn [exec] in H. destruct (_ && _) eqn:E; [|by destruct (r_pc s)].
  rewrite !andb_true_iff, !negb_true_iff, !bool_decide_eq_false in E. destruct E as [ [_ _] Hw].
  assert (s' = mkRun (r_pc s) (r_ctx s) (r_proc s) false (r_killed s) (r_waitErr s) (r_out s) (r_err s) (r_start s) (r_ex s) (r_log s)) as ->
    by (destruct (r_pc s); congruence).
  split; simpl; try done. unfold phase_ok in *. simpl. by destruct (r_pc s).
Qed.

Lemma report_terminal s now : isTerminal (exit_response s now) = true.
Proof. unfold exit_response. by destruct (r_proc s); simpl; [| |destruct (r_waitErr s)]. Qed.

Lemma step_run_inv id s s' : step s s' -> run_inv id s -> run_inv id s'.
Proof.
  intros [l H] I. destruct l; try (by eapply emit_inv); try (by eapply end_inv); try (by eapply read_inv); try (by eapply killer_done_inv);
    destruct I as [Ho He Hp Hr Hl]; unfold phase_ok, stream_ok in *;
    destruct s as [pc ctx pr ki kd we [po oo od] [pe oe ed] st ex lg]; simpl in *; destruct pc; simpl in *; try discriminate H;
    repeat case_match; simplify_eq/=;
    try (split; unfold phase_ok, stream_ok; simpl in *; try done; first [tauto|by left|by right|eapply log_running; [..|done]; done]).
  all: split; unfold phase_ok, stream_ok; simpl; try done; eapply log_terminal; [|done|]; [done|]; first [done|apply report_terminal].
Qed.

Lemma reachable_run_inv max id now s : reachable max id now s -> run_inv id s.
Proof. unfold reachable. intros H. pose proof (launch_inv max id now) as I. induction H; eauto using step_run_inv. Qed.

(** ** The execution's buffer

    [Exec] takes for granted that nothing is appended to a completed execution; this is
    where that comes from. *)

Definition buffered (max : Z) (s : run) : Prop := rtc (Exec.step sane) (initial max) (mkSys (r_ex s) (r_log s) ∅ false).

Lemma log_not_terminal id pc l : pc <> MReturned -> log_ok id pc l -> match last l with Some r => isTerminal r | None => false end = false.
Proof.
  intros Hpc (body & Hb & H). rewrite decide_False in H by done. subst l. destruct (last_cons (newStartedResponse id) body) as [].
  rewrite last_cons. destruct (last body) as [r|] eqn:E; [|done]. apply last_Some_elem_of in E. rewrite Forall_forall in Hb.
  unfold isTerminal. destruct (Hb r E) as [-> | ->]; done.
Qed.

Lemma append_buffered max x l r now : rtc (Exec.step sane) (initial max) (mkSys x l ∅ false) ->
  match last l with Some r => isTerminal r | None => false end = false -> Z.of_nat (length l) < int64_max ->
  rtc (Exec.step sane) (initial max) (mkSys (append r now x) (l ++ [r]) ∅ false).
Proof.
  intros HR Hl Hn. eapply rtc_r; [exact HR|]. destruct (exec_reachable _ _ HR) as [Hx _ _]. simpl in Hx.
  apply (step_append sane (mkSys x l ∅ false)); simpl; [done|by rewrite (o_completed _ _ Hx)|by rewrite (o_next _ _ Hx)].
Qed.

(** A step appends nothing, or one event while [HandleExec] runs. *)
Lemma exec_appends id l s s' : run_inv id s -> exec l s = Some s' ->
  (r_ex s' = r_ex s /\ r_log s' = r_log s) \/
  (r_pc s <> MReturned /\ exists r now, r_ex s' = append r now (r_ex s) /\ r_log s' = r_log s ++ [r]).
Proof.
  intros I H. destruct l; try (left; cbn [exec] in H; destruct (r_pc s); simpl in H; repeat case_match; simplify_eq/=; done).
  - right. cbn [exec] in H. destruct (r_pc s) eqn:E; try done. injection H as <-. split; [done|]. eexists _, _. done.
  - right. cbn [exec] in H. destruct (s_pending (get_stream stdout s)) as [|d rest] eqn:Ed; [done|]. injection H as <-.
    split; [by eapply pending_running|]. eexists _, _. done.
  - right. cbn [exec] in H. destruct (r_pc s) eqn:E; try done. injection H as <-. split; [done|]. eexists _, _. done.
Qed.

Lemma reachable_buffered max id now s : reachable max id now s -> Z.of_nat (length (r_log s)) <= int64_max -> buffered max s.
Proof.
  unfold reachable. revert s. apply (rtc_ind_r (fun s => Z.of_nat (length (r_log s)) <= int64_max -> buffered max s)).
  - intros _. apply append_buffered; [apply rtc_refl|done|]. done.
  - intros s s' Hr [l Hl] IH Hn. pose proof (reachable_run_inv _ _ _ _ Hr) as I. destruct (exec_appends _ _ _ _ I Hl) as [ [E1 E2]|(Hpc & r & t & E1 & E2)];
      unfold buffered; rewrite E1, E2 in *; [by apply IH|]. rewrite length_app in Hn. simpl in Hn.
    apply append_buffered; [apply IH; lia| |lia]. eapply log_not_terminal; [exact Hpc|apply I].
Qed.

(** ** Nothing a command does keeps it from ending *)

Definition pc_work (p : main_pc) : nat :=
  match p with MStart => 20 | MWait => 8 | MDrainOut => 7 | MOutClosed => 6 | MDrainErr => 5 | MErrClosed => 4 | MFinal => 3 | MReport => 2 | MReturned => 0 end.
Definition stream_work (x : stream) : nat := 2 * length (s_pending x) + (if s_done x then 0 else 1).
Definition work (s : run) : nat :=
  pc_work (r_pc s) + (if r_killer s then 1 else 0) + (match r_proc s with PRunning => 1 | _ => 0 end) + stream_work (r_out s) + stream_work (r_err s).

Lemma own_works id l s s' : run_inv id s -> own l s = true -> exec l s = Some s' -> (work s' < work s)%nat.
Proof.
  intros I Ho H. destruct s as [pc ctx pr ki kd we [po oo od] [pe oe ed] st ex lg]. unfold work, stream_work.
  destruct l; try discriminate Ho; cbn [exec] in H; simpl in *.
  - destruct pc; try done. injection H as <-. destruct pr; simpl; lia.
  - destruct ki, (bool_decide _); simpl in H; try done. injection H as <-. simpl. lia.
  - destruct ki; simpl in H; [|by destruct pc]. destruct (negb _ && negb _) eqn:E; [|by destruct pc].
    assert (s' = mkRun pc ctx pr false kd we (mkStream po oo od) (mkStream pe oe ed) st ex lg) as -> by (destruct pc; congruence). simpl. lia.
  - destruct pr; try (by destruct pc). assert (s' = mkRun pc ctx (PExited code signaled) ki kd we (mkStream po oo od) (mkStream pe oe ed) st ex lg) as -> by (destruct pc; congruence). simpl. lia.
  - destruct pc, pr; simplify_eq/=. lia.
  - destruct stdout; simpl in H; [destruct po as [|d rest]|destruct pe as [|d rest] ]; simplify_eq/=; lia.
  - destruct stdout; simpl in H; [destruct po; [destruct od|]|destruct pe; [destruct ed|] ]; simplify_eq/=; lia.
  - destruct pc; simplify_eq/=; lia.
  - destruct pc, od, ed; simplify_eq/=; lia.
  - destruct pc; simplify_eq/=; lia.
  - destruct pc; simplify_eq/=; lia.
Qed.

Lemma stream_progress stdout s : s_open (get_stream stdout s) = false -> s_done (get_stream stdout s) = false ->
  exists l s', own l s = true /\ exec l s = Some s'.
Proof.
  intros Ho Hd. destruct (s_pending (get_stream stdout s)) as [|d rest] eqn:E.
  - exists (LEnd stdout). eexists. split; [simpl; by rewrite Ho|]. cbn [exec]. by rewrite E, Hd.
  - exists (LEmit stdout 0). eexists. split; [done|]. cbn [exec]. by rewrite E.
Qed.

(** [drainReaders] closed the pipe it waits for. *)
Definition drain_ok (s : run) : Prop :=
  (r_pc s = MOutClosed -> s_open (r_out s) = false) /\ (r_pc s = MErrClosed -> s_open (r_err s) = false).

Lemma step_drain_ok s s' : step s s' -> drain_ok s -> drain_ok s'.
Proof.
  intros [l H] [D1 D2]. destruct s as [pc ctx pr ki kd we [po oo od] [pe oe ed] st ex lg].
  destruct l; cbn [exec] in H; simpl in *; destruct pc; simpl in *; try discriminate H;
    repeat case_match; simplify_eq/=; (split; simpl; try done; intros; simplify_eq; auto).
  all: destruct stdout; simpl in *; auto; by rewrite ?D1, ?D2 in * by done.
Qed.

Lemma reachable_drain_ok max id now s : reachable max id now s -> drain_ok s.
Proof. unfold reachable. intros H. assert (D : drain_ok (launch max id now)) by done. induction H; eauto using step_drain_ok. Qed.

Lemma run_progress id s : run_inv id s -> drain_ok s -> r_ctx s <> CLive \/ r_pc s <> MWait -> r_pc s <> MReturned ->
  exists l s', own l s = true /\ exec l s = Some s'.
Proof.
  intros [Io Ie Hp Hpr _] [D1 D2] Hc Hpc.
  assert (Hdo : forall l s', own l s = true -> exec l s = Some s' -> exists l s', own l s = true /\ exec l s = Some s') by eauto.
  unfold phase_ok in Hp. destruct (r_pc s) eqn:E; try done.
  - eapply (Hdo (LStart 0) _ eq_refl). cbn [exec]. rewrite E. reflexivity.
  - destruct Hc as [Hc|]; [|done]. destruct (r_proc s) as [| |code sg] eqn:Epr; [by destruct (Hpr eq_refl)| |].
    + destruct Hp as [Hk|Hk].
      * eapply (Hdo LKill _ eq_refl). cbn [exec]. rewrite Hk, bool_decide_eq_true_2 by done. reflexivity.
      * eapply (Hdo (LExit (-1) true)); [simpl; by rewrite Hk|]. cbn [exec]. rewrite Epr, E. reflexivity.
    + eapply (Hdo LReap _ eq_refl). cbn [exec]. rewrite E, Epr. reflexivity.
  - eapply (Hdo LGrace _ eq_refl). cbn [exec]. rewrite E. reflexivity.
  - destruct (s_done (r_out s)) eqn:Ed; [|by apply (stream_progress true); auto].
    eapply (Hdo LDrained _ eq_refl). cbn [exec]. rewrite E, Ed. reflexivity.
  - eapply (Hdo LGrace _ eq_refl). cbn [exec]. rewrite E. reflexivity.
  - destruct (s_done (r_err s)) eqn:Ed; [|by apply (stream_progress false); auto].
    eapply (Hdo LDrained _ eq_refl). cbn [exec]. rewrite E, Ed. reflexivity.
  - eapply (Hdo LFinal _ eq_refl). cbn [exec]. rewrite E. reflexivity.
  - eapply (Hdo (LReport 0) _ eq_refl). cbn [exec]. rewrite E. reflexivity.
Qed.

(** C22: A command's log is complete and a command always ends.  However the shell, its
    children, its output, the deadline and a delete interleave: the execution's log is
    the started event, then output, and exactly one terminal event, which comes last and
    is there exactly when [HandleExec] has returned, so the buffer that streams follow is
    never appended to after it completed.  Once the deadline has passed, the execution
    was deleted or the shell is gone, the handler can always move on without the command
    doing anything, and each such step brings it nearer to its report. *)
Theorem command_ends max id now s (HR : reachable max id now s) :
  (exists body tail, r_log s = newStartedResponse id :: body ++ tail /\ Forall is_output body /\
     match tail with [] => r_pc s <> MReturned | [r] => r_pc s = MReturned /\ isTerminal r = true | _ => False end) /\
  (Z.of_nat (length (r_log s)) <= int64_max -> buffered max s) /\
  (r_ctx s <> CLive \/ r_pc s <> MWait -> r_pc s <> MReturned -> exists l s', own l s = true /\ exec l s = Some s') /\
  (forall l s', own l s = true -> exec l s = Some s' -> (work s' < work s)%nat).
Proof.
  pose proof (reachable_run_inv _ _ _ _ HR) as I. split; [|split; [by eapply reachable_buffered|split]].
  - destruct (ri_log _ _ I) as (body & Hb & H). case_decide as Hpc.
    + destruct H as (r & -> & Hr). exists body, [r]. done.
    + subst. exists body, []. by rewrite app_nil_r, H.
  - eapply run_progress; [exact I|by eapply reachable_drain_ok].
  - intros l s'. by eapply own_works.
Qed.

(** What a report says: a command timed out exactly when the deadline had passed by then,
    which counts as killed, and succeeded exactly with exit code 0. *)
Lemma report_spec s now :
  let r := exit_response s now in
  TimedOut r = Some (bool_decide (r_ctx s = CDeadline)) /\ (TimedOut r = Some true -> Killed r = Some true) /\
  Success r = Some (bool_decide (ExitCode r = 0)) /\ (r_waitErr s = true -> ExitCode r = -1 /\ Killed r = Some true).
Proof.
  unfold exit_response. destruct (r_proc s) as [| |c sg], (r_waitErr s); simpl; (split; [done|]); (split; [|split; [done|try done] ]);
    case_bool_decide; try done; intros _; by rewrite ?orb_true_r.
Qed.

(** ** Runs *)

Fixpoint runs (ls : list label) (s : run) : option run :=
  match ls with [] => Some s | l :: ls' => match exec l s with Some s' => runs ls' s' | None => None end end.

Lemma runs_reachable max id now ls s s' : reachable max id now s -> runs ls s = Some s' -> reachable max id now s'.
Proof.
  revert s. induction ls as [|l ls IH]; intros s HR; simpl; [by intros [= <-]|]. destruct (exec l s) as [s1|] eqn:E; [|done].
  apply IH. eapply rtc_r; [exact HR|]. by exists l.
Qed.

(** The deadline passes while the command runs; a child it started keeps the pipe open. *)
Definition timed_out : list label :=
  [LStart 10; LRead true [chars "a"; chars "b"]; LEmit true 11; LCtx CDeadline; LKill; LExit (-1) true; LReap; LGrace;
   LEmit true 12; LEnd true; LDrained; LEnd false; LDrained; LFinal; LReport 300].

Lemma command_ends_witness : exists s body r, runs timed_out (launch 1000 (chars "x") 5) = Some s /\
  r_log s = newStartedResponse (chars "x") :: body ++ [r] /\ Forall is_output body /\ isTerminal r = true /\
  TimedOut r = Some true /\ buffered 1000 s.
Proof.
  destruct (runs timed_out (launch 1000 (chars "x") 5)) as [s|] eqn:E; [|vm_compute in E; discriminate E].
  assert (HR : reachable 1000 (chars "x") 5 s) by (eapply runs_reachable; [apply rtc_refl|exact E]).
  destruct (command_ends 1000 (chars "x") 5 s HR) as ((body & tail & El & Hb & Ht) & HB & _).
  assert (Hpc : r_pc s = MReturned) by (vm_compute in E; injection E as <-; reflexivity).
  assert (Hlen : Z.of_nat (length (r_log s)) <= int64_max) by (vm_compute in E; injection E as <-; vm_compute; discriminate).
  destruct tail as [|r [|] ]; [done| |done]. exists s, body, r. split; [reflexivity|]. split; [exact El|]. split; [exact Hb|].
  destruct Ht as [_ Ht]. split; [exact Ht|]. split; [|exact (HB Hlen)].
  assert (Hlast : last (r_log s) = Some r) by (rewrite El, app_comm_cons; apply last_snoc).
  vm_compute in E. injection E as <-. vm_compute in Hlast. injection Hlast as <-. reflexivity.
Defined.

(** The shell ends by itself with exit code 0 before the deadline, which passes while the
    pipes are drained: the report says success, timed out and killed. *)
Definition late_report : list label :=
  [LStart 10; LExit 0 false; LReap; LGrace; LEnd true; LDrained; LCtx CDeadline; LEnd false; LDrained; LFinal; LReport 300].

Example finished_reported_as_timed_out : exists s r, runs late_report (launch 1000 (chars "x") 5) = Some s /\ last (r_log s) = Some r /\
  r_killed s = false /\ ExitCode r = 0 /\ Success r = Some true /\ TimedOut r = Some true /\ Killed r = Some true.
Proof. eexists _, _. split; [vm_compute; reflexivity|]. split; [vm_compute; reflexivity|]. vm_compute. done. Qed.

(** ** The user commands run as *)

Record creds := mkCreds { uid : Z; gid : Z; groups : list Z; home : string }.

Definition sandboxUID : Z := 1000.
Definition sandboxGID : Z := 1000.
Definition sandboxHome : string := "/home/user".

Section user.
(** Whether the nth of these calls fails. *)
Context (fails : nat -> bool).
#[local] Open Scope act_scope.

(** A privileged call: only root may make it, and it may fail for root too. *)
Definition privileged (n : nat) (name : string) (f : creds -> creds) : act creds string unit :=
  let! c := get in
  if decide (uid c <> 0) then exit name else if fails n then exit name else modify f.

Definition Setgroups : act creds string unit := privileged 0 "setgroups" (fun c => mkCreds (uid c) (gid c) [] (home c)).
Definition Setgid : act creds string unit := privileged 1 "setgid" (fun c => mkCreds (uid c) sandboxGID (groups c) (home c)).
Definition Setuid : act creds string unit := privileged 2 "setuid" (fun c => mkCreds sandboxUID (gid c) (groups c) (home c)).

Definition PrepareSandboxUser : act creds string unit :=
  let! c := get in
  if decide (uid c <> 0) then ret tt
  else
    do! Setgroups in
    do! Setgid in
    do! Setuid in
    if fails 3 then exit "set HOME" else modify (fun c => mkCreds (uid c) (gid c) (groups c) sandboxHome).
End user.

(** [SysProcAttr] *)
Record sysProcAttr := mkAttr { Setpgid : bool; Credential : option (Z * Z) }.
Definition commandSysProcAttr (c : creds) : sysProcAttr := mkAttr true (if decide (uid c = 0) then Some (sandboxUID, sandboxGID) else None).

(** What a child is started with: a [Credential] sets both ids and clears the groups. *)
Definition child_creds (a : sysProcAttr) (c : creds) : creds :=
  match Credential a with Some (u, g) => mkCreds u g [] (home c) | None => c end.

(** Commands never run as root, in a process group of their own; when the daemon was
    started as root it has given up every group and id before it serves. *)
Lemma commands_unprivileged fails c :
  uid (child_creds (commandSysProcAttr c) c) <> 0 /\ Setpgid (commandSysProcAttr c) = true /\
  wp (PrepareSandboxUser fails) (fun o c' => match o with
    | inr _ => uid c' <> 0 /\ (uid c = 0 -> c' = mkCreds sandboxUID sandboxGID [] sandboxHome)
    | inl _ => uid c = 0
    end) c.
Proof.
  split; [|split; [done|] ].
  - unfold commandSysProcAttr, child_creds. by case_decide.
  - unfold PrepareSandboxUser, Setgroups, Setgid, Setuid, privileged, wp, bind, get, ret, exit, modify. case_decide as Hu; [done|].
    destruct c as [u g gs h]. simpl in Hu. subst u. simpl.
    destruct (fails 0%nat), (fails 1%nat), (fails 2%nat), (fails 3%nat); simpl; done.
Qed.
End CommandRun.
