(* ===== verification/DockerClient.v ===== *)
(** * The Docker client ([internal/runner/runtime/docker]: docker_client.go, docker_api.go,
    and of runtime.go the image pull and the waits)

    What the runtime learns from the docker command and from dockerd's REST API: errors
    as text, lookups as JSON.  The command, dockerd and JSON are parameters. *)

From S2P Require Import Prelude GoStrings Wire Docker DockerHost Files.

Module DockerClient.
Import GoStrings.

(** ** Errors *)

(** An error's text, and whether [errDockerNotFound] is in its chain. *)
Record docker_error := mkError { err_text : string; err_notFound : bool }.

Definition isDockerNotFound (err : option docker_error) : bool :=
  match err with
  | None => false
  | Some e =>
      if err_notFound e then true
      else
        let msg := of_chars (Files.to_lower (chars (err_text e))) in
        Files.Contains msg "no such container" || Files.Contains msg "no such network" ||
        Files.Contains msg "no such image" || Files.Contains msg "not found"
  end.

(** ** The command *)

(** What a run of the command leaves: its two outputs, and the text of the error if it
    failed (an exit status, a cancelled context, a command that is not there). *)
Record cmd_result := mkCmd { c_stdout : string; c_stderr : string; c_err : option string }.

(** An answer of dockerd: its status, the [message] of an error body that decodes, and the
    body as JSON of the type asked for, or what the decoder says of it. *)
Record http_answer (A : Type) := mkAnswer { a_status : Z; a_message : option string; a_body : string + A }.
#[global] Arguments mkAnswer {A}.
#[global] Arguments a_status {A}.
#[global] Arguments a_message {A}.
#[global] Arguments a_body {A}.

Class DockerEnv := {
  cmd : nat -> list string -> cmd_result;
  (** [inl]: the request did not go through *)
  answer_inspect : nat -> string -> string + http_answer Docker.containerInspect;
  answer_list : nat -> gmap string (list string) -> string + http_answer (list string);
  decode_networks : string -> string + list DockerHost.networkInspect;
  (** [http.StatusText], [url.PathEscape] and [strconv.Quote] *)
  status_text : Z -> string;
  path_escape : string -> string;
  quoted : string -> string;
}.

Definition join_words (l : list string) : string := String.concat " " l.

(** [strings.Cut(s, "=")] *)
Fixpoint cut_eq (l : list ascii) : option (list ascii * list ascii) :=
  match l with
  | [] => None
  | c :: l' => if decide (c = byte 61) then Some ([], l')
               else match cut_eq l' with Some (a, r) => Some (c :: a, r) | None => None end
  end.

Section client.
Context {E : DockerEnv}.
#[local] Open Scope act_scope.

(** Calls count the interactions so far. *)
Definition docker_act (A : Type) : Type := act nat docker_error A.
Definition tick : docker_act nat := fun n => (inr n, S n).

Definition run (args : list string) : docker_act string :=
  let! n := tick in
  let r := cmd n args in
  match c_err r with
  | None => ret (c_stdout r)
  | Some e =>
      let msg := TrimSpace (c_stderr r) in
      let msg := if decide (msg = "") then TrimSpace (c_stdout r) else msg in
      exit (mkError ("docker " +:+ join_words args +:+ ": " +:+ msg +:+ ": " +:+ e) false)
  end.

Definition ping : docker_act unit := do! run ["version"; "--format"; "{{.Server.Version}}"] in ret tt.

(** The client's own fields. *)
Record dockerClient := mkClient { dnsServers : list string; onlyIPv4 : bool }.

Definition createContainer (dc : dockerClient) (sandboxID containerName image network : string) (limits : DockerHost.ResourceLimits)
    (enableCgroups : bool) : docker_act string :=
  let! o := run (DockerHost.dockerContainerCreateArgs sandboxID containerName image network limits enableCgroups (dnsServers dc) (onlyIPv4 dc)) in
  ret (TrimSpace o).

Definition explainIPv6SysctlError (err : option docker_error) : option docker_error :=
  match err with
  | None => None
  | Some e =>
      if negb (Files.Contains (err_text e) "sysctl net.ipv6.") || negb (Files.Contains (err_text e) "no such file or directory") then Some e
      else Some (mkError ("host kernel has no net.ipv6 sysctls: IPv6 as a loadable kernel module is not supported unless the ipv6 module is loaded on the host before the sandbox starts (or the host boots with ipv6.disable=1): " +:+ err_text e) (err_notFound e))
  end.

Definition startContainer (id : string) : docker_act unit :=
  let! o := try (run ["container"; "start"; id]) in
  match explainIPv6SysctlError (match o with inl e => Some e | inr _ => None end) with
  | Some e => exit e
  | None => ret tt
  end.

Definition stopContainer (id : string) : docker_act unit := do! run ["container"; "stop"; "-t"; "10"; id] in ret tt.

Definition removeContainer (id : string) : docker_act unit :=
  if decide (id = "") then ret tt
  else
    let! o := try (run ["container"; "rm"; "-f"; id]) in
    match o with
    | inl e => if isDockerNotFound (Some e) then ret tt else exit e
    | inr _ => ret tt
    end.

Definition inspectNetwork (name : string) : docker_act DockerHost.networkInspect :=
  let! out := run ["network"; "inspect"; name] in
  match decode_networks out with
  | inl e => exit (mkError ("decode network inspect: " +:+ e) false)
  | inr [] => exit (mkError ("network inspect returned no results for " +:+ name) false)
  | inr (i :: _) => ret i
  end.

Definition pullImage (image : string) : docker_act unit :=
  let! o := try (run ["image"; "inspect"; image]) in
  match o with
  | inr _ => ret tt
  | inl _ => do! run ["pull"; image] in ret tt
  end.

(** ** The REST API *)

Definition dockerAPIErrorMessage {A} (r : http_answer A) : string :=
  match a_message r with
  | Some m => if decide (TrimSpace m <> "") then TrimSpace m else status_text (a_status r)
  | None => status_text (a_status r)
  end.

(** [get], its path in the messages only. *)
Definition get {A} (path : string) (r : string + http_answer A) : docker_act A :=
  match r with
  | inl e => exit (mkError ("docker GET " +:+ path +:+ ": " +:+ e) false)
  | inr resp =>
      if decide (a_status resp < 200 \/ a_status resp > 299) then
        let msg := dockerAPIErrorMessage resp in
        if decide (a_status resp = 404) then exit (mkError ("docker GET " +:+ path +:+ ": " +:+ msg +:+ ": not found") true)
        else exit (mkError ("docker GET " +:+ path +:+ ": " +:+ msg +:+ " (HTTP " +:+ DockerHost.itoa (a_status resp) +:+ ")") false)
      else match a_body resp with
           | inr v => ret v
           | inl e => exit (mkError ("docker GET " +:+ path +:+ ": decode response: " +:+ e) false)
           end
  end.

Definition inspectContainer (id : string) : docker_act Docker.containerInspect :=
  if decide (id = "") then exit (mkError "inspect container: empty container ID" false)
  else
    let! n := tick in
    get ("/containers/" +:+ path_escape id +:+ "/json") (answer_inspect n id).

Definition containerIP (id : string) : docker_act string :=
  let! i := inspectContainer id in
  let ip := (Docker.sandboxAttachment i).2 in
  if decide (ip <> "") then ret ip else exit (mkError ("container " +:+ id +:+ " has no IP on a runner network") false).

(** The values of each key in the order they were given, or the filter refused. *)
Fixpoint dockerAPIFilters (l : list string) (filters : gmap string (list string)) : string + gmap string (list string) :=
  match l with
  | [] => inr filters
  | f :: l' =>
      match cut_eq (chars f) with
      | Some (k :: key, value) =>
          let key := of_chars (k :: key) in
          dockerAPIFilters l' (<[key := default [] (filters !! key) ++ [of_chars value]]> filters)
      | _ => inl f
      end
  end.

Definition listContainerIDs (filterArgs : list string) : docker_act (list string) :=
  match dockerAPIFilters filterArgs ∅ with
  | inl f => exit (mkError ("invalid docker filter " +:+ quoted f) false)
  | inr filters =>
      let! n := tick in
      let! ids := get "/containers/json" (answer_list n filters) in
      ret (filter (fun id => id <> "") ids)
  end.

(** ** The image *)

(** [min(attempt * 5s, 60s)], in seconds *)
Definition pull_backoff (attempt : nat) : Z := Z.min (Z.of_nat attempt * 5) 60.

Inductive pull_outcome := PullReady (attempts : nat) | PullCanceled (attempts : nat) | PullTrying (attempts : nat).

(** The loop of [EnsureSandboxImage] with the waits it made; [fuel] counts the attempts that
    are looked at, and [PullTrying] is the loop still running after them. *)
Fixpoint EnsureSandboxImage (image : string) (ctx_done : nat -> bool) (fuel attempt : nat) (n : nat) : pull_outcome * list Z :=
  match fuel with
  | O => (PullTrying attempt, [])
  | S fuel' =>
      if ctx_done n then (PullCanceled attempt, [])
      else
        match pullImage image n with
        | (inr _, _) => (PullReady attempt, [])
        | (inl _, n') =>
            if ctx_done n' then (PullCanceled attempt, [])
            else let '(o, waits) := EnsureSandboxImage image ctx_done fuel' (S attempt) (S n') in (o, pull_backoff attempt :: waits)
        end
  end.

(** ** Waiting for a container *)

(** What [select] chose. *)
Inductive woken := WokenCtx | WokenDeadline | WokenTick.

Inductive wait_outcome (A : Type) := WaitOk (a : A) | WaitNotFound | WaitError | WaitCanceled | WaitTimeout | WaitOn.
#[global] Arguments WaitOk {A}.
#[global] Arguments WaitNotFound {A}.
#[global] Arguments WaitError {A}.
#[global] Arguments WaitCanceled {A}.
#[global] Arguments WaitTimeout {A}.
#[global] Arguments WaitOn {A}.

Fixpoint awaitContainerRestart (id : string) (select : nat -> woken) (fuel : nat) (n : nat) : wait_outcome Docker.containerInspect :=
  match fuel with
  | O => WaitOn
  | S fuel' =>
      match inspectContainer id n with
      | (inl e, _) => if isDockerNotFound (Some e) then WaitNotFound else WaitError
      | (inr i, n') =>
          if negb (Docker.Restarting (Docker.State i)) then WaitOk i
          else match select n' with
               | WokenCtx => WaitCanceled
               | WokenDeadline => WaitTimeout
               | WokenTick => awaitContainerRestart id select fuel' (S n')
               end
      end
  end.

Record ContainerInfo := mkInfo { ci_ID : string; ci_IP : string }.

Definition GetContainerInfo (id : string) (n : nat) : wait_outcome ContainerInfo * nat :=
  match inspectContainer id n with
  | (inl e, n') => (if isDockerNotFound (Some e) then WaitNotFound else WaitError, n')
  | (inr i, n') =>
      let ip := (Docker.sandboxAttachment i).2 in
      (if decide (ip = "") then WaitError else WaitOk (mkInfo (Docker.ID i) ip), n')
  end.

(** [Ready] of a runtime whose image is there or not. *)
Definition Ready (imageReady : bool) (n : nat) : option string * nat :=
  if negb imageReady then (Some "sandbox image not ready", n)
  else match ping n with
       | (inl _, n') => (Some "docker unavailable", n')
       | (inr _, n') => (None, n')
       end.

(** *** The stream of deaths *)

(** A line of [docker events]: the container and its labels, or one that does not decode. *)
Definition event_line : Type := option (string * gmap string string).

(** How a stream ended: with the context, with an error of the scanner or of the command. *)
Inductive stream_end := StreamCanceled | StreamError.

(** [watchContainerDeaths] of a stream that was read to its end. *)
Definition watchContainerDeaths (onDie : string -> string -> Docker.marks -> Docker.marks) (lines : list event_line) (canceled : bool)
    (m : Docker.marks) : stream_end * Docker.marks :=
  (if canceled then StreamCanceled else StreamError,
   foldl (fun m line => match line with
                        | None => m
                        | Some (id, attrs) => onDie id (default "" (attrs !! DockerHost.containerLabelSandboxID)) m
                        end) m lines).

(** [watchGuestDeaths]: one connection after another, each the lines it delivered and
    whether the context was cancelled while it was up, or else during the wait after it. *)
Fixpoint watchGuestDeaths (onDie : string -> string -> Docker.marks -> Docker.marks) (streams : list (list event_line * bool * bool))
    (m : Docker.marks) : Docker.marks :=
  match streams with
  | [] => m
  | (lines, canceled, canceled_waiting) :: streams' =>
      match watchContainerDeaths onDie lines canceled m with
      | (StreamCanceled, m') => m'
      | (StreamError, m') => if canceled_waiting : bool then m' else watchGuestDeaths onDie streams' m'
      end
  end.

Definition isSuccessfulExit (body : list ascii) : bool :=
  Files.contains (Wire.key "type" ++ chars (String (byte 34) "exit") ++ [byte 34]) body &&
  Files.contains (Wire.key "exit_code" ++ [byte 48]) body.
End client.

(** The daemon as it is probed: whether its URL parses; the status of the GET, and of the
    POST with the body answered; [None] when the request does not go through. *)
Class Probed := { url_ok : bool; get_health : nat -> option Z; post_exec : nat -> option (Z * list ascii) }.

Fixpoint waitForDaemon {P : Probed} (select : nat -> woken) (fuel : nat) (n : nat) : wait_outcome nat :=
  match fuel with
  | O => WaitOn
  | S fuel' =>
      match select n with
      | WokenCtx => WaitCanceled
      | WokenDeadline => WaitTimeout
      | WokenTick =>
          if negb url_ok then WaitError
          else match get_health n with
          | Some 200 =>
              match post_exec n with
              | Some (200, body) => if isSuccessfulExit body then WaitOk n else waitForDaemon select fuel' (S n)
              | _ => waitForDaemon select fuel' (S n)
              end
          | _ => waitForDaemon select fuel' (S n)
          end
      end
  end.

(** ** What the answers mean *)

Section laws.
Context {E : DockerEnv}.

(** A removal succeeds when docker removed the container or its error says that there is
    none. *)
Lemma removeContainer_spec id n : id <> "" ->
  let args := ["container"; "rm"; "-f"; id] in
  match removeContainer id n with
  | (inr _, n') => n' = S n /\ (c_err (cmd n args) = None \/ exists e, run args n = (inl e, S n) /\ isDockerNotFound (Some e) = true)
  | (inl e, n') => n' = S n /\ run args n = (inl e, S n) /\ isDockerNotFound (Some e) = false
  end.
Proof.
  intros Hid args. unfold removeContainer. rewrite decide_False by done. unfold bind at 1, try. fold args.
  assert (Hrun : run args n = (match c_err (cmd n args) with None => inr (c_stdout (cmd n args)) | Some e => (run args n).1 end, S n)).
  { unfold run, bind, tick. simpl. by destruct (c_err (cmd n args)). }
  destruct (run args n) as [ [e|o] n'] eqn:Er; simpl in Hrun.
  - destruct (c_err (cmd n args)) eqn:Ec; [|congruence]. injection Hrun as ->.
    destruct (isDockerNotFound (Some e)) eqn:En; unfold ret, exit; [split; [done|right; eauto]|done].
  - destruct (c_err (cmd n args)) eqn:Ec; unfold ret; [|split; [congruence|by left] ].
    unfold run, bind, tick in Er. simpl in Er. by rewrite Ec in Er.
Qed.

(** A lookup that fails says nothing of the body, which carries the container's
    environment; and it is not found when dockerd says so. *)
Lemma get_hides_body {A} path (r r' : http_answer A) n : a_status r = a_status r' -> a_message r = a_message r' ->
  (a_status r < 200 \/ a_status r > 299) -> get path (inr r) n = get path (inr r') n.
Proof.
  intros Hs Hm Hb. unfold get, dockerAPIErrorMessage. rewrite <- Hs, <- Hm.
  by rewrite !(decide_True (P := a_status r < 200 \/ a_status r > 299)).
Qed.

Lemma get_not_found {A} path (r : http_answer A) n : a_status r = 404 ->
  exists e, get path (inr r) n = (inl e, n) /\ isDockerNotFound (Some e) = true.
Proof. intros Hs. unfold get. rewrite Hs. simpl. eexists. split; [reflexivity|]. done. Qed.

(** *** Filters *)

(** A filter as the command takes it, cut at its first equals sign. *)
Definition filter_of (f : string) : option (string * string) :=
  match cut_eq (chars f) with Some (k :: key, v) => Some (of_chars (k :: key), of_chars v) | _ => None end.

Definition values_of (key : string) (l : list string) : list string :=
  omap (fun f => match filter_of f with Some (k, v) => if decide (k = key) then Some v else None | None => None end) l.

Lemma dockerAPIFilters_spec l m : match dockerAPIFilters l m with
  | inr m' => Forall (fun f => is_Some (filter_of f)) l /\ forall key, default [] (m' !! key) = default [] (m !! key) ++ values_of key l
  | inl f => f ∈ l /\ filter_of f = None
  end.
Proof.
  revert m. induction l as [|f l IH]; intros m; simpl.
  { split; [constructor|]. intros key. by rewrite app_nil_r. }
  destruct (cut_eq (chars f)) as [ [ [|k ks] v]|] eqn:Ec.
  - split; [left|]. unfold filter_of. by rewrite Ec.
  - assert (Ef : filter_of f = Some (of_chars (k :: ks), of_chars v)) by (unfold filter_of; by rewrite Ec).
    specialize (IH (<[of_chars (k :: ks) := default [] (m !! of_chars (k :: ks)) ++ [of_chars v] ]> m)).
    destruct (dockerAPIFilters l _) as [f'|m']; [destruct IH; split; [by right|done]|].
    destruct IH as [HF HM]. split; [constructor; [by rewrite Ef|done]|]. intros key. rewrite HM. unfold values_of. simpl. rewrite Ef.
    case_decide as Hk; [subst key; rewrite lookup_insert_eq; simpl; by rewrite <- app_assoc|]. by rewrite lookup_insert_ne.
  - split; [left|]. unfold filter_of. by rewrite Ec.
Qed.

(** *** The image and the waits *)

(** The runtime becomes ready with the first pull that succeeds, however many fail before
    it, five to sixty seconds apart and never closer than before. *)
Lemma image_ready image fuel attempt n : forall o waits, EnsureSandboxImage image (fun _ => false) fuel attempt n = (o, waits) ->
  waits = pull_backoff <$> seq attempt (length waits) /\
  match o with
  | PullReady k => k = (attempt + length waits)%nat
  | PullTrying k => k = (attempt + fuel)%nat /\ length waits = fuel
  | PullCanceled _ => False
  end.
Proof.
  revert attempt n. induction fuel as [|fuel IH]; intros attempt n o waits; simpl; [intros [= <- <-]; simpl; split; [done|lia]|].
  destruct (pullImage image n) as [ [e|u] n']; [|intros [= <- <-]; simpl; split; [done|lia]].
  destruct (EnsureSandboxImage image (fun _ => false) fuel (S attempt) (S n')) as [o' w'] eqn:Er. intros [= <- <-].
  destruct (IH _ _ _ _ Er) as [Hw Ho]. simpl. split; [by rewrite Hw at 1|]. destruct o'; simpl in *; lia.
Qed.

Lemma pullImage_calls image n : (n < (pullImage image n).2)%nat.
Proof.
  unfold pullImage, bind, try, run, tick, ret, exit. cbn. destruct (c_err (cmd n ["image"; "inspect"; image])); cbn; [|lia].
  destruct (c_err (cmd (S n) ["pull"; image])); simpl; lia.
Qed.

(** It does become ready once the registry answers: if every pull from the [N]th call on
    succeeds, [N + 1] attempts are enough. *)
Lemma image_comes image N fuel attempt n : (forall k, (N <= k)%nat -> exists u, (pullImage image k).1 = inr u) ->
  (N - n <= fuel)%nat -> exists a waits, EnsureSandboxImage image (fun _ => false) (S fuel) attempt n = (PullReady a, waits).
Proof.
  intros Hup. revert attempt n. induction fuel as [|fuel IH]; intros attempt n Hn; cbn [EnsureSandboxImage].
  - destruct (Hup n) as [u Hu]; [lia|]. destruct (pullImage image n) as [o n']. simpl in Hu. subst o. eauto.
  - pose proof (pullImage_calls image n) as Hc. destruct (pullImage image n) as [ [e|u] n']; [|eauto]. simpl in Hc.
    destruct (IH (S attempt) (S n')) as (b & w & E'); [lia|]. cbn [EnsureSandboxImage] in E'. rewrite E'. eauto.
Qed.

Lemma pull_backoff_range k : (1 <= k)%nat -> 5 <= pull_backoff k <= 60 /\ pull_backoff k <= pull_backoff (S k).
Proof. unfold pull_backoff. lia. Qed.

(** A container that was awaited is no longer between restarts. *)
Lemma await_settled id select fuel n i : awaitContainerRestart id select fuel n = WaitOk i -> Docker.Restarting (Docker.State i) = false.
Proof.
  revert n. induction fuel as [|fuel IH]; intros n; cbn [awaitContainerRestart]; [done|].
  destruct (inspectContainer id n) as [ [e|i'] n']; [by destruct (isDockerNotFound (Some e))|].
  destruct (Docker.Restarting (Docker.State i')) eqn:Er; simpl; [|by intros [= <-] ]. destruct (select n'); try done. apply IH.
Qed.
End laws.

(** A daemon counts as up only after one probe that found it healthy and ran a command to a
    reported exit code 0, and every earlier probe failed. *)
Lemma daemon_up {P : Probed} select fuel n m : waitForDaemon select fuel n = WaitOk m ->
  (n <= m)%nat /\ get_health m = Some 200 /\ exists body, post_exec m = Some (200, body) /\ isSuccessfulExit body = true.
Proof.
  revert n. induction fuel as [|fuel IH]; intros n; cbn [waitForDaemon]; [done|]. destruct (select n); try done.
  destruct url_ok; [cbn [negb]|done].
  assert (Hgo : waitForDaemon select fuel (S n) = WaitOk m ->
    (n <= m)%nat /\ get_health m = Some 200 /\ exists body, post_exec m = Some (200, body) /\ isSuccessfulExit body = true).
  { intros H. destruct (IH _ H) as (? & ? & ?). split; [lia|done]. }
  destruct (get_health n) as [h|] eqn:Eh; [|exact Hgo]. destruct (decide (h = 200)) as [->|Hh].
  - destruct (post_exec n) as [ [st body]|] eqn:Ep; [|exact Hgo]. destruct (decide (st = 200)) as [->|Hst].
    + destruct (isSuccessfulExit body) eqn:Es; [|exact Hgo]. intros [= <-]. eauto 10.
    + intros H. apply Hgo. repeat (case_match; try done; simplify_eq).
  - intros H. apply Hgo. repeat (case_match; try done; simplify_eq).
Qed.

(** ** Runs *)

(** The runner has lost its docker command: every call fails, and [os/exec] says that the
    executable is not found. *)
Definition no_command : DockerEnv := {|
  cmd _ _ := mkCmd "" "" (Some "exec: docker: executable file not found in $PATH");
  answer_inspect _ _ := inr (mkAnswer 500 (Some "layer not found") (inl "EOF"));
  answer_list _ _ := inr (mkAnswer 200 None (inr []));
  decode_networks _ := inl "EOF";
  status_text _ := ""; path_escape s := s; quoted s := s |}.

(** A removal that never ran reports success, and an error of dockerd that mentions
    something else not found reads as a sandbox that is gone. *)
Example missing_command_removes : (removeContainer (E := no_command) "c1" 0%nat).1 = inr tt.
Proof. by vm_compute. Qed.

Example server_error_reads_as_gone : awaitContainerRestart (E := no_command) "c1" (fun _ => WokenTick) 5%nat 0%nat = WaitNotFound.
Proof. by vm_compute. Qed.

Example managed_filters :
  match dockerAPIFilters ["label=sandbox-service.managed=true"; "label=sandbox-service.id=x"] ∅ with
  | inr m => m !! "label" = Some ["sandbox-service.managed=true"; "sandbox-service.id=x"]
  | inl _ => False
  end.
Proof. by vm_compute. Qed.

(** The probe understands what the daemon writes. *)
Definition exit_event (code : Z) : list ascii :=
  Wire.marshal (Wire.mkResponse (Some 1) Wire.Exit [] [] code (Some (bool_decide (code = 0))) 3 (Some false) (Some false) []).

Example probe_reads_exit : isSuccessfulExit (exit_event 0) = true /\ isSuccessfulExit (exit_event 1) = false /\ isSuccessfulExit (exit_event 127) = false.
Proof. by vm_compute. Qed.
End DockerClient.
