(* ===== verification/SweepPool.v ===== *)
(** * The sweeper's pool ([internal/api/ttl.go]: workPool, sweepPool)

    [Sweeper] runs a phase's candidates one after the other.  Here they run as the code
    runs them: a submitter goroutine per runner, a work pool of bounded size, the mutex
    around the counters and the set of unreachable runners, in any interleaving.  What one
    candidate comes to is a parameter; the pool gives the counts of a plain definition. *)

From S2P Require Import Prelude World Store Sweeper.

Module SweepPool.
Import Store Sweeper.

(** What [run] makes of a candidate: its action failed (and whether the runner was
    unreachable), did something, or had nothing to do. *)
Inductive outcome := Failed (unreached : bool) | Acted | Nothing.

Definition unreached (o : outcome) : bool := match o with Failed b => b | _ => false end.

(** A submitter: in [pool.Go] with its probe, waiting for [probed] while the probe runs,
    at the head of its loop, in [pool.Go] with another candidate, returned. *)
Inductive submitter :=
| Probe (first : SandboxRecord) (rest : list SandboxRecord)
| Probing (first : SandboxRecord) (rest : list SandboxRecord)
| Rest (rest : list SandboxRecord)
| Offer (rec : SandboxRecord) (rest : list SandboxRecord)
| Returned.

(** [active]: the candidates that run, besides the probes. *)
Record sweepPool := mkPool {
  submitters : list (string * submitter);
  active : list SandboxRecord;
  unreachable : gset string;
  stats : sweepStats;
  cancelled : bool;
}.

Definition set_submitter (i : nat) (key : string) (t : submitter) (p : sweepPool) : sweepPool :=
  mkPool (<[i := (key, t)]> (submitters p)) (active p) (unreachable p) (stats p) (cancelled p).

(** The guarded part of [run]. *)
Definition record (rec : SandboxRecord) (o : outcome) (p : sweepPool) : sweepPool :=
  match o with
  | Failed b => mkPool (submitters p) (active p) (if b then {[runnerKey rec]} ∪ unreachable p else unreachable p) (bump_failed (stats p)) (cancelled p)
  | Acted => mkPool (submitters p) (active p) (unreachable p) (bump_acted (stats p)) (cancelled p)
  | Nothing => p
  end.

Definition probing (t : string * submitter) : nat := match t.2 with Probing _ _ => 1 | _ => 0 end.

(** The slots of the pool in use. *)
Definition busy (p : sweepPool) : nat := sum_list_with probing (submitters p) + length (active p).

Section pool.
(** The bound of the pool, and what each candidate comes to. *)
Context (limit : nat) (o : SandboxRecord -> outcome).

(** A move of a submitter, or the end of its probe: [run] records it, [probed] is closed
    and the slot is free.  [None] when it waits for a slot or has returned. *)
Definition submit_step (i : nat) (p : sweepPool) : option sweepPool :=
  match submitters p !! i with
  | Some (key, Probe first rest) =>
      if decide (busy p < limit)%nat then Some (set_submitter i key (Probing first rest) p) else None
  | Some (key, Probing first rest) => Some (set_submitter i key (Rest rest) (record first (o first) p))
  | Some (key, Rest []) => Some (set_submitter i key Returned p)
  | Some (key, Rest (rec :: rest)) =>
      if cancelled p then Some (set_submitter i key Returned p)
      else if decide (key ∈ unreachable p) then
        Some (mkPool (<[i := (key, Returned)]> (submitters p)) (active p) (unreachable p)
                (bump_skipped (Z.of_nat (length (rec :: rest))) (stats p)) (cancelled p))
      else Some (set_submitter i key (Offer rec rest) p)
  | Some (key, Offer rec rest) =>
      if decide (busy p < limit)%nat then
        Some (mkPool (<[i := (key, Rest rest)]> (submitters p)) (active p ++ [rec]) (unreachable p) (stats p) (cancelled p))
      else None
  | _ => None
  end.

(** The [j]th of the other candidates ends. *)
Definition run_step (j : nat) (p : sweepPool) : option sweepPool :=
  match active p !! j with
  | Some rec => Some (record rec (o rec) (mkPool (submitters p) (take j (active p) ++ drop (S j) (active p)) (unreachable p) (stats p) (cancelled p)))
  | None => None
  end.

Inductive pool_step : sweepPool -> sweepPool -> Prop :=
| submitter_moves i p p' : submit_step i p = Some p' -> pool_step p p'
| candidate_ends j p p' : run_step j p = Some p' -> pool_step p p'
| context_ends p : pool_step p (mkPool (submitters p) (active p) (unreachable p) (stats p) true).

(** [submit] has returned and so has [wait]. *)
Definition finished (p : sweepPool) : bool :=
  forallb (fun t => match t.2 with Returned => true | _ => false end) (submitters p) && bool_decide (active p = []).
End pool.

(** [newSweepPool] and the goroutines of [submit]. *)
Definition start (groups : list (string * list SandboxRecord)) : sweepPool :=
  mkPool ((fun '(key, group) => (key, match group with first :: rest => Probe first rest | [] => Returned end)) <$> groups) [] ∅
    (mkStats (Z.of_nat (length (mjoin (snd <$> groups)))) 0 0 0) false.

(** ** The plain definition *)

(** A runner that is down costs one failed call and skips the rest; one that is up has
    every candidate run. *)
Definition count_one (o : SandboxRecord -> outcome) (s : sweepStats) (rec : SandboxRecord) : sweepStats :=
  match o rec with Failed _ => bump_failed s | Acted => bump_acted s | Nothing => s end.

Definition count_group (o : SandboxRecord -> outcome) (s : sweepStats) (group : list SandboxRecord) : sweepStats :=
  match group with
  | [] => s
  | first :: rest => if unreached (o first) then bump_skipped (Z.of_nat (length rest)) (bump_failed s)
                     else foldl (count_one o) s group
  end.

Definition reference (o : SandboxRecord -> outcome) (groups : list (string * list SandboxRecord)) : sweepStats :=
  foldl (count_group o) (mkStats (Z.of_nat (length (mjoin (snd <$> groups)))) 0 0 0) (snd <$> groups).

(** ** The bound, and that the pool always moves on *)

Section laws.
Context (limit : nat) (o : SandboxRecord -> outcome).

Definition reached (groups : list (string * list SandboxRecord)) : sweepPool -> Prop := rtc (pool_step limit o) (start groups).

Lemma record_submitters rec x p : submitters (record rec x p) = submitters p.
Proof. by destruct x. Qed.

Lemma record_active rec x p : active (record rec x p) = active p.
Proof. by destruct x. Qed.

Lemma record_cancelled rec x p : cancelled (record rec x p) = cancelled p.
Proof. by destruct x. Qed.

Lemma busy_record rec x p : busy (record rec x p) = busy p.
Proof. unfold busy. by rewrite record_submitters, record_active. Qed.

Lemma sum_drop {A} (f : A -> nat) l j x : l !! j = Some x -> (sum_list_with f (take j l ++ drop (S j) l) + f x = sum_list_with f l)%nat.
Proof.
  intros H. rewrite <- (take_drop_middle l j x H) at 3. rewrite !sum_list_with_app. simpl. lia.
Qed.

(** What a submitter still has to do. *)
Definition work_of (t : string * submitter) : nat :=
  match t.2 with
  | Probe _ rest => 3 * length rest + 5
  | Probing _ rest => 3 * length rest + 4
  | Rest rest => 3 * length rest + 1
  | Offer _ rest => 3 * length rest + 3
  | Returned => 0
  end.

Definition work (p : sweepPool) : nat := sum_list_with work_of (submitters p) + length (active p).

(** The cases of a submitter's move. *)
Ltac submit_cases H :=
  unfold submit_step in H;
  let key := fresh "key" in let t := fresh "t" in let Et := fresh "Et" in
  match type of H with context [submitters ?p !! ?i] => destruct (submitters p !! i) as [ [key t]|] eqn:Et; [|done] end;
  destruct t as [first rest|first rest|[|rec rest]|rec rest|]; try done;
  repeat case_match; try done; injection H as <-.

Lemma submit_works i p p' : submit_step limit o i p = Some p' -> (work p' < work p)%nat.
Proof.
  intros H. submit_cases H; unfold work, set_submitter; rewrite ?record_submitters, ?record_active; simpl; rewrite ?length_app; simpl;
    match goal with Et : submitters _ !! _ = Some _ |- context [<[_ := ?b]> _] => pose proof (sum_insert work_of _ _ _ b Et) as HS end;
    unfold work_of in HS at 2 4; simpl in HS; lia.
Qed.

Lemma length_removed {A} (l : list A) j x : l !! j = Some x -> S (length (take j l ++ drop (S j) l)) = length l.
Proof. intros H. rewrite <- (take_drop_middle l j x H) at 3. rewrite !length_app. simpl. lia. Qed.

Lemma run_works j p p' : run_step o j p = Some p' -> (work p' < work p)%nat.
Proof.
  unfold run_step. destruct (active p !! j) as [rec|] eqn:Ej; [|done]. intros [= <-]. unfold work.
  rewrite record_submitters, record_active. simpl. pose proof (length_removed _ _ _ Ej). lia.
Qed.

Lemma start_idle groups : busy (start groups) = 0%nat.
Proof. unfold busy, start. simpl. rewrite Nat.add_0_r. by induction groups as [|[key [|first rest] ] groups IH]. Qed.

Lemma busy_bounded groups p : reached groups p -> (busy p <= limit)%nat.
Proof.
  unfold reached. intros H. apply (rtc_ind_r (R := pool_step limit o) (fun p => busy p <= limit)%nat (start groups)); [| |exact H].
  - rewrite start_idle. lia.
  - clear p H. intros p p' _ Hs IH. destruct Hs as [i p p' H|j p p' H|p]; [| |done].
    + submit_cases H; unfold busy, set_submitter in *; rewrite ?record_submitters, ?record_active in *; simpl; rewrite ?length_app; simpl;
        match goal with Et : submitters _ !! _ = Some _ |- context [<[_ := ?b]> _] => pose proof (sum_insert probing _ _ _ b Et) as HS end;
        unfold probing in HS at 2 4; simpl in HS; lia.
    + unfold run_step in H. destruct (active p !! j) as [rec|] eqn:Ej; [|done]. injection H as <-. rewrite busy_record. unfold busy in *. simpl.
      pose proof (length_removed _ _ _ Ej). lia.
Qed.

(** Until it is finished some candidate ends or some submitter moves, whoever waits. *)
Lemma pool_moves p : (0 < limit)%nat -> finished p = false ->
  exists p', (exists i, submit_step limit o i p = Some p') \/ (exists j, run_step o j p = Some p').
Proof.
  intros Hl Hf. destruct (active p) as [|rec l] eqn:Ea.
  2: { eexists. right. exists 0%nat. unfold run_step. by rewrite Ea. }
  destruct (decide (Exists (fun t => probing t = 1%nat) (submitters p))) as [Hp|Hp].
  - apply Exists_exists in Hp as ([key t] & Hin & Ht). apply list_elem_of_lookup in Hin as [i Hi]. destruct t; try done.
    eexists. left. exists i. unfold submit_step. by rewrite Hi.
  - assert (Hb : busy p = 0%nat).
    { unfold busy. rewrite Ea. simpl. clear -Hp. induction (submitters p) as [|t l IH]; [done|]. simpl.
      assert (probing t = 0%nat). { destruct (probing t) as [|[|n] ] eqn:E; [done| |unfold probing in E; by destruct t.2]. destruct Hp. by left. }
      rewrite <- plus_n_O in *. rewrite IH; [lia|]. intros Hx. destruct Hp. by right. }
    unfold finished in Hf. rewrite (bool_decide_true (active p = [])), andb_true_r in Hf by done.
    apply not_true_iff_false in Hf. rewrite forallb_forall in Hf.
    destruct (decide (Exists (fun t => work_of t <> 0%nat) (submitters p))) as [He|He].
    + apply Exists_exists in He as ([key t] & Hin & Ht). apply list_elem_of_lookup in Hin as [i Hi].
      destruct (submit_step limit o i p) as [p'|] eqn:Es; [eauto|]. unfold submit_step in Es. rewrite Hi, Hb in Es.
      destruct t as [first rest|first rest|[|rec rest]|rec rest|]; try done; repeat case_match; try done; lia.
    + destruct Hf. intros [key t] Hin. apply list_elem_of_In in Hin. destruct t; try done; destruct He; apply Exists_exists; eexists; (split; [exact Hin|unfold work_of; simpl; lia]).
Qed.

(** ** The counts *)

(** Whether a runner is down is the same all through the phase: its probe fails to reach
    it, or none of its candidates does. *)
Context (down : string -> bool).

Definition group_consistent (g : string * list SandboxRecord) : Prop :=
  match g.2 with
  | [] => True
  | first :: rest =>
      runnerKey first = g.1 /\ unreached (o first) = down g.1 /\ (down g.1 = false -> Forall (fun rec => unreached (o rec) = false) rest)
  end.

(** One of the three counters. *)
Inductive counter := CActed | CFailed | CSkipped.

Definition of_stats (c : counter) (s : sweepStats) : Z :=
  match c with CActed => acted s | CFailed => failed s | CSkipped => skippedUnreachable s end.

Definition of_outcome (c : counter) (rec : SandboxRecord) : nat :=
  match c, o rec with CActed, Acted | CFailed, Failed _ => 1 | _, _ => 0 end.

(** What the candidates a submitter still holds will add to a counter. *)
Definition rest_due (c : counter) (key : string) (rest : list SandboxRecord) : nat :=
  if down key then match c with CSkipped => length rest | _ => 0 end else sum_list_with (of_outcome c) rest.

Definition due (c : counter) (t : string * submitter) : nat :=
  match t.2 with
  | Probe first rest | Probing first rest => of_outcome c first + rest_due c t.1 rest
  | Rest rest => rest_due c t.1 rest
  | Offer rec rest => of_outcome c rec + rest_due c t.1 rest
  | Returned => 0
  end.

Definition total (c : counter) (p : sweepPool) : Z :=
  of_stats c (stats p) + Z.of_nat (sum_list_with (due c) (submitters p) + sum_list_with (of_outcome c) (active p)).

Definition rest_ok (key : string) (rest : list SandboxRecord) : Prop := down key = false -> Forall (fun rec => unreached (o rec) = false) rest.

Definition submitter_ok (found : gset string) (t : string * submitter) : Prop :=
  match t.2 with
  | Probe first rest | Probing first rest => runnerKey first = t.1 /\ unreached (o first) = down t.1 /\ rest_ok t.1 rest
  | Rest rest => (down t.1 = true -> t.1 ∈ found) /\ rest_ok t.1 rest
  | Offer rec rest => down t.1 = false /\ rest_ok t.1 (rec :: rest)
  | Returned => True
  end.

Record pool_ok (n : Z) (want : counter -> Z) (p : sweepPool) : Prop := {
  po_found : forall key, key ∈ unreachable p -> down key = true;
  po_submitters : Forall (submitter_ok (unreachable p)) (submitters p);
  po_active : Forall (fun rec => unreached (o rec) = false) (active p);
  po_total : cancelled p = false -> forall c, total c p = want c;
  po_candidates : candidates (stats p) = n;
}.

Lemma submitter_ok_mono U U' t : U ⊆ U' -> submitter_ok U t -> submitter_ok U' t.
Proof. intros HU. unfold submitter_ok. destruct t.2; try done. intros [H1 H2]. split; [set_solver|done]. Qed.

Lemma record_found rec x p : unreachable (record rec x p) = (if unreached x then {[runnerKey rec]} else ∅) ∪ unreachable p.
Proof. destruct x as [ [|]| |]; simpl; set_solver. Qed.

Lemma record_counts c rec p : of_stats c (stats (record rec (o rec) p)) = of_stats c (stats p) + Z.of_nat (of_outcome c rec).
Proof. unfold record, of_outcome. destruct (o rec), c; simpl; lia. Qed.

Lemma record_candidates rec x p : candidates (stats (record rec x p)) = candidates (stats p).
Proof. by destruct x. Qed.

Lemma ok_at U p i key t : Forall (submitter_ok U) (submitters p) -> submitters p !! i = Some (key, t) -> submitter_ok U (key, t).
Proof. intros Hs Hi. by eapply Forall_lookup in Hs. Qed.

(** A move of a submitter only passes on what is due. *)
Lemma submit_total c i p p' : (forall key, key ∈ unreachable p -> down key = true) -> Forall (submitter_ok (unreachable p)) (submitters p) ->
  cancelled p = false -> submit_step limit o i p = Some p' -> total c p' = total c p.
Proof.
  intros Hf Hs Hc H. submit_cases H; pose proof (ok_at _ _ _ _ _ Hs Et) as Hi; unfold submitter_ok in Hi; simpl in Hi;
    unfold total, set_submitter; simpl; rewrite ?record_submitters, ?record_active, ?record_counts, ?sum_snoc;
    match goal with |- context [<[_ := ?b]> _] => pose proof (sum_insert (due c) _ _ _ b Et) as HS end;
    unfold due in HS at 2 4; simpl in HS; unfold rest_due in HS; simpl in HS.
  - lia.
  - lia.
  - destruct (down key), c; lia.
  - rewrite Hf in HS by done. destruct c; simpl in *; lia.
  - destruct (down key) eqn:Ed; [destruct Hi as [Hi _]; by specialize (Hi eq_refl)|lia].
  - lia.
Qed.

Lemma submit_cancelled i p p' : submit_step limit o i p = Some p' -> cancelled p' = cancelled p.
Proof. intros H. submit_cases H; simpl; rewrite ?record_cancelled; congruence. Qed.

Lemma submit_candidates i p p' : submit_step limit o i p = Some p' -> candidates (stats p') = candidates (stats p).
Proof. intros H. submit_cases H; simpl; by rewrite ?record_candidates. Qed.

Lemma submit_ok n want i p p' : submit_step limit o i p = Some p' -> pool_ok n want p -> pool_ok n want p'.
Proof.
  intros H [Hf Hs Ha Ht Hc].
  assert (Htot : cancelled p' = false -> forall c, total c p' = want c).
  { intros Hcan c. rewrite (submit_cancelled _ _ _ H) in Hcan. rewrite (submit_total _ _ _ _ Hf Hs Hcan H). auto. }
  assert (Hcand : candidates (stats p') = n) by (by rewrite (submit_candidates _ _ _ H)).
  submit_cases H; pose proof (ok_at _ _ _ _ _ Hs Et) as Hi; unfold submitter_ok in Hi; simpl in Hi;
    (split; [| | |exact Htot|exact Hcand]); clear Htot Hcand;
    unfold set_submitter; rewrite ?record_submitters, ?record_active, ?record_found; simpl; try done;
    try (apply Forall_insert; [first [exact Hs|eapply Forall_impl; [exact Hs|]; intros ?; apply submitter_ok_mono; set_solver]|]; unfold submitter_ok; simpl); try done.
  - destruct Hi as (<- & Hu & _). intros key. rewrite elem_of_union. intros [Hk|Hk]; [|auto]. destruct (unreached (o first)); [|set_solver].
    apply elem_of_singleton in Hk as ->. by rewrite <- Hu.
  - destruct Hi as (<- & -> & Hr). split; [|done]. intros ->. set_solver.
  - destruct Hi as [Hx Hy]. split; [|done]. destruct (down key); [by specialize (Hx eq_refl)|done].
  - destruct Hi as [Hx Hy]. split; [congruence|]. intros Hd. specialize (Hy Hd). by inversion_clear Hy.
  - destruct Hi as [Hx Hy]. apply Forall_app. split; [done|]. constructor; [|constructor]. specialize (Hy Hx). by inversion_clear Hy.
Qed.

Lemma run_ok n want j p p' : run_step o j p = Some p' -> pool_ok n want p -> pool_ok n want p'.
Proof.
  unfold run_step. destruct (active p !! j) as [rec|] eqn:Ej; [|done]. intros [= <-] [Hf Hs Ha Ht Hc].
  assert (Hr : unreached (o rec) = false) by (by eapply Forall_lookup in Ha).
  split; rewrite ?record_submitters, ?record_active, ?record_found, ?record_cancelled, ?record_candidates, ?Hr; simpl; rewrite ?(left_id_L ∅ (∪)); try done.
  - rewrite <- (take_drop_middle _ _ _ Ej) in Ha. apply Forall_app in Ha as [? Ha2]. apply Forall_app. split; [done|]. by inversion_clear Ha2.
  - intros Hcan c. rewrite <- (Ht Hcan c). unfold total. rewrite record_submitters, record_active, record_counts. simpl.
    pose proof (sum_drop (of_outcome c) _ _ _ Ej). lia.
Qed.

Definition begun (g : string * list SandboxRecord) : string * submitter :=
  (g.1, match g.2 with first :: rest => Probe first rest | [] => Returned end).

Lemma start_begun groups : submitters (start groups) = begun <$> groups.
Proof. unfold start. simpl. apply list_fmap_ext. intros ? [key g] ?. done. Qed.

Lemma count_all c s l : of_stats c (foldl (count_one o) s l) = of_stats c s + Z.of_nat (sum_list_with (of_outcome c) l).
Proof.
  revert s. induction l as [|rec l IH]; intros s; simpl; [lia|]. rewrite IH. unfold count_one, of_outcome at 2.
  destruct (o rec), c; simpl; lia.
Qed.

Lemma count_group_due c s g : group_consistent g -> of_stats c (count_group o s g.2) = of_stats c s + Z.of_nat (due c (begun g)).
Proof.
  destruct g as [key [|first rest] ]; unfold group_consistent, due; simpl; [lia|]. intros (_ & Hu & _). unfold rest_due. rewrite <- Hu.
  destruct (unreached (o first)) eqn:E.
  - unfold of_outcome. destruct (o first), c; simpl in *; try done; lia.
  - rewrite count_all. unfold count_one, of_outcome at 2. destruct (o first), c; simpl; lia.
Qed.

Lemma reference_due c groups s : Forall group_consistent groups ->
  of_stats c (foldl (count_group o) s (snd <$> groups)) = of_stats c s + Z.of_nat (sum_list_with (due c) (begun <$> groups)).
Proof.
  intros H. revert s. induction H as [|g groups Hg _ IH]; intros s; simpl; [lia|]. rewrite IH. rewrite (count_group_due c s g) by done. change (list_fmap _ _ begun groups) with (begun <$> groups). lia.
Qed.

Lemma count_candidates groups s : candidates (foldl (count_group o) s groups) = candidates s.
Proof.
  revert s. induction groups as [|[|first rest] groups IH]; intros s; simpl; rewrite ?IH; try done. destruct (unreached (o first)); [done|].
  assert (H : forall l s, candidates (foldl (count_one o) s l) = candidates s).
  { induction l as [|rec l IHl]; intros s'; simpl; [done|]. rewrite IHl. unfold count_one. by destruct (o rec). }
  rewrite H. unfold count_one. by destruct (o first).
Qed.

Lemma start_ok groups : Forall group_consistent groups ->
  pool_ok (candidates (stats (start groups))) (fun c => of_stats c (reference o groups)) (start groups).
Proof.
  intros H. split; rewrite ?start_begun; try done.
  - apply Forall_fmap. eapply Forall_impl; [exact H|]. intros [key [|first rest] ]; [done|]. intros (? & ? & ?). by split.
  - intros _ c. unfold reference. rewrite reference_due by done. unfold total. rewrite start_begun. simpl. destruct c; simpl; lia.
Qed.

Lemma reached_ok groups p : Forall group_consistent groups -> reached groups p ->
  pool_ok (candidates (stats (start groups))) (fun c => of_stats c (reference o groups)) p.
Proof.
  intros Hg H. unfold reached in H.
  apply (rtc_ind_r (R := pool_step limit o) (pool_ok (candidates (stats (start groups))) (fun c => of_stats c (reference o groups))) (start groups));
    [by apply start_ok| |exact H].
  clear p H. intros p p' _ [i q q' Hs|j q q' Hs|q] IH; [by eapply submit_ok|by eapply run_ok|]. by destruct IH.
Qed.

Lemma finished_counts groups p : Forall group_consistent groups -> reached groups p -> finished p = true -> cancelled p = false ->
  stats p = reference o groups.
Proof.
  intros Hg Hr Hf Hc. destruct (reached_ok _ _ Hg Hr) as [_ _ _ Ht Hn]. specialize (Ht Hc).
  apply andb_true_iff in Hf as [Hf Ha]. apply bool_decide_eq_true in Ha.
  assert (Hz : forall c, sum_list_with (due c) (submitters p) = 0%nat).
  { intros c. clear -Hf. induction (submitters p) as [|[key t] l IH]; [done|]. simpl in *. apply andb_true_iff in Hf as [H1 H2].
    rewrite (IH H2). by destruct t. }
  assert (Hall : forall c, of_stats c (stats p) = of_stats c (reference o groups)).
  { intros c. rewrite <- (Ht c). unfold total. rewrite Hz, Ha. simpl. lia. }
  assert (Hcand : candidates (stats p) = candidates (reference o groups)) by (rewrite Hn; unfold reference; by rewrite count_candidates).
  pose proof (Hall CActed) as H1. pose proof (Hall CFailed) as H2. pose proof (Hall CSkipped) as H3. simpl in H1, H2, H3.
  destruct (stats p), (reference o groups). simpl in *. congruence.
Qed.
End laws.

(** ** Runs *)

(** A schedule: moves of submitters and ends of candidates. *)
Fixpoint play (limit : nat) (o : SandboxRecord -> outcome) (moves : list (nat + nat)) (p : sweepPool) : option sweepPool :=
  match moves with
  | [] => Some p
  | inl i :: moves' => submit_step limit o i p ≫= play limit o moves'
  | inr j :: moves' => run_step o j p ≫= play limit o moves'
  end.

Lemma played limit o moves p p' : play limit o moves p = Some p' -> rtc (pool_step limit o) p p'.
Proof.
  revert p. induction moves as [|[i|j] moves IH]; intros p; simpl; [by intros [= <-]| |].
  - destruct (submit_step limit o i p) as [q|] eqn:E; [|done]. intros H. eapply rtc_l; [by eapply submitter_moves|by apply IH].
  - destruct (run_step o j p) as [q|] eqn:E; [|done]. intros H. eapply rtc_l; [by eapply candidate_ends|by apply IH].
Qed.

(** Two runners, one of them down, side by side in a pool of two. *)
Definition candidate (id runner : string) : SandboxRecord := mkSandboxRecord id "running" 0 0 "" "" "" 0 runner "" "" "" false "".
Definition two_runners : list SandboxRecord :=
  [candidate "a1" "a"; candidate "b1" "b"; candidate "a2" "a"; candidate "b2" "b"; candidate "a3" "a"; candidate "b3" "b"].
Definition b_is_down (rec : SandboxRecord) : outcome :=
  if decide (sr_RunnerID rec = "b") then Failed true else if decide (sr_ID rec = "a2") then Failed false else Acted.
Definition side_by_side : list (nat + nat) :=
  [inl 0%nat; inl 1%nat; inl 0%nat; inl 0%nat; inl 0%nat; inl 0%nat; inl 1%nat; inl 0%nat; inl 1%nat; inr 1%nat; inr 0%nat; inl 0%nat].
Definition swept : sweepPool := default (start []) (play 2 b_is_down side_by_side (start (groupByRunner two_runners))).

Example swept_counts : finished swept = true /\ stats swept = mkStats 6 2 2 2.
Proof. by vm_compute. Qed.

(** ** The phase *)

Definition sweepConcurrency (IdleSweepConcurrency : Z) : nat := if decide (IdleSweepConcurrency <= 0) then 1 else Z.to_nat IdleSweepConcurrency.

Lemma sweepConcurrency_pos n : (0 < sweepConcurrency n)%nat.
Proof. unfold sweepConcurrency. case_decide; lia. Qed.

(** C23: However the goroutines of a phase interleave, no more candidates run at once than
    the pool allows; until every one has returned some goroutine can move without waiting
    for another, and each move brings the end nearer, so [wait] returns; and when a
    runner is either reached by all its candidates or not even by its first, the counts of
    a phase that was not cancelled are those of the plain definition: a runner that is
    down costs one call and its other candidates are skipped, all others run once. *)
Theorem pool_counts (IdleSweepConcurrency : Z) (o : SandboxRecord -> outcome) (groups : list (string * list SandboxRecord)) (p : sweepPool)
    (limit := sweepConcurrency IdleSweepConcurrency) : reached limit o groups p ->
  (busy p <= limit)%nat /\
  (finished p = false -> exists p', (exists i, submit_step limit o i p = Some p') \/ (exists j, run_step o j p = Some p')) /\
  (forall i p', submit_step limit o i p = Some p' -> (work p' < work p)%nat) /\
  (forall j p', run_step o j p = Some p' -> (work p' < work p)%nat) /\
  (forall down, Forall (group_consistent o down) groups -> finished p = true -> cancelled p = false -> stats p = reference o groups).
Proof.
  intros Hr. split; [by eapply busy_bounded|]. split; [apply pool_moves, sweepConcurrency_pos|].
  split; [intros i p'; apply submit_works|]. split; [intros j p'; apply run_works|].
  intros down Hg Hf Hc. by eapply finished_counts.
Qed.

Lemma pool_counts_witness : stats swept = reference b_is_down (groupByRunner two_runners).
Proof.
  destruct (pool_counts 2 b_is_down (groupByRunner two_runners) swept) as (_ & _ & _ & _ & H).
  - apply (played _ _ side_by_side). by vm_compute.
  - apply (H (fun key => bool_decide (key = "b"))); [|by vm_compute|by vm_compute].
    repeat constructor; by vm_compute.
Defined.
End SweepPool.
