(* ===== verification/SweepLock.v ===== *)
(** * One sweep at a time ([internal/api/store/postgres.go]: TryRun; [internal/api/ttl.go]:
    StartIdleSweeper)

    The sweeper loops of several pods on one Postgres: every pass takes a connection from
    its pod's pool, asks for the session advisory lock and sweeps when it was granted.
    Statements may fail with or without having taken effect, and the server may end any
    session at any point, which releases what it holds. *)

From S2P Require Import Prelude.

Module SweepLock.

(** ** The lock as Postgres keeps it *)

(** The session that holds it and how often it took it. *)
Definition advisory : Type := option (nat * nat).

Definition pg_try_advisory_lock (s : nat) (l : advisory) : bool * advisory :=
  match l with
  | None => (true, Some (s, 1%nat))
  | Some (s', d) => if decide (s' = s) then (true, Some (s, S d)) else (false, l)
  end.

Definition pg_advisory_unlock (s : nat) (l : advisory) : advisory :=
  match l with
  | Some (s', S (S d)) => if decide (s' = s) then Some (s, S d) else l
  | Some (s', _) => if decide (s' = s) then None else l
  | None => None
  end.

(** The end of a session releases its locks. *)
Definition end_session (s : nat) (l : advisory) : advisory :=
  match l with Some (s', d) => if decide (s' = s) then None else l | None => None end.

(** ** The pods *)

(** The loop of [StartIdleSweeper]: between passes, in [TryRun] with a connection, in the
    sweep, at the deferred unlock, returned. *)
Inductive sweeper := Waiting | HasConn (s : nat) | Sweeping (s : nat) | Unlocking (s : nat) | Stopped.

Definition conn_of (w : sweeper) : option nat :=
  match w with HasConn s | Sweeping s | Unlocking s => Some s | _ => None end.

(** [pooled]: the idle connections, each with its pod.  [ended]: the sessions that are
    over on the server; a pod may not have noticed yet.  [opened]: how many there have
    been. *)
Record system := mkSystem { lock : advisory; sweepers : list sweeper; pooled : gmap nat nat; ended : gset nat; opened : nat }.

Definition set_sweeper (i : nat) (w : sweeper) (y : system) : system :=
  mkSystem (lock y) (<[i := w]> (sweepers y)) (pooled y) (ended y) (opened y).
Definition set_lock (l : advisory) (y : system) : system := mkSystem l (sweepers y) (pooled y) (ended y) (opened y).
Definition set_pooled (m : gmap nat nat) (y : system) : system := mkSystem (lock y) (sweepers y) m (ended y) (opened y).

(** How a statement went: answered; failed before or after it took effect, with the
    connection broken; its context cancelled once the answer was in, which leaves the
    connection good. *)
Inductive statement := Answered | Broken (effect : bool) | Cancelled.

(** [conn.Close]: back to the pool, unless the connection broke. *)
Definition close_conn (i s : nat) (good : bool) (y : system) : system :=
  if good then set_pooled (<[s := i]> (pooled y)) y else y.

Inductive label :=
| LTick (reuse : option nat)
| LTry (st : statement)
| LSwept
| LUnlock (st : statement)
| LStop.

(** [TryRun] up to the call of [fn], and from its return on; the loop around it. *)
Definition move (i : nat) (l : label) (y : system) : option system :=
  match sweepers y !! i, l with
  | Some Waiting, LTick (Some s) =>
      if decide (pooled y !! s = Some i) then Some (set_sweeper i (HasConn s) (set_pooled (delete s (pooled y)) y)) else None
  | Some Waiting, LTick None =>
      Some (mkSystem (lock y) (<[i := HasConn (opened y)]> (sweepers y)) (pooled y) (ended y) (S (opened y)))
  | Some Waiting, LStop => Some (set_sweeper i Stopped y)
  | Some (HasConn s), LTry st =>
      let dead := bool_decide (s ∈ ended y) in
      let '(granted, l') := pg_try_advisory_lock s (lock y) in
      match st with
      | Answered => if dead then None
                    else if granted then Some (set_sweeper i (Sweeping s) (set_lock l' y))
                    else Some (set_sweeper i Waiting (close_conn i s true y))
      | Broken effect => Some (set_sweeper i Waiting (if effect && negb dead then set_lock l' y else y))
      | Cancelled => if dead then None else Some (set_sweeper i Stopped (close_conn i s true (set_lock l' y)))
      end
  | Some (Sweeping s), LSwept => Some (set_sweeper i (Unlocking s) y)
  | Some (Unlocking s), LUnlock st =>
      let dead := bool_decide (s ∈ ended y) in
      match st with
      | Answered => if dead then None else Some (set_sweeper i Waiting (close_conn i s true (set_lock (pg_advisory_unlock s (lock y)) y)))
      | Broken effect => Some (set_sweeper i Waiting (if effect && negb dead then set_lock (pg_advisory_unlock s (lock y)) y else y))
      (* the context of the unlock is never cancelled *)
      | Cancelled => None
      end
  | _, _ => None
  end.

Inductive step : system -> system -> Prop :=
| pod_moves i l y y' : move i l y = Some y' -> step y y'
| session_ends s y : (s < opened y)%nat -> step y (mkSystem (end_session s (lock y)) (sweepers y) (delete s (pooled y)) ({[s]} ∪ ended y) (opened y)).

Definition init (pods : nat) : system := mkSystem None (replicate pods Waiting) ∅ ∅ 0.

(** ** One at a time *)

Definition holds (w : sweeper) : option nat := match w with Sweeping s | Unlocking s => Some s | _ => None end.

Record lock_ok (y : system) : Prop := {
  lo_distinct : forall i j w w' s, sweepers y !! i = Some w -> sweepers y !! j = Some w' -> conn_of w = Some s -> conn_of w' = Some s -> i = j;
  lo_pooled : forall i w s, sweepers y !! i = Some w -> conn_of w = Some s -> pooled y !! s = None /\ (s < opened y)%nat;
  lo_opened : forall s i, pooled y !! s = Some i -> (s < opened y)%nat;
  lo_held : forall i w s, sweepers y !! i = Some w -> holds w = Some s -> s ∈ ended y \/ exists d, lock y = Some (s, S d);
}.

Lemma holds_conn w s : holds w = Some s -> conn_of w = Some s.
Proof. by destruct w. Qed.

(** What a move of one pod has to keep. *)
Lemma move_keeps y y' i w0 w1 :
  lock_ok y -> sweepers y !! i = Some w0 -> sweepers y' = <[i := w1]> (sweepers y) -> ended y' = ended y -> (opened y <= opened y')%nat ->
  (forall s, conn_of w1 = Some s -> (conn_of w0 = Some s \/ pooled y !! s = Some i \/ s = opened y) /\ pooled y' !! s = None /\ (s < opened y')%nat) ->
  (forall s j, pooled y' !! s = Some j -> pooled y !! s = Some j \/ conn_of w0 = Some s /\ conn_of w1 = None) ->
  (forall s, holds w1 = Some s -> s ∈ ended y \/ exists d, lock y' = Some (s, S d)) ->
  (forall s d, conn_of w0 <> Some s -> lock y = Some (s, S d) -> exists d', lock y' = Some (s, S d')) ->
  lock_ok y'.
Proof.
  intros [Hd Hp Ho Hh] Hi Hs He Hop Hc1 Hpool Hh1 Hl.
  assert (Hother : forall j w s, j <> i -> sweepers y !! j = Some w -> conn_of w = Some s -> conn_of w1 <> Some s /\ conn_of w0 <> Some s).
  { intros j w s Hne Hj Hw. assert (H0 : conn_of w0 <> Some s) by (intros H0; apply Hne; eauto). split; [|done]. intros H1.
    destruct (Hc1 _ H1) as [ [H|[H| ->] ] _]; [done| |]; destruct (Hp _ _ _ Hj Hw); [congruence|lia]. }
  assert (Hat : forall j w, sweepers y' !! j = Some w -> j = i /\ w = w1 \/ j <> i /\ sweepers y !! j = Some w).
  { intros j w. rewrite Hs. destruct (decide (j = i)) as [->|Hne].
    - rewrite list_lookup_insert_eq by (by eapply lookup_lt_Some). intros [= <-]. by left.
    - rewrite list_lookup_insert_ne by done. by right. }
  split.
  - intros j k w w' s Hj Hk Hw Hw'. destruct (Hat _ _ Hj) as [ [-> ->]|[Hn Hj'] ], (Hat _ _ Hk) as [ [-> ->]|[Hn' Hk'] ]; [done| | |by eapply Hd].
    + by destruct (Hother _ _ _ Hn' Hk' Hw').
    + by destruct (Hother _ _ _ Hn Hj' Hw).
  - intros j w s Hj Hw. destruct (Hat _ _ Hj) as [ [-> ->]|[Hn Hj'] ]; [by apply Hc1|]. destruct (Hp _ _ _ Hj' Hw) as [H1 H2].
    split; [|lia]. destruct (pooled y' !! s) as [k|] eqn:E; [|done]. destruct (Hpool _ _ E) as [H|[H _] ]; [congruence|].
    by destruct (Hother _ _ _ Hn Hj' Hw).
  - intros s j Hj. destruct (Hpool _ _ Hj) as [H|[H _] ]; [apply Ho in H; lia|]. destruct (Hp _ _ _ Hi H). lia.
  - intros j w s Hj Hw. rewrite He. destruct (Hat _ _ Hj) as [ [-> ->]|[Hn Hj'] ]; [auto|].
    destruct (Hh _ _ _ Hj' Hw) as [H|[d H] ]; [by left|]. right. eapply Hl; [|exact H]. by eapply Hother; [..|by apply holds_conn].
Qed.

(** The lock calls of one session leave a lock that another one holds. *)
Lemma try_other s s' d l : s' <> s -> l = Some (s, S d) -> pg_try_advisory_lock s' l = (false, l).
Proof. intros Hn ->. simpl. by rewrite decide_False. Qed.

Lemma unlock_other s s' d l : s' <> s -> l = Some (s, S d) -> pg_advisory_unlock s' l = l.
Proof. intros Hn ->. simpl. destruct d; by rewrite decide_False. Qed.

Lemma try_granted s l l' : pg_try_advisory_lock s l = (true, l') -> exists d, l' = Some (s, S d).
Proof. unfold pg_try_advisory_lock. destruct l as [ [s' d]|]; [case_decide|]; intros [= <-]; eauto. Qed.

Lemma move_ok i l y y' : lock_ok y -> move i l y = Some y' -> lock_ok y'.
Proof.
  intros Hok H. unfold move in H. destruct (sweepers y !! i) as [w0|] eqn:Ei; [|done]. pose proof Hok as [Hd Hp Ho Hh].
  assert (Hpi := fun s => Hp i w0 s Ei). assert (Hhi := fun s => Hh i w0 s Ei).
  destruct w0 as [|s|s|s|], l as [reuse|st| |st|]; try done.
  - destruct reuse as [s|].
    + case_decide as Hs; [|done]. injection H as <-. eapply (move_keeps y _ i); [done|exact Ei|reflexivity|done|done|..]; simpl; try done; [| |eauto].
      * intros s' [= <-]. rewrite lookup_delete_eq. pose proof (Ho _ _ Hs). eauto.
      * intros s' j. rewrite lookup_delete_Some. intros [_ ?]. by left.
    + injection H as <-. eapply (move_keeps y _ i); [done|exact Ei|reflexivity|done|simpl; lia|..]; simpl; try done; [| |eauto].
      * intros s' [= <-]. split; [eauto|]. split; [|lia]. destruct (pooled y !! opened y) eqn:E; [|done]. apply Ho in E. lia.
      * auto.
  - injection H as <-. eapply (move_keeps y _ i); [done|exact Ei|reflexivity|done|done|..]; simpl; try done; eauto.
  - destruct (pg_try_advisory_lock s (lock y)) as [granted l'] eqn:Et.
    assert (Hkeep : forall s' d, Some s <> Some s' -> lock y = Some (s', S d) -> exists d', l' = Some (s', S d')).
    { intros s' d Hn Hl. rewrite (try_other s' s d) in Et by congruence. injection Et as <- <-. eauto. }
    destruct st as [|effect|].
    + destruct (bool_decide (s ∈ ended y)); [done|]. destruct granted; injection H as <-;
        (eapply (move_keeps y _ i); [done|exact Ei|reflexivity|done|done|..]); simpl; try done; eauto.
      * intros s' [= <-]. right. by eapply try_granted.
      * intros s' j. rewrite lookup_insert_Some. intros [ [<- _]|[_ ?] ]; eauto.
    + injection H as <-. destruct (effect && negb (bool_decide (s ∈ ended y)));
        (eapply (move_keeps y _ i); [done|exact Ei|reflexivity|done|done|..]); simpl; try done; eauto.
    + destruct (bool_decide (s ∈ ended y)); [done|]. injection H as <-.
      (eapply (move_keeps y _ i); [done|exact Ei|reflexivity|done|done|..]); simpl; try done; eauto.
      intros s' j. rewrite lookup_insert_Some. intros [ [<- _]|[_ ?] ]; eauto.
  - injection H as <-. eapply (move_keeps y _ i); [done|exact Ei|reflexivity|done|done|..]; simpl; try done; eauto.
  - assert (Hkeep : forall s' d, Some s <> Some s' -> lock y = Some (s', S d) -> exists d', pg_advisory_unlock s (lock y) = Some (s', S d')).
    { intros s' d Hn Hl. rewrite (unlock_other s' s d) by congruence. eauto. }
    destruct st as [|effect|]; [| |done].
    + destruct (bool_decide (s ∈ ended y)); [done|]. injection H as <-.
      (eapply (move_keeps y _ i); [done|exact Ei|reflexivity|done|done|..]); simpl; try done; eauto.
      intros s' j. rewrite lookup_insert_Some. intros [ [<- _]|[_ ?] ]; eauto.
    + injection H as <-. destruct (effect && negb (bool_decide (s ∈ ended y)));
        (eapply (move_keeps y _ i); [done|exact Ei|reflexivity|done|done|..]); simpl; try done; eauto.
Qed.

Lemma init_ok pods : lock_ok (init pods).
Proof.
  assert (Hw : forall i w, sweepers (init pods) !! i = Some w -> w = Waiting) by (intros i w; simpl; rewrite lookup_replicate; by intros [-> _]).
  split; simpl; try done.
  - intros i j w w' s Hi _ Hc. by rewrite (Hw _ _ Hi) in Hc.
  - intros i w s Hi Hc. by rewrite (Hw _ _ Hi) in Hc.
  - intros i w s Hi Hc. by rewrite (Hw _ _ Hi) in Hc.
Qed.

Lemma step_ok y y' : step y y' -> lock_ok y -> lock_ok y'.
Proof.
  intros [i l q q' H|s q Hs] Hok; [by eapply move_ok|]. destruct Hok as [Hd Hp Ho Hh]. split; simpl; [done| | |].
  - intros i w s' Hi Hc. destruct (Hp _ _ _ Hi Hc) as [H ?]. split; [|done]. rewrite lookup_delete_None. by right.
  - intros s' i. rewrite lookup_delete_Some. intros [_ H]. eauto.
  - intros i w s' Hi Hc. destruct (Hh _ _ _ Hi Hc) as [H|[d H] ]; [left; set_solver|]. rewrite H. simpl.
    case_decide; [left; set_solver|right; eauto].
Qed.

(** Two pods are never in a sweep at once, but for one whose session the server has ended
    while it swept. *)
Lemma sweeps_alone pods y i j w w' s s' : rtc step (init pods) y -> sweepers y !! i = Some w -> sweepers y !! j = Some w' ->
  holds w = Some s -> holds w' = Some s' -> i <> j -> s ∈ ended y \/ s' ∈ ended y.
Proof.
  intros Hr Hi Hj Hs Hs' Hne.
  assert (Hok : lock_ok y).
  { apply (rtc_ind_r (R := step) (fun y => lock_ok y) (init pods)); [apply init_ok| |exact Hr]. intros q q' _ Hst. by apply step_ok. }
  destruct Hok as [Hd _ _ Hh].
  destruct (Hh _ _ _ Hi Hs) as [?|[d Hl] ]; [by left|]. destruct (Hh _ _ _ Hj Hs') as [?|[d' Hl'] ]; [by right|].
  destruct Hne. apply (Hd i j w w' s); try done; apply holds_conn; [done|]. congruence.
Qed.

(** ** Runs *)

Fixpoint play (moves : list (nat * label)) (y : system) : option system :=
  match moves with [] => Some y | (i, l) :: moves' => move i l y ≫= play moves' end.

(** A pass that found the lock taken leaves it alone and its connection to the pool. *)
Example second_pod_skips :
  (fun y => (lock y, sweepers y)) <$> play [(0%nat, LTick None); (0%nat, LTry Answered); (1%nat, LTick None); (1%nat, LTry Answered)] (init 2) =
  Some (Some (0%nat, 1%nat), [Sweeping 0; Waiting]).
Proof. by vm_compute. Qed.

(** The connection that holds the lock is idle while the sweep goes on: when it is lost,
    the next pod sweeps beside the first. *)
Definition lose (s : nat) (y : system) : system := mkSystem (end_session s (lock y)) (sweepers y) (delete s (pooled y)) ({[s]} ∪ ended y) (opened y).

Example lost_session_sweeps_twice :
  sweepers <$> (play [(0%nat, LTick None); (0%nat, LTry Answered)] (init 2) ≫= fun y => play [(1%nat, LTick None); (1%nat, LTry Answered)] (lose 0 y)) =
  Some [Sweeping 0; Sweeping 1].
Proof. by vm_compute. Qed.

(** A pass that ends gives the lock back. *)
Example lock_given_back :
  lock <$> play [(0%nat, LTick None); (0%nat, LTry Answered); (0%nat, LSwept); (0%nat, LUnlock Answered)] (init 2) = Some None.
Proof. by vm_compute. Qed.
End SweepLock.
