(* ===== verification/FirecrackerHost.v ===== *)
(** * Host calls of the Firecracker runtime ([internal/runner/runtime/firecracker.ee]:
    rootfs.go, reconcile.go, snapshot.go, api_client.go, and of runtime.go the waits and
    [Ready])

    The commands and requests the runtime makes on its host, as a log of calls that
    succeed or fail, in the order they are made: the copies of the golden assets, the
    clearing of what an earlier runner left, the snapshot requests to the microVM. *)

From S2P Require Import Prelude GoStrings EnvParse NetAddr Paths ShellQuote LoadFirecracker FirecrackerNet FirecrackerJail.

Module FirecrackerHost.
Import GoStrings ShellQuote Paths FirecrackerNet FirecrackerJail.

(** ** Paths *)

Definition sandboxDataDir (dataDir sandboxID : string) : string := Join dataDir sandboxID.
Definition sandboxRootfsPath (dataDir sandboxID : string) : string := Join (sandboxDataDir dataDir sandboxID) "rootfs.ext4".
Definition sandboxSnapshotMemPath (dataDir : string) : string := Join dataDir "snapshot_mem".
Definition sandboxSnapshotStatePath (dataDir : string) : string := Join dataDir "snapshot_state".

(** ** Calls *)

Record memBackend := mkBackend { BackendType : string; BackendPath : string }.
Record loadSnapshotRequest := mkLoad { ld_SnapshotPath : string; MemBackend : memBackend; TrackDirtyPages : bool; ResumeVM : bool; ClockRealtime : bool }.
Record createSnapshotRequest := mkCreate { SnapshotType : string; cr_SnapshotPath : string; MemFilePath : string }.

(** The bodies, before [json.Marshal]. *)
Inductive api_body := BLoad (r : loadSnapshotRequest) | BCreate (r : createSnapshotRequest) | BState (state : string).

Inductive host_call :=
| CMkdirAll (path : string)
| CRun (name : string) (args : list string)
| CRequest (method path : string) (body : api_body).

(** What the microVM answers: the request fails; a status with the body read for the
    message and what draining the body reports. *)
Record api_answer := mkAnswer { aa_status : Z; aa_text : string; aa_drain : option string }.

(** The [n]th call: its error, if any. *)
Class FirecrackerHost := {
  call_error : nat -> option string;
  answered : nat -> string + api_answer;
}.

Section host.
Context {H : FirecrackerHost}.
#[local] Open Scope act_scope.

(** The calls so far, the latest last. *)
Definition host_act (A : Type) : Type := act (list host_call) string A.

Definition log (c : host_call) : host_act nat := fun l => (inr (length l), l ++ [c]).

Definition call (c : host_call) : host_act unit :=
  let! n := log c in
  match call_error n with Some e => exit e | None => ret tt end.

(** [runCommand], its message without the output. *)
Definition runCommand (name : string) (args : list string) : host_act unit := call (CRun name args).

(** The error of [fmt.Errorf("text: %w", err)]. *)
Definition wrapped {A} (text : string) (m : host_act A) : host_act A :=
  let! o := try m in
  match o with inl e => exit (text +:+ ": " +:+ e) | inr a => ret a end.

(** *** Copies *)

Definition clone_lines (template dest : string) : list (list piece) :=
  [ [];
    [Lit "set -eu"];
    [Lit "if cp --reflink=auto --sparse=always "; Arg template; Lit " "; Arg dest; Lit " 2>/dev/null; then"];
    [Lit "  exit 0"];
    [Lit "fi"];
    [Lit "if cp --sparse=always "; Arg template; Lit " "; Arg dest; Lit " 2>/dev/null; then"];
    [Lit "  exit 0"];
    [Lit "fi"];
    [Lit "cp "; Arg template; Lit " "; Arg dest] ].

Definition clone_script (template dest : string) : string := render (clone_lines template dest ≫= line).

Definition cloneSparseFile (templatePath destPath : string) : host_act unit :=
  do! wrapped "create parent dir" (call (CMkdirAll (Dir destPath))) in
  runCommand "/bin/sh" ["-c"; clone_script templatePath destPath].

Definition cloneRootfs (templatePath destPath : string) : host_act unit := cloneSparseFile templatePath destPath.

Definition cloneGoldenSnapshotAssets (goldenMemPath goldenStatePath dataDir : string) : host_act unit :=
  do! wrapped "clone snapshot mem" (cloneSparseFile goldenMemPath (sandboxSnapshotMemPath dataDir)) in
  wrapped "clone snapshot state" (cloneSparseFile goldenStatePath (sandboxSnapshotStatePath dataDir)).

Definition removeSandboxDataDir (dataDir : string) : host_act unit :=
  if decide (dataDir = "") then ret tt else runCommand "rm" ["-rf"; dataDir].

(** *** The start *)

(** The entries of the data directory and whether each is a directory; or that there is
    none, or another error. *)
Inductive read_dir := DirEntries (l : list (string * bool)) | DirMissing | DirError (e : string).

Fixpoint remove_dirs (dataDir : string) (l : list (string * bool)) : host_act unit :=
  match l with
  | [] => ret tt
  | (name, isDir) :: l' =>
      if negb isDir then remove_dirs dataDir l'
      else
        (* an error is logged *)
        do! try (removeSandboxDataDir (Join dataDir name)) in
        remove_dirs dataDir l'
  end.

Definition reconcileSandboxDataDirs (dataDir : string) (entries : read_dir) : host_act unit :=
  if decide (dataDir = "") then ret tt
  else match entries with
       | DirMissing => exit ("data dir " +:+ dataDir +:+ " does not exist; creates fail until it does")
       | DirError e => exit ("read data dir " +:+ dataDir +:+ ": " +:+ e)
       | DirEntries l => remove_dirs dataDir l
       end.

Definition reconcileJailerState (cfg : LoadFirecracker.Config) (pathExists : string -> bool) : host_act unit :=
  let jailerRoot := Join (LoadFirecracker.JailerBaseDir cfg) "firecracker" in
  if negb (pathExists jailerRoot) then ret tt
  else runCommand "sudo" ["/bin/sh"; "-c"; render (line [Lit "set -eu"] ++ line [Lit "rm -rf "; Arg jailerRoot])].

Definition stray_netns : string := "ip netns list | awk '{print $1}' | grep '^fc-sb-' | xargs -r -n1 ip netns delete 2>/dev/null || true".

Definition startupNetworkCleanupScript (capacity : nat) : string :=
  ("set -eu" +:+ newline) +:+
  foldr (fun slot acc => (TrimSpace (CleanupScript (Z.of_nat slot)) +:+ newline) +:+ acc) (stray_netns +:+ newline) (seq 0 capacity).

Definition reconcileNetworkNamespaces (slots : nat) : host_act unit := runCommand "sudo" ["/bin/sh"; "-c"; startupNetworkCleanupScript slots].

(** The errors are logged. *)
Definition reconcileOnStartup (cfg : LoadFirecracker.Config) (dataDir : string) (entries : read_dir) (pathExists : string -> bool) (slots : nat) : host_act unit :=
  do! try (reconcileSandboxDataDirs dataDir entries) in
  do! try (reconcileJailerState cfg pathExists) in
  do! try (reconcileNetworkNamespaces slots) in
  ret tt.

(** *** The microVM *)

Definition send (method path : string) (body : api_body) : host_act unit :=
  let! n := log (CRequest method path body) in
  match answered n with
  | inl e => exit e
  | inr a =>
      if decide (aa_status a < 200 \/ aa_status a >= 300) then
        exit ("firecracker API " +:+ method +:+ " " +:+ path +:+ " returned status " +:+ itoa (aa_status a) +:+ ": " +:+ TrimSpace (aa_text a))
      else match aa_drain a with
           | Some e => exit ("firecracker API " +:+ method +:+ " " +:+ path +:+ " drain response body: " +:+ e)
           | None => ret tt
           end
  end.

Definition putJSON (path : string) (body : api_body) : host_act unit := send "PUT" path body.
Definition patchJSON (path : string) (body : api_body) : host_act unit := send "PATCH" path body.

Definition load_request : loadSnapshotRequest := mkLoad "/snapshot_state" (mkBackend "File" "/snapshot_mem") false true true.
Definition create_request : createSnapshotRequest := mkCreate "Full" "/snapshot_state" "/snapshot_mem".

Definition loadSnapshot : host_act unit := putJSON "/snapshot/load" (BLoad load_request).
Definition pauseVM : host_act unit := patchJSON "/vm" (BState "Paused").
Definition resumeVM : host_act unit := patchJSON "/vm" (BState "Resumed").
Definition createSnapshot : host_act unit := putJSON "/snapshot/create" (BCreate create_request).

(** *** Host NAT *)

(** [ensureHostNATReady] on [hostNATOK]; [script] is the text [EnsureHostNAT] runs. *)
Definition ensureHostNATReady (script : string) (hostNATOK : bool) : list host_call -> (option string * bool) * list host_call :=
  fun l =>
    if hostNATOK then ((None, true), l)
    else match runCommand "sudo" ["/bin/sh"; "-c"; script] l with
         | (inl e, l') => ((Some e, false), l')
         | (inr _, l') => ((None, true), l')
         end.
End host.

(** What [EnsureHostNAT]'s script leaves on the host: forwarding, and the rules of two
    chains in order. *)
Record host_net := mkHostNet { ip_forward : bool; postrouting : list (list string); forward : list (list string) }.

(** [iptables -C rule || iptables -A rule] *)
Definition ensure_rule (r : list string) (l : list (list string)) : list (list string) := if decide (r ∈ l) then l else l ++ [r].

Definition masquerade (iface : string) : list string := ["-o"; iface; "-j"; "MASQUERADE"].
Definition established_rule : list string := ["-m"; "conntrack"; "--ctstate"; "RELATED,ESTABLISHED"; "-j"; "ACCEPT"].
Definition veth_rule : list string := ["-i"; "fc-veth+"; "-j"; "ACCEPT"].

Definition nat_steps (iface : string) : list (host_net -> host_net) :=
  [fun h => mkHostNet (ip_forward h) (ensure_rule (masquerade iface) (postrouting h)) (forward h);
   fun h => mkHostNet (ip_forward h) (postrouting h) (ensure_rule established_rule (forward h));
   fun h => mkHostNet (ip_forward h) (postrouting h) (ensure_rule veth_rule (forward h))].

(** [set -e]: the commands up to the first that fails. *)
Fixpoint run_steps (fails : nat -> bool) (n : nat) (l : list (host_net -> host_net)) (h : host_net) : bool * host_net :=
  match l with
  | [] => (true, h)
  | f :: l' => if fails n then (false, h) else run_steps fails (S n) l' (f h)
  end.

(** [default_iface]: the interface of the default route, if there is one. *)
Definition EnsureHostNAT (default_iface : option string) (fails : nat -> bool) (h : host_net) : bool * host_net :=
  if fails 0%nat then (false, h)
  else
    let h := mkHostNet true (postrouting h) (forward h) in
    match default_iface with
    | None => (false, h)
    | Some iface => run_steps fails 1 (nat_steps iface) h
    end.

(** ** Waits *)

Inductive ready_error := NoPath (label path : string) | NoCapacity | NotAdmitted.

Definition required_paths (cfg : LoadFirecracker.Config) : list (string * string) :=
  [("jailer", LoadFirecracker.JailerBin cfg); ("firecracker", LoadFirecracker.FirecrackerBin cfg);
   ("template rootfs", Join (LoadFirecracker.TemplateDir cfg) "rootfs.ext4"); ("template vmlinux", Join (LoadFirecracker.TemplateDir cfg) "vmlinux");
   ("snapshot memory", LoadFirecracker.SnapshotMemPath cfg); ("snapshot state", LoadFirecracker.SnapshotStatePath cfg)].

Fixpoint missing (pathExists : string -> bool) (l : list (string * string)) : option (string * string) :=
  match l with [] => None | (label, path) :: l' => if pathExists path then missing pathExists l' else Some (label, path) end.

(** [Ready], the map of paths read in the order [l]. *)
Definition Ready (pathExists : string -> bool) (l : list (string * string)) (slots : nat) (admissionOK : bool) : option ready_error :=
  match missing pathExists l with
  | Some (label, path) => Some (NoPath label path)
  | None => if decide (slots = 0%nat) then Some NoCapacity
            else if negb admissionOK then Some NotAdmitted
            else None
  end.

Inductive wait_result := WaitOk (n : nat) | WaitCancelled | WaitTimeout | WaitOn.

(** The polls left, the socket at each, and whether the context ends in the wait after it. *)
Fixpoint waitForSocket (attempts : nat) (exists_at ctx_done : nat -> bool) (n : nat) : wait_result :=
  match attempts with
  | O => WaitTimeout
  | S attempts' =>
      if exists_at n then WaitOk n
      else if ctx_done n then WaitCancelled
      else waitForSocket attempts' exists_at ctx_done (S n)
  end.

(** The probes looked at ([fuel]), the status each got, and whether the deadline has passed
    or the context ends after it. *)
Fixpoint probeDaemon (fuel : nat) (health : nat -> option Z) (late ctx_done : nat -> bool) (n : nat) : wait_result :=
  match fuel with
  | O => WaitOn
  | S fuel' =>
      if bool_decide (health n = Some 200) then WaitOk n
      else if late n then WaitTimeout
      else if ctx_done n then WaitCancelled
      else probeDaemon fuel' health late ctx_done (S n)
  end.

(** ** Copies go where they are meant to *)

Section scripts.
Context (t d : string).

Definition cp_tokens (pre : list token) (post : list token) : list token := pre ++ [Quoted t; Quoted d] ++ post.

(** Whatever the paths hold, the script tries three copies from the one to the other and
    does nothing else. *)
Lemma clone_commands : commands (clone_script t d) =
  [ []; [Word "set"; Word "-eu"];
    cp_tokens [Word "if"; Word "cp"; Word "--reflink=auto"; Word "--sparse=always"] [Word "2>/dev/null;"; Word "then"]; [Word "exit"; Word "0"]; [Word "fi"];
    cp_tokens [Word "if"; Word "cp"; Word "--sparse=always"] [Word "2>/dev/null;"; Word "then"]; [Word "exit"; Word "0"]; [Word "fi"];
    cp_tokens [Word "cp"] [] ].
Proof.
  assert (Ht : Forall (Forall tidy) (clone_lines t d)) by (unfold clone_lines; tidy_lines).
  unfold clone_script. rewrite commands_lines;
    [|eapply Forall_impl; [exact Ht|apply tidy_closed]|eapply Forall_impl; [exact Ht|apply tidy_no_newline] ].
  unfold clone_lines, cp_tokens. change (Lit " 2>/dev/null; then") with (Lit (space +:+ "2>/dev/null; then")). change (Lit " ") with (Lit (space +:+ "")).
  cbn [fmap list_fmap].
  rewrite (lit_arg_tokens "if cp --reflink=auto --sparse=always " [Word "if"; Word "cp"; Word "--reflink=auto"; Word "--sparse=always"] t "" _ eq_refl),
    (lit_arg_tokens "if cp --sparse=always " [Word "if"; Word "cp"; Word "--sparse=always"] t "" _ eq_refl),
    (lit_arg_tokens "cp " [Word "cp"] t "" _ eq_refl), (lit_arg_tokens "" [] d "2>/dev/null; then" _ eq_refl), (arg_tokens "" [] d eq_refl).
  reflexivity.
Qed.
End scripts.

Lemma abs_inj_elem l a b : abs (l ++ [a]) = abs (l ++ [b]) -> plain (l ++ [a]) -> plain (l ++ [b]) -> a = b.
Proof.
  intros E Ha Hb. apply (f_equal resolved) in E. rewrite !resolved_abs in E by done. by apply app_inj_tail in E as [_ ?].
Qed.

(** Sandboxes of one runner have data directories of their own, below the configured one. *)
Lemma data_dirs_distinct dataDir a b : IsAbs dataDir = true -> plain_elem a -> plain_elem b ->
  sandboxDataDir dataDir a = sandboxDataDir dataDir b -> a = b.
Proof.
  intros Hd Ha Hb. unfold sandboxDataDir. rewrite !Join_elem by done. intros E.
  eapply abs_inj_elem; [exact E| |]; (apply Forall_app; split; [apply resolved_plain|by constructor]).
Qed.

(** ** The start clears what was left, and only that *)

Section start.
Context {H : FirecrackerHost}.

Definition removed (dataDir : string) (l : list (string * bool)) : list host_call :=
  omap (fun '(name, isDir) => if (isDir : bool) && negb (bool_decide (Join dataDir name = "")) then Some (CRun "rm" ["-rf"; Join dataDir name]) else None) l.

(** Every directory there is gets its own removal, whatever the others came to; files are
    left. *)
Lemma remove_dirs_calls dataDir l log : remove_dirs dataDir l log = (inr tt, log ++ removed dataDir l).
Proof.
  revert log. induction l as [|[name isDir] l IH]; intros log; simpl; [by rewrite app_nil_r|].
  destruct isDir; simpl; [|apply IH]. unfold removeSandboxDataDir.
  destruct (decide (Join dataDir name = "")) as [E|E].
  - rewrite bool_decide_true by done. simpl. unfold bind at 1, try, ret. apply IH.
  - rewrite bool_decide_false by done. simpl. unfold bind at 1, try, runCommand, call. unfold bind at 1. simpl.
    destruct (call_error (length log)); unfold exit, ret; rewrite IH; by rewrite <- app_assoc.
Qed.

Lemma ran c log : exists o, call c log = (o, log ++ [c]).
Proof. unfold call, bind. simpl. destruct (call_error (length log)); unfold exit, ret; eauto. Qed.

Definition jailer_script (root : string) : string := render (line [Lit "set -eu"] ++ line [Lit "rm -rf "; Arg root]).

(** A start makes all three passes, whatever fails: the removal of every directory of a
    data directory that can be read, of the jailer's tree if there is one, and the script
    over the namespaces. *)
Lemma startup_calls cfg dataDir entries pathExists slots log :
  let root := Join (LoadFirecracker.JailerBaseDir cfg) "firecracker" in
  reconcileOnStartup cfg dataDir entries pathExists slots log =
  (inr tt, log ++ (if decide (dataDir = "") then [] else match entries with DirEntries l => removed dataDir l | _ => [] end) ++
           (if pathExists root then [CRun "sudo" ["/bin/sh"; "-c"; jailer_script root] ] else []) ++
           [CRun "sudo" ["/bin/sh"; "-c"; startupNetworkCleanupScript slots] ]).
Proof.
  intros root. unfold reconcileOnStartup.
  assert (H1 : (reconcileSandboxDataDirs dataDir entries log).2 =
    log ++ (if decide (dataDir = "") then [] else match entries with DirEntries l => removed dataDir l | _ => [] end)).
  { unfold reconcileSandboxDataDirs. destruct (decide (dataDir = "")); [simpl; by rewrite app_nil_r|].
    destruct entries; [by rewrite remove_dirs_calls|simpl; by rewrite app_nil_r|simpl; by rewrite app_nil_r]. }
  unfold bind at 1, try at 1. destruct (reconcileSandboxDataDirs dataDir entries log) as [o1 log1]. simpl in H1. subst log1.
  set (log1 := log ++ _).
  assert (H2 : (reconcileJailerState cfg pathExists log1).2 = log1 ++ (if pathExists root then [CRun "sudo" ["/bin/sh"; "-c"; jailer_script root] ] else [])).
  { unfold reconcileJailerState. fold root. destruct (pathExists root); cbn [negb]; [|by rewrite app_nil_r]. unfold runCommand, jailer_script.
    destruct (ran (CRun "sudo" ["/bin/sh"; "-c"; render (line [Lit "set -eu"] ++ line [Lit "rm -rf "; Arg root])]) log1) as [o ->]. done. }
  unfold bind at 1, try at 1. destruct (reconcileJailerState cfg pathExists log1) as [o2 log2]. simpl in H2. subst log2.
  unfold bind at 1, try at 1, reconcileNetworkNamespaces, runCommand.
  destruct (ran (CRun "sudo" ["/bin/sh"; "-c"; startupNetworkCleanupScript slots]) (log1 ++ (if pathExists root then [CRun "sudo" ["/bin/sh"; "-c"; jailer_script root] ] else []))) as [o ->].
  unfold ret, log1. by rewrite <- !app_assoc.
Qed.

(** *** Requests *)

(** A request is one call, and succeeds only on a status of its own class. *)
Lemma send_spec method path body log : exists o, send method path body log = (o, log ++ [CRequest method path body]) /\
  (o = inr tt -> exists a, answered (length log) = inr a /\ 200 <= aa_status a < 300).
Proof.
  unfold send, bind. simpl. destruct (answered (length log)) as [e|a]; [eexists; split; [reflexivity|done]|].
  destruct (decide (aa_status a < 200 \/ aa_status a >= 300)); [eexists; split; [reflexivity|done]|].
  destruct (aa_drain a); eexists; (split; [reflexivity|]); [done|]. intros _. exists a. split; [done|lia].
Qed.

(** Host NAT is set up by the first attempt that succeeds and not again; a failure is not
    remembered. *)
Lemma nat_once script ok log : let '((e, ok'), log') := ensureHostNATReady script ok log in
  (ok' = true <-> e = None) /\ (ok = true -> log' = log) /\ (ok = false -> log' = log ++ [CRun "sudo" ["/bin/sh"; "-c"; script] ]).
Proof.
  unfold ensureHostNATReady. destruct ok; [done|]. unfold runCommand, call, bind. simpl. by destruct (call_error (length log)).
Qed.
End start.

Lemma ensure_in r l : r ∈ ensure_rule r l.
Proof. unfold ensure_rule. case_decide; set_solver. Qed.

Lemma ensure_keeps r r' l : r' ∈ l -> r' ∈ ensure_rule r l.
Proof. unfold ensure_rule. case_decide; set_solver. Qed.

Lemma ensure_again r l : r ∈ l -> ensure_rule r l = l.
Proof. intros H. unfold ensure_rule. by rewrite decide_True. Qed.

(** Once it succeeded the rules are there and another run adds none, so a runner may set up
    the host at every start. *)
Lemma host_nat_idempotent iface fails h h' : EnsureHostNAT (Some iface) fails h = (true, h') ->
  ip_forward h' = true /\ masquerade iface ∈ postrouting h' /\ established_rule ∈ forward h' /\ veth_rule ∈ forward h' /\
  forall fails', (EnsureHostNAT (Some iface) fails' h').2 = h'.
Proof.
  unfold EnsureHostNAT. destruct (fails 0%nat); [done|]. cbn [run_steps nat_steps]. destruct (fails 1%nat); [done|]. destruct (fails 2%nat); [done|]. destruct (fails 3%nat); [done|].
  intros [= <-]. cbn [ip_forward postrouting forward].
  assert (H1 := ensure_in (masquerade iface) (postrouting h)). assert (H2 := ensure_in veth_rule (ensure_rule established_rule (forward h))).
  assert (H3 : established_rule ∈ ensure_rule veth_rule (ensure_rule established_rule (forward h))) by (apply ensure_keeps, ensure_in).
  split_and!; [done|done|done|done|]. intros fails'.
  destruct (fails' 0%nat), (fails' 1%nat), (fails' 2%nat), (fails' 3%nat); cbn [snd]; rewrite ?(ensure_again (masquerade iface)), ?(ensure_again established_rule), ?(ensure_again veth_rule) by done; done.
Qed.

(** A snapshot is written where the next restore reads it, and both are the jail's bind
    mounts of the sandbox's own copies. *)
Lemma snapshot_paths_agree cfg st :
  cr_SnapshotPath create_request = ld_SnapshotPath load_request /\ MemFilePath create_request = BackendPath (MemBackend load_request) /\
  Bind (snapshotMemPath st) (jailRoot cfg st +:+ MemFilePath create_request) ∈ prepare_cmds cfg st /\
  Bind (snapshotStatePath st) (jailRoot cfg st +:+ cr_SnapshotPath create_request) ∈ prepare_cmds cfg st.
Proof. split_and!; [done|done| |]; unfold prepare_cmds; simpl; repeat (first [apply list_elem_of_here|apply list_elem_of_further]). Qed.

(** *** Waits *)

(** The socket is polled at most [attempts] times, and found at the first poll that sees
    it. *)
Lemma waitForSocket_spec attempts exists_at ctx_done n : match waitForSocket attempts exists_at ctx_done n with
  | WaitOk m => (n <= m < n + attempts)%nat /\ exists_at m = true /\ forall k, (n <= k < m)%nat -> exists_at k = false
  | WaitTimeout => forall k, (n <= k < n + attempts)%nat -> exists_at k = false
  | WaitCancelled => exists m, (n <= m < n + attempts)%nat /\ ctx_done m = true
  | WaitOn => False
  end.
Proof.
  revert n. induction attempts as [|attempts IH]; intros n; simpl; [lia|]. destruct (exists_at n) eqn:E; [split_and!; [lia|lia|done|lia]|].
  destruct (ctx_done n) eqn:Ed; [exists n; split; [lia|done]|]. specialize (IH (S n)).
  assert (Hn : forall k, k = n -> exists_at k = false) by (by intros k ->).
  destruct (waitForSocket attempts exists_at ctx_done (S n)) as [m| | |]; [| | |done].
  - destruct IH as (? & ? & Hk). split_and!; [lia|lia|done|]. intros k Hr. destruct (decide (k = n)); [auto|apply Hk; lia].
  - destruct IH as (m & ? & ?). exists m. split; [lia|done].
  - intros k Hr. destruct (decide (k = n)); [auto|apply IH; lia].
Qed.

(** A probe that succeeds got a 200; one that goes on past the deadline ends. *)
Lemma probeDaemon_ends fuel health late ctx_done n N : (forall k, (N <= k)%nat -> late k = true) -> (N - n < fuel)%nat ->
  match probeDaemon fuel health late ctx_done n with WaitOk m => health m = Some 200 | WaitOn => False | _ => True end.
Proof.
  intros Hl. revert n. induction fuel as [|fuel IH]; intros n Hf; simpl; [lia|]. case_bool_decide as Hh; [done|].
  destruct (late n) eqn:E; [done|]. destruct (ctx_done n); [done|]. apply IH. destruct (decide (N <= n)%nat) as [Hn|]; [apply Hl in Hn; congruence|lia].
Qed.

(** Which path is reported depends on the order of a Go map; whether one is does not. *)
Lemma ready_any_order pathExists l l' slots ok : l ≡ₚ l' -> (Ready pathExists l slots ok = None <-> Ready pathExists l' slots ok = None).
Proof.
  assert (Hm : forall l, missing pathExists l = None <-> Forall (fun p => pathExists p.2 = true) l).
  { clear. induction l as [|[label path] l IH]; simpl; [by split; [constructor|] |]. rewrite Forall_cons. simpl. destruct (pathExists path); [rewrite IH; tauto|].
    split; [done|]. by intros [? _]. }
  intros Hp. assert (E : missing pathExists l = None <-> missing pathExists l' = None) by (rewrite !Hm; by rewrite Hp).
  unfold Ready. destruct (missing pathExists l) as [ [] |], (missing pathExists l') as [ [] |]; try done; naive_solver.
Qed.

(** ** Runs *)

(** One data directory that cannot be removed. *)
Definition second_fails : FirecrackerHost := {| call_error n := if decide (n = 1%nat) then Some "exit status 1" else None; answered _ := inr (mkAnswer 204 "" None) |}.

Example startup_goes_on :
  (remove_dirs (H := second_fails) "/var/sandboxes" [("a", true); ("b", true); ("note.txt", false); ("c", true)] []).2 =
  [CRun "rm" ["-rf"; "/var/sandboxes/a"]; CRun "rm" ["-rf"; "/var/sandboxes/b"]; CRun "rm" ["-rf"; "/var/sandboxes/c"]].
Proof. by vm_compute. Qed.

(** The names of every slot are deleted, each on a line of its own. *)
Example startup_script_names :
  commands (startupNetworkCleanupScript 2) !! 2%nat = Some [Word "ip"; Word "link"; Word "delete"; Quoted "fc-veth-0"; Word "2>/dev/null"; Word "||"; Word "true"] /\
  commands (startupNetworkCleanupScript 2) !! 6%nat = Some [Word "ip"; Word "netns"; Word "delete"; Quoted "fc-sb-1"; Word "2>/dev/null"; Word "||"; Word "true"].
Proof. by vm_compute. Qed.
End FirecrackerHost.
