(* ===== verification/AdminRoutes.v ===== *)
(** * Listing runners, the scaler's policy and error bodies
    ([internal/api]: handlers_runners.go, handlers_scaler.go, errors.go) *)

From S2P Require Import Prelude GoStrings World Registry Auth.

Module AdminRoutes.
Import GoStrings.

(** ** Error bodies *)

(** [l] without the prefix [p]. *)
Fixpoint after (p l : list ascii) : option (list ascii) :=
  match p, l with
  | [], _ => Some l
  | x :: p', y :: l' => if decide (x = y) then after p' l' else None
  | _ :: _, [] => None
  end.

(** [[0-9a-f-]] *)
Definition id_char (c : ascii) : bool :=
  let n := Z.of_N (Ascii.N_of_ascii c) in (48 <=? n) && (n <=? 57) || (97 <=? n) && (n <=? 102) || (n =? 45).

Fixpoint skip_id (l : list ascii) : list ascii :=
  match l with c :: l' => if id_char c then skip_id l' else l | [] => [] end.

Fixpoint after_any (ps : list string) (l : list ascii) : option (list ascii) :=
  match ps with [] => None | p :: ps' => match after (chars p) l with Some r => Some r | None => after_any ps' l end end.

(** What is left of [l] when [sandboxPathRe] matches at its start.  The class holds no
    slash, so there is one way to match. *)
Definition sandboxPathRe (l : list ascii) : option (list ascii) :=
  match after (chars "/var/sandboxes/") l with
  | Some (c :: l1) =>
      if id_char c then
        match after (chars "/") (skip_id l1) with
        | Some l2 => after_any ["rootfs"; "merged"; "upper"; "work"; "socket"] l2
        | None => None
        end
      else None
  | _ => None
  end.

(** Every match, from the left, replaced by [by_]; [fuel] is the length of the text. *)
Fixpoint replace_all (matches : list ascii -> option (list ascii)) (by_ : list ascii) (fuel : nat) (l : list ascii) : list ascii :=
  match fuel with
  | O => l
  | S fuel' =>
      match l with
      | [] => []
      | c :: l' => match matches l with
                   | Some r => by_ ++ replace_all matches by_ fuel' r
                   | None => c :: replace_all matches by_ fuel' l'
                   end
      end
  end.

Definition sanitizeError (msg : string) : string :=
  let l := chars msg in
  let l := replace_all sandboxPathRe [] (length l) l in
  of_chars (replace_all (after (chars "/sandbox/")) (chars "/") (length l) l).

Record APIError := mkAPIError { e_Error : string; e_Code : Z; e_Reason : string }.

(** The status and the body. *)
Definition writeErrorReason (code : Z) (msg reason : string) : Z * APIError := (code, mkAPIError (sanitizeError msg) code reason).
Definition writeError (code : Z) (msg : string) : Z * APIError := writeErrorReason code msg "".

(** ** The runners *)

Record runnerResponse := mkRunnerResponse {
  rr_ID : string; rr_Healthy : bool; rr_Cordoned : bool; rr_CapacityTotal : Z; rr_CapacityUsed : Z; rr_CapacityStopped : Z; rr_LastSeen : Z;
}.

(** Instants are nanoseconds, [Unix] seconds. *)
Definition to_response (run : Registry.Runner) : runnerResponse :=
  mkRunnerResponse (Registry.r_ID run) (Registry.r_Healthy run) (Registry.r_Cordoned run) (Registry.r_CapacityTotal run)
    (Registry.r_CapacityUsed run) (Registry.r_CapacityStopped run) (Registry.r_LastSeen run / 1000000000).

#[local] Open Scope act_scope.

(** [List] of the registry, or its error. *)
Definition handleListRunners (listed : option (list Registry.Runner)) (auth : option Auth.authIdentity) : act unit Auth.response (list runnerResponse) :=
  do! Auth.requireAdminOrScaler auth in
  match listed with
  | None => exit (Auth.writeError 500 "failed to list runners")
  | Some runners => ret (to_response <$> runners)
  end.

(** ** The scaler's policy *)

Definition scalerMaxBodyBytes : Z := 2 ^ 20.

(** The answer of the scaler: its body, and whether reading it ends in an error. *)
Record scaler_answer := mkScaler { sa_status : Z; sa_contentType : string; sa_body : list ascii; sa_broken : bool }.

(** A request as it leaves. *)
Record sent := mkSent { st_url : string; st_headers : list (string * string) }.

(** A reply that is no error. *)
Record relayed := mkRelayed { rl_contentType : string; rl_body : list ascii }.

(** [io.ReadAll(io.LimitReader(body, n))] *)
Definition read_limited (n : Z) (a : scaler_answer) : list ascii * bool :=
  if decide (n <= Z.of_nat (length (sa_body a))) then (take (Z.to_nat n) (sa_body a), false) else (sa_body a, sa_broken a).

(** [url_ok]: the URL parses.  [answer]: what the client got, [None] an error. *)
Definition handleGetScaler (ScalerURL : string) (url_ok : bool) (answer : option scaler_answer) (auth : option Auth.authIdentity)
    (authorization : string) : act (list sent) Auth.response relayed :=
  do! Auth.requireAdmin auth in
  if decide (ScalerURL = "") then exit (Auth.writeError 503 "scaler not configured")
  else if negb url_ok then exit (Auth.writeError 503 "scaler unavailable")
  else
    do! modify (fun l => l ++ [mkSent (ScalerURL +:+ "/policy") (if decide (authorization <> "") then [("Authorization", authorization)] else [])]) in
    match answer with
    | None => exit (Auth.writeError 503 "scaler unavailable")
    | Some a =>
        if decide (sa_status a <> 200) then exit (Auth.writeError 503 "scaler unavailable")
        else
          let '(body, broken) := read_limited (scalerMaxBodyBytes + 1) a in
          if broken || bool_decide (Z.of_nat (length body) > scalerMaxBodyBytes) then exit (Auth.writeError 503 "scaler unavailable")
          else ret (mkRelayed (sa_contentType a) body)
    end.

(** ** Properties *)

Lemma replace_none matches by_ fuel l : (forall k, matches (drop k l) = None) -> replace_all matches by_ fuel l = l.
Proof.
  revert l. induction fuel as [|fuel IH]; intros l Hn; simpl; [done|]. destruct l as [|c l]; [done|]. pose proof (Hn 0%nat) as H0. simpl in H0. rewrite H0. f_equal. apply IH.
  intros k. apply (Hn (S k)).
Qed.

(** A text with no sandbox path in it is passed on as it is. *)
Lemma sanitize_plain msg : (forall k, after (chars "/var/sandboxes/") (drop k (chars msg)) = None) ->
  (forall k, after (chars "/sandbox/") (drop k (chars msg)) = None) -> sanitizeError msg = msg.
Proof.
  intros H1 H2. unfold sanitizeError. rewrite (replace_none sandboxPathRe).
  - rewrite replace_none by done. apply of_chars_chars.
  - intros k. unfold sandboxPathRe. by rewrite H1.
Qed.

(** The scaler's policy is relayed whole or not at all, to an administrator only; the key
    the caller authenticated with does not leave, and nothing is asked of the scaler for
    anyone else. *)
Lemma scaler_relay ScalerURL url_ok answer auth authorization l :
  match handleGetScaler ScalerURL url_ok answer auth authorization l with
  | (inr r, l') =>
      (exists i, auth = Some i /\ Auth.Role i = Auth.roleAdmin) /\
      (exists a, answer = Some a /\ sa_status a = 200 /\ sa_broken a = false /\ rl_body r = sa_body a /\ rl_contentType r = sa_contentType a /\
                 Z.of_nat (length (sa_body a)) <= scalerMaxBodyBytes) /\
      exists h, l' = l ++ [mkSent (ScalerURL +:+ "/policy") h] /\ Forall (fun kv => kv = ("Authorization", authorization)) h
  | (inl e, l') =>
      (e = Auth.writeError 403 "admin API key required" /\ l' = l /\ ~ (exists i, auth = Some i /\ Auth.Role i = Auth.roleAdmin)) \/
      e = Auth.writeError 503 "scaler not configured" /\ l' = l \/ e = Auth.writeError 503 "scaler unavailable"
  end.
Proof.
  unfold handleGetScaler. unfold bind at 1. unfold Auth.requireAdmin.
  destruct auth as [i|]; [|unfold exit; left; split_and!; [done|done|by intros (? & ? & _)] ].
  destruct (decide (Auth.Role i = Auth.roleAdmin)) as [Hi|Hi]; [|unfold exit; left; split_and!; [done|done|by intros (? & [= <-] & ?)] ].
  unfold ret at 1. destruct (decide (ScalerURL = "")); [unfold exit; tauto|]. destruct url_ok; [simpl negb|unfold exit; simpl; tauto].
  unfold bind at 1, modify. cbn [negb]. destruct answer as [a|]; [|unfold exit; tauto]. destruct (decide (sa_status a <> 200)) as [|Hs]; [unfold exit; tauto|].
  unfold read_limited. destruct (decide (scalerMaxBodyBytes + 1 <= Z.of_nat (length (sa_body a)))) as [Hl|Hl].
  - rewrite bool_decide_true; [unfold exit; simpl; tauto|]. rewrite length_take. lia.
  - destruct (sa_broken a) eqn:Eb; simpl; [unfold exit; tauto|]. rewrite bool_decide_false by lia. unfold ret.
    split; [eauto|]. split; [exists a; split_and!; try done; lia|]. eexists. split; [reflexivity|]. destruct (decide (authorization <> "")); by repeat constructor.
Qed.

(** ** Runs *)

Example path_stripped : sanitizeError "open /var/sandboxes/0a-1b/rootfs/etc: denied" = "open /etc: denied".
Proof. by vm_compute. Qed.

(** What is not stripped: the snapshots next to the root file system, a path that a
    replacement puts together, and the second of two prefixes in a row. *)
Example snapshot_path_kept : sanitizeError "open /var/sandboxes/0a-1b/snapshot_mem: denied" = "open /var/sandboxes/0a-1b/snapshot_mem: denied".
Proof. by vm_compute. Qed.

Example joined_path_kept : sanitizeError "/var/sand/var/sandboxes/0/rootfsboxes/1/rootfs" = "/var/sandboxes/1/rootfs".
Proof. by vm_compute. Qed.

Example second_prefix_kept : sanitizeError "/sandbox/sandbox/x" = "/sandbox/x".
Proof. by vm_compute. Qed.
End AdminRoutes.
