(* ===== verification/Migrations.v ===== *)
(** * Opening a store ([internal/api/store]: NewSQLite, sqliteDSN, NewPostgres and the
    migrations)

    The schema statements that every start runs, over a database of tables with columns,
    defaults, NOT NULL constraints and rows.  Databases of every earlier version, and ones whose last start was
    cut off at any statement, come out the same. *)

From S2P Require Import Prelude GoStrings World Store Files.

Module Migrations.
Import GoStrings Store.

(** ** A database *)

(** A value, [None] for NULL. *)
Definition value : Type := option string.

(** A column: whether it is NOT NULL, and its default. *)
Record column := mkColumn { not_null : bool; col_default : value }.

(** The columns, and rows by their key. *)
Record table := mkTable { columns : gmap string column; rows : gmap string (gmap string value) }.
Record db := mkDb { tables : gmap string table; indexes : gset string }.

Inductive sql_error := ErrNoTable | ErrDuplicateColumn | ErrNoColumn | ErrNotNull.

Inductive stmt :=
| CreateTable (t : string) (cols : list (string * column))
| CreateIndex (i t : string) (cols : list string)
| AddColumn (t c : string) (k : column) (if_not_exists : bool)
| DropColumn (t c : string)
| Backfill (t c : string) (old new : string).

Definition with_table (t : string) (x : table) (b : db) : db := mkDb (<[t := x]> (tables b)) (indexes b).

(** Rows that are there cannot get NULL in a column that must not have it. *)
Definition addable (k : column) : bool := negb (not_null k) || bool_decide (is_Some (col_default k)).

Definition exec (s : stmt) (b : db) : sql_error + db :=
  match s with
  | CreateTable t cols =>
      match tables b !! t with
      | Some _ => inr b
      | None => inr (with_table t (mkTable (list_to_map cols) ∅) b)
      end
  | CreateIndex i t cols =>
      match tables b !! t with
      | None => inl ErrNoTable
      | Some x => if forallb (fun c => bool_decide (is_Some (columns x !! c))) cols then inr (mkDb (tables b) ({[i]} ∪ indexes b)) else inl ErrNoColumn
      end
  | AddColumn t c k if_not_exists =>
      match tables b !! t with
      | None => inl ErrNoTable
      | Some x =>
          match columns x !! c with
          | Some _ => if if_not_exists then inr b else inl ErrDuplicateColumn
          | None =>
              if negb (addable k) && negb (bool_decide (rows x = ∅)) then inl ErrNotNull
              else inr (with_table t (mkTable (<[c := k]> (columns x)) (insert c (col_default k) <$> rows x)) b)
          end
      end
  | DropColumn t c =>
      match tables b !! t with
      | None => inl ErrNoTable
      | Some x =>
          match columns x !! c with
          | None => inl ErrNoColumn
          | Some _ => inr (with_table t (mkTable (delete c (columns x)) (delete c <$> rows x)) b)
          end
      end
  | Backfill t c old new =>
      match tables b !! t with
      | None => inl ErrNoTable
      | Some x =>
          match columns x !! c with
          | None => inl ErrNoColumn
          | Some _ => inr (with_table t (mkTable (columns x) ((fun r => if decide (r !! c = Some (Some old)) then <[c := Some new]> r else r) <$> rows x)) b)
          end
      end
  end.

(** ** The statements *)

Definition null (d : value) : column := mkColumn false d.
Definition notnull (d : value) : column := mkColumn true d.

(** The columns both stores began with; a primary key is NOT NULL on Postgres only. *)
Definition base_columns (pk : column) : list (string * column) :=
  [("id", pk); ("status", notnull None); ("created_at", notnull None); ("last_active_at", notnull None); ("rootfs_path", null None); ("socket_path", null None);
   ("container_ip", null None)].

Definition tenantsSchema (pk : column) : list stmt :=
  [CreateTable "tenants" [("id", pk); ("name", notnull (Some "")); ("external_ref", notnull (Some "")); ("max_sandboxes", notnull (Some "50")); ("created_at", notnull None)];
   CreateTable "api_keys" [("id", pk); ("tenant_id", notnull None); ("key_hash", notnull None); ("prefix", notnull None); ("created_at", notnull None); ("revoked_at", null None)];
   CreateIndex "api_keys_prefix_idx" "api_keys" ["prefix"];
   CreateIndex "api_keys_tenant_idx" "api_keys" ["tenant_id"]].

Definition sqliteSchema : list stmt := [CreateTable "sandboxes" (base_columns (null None) ++ [("daemon_port", null (Some "8081"))])].

(** The loop of [NewSQLite]. *)
Definition sqlite_alterations : list stmt :=
  [AddColumn "sandboxes" "container_ip" (null None) false;
   AddColumn "sandboxes" "daemon_port" (null (Some "8081")) false;
   DropColumn "sandboxes" "container_id";
   AddColumn "sandboxes" "runner_id" (null (Some "")) false;
   AddColumn "sandboxes" "runner_http_base_url" (null (Some "")) false;
   AddColumn "sandboxes" "runner_control_grpc_addr" (null (Some "")) false;
   AddColumn "sandboxes" "tenant_id" (notnull (Some AdminTenantID)) false;
   AddColumn "sandboxes" "ephemeral" (notnull (Some "0")) false;
   AddColumn "sandboxes" "egress" (notnull (Some "public")) false].

Definition sqliteBackfillAdminTenantID : stmt := Backfill "sandboxes" "tenant_id" "" AdminTenantID.

Definition sqliteTenantsSchema : list stmt := tenantsSchema (null None) ++ [CreateIndex "sandboxes_tenant_idx" "sandboxes" ["tenant_id"]].

Definition postgresSchema : list stmt :=
  [CreateTable "sandboxes" (base_columns (notnull None) ++
     [("daemon_port", notnull (Some "8081")); ("runner_id", notnull (Some "")); ("runner_http_base_url", notnull (Some "")); ("runner_control_grpc_addr", notnull (Some ""));
      ("tenant_id", notnull (Some AdminTenantID)); ("ephemeral", notnull (Some "false")); ("egress", notnull (Some "public"))]);
   CreateIndex "sandboxes_idle_reap_idx" "sandboxes" ["status"; "last_active_at"]].

Definition postgresRunnersSchema : list stmt :=
  [CreateTable "runners" [("id", notnull None); ("http_base_url", notnull None); ("control_grpc_addr", notnull (Some "")); ("healthy", notnull (Some "true"));
     ("capacity_total", notnull (Some "0")); ("capacity_used", notnull (Some "0")); ("capacity_stopped", notnull (Some "0")); ("last_seen", notnull None);
     ("registered_at", notnull (Some "now()"))];
   CreateIndex "runners_eligible_idx" "runners" ["healthy"; "last_seen"; "capacity_used"]].

(** A statement and whether a column that is there already, or is not there, is fine. *)
Definition item : Type := bool * stmt.

Definition strict (l : list stmt) : list item := pair false <$> l.

Definition sqlite_items : list item :=
  strict sqliteSchema ++ (pair true <$> sqlite_alterations) ++ strict [sqliteBackfillAdminTenantID] ++ strict sqliteTenantsSchema.

Definition postgres_items : list item :=
  strict (postgresSchema ++
    [AddColumn "sandboxes" "tenant_id" (notnull (Some AdminTenantID)) true; Backfill "sandboxes" "tenant_id" "" AdminTenantID;
     AddColumn "sandboxes" "ephemeral" (notnull (Some "false")) true; AddColumn "sandboxes" "egress" (notnull (Some "public")) true;
     CreateIndex "sandboxes_tenant_idx" "sandboxes" ["tenant_id"]] ++
    postgresRunnersSchema ++ [AddColumn "runners" "cordoned" (notnull (Some "false")) true] ++ tenantsSchema (notnull None)).

(** ** A start *)

(** How the [n]th statement goes besides its own errors: it fails before or after it took
    effect. *)
Inductive fault := Runs | FailsBefore | FailsAfter.

Definition run_item (x : item) (b : db) : sql_error + db :=
  match exec x.2 b with
  | inl ErrDuplicateColumn => if x.1 then inr b else inl ErrDuplicateColumn
  | inl ErrNoColumn => if x.1 then inr b else inl ErrNoColumn
  | r => r
  end.

(** The database that is left, and whether the start succeeded. *)
Fixpoint migrate (faults : nat -> fault) (n : nat) (l : list item) (b : db) : bool * db :=
  match l with
  | [] => (true, b)
  | x :: l' =>
      match faults n with
      | FailsBefore => (false, b)
      | FailsAfter => (false, match run_item x b with inr b' => b' | inl _ => b end)
      | Runs => match run_item x b with
                | inl _ => (false, b)
                | inr b' => migrate faults (S n) l' b'
                end
      end
  end.

Definition fine : nat -> fault := fun _ => Runs.

(** *** SQLite *)

Definition sqliteDSN (dbPath : string) (useWal : bool) : string :=
  let pragmas := "_pragma=foreign_keys(1)" in
  if decide (dbPath = ":memory:") then ":memory:?" +:+ pragmas
  else
    let pragmas := pragmas +:+ (if useWal then "&_pragma=journal_mode(WAL)&_pragma=synchronous(NORMAL)" else "&_pragma=journal_mode(DELETE)&_pragma=synchronous(FULL)") in
    if Files.Contains dbPath "?" then dbPath +:+ "&" +:+ pragmas else dbPath +:+ "?" +:+ pragmas.

(** [strings.EqualFold] on the names of modes *)
Definition EqualFold (a b : string) : bool := bool_decide (Files.to_lower (chars a) = Files.to_lower (chars b)).

(** [opens], [pings]: whether the database can be opened and reached; [journal]: the mode
    it reports. *)
Definition NewSQLite (dbPath : string) (useWal opens pings : bool) (journal : option string) (faults : nat -> fault) (b : db) : bool * db :=
  let useWal := useWal && negb (bool_decide (dbPath = ":memory:")) in
  if negb opens then (false, b) else if negb pings then (false, b)
  else
    let mode_ok :=
      if decide (dbPath = ":memory:") then true
      else match journal with None => false | Some mode => EqualFold mode (if useWal then "WAL" else "DELETE") end in
    if negb mode_ok then (false, b) else migrate faults 0 sqlite_items b.

(** *** Postgres *)

Definition NewPostgres (opens pings lock_opens lock_pings : bool) (faults : nat -> fault) (b : db) : bool * db :=
  if negb opens then (false, b) else if negb pings then (false, b)
  else
    let '(ok, b') := migrate faults 0 postgres_items b in
    (ok && lock_opens && lock_pings, b').

(** ** Statements that were run need not be run again *)

Definition applied (s : stmt) (b : db) : Prop :=
  match s with
  | CreateTable t _ => is_Some (tables b !! t)
  | CreateIndex i t cols => i ∈ indexes b /\ exists x, tables b !! t = Some x /\ Forall (fun c => is_Some (columns x !! c)) cols
  | AddColumn t c _ _ => exists x, tables b !! t = Some x /\ is_Some (columns x !! c)
  | DropColumn t c => exists x, tables b !! t = Some x /\ columns x !! c = None
  | Backfill t c old _ => exists x, tables b !! t = Some x /\ is_Some (columns x !! c) /\ forall k r, rows x !! k = Some r -> r !! c <> Some (Some old)
  end.

(** An item that may be repeated. *)
Definition repeatable (x : item) : bool :=
  match x.2 with
  | AddColumn _ _ _ if_not_exists => x.1 || if_not_exists
  | DropColumn _ _ => x.1
  | Backfill _ _ old new => negb x.1 && negb (bool_decide (old = new))
  | _ => negb x.1
  end.

(** [s'] does not undo [s]. *)
Definition independent (s s' : stmt) : bool :=
  match s, s' with
  | AddColumn t c _ _, DropColumn t' c' | DropColumn t c, AddColumn t' c' _ _ | Backfill t c _ _, DropColumn t' c' =>
      negb (bool_decide (t = t' /\ c = c'))
  | CreateIndex _ t cols, DropColumn t' c' => negb (bool_decide (t = t' /\ c' ∈ cols))
  | Backfill t c old _, Backfill t' c' _ new' => negb (bool_decide (t = t' /\ c = c' /\ old = new'))
  | _, _ => true
  end.

Lemma with_same t x b : tables b !! t = Some x -> with_table t x b = b.
Proof. intros H. unfold with_table. rewrite insert_id by done. by destruct b. Qed.

Lemma fmap_same {A} (f : A -> A) (m : gmap string A) : (forall k a, m !! k = Some a -> f a = a) -> f <$> m = m.
Proof. intros H. rewrite <- (map_fmap_id m) at 2. apply map_fmap_ext. eauto. Qed.

Lemma forallb_columns (x : table) cols : forallb (fun c => bool_decide (is_Some (columns x !! c))) cols = true <-> Forall (fun c => is_Some (columns x !! c)) cols.
Proof.
  rewrite forallb_forall, Forall_forall. split; intros H c Hc.
  - apply (bool_decide_eq_true_1 _), H. by apply list_elem_of_In.
  - apply (bool_decide_eq_true_2 _), H. by apply list_elem_of_In.
Qed.

Lemma applied_noop x b : repeatable x = true -> applied x.2 b -> run_item x b = inr b.
Proof.
  destruct x as [tol s]. unfold run_item, repeatable. simpl. destruct s as [t cols|i t cols|t c d ine|t c|t c old new]; simpl; intros Hr Ha.
  - destruct Ha as [x ->]. done.
  - destruct Ha as [Hi (x & -> & Hx)]. rewrite (proj2 (forallb_columns x cols)) by done. do 2 f_equal.
    destruct b as [ts ix]. simpl in *. f_equal. set_solver.
  - destruct Ha as (x & -> & [v ->]). destruct ine; [done|]. by destruct tol.
  - destruct Ha as (x & -> & ->). by destruct tol.
  - destruct Ha as (x & Ht & [v Hv] & Hk). rewrite Ht, Hv. rewrite fmap_same.
    + assert (E : mkTable (columns x) (rows x) = x) by (by destruct x). by rewrite E, with_same.
    + intros k r Hr'. by rewrite decide_False by eauto.
Qed.

Lemma run_applies x b b' : repeatable x = true -> run_item x b = inr b' -> applied x.2 b'.
Proof.
  destruct x as [tol s]. unfold run_item, repeatable. simpl. destruct s as [t cols|i t cols|t c d ine|t c|t c old new]; simpl; intros Hr H.
  - destruct (tables b !! t) eqn:E; injection H as <-; [eauto|]. simpl. rewrite lookup_insert_eq. eauto.
  - destruct (tables b !! t) as [x|] eqn:E; [|done]. destruct (forallb _ cols) eqn:Ef; [|by destruct tol]. injection H as <-. simpl.
    split; [set_solver|]. exists x. split; [done|]. by apply forallb_columns.
  - destruct (tables b !! t) as [x|] eqn:E; [|done]. destruct (columns x !! c) eqn:Ec.
    + assert (b' = b) as -> by (destruct ine; [congruence|destruct tol; [congruence|done] ]). eauto.
    + destruct (_ && _); [done|]. injection H as <-. simpl. rewrite lookup_insert_eq. eexists. split; [reflexivity|]. simpl. rewrite lookup_insert_eq. eauto.
  - destruct (tables b !! t) as [x|] eqn:E; [|done]. destruct (columns x !! c) eqn:Ec.
    + injection H as <-. simpl. rewrite lookup_insert_eq. eexists. split; [reflexivity|]. simpl. apply lookup_delete_eq.
    + assert (b' = b) as -> by (destruct tol; [congruence|done]). eauto.
  - destruct (tables b !! t) as [x|] eqn:E; [|done]. destruct (columns x !! c) eqn:Ec; [|by destruct tol].
    injection H as <-. simpl. rewrite lookup_insert_eq. eexists. split; [reflexivity|]. simpl. split; [eauto|].
    intros k r. rewrite lookup_fmap_Some. intros (r0 & <- & _). apply andb_true_iff in Hr as [_ Hn]. apply negb_true_iff, bool_decide_eq_false in Hn.
    case_decide; [|done]. rewrite lookup_insert_eq. congruence.
Qed.

(** What a statement does to a table that is there. *)
Record table_step (s : stmt) (t : string) (y y' : table) : Prop := {
  ts_kept c : is_Some (columns y !! c) -> s <> DropColumn t c -> is_Some (columns y' !! c);
  ts_absent c : columns y !! c = None -> (forall d e, s <> AddColumn t c d e) -> columns y' !! c = None;
  ts_back k r' : rows y' !! k = Some r' -> exists r, rows y !! k = Some r /\
    forall c v, is_Some (columns y !! c) -> r' !! c = Some v -> r !! c = Some v \/ exists old new, s = Backfill t c old new /\ v = Some new;
  ts_rows k r : rows y !! k = Some r -> exists r', rows y' !! k = Some r' /\
    forall c v, is_Some (columns y !! c) -> r !! c = Some v -> s <> DropColumn t c -> (forall old new, s = Backfill t c old new -> v <> Some old) -> r' !! c = Some v;
}.

Lemma table_step_refl s t y : table_step s t y y.
Proof. split; eauto. Qed.

Lemma table_after x b b' t y : run_item x b = inr b' -> tables b !! t = Some y -> exists y', tables b' !! t = Some y' /\ table_step x.2 t y y'.
Proof.
  destruct x as [tol s]. unfold run_item. simpl.
  assert (Hsame : b' = b -> tables b !! t = Some y -> exists y', tables b' !! t = Some y' /\ table_step s t y y') by (intros ->; eauto using table_step_refl).
  assert (Hother : forall t' z, t' <> t -> tables b !! t = Some y -> exists y', tables (with_table t' z b) !! t = Some y' /\ table_step s t y y').
  { intros t' z Hn Hy. simpl. rewrite lookup_insert_ne by done. eauto using table_step_refl. }
  destruct s as [t' cols|i t' cols|t' c' d ine|t' c'|t' c' old new]; simpl.
  - destruct (tables b !! t') eqn:E; intros [= <-] Hy; [auto|]. destruct (decide (t' = t)) as [->|]; [congruence|auto].
  - destruct (tables b !! t') as [z|] eqn:E; [|done]. destruct (forallb _ cols); [intros [= <-] Hy; simpl; eauto using table_step_refl|].
    destruct tol; [|done]. intros [= <-]. auto.
  - destruct (tables b !! t') as [z|] eqn:E; [|done]. destruct (columns z !! c') as [cv|] eqn:Ec.
    { destruct ine; [intros [= <-]; auto|]. destruct tol; [intros [= <-]; auto|done]. }
    destruct (_ && _); [done|]. intros [= <-] Hy. destruct (decide (t' = t)) as [->|]; [|auto]. simplify_eq. simpl. rewrite lookup_insert_eq. eexists. split; [reflexivity|]. split; simpl.
    + intros c Hc _. destruct (decide (c = c')) as [->|]; [rewrite lookup_insert_eq; eauto|by rewrite lookup_insert_ne].
    + intros c Hc Hn. destruct (decide (c = c')) as [->|]; [by destruct (Hn d ine)|by rewrite lookup_insert_ne].
    + intros k r'. rewrite lookup_fmap_Some. intros (r & <- & Hr). exists r. split; [done|]. intros c v [w Hw]. rewrite lookup_insert_ne by congruence. auto.
    + intros k r Hr. exists (<[c' := col_default d]> r). rewrite lookup_fmap, Hr. split; [done|]. intros c v [w Hw] Hv _ _. by rewrite lookup_insert_ne by congruence.
  - destruct (tables b !! t') as [z|] eqn:E; [|done]. destruct (columns z !! c') as [cv|] eqn:Ec; [|destruct tol; [intros [= <-]; auto|done] ].
    intros [= <-] Hy. destruct (decide (t' = t)) as [->|]; [|auto]. simplify_eq. simpl. rewrite lookup_insert_eq. eexists. split; [reflexivity|]. split; simpl.
    + intros c Hc Hn. rewrite lookup_delete_ne by congruence. done.
    + intros c Hc Hn. rewrite lookup_delete_None. by right.
    + intros k r'. rewrite lookup_fmap_Some. intros (r & <- & Hr). exists r. split; [done|]. intros c v _. rewrite lookup_delete_Some. intros [_ ?]. by left.
    + intros k r Hr. exists (delete c' r). rewrite lookup_fmap, Hr. split; [done|]. intros c v _ Hv Hn _. rewrite lookup_delete_ne by congruence. done.
  - destruct (tables b !! t') as [z|] eqn:E; [|done]. destruct (columns z !! c') as [cv|] eqn:Ec; [|destruct tol; [intros [= <-]; auto|done] ].
    intros [= <-] Hy. destruct (decide (t' = t)) as [->|]; [|auto]. simplify_eq. simpl. rewrite lookup_insert_eq. eexists. split; [reflexivity|]. split; simpl; [done|done| |].
    + intros k r'. rewrite lookup_fmap_Some. intros (r & <- & Hr). exists r. split; [done|]. intros c v _. case_decide; [|auto].
      destruct (decide (c = c')) as [->|]; [rewrite lookup_insert_eq; intros [= <-]; eauto|rewrite lookup_insert_ne by done; auto].
    + intros k r Hr. rewrite lookup_fmap, Hr. eexists. split; [reflexivity|]. intros c v _ Hv _ Hn. case_decide as Ho; [|done].
      destruct (decide (c = c')) as [->|]; [|by rewrite lookup_insert_ne]. exfalso. apply (Hn old new eq_refl). congruence.
Qed.

Lemma indexes_after x b b' : run_item x b = inr b' -> indexes b ⊆ indexes b'.
Proof.
  destruct x as [tol s]. unfold run_item. simpl. destruct s; simpl; repeat case_match; intros; simplify_eq/=; set_solver.
Qed.

Lemma run_stable s x b b' : applied s b -> run_item x b = inr b' -> independent s x.2 = true -> applied s b'.
Proof.
  intros Ha Hr Hi. pose proof (fun t y => table_after x b b' t y Hr) as Ht. pose proof (indexes_after _ _ _ Hr) as Hx.
  destruct s as [t cols|i t cols|t c d ine|t c|t c old new]; simpl in *.
  - destruct Ha as [y Hy]. destruct (Ht _ _ Hy) as (y' & Hy' & _). eauto.
  - destruct Ha as (Hin & y & Hy & Hc). destruct (Ht _ _ Hy) as (y' & Hy' & Hs). split; [set_solver|]. exists y'. split; [done|].
    rewrite Forall_forall in Hc |- *. intros c Hcc. eapply ts_kept; [exact Hs|auto|]. intros E. rewrite E in Hi.
    apply negb_true_iff, bool_decide_eq_false in Hi. by apply Hi.
  - destruct Ha as (y & Hy & Hc). destruct (Ht _ _ Hy) as (y' & Hy' & Hs). exists y'. split; [done|]. eapply ts_kept; [exact Hs|done|]. intros E. rewrite E in Hi.
    apply negb_true_iff, bool_decide_eq_false in Hi. by apply Hi.
  - destruct Ha as (y & Hy & Hc). destruct (Ht _ _ Hy) as (y' & Hy' & Hs). exists y'. split; [done|]. eapply ts_absent; [exact Hs|done|]. intros d e E. rewrite E in Hi.
    apply negb_true_iff, bool_decide_eq_false in Hi. by apply Hi.
  - destruct Ha as (y & Hy & Hc & Hk). destruct (Ht _ _ Hy) as (y' & Hy' & Hs). exists y'. split; [done|]. split.
    + eapply ts_kept; [exact Hs|done|]. intros E. rewrite E in Hi. apply negb_true_iff, bool_decide_eq_false in Hi. by apply Hi.
    + intros k r' Hr' Hv. destruct (ts_back _ _ _ _ Hs _ _ Hr') as (r & Hrr & Hback). destruct (Hback c _ Hc Hv) as [H|(o & n & E & [= <-])]; [by eapply Hk|].
      rewrite E in Hi. apply negb_true_iff, bool_decide_eq_false in Hi. by apply Hi.
Qed.

(** ** A start that was cut off *)

Definition all_independent (l : list item) : bool := forallb (fun x => forallb (fun x' => independent x.2 x'.2) l) l.

Definition tidy (l : list item) : Prop := Forall (fun x => repeatable x = true) l /\ forall x x', x ∈ l -> x' ∈ l -> independent x.2 x'.2 = true.

Lemma tidy_check l : forallb repeatable l && all_independent l = true -> tidy l.
Proof.
  intros [H1 H2]%andb_true_iff. split.
  - apply Forall_forall. intros x Hx. rewrite forallb_forall in H1. apply H1. by apply list_elem_of_In.
  - intros x x' Hx Hx'. unfold all_independent in H2. rewrite forallb_forall in H2. specialize (H2 x). rewrite forallb_forall in H2.
    apply H2; by apply list_elem_of_In.
Qed.

Lemma skip_applied pre l n m b : Forall (fun x => repeatable x = true) pre -> Forall (fun x => applied x.2 b) pre ->
  migrate fine n (pre ++ l) b = migrate fine m l b.
Proof.
  revert n. induction pre as [|x pre IH]; intros n Hr Ha; simpl.
  - revert n m b Ha. induction l as [|x l IHl]; intros n m b Ha; simpl; [done|]. destruct (run_item x b); [done|]. by apply IHl.
  - inversion_clear Hr. inversion_clear Ha. rewrite applied_noop by done. by apply IH.
Qed.

Lemma migrate_resume faults n pre l b : tidy (pre ++ l) -> Forall (fun x => applied x.2 b) pre ->
  migrate fine 0 (pre ++ l) (migrate faults n l b).2 = migrate fine 0 l b.
Proof.
  revert faults n pre b. induction l as [|x l IH]; intros faults n pre b [Hr Hi] Ha; simpl.
  - apply (skip_applied pre [] 0 0 b); [|done]. by apply Forall_app in Hr as [? _].
  - assert (Hpre : Forall (fun x => repeatable x = true) pre) by (by apply Forall_app in Hr as [? _]).
    assert (Hx : repeatable x = true) by (apply Forall_app in Hr as [_ H]; by inversion_clear H).
    assert (Hb : migrate fine 0 (pre ++ x :: l) b = migrate fine 0 (x :: l) b) by (by apply skip_applied).
    assert (Hnext : forall b', run_item x b = inr b' -> Forall (fun y => applied y.2 b') (pre ++ [x])).
    { intros b' Hrun. apply Forall_app. split; [|constructor; [by eapply run_applies|constructor] ]. rewrite Forall_forall in Ha |- *. intros y Hy.
      eapply run_stable; [by apply Ha|exact Hrun|]. apply Hi; set_solver. }
    destruct (faults n) eqn:Ef; simpl.
    + destruct (run_item x b) as [e|b'] eqn:Er; [simpl; rewrite Hb; simpl; by rewrite Er|].
      replace (pre ++ x :: l) with ((pre ++ [x]) ++ l) by (by rewrite <- app_assoc). rewrite IH; [|by rewrite <- app_assoc|auto].
      destruct l as [|z l']; [done|]. simpl. destruct (run_item z b'); [done|]. apply (skip_applied []); constructor.
    + rewrite Hb. simpl. destruct (run_item x b); [done|]. apply (skip_applied []); constructor.
    + destruct (run_item x b) as [e|b'] eqn:Er; simpl; [rewrite Hb; simpl; by rewrite Er|].
      replace (pre ++ x :: l) with ((pre ++ [x]) ++ l) by (by rewrite <- app_assoc). apply skip_applied; [|auto]. apply Forall_app; split; [done|by constructor].
Qed.

Lemma migrate_applied faults n pre l b b' : tidy (pre ++ l) -> Forall (fun x => applied x.2 b) pre -> migrate faults n l b = (true, b') ->
  Forall (fun x => applied x.2 b') (pre ++ l).
Proof.
  revert n pre b. induction l as [|x l IH]; intros n pre b [Hr Hi] Ha; simpl; [intros [= <-]; by rewrite app_nil_r|].
  destruct (faults n); [|done|done]. destruct (run_item x b) as [e|b1] eqn:Er; [done|]. intros H.
  replace (pre ++ x :: l) with ((pre ++ [x]) ++ l) in * by (by rewrite <- app_assoc). eapply IH; [done| |exact H].
  apply Forall_app. split.
  - rewrite Forall_forall in Ha |- *. intros y Hy. eapply run_stable; [by apply Ha|exact Er|]. apply Hi; set_solver.
  - constructor; [|constructor]. eapply run_applies; [|exact Er]. rewrite Forall_forall in Hr. apply Hr. set_solver.
Qed.

(** What a row held it holds after the start, but for a column that is dropped and a value
    that is filled in. *)
Lemma migrate_keeps faults n l b t y k r c v : tables b !! t = Some y -> rows y !! k = Some r -> is_Some (columns y !! c) -> r !! c = Some v ->
  Forall (fun x : item => x.2 <> DropColumn t c /\ forall old new, x.2 = Backfill t c old new -> v <> Some old) l ->
  exists y' r', tables (migrate faults n l b).2 !! t = Some y' /\ rows y' !! k = Some r' /\ r' !! c = Some v.
Proof.
  revert n b y r. induction l as [|x l IH]; intros n b y r Hy Hr Hc Hv Hl; simpl; [eauto|].
  apply Forall_cons in Hl as [ [Hd Hb] Hl].
  assert (Hstep : forall b', run_item x b = inr b' -> exists y' r', tables b' !! t = Some y' /\ rows y' !! k = Some r' /\ is_Some (columns y' !! c) /\ r' !! c = Some v).
  { intros b' Hrun. destruct (table_after _ _ _ _ _ Hrun Hy) as (y' & Hy' & Hs). destruct (ts_rows _ _ _ _ Hs _ _ Hr) as (r' & Hr' & Hk).
    exists y', r'. split_and!; [done|done|by eapply ts_kept|by apply Hk]. }
  destruct (faults n); [|eauto|].
  - destruct (run_item x b) as [e|b'] eqn:Er; [eauto|]. destruct (Hstep _ eq_refl) as (y' & r' & ? & ? & ? & ?). by eapply IH.
  - simpl. destruct (run_item x b) as [e|b'] eqn:Er; [eauto|]. destruct (Hstep _ eq_refl) as (y' & r' & ? & ? & ? & ?). eauto.
Qed.

(** ** A start goes through *)

Section checked.
(** The columns that a table of an earlier version is known to have. *)
Context (L : string -> list string).

Definition legacy (b : db) : Prop := forall t y c, tables b !! t = Some y -> c ∈ L t -> is_Some (columns y !! c).

(** Tables and columns that are there. *)
Definition facts : Type := list string * list (string * string).

Definition holds (F : facts) (b : db) : Prop :=
  (forall t, t ∈ F.1 -> is_Some (tables b !! t)) /\ (forall t c, (t, c) ∈ F.2 -> exists y, tables b !! t = Some y /\ is_Some (columns y !! c)).

Definition learn (F : facts) (x : item) : option facts :=
  match x.2 with
  | CreateTable t cols => if forallb (fun c => bool_decide (c ∈ cols.*1)) (L t) then Some (t :: F.1, (pair t <$> L t) ++ F.2) else None
  | CreateIndex _ t cols => if bool_decide (t ∈ F.1) && forallb (fun c => bool_decide ((t, c) ∈ F.2)) cols then Some F else None
  | AddColumn t c k _ => if bool_decide (t ∈ F.1) && repeatable x && addable k then Some (F.1, (t, c) :: F.2) else None
  | DropColumn t c => if bool_decide (t ∈ F.1) && repeatable x && negb (bool_decide (c ∈ L t)) then Some (F.1, filter (fun p => p <> (t, c)) F.2) else None
  | Backfill t c _ _ => if bool_decide ((t, c) ∈ F.2) then Some F else None
  end.

Fixpoint learn_all (F : facts) (l : list item) : option facts :=
  match l with [] => Some F | x :: l' => match learn F x with Some F' => learn_all F' l' | None => None end end.

Lemma table_before x b b' t y' : run_item x b = inr b' -> tables b' !! t = Some y' ->
  is_Some (tables b !! t) \/ exists cols, x.2 = CreateTable t cols /\ y' = mkTable (list_to_map cols) ∅.
Proof.
  destruct x as [tol s]. unfold run_item. simpl. destruct s as [t' cols|i t' cols|t' c' d ine|t' c'|t' c' old new]; simpl;
    (destruct (tables b !! t') as [z|] eqn:E; [|try done]).
  - intros [= <-]. eauto.
  - intros [= <-]. simpl. destruct (decide (t' = t)) as [->|]; [rewrite lookup_insert_eq; intros [= <-]; eauto|rewrite lookup_insert_ne by done; eauto].
  - destruct (forallb _ cols); [|destruct tol; [|done] ]; intros [= <-]; eauto.
  - destruct (columns z !! c'); [destruct ine; [|destruct tol; [|done] ]; intros [= <-]; eauto|]. destruct (_ && _); [done|]. intros [= <-]. simpl.
    destruct (decide (t' = t)) as [->|]; [eauto|rewrite lookup_insert_ne by done; eauto].
  - destruct (columns z !! c'); [|destruct tol; [|done]; intros [= <-]; eauto]. intros [= <-]. simpl.
    destruct (decide (t' = t)) as [->|]; [eauto|rewrite lookup_insert_ne by done; eauto].
  - destruct (columns z !! c'); [|destruct tol; [|done]; intros [= <-]; eauto]. intros [= <-]. simpl.
    destruct (decide (t' = t)) as [->|]; [eauto|rewrite lookup_insert_ne by done; eauto].
Qed.

Lemma created_column (cols : list (string * column)) c : c ∈ cols.*1 -> is_Some ((list_to_map cols : gmap string column) !! c).
Proof. intros Hc. destruct (list_to_map cols !! c) eqn:E; [eauto|]. by apply not_elem_of_list_to_map_2 in E. Qed.

(** A statement that the facts allow succeeds. *)
Lemma learn_runs F x F' b : learn F x = Some F' -> holds F b -> exists b', run_item x b = inr b'.
Proof.
  destruct x as [tol s]. unfold learn, run_item, repeatable. simpl. intros HF [HT HC].
  destruct s as [t cols|i t cols|t c d ine|t c|t c old new]; simpl in *.
  - destruct (tables b !! t); eauto.
  - destruct (bool_decide (t ∈ F.1)) eqn:E1; [|done]. apply bool_decide_eq_true in E1. destruct (HT _ E1) as [y Hy]. rewrite Hy.
    destruct (forallb _ cols) eqn:E2 in HF; [|done]. rewrite (proj2 (forallb_columns y cols)); [eauto|]. apply Forall_forall. intros c Hc.
    rewrite forallb_forall in E2. apply list_elem_of_In, E2, bool_decide_eq_true in Hc. destruct (HC _ _ Hc) as (y' & ? & ?). congruence.
  - destruct (bool_decide (t ∈ F.1)) eqn:E1; [|done]. apply bool_decide_eq_true in E1. destruct (HT _ E1) as [y Hy]. rewrite Hy.
    destruct (columns y !! c); [destruct ine; [eauto|]; destruct tol; [eauto|done]|].
    destruct (addable d); [|by rewrite andb_false_r in HF]. simpl. eauto.
  - destruct (bool_decide (t ∈ F.1)) eqn:E1; [|done]. apply bool_decide_eq_true in E1. destruct (HT _ E1) as [y Hy]. rewrite Hy.
    destruct (columns y !! c); [eauto|]. destruct tol; [eauto|done].
  - destruct (bool_decide ((t, c) ∈ F.2)) eqn:E1; [|done]. apply bool_decide_eq_true in E1. destruct (HC _ _ E1) as (y & -> & [v ->]). eauto.
Qed.

Lemma learn_legacy F x F' b b' : learn F x = Some F' -> legacy b -> run_item x b = inr b' -> legacy b'.
Proof.
  intros HF HL Hr t y' c Hy' Hc. destruct (table_before _ _ _ _ _ Hr Hy') as [ [y Hy]|(cols & E & ->)].
  - destruct (table_after _ _ _ _ _ Hr Hy) as (y'' & ? & Hs). simplify_eq. eapply ts_kept; [exact Hs|by eapply HL|]. intros E. unfold learn in HF. rewrite E in HF.
    rewrite (bool_decide_true (c ∈ L t)), andb_false_r in HF by done. done.
  - simpl. apply created_column. unfold learn in HF. rewrite E in HF. destruct (forallb _ (L t)) eqn:Ef in HF; [|done].
    rewrite forallb_forall in Ef. apply list_elem_of_In, Ef, bool_decide_eq_true in Hc. done.
Qed.

Lemma learn_holds F x F' b b' : learn F x = Some F' -> repeatable x = true -> holds F b -> legacy b -> run_item x b = inr b' -> holds F' b'.
Proof.
  intros HF Hrep [HT HC] HL Hr. pose proof (learn_legacy _ _ _ _ _ HF HL Hr) as HL'. pose proof (run_applies _ _ _ Hrep Hr) as Ha.
  assert (HT' : forall t, t ∈ F.1 -> is_Some (tables b' !! t)).
  { intros t Ht. destruct (HT _ Ht) as [y Hy]. destruct (table_after _ _ _ _ _ Hr Hy) as (y' & ? & _). eauto. }
  assert (HC' : forall t c, (t, c) ∈ F.2 -> x.2 <> DropColumn t c -> exists y, tables b' !! t = Some y /\ is_Some (columns y !! c)).
  { intros t c Hin Hn. destruct (HC _ _ Hin) as (y & Hy & Hc). destruct (table_after _ _ _ _ _ Hr Hy) as (y' & Hy' & Hs). exists y'. split; [done|]. by eapply ts_kept. }
  unfold learn in HF. destruct x as [tol s]. simpl in *. destruct s as [t0 cols|i t0 cols|t0 c0 d ine|t0 c0|t0 c0 old new]; simpl in *.
  - destruct (forallb _ (L t0)); [|done]. injection HF as <-. split; simpl.
    + intros t [->|Ht]%elem_of_cons; auto.
    + intros t c [Hin|Hin]%elem_of_app; [|by apply HC']. apply list_elem_of_fmap in Hin as (c' & [= -> ->] & Hc'). destruct Ha as [y Hy]. exists y. split; [done|by eapply HL'].
  - destruct (bool_decide (t0 ∈ F.1) && _); [|done]. injection HF as <-. split; [done|]. intros t c Hin. by apply HC'.
  - destruct (bool_decide (t0 ∈ F.1) && _ && _); [|done]. injection HF as <-. split; simpl; [done|]. intros t c [ [= -> ->]|Hin]%elem_of_cons; [done|by apply HC'].
  - destruct (bool_decide (t0 ∈ F.1) && _ && _); [|done]. injection HF as <-. split; simpl; [done|]. intros t c [Hn Hin]%list_elem_of_filter. apply HC'; [done|congruence].
  - destruct (bool_decide ((t0, c0) ∈ F.2)); [|done]. injection HF as <-. split; [done|]. intros t c Hin. by apply HC'.
Qed.

Lemma migrate_goes_through n F l F' b : learn_all F l = Some F' -> Forall (fun x => repeatable x = true) l -> holds F b -> legacy b ->
  exists b', migrate fine n l b = (true, b') /\ holds F' b'.
Proof.
  revert n F b. induction l as [|x l IH]; intros n F b HF Hr Hh HL; simpl in *; [simplify_eq; eauto|].
  destruct (learn F x) as [F1|] eqn:E; [|done]. apply Forall_cons in Hr as [Hx Hr].
  destruct (learn_runs _ _ _ _ E Hh) as [b1 Hb1]. rewrite Hb1. eapply IH; [exact HF|done|by eapply learn_holds|by eapply learn_legacy].
Qed.
End checked.

(** ** Constraints *)

Definition filled (r : gmap string value) (c : string) : bool := match r !! c with Some (Some _) => true | _ => false end.

Definition table_constrained (y : table) : Prop :=
  map_Forall (fun c k => not_null k = true -> map_Forall (fun _ r => filled r c = true) (rows y)) (columns y).

(** Every row has a value in every column that must have one. *)
Definition constrained (b : db) : Prop := map_Forall (fun _ => table_constrained) (tables b).

Lemma constrained_with t y b : constrained b -> table_constrained y -> constrained (with_table t y b).
Proof. intros Hb Hy. by apply map_Forall_insert_2. Qed.

Lemma run_constrained x b b' : constrained b -> run_item x b = inr b' -> constrained b'.
Proof.
  intros Hb. destruct x as [tol s]. unfold run_item. simpl. destruct s as [t cols|i t cols|t c d ine|t c|t c old new]; simpl;
    (destruct (tables b !! t) as [y|] eqn:Ey; [pose proof (Hb _ _ Ey) as Hy|try done]).
  - by intros [= <-].
  - intros [= <-]. apply constrained_with; [done|]. intros c k _ _. apply map_Forall_empty.
  - destruct (forallb _ cols); [by intros [= <-]|]. destruct tol; [by intros [= <-]|done].
  - destruct (columns y !! c) as [k|] eqn:Ec; [destruct ine; [by intros [= <-]|]; destruct tol; [by intros [= <-]|done]|].
    destruct (negb (addable d) && negb (bool_decide (rows y = ∅))) eqn:Ea; [done|]. intros [= <-]. apply constrained_with; [done|].
    intros c' k Hk Hn id r' Hr. simpl in Hk, Hr. apply lookup_fmap_Some in Hr as (r & <- & Hr). unfold filled.
    apply lookup_insert_Some in Hk as [ [<- <-]|[Hne Hk] ]; [|rewrite lookup_insert_ne by done; exact (Hy _ _ Hk Hn id r Hr)].
    rewrite lookup_insert_eq. apply andb_false_iff in Ea as [Ea%negb_false_iff|Ea%negb_false_iff].
    + unfold addable in Ea. rewrite Hn in Ea. simpl in Ea. apply bool_decide_eq_true in Ea as [v ->]. done.
    + apply bool_decide_eq_true in Ea. rewrite Ea, lookup_empty in Hr. done.
  - destruct (columns y !! c) as [k|] eqn:Ec; [|destruct tol; [by intros [= <-]|done] ]. intros [= <-]. apply constrained_with; [done|].
    intros c' k' Hk Hn id r' Hr. simpl in Hk, Hr. apply lookup_fmap_Some in Hr as (r & <- & Hr). apply lookup_delete_Some in Hk as [Hne Hk].
    unfold filled. rewrite lookup_delete_ne by done. exact (Hy _ _ Hk Hn id r Hr).
  - destruct (columns y !! c) as [k|] eqn:Ec; [|destruct tol; [by intros [= <-]|done] ]. intros [= <-]. apply constrained_with; [done|].
    intros c' k' Hk Hn id r' Hr. simpl in Hk, Hr. apply lookup_fmap_Some in Hr as (r & <- & Hr). pose proof (Hy _ _ Hk Hn id r Hr) as Hf.
    case_decide; [|exact Hf]. unfold filled. destruct (decide (c = c')) as [->|]; [by rewrite lookup_insert_eq|by rewrite lookup_insert_ne].
Qed.

(** The column [c] of [t] must have values, where it is there. *)
Definition demanded (t c : string) (b : db) : Prop := forall y k, tables b !! t = Some y -> columns y !! c = Some k -> not_null k = true.

Definition demands (t c : string) (s : stmt) : bool :=
  match s with
  | CreateTable t' cols => negb (bool_decide (t' = t)) || forallb (fun p => negb (bool_decide (p.1 = c)) || not_null p.2) cols
  | AddColumn t' c' k _ => negb (bool_decide (t' = t /\ c' = c)) || not_null k
  | _ => true
  end.

Lemma run_demanded t c x b b' : demands t c x.2 = true -> demanded t c b -> run_item x b = inr b' -> demanded t c b'.
Proof.
  intros Hs Hd. destruct x as [tol s]. unfold run_item. simpl in *.
  assert (Hwith : forall t' z, (t' = t -> forall k, columns z !! c = Some k -> not_null k = true) -> demanded t c (with_table t' z b)).
  { intros t' z Hz y k. simpl. intros [ [-> <-]|[_ Hy] ]%lookup_insert_Some Hk; [by apply Hz|by eapply Hd]. }
  destruct s as [t' cols|i t' cols|t' c' d ine|t' c'|t' c' old new]; simpl in *;
    (destruct (tables b !! t') as [z|] eqn:Ez; [|try done]).
  - by intros [= <-].
  - intros [= <-]. apply Hwith. simpl. intros -> k Hk. rewrite bool_decide_true in Hs by done. simpl in Hs. rewrite forallb_forall in Hs.
    apply elem_of_list_to_map_2, list_elem_of_In, Hs in Hk. simpl in Hk. by rewrite bool_decide_true in Hk.
  - destruct (forallb _ cols); [by intros [= <-]|]. destruct tol; [by intros [= <-]|done].
  - destruct (columns z !! c') as [k0|] eqn:Ec; [destruct ine; [by intros [= <-]|]; destruct tol; [by intros [= <-]|done]|].
    destruct (_ && _); [done|]. intros [= <-]. apply Hwith. simpl. intros -> k [ [-> <-]|[_ Hk] ]%lookup_insert_Some; [by rewrite bool_decide_true in Hs|by eapply Hd].
  - destruct (columns z !! c') as [k0|] eqn:Ec; [|destruct tol; [by intros [= <-]|done] ]. intros [= <-]. apply Hwith. simpl.
    intros -> k [_ Hk]%lookup_delete_Some. by eapply Hd.
  - destruct (columns z !! c') as [k0|] eqn:Ec; [|destruct tol; [by intros [= <-]|done] ]. intros [= <-]. apply Hwith. simpl. intros -> k Hk. by eapply Hd.
Qed.

Lemma migrate_constrained t c faults n l b : Forall (fun x : item => demands t c x.2 = true) l -> constrained b -> demanded t c b ->
  constrained (migrate faults n l b).2 /\ demanded t c (migrate faults n l b).2.
Proof.
  revert n b. induction l as [|x l IH]; intros n b Hl Hb Hd; simpl; [done|]. apply Forall_cons in Hl as [Hx Hl].
  destruct (faults n); [|done|]; destruct (run_item x b) as [e|b1] eqn:Er; try done; [apply IH|split]; eauto using run_constrained, run_demanded.
Qed.

(** ** Both stores *)

Inductive store := SQLite (dbPath : string) (useWal : bool) | Postgres.

(** [NewSQLite] or [NewPostgres] of a database that answers and has the mode asked for. *)
Definition open_store (s : store) (faults : nat -> fault) (b : db) : bool * db :=
  match s with
  | SQLite dbPath useWal => NewSQLite dbPath useWal true true (Some (if useWal && negb (bool_decide (dbPath = ":memory:")) then "wal" else "delete")) faults b
  | Postgres => NewPostgres true true true true faults b
  end.

Definition items_of (s : store) : list item := match s with SQLite _ _ => sqlite_items | Postgres => postgres_items end.

(** What every version's tables have had. *)
Definition first_columns : list string := ["id"; "status"; "created_at"; "last_active_at"; "rootfs_path"; "socket_path"].
Definition known (s : store) (t : string) : list string :=
  if decide (t = "sandboxes") then
    match s with SQLite _ _ => first_columns | Postgres => first_columns ++ ["container_ip"; "daemon_port"; "runner_id"; "runner_http_base_url"; "runner_control_grpc_addr"] end
  else if decide (t = "tenants") then ["id"; "name"; "external_ref"; "max_sandboxes"; "created_at"]
  else if decide (t = "api_keys") then ["id"; "tenant_id"; "key_hash"; "prefix"; "created_at"; "revoked_at"]
  else if decide (t = "runners") then ["id"; "http_base_url"; "control_grpc_addr"; "healthy"; "capacity_total"; "capacity_used"; "capacity_stopped"; "last_seen"; "registered_at"]
  else [].

(** The columns that the queries of the stores name. *)
Definition required (s : store) : list (string * string) :=
  (pair "sandboxes" <$> first_columns ++ ["container_ip"; "daemon_port"; "runner_id"; "runner_http_base_url"; "runner_control_grpc_addr"; "tenant_id"; "ephemeral"; "egress"]) ++
  (pair "tenants" <$> ["id"; "name"; "external_ref"; "max_sandboxes"; "created_at"]) ++
  (pair "api_keys" <$> ["id"; "tenant_id"; "key_hash"; "prefix"; "created_at"; "revoked_at"]) ++
  match s with
  | SQLite _ _ => []
  | Postgres => pair "runners" <$> ["id"; "http_base_url"; "control_grpc_addr"; "healthy"; "capacity_total"; "capacity_used"; "capacity_stopped"; "last_seen"; "cordoned"]
  end.

Definition has_column (b : db) (t c : string) : Prop := exists y, tables b !! t = Some y /\ is_Some (columns y !! c).

Lemma open_migrates s faults b : open_store s faults b = migrate faults 0 (items_of s) b.
Proof.
  destruct s as [path wal|]; cbn [open_store items_of].
  - unfold NewSQLite. cbn [negb]. destruct (decide (path = ":memory:")) as [E|E]; [done|]. rewrite bool_decide_false by done. by destruct wal.
  - unfold NewPostgres. cbn [negb]. destruct (migrate faults 0 postgres_items b) as [ok b']. by destruct ok.
Qed.

Lemma items_tidy s : tidy (items_of s).
Proof. apply tidy_check. destruct s; by vm_compute. Qed.

Lemma items_learnt s : exists F, learn_all (known s) ([], []) (items_of s) = Some F /\ Forall (fun p => p ∈ F.2) (required s).
Proof.
  destruct s; (eexists; split; [vm_compute; reflexivity|]; apply (bool_decide_unpack _); by vm_compute).
Qed.

Lemma items_demand s : Forall (fun x : item => demands "sandboxes" "tenant_id" x.2 = true) (items_of s).
Proof. apply (bool_decide_unpack _). destruct s; by vm_compute. Qed.

(** C24: Opening a store converges.  Take a database of any earlier version (tables that
    are there have the columns every version had, rows have values where NOT NULL asks
    for them, and a tenant column that is there is NOT NULL), and a start that fails at
    any statement, before or after its effect, or not at all.  The next start then
    succeeds, with the database that an undisturbed start would have made; starting again
    changes nothing; every column the stores' queries name is there and NOT NULL holds
    still; every sandbox has a tenant that is neither NULL nor empty; and what the rows
    held before they hold still, but for the column [container_id] that is dropped and an
    empty tenant that becomes the administrator. *)
Theorem open_converges (s : store) (b : db) (faults : nat -> fault) : legacy (known s) b -> constrained b -> demanded "sandboxes" "tenant_id" b ->
  exists b', open_store s fine b = (true, b') /\ open_store s fine (open_store s faults b).2 = (true, b') /\ open_store s fine b' = (true, b') /\
    Forall (fun p => has_column b' p.1 p.2) (required s) /\ constrained b' /\
    (forall y k r, tables b' !! "sandboxes" = Some y -> rows y !! k = Some r -> exists tenant, r !! "tenant_id" = Some (Some tenant) /\ tenant <> "") /\
    (forall t y k r c v, tables b !! t = Some y -> rows y !! k = Some r -> is_Some (columns y !! c) -> r !! c = Some v ->
      ~ (t = "sandboxes" /\ (c = "container_id" \/ c = "tenant_id" /\ v = Some "")) ->
      exists y' r', tables b' !! t = Some y' /\ rows y' !! k = Some r' /\ r' !! c = Some v).
Proof.
  intros HL Hnn Hdm. destruct (items_tidy s) as [Hrep Hind]. destruct (items_learnt s) as (F & HF & Hreq).
  destruct (migrate_goes_through (known s) 0 ([], []) (items_of s) F b HF Hrep) as (b' & Hb' & Hh); [by split; intros ? *; inversion 1|done|].
  pose proof (fun f => migrate_resume f 0 [] (items_of s) b (conj Hrep Hind) (Forall_nil_2 _)) as Hres. cbn [app] in Hres.
  exists b'. rewrite !open_migrates. split; [done|]. split; [by rewrite Hres|]. split; [specialize (Hres fine); by rewrite Hb' in Hres|].
  split. { eapply Forall_impl; [exact Hreq|]. intros [t c] Hin. by apply Hh. }
  assert (E : b' = (migrate fine 0 (items_of s) b).2) by (by rewrite Hb').
  destruct (migrate_constrained "sandboxes" "tenant_id" fine 0 (items_of s) b (items_demand s) Hnn Hdm) as [Hnn' Hdm']. rewrite <- E in Hnn', Hdm'.
  split; [done|]. split.
  - intros y k r Hy Hr. pose proof (migrate_applied fine 0 [] (items_of s) b b' (conj Hrep Hind) (Forall_nil_2 _) Hb') as Ha.
    rewrite Forall_forall in Ha. destruct (Ha (false, Backfill "sandboxes" "tenant_id" "" AdminTenantID)) as (y0 & Hy0 & [col Hcol] & Hk); [destruct s; vm_compute; repeat (apply list_elem_of_here || apply list_elem_of_further)|].
    simplify_eq. pose proof (Hnn' _ _ Hy _ _ Hcol (Hdm' _ _ Hy Hcol) _ _ Hr) as Hf. unfold filled in Hf.
    destruct (r !! "tenant_id") as [ [tenant|]|] eqn:Er; try done. exists tenant. split; [done|]. intros ->. by eapply Hk.
  - intros t y k r c v Hy Hr Hc Hv Hn. rewrite E. eapply migrate_keeps; [done..|].
    apply Forall_forall. intros x Hx.
    assert (Hx' : match x.2 with DropColumn t' c' => t' = "sandboxes" /\ c' = "container_id" | Backfill t' c' old _ => t' = "sandboxes" /\ c' = "tenant_id" /\ old = "" | _ => True end).
    { clear -Hx. revert x Hx. apply Forall_forall. destruct s; repeat constructor. }
    split; [intros E'|intros old new E' ->]; rewrite E' in Hx'; naive_solver.
Qed.

(** A database of the first version, with a sandbox in it. *)
Definition first_row : gmap string value :=
  list_to_map [("id", Some "s1"); ("status", Some "running"); ("created_at", Some "1"); ("last_active_at", Some "2"); ("rootfs_path", None); ("socket_path", None); ("container_id", Some "c1")].
Definition first_version : db :=
  mkDb {[ "sandboxes" := mkTable (list_to_map [("id", null None); ("status", notnull None); ("created_at", notnull None); ("last_active_at", notnull None);
    ("rootfs_path", null None); ("socket_path", null None); ("container_id", null None)]) {[ "s1" := first_row ]} ]} ∅.

(** A start that is cut off after its sixth statement. *)
Definition cut_off (n : nat) : fault := if decide (n = 5%nat) then FailsAfter else Runs.

Lemma first_version_legacy : legacy (known (SQLite "/data/api.db" true)) first_version.
Proof.
  intros t y c Hy Hc. unfold first_version in Hy. cbn [tables] in Hy. apply lookup_singleton_Some in Hy as [<- <-]. cbn [columns].
  apply created_column. revert c Hc. apply Forall_forall. apply (bool_decide_unpack _). by vm_compute.
Qed.

Lemma first_version_constrained : constrained first_version.
Proof. apply (bool_decide_unpack _). by vm_compute. Qed.

Lemma first_version_demanded : demanded "sandboxes" "tenant_id" first_version.
Proof. intros y k Hy Hk. unfold first_version in Hy. cbn [tables] in Hy. apply lookup_singleton_Some in Hy as [_ <-]. by vm_compute in Hk. Qed.

Lemma open_converges_witness : exists b', open_store (SQLite "/data/api.db" true) fine (open_store (SQLite "/data/api.db" true) cut_off first_version).2 = (true, b') /\
  exists y r, tables b' !! "sandboxes" = Some y /\ rows y !! "s1" = Some r /\ r !! "status" = Some (Some "running").
Proof.
  destruct (open_converges (SQLite "/data/api.db" true) first_version cut_off first_version_legacy first_version_constrained first_version_demanded)
    as (b' & _ & H & _ & _ & _ & _ & Hkeep). exists b'. split; [exact H|].
  eapply (Hkeep "sandboxes" _ "s1" first_row "status"); [reflexivity|reflexivity|eexists; reflexivity|reflexivity|]. by intros [_ [?|[? _] ] ].
Defined.

(** ** Runs *)

Definition cell (b : db) (k c : string) : option value := tables b !! "sandboxes" ≫= fun y => rows y !! k ≫= fun r => r !! c.

(** The sandbox of the first version belongs to the administrator afterwards, and its
    container id is gone. *)
Example first_version_upgraded :
  let b := (open_store (SQLite "/data/api.db" true) fine first_version).2 in
  (cell b "s1" "tenant_id", cell b "s1" "egress", cell b "s1" "daemon_port", cell b "s1" "container_id") = (Some (Some "__admin__"), Some (Some "public"), Some (Some "8081"), None).
Proof. by vm_compute. Qed.

(** Foreign keys are on whatever the path and the mode. *)
Lemma sqliteDSN_foreign_keys dbPath useWal : exists pre post, sqliteDSN dbPath useWal = pre +:+ "_pragma=foreign_keys(1)" +:+ post.
Proof.
  unfold sqliteDSN. destruct (decide (dbPath = ":memory:")); [exists ":memory:?", ""; reflexivity|].
  set (post := if useWal then _ else _). destruct (Files.Contains dbPath "?").
  - exists (dbPath +:+ "&"), post. apply chars_inj. rewrite !chars_app. by rewrite <- !app_assoc.
  - exists (dbPath +:+ "?"), post. apply chars_inj. rewrite !chars_app. by rewrite <- !app_assoc.
Qed.
End Migrations.
